(* ===== verification/_CoqProject ===== *)
-Q . S2P
Prelude.v
BTree.v
Reassembly.v
ReassemblyFacts.v
ReassemblySpec.v
ReassemblyExamples.v
Model.v
Fragment.v
FragmentSpec.v
FragmentTheorems.v
Decode.v
DecodeSpec.v
DecodeRoundtrip.v
DecodeExamples.v
Services.v
Flow.v
FlowSpec.v
FlowTimers.v
FlowSystem.v
FlowTheorems.v
FlowExamples.v
Text.v
Chunked.v
ChunkedSpec.v
ChunkedRoundtrip.v
HttpHeader.v
Http.v
HttpTheorems.v
HttpExamples.v
Disk.v
DiskSpec.v
Sink.v
Segment.v
SegmentSpec.v
SegmentStore.v
SegmentStoreSpec.v
Spool.v
SegmentOps.v
SegmentTheorems.v
SegmentCrash.v
SpoolSpec.v
Metadata.v
MetadataTheorems.v
MetadataSink.v
SegmentRestart.v
SegmentExamples.v
Matching.v
Matcher.v
ScanSpec.v
GroupSpec.v
StreamSpec.v
MatcherSpec.v
ReplaySpec.v
LiveReplay.v
MatcherTheorems.v
MatcherExamples.v
Ipv4.v
Topology.v
TopologySpec.v
TopologyTheorems.v
Throttle.v
ThrottleTheorems.v
TopologyExamples.v
L7.v
L7Theorems.v
Replay.v
ReplayRunSpec.v
ReplayRunTheorems.v
ReplayJobs.v
ReplayExamples.v
Capture.v
CaptureSpec.v
CaptureTheorems.v
CaptureSources.v
CaptureSourceTheorems.v
Auth.v
Metrics.v
Affinity.v
Config.v
Runtime.v
