(* ===== verification/Prelude.v ===== *)
(** * BAZALT: a verification library for the traffic analyser

    BAZALT captures packets, puts TCP and UDP streams together again, parses HTTP
    out of them, matches patterns, stores every piece of content in append-only
    segment files, keeps an index of the content in a metadata pipeline, replays the
    past against new patterns, and shows and throttles sources of traffic.  This
    library translates the program, file by file of [src/src/], into executable
    definitions and proves what makes it correct.

    ** The program and its models

    A frame goes through the following parts; each is a group of files here.

    - [capture/mod.rs], [capture/pcap_source.rs], [capture/afxdp.rs],
      [capture/raw.rs]: [Capture] is the early test of a frame, the worker's loop
      and the choice of the sources at start-up; [CaptureSources] the three back ends
      and the writer of raw copies.  [CaptureSpec] relates the early test to the
      decoder; [CaptureTheorems] accounts for every frame, shows that a rejected frame
      would have come to nothing, and that no service is filtered away;
      [CaptureSourceTheorems] puts jumbo frames together and reads raw files back.
    - [capture/parser.rs], [capture/fragment.rs]: [Decode] turns a captured frame
      (Ethernet, VLAN, IPv4, IPv6, GRE, VXLAN, Geneve, TCP, UDP) into a packet; IP
      fragments wait in the cache of [Fragment].  [DecodeSpec]: decoding is total and
      its results well formed; [DecodeRoundtrip]: encoded packets decode to
      themselves.  [FragmentSpec] and [FragmentTheorems]: a datagram completed is the
      one received, for every arrival order, within the limits of the cache.
    - [flow/reassembly.rs]: [Reassembly] is [TcpHalf], method by method, a half and
      the outcome it builds.  [ReassemblyFacts] has the equations of its steps,
      [ReassemblySpec] the abstract stream of first-seen bytes it refines, its
      bounds, its termination and its gap recovery.
    - [model.rs]: [Model] has endpoints, canonical flow keys, hashes and records.
    - [flow/mod.rs]: [Flow] is the shard: its table, tombstones, timers and loop, and
      the system of shards that share the admission counter.  [FlowSpec],
      [FlowTimers] and [FlowSystem] build the invariants; [FlowTheorems] states
      budget, liveness of the timers, generations, tombstones.  [Services] is the
      service registry of [http/mod.rs].
    - [http/mod.rs]: [Chunked] is the chunked decoder, [HttpHeader] the head of a
      message, [Http] the stream parser and the connection, [L7] the worker that fans
      content out to the store and the matcher.  [ChunkedSpec] and [ChunkedRoundtrip]
      relate the decoder to an encoding; [HttpTheorems] shows that what is emitted
      was on the wire, within bounds; [L7Theorems] that nothing of it is lost.
    - [matching/mod.rs]: [Matching] is the rules and the bounded scan, [Matcher] the
      manager, the ingress, the live workers and the scanner of the replay; the
      engines are the class [Engines].  [ScanSpec], [GroupSpec], [StreamSpec],
      [MatcherSpec], [ReplaySpec] and [LiveReplay] build up to [MatcherTheorems]:
      matches stand in the stream, literals are found across any cut, live matching
      equals replay.
    - [storage/segment.rs]: [Segment] is the file format with its scans and its tail
      recovery, [SegmentStore] the writer thread, [SegmentOps] the store's interface
      and the recovery of the index at start-up.  [SegmentSpec] has the round trips of
      the format; [SegmentStoreSpec] the invariant of the thread over the history it
      has received; [SegmentTheorems] (index, budget, replay snapshots),
      [SegmentCrash] (one crash) and [SegmentRestart] (any number of crashes and
      restarts) what follows.
    - [storage/spool.rs], [storage/mod.rs]: [Spool] is the metadata spool, [Metadata]
      the writer, the projector and the barriers as one system of turns.  [SpoolSpec]
      and [MetadataTheorems] show that barriers are sound under every interleaving.
      [Sink] is the interface between the senders and the pipeline: the segment store
      and the replay are verified against its laws, [MetadataSink] shows that the
      pipeline keeps them.
    - [replay/mod.rs]: [Replay] is one run with its threads and the job around it;
      [ReplayRunSpec] has its invariants, [ReplayRunTheorems] that checkpoints are
      durable and that it ends, [ReplayJobs] that a finished job is complete and a
      resumed one continues.
    - [topology.rs], [native/]: [Ipv4] has addresses and prefixes, [Topology] the
      tracker with its observers and snapshots, [Throttle] the rule book, the kernel
      table and the XDP program.  [TopologySpec] and [TopologyTheorems] account for
      the packets, [ThrottleTheorems] relates every verdict to the book.
    - [auth.rs] and the gate of [api/mod.rs]: [Auth], with what a request needs to
      pass, the login limit and the life of a session.
    - [metrics.rs], [resources.rs]: [Metrics], with the queue gauges as the threads
      move them, the text of [/metrics] and the parsers of the system's files.
    - [affinity.rs]: [Affinity], the plan of workers and CPUs.
    - [config.rs]: [Config], reading the environment; an accepted configuration is in
      the ranges the other components' theorems ask for.
    - [runtime.rs] and the joins of every part: [Runtime], the threads and tasks of
      the process with their queues, its supervisor and its shutdown.

    The [...Examples] files evaluate the definitions on concrete inputs and apply
    theorems to them.  [BTree] is [BTreeMap] as a sorted association list, [Text] the
    string functions of the standard library that the parsers use, [Disk] and
    [DiskSpec] a file system with failing calls under [BufWriter].  This file has the
    integers, results, lists and tactics they share.

    ** How the code is translated

    - Integers are [Z] with the wrap-around or saturation of the code written out;
      [usize] has 64 bits.  Bytes are [Byte.byte], [Bytes] and [Vec<u8>] lists of
      them, strings their bytes or their characters.
    - A panic or a loop that would not end is [None] (the components with slices and
      [expect]); an error is [Err], without its message.  [Disk.Eff] threads a state
      through fallible operations: the disk, the file under the writer, the store.
    - Loops over data are structural.  The others take fuel: as many rounds as the
      map has entries, the buffer bytes, the wheel timers or the digits are few, and
      the theorems named [..._total], [..._never_panics], [plan_fits] and the
      equations of the loops show that it is always enough, so that [None] never
      stands for a result.
    - Hash maps are [gmap]; where the code iterates over one, the order is a
      parameter ([HashOrder]) with the hypothesis that it lists the map.
    - A thread is a function per turn of its loop.  Threads that share state are a
      step relation over such turns ([Flow], [Metadata], [Replay], [Throttle],
      [Metrics], [Runtime]), and theorems about them hold for every interleaving; a
      turn itself is atomic.
    - A system call either does its work or, by the fault schedule of [Disk], fails;
      a write may fail after any number of bytes.  A crash keeps of every file a
      beginning that has at least its synchronised bytes.  Directories are flat and
      directory entries are durable at once.

    ** What a theorem may assume

    Parameters stand for code that is not under [src/], most as classes:
    [Engines] (regular expressions and literal search), [PatternDb] and [JobDb]
    (tables of PostgreSQL), [ContentStore] and [DurableLog] (what the replay sees of
    the store and the pipeline), [FrameSource], [PcapCapture] and [XdpRing] (libpcap
    and AF_XDP), [BpfMap] (the kernel's table), [crc32fast], [serde_json],
    [httparse], decompression, base64, random identifiers, clocks, the environment.
    Their hypotheses are documented behaviour: a batch reads back as written, a
    checksum has 32 bits, file names grow with the clock, a filter expression lets
    through what it names.  Each theorem with a hypothesis has a witness.

    ** Not modelled

    - The handlers of [api/mod.rs] past the gate and the login: they take requests
      apart and put JSON together with [axum] and [serde_json] around calls into the
      components modelled here and into the databases.
    - [storage/clickhouse.rs] and [storage/postgres.rs]: text of SQL statements and
      requests to external services.  What the projector, the matcher and the replay
      rely on is a choice of the environment or a class.
    - The creation of threads, tasks and sockets, pinning and priorities, signal
      handlers ([main.rs], the first half of [runtime.rs], the system calls of
      [affinity.rs]); [Runtime] starts when everything runs and leaves the content
      of messages to their components.
    - The floating point numbers of [resources.rs]; [Instant]s out of range; error
      texts, log lines and live events. *)

From Stdlib Require Export ZArith Lia List Bool.
From Stdlib Require Export Strings.Byte.
From stdpp Require Export base option list gmap.

#[export] Set Default Goal Selector "!".

Declare Scope bazalt_scope.
Delimit Scope bazalt_scope with bazalt.
Global Open Scope bazalt_scope.
Global Open Scope Z_scope.

(** ** Machine integers

    An unsigned integer of width [w] is a [Z]; every operation writes out its
    wrap-around or saturation.  [usize] is 64 bits wide, as on the x86_64 and
    aarch64 targets the program is built for. *)

Definition u8_MAX : Z := 2 ^ 8 - 1.
Definition u16_MAX : Z := 2 ^ 16 - 1.
Definition u32_MAX : Z := 2 ^ 32 - 1.
Definition u64_MAX : Z := 2 ^ 64 - 1.

Definition wrap (w : Z) (x : Z) : Z := x mod 2 ^ w.

(** Two's complement reading of the low [w] bits ([as i32]). *)
Definition to_signed (w : Z) (x : Z) : Z :=
  let y := wrap w x in if y <? 2 ^ (w - 1) then y else y - 2 ^ w.

Definition wrapping_add (w : Z) (x y : Z) : Z := wrap w (x + y).
Definition wrapping_sub (w : Z) (x y : Z) : Z := wrap w (x - y).
Definition wrapping_mul (w : Z) (x y : Z) : Z := wrap w (x * y).

(** Saturating arithmetic of [u64] (and [usize]). *)
Definition sat_add (x y : Z) : Z := Z.min (x + y) u64_MAX.
Definition sat_sub (x y : Z) : Z := Z.max 0 (x - y).
Definition sat_mul (x y : Z) : Z := Z.min (x * y) u64_MAX.

Definition rotate_left (w x n : Z) : Z :=
  Z.lor (wrap w (Z.shiftl x n)) (Z.shiftr x (w - n)).

Definition b2z (b : bool) : Z := if b then 1 else 0.

(** ** Bytes and byte strings *)

Abbreviation bytes := (list byte).

#[export] Instance byte_eq_decision : EqDecision byte := byte_eq_dec.

Definition byte_val (b : byte) : Z := Z.of_N (Byte.to_N b).

Definition byte_of (z : Z) : byte :=
  match Byte.of_N (Z.to_N (wrap 8 z)) with Some b => b | None => x00 end.

(** Length of a vector or slice as a [usize]. *)
Definition blen {A} (l : list A) : Z := Z.of_nat (length l).

(** [v\[lo..hi\]]: a slice whose bounds are checked; [None] is the panic. *)
Definition slice {A} (lo hi : Z) (l : list A) : option (list A) :=
  if (0 <=? lo) && (lo <=? hi) && (hi <=? blen l)
  then Some (take (Z.to_nat (hi - lo)) (drop (Z.to_nat lo) l))
  else None.

(** [v\[i\]] with its bounds check. *)
Definition index {A} (l : list A) (i : Z) : option A :=
  if 0 <=? i then l !! Z.to_nat i else None.

(** [Option::expect], [assert!]: [None] is the panic. *)
Definition expect {A} (o : option A) : option A := o.

Definition is_empty {A} (l : list A) : bool :=
  match l with [] => true | _ :: _ => false end.

(** ** Tactics and hint databases shared by the components *)

Create HintDb bazalt.
Create Rewrite HintDb bazalt.

(** Turns boolean tests in hypotheses and goal into propositions. *)
Ltac reflect_bools :=
  repeat match goal with
  | H : (_ && _)%bool = true |- _ => apply andb_true_iff in H; destruct H
  | H : (_ || _)%bool = false |- _ => apply orb_false_iff in H; destruct H
  | H : (_ && _)%bool = false |- _ => apply andb_false_iff in H
  | H : (_ || _)%bool = true |- _ => apply orb_true_iff in H
  | H : negb _ = true |- _ => apply negb_true_iff in H
  | H : negb _ = false |- _ => apply negb_false_iff in H
  | H : (_ <? _) = true |- _ => apply Z.ltb_lt in H
  | H : (_ <? _) = false |- _ => apply Z.ltb_ge in H
  | H : (_ <=? _) = true |- _ => apply Z.leb_le in H
  | H : (_ <=? _) = false |- _ => apply Z.leb_gt in H
  | H : (_ =? _) = true |- _ => apply Z.eqb_eq in H
  | H : (_ =? _) = false |- _ => apply Z.eqb_neq in H
  end.

(** Splits the first [if] or [match] of the goal and reflects its test. *)
Ltac case_step :=
  match goal with
  | |- context [if ?b then _ else _] => destruct b eqn:?
  | |- context [match ?x with _ => _ end] => destruct x eqn:?
  end; reflect_bools; simplify_eq/=.

(** ** Lemmas on lengths, slices and saturation *)

Lemma blen_nil {A} : blen (@nil A) = 0.
Proof. reflexivity. Qed.

Lemma blen_cons {A} (x : A) l : blen (x :: l) = 1 + blen l.
Proof. unfold blen; simpl; lia. Qed.

Lemma blen_app {A} (l1 l2 : list A) : blen (l1 ++ l2) = blen l1 + blen l2.
Proof. unfold blen; rewrite length_app; lia. Qed.

Lemma blen_nonneg {A} (l : list A) : 0 <= blen l.
Proof. unfold blen; lia. Qed.

Lemma blen_zero {A} (l : list A) : blen l = 0 -> l = [].
Proof. destruct l; [done|]. rewrite blen_cons; pose proof (blen_nonneg l); lia. Qed.

Lemma blen_pos {A} (l : list A) : l <> [] -> 0 < blen l.
Proof. destruct l; [done|]. rewrite blen_cons; pose proof (blen_nonneg l); lia. Qed.

Lemma is_empty_spec {A} (l : list A) : is_empty l = true <-> l = [].
Proof. destruct l; simpl; split; congruence. Qed.

Lemma slice_spec {A} lo hi (l : list A) :
  0 <= lo -> lo <= hi -> hi <= blen l ->
  exists d, slice lo hi l = Some d /\ blen d = hi - lo /\
    forall i, 0 <= i < hi - lo -> d !! Z.to_nat i = l !! Z.to_nat (lo + i).
Proof.
  intros H1 H2 H3. unfold slice.
  rewrite (proj2 (Z.leb_le 0 lo)), (proj2 (Z.leb_le lo hi)), (proj2 (Z.leb_le hi (blen l))) by lia.
  eexists; split; [reflexivity|]; split.
  - unfold blen in *. rewrite length_take, length_drop. lia.
  - intros i Hi. rewrite lookup_take_lt by lia. rewrite lookup_drop. f_equal. lia.
Qed.

Lemma slice_full_spec {A} lo hi (l : list A) :
  0 <= lo -> lo <= hi -> hi <= blen l ->
  slice lo hi l = Some (take (Z.to_nat (hi - lo)) (drop (Z.to_nat lo) l)).
Proof.
  intros. unfold slice.
  by rewrite (proj2 (Z.leb_le 0 lo)), (proj2 (Z.leb_le lo hi)), (proj2 (Z.leb_le hi (blen l))) by lia.
Qed.

Lemma slice_prefix {A} n (l : list A) :
  0 <= n <= blen l -> slice 0 n l = Some (take (Z.to_nat n) l).
Proof. intros. rewrite slice_full_spec by lia. by rewrite drop_0, Z.sub_0_r. Qed.

Lemma slice_suffix {A} n (l : list A) :
  0 <= n <= blen l -> slice n (blen l) l = Some (drop (Z.to_nat n) l).
Proof.
  intros. rewrite slice_full_spec by lia. rewrite take_ge; [done|].
  rewrite length_drop. unfold blen in *. lia.
Qed.

Lemma sat_add_small x y : x + y <= u64_MAX -> sat_add x y = x + y.
Proof. unfold sat_add; lia. Qed.

Lemma sat_sub_ge x y : y <= x -> sat_sub x y = x - y.
Proof. unfold sat_sub; lia. Qed.

Lemma wrap_small w x : 0 <= x < 2 ^ w -> wrap w x = x.
Proof. apply Z.mod_small. Qed.

Lemma byte_val_range b : 0 <= byte_val b < 256.
Proof.
  unfold byte_val. pose proof (Byte.to_N_bounded b). lia.
Qed.

Lemma byte_of_val b : byte_of (byte_val b) = b.
Proof.
  unfold byte_of. rewrite wrap_small by apply byte_val_range.
  unfold byte_val. rewrite N2Z.id. by rewrite Byte.of_to_N.
Qed.

Lemma byte_val_of z : byte_val (byte_of z) = wrap 8 z.
Proof.
  unfold byte_of. assert (0 <= wrap 8 z < 256) as Hr by (apply Z.mod_pos_bound; lia).
  destruct (Byte.of_N _) as [b|] eqn:E.
  - apply Byte.to_of_N in E. unfold byte_val. rewrite E. lia.
  - apply Byte.of_N_None_iff in E. lia.
Qed.

(** ** Sums over a finite map *)

Section MapSum.
Context {K V : Type} `{Countable K}.

Definition map_sum (f : V -> Z) (m : gmap K V) : Z := map_fold (fun _ v acc => f v + acc) 0 m.

Lemma map_sum_empty f : map_sum f ∅ = 0.
Proof. done. Qed.

Lemma map_sum_insert f k v m : m !! k = None -> map_sum f (<[k := v]> m) = f v + map_sum f m.
Proof. intros Hk. unfold map_sum. rewrite map_fold_insert_L; [done|intros; lia|done]. Qed.

Lemma map_sum_delete f k v m : m !! k = Some v -> map_sum f m = f v + map_sum f (delete k m).
Proof.
  intros Hk. rewrite <- (insert_delete_id m k v) at 1 by done.
  rewrite map_sum_insert; [done|]. apply lookup_delete_eq.
Qed.

Lemma map_sum_update f k v v' m :
  m !! k = Some v -> map_sum f (<[k := v']> m) = map_sum f m - f v + f v'.
Proof.
  intros Hk. rewrite (map_sum_delete f k v m Hk), <- insert_delete_eq.
  rewrite map_sum_insert by apply lookup_delete_eq. lia.
Qed.

Lemma map_sum_nonneg f m : (forall k v, m !! k = Some v -> 0 <= f v) -> 0 <= map_sum f m.
Proof.
  induction m as [|k v m Hk IH] using map_ind; intros Hm; [by rewrite map_sum_empty|].
  rewrite map_sum_insert by done. pose proof (Hm k v (lookup_insert_eq _ _ _)).
  assert (0 <= map_sum f m); [|lia]. apply IH. intros k' v' Hk'. apply (Hm k').
  rewrite lookup_insert_ne; [done|]. congruence.
Qed.
End MapSum.

#[export] Hint Resolve blen_nonneg byte_val_range : bazalt.
#[export] Hint Rewrite @blen_nil @blen_cons @blen_app : bazalt.
