(* ===== verification/BTree.v ===== *)
(** * The standard library's ordered map, as the program uses it

    [std::collections::BTreeMap<u64, V>] is modelled by its sorted list of
    entries.  Only the operations the sources call are defined:
    [first_key_value], [get], [insert], [remove], [range(..=c).next_back()],
    [range(..c).next_back()], [range(lo..hi).next()] and [range(lo..).next()].
    Used by the TCP reassembler ([out_of_order]) and by the fragment cache
    ([pieces]). *)

From stdpp Require Import sorting.
From S2P Require Import Prelude.

Section BTree.
Context {V : Type}.

Abbreviation btree := (list (Z * V)).
Implicit Types m : btree.

Definition bt_first (m : btree) : option (Z * V) := head m.

Fixpoint bt_get (k : Z) (m : btree) : option V :=
  match m with
  | [] => None
  | (k', v) :: m' => if k =? k' then Some v else bt_get k m'
  end.

Fixpoint bt_insert (k : Z) (v : V) (m : btree) : btree :=
  match m with
  | [] => [(k, v)]
  | (k', v') :: m' =>
      if k <? k' then (k, v) :: m
      else if k =? k' then (k, v) :: m'
      else (k', v') :: bt_insert k v m'
  end.

Fixpoint bt_remove (k : Z) (m : btree) : btree :=
  match m with
  | [] => []
  | (k', v') :: m' => if k =? k' then m' else (k', v') :: bt_remove k m'
  end.

(** [range(..=c).next_back()] *)
Fixpoint bt_last_le (c : Z) (m : btree) : option (Z * V) :=
  match m with
  | [] => None
  | (k, v) :: m' =>
      if k <=? c
      then match bt_last_le c m' with Some e => Some e | None => Some (k, v) end
      else None
  end.

(** [range(..c).next_back()] *)
Definition bt_last_lt (c : Z) (m : btree) : option (Z * V) := bt_last_le (c - 1) m.

(** [range(lo..).next()] *)
Fixpoint bt_first_ge (lo : Z) (m : btree) : option (Z * V) :=
  match m with
  | [] => None
  | (k, v) :: m' => if lo <=? k then Some (k, v) else bt_first_ge lo m'
  end.

(** [range(lo..hi).next()] *)
Definition bt_first_in (lo hi : Z) (m : btree) : option (Z * V) :=
  match bt_first_ge lo m with
  | Some (k, v) => if k <? hi then Some (k, v) else None
  | None => None
  end.

(** Strictly increasing keys: the representation invariant of the map. *)
Fixpoint bt_above (lo : Z) (m : btree) : Prop :=
  match m with
  | [] => True
  | (k, _) :: m' => lo < k /\ bt_above k m'
  end.

Definition bt_sorted m : Prop :=
  match m with [] => True | (k, _) :: m' => bt_above k m' end.

Lemma bt_above_weaken lo lo' m : lo' <= lo -> bt_above lo m -> bt_above lo' m.
Proof. destruct m as [|[k v] m]; simpl; [done|]. intros ? [??]; split; [lia|done]. Qed.

Lemma bt_above_sorted lo m : bt_above lo m -> bt_sorted m.
Proof. destruct m as [|[k v] m]; simpl; tauto. Qed.

Lemma bt_above_In lo m k v : bt_above lo m -> In (k, v) m -> lo < k.
Proof.
  revert lo; induction m as [|[k' v'] m IH]; simpl; intros lo H Hin; [done|].
  destruct H as [H1 H2], Hin as [[= -> ->]|Hin]; [done|].
  specialize (IH _ H2 Hin); lia.
Qed.

Lemma bt_insert_above lo k v m : lo < k -> bt_above lo m -> bt_above lo (bt_insert k v m).
Proof.
  revert lo; induction m as [|[k' v'] m IH]; simpl; intros lo Hlo H; [done|].
  destruct H as [H1 H2].
  destruct (k <? k') eqn:E1; [simpl; reflect_bools; repeat split; (lia || done)|].
  destruct (k =? k') eqn:E2; reflect_bools; simpl.
  - split; [lia|]. by subst.
  - split; [lia|]. apply IH; [lia|done].
Qed.

Lemma bt_insert_sorted k v m : bt_sorted m -> bt_sorted (bt_insert k v m).
Proof.
  destruct m as [|[k' v'] m]; simpl; [done|]. intros H.
  destruct (k <? k') eqn:E1; [simpl; reflect_bools; split; (lia || done)|].
  destruct (k =? k') eqn:E2; reflect_bools; simpl.
  - by subst.
  - apply bt_insert_above; [lia|done].
Qed.

Lemma bt_get_insert k v m k' :
  bt_get k' (bt_insert k v m) = if k' =? k then Some v else bt_get k' m.
Proof.
  induction m as [|[k0 v0] m IH]; simpl; [by destruct (k' =? k)|].
  destruct (k <? k0) eqn:E1; simpl; [done|].
  destruct (k =? k0) eqn:E2; simpl.
  - reflect_bools; subst. by destruct (k' =? k0).
  - rewrite IH. destruct (k' =? k0) eqn:E3, (k' =? k) eqn:E4; reflect_bools; subst; (done || lia).
Qed.

Lemma bt_get_In k v m : bt_sorted m -> In (k, v) m -> bt_get k m = Some v.
Proof.
  assert (forall lo m, bt_above lo m -> In (k, v) m -> bt_get k m = Some v) as Hab.
  { clear m. intros lo m; revert lo. induction m as [|[k' v'] m IH]; simpl; intros lo H Hin; [done|].
    destruct H as [H1 H2], Hin as [[= -> ->]|Hin]; [by rewrite Z.eqb_refl|].
    pose proof (bt_above_In _ _ _ _ H2 Hin).
    rewrite (proj2 (Z.eqb_neq k k')) by lia. eauto. }
  intros H Hin. destruct m as [|[k' v'] m]; [done|].
  apply (Hab (k' - 1)); [|done]. simpl in *. split; [lia|done].
Qed.

Lemma bt_get_Some_In k v m : bt_get k m = Some v -> In (k, v) m.
Proof.
  induction m as [|[k' v'] m IH]; simpl; [done|].
  destruct (k =? k') eqn:E; intros H; reflect_bools; simplify_eq; auto.
Qed.

Lemma bt_In_insert k v m e : In e (bt_insert k v m) -> e = (k, v) \/ In e m.
Proof.
  induction m as [|[k' v'] m IH]; simpl; [intuition|].
  destruct (k <? k'); [simpl; intuition|].
  destruct (k =? k'); simpl; intuition.
Qed.

Lemma bt_remove_first k v m : bt_remove k ((k, v) :: m) = m.
Proof. simpl. by rewrite Z.eqb_refl. Qed.

Lemma bt_last_le_In c m e : bt_last_le c m = Some e -> In e m /\ e.1 <= c.
Proof.
  induction m as [|[k v] m IH]; simpl; [done|].
  destruct (k <=? c) eqn:E; [|done]. reflect_bools.
  destruct (bt_last_le c m) as [e'|]; intros [= <-]; [|simpl; auto].
  destruct IH; auto.
Qed.

Lemma bt_last_le_max c m k v e :
  bt_sorted m -> bt_last_le c m = Some e -> In (k, v) m -> k <= c -> k <= e.1.
Proof.
  revert e. induction m as [|[k0 v0] m IH]; simpl; intros e Hs He Hin Hk; [done|].
  destruct (k0 <=? c) eqn:E; [|done]. reflect_bools.
  destruct (bt_last_le c m) as [e'|] eqn:El; injection He as <-.
  - destruct Hin as [[= -> ->]|Hin].
    + apply bt_last_le_In in El as [Hin' _]. destruct e' as [k' v'].
      pose proof (bt_above_In _ _ _ _ Hs Hin'). simpl; lia.
    + apply IH; eauto using bt_above_sorted.
  - destruct Hin as [[= -> ->]|Hin]; [done|]. exfalso.
    clear IH. induction m as [|[k' v'] m IH]; [done|]. simpl in El, Hs. destruct Hs as [Hs1 Hs2].
    destruct (k' <=? c) eqn:E'; [by destruct (bt_last_le c m)|]. reflect_bools.
    destruct Hin as [[= -> ->]|Hin]; [lia|].
    pose proof (bt_above_In _ _ _ _ Hs2 Hin). lia.
Qed.

Lemma bt_last_le_None c m k v :
  bt_sorted m -> bt_last_le c m = None -> In (k, v) m -> c < k.
Proof.
  destruct m as [|[k0 v0] m]; simpl; [done|].
  destruct (k0 <=? c) eqn:E; [by destruct (bt_last_le c m)|]. reflect_bools.
  intros Hs _ [[= -> ->]|Hin]; [done|].
  pose proof (bt_above_In _ _ _ _ Hs Hin). lia.
Qed.

Lemma bt_first_ge_spec lo m k v :
  bt_sorted m -> In (k, v) m -> lo <= k ->
  exists e, bt_first_ge lo m = Some e /\ In e m /\ lo <= e.1 <= k.
Proof.
  induction m as [|[k0 v0] m IH]; simpl; intros Hs Hin Hk; [done|].
  destruct (lo <=? k0) eqn:E; reflect_bools.
  - eexists; split; [done|]; split; [auto|]. simpl; split; [done|].
    destruct Hin as [[= -> ->]|Hin]; [lia|].
    pose proof (bt_above_In _ _ _ _ Hs Hin). lia.
  - destruct Hin as [[= -> ->]|Hin]; [lia|].
    destruct IH as (e & ? & ? & ?); eauto using bt_above_sorted.
Qed.

Lemma bt_first_ge_In lo m e : bt_first_ge lo m = Some e -> In e m /\ lo <= e.1.
Proof.
  induction m as [|[k v] m IH]; simpl; [done|].
  destruct (lo <=? k) eqn:E; intros H; reflect_bools; simplify_eq; simpl; [auto|].
  destruct IH; auto.
Qed.

Lemma bt_first_in_Some lo hi m e :
  bt_sorted m -> bt_first_in lo hi m = Some e ->
  In e m /\ lo <= e.1 < hi /\ forall k v, In (k, v) m -> lo <= k -> e.1 <= k.
Proof.
  unfold bt_first_in. intros Hs.
  destruct (bt_first_ge lo m) as [[k v]|] eqn:E; [|done].
  destruct (k <? hi) eqn:E2; intros [= <-]. reflect_bools.
  pose proof (bt_first_ge_In _ _ _ E) as [Hin ?]. simpl in *. repeat split; [done|done|lia|].
  intros k' v' Hin' Hk'. destruct (bt_first_ge_spec lo m k' v' Hs Hin' Hk') as (e & He & ? & ?).
  rewrite E in He. injection He as <-. simpl in *; lia.
Qed.

Lemma bt_first_in_None lo hi m k v :
  bt_sorted m -> bt_first_in lo hi m = None -> In (k, v) m -> k < lo \/ hi <= k.
Proof.
  unfold bt_first_in. intros Hs H Hin. destruct (Z.lt_ge_cases k lo); [auto|right].
  destruct (bt_first_ge_spec lo m k v Hs Hin) as ([k' v'] & He & _ & ?); [lia|].
  rewrite He in H. simpl in *. destruct (k' <? hi) eqn:E; [done|]. reflect_bools. lia.
Qed.
End BTree.

Abbreviation btree V := (list (Z * V)).

#[export] Hint Resolve bt_insert_sorted bt_above_sorted : bazalt.
