(* ===== verification/Reassembly.v ===== *)
(** * TCP half-stream reassembly ([src/src/flow/reassembly.rs])

    [TcpHalf] with every method of the source.  A method that takes
    [&mut self] and [&mut out] is a function on a state [st], the pair of the
    half and the outcome under construction.  The result [None] is a panic of
    the Rust code ([expect], a slice bound) or a loop that does not end;
    [ReassemblyFacts.v] proves that neither happens. *)

From S2P Require Import Prelude BTree.

Definition INITIAL_SEQ_EPOCH : Z := Z.shiftl 1 32.

Record BufferedSegment := { seg_data : bytes; seg_ts_ns : Z }.

Record ReassembledChunk := { chunk_offset : Z; chunk_ts_ns : Z; chunk_data : bytes }.

Record StreamGap := { gap_offset : Z; gap_len : Z }.

Record ReassemblyOutcome := {
  emitted : list ReassembledChunk;
  gaps : list StreamGap;
  retransmit : bool;
  saw_out_of_order : bool;
  out_fin_consumed : bool
}.

Definition outcome_default : ReassemblyOutcome :=
  {| emitted := []; gaps := []; retransmit := false; saw_out_of_order := false;
     out_fin_consumed := false |}.

Record TcpHalf := {
  next_abs : option Z;
  stream_offset : Z;
  out_of_order : btree BufferedSegment;
  out_of_order_bytes : Z;
  pending_fin : option Z;
  pending_fin_requires_ack : bool;
  fin_consumed : bool;
  initial_syn_seq : option Z;
  peer_ack_abs : option Z;
  gap_started_ts_ns : option Z
}.

Definition TcpHalf_default : TcpHalf :=
  {| next_abs := None; stream_offset := 0; out_of_order := []; out_of_order_bytes := 0;
     pending_fin := None; pending_fin_requires_ack := false; fin_consumed := false;
     initial_syn_seq := None; peer_ack_abs := None; gap_started_ts_ns := None |}.

(** ** Field assignments *)

Definition set_next (h : TcpHalf) (n : option Z) : TcpHalf :=
  {| next_abs := n; stream_offset := stream_offset h; out_of_order := out_of_order h;
     out_of_order_bytes := out_of_order_bytes h; pending_fin := pending_fin h;
     pending_fin_requires_ack := pending_fin_requires_ack h; fin_consumed := fin_consumed h;
     initial_syn_seq := initial_syn_seq h; peer_ack_abs := peer_ack_abs h;
     gap_started_ts_ns := gap_started_ts_ns h |}.

Definition set_stream_offset (h : TcpHalf) (o : Z) : TcpHalf :=
  {| next_abs := next_abs h; stream_offset := o; out_of_order := out_of_order h;
     out_of_order_bytes := out_of_order_bytes h; pending_fin := pending_fin h;
     pending_fin_requires_ack := pending_fin_requires_ack h; fin_consumed := fin_consumed h;
     initial_syn_seq := initial_syn_seq h; peer_ack_abs := peer_ack_abs h;
     gap_started_ts_ns := gap_started_ts_ns h |}.

Definition set_ooo (h : TcpHalf) (m : btree BufferedSegment) (n : Z) : TcpHalf :=
  {| next_abs := next_abs h; stream_offset := stream_offset h; out_of_order := m;
     out_of_order_bytes := n; pending_fin := pending_fin h;
     pending_fin_requires_ack := pending_fin_requires_ack h; fin_consumed := fin_consumed h;
     initial_syn_seq := initial_syn_seq h; peer_ack_abs := peer_ack_abs h;
     gap_started_ts_ns := gap_started_ts_ns h |}.

Definition set_pending_fin (h : TcpHalf) (f : option Z) (req : bool) : TcpHalf :=
  {| next_abs := next_abs h; stream_offset := stream_offset h; out_of_order := out_of_order h;
     out_of_order_bytes := out_of_order_bytes h; pending_fin := f;
     pending_fin_requires_ack := req; fin_consumed := fin_consumed h;
     initial_syn_seq := initial_syn_seq h; peer_ack_abs := peer_ack_abs h;
     gap_started_ts_ns := gap_started_ts_ns h |}.

Definition set_fin_consumed (h : TcpHalf) (b : bool) : TcpHalf :=
  {| next_abs := next_abs h; stream_offset := stream_offset h; out_of_order := out_of_order h;
     out_of_order_bytes := out_of_order_bytes h; pending_fin := pending_fin h;
     pending_fin_requires_ack := pending_fin_requires_ack h; fin_consumed := b;
     initial_syn_seq := initial_syn_seq h; peer_ack_abs := peer_ack_abs h;
     gap_started_ts_ns := gap_started_ts_ns h |}.

Definition set_initial_syn (h : TcpHalf) (s : option Z) : TcpHalf :=
  {| next_abs := next_abs h; stream_offset := stream_offset h; out_of_order := out_of_order h;
     out_of_order_bytes := out_of_order_bytes h; pending_fin := pending_fin h;
     pending_fin_requires_ack := pending_fin_requires_ack h; fin_consumed := fin_consumed h;
     initial_syn_seq := s; peer_ack_abs := peer_ack_abs h;
     gap_started_ts_ns := gap_started_ts_ns h |}.

Definition set_peer_ack (h : TcpHalf) (a : option Z) : TcpHalf :=
  {| next_abs := next_abs h; stream_offset := stream_offset h; out_of_order := out_of_order h;
     out_of_order_bytes := out_of_order_bytes h; pending_fin := pending_fin h;
     pending_fin_requires_ack := pending_fin_requires_ack h; fin_consumed := fin_consumed h;
     initial_syn_seq := initial_syn_seq h; peer_ack_abs := a;
     gap_started_ts_ns := gap_started_ts_ns h |}.

Definition set_gap_started (h : TcpHalf) (t : option Z) : TcpHalf :=
  {| next_abs := next_abs h; stream_offset := stream_offset h; out_of_order := out_of_order h;
     out_of_order_bytes := out_of_order_bytes h; pending_fin := pending_fin h;
     pending_fin_requires_ack := pending_fin_requires_ack h; fin_consumed := fin_consumed h;
     initial_syn_seq := initial_syn_seq h; peer_ack_abs := peer_ack_abs h;
     gap_started_ts_ns := t |}.

Definition push_chunk (o : ReassemblyOutcome) (c : ReassembledChunk) : ReassemblyOutcome :=
  {| emitted := emitted o ++ [c]; gaps := gaps o; retransmit := retransmit o;
     saw_out_of_order := saw_out_of_order o; out_fin_consumed := out_fin_consumed o |}.

Definition push_gap (o : ReassemblyOutcome) (g : StreamGap) : ReassemblyOutcome :=
  {| emitted := emitted o; gaps := gaps o ++ [g]; retransmit := retransmit o;
     saw_out_of_order := saw_out_of_order o; out_fin_consumed := out_fin_consumed o |}.

Definition mark_retransmit (o : ReassemblyOutcome) : ReassemblyOutcome :=
  {| emitted := emitted o; gaps := gaps o; retransmit := true;
     saw_out_of_order := saw_out_of_order o; out_fin_consumed := out_fin_consumed o |}.

Definition mark_out_of_order (o : ReassemblyOutcome) : ReassemblyOutcome :=
  {| emitted := emitted o; gaps := gaps o; retransmit := retransmit o;
     saw_out_of_order := true; out_fin_consumed := out_fin_consumed o |}.

Definition mark_fin_consumed (o : ReassemblyOutcome) : ReassemblyOutcome :=
  {| emitted := emitted o; gaps := gaps o; retransmit := retransmit o;
     saw_out_of_order := saw_out_of_order o; out_fin_consumed := true |}.

Abbreviation st := (TcpHalf * ReassemblyOutcome)%type.

(** ** Sequence numbers *)

Definition extend_seq (seq reference : Z) : Z :=
  let delta := to_signed 32 (wrapping_sub 32 seq (wrap 32 reference)) in
  if 0 <=? delta then sat_add reference delta else sat_sub reference (- delta).

Definition seg_end (start : Z) (s : BufferedSegment) : Z := sat_add start (blen (seg_data s)).

(** ** Queries and control *)

Definition observe (h : TcpHalf) (seq : Z) (syn : bool) : TcpHalf :=
  let h :=
    match next_abs h with
    | None => set_next h (Some (INITIAL_SEQ_EPOCH + wrapping_add 32 seq (b2z syn)))
    | Some _ => h
    end in
  match initial_syn_seq h with
  | None => if syn then set_initial_syn h (Some seq) else h
  | Some _ => h
  end.

Definition is_initialized (h : TcpHalf) : bool :=
  match next_abs h with Some _ => true | None => false end.

Definition rst_matches_next (h : TcpHalf) (seq : Z) : bool :=
  match next_abs h with
  | None => true
  | Some expected => extend_seq seq expected =? expected
  end.

Definition reserve_udp_offset (h : TcpHalf) (len : Z) : Z * TcpHalf :=
  (stream_offset h, set_stream_offset h (sat_add (stream_offset h) len)).

(** ** Emission *)

Definition acked_past (h : TcpHalf) (fin : Z) : bool :=
  match peer_ack_abs h with Some ack => fin <? ack | None => false end.

Definition consume_fin_if_ready (s : st) : st :=
  let '(h, out) := s in
  if fin_consumed h then s
  else
    match pending_fin h, next_abs h with
    | Some fin, Some next =>
        if fin <=? next then
          if (fin =? next) && (pending_fin_requires_ack h && negb (acked_past h fin)) then s
          else
            let h := if fin =? next then set_next h (Some (sat_add next 1)) else h in
            let h := set_fin_consumed h true in
            let h := set_pending_fin h (pending_fin h) false in
            let h := set_ooo h [] 0 in
            (set_gap_started h None, mark_fin_consumed out)
        else s
    | _, _ => s
    end.

Definition emit (data : bytes) (ts_ns : Z) (s : st) : option st :=
  let '(h, out) := s in
  if is_empty data then Some s
  else
    let offset := stream_offset h in
    let h := set_stream_offset h (sat_add (stream_offset h) (blen data)) in
    next ← expect (next_abs h);
    let h := set_next h (Some (sat_add next (blen data))) in
    let out := push_chunk out {| chunk_offset := offset; chunk_ts_ns := ts_ns; chunk_data := data |} in
    Some (consume_fin_if_ready (h, out)).

Definition emit_gap_to (target : Z) (s : st) : option st :=
  let '(h, out) := s in
  expected ← expect (next_abs h);
  let target := match pending_fin h with Some fin => Z.min target fin | None => target end in
  if target <=? expected then Some s
  else
    let len := target - expected in
    let offset := stream_offset h in
    let h := set_stream_offset h (sat_add (stream_offset h) len) in
    let h := set_next h (Some target) in
    let out := push_gap out {| gap_offset := offset; gap_len := len |} in
    Some (consume_fin_if_ready (h, out)).

Fixpoint flush_ooo_loop (fuel : nat) (s : st) : option st :=
  match fuel with
  | O => None
  | S fuel =>
      let '(h, out) := s in
      if fin_consumed h then Some s
      else
        match next_abs h, bt_first (out_of_order h) with
        | Some expected, Some (first_key, _) =>
            if expected <? first_key then Some s
            else
              segment ← expect (bt_get first_key (out_of_order h));
              let h := set_ooo h (bt_remove first_key (out_of_order h))
                         (sat_sub (out_of_order_bytes h) (blen (seg_data segment))) in
              if first_key <? expected then
                let overlap := sat_sub expected first_key in
                if blen (seg_data segment) <=? overlap then flush_ooo_loop fuel (h, out)
                else
                  d ← slice overlap (blen (seg_data segment)) (seg_data segment);
                  s' ← emit d (seg_ts_ns segment) (h, out);
                  flush_ooo_loop fuel s'
              else
                s' ← emit (seg_data segment) (seg_ts_ns segment) (h, out);
                flush_ooo_loop fuel s'
        | _, _ => Some s
        end
  end.

(** One buffered segment leaves the map in every round. *)
Definition flush_ooo (s : st) : option st := flush_ooo_loop (S (length (out_of_order s.1))) s.

(** ** Buffering *)

Fixpoint insert_ooo_loop (fuel : nat) (start end_ cursor ts_ns : Z) (data : bytes) (s : st)
  : option st :=
  match fuel with
  | O => None
  | S fuel =>
      if negb (cursor <? end_) then Some s
      else
        let '(h, out) := s in
        let covering :=
          match bt_last_le cursor (out_of_order h) with
          | Some (existing_start, existing) =>
              let existing_end := seg_end existing_start existing in
              if cursor <? existing_end then Some existing_end else None
          | None => None
          end in
        match covering with
        | Some existing_end =>
            insert_ooo_loop fuel start end_ (Z.min existing_end end_) ts_ns data
              (h, mark_retransmit out)
        | None =>
            let next :=
              match bt_first_in cursor end_ (out_of_order h) with
              | Some (k, sg) => Some (k, seg_end k sg)
              | None => None
              end in
            let piece_end :=
              Z.min (match next with Some (k, _) => k | None => end_ end) end_ in
            '(h, cursor) ←
              (if cursor <? piece_end then
                 compact ← slice (cursor - start) (piece_end - start) data;
                 Some (set_ooo h
                         (bt_insert cursor {| seg_data := compact; seg_ts_ns := ts_ns |}
                            (out_of_order h))
                         (sat_add (out_of_order_bytes h) (blen compact)),
                       piece_end)
               else Some (h, cursor));
            match next with
            | Some (next_start, next_end) =>
                if (next_start <=? cursor) && (cursor <? next_end)
                then insert_ooo_loop fuel start end_ (Z.min next_end end_) ts_ns data
                       (h, mark_retransmit out)
                else insert_ooo_loop fuel start end_ cursor ts_ns data (h, out)
            | None => insert_ooo_loop fuel start end_ cursor ts_ns data (h, out)
            end
        end
  end.

(** Every round moves the cursor by at least one byte of [data]. *)
Definition insert_ooo_first_seen (start ts_ns : Z) (data : bytes) (s : st) : option st :=
  insert_ooo_loop (S (length data)) start (sat_add start (blen data)) start ts_ns data s.

(** ** Gap recovery *)

Fixpoint recover_known_ack_loop (fuel : nat) (ack_abs : Z) (s : st) : option st :=
  match fuel with
  | O => None
  | S fuel =>
      match next_abs s.1 with
      | None => Some s
      | Some expected =>
          if ack_abs <=? expected then Some s
          else
            match bt_first (out_of_order s.1) with
            | None =>
                match pending_fin s.1 with
                | Some fin =>
                    if (expected <? fin) && (fin <? ack_abs)
                    then s ← emit_gap_to fin s; Some (consume_fin_if_ready s)
                    else Some s
                | None => Some s
                end
            | Some (first, _) =>
                s ← (if expected <? first then emit_gap_to (Z.min first ack_abs) s else Some s);
                now ← expect (next_abs s.1);
                if ack_abs <=? now then Some s
                else
                  s' ← flush_ooo s;
                  if fin_consumed s'.1 then Some s'
                  else if bool_decide (next_abs s'.1 = Some now)
                          && (out_of_order_bytes s'.1 =? out_of_order_bytes s.1)
                  then Some s'
                  else recover_known_ack_loop fuel ack_abs s'
            end
      end
  end.

Definition recover_known_ack (s : st) : option st :=
  match peer_ack_abs s.1 with
  | None => Some s
  | Some ack_abs => recover_known_ack_loop (S (length (out_of_order s.1))) ack_abs s
  end.

Definition recover_ooo_timeout (max_age_ns ts_ns : Z) (s : st) : option st :=
  let '(h, out) := s in
  match next_abs h, bt_first (out_of_order h) with
  | Some expected, Some (first, _) =>
      if first <=? expected then flush_ooo (set_gap_started h None, out)
      else
        match gap_started_ts_ns h with
        | None => Some (set_gap_started h (Some ts_ns), out)
        | Some started =>
            if sat_sub ts_ns started <? max_age_ns then Some s
            else
              s ← emit_gap_to first s;
              '(h, out) ← flush_ooo s;
              let h := set_gap_started h None in
              match bt_first (out_of_order h), next_abs h with
              | Some (next, _), Some expected =>
                  if expected <? next then Some (set_gap_started h (Some ts_ns), out)
                  else Some (h, out)
              | _, _ => Some (h, out)
              end
        end
  | _, _ => Some (set_gap_started h None, out)
  end.

Fixpoint recover_ooo_pressure_loop (fuel : nat) (max_ooo max_segments : Z) (s : st) : option st :=
  match fuel with
  | O => None
  | S fuel =>
      if negb ((max_ooo <? out_of_order_bytes s.1) || (max_segments <? blen (out_of_order s.1)))
      then Some s
      else
        match bt_first (out_of_order s.1) with
        | None => Some s
        | Some (first, _) =>
            expected ← expect (next_abs s.1);
            s ← (if expected <? first then emit_gap_to first s else Some s);
            s' ← flush_ooo s;
            if fin_consumed s'.1 || (out_of_order_bytes s.1 <=? out_of_order_bytes s'.1)
            then Some s'
            else recover_ooo_pressure_loop fuel max_ooo max_segments s'
        end
  end.

Definition recover_ooo_pressure (max_ooo max_segments : Z) (s : st) : option st :=
  recover_ooo_pressure_loop (S (length (out_of_order s.1))) max_ooo max_segments s.

(** ** The public operations *)

(** The [pending_fin] bookkeeping of [accept]. *)
Definition note_fin (h : TcpHalf) (fin : bool) (start_abs end_abs expected : Z) : TcpHalf :=
  if fin && (expected <=? end_abs) then
    match pending_fin h with
    | None => set_pending_fin h (Some end_abs) (expected <? start_abs)
    | Some existing =>
        if (existing =? end_abs) && (start_abs <=? expected)
        then set_pending_fin h (pending_fin h) false
        else if pending_fin_requires_ack h && (start_abs <=? expected)
        then set_pending_fin h (Some end_abs) false
        else h
    end
  else h.

(** A validated FIN is an upper bound of the payload; a tentative one yields
    to payload beyond it. *)
Definition clip_to_fin (start_abs end_abs : Z) (data : bytes) (s : st) : option (st * bytes) :=
  let '(h, out) := s in
  match pending_fin h with
  | Some fin_abs =>
      if fin_abs <? end_abs then
        if pending_fin_requires_ack h && negb (acked_past h fin_abs)
        then Some ((set_pending_fin h None false, out), data)
        else if fin_abs <=? start_abs
        then Some ((h, if is_empty data then out else mark_retransmit out), [])
        else
          d ← slice 0 (fin_abs - start_abs) data;
          Some ((h, mark_retransmit out), d)
      else Some (s, data)
  | None => Some (s, data)
  end.

(** The payload branch of [accept]. *)
Definition ingest (expected start_abs ts_ns : Z) (data : bytes) (max_ooo max_ooo_segments : Z)
  (s : st) : option st :=
  if is_empty data then Some s
  else if expected <? start_abs then
    s ← insert_ooo_first_seen start_abs ts_ns data (s.1, mark_out_of_order s.2);
    s ← recover_known_ack s;
    recover_ooo_pressure max_ooo max_ooo_segments s
  else
    let overlap := sat_sub expected start_abs in
    let start := if start_abs <? expected
                 then if blen data <=? overlap then 0 else overlap
                 else 0 in
    let out := if start_abs <? expected then mark_retransmit s.2 else s.2 in
    tail ← (if start =? 0 then Some data else slice start (blen data) data);
    let tail_abs := sat_add start_abs start in
    if is_empty (out_of_order s.1) then emit tail ts_ns (s.1, out)
    else
      s ← insert_ooo_first_seen tail_abs ts_ns tail (s.1, out);
      s ← flush_ooo s;
      s ← recover_known_ack s;
      recover_ooo_pressure max_ooo max_ooo_segments s.

Definition accept (h : TcpHalf) (seq : Z) (syn fin : bool) (ts_ns : Z) (data : bytes)
  (max_ooo max_ooo_segments gap_timeout_ns : Z) : option (TcpHalf * ReassemblyOutcome) :=
  let out := outcome_default in
  let h := observe h seq syn in
  if fin_consumed h then
    Some (h, if is_empty data then out else mark_retransmit out)
  else
    expected ← expect (next_abs h);
    let payload_seq := wrapping_add 32 seq (b2z syn) in
    let start_abs := extend_seq payload_seq expected in
    let end_abs := sat_add start_abs (blen data) in
    let h := note_fin h fin start_abs end_abs expected in
    '(s, data) ← clip_to_fin start_abs end_abs data (h, out);
    s ← ingest expected start_abs ts_ns data max_ooo max_ooo_segments s;
    s ← (match pending_fin s.1 with
         | Some _ => if fin_consumed s.1 then Some s else recover_known_ack s
         | None => Some s
         end);
    s ← recover_ooo_timeout gap_timeout_ns ts_ns s;
    Some (consume_fin_if_ready s).

(** The watermark update of [acknowledge]. *)
Definition note_ack (h : TcpHalf) (ack_abs expected : Z) : TcpHalf :=
  if (expected <? ack_abs)
     && match peer_ack_abs h with Some current => current <? ack_abs | None => true end
  then set_peer_ack h (Some ack_abs) else h.

Definition acknowledge (h : TcpHalf) (ack ts_ns gap_timeout_ns : Z)
  : option (TcpHalf * ReassemblyOutcome) :=
  let out := outcome_default in
  match next_abs h with
  | None => Some (h, out)
  | Some expected =>
      let h := note_ack h (extend_seq ack expected) expected in
      if is_empty (out_of_order h)
         && match pending_fin h with Some _ => false | None => true end
      then Some (h, out)
      else
        s ← recover_known_ack (h, out);
        s ← recover_ooo_timeout gap_timeout_ns ts_ns s;
        Some (consume_fin_if_ready s)
  end.

Fixpoint finalize_loop (fuel : nat) (s : st) : option st :=
  match fuel with
  | O => None
  | S fuel =>
      match next_abs s.1, bt_first (out_of_order s.1) with
      | Some expected, Some (first, _) =>
          s ← (if expected <? first then emit_gap_to first s else Some s);
          s' ← flush_ooo s;
          if fin_consumed s'.1 then Some s'
          else if bool_decide (next_abs s'.1 = next_abs s.1)
                  && (out_of_order_bytes s'.1 =? out_of_order_bytes s.1)
          then Some s'
          else finalize_loop fuel s'
      | _, _ => Some s
      end
  end.

Definition finalize (h : TcpHalf) : option (TcpHalf * ReassemblyOutcome) :=
  s ← finalize_loop (S (length (out_of_order h))) (h, outcome_default);
  let '(h, out) := consume_fin_if_ready s in
  Some (set_gap_started h None, out).
