(* ===== verification/ReassemblyFacts.v ===== *)
(** * Invariants and functional correctness of the reassembler

    The abstract view of a half is its expected sequence number, its stream
    offset and the function [buf] from sequence numbers to the buffered byte
    and its capture time.  [delivers] relates two states of one operation: the
    emitted chunks and gaps tile the stream offsets that were passed, a chunk
    holds exactly the buffered bytes, a gap only bytes never seen, and what is
    not passed stays buffered. *)

From S2P Require Import Prelude BTree Reassembly.

(** Sequence numbers and offsets below this bound never saturate. *)
Definition HI : Z := 2 ^ 63.

#[local] Arguments consume_fin_if_ready : simpl never.
#[local] Arguments emit : simpl never.
#[local] Arguments emit_gap_to : simpl never.
#[local] Arguments flush_ooo : simpl never.

(** ** The abstract view *)

Fixpoint buf (m : btree BufferedSegment) (p : Z) : option (byte * Z) :=
  match m with
  | [] => None
  | (k, s) :: m' =>
      if (k <=? p) && (p <? k + blen (seg_data s))
      then (fun b => (b, seg_ts_ns s)) <$> seg_data s !! Z.to_nat (p - k)
      else buf m' p
  end.

Fixpoint total (m : btree BufferedSegment) : Z :=
  match m with [] => 0 | (_, s) :: m' => blen (seg_data s) + total m' end.

(** Non-empty, disjoint, increasing segments within [lo, hi). *)
Fixpoint chain (lo : Z) (m : btree BufferedSegment) (hi : Z) : Prop :=
  match m with
  | [] => True
  | (k, s) :: m' =>
      lo <= k /\ 0 < blen (seg_data s) /\ k + blen (seg_data s) <= hi /\
      chain (k + blen (seg_data s)) m' hi
  end.

Inductive event := EvChunk (c : ReassembledChunk) | EvGap (g : StreamGap).

Definition ev_off (e : event) : Z :=
  match e with EvChunk c => chunk_offset c | EvGap g => gap_offset g end.

Definition ev_len (e : event) : Z :=
  match e with EvChunk c => blen (chunk_data c) | EvGap g => gap_len g end.

(** What the event says of the byte at index [i] of its range. *)
Definition ev_at (e : event) (i : Z) : option (byte * Z) :=
  match e with
  | EvChunk c => (fun b => (b, chunk_ts_ns c)) <$> chunk_data c !! Z.to_nat i
  | EvGap _ => None
  end.

Fixpoint tiles (o : Z) (evs : list event) (o' : Z) : Prop :=
  match evs with
  | [] => o = o'
  | e :: evs => ev_off e = o /\ 0 < ev_len e /\ tiles (o + ev_len e) evs o'
  end.

Definition chunks_of (evs : list event) : list ReassembledChunk :=
  omap (fun e => match e with EvChunk c => Some c | EvGap _ => None end) evs.

Definition gaps_of (evs : list event) : list StreamGap :=
  omap (fun e => match e with EvChunk _ => None | EvGap g => Some g end) evs.

Definition nextz (h : TcpHalf) : Z := default 0 (next_abs h).

(** Event [e] reports the contents [f] of the sequence space, when stream
    offset [o] stands for sequence number [n]. *)
Definition reports (f : Z -> option (byte * Z)) (n o : Z) (e : event) : Prop :=
  forall i, 0 <= i < ev_len e -> ev_at e i = f (n + (ev_off e - o) + i).

(** The output [out'] extends [out] by events that pass the offsets from [o]
    to [o'] and report [f]. *)
Definition extends (f : Z -> option (byte * Z)) (n o o' : Z) (out out' : ReassemblyOutcome)
  : Prop :=
  exists evs,
    emitted out' = emitted out ++ chunks_of evs /\
    gaps out' = gaps out ++ gaps_of evs /\
    tiles o evs o' /\ Forall (reports f n o) evs.

Record live (lo : Z) (h : TcpHalf) : Prop := {
  live_open : fin_consumed h = false;
  live_next : next_abs h = Some (nextz h);
  live_off : 0 <= stream_offset h <= nextz h;
  live_hi : nextz h <= HI;
  live_chain : chain lo (out_of_order h) HI;
  live_bytes : out_of_order_bytes h = total (out_of_order h);
  live_fin : forall f, pending_fin h = Some f -> f <= HI;
  live_ack : forall a, peer_ack_abs h = Some a -> a <= HI
}.

(** After the FIN was consumed. *)
Record closed (h : TcpHalf) : Prop := {
  closed_fin : fin_consumed h = true;
  closed_next : is_Some (next_abs h);
  closed_ooo : out_of_order h = [];
  closed_bytes : out_of_order_bytes h = 0;
  closed_pending : forall f, pending_fin h = Some f -> f <= nextz h
}.

(** The representation invariant between operations: nothing that could be
    delivered is still buffered. *)
Definition wf (h : TcpHalf) : Prop := live (nextz h + 1) h \/ closed h.

(** The invariant inside operations. *)
Definition good (h : TcpHalf) : Prop := live (nextz h) h \/ closed h.

Record delivers (s s' : st) : Prop := {
  dl_ext : fin_consumed s.1 = false ->
    extends (buf (out_of_order s.1)) (nextz s.1) (stream_offset s.1) (stream_offset s'.1) s.2 s'.2;
  dl_next : fin_consumed s'.1 = false ->
    nextz s'.1 = nextz s.1 + (stream_offset s'.1 - stream_offset s.1);
  dl_mono : stream_offset s.1 <= stream_offset s'.1;
  dl_buf : fin_consumed s'.1 = false ->
    forall p, nextz s'.1 <= p -> buf (out_of_order s'.1) p = buf (out_of_order s.1) p;
  dl_frame : fin_consumed s'.1 = false ->
    pending_fin s'.1 = pending_fin s.1 /\
    pending_fin_requires_ack s'.1 = pending_fin_requires_ack s.1;
  dl_peer : peer_ack_abs s'.1 = peer_ack_abs s.1;
  dl_syn : initial_syn_seq s'.1 = initial_syn_seq s.1;
  dl_len : (length (out_of_order s'.1) <= length (out_of_order s.1))%nat;
  dl_total : total (out_of_order s'.1) <= total (out_of_order s.1);
  dl_closed : fin_consumed s.1 = true ->
    fin_consumed s'.1 = true /\ s'.2 = s.2 /\ stream_offset s'.1 = stream_offset s.1;
  dl_nofin : pending_fin s.1 = None -> fin_consumed s'.1 = fin_consumed s.1
}.

(** ** Lemmas on the view *)

Lemma chain_weaken lo lo' m hi : lo' <= lo -> chain lo m hi -> chain lo' m hi.
Proof. destruct m as [|[k s] m]; simpl; [done|]. intros ? (?&?&?&?). repeat split; (lia || done). Qed.

Lemma chain_In lo m hi k s :
  chain lo m hi -> In (k, s) m -> lo <= k /\ 0 < blen (seg_data s) /\ k + blen (seg_data s) <= hi.
Proof.
  revert lo; induction m as [|[k' s'] m IH]; simpl; intros lo H Hin; [done|].
  destruct H as (?&?&?&?), Hin as [[= -> ->]|Hin]; [done|].
  destruct (IH _ H2 Hin) as (?&?&?). repeat split; lia.
Qed.

Lemma chain_sorted lo m hi : chain lo m hi -> bt_sorted m.
Proof.
  assert (forall m lo lo', chain lo m hi -> lo' < lo -> bt_above lo' m) as Hab.
  { clear. induction m as [|[k s] m IH]; simpl; [done|]. intros lo lo' (?&?&?&?) ?.
    split; [lia|]. eapply IH; [done|lia]. }
  intros H. apply (bt_above_sorted (lo - 1)). eapply Hab; [done|lia].
Qed.

(** Of two different buffered segments, one ends before the other starts. *)
Lemma chain_disjoint lo m hi k s k' s' :
  chain lo m hi -> In (k, s) m -> In (k', s') m -> k < k' -> k + blen (seg_data s) <= k'.
Proof.
  revert lo; induction m as [|[k0 s0] m IH]; simpl; intros lo H Hin Hin' Hlt; [done|].
  destruct H as (?&?&?&Hc). destruct Hin as [[= -> ->]|Hin].
  - destruct Hin' as [[= -> ->]|Hin']; [lia|]. by apply (chain_In _ _ _ _ _ Hc) in Hin' as [? _].
  - destruct Hin' as [[= -> ->]|Hin'].
    + apply (chain_In _ _ _ _ _ Hc) in Hin. lia.
    + eauto.
Qed.

Lemma chain_total lo m hi : chain lo m hi -> m = [] \/ total m <= hi - lo.
Proof.
  revert lo; induction m as [|[k s] m IH]; simpl; intros lo H; [auto|right].
  destruct H as (?&?&?&H). destruct (IH _ H) as [->|]; simpl; lia.
Qed.

Lemma total_nonneg m : 0 <= total m.
Proof. induction m as [|[k s] m IH]; simpl; [done|]. pose proof (blen_nonneg (seg_data s)); lia. Qed.

Lemma buf_below lo m hi p : chain lo m hi -> p < lo -> buf m p = None.
Proof.
  revert lo; induction m as [|[k s] m IH]; simpl; intros lo H Hp; [done|].
  destruct H as (?&?&?&?). rewrite (proj2 (Z.leb_gt k p)) by lia. simpl. eapply IH; [done|lia].
Qed.

Lemma tiles_app o evs o1 evs' o2 :
  tiles o evs o1 -> tiles o1 evs' o2 -> tiles o (evs ++ evs') o2.
Proof.
  revert o; induction evs as [|e evs IH]; simpl; intros o H1 H2; [by subst|].
  destruct H1 as (?&?&?). repeat split; auto.
Qed.

Lemma tiles_le o evs o' : tiles o evs o' -> o <= o'.
Proof.
  revert o; induction evs as [|e evs IH]; simpl; intros o H; [lia|].
  destruct H as (?&?&H). apply IH in H. lia.
Qed.

Lemma tiles_In o evs o' e : tiles o evs o' -> In e evs -> o <= ev_off e /\ ev_off e + ev_len e <= o'.
Proof.
  revert o; induction evs as [|e' evs IH]; simpl; intros o H Hin; [done|].
  destruct H as (?&?&H), Hin as [->|Hin].
  - apply tiles_le in H. lia.
  - destruct (IH _ H Hin). lia.
Qed.

Lemma extends_refl f n o out : extends f n o o out out.
Proof.
  exists []; unfold chunks_of, gaps_of; simpl. rewrite !app_nil_r. by repeat split.
Qed.

Lemma extends_trans f f' n o o1 o2 out out1 out2 :
  extends f n o o1 out out1 ->
  extends f' (n + (o1 - o)) o1 o2 out1 out2 ->
  (forall p, n + (o1 - o) <= p -> f' p = f p) ->
  extends f n o o2 out out2.
Proof.
  intros (evs & E1 & G1 & T1 & F1) (evs' & E2 & G2 & T2 & F2) Hf.
  exists (evs ++ evs'). unfold chunks_of, gaps_of in *. rewrite E2, G2, E1, G1, !omap_app, !app_assoc.
  repeat split; [by eapply tiles_app|].
  apply Forall_app; split; [done|].
  apply List.Forall_forall. intros e Hin. rewrite List.Forall_forall in F2.
  intros i Hi. destruct (tiles_In _ _ _ _ T2 Hin) as [? _]. rewrite (F2 e Hin i Hi), Hf by lia.
  f_equal. lia.
Qed.

Lemma delivers_refl s : delivers s s.
Proof.
  split; intros; try done.
  - apply extends_refl.
  - lia.
Qed.

Lemma delivers_trans s1 s2 s3 : delivers s1 s2 -> delivers s2 s3 -> delivers s1 s3.
Proof.
  intros [E1 N1 M1 B1 F1 P1 Y1 L1 T1 C1 K1] [E2 N2 M2 B2 F2 P2 Y2 L2 T2 C2 K2].
  assert (fin_consumed s3.1 = false -> fin_consumed s2.1 = false) as H23.
  { intros H. destruct (fin_consumed s2.1); [|done]. destruct C2; congruence. }
  split.
  - intros H1. destruct (fin_consumed s2.1) eqn:H2.
    + destruct (C2 eq_refl) as (_ & -> & ->). auto.
    + rewrite (N1 eq_refl) in E2, B1.
      eapply extends_trans; [by apply E1|by apply E2|by apply B1].
  - intros H3. rewrite N2, N1 by auto. lia.
  - lia.
  - intros H3 p Hp. rewrite B2, B1; auto. rewrite N2 in Hp by done. lia.
  - intros H3. destruct (F1 (H23 H3)), (F2 H3). split; congruence.
  - congruence.
  - congruence.
  - lia.
  - lia.
  - intros H1. destruct (C1 H1) as (H2 & ? & ?), (C2 H2) as (? & ? & ?). repeat split; congruence.
  - intros Hn. specialize (K1 Hn). destruct (fin_consumed s1.1) eqn:H1.
    + apply C2 in K1 as [? _]. congruence.
    + rewrite K2; [done|]. destruct (F1 K1). congruence.
Qed.

(** ** Emission steps *)

Definition advance (h : TcpHalf) (len : Z) : TcpHalf :=
  set_next (set_stream_offset h (stream_offset h + len)) (Some (nextz h + len)).

(** [h1] is [h] up to the buffered segments. *)
Record same_position (h h1 : TcpHalf) : Prop := {
  sp_next : nextz h1 = nextz h;
  sp_off : stream_offset h1 = stream_offset h;
  sp_pending : pending_fin h1 = pending_fin h;
  sp_requires : pending_fin_requires_ack h1 = pending_fin_requires_ack h;
  sp_peer : peer_ack_abs h1 = peer_ack_abs h;
  sp_syn : initial_syn_seq h1 = initial_syn_seq h;
  sp_len : (length (out_of_order h1) <= length (out_of_order h))%nat;
  sp_total : total (out_of_order h1) <= total (out_of_order h)
}.

Lemma same_position_refl h : same_position h h.
Proof. split; done || lia. Qed.

Lemma live_closed_false lo h : live lo h -> closed h -> False.
Proof. intros [H _] [H' _]. congruence. Qed.

Lemma live_weaken lo lo' h : lo' <= lo -> live lo h -> live lo' h.
Proof. intros Hlo []. split; eauto using chain_weaken. Qed.

Lemma wf_good h : wf h -> good h.
Proof. intros [H|H]; [left|by right]. eapply live_weaken; [|done]; lia. Qed.

Lemma advance_live lo h len :
  live lo h -> 0 <= len -> nextz h + len <= HI -> live lo (advance h len).
Proof.
  intros [] ??. assert (nextz (advance h len) = nextz h + len) as Hn by done.
  split; simpl; try done; rewrite ?Hn; lia.
Qed.

(** Outcome of the FIN check: nothing, or the half is closed in place. *)
Lemma consume_fin_cases lo h out :
  live lo h ->
  (consume_fin_if_ready (h, out) = (h, out) /\
   forall f, pending_fin h = Some f -> f <= nextz h ->
     f = nextz h /\ pending_fin_requires_ack h = true /\ acked_past h f = false)
  \/
  exists h', consume_fin_if_ready (h, out) = (h', mark_fin_consumed out) /\ closed h' /\
    stream_offset h' = stream_offset h /\ peer_ack_abs h' = peer_ack_abs h /\
    initial_syn_seq h' = initial_syn_seq h /\ is_Some (pending_fin h).
Proof.
  intros []. unfold consume_fin_if_ready. rewrite live_open0, live_next0.
  destruct (pending_fin h) as [fin|] eqn:Ef; [|by left].
  destruct (fin <=? nextz h) eqn:E1; reflect_bools.
  2: { left; split; [done|]. intros f [= <-] ?. lia. }
  destruct ((fin =? nextz h) && (pending_fin_requires_ack h && negb (acked_past h fin))) eqn:E2.
  - left; split; [done|]. intros f [= <-] _. by reflect_bools.
  - right. destruct (fin =? nextz h) eqn:E3;
      (eexists; split; [done|]; split; [|by eauto 10]; split; simpl; rewrite ?live_next0; try done;
       intros f Hf; assert (f = fin) as -> by congruence; unfold nextz; simpl; rewrite ?live_next0; simpl; unfold sat_add, u64_MAX, HI in *; lia).
Qed.

Lemma extends_quiet f n o out out' :
  emitted out' = emitted out -> gaps out' = gaps out -> extends f n o o out out'.
Proof.
  intros He Hg. exists []. unfold chunks_of, gaps_of; simpl. rewrite !app_nil_r. by repeat split.
Qed.

Lemma consume_fin_spec h out :
  good h ->
  let s' := consume_fin_if_ready (h, out) in
  delivers (h, out) s' /\ (s' = (h, out) \/ closed s'.1).
Proof.
  intros [Hl|Hcl] s'.
  2: { assert (s' = (h, out)) as -> by (unfold s', consume_fin_if_ready; by rewrite (closed_fin _ Hcl)).
       split; [apply delivers_refl|by left]. }
  unfold s'. destruct (consume_fin_cases _ h out Hl) as [[-> _]|(h2 & -> & Hc2 & Eo & Ea & Ey & [f Hpf])].
  - split; [apply delivers_refl|by left].
  - split; [|by right]. destruct Hc2 as [Hc21 Hc22 Hc23 Hc24 Hc25].
    pose proof (total_nonneg (out_of_order h)). pose proof (live_open _ _ Hl).
    split; simpl in *; rewrite ?Hc23, ?Eo, ?Ea, ?Ey; simpl; try (congruence || lia || done).
    intros _. by apply extends_quiet.
Qed.

Lemma advance_delivers lo h out h1 out1 e :
  live lo h1 -> fin_consumed h = false -> same_position h h1 ->
  ev_off e = stream_offset h -> 0 < ev_len e -> nextz h + ev_len e <= HI ->
  emitted out1 = emitted out ++ chunks_of [e] -> gaps out1 = gaps out ++ gaps_of [e] ->
  reports (buf (out_of_order h)) (nextz h) (stream_offset h) e ->
  (forall p, nextz h + ev_len e <= p -> buf (out_of_order h1) p = buf (out_of_order h) p) ->
  let s' := consume_fin_if_ready (advance h1 (ev_len e), out1) in
  delivers (h, out) s' /\
  stream_offset s'.1 = stream_offset h + ev_len e /\
  ((s'.1 = advance h1 (ev_len e) /\ live lo s'.1 /\
    forall f, pending_fin s'.1 = Some f -> f <= nextz s'.1 ->
      f = nextz s'.1 /\ pending_fin_requires_ack s'.1 = true /\ acked_past s'.1 f = false)
   \/ closed s'.1).
Proof.
  intros Hl Hopen [Sn So Sp Sr Sa Sy Sl St] Ho Hlen Hhi He Hg Hr Hb s'.
  assert (live lo (advance h1 (ev_len e))) as Hl' by (apply advance_live; [done|lia|lia]).
  assert (forall o2, emitted o2 = emitted out1 -> gaps o2 = gaps out1 ->
    extends (buf (out_of_order h)) (nextz h) (stream_offset h) (stream_offset h + ev_len e) out o2)
    as Hext.
  { intros o2 E2 G2. exists [e]. rewrite E2, G2, He, Hg.
    split; [done|]; split; [done|]; split; [done|]. by constructor; [|constructor]. }
  destruct (consume_fin_cases _ _ out1 Hl') as [[E Hfin]|(h' & E & Hc & Eo & Ea & Ey & [f Hpf])];
    subst s'; rewrite E; simpl.
  - split; [|split; [lia|left; split; [done|split; [done|]]]].
    + split; simpl; try (congruence || lia || done).
      * intros _. rewrite So. by apply Hext.
      * intros _. unfold advance, nextz at 1; simpl. lia.
      * intros _ p Hp. apply Hb. unfold advance, nextz in Hp; simpl in Hp. unfold nextz in *. lia.
      * intros _. by rewrite Hopen, (live_open _ _ Hl).
    + apply Hfin.
  - simpl in Eo, Ea, Ey, Hpf. destruct Hc as [Hc1 Hc2 Hc3 Hc4 Hc5].
    pose proof (total_nonneg (out_of_order h)).
    split; [|split; [lia|right; by split]].
    split; simpl; rewrite ?Hc3, ?Eo, ?Ea, ?Ey; simpl; try (congruence || lia || done).
    intros _. rewrite So. by apply Hext.
Qed.

Lemma emit_eq lo h out data ts :
  live lo h -> data <> [] -> nextz h + blen data <= HI ->
  emit data ts (h, out) =
    Some (consume_fin_if_ready
            (advance h (blen data),
             push_chunk out {| chunk_offset := stream_offset h; chunk_ts_ns := ts; chunk_data := data |})).
Proof.
  intros [] Hd Hhi. unfold emit. destruct data as [|b data]; [done|]. simpl is_empty. cbv iota.
  assert (HI <= u64_MAX) by (unfold HI, u64_MAX; lia).
  unfold expect. simpl next_abs. rewrite live_next0. simpl.
  rewrite !sat_add_small by lia. done.
Qed.

Lemma emit_gap_to_eq lo h out target :
  live lo h -> target <= HI ->
  let t := match pending_fin h with Some fin => Z.min target fin | None => target end in
  emit_gap_to target (h, out) =
    if t <=? nextz h then Some (h, out)
    else Some (consume_fin_if_ready
            (advance h (t - nextz h),
             push_gap out {| gap_offset := stream_offset h; gap_len := t - nextz h |})).
Proof.
  intros Hl Ht t. destruct Hl. unfold emit_gap_to, expect. rewrite live_next0. simpl. fold t.
  destruct (t <=? nextz h) eqn:E; [done|]. reflect_bools.
  assert (HI <= u64_MAX) by (unfold HI, u64_MAX; lia).
  assert (t <= target) by (unfold t; destruct (pending_fin h); lia).
  rewrite sat_add_small by lia. unfold advance.
  by replace (nextz h + (t - nextz h)) with t by lia.
Qed.

(** ** Gaps and flushing *)

(** [h'] buffers strictly less than [h]. *)
Definition fewer (h h' : TcpHalf) : Prop :=
  (length (out_of_order h') < length (out_of_order h))%nat /\
  total (out_of_order h') < total (out_of_order h).

Lemma live_rechain lo lo' h : live lo h -> chain lo' (out_of_order h) HI -> live lo' h.
Proof. by intros []. Qed.

Lemma nextz_advance h len : nextz (advance h len) = nextz h + len.
Proof. done. Qed.

Lemma gap_spec lo h out target :
  live lo h -> target <= HI ->
  (forall p, nextz h <= p < target -> buf (out_of_order h) p = None) ->
  exists s', emit_gap_to target (h, out) = Some s' /\ delivers (h, out) s' /\
    ((live lo s'.1 /\ out_of_order s'.1 = out_of_order h /\
      nextz s'.1 = Z.max (nextz h)
        (match pending_fin h with Some fin => Z.min target fin | None => target end)) \/
     closed s'.1).
Proof.
  intros Hl Ht Hnone. rewrite (emit_gap_to_eq lo) by done.
  set (t := match pending_fin h with Some fin => Z.min target fin | None => target end).
  assert (t <= target) as Htt by (unfold t; destruct (pending_fin h); lia).
  destruct (t <=? nextz h) eqn:E; reflect_bools.
  - eexists; split; [done|]. split; [apply delivers_refl|]. left. simpl. repeat split; [apply Hl..|lia].
  - eexists; split; [done|].
    set (g := {| gap_offset := stream_offset h; gap_len := t - nextz h |}).
    destruct (advance_delivers lo h out h (push_gap out g) (EvGap g)) as (Hd & _ & Hc);
      simpl; try (done || lia).
    + apply Hl.
    + by rewrite app_nil_r.
    + intros i Hi. simpl in *. symmetry; apply Hnone. lia.
    + split; [exact Hd|]. destruct Hc as [(E1 & H1 & _)|?]; [left|by right].
      split; [done|]. simpl in E1. rewrite E1. split; [done|]. rewrite nextz_advance. lia.
Qed.

Lemma flush_emit lo h out k s m d :
  live lo h -> out_of_order h = (k, s) :: m ->
  k <= nextz h < k + blen (seg_data s) -> blen d = k + blen (seg_data s) - nextz h ->
  (forall i, 0 <= i < blen d -> d !! Z.to_nat i = seg_data s !! Z.to_nat (nextz h - k + i)) ->
  exists s', emit d (seg_ts_ns s) (set_ooo h m (total m), out) = Some s' /\
    delivers (h, out) s' /\
    ((live (k + blen (seg_data s)) s'.1 /\ out_of_order s'.1 = m) \/ closed s'.1).
Proof.
  intros Hl Hm Hk Hlen Hd.
  pose proof (live_chain _ _ Hl) as Hc. rewrite Hm in Hc. destruct Hc as (Hc1 & Hc2 & Hc3 & Hc4).
  assert (live (k + blen (seg_data s)) (set_ooo h m (total m))) as Hl1.
  { destruct Hl. split; done. }
  assert (nextz (set_ooo h m (total m)) = nextz h) as Hn by done.
  rewrite (emit_eq _ _ _ _ _ Hl1); [|intros ->; rewrite blen_nil in Hlen; lia|lia].
  eexists; split; [done|].
  set (c := {| chunk_offset := _; chunk_ts_ns := _; chunk_data := d |}).
  destruct (advance_delivers (k + blen (seg_data s)) h out (set_ooo h m (total m))
              (push_chunk out c) (EvChunk c)) as (Hdl & _ & Hcl); simpl; try (done || lia).
  - apply Hl.
  - split; simpl; rewrite ?Hm; simpl; try done; [lia|]. lia.
  - by rewrite app_nil_r.
  - intros i Hi. simpl in *. rewrite Hm, Hd by done. simpl.
    rewrite (proj2 (Z.leb_le k _)), (proj2 (Z.ltb_lt _ (k + _))) by lia. simpl.
    do 2 f_equal. lia.
  - intros p Hp. rewrite Hm. simpl.
    rewrite (proj2 (Z.ltb_ge p (k + _))) by lia. by rewrite andb_false_r.
  - split; [exact Hdl|]. destruct Hcl as [(E1 & H1 & _)|?]; [left|by right].
    split; [done|]. simpl in E1. by rewrite E1.
Qed.

Lemma flush_drop lo h out k s m :
  live lo h -> out_of_order h = (k, s) :: m -> k + blen (seg_data s) <= nextz h ->
  live (k + blen (seg_data s)) (set_ooo h m (total m)) /\
  delivers (h, out) (set_ooo h m (total m), out).
Proof.
  intros Hl Hm Hk.
  pose proof (live_chain _ _ Hl) as Hc. rewrite Hm in Hc. destruct Hc as (Hc1 & Hc2 & Hc3 & Hc4).
  split; [destruct Hl; by split|].
  split; simpl; rewrite ?Hm; simpl; try done; try lia.
  - intros _. apply extends_refl.
  - intros _. unfold nextz; simpl; lia.
  - intros _ p Hp. unfold nextz in Hp, Hk; simpl in Hp.
    rewrite (proj2 (Z.ltb_ge p (k + _))) by lia. by rewrite andb_false_r.
Qed.

Lemma flush_loop_spec fuel : forall lo h out,
  live lo h -> (length (out_of_order h) < fuel)%nat ->
  exists s', flush_ooo_loop fuel (h, out) = Some s' /\ delivers (h, out) s' /\ wf s'.1 /\
    (s' = (h, out) \/ fewer h s'.1).
Proof.
  induction fuel as [|fuel IH]; intros lo h out Hl Hf; [lia|].
  pose proof (live_open _ _ Hl) as Hopen. pose proof (live_next _ _ Hl) as Hnext.
  pose proof (live_bytes _ _ Hl) as Hbytes. pose proof (live_chain _ _ Hl) as Hc.
  simpl. rewrite Hopen, Hnext.
  destruct (out_of_order h) as [|[k s] m] eqn:Hm; simpl.
  { eexists; split; [done|]. split; [apply delivers_refl|]. split; [|by left].
    left. eapply live_rechain; [done|]. simpl. by rewrite Hm. }
  simpl in Hc, Hf. destruct Hc as (Hc1 & Hc2 & Hc3 & Hc4).
  destruct (nextz h <? k) eqn:E1; reflect_bools.
  { eexists; split; [done|]. split; [apply delivers_refl|]. split; [|by left].
    left. eapply live_rechain; [done|]. simpl. rewrite Hm. simpl. repeat split; (done || lia). }
  rewrite Z.eqb_refl. simpl. rewrite Hbytes. simpl total.
  pose proof (total_nonneg m).
  replace (sat_sub (blen (seg_data s) + total m) (blen (seg_data s))) with (total m)
    by (unfold sat_sub; lia).
  assert (forall s1, delivers (h, out) s1 ->
    (live (k + blen (seg_data s)) s1.1 /\ out_of_order s1.1 = m) \/ closed s1.1 ->
    exists s', flush_ooo_loop fuel s1 = Some s' /\ delivers (h, out) s' /\ wf s'.1 /\
      (s' = (h, out) \/ fewer h s'.1)) as Hgo.
  { intros [h1 out1] Hd [[Hl1 Hm1]|Hcl].
    - simpl in Hl1, Hm1. destruct (IH _ h1 out1 Hl1) as (s' & -> & Hd' & Hw & Hs).
      { rewrite Hm1. lia. }
      eexists; split; [done|]. split; [by eapply delivers_trans|]. split; [done|right].
      unfold fewer in *. rewrite Hm. simpl.
      destruct Hs as [->|Hs]; [simpl; rewrite Hm1; lia|rewrite Hm1 in Hs; lia].
    - destruct fuel; [lia|]. simpl. destruct Hcl as [Hcl Hcn Hco Hcb Hcp]. simpl in *. rewrite Hcl.
      eexists; split; [done|]. split; [done|]. split; [right; by split|right].
      unfold fewer. simpl. rewrite Hm, Hco. simpl; lia. }
  destruct (k <? nextz h) eqn:E2; reflect_bools.
  - rewrite sat_sub_ge by lia. destruct (blen (seg_data s) <=? nextz h - k) eqn:E3; reflect_bools.
    + destruct (flush_drop lo h out k s m Hl Hm) as [Hl1 Hd1]; [lia|].
      apply Hgo; [exact Hd1|left; by split].
    + destruct (slice_spec (nextz h - k) (blen (seg_data s)) (seg_data s)) as (d & -> & Hdl & Hdi);
        [lia..|]. simpl.
      destruct (flush_emit lo h out k s m d Hl Hm) as (s1 & -> & Hd1 & Hs1); [lia|lia| |].
      { intros i Hi. apply Hdi. lia. }
      simpl. by apply Hgo.
  - destruct (flush_emit lo h out k s m (seg_data s) Hl Hm) as (s1 & -> & Hd1 & Hs1); [lia|lia| |].
    { intros i Hi. do 2 f_equal; lia. }
    simpl. by apply Hgo.
Qed.

Lemma flush_spec lo h out :
  live lo h ->
  exists s', flush_ooo (h, out) = Some s' /\ delivers (h, out) s' /\ wf s'.1 /\
    (s' = (h, out) \/ fewer h s'.1).
Proof. intros Hl. eapply flush_loop_spec; [done|]. simpl. lia. Qed.

(** ** Gap recovery *)

Lemma flush_closed h out : closed h -> flush_ooo (h, out) = Some (h, out).
Proof. intros [H _ _ _ _]. unfold flush_ooo. simpl. by rewrite H. Qed.

Lemma chain_raise lo lo' k s m hi :
  lo' <= k -> chain lo ((k, s) :: m) hi -> chain lo' ((k, s) :: m) hi.
Proof. simpl. intros ? (?&?&?&?). by repeat split. Qed.

(** Moving on to the first buffered segment, or less. *)
Lemma gap_to_first h out k s m target :
  live (nextz h) h -> out_of_order h = (k, s) :: m -> target <= k ->
  exists s', emit_gap_to target (h, out) = Some s' /\ delivers (h, out) s' /\
    ((live (nextz s'.1) s'.1 /\ out_of_order s'.1 = out_of_order h /\
      nextz s'.1 = Z.max (nextz h)
        (match pending_fin h with Some fin => Z.min target fin | None => target end)) \/
     closed s'.1).
Proof.
  intros Hl Hm Ht. pose proof (live_chain _ _ Hl) as Hc. rewrite Hm in Hc.
  assert (nextz h <= k) by apply Hc.
  assert (chain k (out_of_order h) HI) as Hck by (rewrite Hm; eapply chain_raise; [|done]; lia).
  destruct (gap_spec k h out target) as (s' & E & Hd & Hs).
  - by eapply live_rechain.
  - destruct Hc as (?&?&?&?); lia.
  - intros p Hp. eapply buf_below; [done|lia].
  - exists s'. split; [done|]. split; [done|]. destruct Hs as [(Hl' & Hm' & Hn)|?]; [left|by right].
    split; [|by split]. eapply live_weaken; [|done]. rewrite Hn.
    destruct (pending_fin h); lia.
Qed.

Definition op_ok (f : st -> option st) : Prop :=
  forall h out, good h ->
    exists s', f (h, out) = Some s' /\ delivers (h, out) s' /\ good s'.1.

(** The operation returns the state at hand. *)
Ltac returns s :=
  exists s; split; [done|split; [first [done|apply delivers_refl]|first [by left|by right|done]]].

Lemma known_ack_loop_spec fuel : forall ack h out,
  ack <= HI -> live (nextz h) h -> (length (out_of_order h) < fuel)%nat ->
  exists s', recover_known_ack_loop fuel ack (h, out) = Some s' /\ delivers (h, out) s' /\ good s'.1.
Proof.
  induction fuel as [|fuel IH]; intros ack h out Hack Hl Hf; [lia|].
  simpl. rewrite (live_next _ _ Hl).
  assert (exists s', Some (h, out) = Some s' /\ delivers (h, out) s' /\ good s'.1) as Hself
    by (exists (h, out); split; [done|split; [apply delivers_refl|by left]]).
  destruct (ack <=? nextz h) eqn:E1; reflect_bools; [done|].
  destruct (out_of_order h) as [|[k sg] m] eqn:Hm; simpl.
  { destruct (pending_fin h) as [fin|] eqn:Ef; [|done].
    destruct ((nextz h <? fin) && (fin <? ack)) eqn:E2;
      [|done].
    reflect_bools.
    destruct (gap_spec (nextz h) h out fin Hl) as ([h' out'] & -> & Hd & Hs); [lia|by rewrite Hm|].
    simpl. destruct Hs as [(Hl' & Hm' & _)|Hcl].
    - assert (live (nextz h') h') as Hg'.
      { eapply live_rechain; [done|]. simpl in Hm'. by rewrite Hm', Hm. }
      destruct (consume_fin_spec h' out' (or_introl Hg')) as [Hd2 Hs2].
      eexists; split; [done|]; split; [by eapply delivers_trans|].
      destruct Hs2 as [->|]; [by left|by right].
    - destruct (consume_fin_spec h' out' (or_intror Hcl)) as [Hd2 Hs2].
      eexists; split; [done|]; split; [by eapply delivers_trans|].
      destruct Hs2 as [->|]; by right. }
  pose proof (live_chain _ _ Hl) as Hc. rewrite Hm in Hc.
  assert (exists s1, ((if nextz h <? k then emit_gap_to (Z.min k ack) (h, out) else Some (h, out)) = Some s1)
    /\ delivers (h, out) s1 /\ good s1.1 /\ (length (out_of_order s1.1) <= length (out_of_order h))%nat)
    as (s1 & E & Hd1 & Hg1 & Hlen1).
  { destruct (nextz h <? k).
    - destruct (gap_to_first h out k sg m (Z.min k ack) Hl Hm) as (s1 & E & Hd & Hs); [lia|].
      exists s1. split; [done|]; split; [done|]; split; [|apply Hd].
      destruct Hs as [(?&?)|?]; [by left|by right].
    - exists (h, out). split; [done|]; split; [apply delivers_refl|]; split; [by left|done]. }
  rewrite E. simpl. clear E. destruct s1 as [h1 out1]; simpl in *.
  destruct Hg1 as [Hl1|Hcl1].
  2: { destruct (closed_next _ Hcl1) as [n1 ->]. simpl.
       destruct (ack <=? n1); [returns (h1, out1)|].
       rewrite flush_closed by done. simpl. rewrite (closed_fin _ Hcl1).
       returns (h1, out1). }
  rewrite (live_next _ _ Hl1). simpl.
  destruct (ack <=? nextz h1); [returns (h1, out1)|].
  destruct (flush_spec _ h1 out1 Hl1) as ([h2 out2] & -> & Hd2 & Hw2 & Hlen2). simpl in *.
  apply wf_good in Hw2. pose proof (delivers_trans _ _ _ Hd1 Hd2) as Hd12.
  destruct (fin_consumed h2) eqn:Ec; [returns (h2, out2)|].
  destruct Hw2 as [Hl2|Hcl2]; [|pose proof (closed_fin _ Hcl2); congruence].
  destruct (bool_decide _ && _) eqn:Eb; [returns (h2, out2)|].
  destruct Hlen2 as [[= -> ->]|Hlen2].
  { exfalso. rewrite bool_decide_eq_true_2 in Eb by apply Hl1. by rewrite Z.eqb_refl in Eb. }
  destruct (IH ack h2 out2 Hack Hl2) as (s' & -> & Hd3 & Hg3); [unfold fewer in Hlen2; rewrite Hm in Hlen1; simpl in *; lia|].
  exists s'. split; [done|]. split; [|done]. by eapply delivers_trans.
Qed.

Lemma known_ack_ok : op_ok recover_known_ack.
Proof.
  intros h out Hg. unfold recover_known_ack. simpl fst.
  destruct (peer_ack_abs h) as [ack|] eqn:Ea; [|returns (h, out)].
  destruct Hg as [Hl|Hcl].
  - apply known_ack_loop_spec; [by eapply live_ack|done|lia].
  - destruct Hcl as [Hc1 [n Hn] Hc3 Hc4 Hc5]. assert (closed h) as Hcl by (split; rewrite ?Hn; eauto).
    rewrite Hc3. simpl. rewrite Hn.
    destruct (ack <=? n); [returns (h, out)|]. rewrite Hc3. simpl.
    destruct (pending_fin h) as [fin|] eqn:Ef; [|returns (h, out)].
    specialize (Hc5 _ eq_refl). unfold nextz in Hc5. rewrite Hn in Hc5. simpl in Hc5.
    rewrite (proj2 (Z.ltb_ge n fin)) by lia. returns (h, out).
Qed.

Lemma gap_started_delivers h out t : delivers (h, out) (set_gap_started h t, out).
Proof.
  split; simpl; try (done || lia).
  - intros _. apply extends_refl.
  - intros _. unfold nextz; simpl. lia.
Qed.

Lemma gap_started_live lo h t : live lo h -> live lo (set_gap_started h t).
Proof. by intros []. Qed.

Lemma gap_started_closed h t : closed h -> closed (set_gap_started h t).
Proof. by intros []. Qed.

Lemma gap_started_wf h t : wf h -> wf (set_gap_started h t).
Proof. intros [H|H]; [left; by apply gap_started_live|right; by apply gap_started_closed]. Qed.

(** The last recovery step leaves nothing deliverable behind. *)
Lemma timeout_spec age ts h out :
  good h ->
  exists s', recover_ooo_timeout age ts (h, out) = Some s' /\ delivers (h, out) s' /\ wf s'.1.
Proof.
  intros Hg. unfold recover_ooo_timeout.
  destruct (out_of_order h) as [|[k sg] m] eqn:Hm.
  { assert (match next_abs h with | Some _ | _ => Some (set_gap_started h None, out) end
      = Some (set_gap_started h None, out)) as Hx by (by destruct (next_abs h)).
    exists (set_gap_started h None, out). split; [by destruct (next_abs h)|].
    split; [apply gap_started_delivers|]. destruct Hg as [Hl|?]; [left|right; by apply gap_started_closed].
    eapply live_rechain; [by apply gap_started_live|]. simpl. by rewrite Hm. }
  destruct Hg as [Hl|Hcl]; [|by rewrite (closed_ooo _ Hcl) in Hm].
  rewrite (live_next _ _ Hl). simpl.
  destruct (k <=? nextz h) eqn:E1; reflect_bools.
  { destruct (flush_spec (nextz h) (set_gap_started h None) out) as (s' & -> & Hd & Hw & _).
    { by apply gap_started_live. }
    exists s'. split; [done|]. split; [|done]. eapply delivers_trans; [|done]. apply gap_started_delivers. }
  assert (wf h) as Hw.
  { left. eapply live_rechain; [done|]. pose proof (live_chain _ _ Hl) as Hc. rewrite Hm in *.
    eapply chain_raise; [|done]. lia. }
  destruct (gap_started_ts_ns h) as [started|].
  2: { eexists; split; [done|]. split; [apply gap_started_delivers|by apply gap_started_wf]. }
  destruct (sat_sub ts started <? age); [exists (h, out); split; [done|split; [apply delivers_refl|done]]|].
  destruct (gap_to_first h out k sg m k Hl Hm) as ([h1 out1] & -> & Hd1 & Hs1); [lia|]. simpl.
  assert (exists s2, flush_ooo (h1, out1) = Some s2 /\ delivers (h, out) s2 /\ wf s2.1)
    as ([h2 out2] & -> & Hd2 & Hw2).
  { destruct Hs1 as [(Hl1 & _)|Hcl1].
    - destruct (flush_spec _ h1 out1 Hl1) as (s2 & -> & Hd2 & Hw2 & _).
      exists s2. split; [done|]. split; [by eapply delivers_trans|done].
    - rewrite flush_closed by done. exists (h1, out1). split; [done|]. split; [done|by right]. }
  simpl. assert (forall t, delivers (h, out) (set_gap_started h2 t, out2)) as Hd3.
  { intros t. eapply delivers_trans; [done|]. apply gap_started_delivers. }
  destruct (bt_first (out_of_order h2)) as [[k2 s2]|]; [destruct (next_abs h2) as [n2|]; [destruct (n2 <? k2)|]|];
    (eexists; split; [done|]; split; [apply Hd3|by repeat apply gap_started_wf]).
Qed.

(** ** Memory pressure *)

(** Within the configured limits, or held back by a tentative FIN that the
    half has reached. *)
Definition within (max_ooo max_segments : Z) (h : TcpHalf) : Prop :=
  out_of_order_bytes h <= max_ooo /\ blen (out_of_order h) <= max_segments.

Definition at_fin (h : TcpHalf) : Prop := exists f, pending_fin h = Some f /\ f <= nextz h.

(** The common body of the pressure and close loops: jump to the first buffered
    segment and flush. *)
Lemma skip_flush h out k sg m :
  live (nextz h) h -> out_of_order h = (k, sg) :: m ->
  exists s1 s2,
    ((if nextz h <? k then emit_gap_to k (h, out) else Some (h, out)) = Some s1) /\
    flush_ooo s1 = Some s2 /\ delivers (h, out) s2 /\ good s2.1 /\
    (closed s2.1 \/
     (live (nextz s1.1) s1.1 /\ live (nextz s2.1) s2.1 /\ out_of_order s1.1 = out_of_order h /\
      (fewer s1.1 s2.1 \/ (s2 = s1 /\ at_fin s2.1)))).
Proof.
  intros Hl Hm.
  pose proof (live_chain _ _ Hl) as Hc. rewrite Hm in Hc.
  assert (exists s1, ((if nextz h <? k then emit_gap_to k (h, out) else Some (h, out)) = Some s1) /\
    delivers (h, out) s1 /\
    ((live (nextz s1.1) s1.1 /\ out_of_order s1.1 = out_of_order h /\ (k <= nextz s1.1 \/ at_fin s1.1))
     \/ closed s1.1)) as ([h1 out1] & E1 & Hd1 & Hs1).
  { destruct (nextz h <? k) eqn:E2; reflect_bools.
    - destruct (gap_to_first h out k sg m k Hl Hm) as (s1 & E & Hd & Hs); [lia|].
      exists s1. split; [done|]; split; [done|]. destruct Hs as [(Hl1&Hm1&Hn1)|?]; [left|by right].
      split; [done|]; split; [done|].
      pose proof (dl_frame _ _ Hd (live_open _ _ Hl1)) as [Hp _]. simpl in Hp.
      destruct (pending_fin h) as [f|]; [|left; lia].
      destruct (Z.le_gt_cases k f); [left; lia|right]. exists f. split; [done|]. lia.
    - exists (h, out). split; [done|]; split; [apply delivers_refl|]. left. split; [done|]; split; [done|].
      by left. }
  exists (h1, out1). simpl in *. destruct Hs1 as [(Hl1 & Hm1 & Hk)|Hcl1].
  2: { exists (h1, out1). rewrite flush_closed by done. split; [done|]; split; [done|]; split; [done|].
       split; [by right|by left]. }
  destruct (flush_spec _ h1 out1 Hl1) as ([h2 out2] & E2 & Hd2 & Hw2 & Hs2).
  exists (h2, out2). split; [done|]; split; [done|]. split; [by eapply delivers_trans|].
  split; [by apply wf_good|]. simpl in *. destruct Hw2 as [Hw2|?]; [right|by left].
  split; [done|]. split; [eapply live_weaken; [|done]; lia|]. split; [done|].
  destruct Hs2 as [[= -> ->]|?]; [right|by left]. split; [done|].
  destruct Hk as [Hk|?]; [exfalso|done].
  pose proof (live_chain _ _ Hw2) as Hcw. rewrite Hm1, Hm in Hcw. simpl in Hcw. lia.
Qed.

Lemma pressure_loop_spec fuel : forall max_ooo max_segments h out,
  0 <= max_ooo -> 0 <= max_segments ->
  live (nextz h) h -> (length (out_of_order h) < fuel)%nat ->
  exists s', recover_ooo_pressure_loop fuel max_ooo max_segments (h, out) = Some s' /\
    delivers (h, out) s' /\ good s'.1 /\
    (within max_ooo max_segments s'.1 \/ at_fin s'.1 \/ closed s'.1).
Proof.
  induction fuel as [|fuel IH]; intros max_ooo max_segments h out Hmo Hms Hl Hf; [lia|].
  simpl. destruct ((max_ooo <? out_of_order_bytes h) || (max_segments <? blen (out_of_order h))) eqn:E1; simpl.
  2: { exists (h, out). split; [done|]. split; [apply delivers_refl|]. split; [by left|left].
       reflect_bools. by split. }
  destruct (out_of_order h) as [|[k sg] m] eqn:Hm; simpl.
  { pose proof (live_bytes _ _ Hl) as Hb. rewrite Hm in Hb. simpl in Hb. rewrite Hb in E1.
    unfold blen in E1. simpl in E1. reflect_bools. destruct E1; reflect_bools; lia. }
  unfold expect. rewrite (live_next _ _ Hl). simpl.
  destruct (skip_flush h out k sg m Hl Hm) as ([h1 out1] & [h2 out2] & -> & E2 & Hd & Hg & Hs).
  simpl in *. rewrite E2. simpl. clear E2.
  destruct Hs as [Hcl|(Hl1 & Hl2 & Hm1 & Hs)].
  { rewrite (closed_fin _ Hcl). simpl. exists (h2, out2). split; [done|]; split; [done|]; split; [done|].
    by right; right. }
  rewrite (live_open _ _ Hl2), (live_bytes _ _ Hl1), (live_bytes _ _ Hl2). simpl.
  destruct Hs as [[Hlen Htot]|[[= -> ->] Hat]].
  - rewrite (proj2 (Z.leb_gt _ _)) by done.
    destruct (IH max_ooo max_segments h2 out2 Hmo Hms Hl2) as (s' & -> & Hd3 & Hg3 & Hb3).
    { rewrite Hm1, Hm in Hlen. simpl in Hlen. lia. }
    exists s'. split; [done|]; split; [by eapply delivers_trans|done].
  - rewrite (proj2 (Z.leb_le _ _)) by done. exists (h1, out1).
    split; [done|]; split; [done|]; split; [done|]. by right; left.
Qed.

Lemma pressure_spec max_ooo max_segments h out :
  0 <= max_ooo -> 0 <= max_segments -> good h ->
  exists s', recover_ooo_pressure max_ooo max_segments (h, out) = Some s' /\
    delivers (h, out) s' /\ good s'.1 /\
    (within max_ooo max_segments s'.1 \/ at_fin s'.1 \/ closed s'.1).
Proof.
  intros Hmo Hms [Hl|Hcl]; [apply pressure_loop_spec; (done || simpl; lia)|].
  exists (h, out). split; [|split; [apply delivers_refl|split; [by right|by right; right]]].
  unfold recover_ooo_pressure. simpl. destruct Hcl as [_ _ Ho Hb _]. rewrite Ho, Hb.
  rewrite (proj2 (Z.ltb_ge max_ooo 0)), (proj2 (Z.ltb_ge max_segments (blen _))) by (done || unfold blen; simpl; lia).
  done.
Qed.

(** ** Buffering: first-seen-wins *)

(** [f] completed by the bytes of a segment: what was seen before wins. *)
Definition first_seen (f : Z -> option (byte * Z)) (start : Z) (data : bytes) (ts p : Z)
  : option (byte * Z) :=
  match f p with
  | Some x => Some x
  | None =>
      if (start <=? p) && (p <? start + blen data)
      then (fun b => (b, ts)) <$> data !! Z.to_nat (p - start)
      else None
  end.

(** The same for the part of the segment from [cursor] on. *)
Definition first_seen_from (cursor : Z) f (start : Z) (data : bytes) (ts p : Z) :=
  if p <? cursor then f p else first_seen f start data ts p.

Lemma lookup_Some_range (d : bytes) i : 0 <= i < blen d -> is_Some (d !! Z.to_nat i).
Proof. unfold blen. intros ?. apply lookup_lt_is_Some. lia. Qed.

Lemma buf_In lo m hi k s p :
  chain lo m hi -> In (k, s) m -> k <= p < k + blen (seg_data s) ->
  buf m p = (fun b => (b, seg_ts_ns s)) <$> seg_data s !! Z.to_nat (p - k).
Proof.
  revert lo; induction m as [|[k0 s0] m IH]; simpl; intros lo Hc Hin Hp; [done|].
  destruct Hc as (?&?&?&Hc), Hin as [[= -> ->]|Hin].
  - by rewrite (proj2 (Z.leb_le k p)), (proj2 (Z.ltb_lt p _)) by lia.
  - destruct (chain_In _ _ _ _ _ Hc Hin) as (?&?&?).
    rewrite (proj2 (Z.ltb_ge p (k0 + _))) by lia. rewrite andb_false_r. eauto.
Qed.

Lemma buf_In_Some lo m hi k s p :
  chain lo m hi -> In (k, s) m -> k <= p < k + blen (seg_data s) -> is_Some (buf m p).
Proof.
  intros Hc Hin Hp. rewrite (buf_In _ _ _ _ _ _ Hc Hin Hp). apply fmap_is_Some.
  apply lookup_Some_range. lia.
Qed.

Lemma buf_None m p :
  (forall k s, In (k, s) m -> k + blen (seg_data s) <= p \/ p < k) -> buf m p = None.
Proof.
  induction m as [|[k s] m IH]; simpl; intros H; [done|].
  destruct ((k <=? p) && (p <? k + blen (seg_data s))) eqn:E; [|eauto].
  reflect_bools. destruct (H k s); [by left|lia..].
Qed.

Lemma chain_insert lo m hi c s :
  chain lo m hi -> lo <= c -> 0 < blen (seg_data s) -> c + blen (seg_data s) <= hi ->
  (forall k s', In (k, s') m -> k + blen (seg_data s') <= c \/ c + blen (seg_data s) <= k) ->
  chain lo (bt_insert c s m) hi /\
  total (bt_insert c s m) = blen (seg_data s) + total m /\
  forall p, buf (bt_insert c s m) p =
    if (c <=? p) && (p <? c + blen (seg_data s))
    then (fun b => (b, seg_ts_ns s)) <$> seg_data s !! Z.to_nat (p - c) else buf m p.
Proof.
  revert lo; induction m as [|[k0 s0] m IH]; simpl; intros lo Hc Hlo Hlen Hhi Hdis; [done|].
  destruct Hc as (Hc1&Hc2&Hc3&Hc4). destruct (Hdis k0 s0) as [Hd|Hd]; [by left|..].
  - rewrite (proj2 (Z.ltb_ge c k0)), (proj2 (Z.eqb_neq c k0)) by lia. simpl.
    destruct (IH (k0 + blen (seg_data s0)) Hc4) as (H1 & H2 & H3); [lia..|by eauto|].
    split; [done|]. split; [lia|]. intros p. rewrite H3.
    destruct ((k0 <=? p) && (p <? k0 + blen (seg_data s0))) eqn:E; [|done].
    reflect_bools. rewrite (proj2 (Z.leb_gt c p)) by lia. done.
  - rewrite (proj2 (Z.ltb_lt c k0)) by lia. simpl. by repeat split.
Qed.

Lemma seg_end_chain lo m k s : chain lo m HI -> In (k, s) m -> seg_end k s = k + blen (seg_data s).
Proof.
  intros Hc Hin. destruct (chain_In _ _ _ _ _ Hc Hin) as (?&?&?).
  unfold seg_end. apply sat_add_small. unfold HI, u64_MAX in *. lia.
Qed.

(** The cursor skips bytes that are all buffered. *)
Lemma first_seen_from_skip f c c' start data ts p :
  c <= c' -> (forall q, c <= q < c' -> is_Some (f q)) ->
  first_seen_from c' f start data ts p = first_seen_from c f start data ts p.
Proof.
  intros Hc Hf. unfold first_seen_from, first_seen.
  destruct (p <? c') eqn:E, (p <? c) eqn:E2; reflect_bools; try done; try lia.
  destruct (Hf p) as [x ->]; [lia|done].
Qed.

Record inserted (lo : Z) (h h' : TcpHalf) (out out' : ReassemblyOutcome) : Prop := {
  ins_live : live lo h';
  ins_frame : h' = set_ooo h (out_of_order h') (out_of_order_bytes h');
  ins_out : out' = out \/ out' = mark_retransmit out
}.

Lemma set_ooo_id h : h = set_ooo h (out_of_order h) (out_of_order_bytes h).
Proof. by destruct h. Qed.

Lemma mark_retransmit_idem out : mark_retransmit (mark_retransmit out) = mark_retransmit out.
Proof. done. Qed.

(** The hole [\[cursor, piece_end)] found by the loop body. *)
Lemma hole_spec lo m cursor end_ :
  chain lo m HI -> cursor < end_ ->
  (forall k s, bt_last_le cursor m = Some (k, s) -> seg_end k s <= cursor) ->
  let piece_end := Z.min (match bt_first_in cursor end_ m with Some (k, _) => k | None => end_ end) end_ in
  cursor < piece_end /\
  forall k s, In (k, s) m -> k + blen (seg_data s) <= cursor \/ piece_end <= k.
Proof.
  intros Hc Hlt Hcov piece_end. pose proof (chain_sorted _ _ _ Hc) as Hs.
  assert (forall k s, In (k, s) m -> k <= cursor -> k + blen (seg_data s) <= cursor) as Hle.
  { intros k s Hin Hk. destruct (bt_last_le cursor m) as [[k' s']|] eqn:El.
    - pose proof (bt_last_le_max _ _ _ _ _ Hs El Hin Hk) as Hmax. simpl in Hmax.
      apply bt_last_le_In in El as [Hin' Hk']. simpl in Hk'.
      specialize (Hcov _ _ eq_refl). rewrite (seg_end_chain _ _ _ _ Hc Hin') in Hcov.
      destruct (Z.eq_dec k k') as [->|].
      + pose proof (bt_get_In _ _ _ Hs Hin) as E1. pose proof (bt_get_In _ _ _ Hs Hin') as E2.
        congruence.
      + pose proof (chain_disjoint _ _ _ _ _ _ _ Hc Hin Hin'). lia.
    - pose proof (bt_last_le_None _ _ _ _ Hs El Hin). lia. }
  subst piece_end. destruct (bt_first_in cursor end_ m) as [[k' s']|] eqn:Ef.
  - apply bt_first_in_Some in Ef as (Hin' & Hr & Hmin); [|done]. simpl in Hr, Hmin.
    destruct (chain_In _ _ _ _ _ Hc Hin') as (?&?&?). split.
    + destruct (Z.eq_dec k' cursor) as [->|]; [|lia]. specialize (Hle _ _ Hin'). lia.
    + intros k s Hin. destruct (Z.le_gt_cases k cursor); [left; eauto|right].
      specialize (Hmin _ _ Hin). lia.
  - split; [lia|]. intros k s Hin. destruct (Z.le_gt_cases k cursor); [left; eauto|right].
    pose proof (bt_first_in_None _ _ _ _ _ Hs Ef Hin). lia.
Qed.

Lemma insert_piece lo h cursor piece_end start ts data :
  live lo h -> 0 <= lo <= cursor -> start <= cursor < piece_end -> piece_end <= start + blen data ->
  start + blen data <= HI ->
  (forall k s, In (k, s) (out_of_order h) -> k + blen (seg_data s) <= cursor \/ piece_end <= k) ->
  exists compact, slice (cursor - start) (piece_end - start) data = Some compact /\
    let m' := bt_insert cursor {| seg_data := compact; seg_ts_ns := ts |} (out_of_order h) in
    let h' := set_ooo h m' (sat_add (out_of_order_bytes h) (blen compact)) in
    live lo h' /\
    (forall p, piece_end <= p -> buf m' p = buf (out_of_order h) p) /\
    (forall p, first_seen_from piece_end (buf m') start data ts p =
               first_seen_from cursor (buf (out_of_order h)) start data ts p).
Proof.
  intros Hl Hlo Hcur Hpe Hhi Hdis.
  destruct (slice_spec (cursor - start) (piece_end - start) data) as (compact & E & Hlen & Hi); [lia..|].
  exists compact. split; [done|].
  set (sg := {| seg_data := compact; seg_ts_ns := ts |}). intros m' h'.
  destruct (chain_insert lo (out_of_order h) HI cursor sg) as (H1 & H2 & H3); simpl; try lia.
  { apply Hl. }
  { intros k s Hin. destruct (Hdis _ _ Hin); lia. }
  simpl in H2, H3.
  split; [|split; intros p].
  - assert (total m' <= HI - lo) as Ht.
    { destruct (chain_total _ _ _ H1) as [Hnil|Ht]; [|exact Ht]. exfalso.
      destruct (out_of_order h) as [|[k0 s0] m0]; simpl in Hnil; [done|].
      by destruct (cursor <? k0), (cursor =? k0). }
    assert (total m' = blen compact + total (out_of_order h)) as Htm by exact H2.
    destruct Hl. split; simpl; try done.
    rewrite Htm, live_bytes0 in *. rewrite sat_add_small; unfold HI, u64_MAX in *; lia.
  - intros Hp. unfold m'. rewrite H3. rewrite (proj2 (Z.ltb_ge p (cursor + _))) by lia.
    by rewrite andb_false_r.
  - unfold first_seen_from, first_seen, m'. rewrite H3.
    destruct (p <? piece_end) eqn:E1, (p <? cursor) eqn:E2; reflect_bools; try lia.
    + rewrite (proj2 (Z.leb_gt cursor p)) by lia. done.
    + rewrite (proj2 (Z.leb_le cursor p)), (proj2 (Z.ltb_lt p _)) by lia. simpl.
      rewrite buf_None. 2: { intros k s Hin. destruct (Hdis _ _ Hin); lia. }
      rewrite (proj2 (Z.leb_le start p)), (proj2 (Z.ltb_lt p (start + _))) by lia. simpl.
      rewrite Hi by lia. do 2 f_equal. lia.
    + rewrite (proj2 (Z.ltb_ge p (cursor + _))) by lia. by rewrite andb_false_r.
Qed.

Lemma insert_loop_spec fuel : forall lo start ts data cursor h out,
  let end_ := start + blen data in
  live lo h -> 0 <= lo <= start -> start <= cursor <= end_ -> end_ <= HI ->
  (Z.to_nat (end_ - cursor) < fuel)%nat ->
  exists h' out', insert_ooo_loop fuel start end_ cursor ts data (h, out) = Some (h', out') /\
    inserted lo h h' out out' /\
    forall p, buf (out_of_order h') p = first_seen_from cursor (buf (out_of_order h)) start data ts p.
Proof.
  induction fuel as [|fuel IH]; intros lo start ts data cursor h out end_ Hl Hlo Hcur Hhi Hf; [lia|].
  simpl. destruct (cursor <? end_) eqn:E0; reflect_bools; simpl.
  2: { exists h, out. split; [done|]. split; [split; [done|apply set_ooo_id|by left]|].
       intros p. unfold first_seen_from, first_seen. destruct (p <? cursor) eqn:E; [done|]. reflect_bools.
       rewrite (proj2 (Z.ltb_ge p (start + _))) by (fold end_; lia). rewrite andb_false_r.
       by destruct (buf _ p). }
  pose proof (live_chain _ _ Hl) as Hc. pose proof (chain_sorted _ _ _ Hc) as Hs.
  set (covering := match bt_last_le cursor (out_of_order h) with
                   | Some (k, s) => if cursor <? seg_end k s then Some (seg_end k s) else None
                   | None => None end).
  destruct covering as [existing_end|] eqn:Ecov; unfold covering in Ecov.
  - destruct (bt_last_le cursor (out_of_order h)) as [[k s]|] eqn:El; [|done].
    destruct (cursor <? seg_end k s) eqn:E1; [|done]. injection Ecov as <-. reflect_bools.
    apply bt_last_le_In in El as [Hin Hk]. simpl in Hk.
    rewrite (seg_end_chain _ _ _ _ Hc Hin) in *.
    destruct (IH lo start ts data (Z.min (k + blen (seg_data s)) end_) h (mark_retransmit out))
      as (h' & out' & E & Hins & Hb); [done|done|fold end_; lia|done|fold end_; lia|].
    exists h', out'. split; [done|]. split.
    + destruct Hins as [H1 H2 H3]. split; [done|done|]. right. by destruct H3 as [->| ->].
    + intros p. rewrite Hb. apply first_seen_from_skip; [lia|].
      intros q Hq. eapply buf_In_Some; [done|done|lia].
  - destruct (hole_spec lo (out_of_order h) cursor end_) as [Hpe Hdis]; [done|done|..].
    { intros k s El. rewrite El in Ecov. destruct (cursor <? seg_end k s) eqn:E1; [done|]. by reflect_bools. }
    set (next := match bt_first_in cursor end_ (out_of_order h) with
                 | Some (k, sg) => Some (k, seg_end k sg) | None => None end).
    assert (match next with Some (k, _) => k | None => end_ end =
            match bt_first_in cursor end_ (out_of_order h) with Some (k, _) => k | None => end_ end) as ->.
    { unfold next. by destruct (bt_first_in cursor end_ (out_of_order h)) as [[??]|]. }
    set (piece_end := Z.min _ end_) in *.
    rewrite (proj2 (Z.ltb_lt cursor piece_end)) by done.
    destruct (insert_piece lo h cursor piece_end start ts data) as (compact & -> & Hl' & Habove & Hfs);
      [done|lia|lia|fold end_; lia|done|done|].
    simpl. set (h1 := set_ooo h _ _) in *.
    assert (forall c' out1, out1 = out \/ out1 = mark_retransmit out ->
      piece_end <= c' <= end_ ->
      (forall q, piece_end <= q < c' -> is_Some (buf (out_of_order h1) q)) ->
      exists h' out', insert_ooo_loop fuel start end_ c' ts data (h1, out1) = Some (h', out') /\
        inserted lo h h' out out' /\
        forall p, buf (out_of_order h') p = first_seen_from cursor (buf (out_of_order h)) start data ts p)
      as Hgo.
    { intros c' out1 Hout Hc' Hq.
      destruct (IH lo start ts data c' h1 out1) as (h' & out' & E & [I1 I2 I3] & Hb);
        [done|done|fold end_; lia|done|fold end_; lia|].
      exists h', out'. split; [done|]. split.
      - split; [done|by rewrite I2 at 1|]. destruct I3 as [->| ->], Hout as [->| ->]; auto.
      - intros p. rewrite Hb, <- Hfs. apply first_seen_from_skip; [lia|done]. }
    destruct next as [[next_start next_end]|] eqn:En; unfold next in En.
    + destruct (bt_first_in cursor end_ (out_of_order h)) as [[k sg]|] eqn:Ef; [|done].
      injection En as <- <-. apply bt_first_in_Some in Ef as (Hin & Hr & _); [|done]. simpl in Hr.
      destruct (chain_In _ _ _ _ _ Hc Hin) as (?&?&?). rewrite (seg_end_chain _ _ _ _ Hc Hin).
      destruct ((k <=? piece_end) && (piece_end <? k + blen (seg_data sg))) eqn:E2; reflect_bools.
      * apply Hgo; [by right|lia|]. intros q Hq. unfold h1. simpl. rewrite Habove by lia.
        eapply buf_In_Some; [done|done|lia].
      * apply Hgo; [by left|lia|intros q ?; lia].
    + apply Hgo; [by left|lia|intros q ?; lia].
Qed.

Lemma insert_spec lo start ts data h out :
  live lo h -> 0 <= lo <= start -> start + blen data <= HI ->
  exists h' out', insert_ooo_first_seen start ts data (h, out) = Some (h', out') /\
    inserted lo h h' out out' /\
    forall p, buf (out_of_order h') p = first_seen (buf (out_of_order h)) start data ts p.
Proof.
  intros Hl Hlo Hhi. unfold insert_ooo_first_seen. pose proof (blen_nonneg data).
  rewrite sat_add_small by (unfold HI, u64_MAX in *; lia).
  destruct (insert_loop_spec (S (length data)) lo start ts data start h out)
    as (h' & out' & E & Hins & Hb); [done|done|lia|done|unfold blen; lia|].
  exists h', out'. split; [done|]. split; [done|]. intros p. rewrite Hb.
  unfold first_seen_from, first_seen. destruct (p <? start) eqn:E1; [|done]. reflect_bools.
  rewrite (proj2 (Z.leb_gt start p)) by lia. by destruct (buf _ p).
Qed.

(** ** Draining at close *)

Lemma finalize_loop_spec fuel : forall h out,
  good h -> (length (out_of_order h) < fuel)%nat ->
  exists s', finalize_loop fuel (h, out) = Some s' /\ delivers (h, out) s' /\ good s'.1 /\
    (out_of_order s'.1 = [] \/ at_fin s'.1).
Proof.
  induction fuel as [|fuel IH]; intros h out Hg Hf; [lia|].
  simpl. destruct (out_of_order h) as [|[k sg] m] eqn:Hm; simpl.
  { exists (h, out). split; [by destruct (next_abs h)|]. split; [apply delivers_refl|]. split; [done|by left]. }
  destruct Hg as [Hl|Hcl]; [|by rewrite (closed_ooo _ Hcl) in Hm].
  rewrite (live_next _ _ Hl). simpl.
  destruct (skip_flush h out k sg m Hl Hm) as ([h1 out1] & [h2 out2] & -> & E2 & Hd & Hg & Hs).
  simpl in *. rewrite E2. simpl. clear E2.
  destruct Hs as [Hcl|(Hl1 & Hl2 & Hm1 & Hs)].
  { rewrite (closed_fin _ Hcl). exists (h2, out2). split; [done|]; split; [done|]; split; [done|].
    left. by apply closed_ooo. }
  rewrite (live_open _ _ Hl2), (live_bytes _ _ Hl1), (live_bytes _ _ Hl2).
  destruct Hs as [[Hlen Htot]|[[= -> ->] Hat]].
  - rewrite (proj2 (Z.eqb_neq _ _)), andb_false_r by lia.
    destruct (IH h2 out2 (or_introl Hl2)) as (s' & -> & Hd3 & Hg3 & Hb3).
    { rewrite Hm1, Hm in Hlen. simpl in Hlen. lia. }
    exists s'. split; [done|]; split; [by eapply delivers_trans|done].
  - rewrite bool_decide_eq_true_2, Z.eqb_refl by done. exists (h1, out1).
    split; [done|]; split; [done|]; split; [done|]. by right.
Qed.
