(* ===== verification/ReassemblySpec.v ===== *)
(** * What the reassembler promises ([src/src/flow/reassembly.rs])

    The public operations [accept], [acknowledge] and [finalize] against the
    abstract view of [ReassemblyFacts.v]: they never panic and always end, they
    deliver exactly the first-seen bytes in order, they stay within the memory
    limits, and close drains what is buffered.  The last section shows the
    inputs on which the code departs from that. *)

From S2P Require Import Prelude BTree Reassembly ReassemblyFacts.

#[local] Arguments consume_fin_if_ready : simpl never.
#[local] Arguments emit : simpl never.
#[local] Arguments emit_gap_to : simpl never.
#[local] Arguments flush_ooo : simpl never.
#[local] Arguments recover_ooo_timeout : simpl never.
#[local] Arguments recover_known_ack : simpl never.
#[local] Arguments ingest : simpl never.
#[local] Arguments clip_to_fin : simpl never.
#[local] Arguments note_fin : simpl never.

(** A half before its first packet. *)
Record fresh (h : TcpHalf) : Prop := {
  fresh_next : next_abs h = None;
  fresh_off : 0 <= stream_offset h <= 2 ^ 32;
  fresh_ooo : out_of_order h = [];
  fresh_bytes : out_of_order_bytes h = 0;
  fresh_fin : pending_fin h = None;
  fresh_open : fin_consumed h = false;
  fresh_peer : peer_ack_abs h = None
}.

(** The invariant of a [TcpHalf] between operations. *)
Definition inv (h : TcpHalf) : Prop := fresh h \/ wf h.

(** A half has room for one more operation without sequence numbers
    saturating: its stream is below 2^62 bytes. *)
Definition LIMIT : Z := 2 ^ 62.

Definition u32 (x : Z) : Prop := 0 <= x < 2 ^ 32.

(** ** Sequence numbers *)

Lemma wrapping_sub_wrap w x y : 0 <= w -> wrapping_sub w (wrap w x) (wrap w y) = wrap w (x - y).
Proof. intros _. unfold wrapping_sub, wrap. by rewrite <- Zminus_mod. Qed.

Lemma wrap_wrap w x : 0 <= w -> wrap w (wrap w x) = wrap w x.
Proof. intros ?. unfold wrap. apply Z.mod_mod. lia. Qed.

Lemma to_signed_small d : - 2 ^ 31 <= d < 2 ^ 31 -> to_signed 32 (wrap 32 d) = d.
Proof.
  intros Hd. unfold to_signed. rewrite wrap_wrap by lia. unfold wrap.
  change (2 ^ (32 - 1)) with (2 ^ 31).
  destruct (Z.lt_ge_cases d 0).
  - replace (d mod 2 ^ 32) with (d + 2 ^ 32).
    + rewrite (proj2 (Z.ltb_ge _ _)); lia.
    + rewrite <- (Z_mod_plus_full d 1 (2 ^ 32)), Z.mul_1_l. symmetry. apply Z.mod_small. lia.
  - rewrite Z.mod_small by lia. rewrite (proj2 (Z.ltb_lt _ _)); lia.
Qed.

Lemma to_signed_range x : - 2 ^ 31 <= to_signed 32 x < 2 ^ 31.
Proof.
  unfold to_signed. change (2 ^ (32 - 1)) with (2 ^ 31).
  assert (0 <= wrap 32 x < 2 ^ 32) by (apply Z.mod_pos_bound; lia).
  destruct (_ <? _) eqn:E; reflect_bools; lia.
Qed.

Lemma extend_seq_range seq ref :
  0 <= ref <= HI -> 0 <= extend_seq seq ref /\ ref - 2 ^ 31 <= extend_seq seq ref < ref + 2 ^ 31.
Proof.
  intros Href. unfold extend_seq. pose proof (to_signed_range (wrapping_sub 32 seq (wrap 32 ref))).
  destruct (0 <=? _) eqn:E; reflect_bools; unfold sat_add, sat_sub, HI, u64_MAX in *; lia.
Qed.

(** ** Reaching a state in which the segment is considered *)

Lemma observe_wf h seq syn : inv h -> u32 seq -> fin_consumed h = false ->
  wf (observe h seq syn) /\ fin_consumed (observe h seq syn) = false.
Proof.
  intros [Hf|Hw] Hseq Hopen.
  - destruct Hf. split.
    + left. unfold observe. rewrite fresh_next0.
      assert (0 <= wrapping_add 32 seq (b2z syn) < 2 ^ 32) by (apply Z.mod_pos_bound; lia).
      assert (INITIAL_SEQ_EPOCH = 2 ^ 32) as Hep by done.
      set (h1 := set_next h _).
      assert (live (nextz h1 + 1) h1) as Hl.
      { split; simpl; rewrite ?fresh_ooo0, ?fresh_fin0, ?fresh_peer0; try done;
          unfold nextz; simpl; rewrite ?Hep; unfold HI; lia. }
      assert (forall s, live (nextz (set_initial_syn h1 s) + 1) (set_initial_syn h1 s)) as Hl'.
      { intros s. by destruct Hl. }
      destruct (initial_syn_seq h1); [done|]. destruct syn; [apply Hl'|done].
    + unfold observe. rewrite fresh_next0. simpl. destruct (initial_syn_seq h), syn; done.
  - destruct Hw as [Hl|Hcl]; [|destruct Hcl; congruence].
    split; [left|]; unfold observe; rewrite (live_next _ _ Hl).
    + destruct (initial_syn_seq h); [done|]. destruct syn; [|done]. by destruct Hl.
    + destruct (initial_syn_seq h), syn; done.
Qed.

(** Everything [note_fin] and [clip_to_fin] leave alone. *)
Record same_stream (h h' : TcpHalf) : Prop := {
  ss_next : next_abs h' = next_abs h;
  ss_off : stream_offset h' = stream_offset h;
  ss_ooo : out_of_order h' = out_of_order h;
  ss_bytes : out_of_order_bytes h' = out_of_order_bytes h;
  ss_open : fin_consumed h' = fin_consumed h;
  ss_peer : peer_ack_abs h' = peer_ack_abs h;
  ss_syn : initial_syn_seq h' = initial_syn_seq h
}.

Lemma same_stream_refl h : same_stream h h.
Proof. by split. Qed.

Lemma same_stream_trans h1 h2 h3 : same_stream h1 h2 -> same_stream h2 h3 -> same_stream h1 h3.
Proof. intros [] []. split; congruence. Qed.

Lemma same_stream_live lo h h' :
  live lo h -> same_stream h h' -> (forall f, pending_fin h' = Some f -> f <= HI) -> live lo h'.
Proof.
  intros [] [] Hf. assert (nextz h' = nextz h) as Hn by (unfold nextz; by rewrite ss_next0).
  split; rewrite ?Hn, ?ss_next0, ?ss_off0, ?ss_ooo0, ?ss_bytes0, ?ss_open0, ?ss_peer0; done.
Qed.

Lemma note_fin_spec lo h fin start_abs end_abs expected :
  live lo h -> end_abs <= HI ->
  live lo (note_fin h fin start_abs end_abs expected) /\
  same_stream h (note_fin h fin start_abs end_abs expected).
Proof.
  intros Hl He. assert (same_stream h (note_fin h fin start_abs end_abs expected)) as Hs.
  { unfold note_fin. repeat case_match; by split. }
  split; [|done]. eapply same_stream_live; [done..|]. intros f. unfold note_fin.
  pose proof (live_fin _ _ Hl). repeat case_match; simpl; naive_solver.
Qed.

Lemma clip_spec lo h out start_abs data :
  live lo h -> start_abs + blen data <= HI ->
  exists h1 out1 d1, clip_to_fin start_abs (start_abs + blen data) data (h, out) = Some ((h1, out1), d1) /\
    live lo h1 /\ same_stream h h1 /\ d1 `prefix_of` data /\
    (out1 = out \/ out1 = mark_retransmit out).
Proof.
  intros Hl He. unfold clip_to_fin. pose proof (live_fin _ _ Hl) as Hf.
  destruct (pending_fin h) as [f|] eqn:Ef.
  2: { exists h, out, data. split; [done|]. split; [done|]. split; [apply same_stream_refl|by auto]. }
  destruct (f <? _) eqn:E1; reflect_bools.
  2: { exists h, out, data. split; [done|]. split; [done|]. split; [apply same_stream_refl|by auto]. }
  destruct (_ && _) eqn:E2.
  { exists (set_pending_fin h None false), out, data. split; [done|].
    assert (same_stream h (set_pending_fin h None false)) by by split.
    split; [apply (same_stream_live lo h); simpl; [done|done|congruence]|]. by auto. }
  destruct (f <=? start_abs) eqn:E3; reflect_bools.
  { exists h. eexists _, []. split; [done|]. split; [done|]. split; [apply same_stream_refl|].
    split; [apply prefix_nil|]. destruct (is_empty data); auto. }
  rewrite slice_prefix by lia. simpl.
  exists h. eexists _, _. split; [done|]. split; [done|]. split; [apply same_stream_refl|].
  split; [apply prefix_take|by auto].
Qed.

(** ** The payload branch *)

(** The segment repeats only bytes already delivered and nothing is buffered:
    the input on which the fast path misbehaves (see [full_retransmission]). *)
Definition duplicate (h : TcpHalf) (start_abs : Z) (data : bytes) : bool :=
  negb (is_empty data) && (start_abs + blen data <=? nextz h) && is_empty (out_of_order h).

(** [(h0, out0)] is [(h, out)] with the segment's new bytes added to the buffer. *)
Record absorbed (h : TcpHalf) (out : ReassemblyOutcome) (start_abs ts : Z) (data : bytes)
  (h0 : TcpHalf) (out0 : ReassemblyOutcome) : Prop := {
  ab_open : fin_consumed h0 = false;
  ab_next : nextz h0 = nextz h;
  ab_off : stream_offset h0 = stream_offset h;
  ab_pending : pending_fin h0 = pending_fin h;
  ab_requires : pending_fin_requires_ack h0 = pending_fin_requires_ack h;
  ab_emitted : emitted out0 = emitted out;
  ab_gaps : gaps out0 = gaps out;
  ab_buf : forall p, nextz h <= p ->
    buf (out_of_order h0) p = first_seen (buf (out_of_order h)) start_abs data ts p
}.

Lemma mark_cases out b : (if b : bool then mark_retransmit out else out) = out \/
  (if b then mark_retransmit out else out) = mark_retransmit out.
Proof. destruct b; auto. Qed.

Lemma inserted_absorbed lo h h0 out out1 out0 start_abs ts data :
  inserted lo h h0 out1 out0 -> emitted out1 = emitted out -> gaps out1 = gaps out ->
  live lo h ->
  (forall p, nextz h <= p ->
    buf (out_of_order h0) p = first_seen (buf (out_of_order h)) start_abs data ts p) ->
  absorbed h out start_abs ts data h0 out0.
Proof.
  intros [I1 I2 I3] He Hg Hl Hb.
  split; try (by rewrite I2); try done.
  - by apply live_open in I1.
  - by destruct I3 as [->| ->].
  - by destruct I3 as [->| ->].
Qed.

(** Recovery after buffering. *)
Lemma recover_spec max_ooo max_segments h out :
  0 <= max_ooo -> 0 <= max_segments -> good h ->
  exists s', (s ← recover_known_ack (h, out); recover_ooo_pressure max_ooo max_segments s) = Some s' /\
    delivers (h, out) s' /\ good s'.1 /\
    (within max_ooo max_segments s'.1 \/ at_fin s'.1 \/ closed s'.1).
Proof.
  intros Hmo Hms Hg. destruct (known_ack_ok h out Hg) as ([h1 out1] & -> & Hd1 & Hg1). simpl.
  destruct (pressure_spec max_ooo max_segments h1 out1 Hmo Hms Hg1) as (s2 & -> & Hd2 & Hg2 & Hb).
  exists s2. split; [done|]. split; [by eapply delivers_trans|done].
Qed.

Lemma ingest_ahead max_ooo max_segments h out start_abs ts data :
  0 <= max_ooo -> 0 <= max_segments -> live (nextz h + 1) h -> data <> [] ->
  nextz h < start_abs -> start_abs + blen data <= HI ->
  exists h0 out0 s', ingest (nextz h) start_abs ts data max_ooo max_segments (h, out) = Some s' /\
    absorbed h out start_abs ts data h0 out0 /\ delivers (h0, out0) s' /\ good s'.1 /\
    (within max_ooo max_segments s'.1 \/ at_fin s'.1 \/ closed s'.1).
Proof.
  intros Hmo Hms Hl Hd Hlt Hhi. unfold ingest.
  destruct data as [|b data]; [done|]. set (d := b :: data) in *. simpl is_empty. cbv iota.
  rewrite (proj2 (Z.ltb_lt _ _)) by done. simpl fst. simpl snd.
  assert (0 <= nextz h) by (destruct (live_off _ _ Hl); lia).
  destruct (insert_spec (nextz h + 1) start_abs ts d h (mark_out_of_order out) Hl)
    as (h0 & out0 & -> & Hins & Hb); [lia|done|]. simpl.
  assert (nextz h0 = nextz h) as Hn by (by rewrite (ins_frame _ _ _ _ _ Hins)).
  destruct (recover_spec max_ooo max_segments h0 out0 Hmo Hms) as (s' & -> & Hd' & Hg' & Hb').
  { left. eapply live_weaken; [|by apply Hins]. lia. }
  exists h0, out0, s'. split; [done|]. split; [|done].
  eapply inserted_absorbed; [done|done|done|done|]. intros p _. apply Hb.
Qed.

Lemma first_seen_tail f start data ts n p :
  0 <= n <= blen data -> start + n <= p ->
  first_seen f (start + n) (drop (Z.to_nat n) data) ts p = first_seen f start data ts p.
Proof.
  intros Hn Hp. unfold first_seen. destruct (f p); [done|].
  assert (blen (drop (Z.to_nat n) data) = blen data - n) as ->
    by (unfold blen in *; rewrite length_drop; lia).
  replace (start + n + (blen data - n)) with (start + blen data) by lia.
  rewrite (proj2 (Z.leb_le (start + n) p)), (proj2 (Z.leb_le start p)) by lia. simpl.
  destruct (p <? start + blen data) eqn:E; [|done]. rewrite lookup_drop. do 2 f_equal. lia.
Qed.

(** The fast path: nothing buffered, the tail is emitted at once. *)
Lemma ingest_fast h out ts tail :
  live (nextz h + 1) h -> out_of_order h = [] -> tail <> [] -> nextz h + blen tail <= HI ->
  exists h0 s', emit tail ts (h, out) = Some s' /\
    absorbed h out (nextz h) ts tail h0 out /\ delivers (h0, out) s' /\ good s'.1 /\
    out_of_order s'.1 = [] /\ out_of_order_bytes s'.1 = 0.
Proof.
  intros Hl Hm Ht Hhi. rewrite (emit_eq (nextz h + 1)) by done.
  set (c := {| chunk_offset := _; chunk_ts_ns := _; chunk_data := tail |}).
  set (sg := {| seg_data := tail; seg_ts_ns := ts |}).
  pose (h0 := set_ooo h [(nextz h, sg)] (blen tail)).
  pose proof (blen_pos _ Ht) as Hpos.
  exists h0. eexists. split; [done|].
  assert (forall p, nextz h <= p ->
    buf (out_of_order h0) p = first_seen (buf (out_of_order h)) (nextz h) tail ts p) as Hb.
  { intros p Hp. rewrite Hm. unfold h0. simpl. done. }
  destruct (advance_delivers (nextz h + 1) h0 out h (push_chunk out c) (EvChunk c))
    as (Hd & _ & Hc); simpl; try done.
  - by apply live_open in Hl.
  - split; simpl; rewrite ?Hm; simpl; done || lia.
  - by rewrite app_nil_r.
  - intros i Hi. simpl in *. change (nextz h0) with (nextz h).
    rewrite (proj2 (Z.leb_le (nextz h) _)), (proj2 (Z.ltb_lt _ (nextz h + _))) by lia.
    simpl. do 2 f_equal. lia.
  - intros p Hp. rewrite Hm. simpl. change (nextz h0) with (nextz h) in Hp.
    rewrite (proj2 (Z.ltb_ge p _)) by lia. by rewrite andb_false_r.
  - split; [split; try done; by apply live_open in Hl|]. split; [exact Hd|].
    simpl in Hc. destruct Hc as [(E & Hl' & _)|Hcl].
    + split; [left|rewrite E; simpl; rewrite (live_bytes _ _ Hl), Hm; done].
      eapply live_rechain; [done|]. rewrite E. simpl. by rewrite Hm.
    + split; [by right|]. by destruct Hcl.
Qed.

Lemma ingest_contiguous max_ooo max_segments h out start_abs ts data :
  0 <= max_ooo -> 0 <= max_segments -> live (nextz h + 1) h -> data <> [] ->
  0 <= start_abs <= nextz h -> nextz h < start_abs + blen data <= HI ->
  exists h0 out0 s', ingest (nextz h) start_abs ts data max_ooo max_segments (h, out) = Some s' /\
    absorbed h out start_abs ts data h0 out0 /\ delivers (h0, out0) s' /\ good s'.1 /\
    (within max_ooo max_segments s'.1 \/ at_fin s'.1 \/ closed s'.1).
Proof.
  intros Hmo Hms Hl Hd Hst Hend. unfold ingest.
  destruct (is_empty data) eqn:Eemp; [by apply is_empty_spec in Eemp|].
  rewrite (proj2 (Z.ltb_ge _ _)) by lia. simpl fst. simpl snd.
  assert (HI <= u64_MAX) by (unfold HI, u64_MAX; lia).
  rewrite sat_sub_ge by lia. set (n := nextz h - start_abs).
  assert ((blen data <=? n) = false) as -> by (apply Z.leb_gt; unfold n; lia).
  set (out1 := if start_abs <? nextz h then mark_retransmit out else out).
  assert (emitted out1 = emitted out /\ gaps out1 = gaps out) as [He1 Hg1]
    by (unfold out1; by destruct (start_abs <? nextz h)).
  assert ((if start_abs <? nextz h then n else 0) = n) as ->
    by (unfold n; destruct (start_abs <? nextz h) eqn:E; reflect_bools; lia).
  assert ((if n =? 0 then Some data else slice n (blen data) data)
    = Some (drop (Z.to_nat n) data)) as ->.
  { destruct (n =? 0) eqn:E; reflect_bools; [by rewrite E|]. apply slice_suffix. unfold n. lia. }
  simpl. rewrite sat_add_small by (unfold n; lia).
  replace (start_abs + n) with (nextz h) by (unfold n; lia).
  set (tail := drop (Z.to_nat n) data).
  assert (blen tail = start_abs + blen data - nextz h) as Hlt.
  { unfold tail, blen, n in *. rewrite length_drop. lia. }
  assert (forall p, nextz h <= p -> first_seen (buf (out_of_order h)) (nextz h) tail ts p =
    first_seen (buf (out_of_order h)) start_abs data ts p) as Hfs.
  { intros p Hp. replace (nextz h) with (start_abs + n) by (unfold n; lia).
    apply first_seen_tail; unfold n; lia. }
  destruct (is_empty (out_of_order h)) eqn:Em.
  - apply is_empty_spec in Em.
    destruct (ingest_fast h out1 ts tail Hl Em) as (h0 & s' & E & Hab & Hd' & Hg' & Hm' & Hb').
    { intros ->. rewrite blen_nil in Hlt. lia. }
    { lia. }
    exists h0, out1, s'. split; [done|]. split; [|split; [done|split; [done|left]]].
    + destruct Hab. split; try congruence. intros p Hp. by rewrite ab_buf0, Hfs by done.
    + unfold within. rewrite Hm', Hb'. unfold blen; simpl. lia.
  - destruct (insert_spec (nextz h) (nextz h) ts tail h out1) as (h0 & out0 & -> & Hins & Hb); [|lia|lia|].
    { eapply live_weaken; [|done]. lia. }
    simpl. pose proof (ins_live _ _ _ _ _ Hins) as Hl0.
    destruct (flush_spec _ h0 out0 Hl0) as ([h2 out2] & -> & Hd2 & Hw2 & _). simpl.
    destruct (recover_spec max_ooo max_segments h2 out2 Hmo Hms (wf_good _ Hw2)) as (s' & -> & Hd' & Hg' & Hb').
    exists h0, out0, s'. split; [done|]. split; [|split; [by eapply delivers_trans|done]].
    eapply inserted_absorbed; [done|done|done|eapply live_weaken; [|done]; lia|].
    intros p Hp. by rewrite Hb, Hfs.
Qed.

Lemma stale_prefix h start_abs ts data max_ooo max_segments out :
  data <> [] -> 0 <= start_abs -> start_abs + blen data <= nextz h -> nextz h <= HI ->
  ingest (nextz h) start_abs ts data max_ooo max_segments (h, out) =
    (if is_empty (out_of_order h) then emit data ts (h, mark_retransmit out)
     else s ← insert_ooo_first_seen start_abs ts data (h, mark_retransmit out);
          s ← flush_ooo s;
          s ← recover_known_ack s;
          recover_ooo_pressure max_ooo max_segments s).
Proof.
  intros Hd H0 Hend Hhi. unfold ingest. pose proof (blen_pos _ Hd).
  destruct (is_empty data) eqn:Eemp; [by apply is_empty_spec in Eemp|].
  rewrite (proj2 (Z.ltb_ge _ _)), (proj2 (Z.ltb_lt start_abs _)) by lia. simpl fst. simpl snd.
  rewrite sat_sub_ge, (proj2 (Z.leb_le (blen data) _)) by lia. simpl.
  rewrite sat_add_small by (unfold HI, u64_MAX in *; lia). by rewrite Z.add_0_r.
Qed.

Lemma ingest_stale max_ooo max_segments h out start_abs ts data :
  0 <= max_ooo -> 0 <= max_segments -> live (nextz h + 1) h -> data <> [] ->
  0 <= start_abs -> start_abs + blen data <= nextz h -> out_of_order h <> [] ->
  exists h0 out0 s', ingest (nextz h) start_abs ts data max_ooo max_segments (h, out) = Some s' /\
    absorbed h out start_abs ts data h0 out0 /\ delivers (h0, out0) s' /\ good s'.1 /\
    (within max_ooo max_segments s'.1 \/ at_fin s'.1 \/ closed s'.1).
Proof.
  intros Hmo Hms Hl Hd H0 Hend Hm. pose proof (live_hi _ _ Hl). pose proof (blen_pos _ Hd).
  rewrite stale_prefix by done.
  destruct (is_empty (out_of_order h)) eqn:Em; [by apply is_empty_spec in Em|].
  destruct (insert_spec start_abs start_abs ts data h (mark_retransmit out))
    as (h0 & out0 & -> & Hins & Hb); [eapply live_weaken; [|done]; lia|lia|lia|].
  simpl. pose proof (ins_live _ _ _ _ _ Hins) as Hl0.
  destruct (flush_spec _ h0 out0 Hl0) as ([h2 out2] & -> & Hd2 & Hw2 & _). simpl.
  destruct (recover_spec max_ooo max_segments h2 out2 Hmo Hms (wf_good _ Hw2)) as (s' & -> & Hd' & Hg' & Hb').
  exists h0, out0, s'. split; [done|]. split; [|split; [by eapply delivers_trans|done]].
  eapply inserted_absorbed; [done|done|done|eapply live_weaken; [|done]; lia|].
  intros p Hp. apply Hb.
Qed.

(** The payload branch, on every input but a [duplicate]. *)
Lemma ingest_spec max_ooo max_segments h out start_abs ts data :
  0 <= max_ooo -> 0 <= max_segments -> live (nextz h + 1) h ->
  0 <= start_abs -> start_abs + blen data <= HI -> duplicate h start_abs data = false ->
  exists h0 out0 s', ingest (nextz h) start_abs ts data max_ooo max_segments (h, out) = Some s' /\
    absorbed h out start_abs ts data h0 out0 /\ delivers (h0, out0) s' /\ good s'.1 /\
    (within max_ooo max_segments h ->
     within max_ooo max_segments s'.1 \/ at_fin s'.1 \/ closed s'.1).
Proof.
  intros Hmo Hms Hl H0 Hhi Hdup.
  destruct (is_empty data) eqn:Eemp.
  { apply is_empty_spec in Eemp as ->. exists h, out, (h, out). split; [done|].
    split; [|split; [apply delivers_refl|]].
    2: { split; [left|by left]. simpl. eapply live_weaken; [|done]. lia. }
    split; try done; [by apply live_open in Hl|]. intros p _. unfold first_seen.
    rewrite blen_nil, Z.add_0_r. destruct (buf _ p); [done|].
    destruct (start_abs <=? p) eqn:E; [|done]. reflect_bools.
    by rewrite (proj2 (Z.ltb_ge p start_abs)) by lia. }
  assert (data <> []) as Hd by (intros ->; done).
  destruct (Z.lt_ge_cases (nextz h) start_abs).
  { destruct (ingest_ahead max_ooo max_segments h out start_abs ts data) as (h0 & out0 & s' & ?&?&?&?&?);
      eauto 10. }
  destruct (Z.lt_ge_cases (nextz h) (start_abs + blen data)).
  { destruct (ingest_contiguous max_ooo max_segments h out start_abs ts data)
      as (h0 & out0 & s' & ?&?&?&?&?); eauto 10. }
  destruct (ingest_stale max_ooo max_segments h out start_abs ts data)
    as (h0 & out0 & s' & ?&?&?&?&?); eauto 10.
  intros Hm. unfold duplicate in Hdup. rewrite Eemp, Hm, (proj2 (Z.leb_le _ _)) in Hdup by done. done.
Qed.

(** On a [duplicate] the fast path emits the whole payload a second time. *)
Lemma ingest_duplicate max_ooo max_segments h out start_abs ts data :
  live (nextz h + 1) h -> 0 <= start_abs -> nextz h + blen data <= HI ->
  duplicate h start_abs data = true ->
  ingest (nextz h) start_abs ts data max_ooo max_segments (h, out) =
    Some (consume_fin_if_ready (advance h (blen data),
      push_chunk (mark_retransmit out)
        {| chunk_offset := stream_offset h; chunk_ts_ns := ts; chunk_data := data |})).
Proof.
  intros Hl H0 Hhi Hdup. unfold duplicate in Hdup. reflect_bools.
  destruct data as [|b data]; [done|]. pose proof (live_hi _ _ Hl).
  rewrite stale_prefix by done. rewrite H1. by rewrite (emit_eq (nextz h + 1)).
Qed.

(** ** The common end of [accept] and [acknowledge] *)

Lemma pending_recover_ok s :
  good s.1 ->
  exists s', match pending_fin s.1 with
             | Some _ => if fin_consumed s.1 then Some s else recover_known_ack s
             | None => Some s end = Some s' /\ delivers s s' /\ good s'.1.
Proof.
  destruct s as [h out]. simpl. intros Hg.
  assert (exists s', Some (h, out) = Some s' /\ delivers (h, out) s' /\ good s'.1) as Hself
    by (exists (h, out); split; [done|split; [apply delivers_refl|done]]).
  destruct (pending_fin h); [|done]. destruct (fin_consumed h); [done|]. by apply known_ack_ok.
Qed.

Lemma wf_consume h out :
  wf h -> let s' := consume_fin_if_ready (h, out) in delivers (h, out) s' /\ wf s'.1.
Proof.
  intros Hw s'. destruct (consume_fin_spec h out (wf_good _ Hw)) as [Hd [E|Hc]].
  - split; [done|]. unfold s'. by rewrite E.
  - split; [done|by right].
Qed.

Lemma timeout_consume age ts h out :
  good h ->
  exists s', recover_ooo_timeout age ts (h, out) = Some s' /\
    delivers (h, out) (consume_fin_if_ready s') /\ wf (consume_fin_if_ready s').1.
Proof.
  intros Hg. destruct (timeout_spec age ts h out Hg) as ([h' out'] & -> & Hd & Hw).
  exists (h', out'). split; [done|]. destruct (wf_consume h' out' Hw) as [Hd' Hw'].
  split; [by eapply delivers_trans|done].
Qed.

(** The limits survive what only removes segments. *)
Lemma delivers_within max_ooo max_segments s s' :
  delivers s s' -> good s.1 -> wf s'.1 -> 0 <= max_ooo -> 0 <= max_segments ->
  within max_ooo max_segments s.1 \/ at_fin s.1 \/ closed s.1 ->
  within max_ooo max_segments s'.1 \/ at_fin s'.1 \/ closed s'.1.
Proof.
  intros Hd Hg Hw Hmo Hms Hb. destruct Hw as [Hl'|Hcl']; [|by right; right].
  assert (fin_consumed s.1 = false) as Hop.
  { destruct (fin_consumed s.1) eqn:E; [|done]. destruct (dl_closed _ _ Hd E).
    pose proof (live_open _ _ Hl'). congruence. }
  destruct Hb as [[Hb1 Hb2]|[(f & Hf & Hle)|Hcl]].
  - left. destruct Hg as [Hl|Hcl]; [|pose proof (closed_fin _ Hcl); congruence].
    pose proof (dl_len _ _ Hd). pose proof (dl_total _ _ Hd). unfold within, blen in *.
    rewrite (live_bytes _ _ Hl'). rewrite (live_bytes _ _ Hl) in Hb1. lia.
  - right; left. exists f. destruct (dl_frame _ _ Hd (live_open _ _ Hl')) as [-> _].
    split; [done|]. rewrite (dl_next _ _ Hd (live_open _ _ Hl')). pose proof (dl_mono _ _ Hd). lia.
  - pose proof (closed_fin _ Hcl). congruence.
Qed.

(** ** One call of [accept] *)

(** The state, position and payload that [accept] hands to its payload branch. *)
Definition considered (h : TcpHalf) (seq : Z) (syn fin : bool) (data : bytes) : TcpHalf * Z * bytes :=
  let h1 := observe h seq syn in
  let start := extend_seq (wrapping_add 32 seq (b2z syn)) (nextz h1) in
  let end_ := sat_add start (blen data) in
  match clip_to_fin start end_ data (note_fin h1 fin start end_ (nextz h1), outcome_default) with
  | Some ((h2, _), d) => (h2, start, d)
  | None => (h1, start, data)
  end.

(** The call is the fast-path re-emission of a full retransmission. *)
Definition reemits (h : TcpHalf) (seq : Z) (syn fin : bool) (data : bytes) : bool :=
  let '(h2, start, d) := considered h seq syn fin data in duplicate h2 start d.

(** What the caller guarantees: a 32-bit sequence number, a payload shorter
    than 4 GiB, non-negative limits, and a stream below 2^62 bytes. *)
Record call_ok (h : TcpHalf) (seq : Z) (syn : bool) (data : bytes) (max_ooo max_segments : Z)
  : Prop := {
  co_seq : u32 seq;
  co_len : blen data < 2 ^ 32;
  co_room : nextz (observe h seq syn) <= LIMIT;
  co_ooo : 0 <= max_ooo;
  co_segs : 0 <= max_segments
}.

Lemma observe_frame h seq syn :
  out_of_order (observe h seq syn) = out_of_order h /\
  out_of_order_bytes (observe h seq syn) = out_of_order_bytes h /\
  stream_offset (observe h seq syn) = stream_offset h /\
  fin_consumed (observe h seq syn) = fin_consumed h /\
  (next_abs h <> None -> nextz (observe h seq syn) = nextz h).
Proof.
  unfold observe, nextz. destruct (next_abs h) as [n|] eqn:En; simpl;
    destruct (initial_syn_seq h), syn; simpl; rewrite ?En; repeat split; done.
Qed.

Lemma absorbed_h2 h1 h2 : same_stream h1 h2 -> nextz h2 = nextz h1.
Proof. intros []. unfold nextz. by rewrite ss_next0. Qed.

(** A tentative FIN that the half has reached without a peer ACK. *)
Definition tentative_at_fin (h : TcpHalf) : Prop :=
  pending_fin h = Some (nextz h) /\ pending_fin_requires_ack h = true.

Lemma consume_at_fin h out :
  wf h -> at_fin (consume_fin_if_ready (h, out)).1 ->
  closed (consume_fin_if_ready (h, out)).1 \/ tentative_at_fin (consume_fin_if_ready (h, out)).1.
Proof.
  intros [Hl|Hcl].
  - destruct (consume_fin_cases _ h out Hl) as [[-> Hf]|(h' & -> & Hc & _)]; [|by left].
    intros (f & Ef & Hle). right. destruct (Hf f Ef Hle) as (-> & Hr & _). done.
  - intros _. left. unfold consume_fin_if_ready. by rewrite (closed_fin _ Hcl).
Qed.

(** The second half of [accept], from the payload branch on. *)
Lemma accept_tail h s0 (r : option st) h1 out1 ts gt max_ooo max_segments :
  0 <= max_ooo -> 0 <= max_segments ->
  r = Some (h1, out1) -> delivers s0 (h1, out1) -> good h1 ->
  (within max_ooo max_segments h ->
   within max_ooo max_segments h1 \/ at_fin h1 \/ closed h1) ->
  exists h' out,
    (s ← r;
     s ← (match pending_fin s.1 with
          | Some _ => if fin_consumed s.1 then Some s else recover_known_ack s
          | None => Some s end);
     s ← recover_ooo_timeout gt ts s;
     Some (consume_fin_if_ready s)) = Some (h', out) /\
    delivers s0 (h', out) /\ wf h' /\
    (within max_ooo max_segments h -> within max_ooo max_segments h' \/ tentative_at_fin h').
Proof.
  intros Hmo Hms -> Hd Hg Hb. simpl.
  destruct (pending_recover_ok (h1, out1) Hg) as ([h2 out2] & E2 & Hd2 & Hg2). simpl in E2.
  rewrite E2. simpl.
  destruct (timeout_spec gt ts h2 out2 Hg2) as ([h3 out3] & -> & Hd3 & Hw3). simpl.
  destruct (wf_consume h3 out3 Hw3) as [Hd4 Hw4].
  pose proof (consume_at_fin h3 out3 Hw3) as Hat.
  destruct (consume_fin_if_ready (h3, out3)) as [h' out] eqn:E4. simpl in *.
  assert (delivers (h1, out1) (h', out)) as Hd5 by eauto using delivers_trans.
  exists h', out. split; [done|]. split; [by eapply delivers_trans|]. split; [done|].
  intros Hwithin.
  assert (closed h' -> within max_ooo max_segments h') as Hcw.
  { intros []. unfold within, blen. rewrite closed_bytes, closed_ooo. simpl. lia. }
  destruct (delivers_within max_ooo max_segments _ _ Hd5 Hg Hw4 Hmo Hms (Hb Hwithin)) as [|[Ha|]];
    [by left| |by left; apply Hcw].
  destruct (Hat Ha); [left; by apply Hcw|by right].
Qed.

Lemma accept_open_spec h seq syn fin ts data max_ooo max_segments gt :
  inv h -> fin_consumed h = false -> call_ok h seq syn data max_ooo max_segments ->
  let '(h2, start, d) := considered h seq syn fin data in
  out_of_order h2 = out_of_order h /\ stream_offset h2 = stream_offset h /\
  nextz h2 = nextz (observe h seq syn) /\ d `prefix_of` data /\
  exists h' out, accept h seq syn fin ts data max_ooo max_segments gt = Some (h', out) /\
    wf h' /\
    (within max_ooo max_segments h -> within max_ooo max_segments h' \/ tentative_at_fin h') /\
    (duplicate h2 start d = false ->
     exists h0 out0, absorbed h2 outcome_default start ts d h0 out0 /\ delivers (h0, out0) (h', out)).
Proof.
  intros Hinv Hopen [Hseq Hlen Hroom Hmo Hms].
  destruct (observe_wf h seq syn Hinv Hseq Hopen) as [Hw1 Hop1].
  destruct (observe_frame h seq syn) as (Fm & Fb & Fo & Ff & _).
  destruct Hw1 as [Hl1|Hcl]; [|pose proof (closed_fin _ Hcl); congruence].
  unfold considered, accept. rewrite Hop1, (live_next _ _ Hl1). simpl.
  set (h1 := observe h seq syn) in *.
  set (start := extend_seq (wrapping_add 32 seq (b2z syn)) (nextz h1)).
  assert (0 <= nextz h1 <= HI) as Hn1 by (pose proof (live_off _ _ Hl1); pose proof (live_hi _ _ Hl1); lia).
  destruct (extend_seq_range (wrapping_add 32 seq (b2z syn)) (nextz h1) Hn1) as [Hs0 Hs1].
  fold start in Hs0, Hs1. pose proof (blen_nonneg data).
  assert (start + blen data <= HI /\ nextz h1 + blen data <= HI) as [He He']
    by (unfold LIMIT, HI in *; lia).
  rewrite sat_add_small by (unfold HI, u64_MAX in *; lia).
  destruct (note_fin_spec _ h1 fin start (start + blen data) (nextz h1) Hl1 He) as [Hl1' Hss1].
  destruct (clip_spec _ _ outcome_default start data Hl1' He)
    as (h2 & out2 & d & -> & Hl2 & Hss2 & Hpre & Hout).
  simpl. pose proof (same_stream_trans _ _ _ Hss1 Hss2) as Hss.
  pose proof (absorbed_h2 _ _ Hss) as Hn2.
  assert (live (nextz h2 + 1) h2) as Hl2' by (by rewrite Hn2).
  assert (blen d <= blen data) as Hdl.
  { destruct Hpre as [k ->]. rewrite blen_app. pose proof (blen_nonneg k). lia. }
  split; [by rewrite (ss_ooo _ _ Hss)|]. split; [by rewrite (ss_off _ _ Hss)|].
  split; [done|]. split; [done|].
  assert (within max_ooo max_segments h -> within max_ooo max_segments h2) as Hwi.
  { unfold within. by rewrite (ss_bytes _ _ Hss), (ss_ooo _ _ Hss), Fb, Fm. }
  assert (emitted out2 = [] /\ gaps out2 = []) as [Ho1 Ho2] by (by destruct Hout as [->| ->]).
  replace (nextz h1) with (nextz h2) by done.
  destruct (duplicate h2 start d) eqn:Edup.
  - pose proof Edup as Edup'. unfold duplicate in Edup'. reflect_bools.
    assert (out_of_order h2 = []) as Hm2 by (by apply is_empty_spec).
    assert (d <> []) as Hdne by (intros ->; done). pose proof (blen_pos _ Hdne).
    assert (good (advance h2 (blen d))) as Hga.
    { left. eapply live_rechain; [apply (advance_live (nextz h2 + 1)); [done|lia|rewrite Hn2; lia]|].
      simpl. by rewrite Hm2. }
    destruct (consume_fin_spec (advance h2 (blen d))
      (push_chunk (mark_retransmit out2)
        {| chunk_offset := stream_offset h2; chunk_ts_ns := ts; chunk_data := d |}) Hga) as [Hd _].
    assert (good (consume_fin_if_ready (advance h2 (blen d), push_chunk (mark_retransmit out2)
        {| chunk_offset := stream_offset h2; chunk_ts_ns := ts; chunk_data := d |})).1) as Hgc.
    { destruct (consume_fin_spec _ (push_chunk (mark_retransmit out2)
        {| chunk_offset := stream_offset h2; chunk_ts_ns := ts; chunk_data := d |}) Hga) as [_ [->|]];
        [done|by right]. }
    pose proof (ingest_duplicate max_ooo max_segments h2 out2 start ts d Hl2' Hs0) as Hing.
    destruct (consume_fin_if_ready _) as [h3 out3] eqn:E3. simpl in Hgc.
    destruct (accept_tail h _ _ h3 out3 ts gt max_ooo max_segments Hmo Hms
      (Hing ltac:(rewrite Hn2; lia) Edup) Hd Hgc) as (h' & out & E & _ & Hw' & Hb').
    { intros [Hb1 Hb2]. pose proof (dl_len _ _ Hd) as Hl3. simpl in Hl3. rewrite Hm2 in Hl3.
      destruct (out_of_order h3) eqn:Em3; [|simpl in Hl3; lia].
      destruct Hgc as [Hl4|]; [|by right; right]. left. unfold within.
      rewrite (live_bytes _ _ Hl4), Em3. unfold blen; simpl. lia. }
    exists h', out. rewrite E. split; [done|]. split; [done|]. split; [done|]. done.
  - destruct (ingest_spec max_ooo max_segments h2 out2 start ts d Hmo Hms Hl2' Hs0)
      as (h0 & out0 & [h3 out3] & Ei & Hab & Hd & Hg & Hb); [lia|done|].
    destruct (accept_tail h _ _ h3 out3 ts gt max_ooo max_segments Hmo Hms Ei Hd Hg) as
      (h' & out & E & Hd' & Hw' & Hb'); [auto|].
    exists h', out. rewrite E. split; [done|]. split; [done|]. split; [done|].
    intros _. exists h0, out0. split; [|done]. destruct Hab. split; simpl; try done; congruence.
Qed.

(** ** Lemmas for the statements below *)

Lemma extends_ext f g n o o' out out' :
  extends f n o o' out out' -> (forall p, n <= p -> f p = g p) -> extends g n o o' out out'.
Proof.
  intros (evs & E & G & T & F) Hfg. exists evs. split; [done|]. split; [done|]. split; [done|].
  apply List.Forall_forall. intros e Hin i Hi. rewrite List.Forall_forall in F.
  rewrite (F e Hin i Hi). apply Hfg. destruct (tiles_In _ _ _ _ T Hin). lia.
Qed.

(** The byte reported at stream offset [o] by the chunks of an outcome. *)
Definition chunk_covers (c : ReassembledChunk) (o : Z) : Prop :=
  chunk_offset c <= o < chunk_offset c + blen (chunk_data c).

Lemma chunks_of_In evs c : In c (chunks_of evs) -> In (EvChunk c) evs.
Proof.
  induction evs as [|[c'|g] evs IH]; simpl; [done|..].
  - intros [->|H]; [by left|right; by apply IH].
  - intros H. right. by apply IH.
Qed.

Lemma extends_chunk f n o o' out c i b :
  extends f n o o' outcome_default out -> In c (emitted out) ->
  chunk_data c !! Z.to_nat i = Some b -> 0 <= i ->
  f (n + (chunk_offset c - o) + i) = Some (b, chunk_ts_ns c) /\
  o <= chunk_offset c /\ chunk_offset c + blen (chunk_data c) <= o'.
Proof.
  intros (evs & E & G & T & F) Hin Hi H0. rewrite E in Hin. simpl in Hin.
  apply chunks_of_In in Hin. rewrite List.Forall_forall in F.
  assert (i < blen (chunk_data c)).
  { apply lookup_lt_Some in Hi. unfold blen. lia. }
  pose proof (F _ Hin i) as Hr. simpl in Hr. rewrite <- Hr, Hi by lia. simpl.
  split; [done|]. apply (tiles_In _ _ _ _ T Hin).
Qed.

Lemma accept_closed_eq h seq syn fin ts data max_ooo max_segments gt :
  fin_consumed h = true ->
  accept h seq syn fin ts data max_ooo max_segments gt =
    Some (observe h seq syn, if is_empty data then outcome_default else mark_retransmit outcome_default).
Proof.
  intros Hc. unfold accept. destruct (observe_frame h seq syn) as (_ & _ & _ & -> & _). by rewrite Hc.
Qed.

Lemma observe_closed h seq syn : closed h -> closed (observe h seq syn).
Proof.
  intros [H1 [n H2] H3 H4 H5]. unfold observe. rewrite H2.
  assert (closed h) as Hc by (split; eauto).
  destruct (initial_syn_seq h); [done|]. destruct syn; [|done].
  split; simpl; eauto. 
Qed.

Lemma recover_finish h out age ts :
  good h ->
  exists h' out',
    (s ← recover_known_ack (h, out);
     s ← recover_ooo_timeout age ts s;
     Some (consume_fin_if_ready s)) = Some (h', out') /\ delivers (h, out) (h', out') /\ wf h'.
Proof.
  intros Hg. destruct (known_ack_ok h out Hg) as ([h1 out1] & -> & Hd1 & Hg1). simpl.
  destruct (timeout_consume age ts h1 out1 Hg1) as (s2 & -> & Hd2 & Hw2). simpl.
  destruct (consume_fin_if_ready s2) as [h' out'].
  exists h', out'. split; [done|]. split; [by eapply delivers_trans|done].
Qed.

Lemma note_ack_wf h ack_abs expected :
  wf h -> (fin_consumed h = false -> ack_abs <= HI) ->
  wf (note_ack h ack_abs expected) /\
  out_of_order (note_ack h ack_abs expected) = out_of_order h /\
  nextz (note_ack h ack_abs expected) = nextz h /\
  stream_offset (note_ack h ack_abs expected) = stream_offset h /\
  fin_consumed (note_ack h ack_abs expected) = fin_consumed h /\
  pending_fin (note_ack h ack_abs expected) = pending_fin h.
Proof.
  intros Hw Ha. unfold note_ack. destruct (_ && _); [|done]. repeat split.
  destruct Hw as [[]|[]]; [left|right]; split; try done. simpl. intros a [= <-]. auto.
Qed.

Lemma fresh_default : fresh TcpHalf_default.
Proof. split; simpl; done || lia. Qed.

(** A half in the middle of a stream: 4 bytes delivered, 4 missing, 4 buffered. *)
Definition example_half : TcpHalf :=
  {| next_abs := Some (2 ^ 32 + 104); stream_offset := 4;
     out_of_order := [(2 ^ 32 + 108, {| seg_data := [x69; x6a; x6b; x6c]; seg_ts_ns := 2 |})];
     out_of_order_bytes := 4; pending_fin := None; pending_fin_requires_ack := false;
     fin_consumed := false; initial_syn_seq := None; peer_ack_abs := None;
     gap_started_ts_ns := Some 2 |}.

Lemma example_half_live : live (nextz example_half + 1) example_half.
Proof. split; unfold nextz, blen, HI; simpl; try done; lia. Qed.

Lemma example_half_inv : inv example_half.
Proof. right; left. apply example_half_live. Qed.

Lemma acknowledge_spec h ack ts gt :
  wf h -> nextz h <= LIMIT ->
  exists h' out, acknowledge h ack ts gt = Some (h', out) /\ wf h' /\
    stream_offset h <= stream_offset h' /\
    (fin_consumed h = false ->
      extends (buf (out_of_order h)) (nextz h) (stream_offset h) (stream_offset h') outcome_default out) /\
    (fin_consumed h' = false -> forall p, nextz h' <= p -> buf (out_of_order h') p = buf (out_of_order h) p) /\
    (fin_consumed h' = false -> nextz h' = nextz h + (stream_offset h' - stream_offset h)) /\
    (fin_consumed h = true -> fin_consumed h' = true /\ out = outcome_default).
Proof.
  intros Hw Hlim. unfold acknowledge.
  assert (next_abs h = Some (nextz h)) as ->.
  { destruct Hw as [Hl|[? [n Hn] _ _ _]]; [apply Hl|]. unfold nextz. by rewrite Hn. }
  assert (fin_consumed h = false -> extend_seq ack (nextz h) <= HI) as Ha.
  { intros Hop. destruct Hw as [Hl|Hcl]; [|pose proof (closed_fin _ Hcl); congruence].
    pose proof (live_off _ _ Hl).
    destruct (extend_seq_range ack (nextz h)); unfold LIMIT, HI in *; lia. }
  destruct (note_ack_wf h (extend_seq ack (nextz h)) (nextz h) Hw Ha) as (Hw1 & Em & En & Eo & Ef & _).
  set (h1 := note_ack h (extend_seq ack (nextz h)) (nextz h)) in *.
  destruct (_ && _).
  { exists h1, outcome_default. rewrite Eo, Em, En. split; [done|]; split; [done|]. split; [lia|].
    split; [intros _; apply extends_refl|]. split; [done|]. split; [lia|]. intros ?. by rewrite Ef. }
  destruct (recover_finish h1 outcome_default gt ts (wf_good _ Hw1)) as (h' & out & -> & Hd & Hw').
  exists h', out. split; [done|]; split; [done|]. rewrite <- Eo, <- Em, <- En, <- Ef.
  split; [apply Hd|]. split; [apply Hd|]. split; [apply (dl_buf _ _ Hd)|]. split; [apply (dl_next _ _ Hd)|].
  intros Hc. by destruct (dl_closed _ _ Hd Hc) as (? & ? & _).
Qed.

(** ** What the callers rely on: every operation returns and keeps the invariant *)

Lemma accept_preserves h seq syn fin ts data max_ooo max_segments gt :
  inv h -> call_ok h seq syn data max_ooo max_segments ->
  exists h' out, accept h seq syn fin ts data max_ooo max_segments gt = Some (h', out) /\ wf h'.
Proof.
  intros Hinv Hok. destruct (fin_consumed h) eqn:Hopen.
  - rewrite accept_closed_eq by done. eexists _, _. split; [done|]. right. apply observe_closed.
    destruct Hinv as [Hf|[Hl|?]]; [|pose proof (live_open _ _ Hl); congruence|done].
    pose proof (fresh_open _ Hf). congruence.
  - pose proof (accept_open_spec h seq syn fin ts data max_ooo max_segments gt Hinv Hopen Hok) as Hspec.
    destruct (considered h seq syn fin data) as [[h2 start] d].
    destruct Hspec as (_ & _ & _ & _ & h' & out & E & Hw & _). eauto.
Qed.

Lemma acknowledge_fresh h ack ts gt : fresh h -> acknowledge h ack ts gt = Some (h, outcome_default).
Proof. intros []. unfold acknowledge. by rewrite fresh_next0. Qed.

Lemma acknowledge_preserves h ack ts gt :
  inv h -> nextz h <= LIMIT ->
  exists h' out, acknowledge h ack ts gt = Some (h', out) /\ inv h'.
Proof.
  intros [Hf|Hw] Hl; [rewrite acknowledge_fresh by done; eexists _, _; by split; [|left]|].
  destruct (acknowledge_spec h ack ts gt Hw Hl) as (h' & out & -> & Hw' & _). eexists _, _. by split; [|right].
Qed.

Lemma finalize_preserves h : inv h -> exists h' out, finalize h = Some (h', out).
Proof.
  intros [[Hn _ Ho _ _ Hc _]|Hw]; unfold finalize.
  - cbn [finalize_loop fst]. rewrite Hn. simpl. repeat case_match; eauto.
  - destruct (finalize_loop_spec (S (length (out_of_order h))) h outcome_default (wf_good _ Hw))
      as ([h1 out1] & -> & _); [lia|]. simpl. destruct (consume_fin_if_ready _). eauto.
Qed.

(** ** Properties *)


(** [accept] never panics, always ends and keeps the invariant, whatever the
    flags, payload, limits and timeout of the call. *)
Theorem accept_total h seq syn fin ts data max_ooo max_segments gt :
  inv h -> call_ok h seq syn data max_ooo max_segments ->
  exists h' out, accept h seq syn fin ts data max_ooo max_segments gt = Some (h', out) /\ wf h'.
Proof. apply accept_preserves. Qed.

(** Memory bound: the buffered bytes and segments stay within the configured
    limits after every call, except while the half waits at a tentative FIN it
    has already reached. *)
Theorem accept_within_limits h seq syn fin ts data max_ooo max_segments gt h' out :
  inv h -> call_ok h seq syn data max_ooo max_segments ->
  within max_ooo max_segments h ->
  accept h seq syn fin ts data max_ooo max_segments gt = Some (h', out) ->
  within max_ooo max_segments h' \/ tentative_at_fin h'.
Proof.
  intros Hinv Hok Hwi E. destruct (fin_consumed h) eqn:Hopen.
  - rewrite accept_closed_eq in E by done. injection E as <- _. left.
    destruct (observe_frame h seq syn) as (Em & Eb & _). unfold within. by rewrite Em, Eb.
  - pose proof (accept_open_spec h seq syn fin ts data max_ooo max_segments gt Hinv Hopen Hok) as Hspec.
    destruct (considered h seq syn fin data) as [[h2 start] d].
    destruct Hspec as (_ & _ & _ & _ & h1 & out1 & E1 & _ & Hb & _). rewrite E in E1.
    injection E1 as <- <-. auto.
Qed.

(** A peer ACK only moves the half forward: [acknowledge] never panics, keeps
    the invariant, reports the buffered bytes and otherwise gaps, and forgets
    no byte above the new position. *)
Theorem acknowledge_delivers h ack ts gt :
  wf h -> nextz h <= LIMIT ->
  exists h' out, acknowledge h ack ts gt = Some (h', out) /\ wf h' /\
    stream_offset h <= stream_offset h' /\
    (fin_consumed h = false ->
      extends (buf (out_of_order h)) (nextz h) (stream_offset h) (stream_offset h') outcome_default out) /\
    (fin_consumed h' = false -> forall p, nextz h' <= p -> buf (out_of_order h') p = buf (out_of_order h) p).
Proof.
  intros Hw Hlim. destruct (acknowledge_spec h ack ts gt Hw Hlim) as (h' & out & E & Hw' & Hx).
  exists h', out. split; [done|]. split; [done|]. tauto.
Qed.

(** Closing a flow drains it: [finalize] never panics, reports every buffered
    byte with explicit gaps for the holes, and nothing stays behind unless a
    tentative FIN was seen below the buffered bytes. *)
Theorem finalize_drains h :
  wf h ->
  exists h' out, finalize h = Some (h', out) /\
    (fin_consumed h = false ->
      extends (buf (out_of_order h)) (nextz h) (stream_offset h) (stream_offset h') outcome_default out) /\
    (pending_fin h = None ->
      out_of_order h' = [] /\
      forall p x, buf (out_of_order h) p = Some x -> nextz h <= p ->
        fin_consumed h = true \/ p < nextz h + (stream_offset h' - stream_offset h)).
Proof.
  intros Hw. unfold finalize.
  destruct (finalize_loop_spec (S (length (out_of_order h))) h outcome_default (wf_good _ Hw))
    as ([h1 out1] & -> & Hd1 & Hg1 & He1); [lia|]. simpl.
  destruct (consume_fin_spec h1 out1 Hg1) as [Hd2 Hc2].
  destruct (consume_fin_if_ready (h1, out1)) as [h2 out2]. simpl in *.
  pose proof (delivers_trans _ _ _ Hd1 Hd2) as Hd.
  exists (set_gap_started h2 None), out2. split; [done|]. split; [apply Hd|].
  intros Hpend. simpl.
  assert (out_of_order h2 = []) as Hm2.
  { pose proof (dl_len _ _ Hd2) as Hlen. simpl in Hlen.
    destruct (fin_consumed h) eqn:Hop.
    - destruct (dl_closed _ _ Hd1 Hop) as [Hc' _]. simpl in Hc'.
      destruct Hg1 as [Hl|Hcl]; [pose proof (live_open _ _ Hl); congruence|].
      rewrite (closed_ooo _ Hcl) in Hlen. destruct (out_of_order h2); [done|simpl in Hlen; lia].
    - pose proof (dl_nofin _ _ Hd1 Hpend) as Hop1. simpl in Hop1. rewrite Hop in Hop1.
      destruct (dl_frame _ _ Hd1 Hop1) as [Hp1 _]. simpl in Hp1.
      destruct He1 as [He1|(f & Ef & _)]; [|congruence].
      rewrite He1 in Hlen. destruct (out_of_order h2); [done|simpl in Hlen; lia]. }
  split; [done|]. intros p x Hx Hp.
  destruct (fin_consumed h) eqn:Hop; [by left|right].
  pose proof (dl_nofin _ _ Hd Hpend) as Hop2. simpl in Hop2. rewrite Hop in Hop2.
  pose proof (dl_next _ _ Hd Hop2) as Hn. simpl in Hn. rewrite <- Hn.
  destruct (Z.lt_ge_cases p (nextz h2)); [done|].
  pose proof (dl_buf _ _ Hd Hop2 p) as Hb. simpl in Hb. rewrite Hm2, Hx in Hb. by specialize (Hb H).
Qed.

(** Liveness of the gap timeout: once the oldest hole is older than the
    timeout and no FIN marker is pending, the recovery step moves past the hole
    and delivers at least the whole first buffered segment. *)
Theorem timeout_makes_progress h out age ts k sg m started :
  live (nextz h + 1) h -> out_of_order h = (k, sg) :: m -> pending_fin h = None ->
  gap_started_ts_ns h = Some started -> started + age <= ts -> 0 <= age ->
  exists h' out', recover_ooo_timeout age ts (h, out) = Some (h', out') /\
    delivers (h, out) (h', out') /\ k + blen (seg_data sg) <= nextz h'.
Proof.
  intros Hl Hm Hp Hg Hts Hage.
  assert (live (nextz h) h) as Hl0 by (eapply live_weaken; [|done]; lia).
  destruct (timeout_spec age ts h out (or_introl Hl0)) as ([h' out'] & E & Hd & Hw).
  exists h', out'. split; [done|]. split; [done|].
  pose proof (live_chain _ _ Hl) as Hc. rewrite Hm in Hc. destruct Hc as (Hc1 & Hc2 & _).
  assert (k <= nextz h') as Hk.
  { unfold recover_ooo_timeout in E. rewrite (live_next _ _ Hl), Hm, Hg in E. simpl in E.
    rewrite (proj2 (Z.leb_gt k _)), (proj2 (Z.ltb_ge (sat_sub ts started) age)) in E
      by (unfold sat_sub; lia).
    destruct (gap_to_first h out k sg m k Hl0 Hm) as ([h1 out1] & E1 & Hd1 & Hs1); [lia|].
    rewrite E1 in E. simpl in E, Hs1. rewrite Hp in Hs1.
    pose proof (dl_nofin _ _ Hd1 Hp) as Hop1. simpl in Hop1. rewrite (live_open _ _ Hl) in Hop1.
    destruct Hs1 as [(Hl1 & _ & Hn1)|Hcl1]; [|pose proof (closed_fin _ Hcl1); congruence].
    destruct (dl_frame _ _ Hd1 Hop1) as [Hp1 _]. simpl in Hp1. rewrite Hp in Hp1.
    destruct (flush_spec _ h1 out1 Hl1) as ([h2 out2] & E2 & Hd2 & _). rewrite E2 in E. simpl in E.
    pose proof (dl_nofin _ _ Hd2 Hp1) as Hop2. simpl in Hop2. rewrite Hop1 in Hop2.
    pose proof (dl_next _ _ Hd2 Hop2) as Hn2. pose proof (dl_mono _ _ Hd2) as Hm2. simpl in Hn2, Hm2.
    enough (nextz h' = nextz h2) as -> by lia.
    destruct (bt_first (out_of_order h2)) as [[k2 s2]|], (next_abs h2) as [n2|] eqn:En2;
      try destruct (n2 <? k2); injection E as <- _; done. }
  destruct (Z.lt_ge_cases (nextz h') (k + blen (seg_data sg))); [exfalso|done].
  pose proof (dl_nofin _ _ Hd Hp) as Hop. simpl in Hop. rewrite (live_open _ _ Hl) in Hop.
  pose proof (dl_buf _ _ Hd Hop (nextz h') ltac:(simpl; lia)) as Hb. simpl in Hb.
  destruct Hw as [Hl'|Hcl]; [|pose proof (closed_fin _ Hcl); simpl in *; congruence].
  rewrite (buf_below _ _ _ _ (live_chain _ _ Hl')) in Hb by (simpl; lia).
  destruct (buf_In_Some _ _ _ k sg (nextz h') (live_chain _ _ Hl)) as [x Hx]; [rewrite Hm; by left|lia|].
  congruence.
Qed.

(** Sequence extension inverts truncation: within half the 32-bit space of the
    reference, the 64-bit sequence number is recovered from its low 32 bits,
    across wrap-around. *)
Theorem extend_seq_recovers x ref :
  0 <= ref <= HI -> 0 <= x -> ref - 2 ^ 31 <= x < ref + 2 ^ 31 ->
  extend_seq (wrap 32 x) ref = x.
Proof.
  intros Href Hx Hr. unfold extend_seq. rewrite wrapping_sub_wrap, to_signed_small by lia.
  destruct (0 <=? x - ref) eqn:E; reflect_bools; unfold sat_add, sat_sub, HI, u64_MAX in *; lia.
Qed.

(** Nothing is delivered after the FIN: once it was consumed, any later segment
    leaves the stream position alone and reports neither data nor a gap. *)
Theorem accept_after_fin_is_silent h seq syn fin ts data max_ooo max_segments gt h' out :
  fin_consumed h = true ->
  accept h seq syn fin ts data max_ooo max_segments gt = Some (h', out) ->
  emitted out = [] /\ gaps out = [] /\ stream_offset h' = stream_offset h /\
  out_of_order h' = out_of_order h /\ fin_consumed h' = true.
Proof.
  intros Hc E. rewrite accept_closed_eq in E by done. injection E as <- <-.
  destruct (observe_frame h seq syn) as (-> & _ & -> & -> & _).
  by destruct (is_empty data).
Qed.

(** A departure from the intended behaviour: when nothing is buffered, a
    retransmission that brings no new byte is marked as such and then emitted in
    full as if it were new data, at the current stream offset, and the expected
    sequence number advances by its length. *)
Theorem full_retransmission_reemitted h seq ts data max_ooo max_segments gt :
  wf h -> fin_consumed h = false -> pending_fin h = None -> out_of_order h = [] -> data <> [] ->
  call_ok h seq false data max_ooo max_segments ->
  extend_seq seq (nextz h) + blen data <= nextz h ->
  exists h', accept h seq false false ts data max_ooo max_segments gt =
      Some (h', {| emitted := [{| chunk_offset := stream_offset h; chunk_ts_ns := ts;
                                  chunk_data := data |}];
                   gaps := []; retransmit := true; saw_out_of_order := false;
                   out_fin_consumed := false |}) /\
    nextz h' = nextz h + blen data /\ stream_offset h' = stream_offset h + blen data.
Proof.
  intros [Hl|Hcl] Hop Hp Hm Hd [Hseq Hlen Hroom Hmo Hms] Hdup;
    [|pose proof (closed_fin _ Hcl); congruence].
  assert (observe h seq false = h) as Hobs.
  { unfold observe. rewrite (live_next _ _ Hl). by destruct (initial_syn_seq h). }
  pose proof (live_off _ _ Hl). pose proof (blen_nonneg data). rewrite Hobs in Hroom.
  unfold accept. rewrite Hobs, Hop, (live_next _ _ Hl). simpl.
  assert (wrapping_add 32 seq 0 = seq) as ->.
  { unfold wrapping_add. rewrite Z.add_0_r. by apply wrap_small. }
  destruct (extend_seq_range seq (nextz h)) as [Hs0 _]; [unfold LIMIT, HI in *; lia|].
  set (start := extend_seq seq (nextz h)) in *.
  unfold note_fin. simpl. unfold clip_to_fin. rewrite Hp. simpl.
  rewrite ingest_duplicate; [|done|done|unfold LIMIT, HI in *; lia|].
  2: { unfold duplicate. rewrite Hm, (proj2 (Z.leb_le _ _)) by done. by destruct data. }
  assert (forall o, consume_fin_if_ready (advance h (blen data), o) = (advance h (blen data), o)) as Hcf.
  { intros o. unfold consume_fin_if_ready. simpl. by rewrite Hop, Hp. }
  rewrite Hcf. simpl. rewrite Hp. simpl.
  unfold recover_ooo_timeout. simpl. rewrite Hm. simpl.
  eexists. split; [unfold consume_fin_if_ready; simpl; by rewrite Hop, Hp|]. done.
Qed.

(** A second departure: close does not drain past a tentative FIN.  When an
    out-of-order FIN that no ACK confirms lies below captured bytes, [finalize]
    stops at the marker: it emits nothing and the bytes stay buffered. *)
Theorem tentative_fin_blocks_drain h f k sg m :
  live (nextz h + 1) h -> out_of_order h = (k, sg) :: m ->
  pending_fin h = Some f -> pending_fin_requires_ack h = true -> acked_past h f = false ->
  nextz h <= f < k ->
  exists h' out, finalize h = Some (h', out) /\ emitted out = [] /\
    out_of_order h' = out_of_order h.
Proof.
  intros Hl Hm Hp Hr Ha Hf.
  pose proof (live_chain _ _ Hl) as Hc. rewrite Hm in Hc. destruct Hc as (Hc1 & Hc2 & Hc3 & _).
  assert (forall o, consume_fin_if_ready (h, o) = (h, o)) as Hcf0.
  { intros o. unfold consume_fin_if_ready. rewrite (live_open _ _ Hl), Hp, (live_next _ _ Hl), Hr, Ha.
    destruct (f <=? nextz h) eqn:E; [|done]. reflect_bools. by rewrite (proj2 (Z.eqb_eq _ _)) by lia. }
  assert (forall o, flush_ooo (h, o) = Some (h, o)) as Hfl0.
  { intros o. unfold flush_ooo. simpl. rewrite (live_open _ _ Hl), (live_next _ _ Hl), Hm. simpl.
    by rewrite (proj2 (Z.ltb_lt _ _)) by lia. }
  set (h1 := advance h (f - nextz h)).
  assert (nextz h + (f - nextz h) = f) as Hsum by lia.
  assert (forall o, consume_fin_if_ready (h1, o) = (h1, o)) as Hcf1.
  { intros o. unfold consume_fin_if_ready.
    assert (next_abs h1 = Some f) as -> by (unfold h1, advance; simpl; by rewrite Hsum).
    change (fin_consumed h1) with (fin_consumed h). change (pending_fin h1) with (pending_fin h).
    change (pending_fin_requires_ack h1) with (pending_fin_requires_ack h).
    rewrite (live_open _ _ Hl), Hp, Hr. cbv beta iota.
    change (acked_past h1 f) with (acked_past h f).
    by rewrite Ha, Z.leb_refl, Z.eqb_refl. }
  assert (forall o, flush_ooo (h1, o) = Some (h1, o)) as Hfl1.
  { intros o. unfold flush_ooo. simpl. rewrite (live_open _ _ Hl), Hm. simpl.
    by rewrite (proj2 (Z.ltb_lt _ _)) by lia. }
  unfold finalize. simpl. rewrite (live_next _ _ Hl), Hm. simpl.
  rewrite (proj2 (Z.ltb_lt _ k)) by lia. rewrite (emit_gap_to_eq _ _ _ _ Hl) by lia.
  rewrite Hp, Z.min_r by lia. destruct (f <=? nextz h) eqn:E.
  - simpl. rewrite Hfl0. simpl. rewrite (live_open _ _ Hl), bool_decide_eq_true_2, Z.eqb_refl by done. simpl.
    rewrite Hcf0. eexists _, _. split; [done|]. by rewrite <- Hm.
  - fold h1. rewrite Hcf1. simpl. rewrite Hfl1. simpl.
    rewrite (live_open _ _ Hl), bool_decide_eq_true_2, Z.eqb_refl by done. simpl.
    rewrite Hcf1. eexists _, _. split; [done|]. by rewrite <- Hm.
Qed.

(** ** Whole runs against the sender's stream *)

Section Run.
Context (max_ooo max_segments gap_timeout_ns : Z).

(** The segment carries the bytes of the sender's stream [S]. *)
Definition truthful (S : Z -> byte) (h : TcpHalf) (seq : Z) (syn : bool) (data : bytes) : Prop :=
  forall i b, 0 <= i -> data !! Z.to_nat i = Some b ->
    S (extend_seq (wrapping_add 32 seq (b2z syn)) (nextz (observe h seq syn)) + i) = b.

Inductive step (S : Z -> byte) : TcpHalf -> list ReassembledChunk -> TcpHalf -> Prop :=
| step_accept h seq syn fin ts data h' out :
    call_ok h seq syn data max_ooo max_segments ->
    truthful S h seq syn data -> reemits h seq syn fin data = false ->
    accept h seq syn fin ts data max_ooo max_segments gap_timeout_ns = Some (h', out) ->
    step S h (emitted out) h'
| step_acknowledge h ack ts h' out :
    nextz h <= LIMIT ->
    acknowledge h ack ts gap_timeout_ns = Some (h', out) ->
    step S h (emitted out) h'.

Inductive run (S : Z -> byte) : TcpHalf -> list ReassembledChunk -> TcpHalf -> Prop :=
| run_nil h : run S h [] h
| run_cons h cs h1 cs' h' : step S h cs h1 -> run S h1 cs' h' -> run S h (cs ++ cs') h'.
End Run.

(** Chunks in stream order, without overlap, from offset [o] to [o']. *)
Fixpoint ordered (o : Z) (cs : list ReassembledChunk) (o' : Z) : Prop :=
  match cs with
  | [] => o <= o'
  | c :: cs => o <= chunk_offset c /\ ordered (chunk_offset c + blen (chunk_data c)) cs o'
  end.

(** Every byte of the chunk is the sender's, when offset 0 is number [base]. *)
Definition genuine (S : Z -> byte) (base : Z) (c : ReassembledChunk) : Prop :=
  forall i b, 0 <= i -> chunk_data c !! Z.to_nat i = Some b -> S (base + chunk_offset c + i) = b.

Lemma ordered_weaken o1 o2 cs o' : o1 <= o2 -> ordered o2 cs o' -> ordered o1 cs o'.
Proof. destruct cs; simpl; [lia|]. intros ? []. split; [lia|done]. Qed.

Lemma ordered_app o cs o1 cs' o' : ordered o cs o1 -> ordered o1 cs' o' -> ordered o (cs ++ cs') o'.
Proof.
  revert o; induction cs as [|c cs IH]; simpl; intros o H H'; [by eapply ordered_weaken|].
  destruct H. split; [done|]. by apply IH.
Qed.

Lemma tiles_ordered o evs o' : tiles o evs o' -> ordered o (chunks_of evs) o'.
Proof.
  revert o; induction evs as [|e evs IH]; simpl; intros o H; [by subst|].
  destruct H as (H1 & H2 & H3). apply IH in H3. destruct e as [c|g]; simpl in *.
  - split; [lia|]. by rewrite H1.
  - eapply ordered_weaken; [|done]. lia.
Qed.

(** The half holds only bytes of the sender, [base] apart from the offsets. *)
Definition faithful_to (S : Z -> byte) (base : Z) (h : TcpHalf) : Prop :=
  wf h /\
  (fin_consumed h = false ->
    nextz h = base + stream_offset h /\
    forall p b ts, nextz h <= p -> buf (out_of_order h) p = Some (b, ts) -> S p = b).

Lemma extends_genuine S f n o o' out base :
  extends f n o o' outcome_default out -> n = base + o ->
  (forall p b ts, n <= p -> f p = Some (b, ts) -> S p = b) ->
  ordered o (emitted out) o' /\ Forall (genuine S base) (emitted out).
Proof.
  intros Hx Hn Hf. split.
  - destruct Hx as (evs & -> & _ & T & _). by apply tiles_ordered.
  - apply List.Forall_forall. intros c Hin i b Hi Hb.
    destruct (extends_chunk _ _ _ _ _ _ _ _ Hx Hin Hb Hi) as (Hs & ? & _).
    replace (base + chunk_offset c + i) with (n + (chunk_offset c - o) + i) by lia.
    eapply Hf; [|done]. lia.
Qed.

Lemma considered_start h seq syn fin data h2 start d :
  considered h seq syn fin data = (h2, start, d) ->
  start = extend_seq (wrapping_add 32 seq (b2z syn)) (nextz (observe h seq syn)).
Proof. unfold considered. destruct (clip_to_fin _ _ _ _) as [[[??]?]|]; congruence. Qed.

Lemma accept_faithful S h seq syn fin ts data mo ms gt h' out base :
  inv h -> call_ok h seq syn data mo ms -> truthful S h seq syn data ->
  reemits h seq syn fin data = false ->
  accept h seq syn fin ts data mo ms gt = Some (h', out) ->
  faithful_to S base (observe h seq syn) ->
  faithful_to S base h' /\ ordered (stream_offset h) (emitted out) (stream_offset h') /\
  Forall (genuine S base) (emitted out).
Proof.
  intros Hinv Hok Htr Hre E [Hw1 Hf1].
  destruct (observe_frame h seq syn) as (Em & _ & Eo & Ef & _).
  destruct (fin_consumed h) eqn:Hop.
  { rewrite accept_closed_eq in E by done. injection E as <- <-.
    assert (emitted (if is_empty data then outcome_default else mark_retransmit outcome_default) = []) as ->
      by (by destruct (is_empty data)).
    split; [done|]. simpl. split; [lia|constructor]. }
  pose proof (accept_open_spec h seq syn fin ts data mo ms gt Hinv Hop Hok) as Hspec.
  unfold reemits in Hre.
  destruct (considered h seq syn fin data) as [[h2 start] d] eqn:Econ.
  pose proof (considered_start _ _ _ _ _ _ _ _ Econ) as Hstart.
  destruct Hspec as (Em2 & Eo2 & En2 & [dk Hpre] & h1 & out1 & E1 & Hw & _ & Hdel).
  rewrite E in E1. injection E1 as <- <-.
  destruct (Hdel Hre) as (h0 & out0 & Hab & Hd). destruct Hab. destruct (Hf1 Ef) as [Hbase HS].
  assert (forall p b t, nextz h2 <= p -> buf (out_of_order h0) p = Some (b, t) -> S p = b) as HS0.
  { intros p b t Hp. rewrite ab_buf0 by done. unfold first_seen. rewrite Em2.
    destruct (buf (out_of_order h) p) as [[b1 t1]|] eqn:Eb.
    - intros [= -> ->]. apply (HS p b t); [congruence|]. by rewrite Em.
    - destruct ((start <=? p) && (p <? start + blen d)) eqn:Er; [|done]. reflect_bools.
      destruct (d !! Z.to_nat (p - start)) as [b2|] eqn:Ed; simpl; [|done]. intros [= -> ->].
      replace p with (start + (p - start)) by lia. rewrite Hstart.
      apply Htr; [lia|]. rewrite <- Hstart. subst data. by apply lookup_app_l_Some. }
  pose proof (dl_ext _ _ Hd ab_open0) as Hx. simpl in Hx. rewrite ab_next0, ab_off0 in Hx.
  assert (extends (buf (out_of_order h0)) (nextz h2) (stream_offset h) (stream_offset h') outcome_default out) as Hx'.
  { destruct Hx as (evs & X1 & X2 & X3 & X4). exists evs. rewrite X1, X2, ab_emitted0, ab_gaps0, <- Eo2. done. }
  rewrite Eo, <- En2 in Hbase.
  destruct (extends_genuine S _ _ _ _ _ base Hx' Hbase HS0) as [Hord Hgen].
  split; [|done]. split; [done|]. intros Hop'.
  pose proof (dl_next _ _ Hd Hop') as Hn. pose proof (dl_mono _ _ Hd) as Hmono. simpl in Hn, Hmono.
  rewrite ab_next0, ab_off0 in Hn. rewrite ab_off0 in Hmono. split; [lia|].
  intros p b t Hp Hb. pose proof (dl_buf _ _ Hd Hop' p Hp) as Hb'. simpl in Hb'. rewrite Hb' in Hb.
  eapply HS0; [|done]. lia.
Qed.

Lemma acknowledge_faithful S h ack ts gt h' out base :
  nextz h <= LIMIT -> acknowledge h ack ts gt = Some (h', out) -> faithful_to S base h ->
  faithful_to S base h' /\ ordered (stream_offset h) (emitted out) (stream_offset h') /\
  Forall (genuine S base) (emitted out).
Proof.
  intros Hlim E [Hw Hf].
  destruct (acknowledge_spec h ack ts gt Hw Hlim) as (h1 & out1 & E1 & Hw' & Hmono & Hx & Hb & Hn & Hc).
  rewrite E in E1. injection E1 as <- <-.
  destruct (fin_consumed h) eqn:Hop.
  { destruct (Hc eq_refl) as [Hc' ->]. simpl. split; [|split; [lia|constructor]].
    split; [done|congruence]. }
  destruct (Hf eq_refl) as [Hbase HS].
  destruct (extends_genuine S _ _ _ _ _ base (Hx eq_refl) Hbase HS) as [Hord Hgen].
  split; [|done]. split; [done|]. intros Hop'. rewrite (Hn Hop'). split; [lia|].
  intros p b t Hp. rewrite Hb by (done || (rewrite (Hn Hop'); lia)). apply HS. lia.
Qed.

Lemma faithful_observe S base h seq syn :
  u32 seq -> fin_consumed h = false \/ closed h -> inv h ->
  (fresh h /\ base = nextz (observe h seq syn) - stream_offset h) \/ faithful_to S base h ->
  faithful_to S base (observe h seq syn).
Proof.
  intros Hseq Hop Hinv Hor. destruct (observe_frame h seq syn) as (Em & _ & Eo & Ef & En).
  destruct Hop as [Hop|Hcl].
  - destruct (observe_wf h seq syn Hinv Hseq Hop) as [Hw1 Hop1].
    split; [done|]. intros _. rewrite Em, Eo. destruct Hor as [[Hfr ->]|[Hw Hf]].
    + rewrite (fresh_ooo _ Hfr). simpl. split; [lia|done].
    + rewrite En; [by apply Hf|]. destruct Hw as [Hl|Hcl]; [rewrite (live_next _ _ Hl); done|].
      pose proof (closed_fin _ Hcl). congruence.
  - pose proof (observe_closed h seq syn Hcl) as Hc1. split; [by right|].
    pose proof (closed_fin _ Hc1). congruence.
Qed.

Lemma run_faithful mo ms gt S h cs h' :
  run mo ms gt S h cs h' ->
  (fresh h -> exists base, ordered (stream_offset h) cs (stream_offset h') /\ Forall (genuine S base) cs) /\
  (forall base, faithful_to S base h ->
     ordered (stream_offset h) cs (stream_offset h') /\ Forall (genuine S base) cs).
Proof.
  induction 1 as [h|h cs h1 cs' h' Hstep Hrun [IHf IHb]].
  { split; [intros _; exists 0|intros base _]; (split; [simpl; lia|constructor]). }
  assert (forall base, faithful_to S base h1 /\ ordered (stream_offset h) cs (stream_offset h1) /\
      Forall (genuine S base) cs ->
    ordered (stream_offset h) (cs ++ cs') (stream_offset h') /\ Forall (genuine S base) (cs ++ cs')) as Hgo.
  { intros base (Hf1 & Ho & Hg). destruct (IHb base Hf1) as [Ho' Hg'].
    split; [by eapply ordered_app|]. by apply Forall_app. }
  destruct Hstep as [h seq syn fin ts data h1 out Hok Htr Hre E|h ack ts h1 out Hlim E].
  - split.
    + intros Hfr. exists (nextz (observe h seq syn) - stream_offset h). apply Hgo.
      eapply accept_faithful; [by left|done..|].
      apply faithful_observe; [apply Hok|left; apply Hfr|by left|by left].
    + intros base Hf. apply Hgo. destruct Hf as [Hw Hf].
      eapply accept_faithful; [by right|done..|].
      apply faithful_observe; [apply Hok| |by right|by right].
      destruct Hw as [Hl|?]; [left; apply Hl|by right].
  - split.
    + intros Hfr. rewrite acknowledge_fresh in E by done. injection E as <- <-. simpl. by apply IHf.
    + intros base Hf. apply Hgo. by eapply acknowledge_faithful.
Qed.

