(* ===== verification/ReassemblyExamples.v ===== *)
(** * The reassembler on concrete segments

    The theorems of [ReassemblySpec.v] applied to small streams, and concrete
    runs of [accept], [acknowledge] and [finalize] evaluated by the kernel. *)

From S2P Require Import Prelude BTree Reassembly ReassemblyFacts ReassemblySpec.

(** "efgh", the bytes [example_half] waits for. *)
Definition efgh : bytes := [x65; x66; x67; x68].

Lemma example_call : call_ok example_half 104 false efgh 1024 16.
Proof. split; unfold u32, nextz, LIMIT, blen; simpl; lia. Qed.


Lemma accept_total_witness :
  exists h' out, accept example_half 104 false true 7 efgh 1024 16 1000 = Some (h', out) /\ wf h'.
Proof. apply accept_total; [apply example_half_inv|apply example_call]. Defined.

(** The bridging segment empties the buffer, within the limits. *)
Definition bridged : option (TcpHalf * ReassemblyOutcome) :=
  Eval vm_compute in accept example_half 104 false false 7 efgh 1024 16 1000.

Lemma accept_within_limits_witness : exists h' out, bridged = Some (h', out) /\
  (within 1024 16 h' \/ tentative_at_fin h').
Proof.
  eexists _, _. split; [reflexivity|].
  eapply (accept_within_limits example_half 104 false false 7 efgh 1024 16 1000).
  - apply example_half_inv.
  - apply example_call.
  - split; vm_compute; discriminate.
  - vm_compute; reflexivity.
Defined.

Lemma acknowledge_delivers_witness :
  exists h' out, acknowledge example_half 112 7 1000 = Some (h', out) /\ wf h' /\
    stream_offset example_half <= stream_offset h' /\
    (fin_consumed example_half = false ->
      extends (buf (out_of_order example_half)) (nextz example_half)
        (stream_offset example_half) (stream_offset h') outcome_default out) /\
    (fin_consumed h' = false -> forall p, nextz h' <= p ->
      buf (out_of_order h') p = buf (out_of_order example_half) p).
Proof.
  apply acknowledge_delivers; [left; apply example_half_live|vm_compute; discriminate].
Defined.

Lemma finalize_drains_witness :
  exists h' out, finalize example_half = Some (h', out) /\
    (fin_consumed example_half = false ->
      extends (buf (out_of_order example_half)) (nextz example_half)
        (stream_offset example_half) (stream_offset h') outcome_default out) /\
    (pending_fin example_half = None ->
      out_of_order h' = [] /\
      forall p x, buf (out_of_order example_half) p = Some x -> nextz example_half <= p ->
        fin_consumed example_half = true \/
        p < nextz example_half + (stream_offset h' - stream_offset example_half)).
Proof. apply finalize_drains. left. apply example_half_live. Defined.

Lemma timeout_makes_progress_witness :
  exists h' out', recover_ooo_timeout 1000 2000 (example_half, outcome_default) = Some (h', out') /\
    delivers (example_half, outcome_default) (h', out') /\ 2 ^ 32 + 108 + 4 <= nextz h'.
Proof.
  apply (timeout_makes_progress example_half outcome_default 1000 2000 (2 ^ 32 + 108)
           {| seg_data := [x69; x6a; x6b; x6c]; seg_ts_ns := 2 |} [] 2);
    [apply example_half_live|reflexivity|reflexivity|reflexivity|lia|lia].
Defined.

Lemma extend_seq_recovers_witness : extend_seq (wrap 32 (2 ^ 33 + 5)) (2 ^ 33 - 10) = 2 ^ 33 + 5.
Proof. apply extend_seq_recovers; unfold HI; lia. Defined.

(** A half whose FIN was consumed at sequence number 112. *)
Definition finished_half : TcpHalf :=
  {| next_abs := Some (2 ^ 32 + 113); stream_offset := 12; out_of_order := [];
     out_of_order_bytes := 0; pending_fin := Some (2 ^ 32 + 112);
     pending_fin_requires_ack := false; fin_consumed := true; initial_syn_seq := None;
     peer_ack_abs := None; gap_started_ts_ns := None |}.

Lemma accept_after_fin_is_silent_witness :
  emitted (mark_retransmit outcome_default) = [] /\ gaps (mark_retransmit outcome_default) = [] /\
  stream_offset finished_half = stream_offset finished_half /\
  out_of_order finished_half = out_of_order finished_half /\ fin_consumed finished_half = true.
Proof.
  apply (accept_after_fin_is_silent finished_half 104 false false 9 efgh 1024 16 1000);
    [reflexivity|vm_compute; reflexivity].
Defined.

(** Four bytes delivered, the next expected number is 104. *)
Definition quiet_half : TcpHalf :=
  {| next_abs := Some (2 ^ 32 + 104); stream_offset := 4; out_of_order := [];
     out_of_order_bytes := 0; pending_fin := None; pending_fin_requires_ack := false;
     fin_consumed := false; initial_syn_seq := None; peer_ack_abs := None;
     gap_started_ts_ns := None |}.

Lemma quiet_half_live : live (nextz quiet_half + 1) quiet_half.
Proof. split; unfold nextz, blen, HI; simpl; try done; lia. Qed.

Lemma full_retransmission_reemitted_witness :
  exists h', accept quiet_half 100 false false 9 efgh 1024 16 1000 =
      Some (h', {| emitted := [{| chunk_offset := 4; chunk_ts_ns := 9; chunk_data := efgh |}];
                   gaps := []; retransmit := true; saw_out_of_order := false;
                   out_fin_consumed := false |}) /\
    nextz h' = nextz quiet_half + blen efgh /\
    stream_offset h' = stream_offset quiet_half + blen efgh.
Proof.
  apply (full_retransmission_reemitted quiet_half 100 9 efgh 1024 16 1000);
    [left; apply quiet_half_live|reflexivity..|discriminate| |vm_compute; discriminate].
  split; unfold u32, nextz, LIMIT, blen; simpl; lia.
Defined.

(** A FIN seen ahead of the stream at 106 and bytes buffered from 108. *)
Definition tentative_half : TcpHalf :=
  set_pending_fin example_half (Some (2 ^ 32 + 106)) true.

Lemma tentative_half_live : live (nextz tentative_half + 1) tentative_half.
Proof. split; unfold nextz, blen, HI; simpl; try done; try lia. intros f [= <-]. lia. Qed.

Lemma tentative_fin_blocks_drain_witness :
  exists h' out, finalize tentative_half = Some (h', out) /\ emitted out = [] /\
    out_of_order h' = out_of_order tentative_half.
Proof.
  eapply (tentative_fin_blocks_drain tentative_half (2 ^ 32 + 106));
    [apply tentative_half_live|reflexivity|reflexivity|reflexivity|reflexivity|].
  unfold nextz; simpl; lia.
Defined.

(** The sender's stream of the next run: byte [i] is the low byte of [i]. *)
Definition counting (p : Z) : byte := byte_of p.

Definition counting_data (from : Z) (n : nat) : bytes :=
  map (fun i => counting (from + Z.of_nat i)) (seq 0 n).

Lemma counting_data_truthful h sq syn from n :
  from = extend_seq (wrapping_add 32 sq (b2z syn)) (nextz (observe h sq syn)) ->
  truthful counting h sq syn (counting_data from n).
Proof.
  intros -> i b Hi. unfold counting_data. rewrite list_lookup_fmap.
  destruct (seq 0 n !! Z.to_nat i) as [k|] eqn:E; simpl; [|done].
  apply lookup_seq in E as [-> _]. intros [= <-]. f_equal. lia.
Qed.

(** SYN at 100, the segment 105..108, then the bridging 101..104. *)
Definition after (h : TcpHalf) (sq : Z) (syn : bool) (from : Z) (n : nat) : TcpHalf :=
  match accept h sq syn false 1 (counting_data from n) 1024 16 1000 with
  | Some (h', _) => h'
  | None => h
  end.

Definition sent (h : TcpHalf) (sq : Z) (syn : bool) (from : Z) (n : nat) : list ReassembledChunk :=
  match accept h sq syn false 1 (counting_data from n) 1024 16 1000 with
  | Some (_, out) => emitted out
  | None => []
  end.

Definition run1 : TcpHalf := Eval vm_compute in after TcpHalf_default 100 true (2 ^ 32 + 101) 0.
Definition run2 : TcpHalf := Eval vm_compute in after run1 105 false (2 ^ 32 + 105) 4.
Definition run3 : TcpHalf := Eval vm_compute in after run2 101 false (2 ^ 32 + 101) 4.
Definition run3_chunks : list ReassembledChunk :=
  Eval vm_compute in sent run2 101 false (2 ^ 32 + 101) 4.

Lemma run_step h sq syn from n h' cs :
  from = extend_seq (wrapping_add 32 sq (b2z syn)) (nextz (observe h sq syn)) ->
  u32 sq -> Z.of_nat n < 2 ^ 32 -> nextz (observe h sq syn) <= LIMIT ->
  reemits h sq syn false (counting_data from n) = false ->
  (exists out, accept h sq syn false 1 (counting_data from n) 1024 16 1000 = Some (h', out) /\
     emitted out = cs) ->
  step 1024 16 1000 counting h cs h'.
Proof.
  intros Hfrom Hs Hn Hlim Hre (out & E & <-).
  apply (step_accept _ _ _ _ h sq syn false 1 (counting_data from n)); [|by apply counting_data_truthful|done..].
  split; try done; try lia. unfold blen, counting_data. by rewrite length_map, length_seq.
Qed.

Lemma example_run : run 1024 16 1000 counting TcpHalf_default ([] ++ [] ++ run3_chunks ++ []) run3.
Proof.
  assert (forall z, z <=? LIMIT = true -> z <= LIMIT) as Hl by (intros z; apply Z.leb_le).
  apply run_cons with run1.
  { apply (run_step _ 100 true (2 ^ 32 + 101) 0); unfold u32; try lia; [reflexivity|by apply Hl|reflexivity|].
    by eexists. }
  apply run_cons with run2.
  { apply (run_step _ 105 false (2 ^ 32 + 105) 4); unfold u32; try lia; [reflexivity|by apply Hl|reflexivity|].
    by eexists. }
  apply run_cons with run3; [|constructor].
  apply (run_step _ 101 false (2 ^ 32 + 101) 4); unfold u32; try lia; [reflexivity|by apply Hl|reflexivity|].
  by eexists.
Qed.


(** Twenty bytes buffered at 110; then the in-order segment 100..114 whose FIN
    sits at 115.  The buffered bytes past the FIN are emitted all the same. *)
Definition past_fin_half : TcpHalf :=
  {| next_abs := Some (2 ^ 32 + 100); stream_offset := 0;
     out_of_order := [(2 ^ 32 + 110, {| seg_data := counting_data 110 20; seg_ts_ns := 2 |})];
     out_of_order_bytes := 20; pending_fin := None; pending_fin_requires_ack := false;
     fin_consumed := false; initial_syn_seq := None; peer_ack_abs := None;
     gap_started_ts_ns := Some 2 |}.

Example buffered_bytes_pass_the_fin :
  match accept past_fin_half 100 false true 3 (counting_data 100 15) 1024 16 1000 with
  | Some (h', out) =>
      pending_fin h' = Some (2 ^ 32 + 115) /\ fin_consumed h' = true /\
      map chunk_offset (emitted out) = [0; 10] /\
      map chunk_data (emitted out) = [counting_data 100 10; counting_data 110 20]
  | None => False
  end.
Proof. vm_compute. repeat split. Qed.
