(* ===== verification/Model.v ===== *)
(** * The data model ([src/src/model.rs])

    Directions, endpoints and their order, flow keys with their canonical form
    and shard hash, parsed packets, stream and content records, patterns and
    matches.  An IP address keeps its octets as a byte list, as [IpAddr::octets]
    gives them; a [String] is its bytes; identifiers ([Uuid]) are numbers and
    times are nanoseconds. *)

From stdpp Require Import strings.
From S2P Require Import Prelude.

(** ** Data *)

Abbreviation FlowId := Z (only parsing).
Abbreviation ContentId := Z (only parsing).

Record ServiceConfig := {
  sc_port : Z;
  sc_name : bytes;
  sc_http : bool;
  sc_urldecode_http_requests : bool;
  sc_merge_adjacent_packets : bool;
  sc_parse_websockets : bool
}.

Inductive TransportProtocol := Tcp | Udp.

Inductive Direction := AToB | BToA.

Definition opposite (d : Direction) : Direction :=
  match d with AToB => BToA | BToA => AToB end.

(** [IpAddr]: four or sixteen octets. *)
Inductive IpAddr := V4 (octets : bytes) | V6 (octets : bytes).

Record Endpoint := { ep_ip : IpAddr; ep_port : Z }.

Record FlowKey := {
  fk_a : Endpoint;
  fk_b : Endpoint;
  fk_protocol : TransportProtocol;
  fk_l2_domain : Z
}.

Record TcpFlags := { fin : bool; syn : bool; rst : bool; psh : bool; ack_flag : bool }.

Definition TcpFlags_default : TcpFlags :=
  {| fin := false; syn := false; rst := false; psh := false; ack_flag := false |}.

Record ParsedPacket := {
  p_ts_ns : Z;
  p_key : FlowKey;
  p_direction : Direction;
  p_seq : option Z;
  p_ack : option Z;
  p_flags : TcpFlags;
  p_payload : bytes;
  p_wire_len : Z
}.

Inductive ContentView :=
  | TcpRaw
  | HttpRequestHeaders
  | HttpRequestBody
  | HttpRequestDecodedBody
  | HttpResponseHeaders
  | HttpResponseBody
  | HttpResponseDecodedBody.

Definition as_str (v : ContentView) : string :=
  match v with
  | TcpRaw => "tcp_raw"
  | HttpRequestHeaders => "http_request_headers"
  | HttpRequestBody => "http_request_body"
  | HttpRequestDecodedBody => "http_request_decoded_body"
  | HttpResponseHeaders => "http_response_headers"
  | HttpResponseBody => "http_response_body"
  | HttpResponseDecodedBody => "http_response_decoded_body"
  end.

Record StreamChunk := {
  ch_flow_id : FlowId;
  ch_ts_ns : Z;
  ch_direction : Direction;
  ch_key : FlowKey;
  ch_offset : Z;
  ch_data : bytes;
  ch_truncated : bool
}.

Record ContentRecord := {
  cr_id : ContentId;
  cr_flow_id : FlowId;
  cr_ts_ns : Z;
  cr_service : option bytes;
  cr_direction : Direction;
  cr_view : ContentView;
  cr_stream_offset : Z;
  cr_data : bytes
}.

Record ContentIndexRecord := {
  ci_content_id : ContentId;
  ci_flow_id : FlowId;
  ci_ts_ns : Z;
  ci_service : option bytes;
  ci_direction : Direction;
  ci_view : ContentView;
  ci_stream_offset : Z;
  ci_payload_len : Z;
  ci_segment_path : string;
  ci_segment_offset : Z
}.

(** A flow as queries see it; the addresses are kept as values, their text form
    ([IpAddr::to_string]) is not modelled. *)
Record FlowSummary := {
  sm_flow_id : FlowId;
  sm_started_at : Z;
  sm_ended_at : Z;
  sm_src_ip : IpAddr;
  sm_dst_ip : IpAddr;
  sm_src_port : Z;
  sm_dst_port : Z;
  sm_protocol : TransportProtocol;
  sm_service : option bytes;
  sm_packets_c2s : Z;
  sm_packets_s2c : Z;
  sm_bytes_c2s : Z;
  sm_bytes_s2c : Z;
  sm_truncated : bool
}.

Record HttpRecord := {
  hr_id : Z;
  hr_flow_id : FlowId;
  hr_timestamp : Z;
  hr_request : bool;
  hr_method : option bytes;
  hr_host : option bytes;
  hr_path : option bytes;
  hr_status : option Z;
  hr_user_agent : option bytes;
  hr_content_type : option bytes;
  hr_body_content_id : option ContentId
}.

Inductive FlowOutput :=
  | Chunk (c : StreamChunk)
  | Snapshot (s : FlowSummary)
  | Closed (s : FlowSummary).

Inductive PatternKind := Text | Binary | Regex.
Inductive PatternAction := Find | Ignore.
Inductive PatternDirection := Both | Input | Output.

Definition PatternDirection_default : PatternDirection := Both.

Record PatternRevision := {
  pr_id : Z;
  pr_revision : Z;
  pr_expression : bytes;
  pr_kind : PatternKind;
  pr_action : PatternAction;
  pr_direction_type : PatternDirection;
  pr_service : option bytes;
  pr_view : option ContentView;
  pr_enabled : bool
}.

Record MatchRecord := {
  mr_timestamp : Z;
  mr_pattern_id : Z;
  mr_pattern_revision : Z;
  mr_flow_id : FlowId;
  mr_content_id : ContentId;
  mr_view : ContentView;
  mr_action : PatternAction;
  mr_offset_start : Z;
  mr_offset_end : Z;
  mr_historical : bool
}.

(** ** Decidable equality and countability *)

#[export] Instance byte_countable : Countable byte :=
  inj_countable Byte.to_N Byte.of_N Byte.of_to_N.

#[export] Instance TransportProtocol_eq_dec : EqDecision TransportProtocol.
Proof. solve_decision. Defined.

#[export] Instance TransportProtocol_countable : Countable TransportProtocol :=
  inj_countable' (fun p => match p with Tcp => true | Udp => false end)
    (fun b : bool => if b then Tcp else Udp) ltac:(by intros []).

#[export] Instance Direction_eq_dec : EqDecision Direction.
Proof. solve_decision. Defined.

#[export] Instance Direction_countable : Countable Direction :=
  inj_countable' (fun d => match d with AToB => true | BToA => false end)
    (fun b : bool => if b then AToB else BToA) ltac:(by intros []).

#[export] Instance IpAddr_eq_dec : EqDecision IpAddr.
Proof. solve_decision. Defined.

#[export] Instance IpAddr_countable : Countable IpAddr :=
  inj_countable' (fun a => match a with V4 o => inl o | V6 o => inr o end)
    (fun s => match s with inl o => V4 o | inr o => V6 o end) ltac:(by intros []).

#[export] Instance Endpoint_eq_dec : EqDecision Endpoint.
Proof. solve_decision. Defined.

#[export] Instance Endpoint_countable : Countable Endpoint :=
  inj_countable' (fun e => (ep_ip e, ep_port e))
    (fun '(i, p) => {| ep_ip := i; ep_port := p |}) ltac:(by intros []).

#[export] Instance FlowKey_eq_dec : EqDecision FlowKey.
Proof. solve_decision. Defined.

#[export] Instance FlowKey_countable : Countable FlowKey :=
  inj_countable' (fun k => (fk_a k, fk_b k, fk_protocol k, fk_l2_domain k))
    (fun '(a, b, p, d) => {| fk_a := a; fk_b := b; fk_protocol := p; fk_l2_domain := d |})
    ltac:(by intros []).

#[export] Instance ContentView_eq_dec : EqDecision ContentView.
Proof. solve_decision. Defined.

#[export] Instance PatternAction_eq_dec : EqDecision PatternAction.
Proof. solve_decision. Defined.

(** ** Endpoint order *)

Fixpoint lex_compare (x y : bytes) : comparison :=
  match x, y with
  | [], [] => Eq
  | [], _ :: _ => Lt
  | _ :: _, [] => Gt
  | a :: x, b :: y =>
      match byte_val a ?= byte_val b with Eq => lex_compare x y | c => c end
  end.

Definition endpoint_sort_key (e : Endpoint) : Z * bytes * Z :=
  match ep_ip e with
  | V4 octets => (4, repeat x00 12 ++ octets, ep_port e)
  | V6 octets => (6, octets, ep_port e)
  end.

(** Comparison of the key's components in order ([Ord] of tuples). *)
Definition endpoint_cmp (e1 e2 : Endpoint) : comparison :=
  let '(v1, b1, p1) := endpoint_sort_key e1 in
  let '(v2, b2, p2) := endpoint_sort_key e2 in
  match v1 ?= v2 with
  | Eq => match lex_compare b1 b2 with Eq => p1 ?= p2 | c => c end
  | c => c
  end.

Definition endpoint_le (e1 e2 : Endpoint) : bool :=
  match endpoint_cmp e1 e2 with Gt => false | _ => true end.

(** The derived order of [IpAddr]: version 4 before version 6, then octets. *)
Definition ip_le (x y : IpAddr) : bool :=
  match x, y with
  | V4 a, V4 b | V6 a, V6 b => match lex_compare a b with Gt => false | _ => true end
  | V4 _, V6 _ => true
  | V6 _, V4 _ => false
  end.

(** ** Canonical flow keys *)

Definition canonical_with_domain (src_ip : IpAddr) (src_port : Z) (dst_ip : IpAddr) (dst_port : Z)
  (protocol : TransportProtocol) (l2_domain : Z) : FlowKey * Direction :=
  let src := {| ep_ip := src_ip; ep_port := src_port |} in
  let dst := {| ep_ip := dst_ip; ep_port := dst_port |} in
  if endpoint_le src dst
  then ({| fk_a := src; fk_b := dst; fk_protocol := protocol; fk_l2_domain := l2_domain |}, AToB)
  else ({| fk_a := dst; fk_b := src; fk_protocol := protocol; fk_l2_domain := l2_domain |}, BToA).

Definition canonical (src_ip : IpAddr) (src_port : Z) (dst_ip : IpAddr) (dst_port : Z)
  (protocol : TransportProtocol) : FlowKey * Direction :=
  canonical_with_domain src_ip src_port dst_ip dst_port protocol 0.

Definition source_endpoint (p : ParsedPacket) : Endpoint :=
  match p_direction p with AToB => fk_a (p_key p) | BToA => fk_b (p_key p) end.

Definition destination_endpoint (p : ParsedPacket) : Endpoint :=
  match p_direction p with AToB => fk_b (p_key p) | BToA => fk_a (p_key p) end.

(** ** The shard hash *)

(** [from_be_bytes] of 16, 32 and 64 bits. *)
Definition from_be_bytes (b : bytes) : Z :=
  fold_left (fun acc x => Z.lor (Z.shiftl acc 8) (byte_val x)) b 0.

(** SplitMix64's finalizer on 64-bit words. *)
Definition finalize64 (z : Z) : Z :=
  let z := wrapping_mul 64 (Z.lxor z (Z.shiftr z 30)) 0xbf58476d1ce4e5b9 in
  let z := wrapping_mul 64 (Z.lxor z (Z.shiftr z 27)) 0x94d049bb133111eb in
  Z.lxor z (Z.shiftr z 31).

Definition mix (state word : Z) : Z :=
  finalize64 (wrapping_add 64 (wrapping_add 64 word state) 0x9e3779b97f4a7c15).

Definition mix_endpoint (state : Z) (ep : Endpoint) : Z :=
  let state :=
    match ep_ip ep with
    | V4 o => mix state (from_be_bytes o)
    | V6 o => mix (mix state (from_be_bytes (take 8 o))) (from_be_bytes (drop 8 o))
    end in
  mix state (ep_port ep).

Definition shard_hash64 (key : FlowKey) (seed : Z) : Z :=
  let protocol_word := match fk_protocol key with Tcp => 6 | Udp => 17 end in
  let state := mix seed protocol_word in
  let state := if fk_l2_domain key =? 0 then state else mix state (fk_l2_domain key) in
  let state := mix_endpoint state (fk_a key) in
  mix_endpoint state (fk_b key).

(** ** Facts *)

Lemma opposite_involutive d : opposite (opposite d) = d.
Proof. by destruct d. Qed.

Lemma byte_val_inj a b : byte_val a = byte_val b -> a = b.
Proof. intros H. rewrite <- (byte_of_val a), <- (byte_of_val b). by rewrite H. Qed.

Lemma lex_compare_eq x y : lex_compare x y = Eq <-> x = y.
Proof.
  revert y; induction x as [|a x IH]; intros [|b y]; simpl; try (split; congruence).
  destruct (byte_val a ?= byte_val b) eqn:E.
  - apply Z.compare_eq, byte_val_inj in E as ->. rewrite IH. split; congruence.
  - split; [done|]. intros [= -> ->]. by rewrite Z.compare_refl in E.
  - split; [done|]. intros [= -> ->]. by rewrite Z.compare_refl in E.
Qed.

Lemma lex_compare_antisym x y : lex_compare y x = CompOpp (lex_compare x y).
Proof.
  revert y; induction x as [|a x IH]; intros [|b y]; simpl; try done.
  rewrite (Z.compare_antisym (byte_val a) (byte_val b)).
  destruct (byte_val a ?= byte_val b); simpl; [apply IH|done|done].
Qed.

Lemma lex_compare_trans x y z : lex_compare x y <> Gt -> lex_compare y z <> Gt -> lex_compare x z <> Gt.
Proof.
  revert y z; induction x as [|a x IH]; intros [|b y] [|c z]; simpl; try done.
  destruct (Z.compare_spec (byte_val a) (byte_val b)) as [E1|E1|E1]; [|intros _|done];
    destruct (Z.compare_spec (byte_val b) (byte_val c)) as [E2|E2|E2]; try done;
    destruct (Z.compare_spec (byte_val a) (byte_val c)) as [E3|E3|E3]; try done; try lia.
  apply IH.
Qed.

Lemma lex_compare_app p x y : lex_compare (p ++ x) (p ++ y) = lex_compare x y.
Proof. induction p as [|a p IH]; simpl; [done|]. by rewrite Z.compare_refl. Qed.

Lemma endpoint_cmp_eq e1 e2 : endpoint_cmp e1 e2 = Eq <-> e1 = e2.
Proof.
  split; [|intros ->].
  - unfold endpoint_cmp. destruct e1 as [[a|a] p], e2 as [[b|b] q]; simpl; try done;
      rewrite ?lex_compare_app; destruct (lex_compare a b) eqn:E; try done;
      apply lex_compare_eq in E; intros Hp%Z.compare_eq; by subst.
  - unfold endpoint_cmp. destruct e2 as [[b|b] q]; simpl;
      rewrite (proj2 (lex_compare_eq _ _)), ?Z.compare_refl; done.
Qed.

Lemma endpoint_cmp_antisym e1 e2 : endpoint_cmp e2 e1 = CompOpp (endpoint_cmp e1 e2).
Proof.
  unfold endpoint_cmp.
  destruct (endpoint_sort_key e1) as [[v1 b1] p1], (endpoint_sort_key e2) as [[v2 b2] p2].
  rewrite (Z.compare_antisym v1 v2), (lex_compare_antisym b1 b2), (Z.compare_antisym p1 p2).
  destruct (v1 ?= v2), (lex_compare b1 b2), (p1 ?= p2); done.
Qed.

Lemma endpoint_le_total e1 e2 : endpoint_le e1 e2 || endpoint_le e2 e1 = true.
Proof. unfold endpoint_le. rewrite (endpoint_cmp_antisym e1 e2). by destruct (endpoint_cmp e1 e2). Qed.

Lemma endpoint_le_antisym e1 e2 : endpoint_le e1 e2 = true -> endpoint_le e2 e1 = true -> e1 = e2.
Proof.
  unfold endpoint_le. rewrite (endpoint_cmp_antisym e1 e2).
  destruct (endpoint_cmp e1 e2) eqn:E; simpl; try done. intros _ _. by apply endpoint_cmp_eq.
Qed.

Lemma ip_le_total x y : ip_le x y || ip_le y x = true.
Proof.
  destruct x as [a|a], y as [b|b]; simpl; try done;
    rewrite (lex_compare_antisym a b); by destruct (lex_compare a b).
Qed.

Lemma ip_le_antisym x y : ip_le x y = true -> ip_le y x = true -> x = y.
Proof.
  destruct x as [a|a], y as [b|b]; simpl; try done;
    rewrite (lex_compare_antisym a b); destruct (lex_compare a b) eqn:E; simpl; try done;
    apply lex_compare_eq in E; by subst.
Qed.

(** The 64-bit words stay 64-bit words. *)
Definition is_u64 (x : Z) : Prop := 0 <= x < 2 ^ 64.

Lemma wrap_u64 x : is_u64 (wrap 64 x).
Proof. apply Z.mod_pos_bound. lia. Qed.

Lemma u64_shiftr x n : 0 <= n -> is_u64 x -> is_u64 (Z.shiftr x n).
Proof.
  intros Hn [H1 H2]. split; [by apply Z.shiftr_nonneg|].
  rewrite Z.shiftr_div_pow2 by done. assert (0 < 2 ^ n) by (by apply Z.pow_pos_nonneg).
  apply Z.div_lt_upper_bound; nia.
Qed.

Lemma log2_u64 x : 0 <= x -> x < 2 ^ 64 <-> (x = 0 \/ Z.log2 x < 64).
Proof.
  intros Hx. destruct (decide (x = 0)) as [->|Hn]; [split; [by left|lia]|].
  rewrite (Z.log2_lt_pow2 x 64) by lia. split; [by right|by intros [?|?]].
Qed.

Lemma u64_log2 x : is_u64 x -> Z.log2 x < 64.
Proof.
  intros [H1 H2]. destruct (proj1 (log2_u64 x H1) H2) as [->|]; [by vm_compute|done].
Qed.

Lemma u64_of_log2 x : 0 <= x -> Z.log2 x < 64 -> is_u64 x.
Proof. intros H1 H2. split; [done|]. apply log2_u64; auto. Qed.

Lemma u64_lxor x y : is_u64 x -> is_u64 y -> is_u64 (Z.lxor x y).
Proof.
  intros Hx Hy. pose proof (u64_log2 x Hx). pose proof (u64_log2 y Hy).
  destruct Hx as [Hx _], Hy as [Hy _]. apply u64_of_log2; [apply Z.lxor_nonneg; lia|].
  pose proof (Z.log2_lxor x y Hx Hy). lia.
Qed.

Lemma u64_lor x y : is_u64 x -> is_u64 y -> is_u64 (Z.lor x y).
Proof.
  intros Hx Hy. pose proof (u64_log2 x Hx). pose proof (u64_log2 y Hy).
  destruct Hx as [Hx _], Hy as [Hy _]. apply u64_of_log2; [apply Z.lor_nonneg; lia|].
  rewrite Z.log2_lor by done. lia.
Qed.

Lemma finalize64_u64 z : is_u64 (finalize64 z).
Proof.
  unfold finalize64. apply u64_lxor; [apply wrap_u64|]. apply u64_shiftr; [lia|apply wrap_u64].
Qed.

Lemma mix_u64 s w : is_u64 (mix s w).
Proof. apply finalize64_u64. Qed.

#[export] Hint Resolve wrap_u64 u64_lxor u64_lor finalize64_u64 mix_u64 : bazalt.

Lemma shift_byte a x : Z.lor (Z.shiftl a 8) (byte_val x) = a * 256 + byte_val x.
Proof.
  pose proof (byte_val_range x). rewrite Z.shiftl_mul_pow2 by lia.
  pose proof (Z.add_lor_land (a * 2 ^ 8) (byte_val x)).
  assert (Z.land (a * 2 ^ 8) (byte_val x) = 0); [|lia].
  apply Z.bits_inj'. intros n Hn. rewrite Z.land_spec, Z.bits_0.
  destruct (Z.lt_ge_cases n 8); [rewrite Z.mul_pow2_bits_low by lia; done|].
  rewrite (Z.testbit_eqb (byte_val x) n) by lia.
  rewrite Z.div_small; [apply andb_false_r|].
  assert (2 ^ 8 <= 2 ^ n) by (apply Z.pow_le_mono_r; lia). lia.
Qed.

Lemma from_be_bytes_snoc b x : from_be_bytes (b ++ [x]) = from_be_bytes b * 256 + byte_val x.
Proof. unfold from_be_bytes. rewrite fold_left_app. apply shift_byte. Qed.

Lemma from_be_bytes_range b : 0 <= from_be_bytes b < 256 ^ blen b.
Proof.
  induction b as [|x b IH] using rev_ind; [by vm_compute|].
  rewrite from_be_bytes_snoc. pose proof (byte_val_range x).
  rewrite blen_app. replace (blen [x]) with 1 by done.
  rewrite Z.pow_add_r by (pose proof (blen_nonneg b); lia). lia.
Qed.

(** ** Properties *)

(** Both directions of a conversation share one flow key: swapping source and
    destination gives the same key and the opposite direction (the same one
    when the two endpoints are equal). *)
Theorem canonical_symmetric sip sp dip dp proto dom :
  let '(k, d) := canonical_with_domain sip sp dip dp proto dom in
  canonical_with_domain dip dp sip sp proto dom =
    (k, if decide (sip = dip /\ sp = dp) then d else opposite d).
Proof.
  unfold canonical_with_domain. set (e1 := {| ep_ip := sip; ep_port := sp |}).
  set (e2 := {| ep_ip := dip; ep_port := dp |}).
  pose proof (endpoint_le_total e1 e2) as Ht. pose proof (endpoint_le_antisym e1 e2) as Ha.
  assert (e1 = e2 <-> sip = dip /\ sp = dp) as He.
  { unfold e1, e2. split; [by intros [= -> ->]|by intros [-> ->]]. }
  destruct (endpoint_le e1 e2) eqn:E1, (endpoint_le e2 e1) eqn:E2; try done.
  - rewrite Ha by done. rewrite decide_True; [done|]. by apply He, Ha.
  - rewrite decide_False; [done|]. intros H%He. rewrite <- H in E2. congruence.
  - rewrite decide_False; [done|]. intros H%He. rewrite H in E1. congruence.
Qed.

(** The key and direction lose nothing: a packet built from them gives back
    the source and destination it was made from. *)
Theorem canonical_endpoints sip sp dip dp proto dom p :
  canonical_with_domain sip sp dip dp proto dom = (p_key p, p_direction p) ->
  source_endpoint p = {| ep_ip := sip; ep_port := sp |} /\
  destination_endpoint p = {| ep_ip := dip; ep_port := dp |} /\
  fk_protocol (p_key p) = proto /\ fk_l2_domain (p_key p) = dom.
Proof.
  unfold canonical_with_domain, source_endpoint, destination_endpoint.
  destruct (endpoint_le _ _); intros [= <- <-]; done.
Qed.

Lemma canonical_endpoints_witness :
  let '(k, d) := canonical_with_domain (V4 [x0a; x00; x00; x02]) 40000 (V4 [x0a; x00; x00; x01]) 80 Tcp 7 in
  let p := {| p_ts_ns := 1; p_key := k; p_direction := d; p_seq := None; p_ack := None;
              p_flags := TcpFlags_default; p_payload := []; p_wire_len := 60 |} in
  source_endpoint p = {| ep_ip := V4 [x0a; x00; x00; x02]; ep_port := 40000 |} /\
  destination_endpoint p = {| ep_ip := V4 [x0a; x00; x00; x01]; ep_port := 80 |} /\
  fk_protocol (p_key p) = Tcp /\ fk_l2_domain (p_key p) = 7.
Proof. apply canonical_endpoints. reflexivity. Defined.
