(* ===== verification/Fragment.v ===== *)
(** * The IP fragment cache ([src/src/capture/fragment.rs])

    One shard ([FragmentCache]) with insertion, completion, expiry and eviction,
    and the array of shards ([SharedFragmentCache]).  [Instant] and [Duration]
    are nanosecond counts; the call of [Instant::now] is the argument [now].  The
    hash map of datagrams is a [gmap]; its iteration order, which only breaks
    ties in eviction, is the parameter [iter], and the random hash that picks a
    shard is the parameter [shard_hash]. *)

From stdpp Require Import fin_maps.
From S2P Require Import Prelude BTree Model.

Definition FRAGMENT_SHARDS : Z := 64.
Definition FRAGMENT_DATAGRAM_OVERHEAD : Z := 256.
Definition FRAGMENT_PIECE_OVERHEAD : Z := 64.

Record FragmentKey := {
  version : Z;
  key_l2_domain : Z;
  src : IpAddr;
  dst : IpAddr;
  frag_id : Z;
  next_header : Z
}.

#[export] Instance FragmentKey_eq_dec : EqDecision FragmentKey.
Proof. solve_decision. Defined.

#[export] Instance FragmentKey_countable : Countable FragmentKey :=
  inj_countable' (fun k => (version k, key_l2_domain k, src k, dst k, frag_id k, next_header k))
    (fun '(v, l, s, d, i, n) =>
       {| version := v; key_l2_domain := l; src := s; dst := d; frag_id := i; next_header := n |})
    ltac:(by intros []).

Record FragmentPiece := { piece_data : bytes; piece_more : bool }.

Record FragmentState := {
  pieces : btree FragmentPiece;
  st_bytes : Z;
  total_len : option Z;
  last_seen : Z;
  wire_bytes : Z
}.

Definition FragmentState_new (now : Z) : FragmentState :=
  {| pieces := []; st_bytes := FRAGMENT_DATAGRAM_OVERHEAD; total_len := None;
     last_seen := now; wire_bytes := 0 |}.

Inductive FragmentInsert :=
  | Pending
  | Complete (payload : bytes) (wire : Z)
  | DroppedOverlap
  | DroppedInvalid.

Record FragmentMaintenance := { expired : Z; evicted : Z }.

Definition FragmentMaintenance_default : FragmentMaintenance := {| expired := 0; evicted := 0 |}.

Record FragmentCache := {
  states : gmap FragmentKey FragmentState;
  cache_bytes : Z;
  max_bytes : Z;
  max_datagrams : Z;
  timeout : Z;
  last_cleanup : Z
}.

Definition FragmentCache_new (now max_bytes max_datagrams timeout : Z) : FragmentCache :=
  {| states := ∅; cache_bytes := 0; max_bytes := Z.max max_bytes (64 * 1024);
     max_datagrams := Z.max max_datagrams 1; timeout := timeout; last_cleanup := now |}.

Definition set_states (c : FragmentCache) (m : gmap FragmentKey FragmentState) (n : Z)
  : FragmentCache :=
  {| states := m; cache_bytes := n; max_bytes := max_bytes c; max_datagrams := max_datagrams c;
     timeout := timeout c; last_cleanup := last_cleanup c |}.

Definition set_last_cleanup (c : FragmentCache) (now : Z) : FragmentCache :=
  {| states := states c; cache_bytes := cache_bytes c; max_bytes := max_bytes c;
     max_datagrams := max_datagrams c; timeout := timeout c; last_cleanup := now |}.

Definition remove_key (c : FragmentCache) (key : FragmentKey) : FragmentCache :=
  match states c !! key with
  | Some state => set_states c (delete key (states c)) (sat_sub (cache_bytes c) (st_bytes state))
  | None => c
  end.

(** ** One fragment against its datagram *)

Inductive Reject := Invalid | Overlap.

Inductive PieceResult := Rejected (r : Reject) | Duplicate | Added (len : Z).

Definition set_total (s : FragmentState) (now : Z) (t : option Z) : FragmentState :=
  {| pieces := pieces s; st_bytes := st_bytes s; total_len := t; last_seen := now;
     wire_bytes := wire_bytes s |}.

Definition piece_end (start : Z) (p : FragmentPiece) : Z := sat_add start (blen (piece_data p)).

(** The boundary checks: the final fragment fixes [total_len], which must agree
    with the datagram's pieces and with this fragment. *)
Definition bound_check (s : FragmentState) (now : Z) (more : bool) (end_ : Z)
  : FragmentState * option Reject :=
  let '(s, reject) :=
    if more then (set_total s now (total_len s), None)
    else
      match total_len s with
      | Some existing =>
          if negb (existing =? end_) then (set_total s now (total_len s), Some Invalid)
          else (set_total s now (Some end_), None)
      | None => (set_total s now (Some end_), None)
      end in
  let reject :=
    match reject with
    | None =>
        if negb more && existsb (fun '(start, p) => end_ <? piece_end start p) (pieces s)
        then Some Invalid else None
    | r => r
    end in
  let reject :=
    match reject, total_len s with
    | None, Some total =>
        if (total <? end_) || (more && (total <=? end_)) then Some Invalid else None
    | r, _ => r
    end in
  (s, reject).

Definition overlap_check (s : FragmentState) (offset end_ : Z) : bool :=
  match bt_last_lt offset (pieces s) with
  | Some (prev_start, prev) => offset <? piece_end prev_start prev
  | None => false
  end
  || match bt_first_ge offset (pieces s) with
     | Some (next_start, _) => next_start <? end_
     | None => false
     end.

Definition add_piece (s : FragmentState) (offset : Z) (p : FragmentPiece) (wire_len : Z)
  : FragmentState * Z :=
  let added_len := sat_add (blen (piece_data p)) FRAGMENT_PIECE_OVERHEAD in
  ({| pieces := bt_insert offset p (pieces s);
      st_bytes := sat_add (st_bytes s) added_len;
      total_len := total_len s; last_seen := last_seen s;
      wire_bytes := sat_add (wire_bytes s) wire_len |}, added_len).

(** The block of [insert] that holds the map entry's borrow. *)
Definition apply_piece (s : FragmentState) (now offset : Z) (more : bool) (payload : bytes)
  (wire_len end_ : Z) : FragmentState * PieceResult :=
  let '(s, reject) := bound_check s now more end_ in
  match reject with
  | Some r => (s, Rejected r)
  | None =>
      match bt_get offset (pieces s) with
      | Some existing =>
          if Bool.eqb (piece_more existing) more && bool_decide (piece_data existing = payload)
          then (s, Duplicate) else (s, Rejected Overlap)
      | None =>
          if overlap_check s offset end_ then (s, Rejected Overlap)
          else
            let '(s, added_len) :=
              add_piece s offset {| piece_data := payload; piece_more := more |} wire_len in
            (s, Added added_len)
      end
  end.

(** ** Completion *)

(** The loop over the pieces: the position after the last one, if contiguous. *)
Fixpoint contiguous_end (cursor : Z) (m : btree FragmentPiece) : option Z :=
  match m with
  | [] => Some cursor
  | (start, p) :: m =>
      if negb (start =? cursor) then None
      else contiguous_end (sat_add cursor (blen (piece_data p))) m
  end.

Definition try_complete (c : FragmentCache) (key : FragmentKey) : FragmentInsert * FragmentCache :=
  match states c !! key with
  | None => (Pending, c)
  | Some state =>
      match total_len state with
      | None => (Pending, c)
      | Some total =>
          match contiguous_end 0 (pieces state) with
          | None => (Pending, c)
          | Some cursor =>
              if negb (cursor =? total) then (Pending, c)
              else
                (Complete (concat (map (fun '(_, p) => piece_data p) (pieces state)))
                   (wire_bytes state),
                 set_states c (delete key (states c)) (sat_sub (cache_bytes c) (st_bytes state)))
          end
      end
  end.

Section Order.
Context (iter : gmap FragmentKey FragmentState -> list (FragmentKey * FragmentState)).

Definition is_expired (now timeout : Z) (s : FragmentState) : bool :=
  timeout <=? sat_sub now (last_seen s).

Definition maintenance (c : FragmentCache) (now : Z) : FragmentCache * FragmentMaintenance :=
  if sat_sub now (last_cleanup c) <? 10 ^ 9 then (c, FragmentMaintenance_default)
  else
    let c := set_last_cleanup c now in
    let old := map fst (List.filter (fun '(_, s) => is_expired now (timeout c) s) (iter (states c))) in
    (fold_left remove_key old c, {| expired := blen old; evicted := 0 |}).

(** [min_by_key]: the first entry whose [last_seen] is minimal. *)
Fixpoint oldest (l : list (FragmentKey * FragmentState)) : option (FragmentKey * FragmentState) :=
  match l with
  | [] => None
  | (k, s) :: l =>
      match oldest l with
      | Some (k', s') => if last_seen s' <? last_seen s then Some (k', s') else Some (k, s)
      | None => Some (k, s)
      end
  end.

Definition evict_oldest (c : FragmentCache) : option FragmentCache :=
  match oldest (iter (states c)) with
  | Some (key, _) => Some (remove_key c key)
  | None => None
  end.

(** The eviction loop of [insert]; one datagram leaves in every round. *)
Fixpoint evict_loop (fuel : nat) (c : FragmentCache) (m : FragmentMaintenance)
  : option (FragmentCache * FragmentMaintenance) :=
  match fuel with
  | O => None
  | S fuel =>
      if (max_bytes c <? cache_bytes c) || (max_datagrams c <? Z.of_nat (size (states c))) then
        match evict_oldest c with
        | None => Some (c, m)
        | Some c => evict_loop fuel c {| expired := expired m; evicted := sat_add (evicted m) 1 |}
        end
      else Some (c, m)
  end.

Definition insert (c : FragmentCache) (now : Z) (key : FragmentKey) (offset : Z) (more : bool)
  (payload : bytes) (wire_len : Z)
  : option (FragmentInsert * FragmentMaintenance * FragmentCache) :=
  let '(c, m) := maintenance c now in
  let end_ := offset + blen payload in
  if u64_MAX <? end_ then Some (DroppedInvalid, m, c)
  else if (65535 <? end_) || (more && (is_empty payload || negb (blen payload mod 8 =? 0)))
  then Some (DroppedInvalid, m, remove_key c key)
  else
    let c :=
      match states c !! key with
      | Some _ => c
      | None =>
          set_states c (<[key := FragmentState_new now]> (states c))
            (sat_add (cache_bytes c) FRAGMENT_DATAGRAM_OVERHEAD)
      end in
    state ← expect (states c !! key);
    let '(state, result) := apply_piece state now offset more payload wire_len end_ in
    let c := set_states c (<[key := state]> (states c)) (cache_bytes c) in
    match result with
    | Rejected r =>
        Some (match r with Invalid => DroppedInvalid | Overlap => DroppedOverlap end, m,
              remove_key c key)
    | Duplicate => let '(r, c) := try_complete c key in Some (r, m, c)
    | Added added_len =>
        let c := set_states c (states c) (sat_add (cache_bytes c) added_len) in
        let '(completed, c) := try_complete c key in
        match completed with
        | Pending =>
            '(c, m) ← evict_loop (S (size (states c))) c m;
            Some (Pending, m, c)
        | _ => Some (completed, m, c)
        end
    end.

(** ** The shards *)

Definition SharedFragmentCache_new (now max_bytes max_datagrams timeout : Z) : list FragmentCache :=
  let per_bytes := Z.max (max_bytes / FRAGMENT_SHARDS) (64 * 1024) in
  let per_datagrams := Z.max (max_datagrams / FRAGMENT_SHARDS) 1 in
  replicate (Z.to_nat FRAGMENT_SHARDS) (FragmentCache_new now per_bytes per_datagrams timeout).

Definition shared_insert (shard_hash : FragmentKey -> Z) (shards : list FragmentCache) (now : Z)
  (key : FragmentKey) (offset : Z) (more : bool) (payload : bytes) (wire_len : Z)
  : option (FragmentInsert * FragmentMaintenance * list FragmentCache) :=
  let idx := Z.land (shard_hash key) (FRAGMENT_SHARDS - 1) in
  shard ← index shards idx;
  '(r, m, shard) ← insert shard now key offset more payload wire_len;
  Some (r, m, <[Z.to_nat idx := shard]> shards).
End Order.
