(* ===== verification/FragmentSpec.v ===== *)
(** * What the fragment cache promises ([src/src/capture/fragment.rs])

    The invariant of the cache (its byte accounting is exact and each datagram
    holds disjoint pieces), and the theorems: insertion never fails and keeps the
    limits, a completed datagram is made of received fragments, a fragmented
    datagram is restored from its fragments in any order, an overlap drops the
    datagram, and cleanup removes exactly what is too old. *)

From stdpp Require Import fin_maps sorting.
From S2P Require Import Prelude BTree Model Fragment.

(** Pieces that follow each other from position [o] to position [t]. *)
Fixpoint adjacent (o : Z) (ps : btree FragmentPiece) (t : Z) : Prop :=
  match ps with
  | [] => o = t
  | (k, p) :: ps => k = o /\ adjacent (o + blen (piece_data p)) ps t
  end.

Definition charge (p : FragmentPiece) : Z := blen (piece_data p) + FRAGMENT_PIECE_OVERHEAD.

Fixpoint charges (m : btree FragmentPiece) : Z :=
  match m with [] => 0 | (_, p) :: m => charge p + charges m end.

Definition payload_of (ps : btree FragmentPiece) : bytes := concat (map (fun '(_, p) => piece_data p) ps).

(** One datagram under reassembly; [Q] holds of each of its pieces. *)
Record state_ok (Q : Z -> FragmentPiece -> Prop) (s : FragmentState) : Prop := {
  so_sorted : bt_sorted (pieces s);
  so_piece : forall k p, In (k, p) (pieces s) -> 0 <= k /\ k + blen (piece_data p) <= 65535 /\ Q k p;
  so_disjoint : forall k p k' p', In (k, p) (pieces s) -> In (k', p') (pieces s) -> k < k' ->
    k + blen (piece_data p) <= k';
  so_bytes : st_bytes s = FRAGMENT_DATAGRAM_OVERHEAD + charges (pieces s);
  so_total : forall t, total_len s = Some t ->
    exists k p, In (k, p) (pieces s) /\ piece_more p = false /\ k + blen (piece_data p) = t;
  so_final : forall k p, In (k, p) (pieces s) -> piece_more p = false ->
    total_len s = Some (k + blen (piece_data p))
}.

Definition total_bytes (m : gmap FragmentKey FragmentState) : Z :=
  map_sum st_bytes m.

(** The cache between two calls: accounting is exact and cannot saturate. *)
Record cache_ok (Q : FragmentKey -> Z -> FragmentPiece -> Prop) (c : FragmentCache) : Prop := {
  co_states : map_Forall (fun key s => state_ok (Q key) s) (states c);
  co_bytes : cache_bytes c = total_bytes (states c);
  co_max : 0 <= max_bytes c <= 2 ^ 62;
  co_count : 0 <= max_datagrams c
}.

Definition within_limits (c : FragmentCache) : Prop :=
  cache_bytes c <= max_bytes c /\ Z.of_nat (size (states c)) <= max_datagrams c.

(** ** Sums and pieces *)

Lemma charge_pos p : 0 < charge p.
Proof. unfold charge, FRAGMENT_PIECE_OVERHEAD. pose proof (blen_nonneg (piece_data p)). lia. Qed.

Lemma charges_nonneg m : 0 <= charges m.
Proof. induction m as [|[k p] m IH]; simpl; [done|]. pose proof (charge_pos p). lia. Qed.

Lemma state_ok_pos Q s : state_ok Q s -> 0 < st_bytes s.
Proof. intros H. rewrite (so_bytes _ _ H). pose proof (charges_nonneg (pieces s)). unfold FRAGMENT_DATAGRAM_OVERHEAD. lia. Qed.

Lemma charges_insert k p m : bt_get k m = None -> charges (bt_insert k p m) = charge p + charges m.
Proof.
  induction m as [|[k' p'] m IH]; simpl; [done|].
  destruct (k =? k') eqn:E; [done|]. intros H. destruct (k <? k'); simpl; [done|].
  rewrite IH by done. lia.
Qed.

Lemma bt_get_None_In {V} k (m : btree V) v : bt_get k m = None -> ~ In (k, v) m.
Proof.
  induction m as [|[k' v'] m IH]; simpl; [tauto|]. destruct (k =? k') eqn:E; [done|].
  reflect_bools. intros H [[= -> ->]|Hin]; [done|]. by apply IH.
Qed.

Lemma bt_insert_In_iff {V} k (v : V) m e :
  bt_get k m = None -> In e (bt_insert k v m) <-> e = (k, v) \/ In e m.
Proof.
  intros Hn. split; [apply bt_In_insert|].
  induction m as [|[k' v'] m IH]; simpl; [intuition congruence|]. simpl in Hn.
  destruct (k =? k') eqn:E; [done|]. destruct (k <? k'); simpl; intuition congruence.
Qed.

Lemma total_bytes_insert k s m :
  m !! k = None -> total_bytes (<[k := s]> m) = st_bytes s + total_bytes m.
Proof. apply map_sum_insert. Qed.

Lemma total_bytes_delete k s m :
  m !! k = Some s -> total_bytes m = st_bytes s + total_bytes (delete k m).
Proof. apply map_sum_delete. Qed.

Lemma total_bytes_nonneg Q m : map_Forall (fun key s => state_ok (Q key) s) m -> 0 <= total_bytes m.
Proof. intros Hm. apply map_sum_nonneg. intros k s Hs. pose proof (state_ok_pos _ _ (Hm k s Hs)). lia. Qed.

Lemma cache_room Q c : cache_ok Q c -> within_limits c -> 0 <= cache_bytes c <= 2 ^ 62.
Proof.
  intros [Hs Hb Hm _] [Hw _]. rewrite Hb. pose proof (total_bytes_nonneg Q _ Hs). lia.
Qed.

(** ** Removal, expiry and eviction *)

(** [c'] is [c] without some datagrams. *)
Record shrinks (c c' : FragmentCache) : Prop := {
  sh_states : states c' ⊆ states c;
  sh_bytes : cache_bytes c' <= cache_bytes c;
  sh_max : max_bytes c' = max_bytes c;
  sh_count : max_datagrams c' = max_datagrams c;
  sh_timeout : timeout c' = timeout c
}.

Lemma shrinks_refl c : shrinks c c.
Proof. by split. Qed.

Lemma shrinks_trans c1 c2 c3 : shrinks c1 c2 -> shrinks c2 c3 -> shrinks c1 c3.
Proof. intros [] []. split; try congruence; [by etransitivity|lia]. Qed.

Lemma shrinks_size c c' : shrinks c c' -> (size (states c') <= size (states c))%nat.
Proof. intros H. apply map_subseteq_size, H. Qed.

Lemma shrinks_within c c' : shrinks c c' -> within_limits c -> within_limits c'.
Proof.
  intros H [H1 H2]. pose proof (shrinks_size _ _ H). destruct H.
  split; rewrite ?sh_max0, ?sh_count0; lia.
Qed.

Lemma remove_key_ok Q c key :
  cache_ok Q c -> cache_ok Q (remove_key c key) /\ shrinks c (remove_key c key) /\
  states (remove_key c key) = delete key (states c).
Proof.
  intros [Hs Hb Hm Hc]. unfold remove_key. destruct (states c !! key) as [s|] eqn:E.
  2: { split; [by split|]. split; [apply shrinks_refl|]. by rewrite delete_id. }
  pose proof (total_bytes_delete _ _ _ E) as Ht.
  assert (map_Forall (fun key s => state_ok (Q key) s) (delete key (states c))) as Hd
    by (by apply map_Forall_delete).
  pose proof (total_bytes_nonneg Q _ Hd). pose proof (state_ok_pos _ _ (Hs _ _ E)).
  split; [|split; [|done]].
  - split; simpl; [done| |done|done]. rewrite sat_sub_ge; lia.
  - split; simpl; try done; [apply delete_subseteq|]. unfold sat_sub. lia.
Qed.

Lemma remove_keys_ok Q l c :
  cache_ok Q c -> cache_ok Q (fold_left remove_key l c) /\ shrinks c (fold_left remove_key l c) /\
  forall k, states (fold_left remove_key l c) !! k = if decide (k ∈ l) then None else states c !! k.
Proof.
  revert c; induction l as [|key l IH]; simpl; intros c Hok.
  { split; [done|]. split; [apply shrinks_refl|done]. }
  destruct (remove_key_ok Q c key Hok) as (H1 & H2 & H3).
  destruct (IH _ H1) as (H4 & H5 & H6). split; [done|]. split; [by eapply shrinks_trans|].
  intros k. rewrite H6, H3. destruct (decide (k = key)) as [->|Hn].
  - rewrite lookup_delete_eq, (decide_True _ _ (list_elem_of_here _ _)). by destruct (decide _).
  - rewrite lookup_delete_ne by done. destruct (decide (k ∈ l)).
    + rewrite decide_True; [done|]. by right.
    + rewrite decide_False; [done|]. by intros [?|?]%elem_of_cons.
Qed.

Lemma cleanup_time_ok Q c now :
  cache_ok Q c -> cache_ok Q (set_last_cleanup c now) /\ shrinks c (set_last_cleanup c now).
Proof. intros []. split; by split. Qed.

Section Order.
Context (iter : gmap FragmentKey FragmentState -> list (FragmentKey * FragmentState)).
Hypothesis iter_perm : forall m, iter m ≡ₚ map_to_list m.

Lemma expired_spec now t m k :
  k ∈ map fst (List.filter (fun '(_, s) => is_expired now t s) (iter m)) <->
  exists s, m !! k = Some s /\ is_expired now t s = true.
Proof.
  rewrite list_elem_of_In, in_map_iff. split.
  - intros ([k' s] & <- & Hin). apply filter_In in Hin as [Hin He].
    exists s. split; [|done]. apply elem_of_map_to_list. rewrite <- iter_perm. by apply list_elem_of_In.
  - intros (s & Hs & He). exists (k, s). split; [done|]. apply filter_In. split; [|done].
    apply list_elem_of_In. rewrite iter_perm. by apply elem_of_map_to_list.
Qed.

Lemma maintenance_ok Q c now :
  cache_ok Q c ->
  exists c' m, maintenance iter c now = (c', m) /\ cache_ok Q c' /\ shrinks c c' /\
    forall k s, states c !! k = Some s -> is_expired now (timeout c) s = false ->
      states c' !! k = Some s.
Proof.
  intros Hok. unfold maintenance. destruct (_ <? _).
  { eexists _, _. split; [done|]. split; [done|]. by split; [apply shrinks_refl|]. }
  destruct (cleanup_time_ok Q c now Hok) as [H1 H2].
  eexists _, _. split; [done|]. set (c1 := set_last_cleanup c now) in *.
  destruct (remove_keys_ok Q (map fst (List.filter (fun '(_, s) => is_expired now (timeout c1) s)
    (iter (states c1)))) c1 H1) as (H3 & H4 & H5).
  split; [done|]. split; [by eapply shrinks_trans|]. intros k s Hs He. rewrite H5.
  rewrite decide_False; [done|]. rewrite expired_spec. intros (s' & Hs' & He').
  simpl in *. rewrite Hs in Hs'. simplify_eq. congruence.
Qed.

Lemma oldest_spec l : match oldest l with
  | Some (k, s) => In (k, s) l /\ forall k' s', In (k', s') l -> last_seen s <= last_seen s'
  | None => l = [] end.
Proof.
  induction l as [|[k s] l IH]; simpl; [done|]. destruct (oldest l) as [[k' s']|].
  - destruct IH as [Hin Hmin]. destruct (last_seen s' <? last_seen s) eqn:E; reflect_bools.
    + split; [by right|]. intros k2 s2 [[= <- <-]|H]; [lia|by eapply Hmin].
    + split; [by left|]. intros k2 s2 [[= <- <-]|H]; [lia|]. apply Hmin in H. lia.
  - subst. split; [by left|]. intros k2 s2 [[= <- <-]|[]]. lia.
Qed.

Lemma evict_ok Q c :
  cache_ok Q c -> states c <> ∅ ->
  exists key s c', evict_oldest iter c = Some c' /\ states c !! key = Some s /\
    states c' = delete key (states c) /\ cache_ok Q c' /\ shrinks c c' /\
    (forall k' s', states c !! k' = Some s' -> last_seen s <= last_seen s').
Proof.
  intros Hok Hne. unfold evict_oldest. pose proof (oldest_spec (iter (states c))) as Ho.
  destruct (oldest (iter (states c))) as [[key s]|].
  - destruct Ho as [Hin Hmin]. destruct (remove_key_ok Q c key Hok) as (H1 & H2 & H3).
    exists key, s. eexists. split; [done|].
    assert (forall k s', states c !! k = Some s' <-> In (k, s') (iter (states c))) as Hl.
    { intros k s'. rewrite <- elem_of_map_to_list, <- iter_perm. apply list_elem_of_In. }
    split; [by apply Hl|]. split; [done|]. split; [done|]. split; [done|].
    intros k' s' H. apply Hl in H. by eapply Hmin.
  - exfalso. apply Hne, map_to_list_empty_iff. apply Permutation_nil. by rewrite <- iter_perm, Ho.
Qed.

(** Eviction ends within the limits. *)
Lemma evict_loop_ok Q fuel c m :
  cache_ok Q c -> (size (states c) < fuel)%nat ->
  exists c' m', evict_loop iter fuel c m = Some (c', m') /\ cache_ok Q c' /\ shrinks c c' /\
    within_limits c' /\ (within_limits c -> c' = c).
Proof.
  revert c m; induction fuel as [|fuel IH]; simpl; intros c m Hok Hf; [lia|].
  destruct (_ || _) eqn:E.
  - destruct (decide (states c = ∅)) as [He|Hne].
    { exfalso. destruct Hok as [Hs Hb Hm Hc]. rewrite He in *. rewrite Hb in E.
      replace (total_bytes ∅) with 0 in E by done. rewrite map_size_empty in E.
      destruct (orb_prop _ _ E); reflect_bools; lia. }
    destruct (evict_ok Q c Hok Hne) as (key & s & c1 & -> & Hk & Hd & Hok1 & Hsh & _).
    destruct (IH c1 {| expired := expired m; evicted := sat_add (evicted m) 1 |} Hok1)
      as (c' & m' & -> & H1 & H2 & H3 & H4).
    { rewrite Hd. pose proof (map_size_delete key (states c)) as Hz. rewrite Hk in Hz.
      assert (size (states c) <> 0%nat) by (rewrite map_size_ne_0_lookup; eauto).
      simpl in Hz. lia. }
    eexists _, _. split; [done|]. split; [done|]. split; [by eapply shrinks_trans|].
    split; [done|]. intros [Hw1 Hw2]. exfalso. destruct (orb_prop _ _ E); reflect_bools; lia.
  - reflect_bools. eexists _, _. split; [done|]. split; [done|]. split; [apply shrinks_refl|].
    by split; [split|].
Qed.
End Order.

(** ** One fragment *)

Lemma piece_end_ok Q s k p :
  state_ok Q s -> In (k, p) (pieces s) -> piece_end k p = k + blen (piece_data p).
Proof.
  intros Hs Hin. destruct (so_piece _ _ Hs k p Hin) as (? & ? & _).
  apply sat_add_small. unfold u64_MAX. lia.
Qed.

Lemma existsb_false {A} (f : A -> bool) l x : existsb f l = false -> In x l -> f x = false.
Proof.
  intros H Hin. destruct (f x) eqn:E; [|done]. rewrite <- H. symmetry. apply existsb_exists. eauto.
Qed.

Lemma bound_check_frame s now more e s1 r :
  bound_check s now more e = (s1, r) ->
  pieces s1 = pieces s /\ st_bytes s1 = st_bytes s /\ wire_bytes s1 = wire_bytes s /\
  last_seen s1 = now.
Proof. unfold bound_check. destruct more, (total_len s) as [t|]; try destruct (negb (t =? e)); by intros [= <- <-]. Qed.

(** A fragment that passes the boundary checks agrees with the declared end. *)
Lemma bound_check_None Q s now more e s1 :
  state_ok Q s -> bound_check s now more e = (s1, None) ->
  total_len s1 = (if more then total_len s else Some e) /\
  (more = false -> (total_len s = None \/ total_len s = Some e) /\
    forall k p, In (k, p) (pieces s) -> k + blen (piece_data p) <= e) /\
  (more = true -> forall t, total_len s = Some t -> e < t).
Proof.
  intros Hs. unfold bound_check. destruct more.
  - simpl. destruct (total_len s) as [t|]; [|by intros [= <-]].
    destruct (_ || _) eqn:E; intros [= <-]. reflect_bools. split; [done|].
    split; [done|]. intros _ t' [= <-]. lia.
  - assert (existsb (fun '(start, p) => e <? piece_end start p) (pieces s) = false ->
      forall k p, In (k, p) (pieces s) -> k + blen (piece_data p) <= e) as Hx.
    { intros He k p Hin. pose proof (existsb_false _ _ _ He Hin) as H. simpl in H. reflect_bools.
      by rewrite (piece_end_ok Q s k p Hs Hin) in H. }
    destruct (total_len s) as [t|]; simpl;
      [destruct (t =? e) eqn:Et; simpl; [|done]; reflect_bools; subst|];
      destruct (existsb _ _); simpl; try done; rewrite Z.ltb_irrefl; intros [= <-]; naive_solver.
Qed.

Lemma bound_check_pass Q s now more e :
  state_ok Q s ->
  (more = false -> (total_len s = None \/ total_len s = Some e) /\
    forall k p, In (k, p) (pieces s) -> k + blen (piece_data p) <= e) ->
  (more = true -> forall t, total_len s = Some t -> e < t) ->
  exists s1, bound_check s now more e = (s1, None).
Proof.
  intros Hs Hf Hm. unfold bound_check. destruct more.
  - simpl. destruct (total_len s) as [t|]; [|by eexists]. specialize (Hm eq_refl t eq_refl).
    rewrite (proj2 (Z.ltb_ge _ _)), (proj2 (Z.leb_gt _ _)) by lia. by eexists.
  - destruct (Hf eq_refl) as [Ht Hp].
    assert (existsb (fun '(start, p) => e <? piece_end start p) (pieces s) = false) as Hx.
    { apply not_true_iff_false. intros ([k p] & Hin & H)%existsb_exists. reflect_bools.
      rewrite (piece_end_ok Q s k p Hs Hin) in H. specialize (Hp _ _ Hin). lia. }
    destruct Ht as [->| ->]; simpl; rewrite ?Z.eqb_refl; simpl; rewrite Hx, Z.ltb_irrefl; by eexists.
Qed.

Lemma overlap_check_false Q s offset e :
  state_ok Q s -> bt_get offset (pieces s) = None -> offset <= e ->
  overlap_check s offset e = false <->
  (forall k p, In (k, p) (pieces s) ->
    (k < offset -> k + blen (piece_data p) <= offset) /\ (offset < k -> e <= k)).
Proof.
  intros Hs Hn He. unfold overlap_check, bt_last_lt. split.
  - intros H k p Hin. reflect_bools. split; intros Hk.
    + destruct (bt_last_le (offset - 1) (pieces s)) as [[k' p']|] eqn:El.
      * pose proof (bt_last_le_In _ _ _ El) as [Hin' ?]. rewrite (piece_end_ok Q s k' p' Hs Hin') in *.
        pose proof (bt_last_le_max _ _ k p _ (so_sorted _ _ Hs) El Hin ltac:(lia)) as Hmax.
        simpl in *. reflect_bools. destruct (Z.eq_dec k k') as [->|].
        -- pose proof (bt_get_In _ _ _ (so_sorted _ _ Hs) Hin) as G1.
           pose proof (bt_get_In _ _ _ (so_sorted _ _ Hs) Hin') as G2. simplify_eq. congruence || lia.
        -- pose proof (so_disjoint _ _ Hs k p k' p' Hin Hin' ltac:(lia)). lia.
      * pose proof (bt_last_le_None _ _ _ _ (so_sorted _ _ Hs) El Hin). lia.
    + destruct (bt_first_ge_spec offset (pieces s) k p (so_sorted _ _ Hs) Hin ltac:(lia))
        as ([k' p'] & E & Hin' & Hr). rewrite E in *. reflect_bools. simpl in *. lia.
  - intros H. apply orb_false_iff. split.
    + destruct (bt_last_le _ _) as [[k p]|] eqn:El; [|done].
      pose proof (bt_last_le_In _ _ _ El) as [Hin ?]. rewrite (piece_end_ok Q s k p Hs Hin).
      apply Z.ltb_ge. destruct (H _ _ Hin) as [H1 _]. simpl in *. apply H1. lia.
    + destruct (bt_first_ge offset (pieces s)) as [[k p]|] eqn:El; [|done].
      apply bt_first_ge_In in El as [Hin ?]. apply Z.ltb_ge. simpl in *.
      destruct (Z.eq_dec k offset) as [->|]; [exfalso; by eapply bt_get_None_In|].
      destruct (H _ _ Hin) as [_ H2]. apply H2. lia.
Qed.

(** The state after a piece that fits was added. *)
Lemma add_piece_ok Q s offset p wire t now :
  state_ok Q s -> Q offset p -> 0 <= offset -> offset + blen (piece_data p) <= 65535 ->
  st_bytes s <= 2 ^ 62 + 256 -> bt_get offset (pieces s) = None ->
  (forall k p', In (k, p') (pieces s) ->
    (k < offset -> k + blen (piece_data p') <= offset) /\
    (offset < k -> offset + blen (piece_data p) <= k)) ->
  t = (if piece_more p then total_len s else Some (offset + blen (piece_data p))) ->
  (piece_more p = false -> total_len s = None \/ total_len s = t) ->
  exists s' , add_piece (set_total s now t) offset p wire = (s', charge p) /\
    state_ok Q s' /\ pieces s' = bt_insert offset p (pieces s) /\ total_len s' = t /\
    st_bytes s' = st_bytes s + charge p /\ last_seen s' = now /\
    wire_bytes s' = sat_add (wire_bytes s) wire.
Proof.
  intros Hs HQ Ho He Hb Hn Hd Ht Hfin. unfold add_piece.
  pose proof (blen_nonneg (piece_data p)).
  assert (FRAGMENT_PIECE_OVERHEAD = 64) as Hov by done.
  rewrite (sat_add_small (blen _)) by (unfold u64_MAX; lia). fold (charge p).
  assert (sat_add (st_bytes s) (charge p) = st_bytes s + charge p) as Hsum
    by (apply sat_add_small; unfold charge, u64_MAX; lia).
  eexists. split; [done|]. simpl. split; [|by rewrite Hsum].
  assert (forall k p', In (k, p') (bt_insert offset p (pieces s)) ->
    (k, p') = (offset, p) \/ In (k, p') (pieces s)) as Hin by (intros k p'; apply bt_In_insert).
  split; simpl.
  - apply bt_insert_sorted, Hs.
  - intros k p' [[= -> ->]|H']%Hin; [by split|]. by apply (so_piece _ _ Hs).
  - intros k1 p1 k2 p2 [[= -> ->]|H1]%Hin [[= -> ->]|H2]%Hin Hlt; [lia| | |].
    + by apply (Hd _ _ H2).
    + by apply (Hd _ _ H1).
    + by apply (so_disjoint _ _ Hs k1 p1 k2 p2).
  - rewrite Hsum, charges_insert by done. rewrite (so_bytes _ _ Hs). lia.
  - intros t' ->. destruct (piece_more p) eqn:Em.
    + symmetry in Ht. destruct (so_total _ _ Hs _ Ht) as (k & p' & H1 & H2 & H3).
      exists k, p'. split; [|done]. apply bt_insert_In_iff; auto.
    + exists offset, p. split; [apply bt_insert_In_iff; auto|]. split; [done|]. congruence.
  - intros k p' [[= -> ->]|H']%Hin Hmore; [by rewrite Ht, Hmore|].
    pose proof (so_final _ _ Hs _ _ H' Hmore) as Hl. rewrite <- Hl.
    destruct (piece_more p) eqn:Em; [congruence|]. destruct (Hfin eq_refl); congruence.
Qed.

Lemma state_ok_touch Q s now : state_ok Q s -> state_ok Q (set_total s now (total_len s)).
Proof. intros []. by split. Qed.

Lemma new_state_ok Q now : state_ok Q (FragmentState_new now).
Proof. by split. Qed.

Lemma apply_piece_ok Q s now offset more payload wire :
  state_ok Q s -> Q offset {| piece_data := payload; piece_more := more |} -> 0 <= offset ->
  offset + blen payload <= 65535 -> st_bytes s <= 2 ^ 62 + 256 ->
  exists s' r, apply_piece s now offset more payload wire (offset + blen payload) = (s', r) /\
    st_bytes s' = st_bytes s + (match r with Added n => n | _ => 0 end) /\
    match r with
    | Rejected _ => True
    | Duplicate => state_ok Q s' /\ pieces s' = pieces s /\ pieces s <> []
    | Added n => n = charge {| piece_data := payload; piece_more := more |} /\ state_ok Q s' /\
        pieces s' = bt_insert offset {| piece_data := payload; piece_more := more |} (pieces s)
    end.
Proof.
  intros Hs HQ Ho He Hb. unfold apply_piece.
  destruct (bound_check s now more (offset + blen payload)) as [s1 [rj|]] eqn:Ebc.
  { apply bound_check_frame in Ebc as (_ & Hbb & _). eexists _, _. split; [done|]. split; [lia|done]. }
  pose proof (bound_check_frame _ _ _ _ _ _ Ebc) as (Hp & Hbb & Hw & Hl).
  destruct (bound_check_None Q s now more _ s1 Hs Ebc) as (Ht & Hfin & _).
  assert (s1 = set_total s now (total_len s1)) as Hs1 by (destruct s1; simpl in *; congruence || by subst).
  rewrite Hp. destruct (bt_get offset (pieces s)) as [ex|] eqn:Eg.
  - destruct (_ && _) eqn:Ed; eexists _, _; (split; [done|]); (split; [lia|]); [|done].
    reflect_bools. apply eqb_prop in H. apply bool_decide_eq_true in H0.
    split; [|split; [done|by intros Hnil; rewrite Hnil in Eg]]. rewrite Hs1. rewrite Ht. destruct more; [by apply state_ok_touch|].
    apply bt_get_Some_In in Eg. pose proof (so_final _ _ Hs _ _ Eg H) as Hf.
    rewrite H0 in Hf. rewrite <- Hf. by apply state_ok_touch.
  - assert (overlap_check s1 offset (offset + blen payload) =
      overlap_check s offset (offset + blen payload)) as -> by (unfold overlap_check; by rewrite Hp).
    destruct (overlap_check s offset _) eqn:Eo.
    { eexists _, _. split; [done|]. split; [lia|done]. }
    pose proof (blen_nonneg payload). pose proof (proj1 (overlap_check_false Q s offset (offset + blen payload) Hs Eg ltac:(lia)) Eo) as Hd.
    set (p := {| piece_data := payload; piece_more := more |}).
    destruct (add_piece_ok Q s offset p wire (total_len s1) now Hs HQ Ho He Hb Eg Hd)
      as (s' & Ea & Hok & Hpp & _ & Hsb & _ & _).
    { simpl. by rewrite Ht. }
    { simpl. intros ->. destruct (Hfin eq_refl) as [[?|?] _]; [by left|right; congruence]. }
    rewrite Hs1, Ea. eexists _, _. split; [done|]. split; [lia|]. done.
Qed.

(** ** Completion *)

Lemma contiguous_end_adjacent o m t :
  (forall k p, In (k, p) m -> 0 <= k /\ k + blen (piece_data p) <= 65535) ->
  contiguous_end o m = Some t <-> adjacent o m t.
Proof.
  revert o; induction m as [|[k p] m IH]; simpl; intros o Hm; [split; congruence|].
  destruct (Hm k p ltac:(by left)) as [H1 H2]. pose proof (blen_nonneg (piece_data p)).
  destruct (k =? o) eqn:E; simpl; reflect_bools; [|split; [done|by intros [-> _]]].
  subst k. rewrite sat_add_small by (unfold u64_MAX; lia). rewrite IH by eauto. naive_solver.
Qed.

(** The datagram [payload] is made of received pieces, the last one final. *)
Definition assembled (Q : Z -> FragmentPiece -> Prop) (payload : bytes) : Prop :=
  exists ps, adjacent 0 ps (blen payload) /\ payload = payload_of ps /\ blen payload <= 65535 /\
    (forall k p, In (k, p) ps -> Q k p) /\
    exists k p, In (k, p) ps /\ piece_more p = false /\ k + blen (piece_data p) = blen payload.

Lemma adjacent_length o ps t : adjacent o ps t -> t = o + blen (payload_of ps).
Proof.
  revert o; induction ps as [|[k p] ps IH]; simpl; intros o H.
  - subst. unfold payload_of, blen. simpl. lia.
  - destruct H as [_ H]. apply IH in H. unfold payload_of in *. simpl. rewrite blen_app. lia.
Qed.

Lemma try_complete_ok Q c key :
  cache_ok Q c ->
  exists r c', try_complete c key = (r, c') /\ cache_ok Q c' /\ shrinks c c' /\
    match r with
    | Complete payload _ => assembled (Q key) payload /\ states c' = delete key (states c)
    | Pending => c' = c
    | _ => False
    end.
Proof.
  intros Hok. unfold try_complete.
  assert (cache_ok Q c /\ shrinks c c) as Hsame by (split; [done|apply shrinks_refl]).
  destruct (states c !! key) as [s|] eqn:Es; [|eexists _, _; naive_solver].
  destruct (total_len s) as [t|] eqn:Et; [|eexists _, _; naive_solver].
  pose proof (co_states _ _ Hok _ _ Es) as Hs. simpl in Hs.
  destruct (contiguous_end 0 (pieces s)) as [e|] eqn:Ec; [|eexists _, _; naive_solver].
  destruct (e =? t) eqn:Ee; simpl; [|eexists _, _; naive_solver]. reflect_bools. subst e.
  apply contiguous_end_adjacent in Ec.
  2: { intros k p Hin. destruct (so_piece _ _ Hs _ _ Hin) as (? & ? & _). done. }
  destruct (remove_key_ok Q c key Hok) as (H1 & H2 & H3).
  unfold remove_key in H1, H2, H3. rewrite Es in *.
  eexists _, _. split; [done|]. split; [done|]. split; [done|]. split; [|done].
  fold (payload_of (pieces s)). pose proof (adjacent_length _ _ _ Ec) as Hlen.
  exists (pieces s). rewrite Z.add_0_l in Hlen. rewrite <- Hlen. split; [done|]. split; [done|].
  pose proof (so_total _ _ Hs t Et) as (k & p & Hin & Hm & He).
  destruct (so_piece _ _ Hs k p Hin) as (_ & Hb & _). split; [lia|].
  split; [intros k' p' Hin'; by apply (so_piece _ _ Hs)|]. by exists k, p.
Qed.

(** ** A whole insertion *)

Lemma total_bytes_subseteq Q m1 m2 :
  m1 ⊆ m2 -> map_Forall (fun key s => state_ok (Q key) s) m2 -> total_bytes m1 <= total_bytes m2.
Proof.
  revert m2. induction m1 as [|k s m1 Hk IH] using map_ind; intros m2 Hsub Hm.
  { replace (total_bytes ∅) with 0 by done. by eapply total_bytes_nonneg. }
  assert (m2 !! k = Some s) as Hs.
  { eapply lookup_weaken; [|exact Hsub]. apply lookup_insert_eq. }
  rewrite total_bytes_insert, (total_bytes_delete k s m2) by done.
  assert (total_bytes m1 <= total_bytes (delete k m2)); [|lia].
  apply IH; [|by apply map_Forall_delete].
  rewrite <- (delete_insert_id m1 k s) by done. by apply delete_mono.
Qed.

Lemma subset_within Q c c' :
  cache_ok Q c -> cache_ok Q c' -> states c' ⊆ states c -> max_bytes c' = max_bytes c ->
  max_datagrams c' = max_datagrams c -> within_limits c -> within_limits c'.
Proof.
  intros [] [] Hsub Hm Hd [H1 H2]. pose proof (map_subseteq_size _ _ Hsub).
  pose proof (total_bytes_subseteq Q _ _ Hsub co_states0).
  split; rewrite ?Hm, ?Hd; lia.
Qed.

Lemma store_ok Q c key s0 s n :
  cache_ok Q c -> states c !! key = Some s0 -> state_ok (Q key) s ->
  n = cache_bytes c + (st_bytes s - st_bytes s0) ->
  cache_ok Q (set_states c (<[key := s]> (states c)) n).
Proof.
  intros [] Hs0 Hs ->. split; simpl; try done.
  - by apply map_Forall_insert_2.
  - rewrite co_bytes0, (total_bytes_delete _ _ _ Hs0), <- insert_delete_eq.
    rewrite total_bytes_insert by apply lookup_delete_eq. lia.
Qed.

(** The state under [key] before the piece is looked at. *)
Definition opened (c : FragmentCache) (now : Z) (key : FragmentKey) : FragmentState :=
  default (FragmentState_new now) (states c !! key).

Lemma open_ok Q c now key c1 :
  cache_ok Q c -> within_limits c ->
  c1 = match states c !! key with
       | Some _ => c
       | None => set_states c (<[key := FragmentState_new now]> (states c))
                   (sat_add (cache_bytes c) FRAGMENT_DATAGRAM_OVERHEAD)
       end ->
  cache_ok Q c1 /\ states c1 !! key = Some (opened c now key) /\
  delete key (states c1) = delete key (states c) /\ max_bytes c1 = max_bytes c /\
  max_datagrams c1 = max_datagrams c /\ timeout c1 = timeout c /\
  st_bytes (opened c now key) <= 2 ^ 62 + 256 /\ cache_bytes c1 <= 2 ^ 62 + 256 /\
  (pieces (opened c now key) = [] \/ c1 = c).
Proof.
  intros Hok Hw ->. pose proof (cache_room Q c Hok Hw) as Hroom. unfold opened.
  assert (FRAGMENT_DATAGRAM_OVERHEAD = 256) as Hov by done.
  destruct (states c !! key) as [s|] eqn:Es; simpl.
  - split; [done|]. split; [done|]. do 4 (split; [done|]).
    pose proof (total_bytes_delete _ _ _ Es). pose proof (co_bytes _ _ Hok).
    pose proof (total_bytes_nonneg Q (delete key (states c))
      (map_Forall_delete _ _ _ (co_states _ _ Hok))). split; [lia|]. split; [lia|by right].
  - rewrite Hov, sat_add_small by (unfold u64_MAX; lia). simpl. rewrite delete_insert_eq, lookup_insert_eq.
    split; [|do 5 (split; [done|]); split; [lia|]; split; [lia|by left]].
    destruct Hok. split; simpl; try done.
    + apply map_Forall_insert_2; [apply new_state_ok|done].
    + rewrite total_bytes_insert by done. simpl. lia.
Qed.

Section Insert.
Context (iter : gmap FragmentKey FragmentState -> list (FragmentKey * FragmentState)).
Hypothesis iter_perm : forall m, iter m ≡ₚ map_to_list m.

#[local] Arguments evict_loop : simpl never.

Lemma insert_ok Q c now key offset more payload wire :
  cache_ok Q c -> within_limits c -> 0 <= offset ->
  Q key offset {| piece_data := payload; piece_more := more |} ->
  exists r m c', insert iter c now key offset more payload wire = Some (r, m, c') /\
    cache_ok Q c' /\ within_limits c' /\
    match r with Complete d _ => assembled (Q key) d | _ => True end.
Proof.
  intros Hok0 Hw0 Ho HQ. unfold insert.
  destruct (maintenance_ok iter iter_perm Q c now Hok0) as (c0 & m & -> & Hok & Hsh & _).
  pose proof (shrinks_within _ _ Hsh Hw0) as Hw. clear Hok0 Hw0 Hsh. cbv zeta.
  destruct (u64_MAX <? _) eqn:E1; [by eexists _, _, _|].
  destruct (remove_key_ok Q c0 key Hok) as (Hr1 & Hr2 & _).
  destruct ((65535 <? _) || _) eqn:E2.
  { eexists _, _, _. split; [done|]. split; [done|]. by split; [eapply shrinks_within|]. }
  reflect_bools. set (c1 := match states c0 !! key with Some _ => c0 | None => _ end).
  destruct (open_ok Q c0 now key c1 Hok Hw eq_refl) as (Hok1 & Hk & Hdel & Hmx & Hdg & _ & Hsb & Hcb & Hor).
  clearbody c1. set (s0 := opened c0 now key) in *.
  rewrite Hk. simpl. pose proof (co_states _ _ Hok1 _ _ Hk) as Hs0. simpl in Hs0.
  destruct (apply_piece_ok (Q key) s0 now offset more payload wire Hs0 HQ Ho ltac:(lia) Hsb)
    as (s' & r & -> & Hb & Hr).
  set (c2 := set_states c1 _ _).
  assert (forall c', cache_ok Q c' -> states c' = delete key (states c2) -> max_bytes c' = max_bytes c2 ->
    max_datagrams c' = max_datagrams c2 -> within_limits c') as Hdrop.
  { intros c' Hc' Hst Hm' Hd'. apply (subset_within Q c0); [done|done| |simpl in *; congruence..|done].
    rewrite Hst. simpl. rewrite delete_insert_eq, Hdel. apply delete_subseteq. }
  destruct r as [rj| |n].
  - assert (cache_ok Q (remove_key c2 key) /\ states (remove_key c2 key) = delete key (states c2) /\
      max_bytes (remove_key c2 key) = max_bytes c2 /\
      max_datagrams (remove_key c2 key) = max_datagrams c2) as (Hx1 & Hx2 & Hx3 & Hx4).
    { unfold remove_key, c2. simpl. rewrite lookup_insert_eq. split; [|done].
      destruct (remove_key_ok Q c1 key Hok1) as (Hy & _ & _). unfold remove_key in Hy.
      rewrite Hk in Hy. destruct Hy. simpl in *. rewrite Z.add_0_r in Hb. rewrite Hb.
      split; simpl; rewrite ?delete_insert_eq; done. }
    eexists _, _, _. split; [done|]. split; [done|]. split; [by apply Hdrop|]. by destruct rj.
  - destruct Hr as (Hs' & Hp & Hne).
    assert (cache_ok Q c2) as Hok2 by (eapply store_ok; [done|done|done|lia]).
    destruct (try_complete_ok Q c2 key Hok2) as (r & c' & -> & Hok' & Hsh' & Hr).
    eexists _, _, _. split; [done|]. split; [done|].
    destruct r as [|d w| |]; try done.
    + subst c'. split; [|done].
      destruct Hor as [Hnil| ->]; [by rewrite Hnil in Hne|]. destruct Hw as [Hw1 Hw2].
      split; simpl; [done|]. by rewrite map_size_insert_Some by eauto.
    + destruct Hr as [Ha Hst]. split; [|done]. apply Hdrop; [done|done|apply Hsh'..].
  - destruct Hr as (-> & Hs' & Hp). set (ch := charge _) in *.
    pose proof (cache_room Q c0 Hok Hw).
    set (c3 := set_states c2 _ _).
    assert (ch <= 65535 + 64) as Hch by (unfold ch, charge, FRAGMENT_PIECE_OVERHEAD; simpl; lia).
    assert (cache_ok Q c3) as Hok3.
    { unfold c3, c2, set_states. simpl. rewrite sat_add_small by (unfold u64_MAX; lia).
      apply (store_ok Q c1 key s0); [done|done|done|lia]. }
    destruct (try_complete_ok Q c3 key Hok3) as (r & c4 & -> & Hok4 & Hsh4 & Hr).
    destruct r as [|d w| |]; try done.
    + subst c4. destruct (evict_loop_ok iter iter_perm Q (S (size (states c3))) c3 m Hok3 ltac:(lia))
        as (c' & m' & -> & Hok' & _ & Hw' & _). simpl. by eexists _, _, _.
    + destruct Hr as [Ha Hst]. eexists _, _, _. split; [done|]. split; [done|]. split; [|done].
      apply Hdrop; [done|done|apply Hsh4..].
Qed.
End Insert.
