(* ===== verification/FragmentTheorems.v ===== *)
(** * Theorems on the fragment cache ([src/src/capture/fragment.rs])

    Whole runs: any arrivals at a new cache, and the fragments of one datagram
    in any order. *)

From stdpp Require Import fin_maps sorting.
From S2P Require Import Prelude BTree Model Fragment FragmentSpec.

#[local] Arguments evict_loop : simpl never.

(** One call of [insert]. *)
Record arrival := {
  ar_now : Z;
  ar_key : FragmentKey;
  ar_offset : Z;
  ar_piece : FragmentPiece;
  ar_wire : Z
}.

Section Runs.
Context (iter : gmap FragmentKey FragmentState -> list (FragmentKey * FragmentState)).
Hypothesis iter_perm : forall m, iter m ≡ₚ map_to_list m.

Definition feed (c : FragmentCache) (a : arrival)
  : option (FragmentInsert * FragmentMaintenance * FragmentCache) :=
  insert iter c (ar_now a) (ar_key a) (ar_offset a) (piece_more (ar_piece a))
    (piece_data (ar_piece a)) (ar_wire a).

Fixpoint feed_all (c : FragmentCache) (l : list arrival) : option (list FragmentInsert * FragmentCache) :=
  match l with
  | [] => Some ([], c)
  | a :: l =>
      '(r, _, c) ← feed c a;
      '(rs, c) ← feed_all c l;
      Some (r :: rs, c)
  end.

(** The fragment was received: it is one of the arrivals [l]. *)
Definition received (l : list arrival) (key : FragmentKey) (k : Z) (p : FragmentPiece) : Prop :=
  exists a, In a l /\ ar_key a = key /\ ar_offset a = k /\ ar_piece a = p.

Lemma cache_ok_mono (Q Q' : FragmentKey -> Z -> FragmentPiece -> Prop) c :
  (forall key k p, Q key k p -> Q' key k p) -> cache_ok Q c -> cache_ok Q' c.
Proof.
  intros HQ []. split; try done. intros key s Hs. destruct (co_states _ _ Hs). split; try done.
  intros k p Hin. destruct (so_piece k p Hin) as (?&?&?). auto.
Qed.

Lemma assembled_mono (Q Q' : Z -> FragmentPiece -> Prop) d :
  (forall k p, Q k p -> Q' k p) -> assembled Q d -> assembled Q' d.
Proof. intros HQ (ps & H1 & H2 & H3 & H4 & H5). exists ps. split; [done|]. split; [done|]. split; [done|].
  split; [|done]. intros k p Hin. by apply HQ, H4. Qed.

Lemma feed_piece a : {| piece_data := piece_data (ar_piece a); piece_more := piece_more (ar_piece a) |} = ar_piece a.
Proof. by destruct a as [??? []]. Qed.

Lemma feed_all_ok l c past :
  cache_ok (received past) c -> within_limits c -> Forall (fun a => 0 <= ar_offset a) l ->
  exists rs c', feed_all c l = Some (rs, c') /\ cache_ok (received (past ++ l)) c' /\ within_limits c' /\
    forall i a d w, rs !! i = Some (Complete d w) -> l !! i = Some a ->
      assembled (received (past ++ take (S i) l) (ar_key a)) d.
Proof.
  revert c past. induction l as [|a l IH]; simpl; intros c past Hok Hw Hl.
  { eexists _, _. split; [done|]. rewrite app_nil_r. by split; [|split]. }
  apply Forall_cons in Hl as [Ha Hl]. unfold feed.
  destruct (insert_ok iter iter_perm (received (past ++ [a])) c (ar_now a) (ar_key a) (ar_offset a)
    (piece_more (ar_piece a)) (piece_data (ar_piece a)) (ar_wire a))
    as (r & m & c1 & -> & Hok1 & Hw1 & Hr); [|done|done| |].
  { eapply cache_ok_mono; [|done]. intros key k p (x & ? & ?). exists x. split; [|done].
    apply in_app_iff. by left. }
  { rewrite feed_piece. exists a. split; [|done]. apply in_app_iff. right. by left. }
  simpl. destruct (IH c1 (past ++ [a]) Hok1 Hw1 Hl) as (rs & c' & -> & Hok' & Hw' & Hrs).
  rewrite <- app_assoc in Hok'. eexists _, _. split; [done|]. split; [done|]. split; [done|].
  intros [|i] b d w; simpl.
  - intros [= ->] [= <-]. done.
  - intros H1 H2. specialize (Hrs i b d w H1 H2). by rewrite <- app_assoc in Hrs.
Qed.

Lemma new_cache_ok Q now mb md t :
  mb <= 2 ^ 62 -> cache_ok Q (FragmentCache_new now mb md t) /\ within_limits (FragmentCache_new now mb md t).
Proof.
  intros Hmb. split.
  - split; simpl; [done|done|lia|lia].
  - split; simpl; [lia|]. rewrite map_size_empty. simpl. lia.
Qed.

(** C12. The cache never fails, stays within its byte and datagram limits, and what
    it completes is genuine: over any arrivals at a new cache, a completed
    datagram is the gap-free concatenation, from offset 0 to a final fragment,
    of fragments received under the same key. *)
Theorem completed_is_received l now mb md t :
  mb <= 2 ^ 62 -> Forall (fun a => 0 <= ar_offset a) l ->
  exists rs c', feed_all (FragmentCache_new now mb md t) l = Some (rs, c') /\ within_limits c' /\
    forall i a d w, rs !! i = Some (Complete d w) -> l !! i = Some a ->
      assembled (received (take (S i) l) (ar_key a)) d.
Proof.
  intros Hmb Hl. destruct (new_cache_ok (received []) now mb md t Hmb) as [Hok Hw].
  destruct (feed_all_ok l _ [] Hok Hw Hl) as (rs & c' & ? & ? & ? & ?). by exists rs, c'.
Qed.

(** ** A fragment that fits its datagram *)

Definition completeb (s : FragmentState) : bool :=
  match total_len s, contiguous_end 0 (pieces s) with
  | Some t, Some e => e =? t
  | _, _ => false
  end.

Lemma try_complete_eq c key s :
  states c !! key = Some s ->
  try_complete c key =
    if completeb s
    then (Complete (payload_of (pieces s)) (wire_bytes s),
          set_states c (delete key (states c)) (sat_sub (cache_bytes c) (st_bytes s)))
    else (Pending, c).
Proof.
  intros Hs. unfold try_complete, completeb. rewrite Hs.
  destruct (total_len s); [|done]. destruct (contiguous_end _ _) as [e|]; [|done].
  by destruct (e =? _).
Qed.

(** [p] at [k] is compatible with the pieces received so far. *)
Record fits (s : FragmentState) (k : Z) (p : FragmentPiece) : Prop := {
  fit_new : bt_get k (pieces s) = None;
  fit_disjoint : forall k' p', In (k', p') (pieces s) ->
    (k' < k -> k' + blen (piece_data p') <= k) /\ (k < k' -> k + blen (piece_data p) <= k');
  fit_final : piece_more p = false ->
    (total_len s = None \/ total_len s = Some (k + blen (piece_data p))) /\
    forall k' p', In (k', p') (pieces s) -> k' + blen (piece_data p') <= k + blen (piece_data p);
  fit_inner : piece_more p = true ->
    (forall t, total_len s = Some t -> k + blen (piece_data p) < t) /\
    piece_data p <> [] /\ blen (piece_data p) mod 8 = 0
}.

Lemma apply_piece_fits Q s now k p wire :
  state_ok Q s -> Q k p -> 0 <= k -> k + blen (piece_data p) <= 65535 -> st_bytes s <= 2 ^ 62 + 256 ->
  fits s k p ->
  exists s', apply_piece s now k (piece_more p) (piece_data p) wire (k + blen (piece_data p)) =
      (s', Added (charge p)) /\
    state_ok Q s' /\ pieces s' = bt_insert k p (pieces s) /\ st_bytes s' = st_bytes s + charge p /\
    last_seen s' = now /\ wire_bytes s' = sat_add (wire_bytes s) wire.
Proof.
  intros Hs HQ Hk He Hb [Hn Hd Hf Hi]. unfold apply_piece.
  destruct (bound_check_pass Q s now (piece_more p) (k + blen (piece_data p)) Hs Hf) as [s1 Hbc].
  { intros Hm. by apply Hi. }
  rewrite Hbc. pose proof (bound_check_frame _ _ _ _ _ _ Hbc) as (Hp & Hbb & Hw & Hl).
  destruct (bound_check_None Q s now _ _ s1 Hs Hbc) as (Ht & _ & _).
  assert (s1 = set_total s now (total_len s1)) as Hs1 by (destruct s1; simpl in *; congruence || by subst).
  rewrite Hp, Hn. pose proof (blen_nonneg (piece_data p)).
  assert (overlap_check s1 k (k + blen (piece_data p)) = false) as ->.
  { unfold overlap_check. rewrite Hp. apply (overlap_check_false Q); [done|done|lia|done]. }
  assert ({| piece_data := piece_data p; piece_more := piece_more p |} = p) as -> by by destruct p.
  rewrite Hs1.
  destruct (add_piece_ok Q s k p wire (total_len s1) now Hs HQ Hk He Hb Hn Hd Ht)
    as (s' & -> & ? & ? & _ & ? & ? & ?).
  { rewrite Ht. intros Hm. rewrite Hm. by destruct (Hf Hm) as [[?|?] _]; [left|right]. }
  by exists s'.
Qed.

(** How the cache looks before the fragment: the datagram is there and fresh, or new. *)
Inductive stored (c : FragmentCache) (now : Z) (key : FragmentKey) : FragmentState -> Z -> nat -> Prop :=
  | stored_old s : states c !! key = Some s -> is_expired now (timeout c) s = false ->
      stored c now key s 0 0
  | stored_new : states c !! key = None ->
      stored c now key (FragmentState_new now) FRAGMENT_DATAGRAM_OVERHEAD 1.

Lemma stored_opened Q c c0 now key s b n :
  cache_ok Q c0 -> stored c now key s b n -> shrinks c c0 ->
  (forall k s, states c !! k = Some s -> is_expired now (timeout c) s = false -> states c0 !! k = Some s) ->
  opened c0 now key = s /\ (b = 0 /\ n = 0%nat /\ states c0 !! key = Some s \/
    b = FRAGMENT_DATAGRAM_OVERHEAD /\ n = 1%nat /\ states c0 !! key = None).
Proof.
  intros Hok Hst Hsh Hkeep. unfold opened. destruct Hst as [s Hs He|Hs].
  - rewrite (Hkeep _ _ Hs He). by auto.
  - assert (states c0 !! key = None) as ->; [|by auto]. eapply lookup_weaken_None; [done|apply Hsh].
Qed.

Lemma insert_fits Q c now key k p wire s b n :
  cache_ok Q c -> within_limits c -> stored c now key s b n ->
  Q key k p -> 0 <= k -> k + blen (piece_data p) <= 65535 -> fits s k p ->
  cache_bytes c + b + charge p <= max_bytes c -> Z.of_nat (size (states c) + n) <= max_datagrams c ->
  exists m s' c', insert iter c now key k (piece_more p) (piece_data p) wire =
      Some (if completeb s' then Complete (payload_of (pieces s')) (wire_bytes s') else Pending, m, c') /\
    state_ok (Q key) s' /\ pieces s' = bt_insert k p (pieces s) /\ last_seen s' = now /\
    wire_bytes s' = sat_add (wire_bytes s) wire /\
    (completeb s' = false -> cache_ok Q c' /\ within_limits c' /\ states c' !! key = Some s' /\
      cache_bytes c' <= cache_bytes c + b + charge p /\ (size (states c') <= size (states c) + n)%nat /\
      max_bytes c' = max_bytes c /\ max_datagrams c' = max_datagrams c /\ timeout c' = timeout c).
Proof.
  intros Hok Hw Hst HQ Hk He Hfit Hroom Hcount. unfold insert.
  destruct (maintenance_ok iter iter_perm Q c now Hok) as (c0 & m & -> & Hok0 & Hsh & Hkeep).
  pose proof (shrinks_within _ _ Hsh Hw) as Hw0. pose proof (shrinks_size _ _ Hsh).
  destruct (stored_opened Q c c0 now key s b n Hok0 Hst Hsh Hkeep) as [Hopen Hcase].
  destruct Hsh as [_ Hshb Hshm Hshd Hsht]. pose proof (blen_nonneg (piece_data p)). cbv zeta.
  rewrite (proj2 (Z.ltb_ge u64_MAX _)), (proj2 (Z.ltb_ge 65535 _)) by (unfold u64_MAX; lia). simpl.
  assert ((piece_more p && (is_empty (piece_data p) || negb (blen (piece_data p) mod 8 =? 0))) = false) as ->.
  { destruct (piece_more p) eqn:Em; [|done]. destruct (fit_inner _ _ _ Hfit Em) as (_ & H1 & H2).
    rewrite H2. by destruct (piece_data p). }
  set (c1 := match states c0 !! key with Some _ => c0 | None => _ end).
  assert (cache_bytes c1 = cache_bytes c0 + b /\ size (states c1) = (size (states c0) + n)%nat) as [Hb1 Hn1].
  { pose proof (cache_room Q c0 Hok0 Hw0).
    destruct Hcase as [(-> & -> & Hc)|(-> & -> & Hc)]; unfold c1; rewrite Hc; simpl.
    - split; lia.
    - rewrite map_size_insert_None by done. unfold FRAGMENT_DATAGRAM_OVERHEAD.
      rewrite sat_add_small by (unfold u64_MAX; lia). lia. }
  destruct (open_ok Q c0 now key c1 Hok0 Hw0 eq_refl) as (Hok1 & Hk1 & _ & Hmx & Hdg & Hto & Hsb & Hcb & _).
  clearbody c1. rewrite Hopen in *. rewrite Hk1. simpl.
  pose proof (co_states _ _ Hok1 _ _ Hk1) as Hs. simpl in Hs.
  destruct (apply_piece_fits (Q key) s now k p wire Hs HQ Hk He Hsb Hfit)
    as (s' & -> & Hs' & Hp & Hsb' & Hl & Hwire).
  assert (charge p <= 65535 + 64) by (unfold charge, FRAGMENT_PIECE_OVERHEAD; lia).
  simpl. rewrite (sat_add_small (cache_bytes c1)) by (unfold u64_MAX; lia).
  set (c3 := set_states _ _ _).
  assert (cache_ok Q c3) as Hok3 by (apply (store_ok Q c1 key s); [done|done|done|lia]).
  assert (states c3 !! key = Some s') as Hk3 by apply lookup_insert_eq.
  rewrite (try_complete_eq c3 key s' Hk3). destruct (completeb s') eqn:Ec.
  { eexists _, s', _. split; [by rewrite Ec|]. do 4 (split; [done|]). by rewrite Ec. }
  assert (within_limits c3) as Hw3.
  { split; simpl; rewrite ?Hmx, ?Hdg, ?Hshm, ?Hshd; [lia|].
    rewrite map_size_insert_Some by eauto. lia. }
  destruct (evict_loop_ok iter iter_perm Q (S (size (states c3))) c3 m Hok3 ltac:(lia))
    as (c' & m' & -> & Hok' & _ & Hw' & Heq). rewrite (Heq Hw3) in *. simpl.
  eexists _, s', c3. split; [by rewrite Ec|]. do 4 (split; [done|]). intros _. split; [done|]. split; [done|].
  split; [done|]. simpl. rewrite map_size_insert_Some by eauto. split; [lia|]. split; [lia|].
  by rewrite Hmx, Hdg, Hto.
Qed.

(** ** The fragments of one datagram *)

(** [fs] cuts a datagram of [total] bytes into fragments as RFC 791 asks: all but
    the last carry a multiple of eight bytes and the more-fragments flag. *)
Record fragmentation (fs : btree FragmentPiece) (total : Z) : Prop := {
  fr_adjacent : adjacent 0 fs total;
  fr_bound : total <= 65535;
  fr_some : fs <> [];
  fr_piece : forall k p, In (k, p) fs -> piece_data p <> [] /\
    piece_more p = negb (k + blen (piece_data p) =? total) /\
    (piece_more p = true -> blen (piece_data p) mod 8 = 0)
}.

Lemma adjacent_above o fs t :
  adjacent o fs t -> (forall k p, In (k, p) fs -> piece_data p <> []) -> bt_above (o - 1) fs.
Proof.
  revert o. induction fs as [|[k p] fs IH]; simpl; intros o H Hne; [done|].
  destruct H as [-> H]. split; [lia|].
  pose proof (IH _ H (fun k p' Hin => Hne k p' (or_intror Hin))) as Ha.
  pose proof (blen_pos _ (Hne o p (or_introl eq_refl))). eapply bt_above_weaken; [|exact Ha]. lia.
Qed.

Lemma adjacent_In o fs t k p :
  adjacent o fs t -> In (k, p) fs -> o <= k /\ k + blen (piece_data p) <= t.
Proof.
  revert o. induction fs as [|[k0 p0] fs IH]; simpl; intros o H Hin; [done|].
  destruct H as [-> H]. pose proof (blen_nonneg (piece_data p0)). destruct Hin as [[= -> ->]|Hin].
  - pose proof (adjacent_length _ _ _ H). pose proof (blen_nonneg (payload_of fs)). lia.
  - destruct (IH _ H Hin). lia.
Qed.

Lemma adjacent_disjoint o fs t k p k' p' :
  adjacent o fs t -> In (k, p) fs -> In (k', p') fs -> k < k' -> k + blen (piece_data p) <= k'.
Proof.
  revert o. induction fs as [|[k0 p0] fs IH]; simpl; intros o H Hin Hin' Hlt; [done|].
  destruct H as [-> H]. destruct Hin as [[= -> ->]|Hin], Hin' as [[= -> ->]|Hin'].
  - lia.
  - apply (adjacent_In _ _ _ _ _ H Hin').
  - pose proof (adjacent_In _ _ _ _ _ H Hin). pose proof (blen_nonneg (piece_data p')). lia.
  - by eapply IH.
Qed.

Lemma adjacent_last o fs t :
  adjacent o fs t -> fs <> [] -> exists k p, In (k, p) fs /\ k + blen (piece_data p) = t.
Proof.
  revert o. induction fs as [|[k0 p0] fs IH]; simpl; intros o H Hne; [done|].
  destruct H as [-> H]. destruct fs as [|e fs].
  - simpl in H. exists o, p0. auto.
  - destruct (IH _ H ltac:(done)) as (k & p & ? & ?). exists k, p. auto.
Qed.

Lemma bt_insert_perm {V} k (v : V) m : bt_get k m = None -> bt_insert k v m ≡ₚ (k, v) :: m.
Proof.
  induction m as [|[k' v'] m IH]; simpl; [done|]. destruct (k =? k') eqn:E; [done|]. intros H.
  destruct (k <? k'); [done|]. rewrite IH by done. apply Permutation_swap.
Qed.

Lemma sorted_perm_eq {V} (m1 m2 : btree V) : bt_sorted m1 -> bt_sorted m2 -> m1 ≡ₚ m2 -> m1 = m2.
Proof.
  revert m2. induction m1 as [|[k1 v1] m1 IH]; intros m2 H1 H2 Hp.
  { by apply Permutation_nil in Hp as ->. }
  destruct m2 as [|[k2 v2] m2]; [by apply Permutation_sym, Permutation_nil in Hp|].
  assert ((k1, v1) = (k2, v2)) as [= -> ->].
  { assert (In (k1, v1) ((k2, v2) :: m2)) as Hi1 by (eapply Permutation_in; [done|by left]).
    assert (In (k2, v2) ((k1, v1) :: m1)) as Hi2
      by (eapply Permutation_in; [by apply Permutation_sym|by left]).
    destruct Hi1 as [|Hi1]; [done|]. destruct Hi2 as [|Hi2]; [done|]. simpl in *.
    pose proof (bt_above_In _ _ _ _ H1 Hi2). pose proof (bt_above_In _ _ _ _ H2 Hi1). lia. }
  f_equal. apply IH; [by eapply bt_above_sorted..|]. by apply Permutation_cons_inv in Hp.
Qed.

Lemma charges_perm m1 m2 : m1 ≡ₚ m2 -> charges m1 = charges m2.
Proof. induction 1 as [|[??]|[??] [??]|]; simpl; lia. Qed.

Lemma payload_length_perm m1 m2 : m1 ≡ₚ m2 -> blen (payload_of m1) = blen (payload_of m2).
Proof.
  unfold payload_of. induction 1 as [|[??]|[??] [??]|]; simpl; rewrite ?blen_app; lia.
Qed.

Definition frag_of (a : arrival) : Z * FragmentPiece := (ar_offset a, ar_piece a).

Definition anything : FragmentKey -> Z -> FragmentPiece -> Prop := fun _ _ _ => True.

Section Datagram.
Context (key : FragmentKey) (fs : btree FragmentPiece) (total : Z).
Hypothesis Hfs : fragmentation fs total.

Lemma fs_sorted : bt_sorted fs.
Proof.
  destruct Hfs as [Ha _ _ Hp]. eapply bt_above_sorted, adjacent_above; [exact Ha|].
  intros k p Hin. by destruct (Hp k p Hin).
Qed.

(** The state holds part of the datagram. *)
Record holds (s : FragmentState) (got : btree FragmentPiece) : Prop := {
  ho_ok : state_ok (anything key) s;
  ho_perm : pieces s ≡ₚ got
}.

Lemma holds_total s got rest t :
  holds s got -> got ++ rest ≡ₚ fs -> total_len s = Some t -> t = total.
Proof.
  intros [Hok Hp] Hperm Ht. destruct (so_total _ _ Hok t Ht) as (k & p & Hin & Hm & <-).
  assert (In (k, p) fs) as Hf.
  { apply (Permutation_in _ Hperm), in_app_iff. left. by apply (Permutation_in _ Hp). }
  destruct (fr_piece _ _ Hfs k p Hf) as (_ & Hmore & _). rewrite Hm in Hmore.
  symmetry in Hmore. reflect_bools. done.
Qed.

(** It is complete exactly when nothing is missing. *)
Lemma holds_complete s got rest :
  holds s got -> got ++ rest ≡ₚ fs -> completeb s = is_empty rest.
Proof.
  intros Hh Hperm. pose proof (holds_total s got rest) as Htot. destruct Hh as [Hok Hp].
  assert (forall k p, In (k, p) (pieces s) -> 0 <= k /\ k + blen (piece_data p) <= 65535) as Hb.
  { intros k p Hin. destruct (so_piece _ _ Hok _ _ Hin) as (?&?&_). done. }
  unfold completeb. destruct rest as [|[k p] rest]; simpl.
  - rewrite app_nil_r in Hperm. assert (pieces s = fs) as Heq.
    { apply sorted_perm_eq; [apply Hok|apply fs_sorted|]. by rewrite Hp. }
    destruct (adjacent_last _ _ _ (fr_adjacent _ _ Hfs) (fr_some _ _ Hfs)) as (k & p & Hin & He).
    destruct (fr_piece _ _ Hfs k p Hin) as (_ & Hm & _). rewrite He, Z.eqb_refl in Hm.
    rewrite Heq in *. rewrite (so_final _ _ Hok k p) by (rewrite ?Heq; done).
    rewrite (proj2 (contiguous_end_adjacent 0 fs total Hb) (fr_adjacent _ _ Hfs)).
    by rewrite He, Z.eqb_refl.
  - destruct (total_len s) as [t|] eqn:Et; [|done]. rewrite (Htot t) by done.
    destruct (contiguous_end 0 (pieces s)) as [e|] eqn:Ec; [|done].
    apply (contiguous_end_adjacent _ _ _ Hb), adjacent_length in Ec.
    pose proof (adjacent_length _ _ _ (fr_adjacent _ _ Hfs)) as Hl.
    pose proof (payload_length_perm _ _ Hperm) as Hpl.
    rewrite (payload_length_perm _ _ Hp) in Ec.
    unfold payload_of in *. rewrite map_app, concat_app, blen_app in Hpl. simpl in Hpl.
    rewrite blen_app in Hpl.
    destruct (fr_piece _ _ Hfs k p) as (Hne & _).
    { apply (Permutation_in _ Hperm), in_app_iff. right. by left. }
    pose proof (blen_pos _ Hne).
    pose proof (blen_nonneg (concat (map (fun '(_, p) => piece_data p) rest))).
    apply Z.eqb_neq. lia.
Qed.

Lemma holds_fits s got k p rest :
  holds s got -> got ++ (k, p) :: rest ≡ₚ fs -> fits s k p.
Proof.
  intros Hh Hperm. pose proof (holds_total s got ((k, p) :: rest)) as Htot. destruct Hh as [Hok Hp].
  assert (In (k, p) fs) as Hin.
  { apply (Permutation_in _ Hperm), in_app_iff. right. by left. }
  assert (forall k' p', In (k', p') (pieces s) -> In (k', p') fs) as Hsub.
  { intros k' p' H. apply (Permutation_in _ Hperm), in_app_iff. left. by apply (Permutation_in _ Hp). }
  assert (bt_get k (pieces s) = None) as Hget.
  { destruct (bt_get k (pieces s)) as [p'|] eqn:Eg; [|done]. exfalso. apply bt_get_Some_In in Eg.
    pose proof (bt_get_In _ _ _ fs_sorted Hin) as G1.
    pose proof (bt_get_In _ _ _ fs_sorted (Hsub _ _ Eg)) as G2. simplify_eq.
    assert (NoDup fs) as Hnd.
    { eapply (NoDup_fmap_1 fst). apply NoDup_ListNoDup. pose proof fs_sorted as Hs.
      clear -Hs. assert (forall lo, bt_above lo fs -> List.NoDup (fst <$> fs)) as Hab.
      { induction fs as [|[k v] m IH]; simpl; intros lo H; [constructor|]. destruct H as [_ H].
        constructor; [|by apply (IH (bt_above_sorted _ _ H) k)].
        intros ([k' v'] & Hk & Hin)%in_map_iff. simpl in Hk. subst.
        pose proof (bt_above_In _ _ _ _ H Hin). lia. }
      destruct fs as [|[k v] m]; [constructor|]. apply (Hab (k - 1)). simpl in *. split; [lia|done]. }
    rewrite <- Hperm, <- Hp in Hnd. apply NoDup_app in Hnd as (_ & Hd & _).
    apply (Hd (k, p)); [by apply list_elem_of_In|by left]. }
  destruct (fr_piece _ _ Hfs k p Hin) as (Hne & Hm & H8).
  pose proof (fr_adjacent _ _ Hfs) as Ha. split; [done| | |].
  - intros k' p' H%Hsub. split; intros; by eapply adjacent_disjoint.
  - intros Hf. rewrite Hf in Hm. symmetry in Hm. reflect_bools. rewrite Hm. split.
    + destruct (total_len s) as [t|] eqn:Et; [right|by left]. by rewrite (Htot t).
    + intros k' p' H%Hsub. by apply (adjacent_In _ _ _ _ _ Ha).
  - intros Ht. split; [|auto]. intros t Et. rewrite (Htot t) by done.
    rewrite Ht in Hm. symmetry in Hm. reflect_bools.
    pose proof (adjacent_In _ _ _ _ _ Ha Hin). lia.
Qed.

(** All fragments arrive within one timeout of [start]. *)
Definition on_time (start : Z) (c : FragmentCache) (a : arrival) : Prop :=
  ar_key a = key /\ start <= ar_now a < start + timeout c.

(** The cache has room for [n] more datagrams and the pieces [rest]. *)
Definition has_room (c : FragmentCache) (b : Z) (n : nat) (rest : btree FragmentPiece) : Prop :=
  cache_bytes c + b + charges rest <= max_bytes c /\
  Z.of_nat (size (states c) + n) <= max_datagrams c.

Lemma feed_step c a got rest s b n :
  cache_ok anything c -> within_limits c -> stored c (ar_now a) key s b n -> ar_key a = key ->
  holds s got -> got ++ frag_of a :: rest ≡ₚ fs -> has_room c b n (frag_of a :: rest) ->
  exists m s' c', feed c a = Some (if is_empty rest then Complete (payload_of fs) (wire_bytes s')
                                   else Pending, m, c') /\
    wire_bytes s' = sat_add (wire_bytes s) (ar_wire a) /\
    (rest <> [] -> cache_ok anything c' /\ within_limits c' /\ states c' !! key = Some s' /\
      last_seen s' = ar_now a /\ timeout c' = timeout c /\ holds s' (got ++ [frag_of a]) /\
      has_room c' 0 0 rest).
Proof.
  intros Hok Hw Hst Hkey Hh Hperm [Hroom Hcount]. unfold feed. rewrite Hkey.
  assert (In (frag_of a) fs) as Hin.
  { apply (Permutation_in _ Hperm), in_app_iff. right. by left. }
  pose proof (adjacent_In _ _ _ _ _ (fr_adjacent _ _ Hfs) Hin) as [Hlo Hhi].
  pose proof (fr_bound _ _ Hfs). pose proof (charges_nonneg rest). simpl in Hroom.
  pose proof (holds_fits s got (ar_offset a) (ar_piece a) rest Hh Hperm) as Hfit.
  destruct (insert_fits anything c (ar_now a) key (ar_offset a) (ar_piece a)
    (ar_wire a) s b n) as (m & s' & c' & -> & Hs' & Hp' & Hl & Hwire & Hrest); try done; try lia.
  assert (holds s' (got ++ [frag_of a])) as Hh'.
  { split; [done|]. rewrite Hp', bt_insert_perm by apply Hfit.
    rewrite (ho_perm _ _ Hh). apply Permutation_cons_append. }
  assert ((got ++ [frag_of a]) ++ rest ≡ₚ fs) as Hperm' by (by rewrite <- app_assoc).
  pose proof (holds_complete s' _ _ Hh' Hperm') as Hc. rewrite Hc in *.
  exists m, s', c'. split; [|split; [done|]].
  - destruct rest; [|done]. assert (pieces s' = fs) as ->; [|done].
    apply sorted_perm_eq; [apply Hs'|apply fs_sorted|].
    rewrite app_nil_r in Hperm'. by rewrite (ho_perm _ _ Hh').
  - intros Hne. destruct Hrest as (H1 & H2 & H3 & H4 & H5 & H6 & H7 & H8).
    { by destruct rest. }
    do 6 (split; [done|]). split; rewrite ?H6, ?H7; lia.
Qed.

Lemma on_time_fresh start c c' a s :
  on_time start c a -> timeout c' = timeout c -> start <= last_seen s ->
  is_expired (ar_now a) (timeout c') s = false.
Proof. intros [_ H] -> Hl. apply Z.leb_gt. unfold sat_sub. lia. Qed.

Lemma feed_rest start c0 l c a got s b n :
  cache_ok anything c -> within_limits c -> stored c (ar_now a) key s b n ->
  timeout c = timeout c0 -> Forall (on_time start c0) (a :: l) ->
  holds s got -> got ++ map frag_of (a :: l) ≡ₚ fs -> has_room c b n (map frag_of (a :: l)) ->
  exists rs c', feed_all c (a :: l) =
    Some (rs ++ [Complete (payload_of fs)
                   (fold_left (fun w a => sat_add w (ar_wire a)) (a :: l) (wire_bytes s))], c') /\
    Forall (eq Pending) rs.
Proof.
  revert c a got s b n. induction l as [|a' l IH]; intros c a got s b n Hok Hw Hst Hto Hon Hh Hperm Hroom.
  - destruct (feed_step c a got [] s b n) as (m & s' & c' & E & Hwire & _); try done.
    { by apply Forall_inv in Hon as [? _]. }
    exists [], c'. split; [|done]. change (feed_all c [a]) with
      ('(r, _, c) ← feed c a; Some ([r], c)). rewrite E. simpl. by rewrite Hwire.
  - pose proof (Forall_inv Hon) as [Hka Hna]. pose proof (Forall_inv_tail Hon) as Hon'.
    destruct (feed_step c a got (map frag_of (a' :: l)) s b n)
      as (m & s' & c' & E & Hwire & Hrest); try done.
    destruct Hrest as (H1 & H2 & H3 & H4 & H5 & H6 & H7); [done|].
    destruct (IH c' a' (got ++ [frag_of a]) s' 0 0%nat) as (rs & c2 & E2 & Hrs); try done.
    + constructor; [done|]. eapply on_time_fresh; [exact (Forall_inv Hon')|congruence|lia].
    + congruence.
    + by rewrite <- app_assoc.
    + exists (Pending :: rs), c2. split; [|by constructor].
      change (feed_all c (a :: a' :: l)) with
        ('(r, _, c) ← feed c a; '(rs, c) ← feed_all c (a' :: l); Some (r :: rs, c)).
      rewrite E. cbn -[feed_all fold_left]. rewrite E2. cbn -[fold_left]. by rewrite Hwire.
Qed.

(** C34. Reassembly round trip: the fragments of a datagram, arriving in any order
    within the timeout at a cache with room for them, give [Pending] for all but
    the last and then the original datagram, byte for byte. *)
Theorem fragments_reassemble start c l :
  cache_ok anything c -> within_limits c -> states c !! key = None ->
  map frag_of l ≡ₚ fs -> Forall (on_time start c) l ->
  has_room c FRAGMENT_DATAGRAM_OVERHEAD 1 fs ->
  exists rs c', feed_all c l =
    Some (rs ++ [Complete (payload_of fs) (fold_left (fun w a => sat_add w (ar_wire a)) l 0)], c') /\
    Forall (eq Pending) rs.
Proof.
  intros Hok Hw Hnone Hperm Hon [Hb Hn]. destruct l as [|a l].
  { exfalso. apply (fr_some _ _ Hfs). by apply Permutation_nil in Hperm. }
  eapply (feed_rest start c l c a [] (FragmentState_new (ar_now a))); try done.
  - by constructor.
  - split; [|done]. by rewrite (charges_perm _ _ Hperm).
Qed.
End Datagram.

(** An overlap is never resolved silently: a fragment that shares a byte with a
    buffered piece of its datagram, without being its exact duplicate, makes the
    cache drop the whole datagram. *)
Theorem overlap_drops_datagram Q c now key k p wire s k0 p0 :
  cache_ok Q c -> states c !! key = Some s -> is_expired now (timeout c) s = false ->
  In (k0, p0) (pieces s) -> (k0, p0) <> (k, p) ->
  k < k0 + blen (piece_data p0) -> k0 < k + blen (piece_data p) -> 0 <= k ->
  k + blen (piece_data p) <= u64_MAX ->
  exists r m c', insert iter c now key k (piece_more p) (piece_data p) wire = Some (r, m, c') /\
    (r = DroppedOverlap \/ r = DroppedInvalid) /\ states c' !! key = None.
Proof.
  intros Hok Hs He Hin Hne H1 H2 Hk Hmax. unfold insert.
  destruct (maintenance_ok iter iter_perm Q c now Hok) as (c0 & m & -> & Hok0 & Hsh & Hkeep).
  specialize (Hkeep _ _ Hs He). cbv zeta. rewrite (proj2 (Z.ltb_ge u64_MAX _)) by lia.
  assert (forall c key, states (remove_key c key) !! key = None) as Hrm.
  { intros c1 key1. unfold remove_key. destruct (states c1 !! key1) eqn:E; [|done].
    apply lookup_delete_eq. }
  destruct ((65535 <? _) || _) eqn:E2; [eexists _, _, _; split; [done|]; auto|].
  rewrite Hkeep. rewrite Hkeep. simpl. pose proof (co_states _ _ Hok0 _ _ Hkeep) as Hst. simpl in Hst.
  destruct (apply_piece s now k _ _ wire _) as [s' r] eqn:Ea.
  assert (exists rj, r = Rejected rj) as [rj ->].
  { unfold apply_piece in Ea. destruct (bound_check s now _ _) as [s1 [rj|]] eqn:Eb; [simplify_eq; eauto|].
    apply bound_check_frame in Eb as (Hp & _). rewrite Hp in Ea.
    destruct (bt_get k (pieces s)) as [ex|] eqn:Eg.
    - destruct (Bool.eqb (piece_more ex) (piece_more p) && bool_decide (piece_data ex = piece_data p))
        eqn:Ed; [|simplify_eq; eauto]. exfalso. reflect_bools.
      apply eqb_prop in H. apply bool_decide_eq_true in H0.
      assert (ex = p) as -> by (destruct ex, p; simpl in *; congruence).
      apply bt_get_Some_In in Eg. destruct (Z.lt_trichotomy k k0) as [Hl|[->|Hl]].
      + pose proof (so_disjoint _ _ Hst _ _ _ _ Eg Hin Hl). lia.
      + pose proof (bt_get_In _ _ _ (so_sorted _ _ Hst) Hin).
        pose proof (bt_get_In _ _ _ (so_sorted _ _ Hst) Eg). congruence.
      + pose proof (so_disjoint _ _ Hst _ _ _ _ Hin Eg Hl). lia.
    - assert (overlap_check s1 k (k + blen (piece_data p)) = true) as Hov;
        [|rewrite Hov in Ea; simplify_eq; eauto].
      apply not_false_iff_true. unfold overlap_check. rewrite Hp. intros Hov.
      pose proof (blen_nonneg (piece_data p)).
      apply (proj1 (overlap_check_false _ s k (k + blen (piece_data p)) Hst Eg ltac:(lia))) with (1 := Hov) in Hin as Hd.
      destruct (Z.lt_trichotomy k k0) as [Hl|[->|Hl]]; [lia| |lia].
      by apply (bt_get_None_In _ _ _ Eg) in Hin. }
  eexists _, _, _. split; [done|]. split; [|apply Hrm]. destruct rj; auto.
Qed.
End Runs.
