(* ===== verification/Decode.v ===== *)
(** * The packet decoder ([src/src/capture/parser.rs])

    Ethernet with VLAN tags, IPv4 and IPv6 with extension headers and fragments,
    TCP, UDP, and the tunnels VXLAN, GRE and IP-in-IP.  A method of
    [PacketDecoder] is a computation in the monad [dec]: it reads and changes the
    decoder, returns a value or an error ([bail!]), and [None] is a panic.  The
    fragment store is an interface, [FragmentStore]; [DecodeSpec.v] instantiates
    it with [SharedFragmentCache].  The clock that [insert] reads is the parameter
    [clock], one reading per call. *)

From stdpp Require Import strings.
From S2P Require Import Prelude BTree Model Fragment.

Definition MAX_TUNNEL_DEPTH : Z := 3.
Definition ETHERTYPE_IPV4 : Z := 0x0800.
Definition ETHERTYPE_IPV6 : Z := 0x86dd.
Definition ETHERTYPE_TEB : Z := 0x6558.

(** What the decoder needs of the fragment cache. *)
Class FragmentStore (Store : Type) := {
  store_insert : Store -> Z -> FragmentKey -> Z -> bool -> bytes -> Z ->
    option (FragmentInsert * FragmentMaintenance * Store)
}.

(** The counters of [Metrics] that the decoder increments. *)
Record Counters := {
  capture_truncated_packets : Z;
  ip_fragments_received : Z;
  ip_fragments_reassembled : Z;
  ip_fragment_overlap_drops : Z;
  ip_fragment_expired : Z;
  ip_fragment_evicted : Z
}.

Inductive InnerOutcome :=
  | IPacket (p : ParsedPacket)
  | IPendingFragment
  | IIgnored.

Inductive DecodeOutcome :=
  | DPacket (p : ParsedPacket)
  | DPendingFragment
  | DIgnored.

Record CapturedFrame := { cf_ts_ns : Z; cf_wire_len : Z; cf_data : bytes }.

(** ** Domain identifiers *)

Definition mix_domain (domain kind value : Z) : Z :=
  let z := Z.lxor (Z.lxor domain (rotate_left 64 kind 17))
             (wrapping_mul 64 value 0x9e3779b97f4a7c15) in
  let z := Z.lxor z (Z.shiftr z 30) in
  let z := wrapping_mul 64 z 0xbf58476d1ce4e5b9 in
  let z := Z.lxor z (Z.shiftr z 27) in
  let z := wrapping_mul 64 z 0x94d049bb133111eb in
  Z.lor (Z.lxor z (Z.shiftr z 31)) 1.

Definition mix_address (domain kind tag : Z) (ip : IpAddr) : Z :=
  match ip with
  | V4 o => mix_domain domain (Z.lxor kind tag) (from_be_bytes o)
  | V6 o =>
      let domain := mix_domain domain (Z.lxor kind tag) (from_be_bytes (take 8 o)) in
      mix_domain domain (Z.lxor kind (rotate_left 64 tag 7)) (from_be_bytes (drop 8 o))
  end.

Definition mix_tunnel_domain (domain kind : Z) (src dst : IpAddr) (id : Z) : Z :=
  let '(first, second) := if ip_le src dst then (src, dst) else (dst, src) in
  let domain := mix_domain domain kind id in
  let domain := mix_address domain kind 0x53524301 first in
  mix_address domain kind 0x44535402 second.

Section Decoder.
Context {Store : Type} `{FragmentStore Store}.
Context (clock : nat -> Z).

Record Decoder := {
  fragments : Store;
  metrics : option Counters;
  tunnel_decapsulation : bool;
  clock_reads : nat
}.

Definition set_metrics (d : Decoder) (m : option Counters) : Decoder :=
  {| fragments := fragments d; metrics := m; tunnel_decapsulation := tunnel_decapsulation d;
     clock_reads := clock_reads d |}.

Definition set_fragments (d : Decoder) (s : Store) : Decoder :=
  {| fragments := s; metrics := metrics d; tunnel_decapsulation := tunnel_decapsulation d;
     clock_reads := S (clock_reads d) |}.

(** ** The monad *)

Definition dec (A : Type) : Type := Decoder -> option (Decoder * (A + string)).

#[global] Instance dec_ret : MRet dec := fun A a d => Some (d, inl a).

#[global] Instance dec_bind : MBind dec := fun A B f m d =>
  match m d with
  | Some (d, inl a) => f a d
  | Some (d, inr e) => Some (d, inr e)
  | None => None
  end.

Definition bail {A} (e : string) : dec A := fun d => Some (d, inr e).

(** A checked access: out of bounds is a panic. *)
Definition lift {A} (o : option A) : dec A := fun d =>
  match o with Some a => Some (d, inl a) | None => None end.

Definition count (f : Counters -> Counters) : dec unit := fun d =>
  Some (set_metrics d (f <$> metrics d), inl tt).

Definition bump (x n : Z) : Z := wrapping_add 64 x n.

Definition mark_truncated : dec unit := count (fun c =>
  {| capture_truncated_packets := bump (capture_truncated_packets c) 1;
     ip_fragments_received := ip_fragments_received c;
     ip_fragments_reassembled := ip_fragments_reassembled c;
     ip_fragment_overlap_drops := ip_fragment_overlap_drops c;
     ip_fragment_expired := ip_fragment_expired c;
     ip_fragment_evicted := ip_fragment_evicted c |}).

Definition fragment_received : dec unit := count (fun c =>
  {| capture_truncated_packets := capture_truncated_packets c;
     ip_fragments_received := bump (ip_fragments_received c) 1;
     ip_fragments_reassembled := ip_fragments_reassembled c;
     ip_fragment_overlap_drops := ip_fragment_overlap_drops c;
     ip_fragment_expired := ip_fragment_expired c;
     ip_fragment_evicted := ip_fragment_evicted c |}).

Definition fragment_reassembled : dec unit := count (fun c =>
  {| capture_truncated_packets := capture_truncated_packets c;
     ip_fragments_received := ip_fragments_received c;
     ip_fragments_reassembled := bump (ip_fragments_reassembled c) 1;
     ip_fragment_overlap_drops := ip_fragment_overlap_drops c;
     ip_fragment_expired := ip_fragment_expired c;
     ip_fragment_evicted := ip_fragment_evicted c |}).

Definition fragment_overlap_drop : dec unit := count (fun c =>
  {| capture_truncated_packets := capture_truncated_packets c;
     ip_fragments_received := ip_fragments_received c;
     ip_fragments_reassembled := ip_fragments_reassembled c;
     ip_fragment_overlap_drops := bump (ip_fragment_overlap_drops c) 1;
     ip_fragment_expired := ip_fragment_expired c;
     ip_fragment_evicted := ip_fragment_evicted c |}).

Definition apply_fragment_maintenance (m : FragmentMaintenance) : dec unit := count (fun c =>
  {| capture_truncated_packets := capture_truncated_packets c;
     ip_fragments_received := ip_fragments_received c;
     ip_fragments_reassembled := ip_fragments_reassembled c;
     ip_fragment_overlap_drops := ip_fragment_overlap_drops c;
     ip_fragment_expired :=
       if expired m =? 0 then ip_fragment_expired c else bump (ip_fragment_expired c) (expired m);
     ip_fragment_evicted :=
       if evicted m =? 0 then ip_fragment_evicted c else bump (ip_fragment_evicted c) (evicted m) |}).

Definition insert_fragment (key : FragmentKey) (offset : Z) (more : bool) (payload : bytes)
  (wire_len : Z) : dec (FragmentInsert * FragmentMaintenance) := fun d =>
  match store_insert (fragments d) (clock (clock_reads d)) key offset more payload wire_len with
  | Some (r, m, s) => Some (set_fragments d s, inl (r, m))
  | None => None
  end.

Definition tunnels_enabled : dec bool := fun d => Some (d, inl (tunnel_decapsulation d)).

(** [b\[i\]] as a number, and big-endian reads of two and four bytes. *)
Definition read8 (b : bytes) (i : Z) : dec Z := x ← lift (index b i); mret (byte_val x).

Definition read16 (b : bytes) (i : Z) : dec Z :=
  x ← lift (index b i);
  y ← lift (index b (i + 1));
  mret (from_be_bytes [x; y]).

Definition read32 (b : bytes) (i : Z) : dec Z :=
  x ← lift (index b i);
  y ← lift (index b (i + 1));
  z ← lift (index b (i + 2));
  w ← lift (index b (i + 3));
  mret (from_be_bytes [x; y; z; w]).

Definition truncated {A} (msg : string) : dec A := _ ← mark_truncated; bail msg.

Definition bit (x m : Z) : bool := negb (Z.land x m =? 0).

(** ** Transport *)

Definition parse_tcp (ts_ns wire_len : Z) (src dst : IpAddr) (tcp : bytes) (l2_domain : Z)
  : dec ParsedPacket :=
  if blen tcp <? 20 then truncated "truncated tcp header"
  else
    src_port ← read16 tcp 0;
    dst_port ← read16 tcp 2;
    seq ← read32 tcp 4;
    ack ← read32 tcp 8;
    b12 ← read8 tcp 12;
    let data_offset := Z.shiftr b12 4 * 4 in
    if data_offset <? 20 then bail "invalid tcp data offset"
    else if blen tcp <? data_offset then truncated "truncated tcp options/header"
    else
      bits ← read8 tcp 13;
      let flags := {| fin := bit bits 0x01; syn := bit bits 0x02; rst := bit bits 0x04;
                      psh := bit bits 0x08; ack_flag := bit bits 0x10 |} in
      let '(key, direction) := canonical_with_domain src src_port dst dst_port Tcp l2_domain in
      payload ← lift (slice data_offset (blen tcp) tcp);
      mret {| p_ts_ns := ts_ns; p_key := key; p_direction := direction; p_seq := Some seq;
              p_ack := Some ack; p_flags := flags; p_payload := payload; p_wire_len := wire_len |}.

(** The three entry points a tunnel can lead back to. *)
Inductive Layer := Ethernet | Ipv4 | Ipv6.

(** The decoders one tunnel level further in. *)
Context (inner : Layer -> Z -> Z -> bytes -> Z -> Z -> dec InnerOutcome).

Definition decode_udp (ts_ns wire_len : Z) (src dst : IpAddr) (udp : bytes) (l2_domain depth : Z)
  : dec InnerOutcome :=
  if blen udp <? 8 then truncated "truncated udp header"
  else
    src_port ← read16 udp 0;
    dst_port ← read16 udp 2;
    udp_len ← read16 udp 4;
    if udp_len <? 8 then bail "invalid udp length"
    else if blen udp <? udp_len then truncated "truncated udp datagram"
    else
      tunnels ← tunnels_enabled;
      let plain : dec InnerOutcome :=
        let '(key, direction) := canonical_with_domain src src_port dst dst_port Udp l2_domain in
        payload ← lift (slice 8 udp_len udp);
        mret (IPacket {| p_ts_ns := ts_ns; p_key := key; p_direction := direction; p_seq := None;
                         p_ack := None; p_flags := TcpFlags_default; p_payload := payload;
                         p_wire_len := wire_len |}) in
      if tunnels && (depth <? MAX_TUNNEL_DEPTH) && ((dst_port =? 4789) || (dst_port =? 8472)) then
        vxlan ← lift (slice 8 udp_len udp);
        is_vxlan ← (if 8 <=? blen vxlan then b0 ← read8 vxlan 0; mret (bit b0 0x08) else mret false);
        if (is_vxlan : bool) then
          v4 ← read8 vxlan 4;
          v5 ← read8 vxlan 5;
          v6 ← read8 vxlan 6;
          let vni := Z.lor (Z.lor (Z.shiftl v4 16) (Z.shiftl v5 8)) v6 in
          let domain := mix_tunnel_domain l2_domain 0x56584c41 src dst vni in
          frame ← lift (slice 8 (blen vxlan) vxlan);
          inner Ethernet ts_ns wire_len frame domain (depth + 1)
        else plain
      else plain.

(** The source-route entries of a GRE header, up to the terminator. *)
Fixpoint gre_routing (fuel : nat) (gre : bytes) (offset : Z) : dec Z :=
  match fuel with
  | O => lift None
  | S fuel =>
      if blen gre <? offset + 4 then truncated "truncated GRE routing entry"
      else
        af ← read16 gre offset;
        len ← read8 gre (offset + 3);
        let offset := offset + 4 in
        if (af =? 0) && (len =? 0) then mret offset
        else if blen gre <? offset + len then truncated "truncated GRE routing data"
        else gre_routing fuel gre (offset + len)
  end.

Definition decode_gre (ts_ns wire_len : Z) (outer_src outer_dst : IpAddr) (gre : bytes)
  (l2_domain depth : Z) : dec InnerOutcome :=
  if MAX_TUNNEL_DEPTH <=? depth then mret IIgnored
  else if blen gre <? 4 then truncated "truncated GRE header"
  else
    flags ← read16 gre 0;
    let version := Z.land flags 0x0007 in
    if negb (version =? 0) then mret IIgnored
    else
      proto ← read16 gre 2;
      let offset := if bit flags 0xc000 then sat_add 4 4 else 4 in
      '(gre_key, offset) ←
        (if bit flags 0x2000 then
           if blen gre <? offset + 4 then truncated "truncated GRE key"
           else k ← read32 gre offset; mret (k, offset + 4)
         else mret (0, offset));
      let offset := if bit flags 0x1000 then sat_add offset 4 else offset in
      offset ← (if bit flags 0x4000 then gre_routing (S (length gre)) gre offset else mret offset);
      if blen gre <? offset then truncated "truncated GRE header"
      else
        let domain := mix_tunnel_domain l2_domain 0x47524520 outer_src outer_dst gre_key in
        body ← lift (slice offset (blen gre) gre);
        if proto =? ETHERTYPE_IPV4 then inner Ipv4 ts_ns wire_len body domain (depth + 1)
        else if proto =? ETHERTYPE_IPV6 then inner Ipv6 ts_ns wire_len body domain (depth + 1)
        else if proto =? ETHERTYPE_TEB then inner Ethernet ts_ns wire_len body domain (depth + 1)
        else mret IIgnored.

(** ** Internet layer *)

Definition decode_ip_payload (ts_ns wire_len : Z) (src dst : IpAddr) (protocol : Z)
  (payload : bytes) (l2_domain depth : Z) : dec InnerOutcome :=
  tunnels ← tunnels_enabled;
  let tunnel_ok := tunnels && (depth <? MAX_TUNNEL_DEPTH) in
  if protocol =? 6 then
    p ← parse_tcp ts_ns wire_len src dst payload l2_domain; mret (IPacket p)
  else if protocol =? 17 then decode_udp ts_ns wire_len src dst payload l2_domain depth
  else if (protocol =? 47) && tunnel_ok then
    decode_gre ts_ns wire_len src dst payload l2_domain depth
  else if (protocol =? 4) && tunnel_ok then
    let domain := mix_tunnel_domain l2_domain 0x49504950 src dst 4 in
    inner Ipv4 ts_ns wire_len payload domain (depth + 1)
  else if (protocol =? 41) && tunnel_ok then
    let domain := mix_tunnel_domain l2_domain 0x49504950 src dst 6 in
    inner Ipv6 ts_ns wire_len payload domain (depth + 1)
  else mret IIgnored.

(** Hands one fragment to the store; [finish] decodes a completed datagram. *)
Definition handle_fragment (key : FragmentKey) (offset : Z) (more : bool) (payload : bytes)
  (wire_len : Z) (finish : bytes -> Z -> dec InnerOutcome) : dec InnerOutcome :=
  _ ← fragment_received;
  '(result, maintenance) ← insert_fragment key offset more payload wire_len;
  _ ← apply_fragment_maintenance maintenance;
  match result with
  | Pending => mret IPendingFragment
  | DroppedOverlap => _ ← fragment_overlap_drop; mret IIgnored
  | DroppedInvalid => mret IIgnored
  | Complete payload wire_bytes => _ ← fragment_reassembled; finish payload wire_bytes
  end.

Definition decode_ipv4 (ts_ns wire_len : Z) (packet : bytes) (l2_domain depth : Z)
  : dec InnerOutcome :=
  if blen packet <? 20 then truncated "truncated ipv4 header"
  else
    b0 ← read8 packet 0;
    if negb (Z.shiftr b0 4 =? 4) then bail "invalid ipv4 version"
    else
      let ihl := Z.land b0 0x0f * 4 in
      if ihl <? 20 then bail "invalid ipv4 ihl"
      else if blen packet <? ihl then truncated "truncated ipv4 options/header"
      else
        total_len ← read16 packet 2;
        if total_len <? ihl then bail "invalid ipv4 total length"
        else if blen packet <? total_len then truncated "truncated ipv4 packet"
        else
          src ← lift (slice 12 16 packet);
          dst ← lift (slice 16 20 packet);
          protocol ← read8 packet 9;
          frag ← read16 packet 6;
          let offset := Z.land frag 0x1fff * 8 in
          let more := bit frag 0x2000 in
          payload ← lift (slice ihl total_len packet);
          if negb (offset =? 0) || more then
            id ← read16 packet 4;
            let key := {| version := 4; key_l2_domain := l2_domain; Fragment.src := V4 src;
                          Fragment.dst := V4 dst; frag_id := id; next_header := protocol |} in
            handle_fragment key offset more payload wire_len
              (fun payload wire_bytes =>
                 decode_ip_payload ts_ns wire_bytes (V4 src) (V4 dst) protocol payload l2_domain depth)
          else decode_ip_payload ts_ns wire_len (V4 src) (V4 dst) protocol payload l2_domain depth.

(** Where the walk over IPv6 extension headers stops: at a transport protocol
    or at a fragment header. *)
Inductive V6Stop := Transport (next offset : Z) | FragmentHeader (offset : Z).

Definition is_extension (next : Z) : bool := (next =? 0) || (next =? 43) || (next =? 60).

(** The header walk over [b], whose packet ends at [limit]; the loop of
    [decode_ipv6] and, with [reassembled], of [decode_ipv6_post_fragment]. *)
Fixpoint walk_headers (fuel : nat) (reassembled : bool) (b : bytes) (limit next offset : Z)
  : dec V6Stop :=
  match fuel with
  | O => lift None
  | S fuel =>
      if is_extension next then
        if limit <? offset + 2 then
          truncated (if reassembled then "truncated reassembled ipv6 extension" else "truncated ipv6 extension header")
        else
          next ← read8 b offset;
          l ← read8 b (offset + 1);
          let len := (l + 1) * 8 in
          if limit <? offset + len then
          truncated (if reassembled then "truncated reassembled ipv6 extension body" else "truncated ipv6 extension body")
          else walk_headers fuel reassembled b limit next (offset + len)
      else if next =? 51 then
        if limit <? offset + 2 then
          truncated (if reassembled then "truncated reassembled ipv6 auth header" else "truncated ipv6 auth header")
        else
          next ← read8 b offset;
          l ← read8 b (offset + 1);
          let len := (l + 2) * 4 in
          if limit <? offset + len then
          truncated (if reassembled then "truncated reassembled ipv6 auth body" else "truncated ipv6 auth body")
          else walk_headers fuel reassembled b limit next (offset + len)
      else if next =? 44 then mret (FragmentHeader offset)
      else mret (Transport next offset)
  end.

Definition decode_ipv6_post_fragment (ts_ns wire_len : Z) (src dst : IpAddr) (next : Z)
  (payload : bytes) (l2_domain depth : Z) : dec InnerOutcome :=
  stop ← walk_headers (S (length payload)) true payload (blen payload) next 0;
  match stop with
  | FragmentHeader _ => mret IIgnored
  | Transport next offset =>
      body ← lift (slice offset (blen payload) payload);
      decode_ip_payload ts_ns wire_len src dst next body l2_domain depth
  end.

Definition decode_ipv6 (ts_ns wire_len : Z) (packet : bytes) (l2_domain depth : Z)
  : dec InnerOutcome :=
  if blen packet <? 40 then truncated "truncated ipv6 header"
  else
    b0 ← read8 packet 0;
    if negb (Z.shiftr b0 4 =? 6) then bail "invalid ipv6 version"
    else
      payload_len ← read16 packet 4;
      let ip_len := sat_add 40 payload_len in
      if blen packet <? ip_len then truncated "truncated ipv6 packet"
      else
        src ← lift (slice 8 24 packet);
        dst ← lift (slice 24 40 packet);
        next ← read8 packet 6;
        stop ← walk_headers (S (length packet)) false packet ip_len next 40;
        match stop with
        | FragmentHeader offset =>
            if ip_len <? offset + 8 then truncated "truncated ipv6 fragment header"
            else
              frag_next ← read8 packet offset;
              frag ← read16 packet (offset + 2);
              let fragment_offset := Z.land frag 0xfff8 in
              let more := bit frag 1 in
              id ← read32 packet (offset + 4);
              fragment_payload ← lift (slice (offset + 8) ip_len packet);
              if (fragment_offset =? 0) && negb more then
                decode_ipv6_post_fragment ts_ns wire_len (V6 src) (V6 dst) frag_next
                  fragment_payload l2_domain depth
              else
                let key := {| version := 6; key_l2_domain := l2_domain; Fragment.src := V6 src;
                              Fragment.dst := V6 dst; frag_id := id; next_header := frag_next |} in
                handle_fragment key fragment_offset more fragment_payload wire_len
                  (fun payload wire_bytes =>
                     decode_ipv6_post_fragment ts_ns wire_bytes (V6 src) (V6 dst) frag_next payload
                       l2_domain depth)
        | Transport next offset =>
            if ip_len <? offset then bail "invalid ipv6 payload offset"
            else
              body ← lift (slice offset ip_len packet);
              decode_ip_payload ts_ns wire_len (V6 src) (V6 dst) next body l2_domain depth
        end.

(** ** Link layer *)

Definition is_vlan (ethertype : Z) : bool :=
  (ethertype =? 0x8100) || (ethertype =? 0x88a8) || (ethertype =? 0x9100) || (ethertype =? 0x9200).

(** At most [n] VLAN tags: the offset of the payload, its type and the domain. *)
Fixpoint vlan_tags (n : nat) (frame : bytes) (l3_offset ethertype domain : Z) : dec (Z * Z * Z) :=
  match n with
  | O => mret (l3_offset, ethertype, domain)
  | S n =>
      if is_vlan ethertype then
        if blen frame <? l3_offset + 4 then truncated "truncated vlan header"
        else
          tci ← read16 frame l3_offset;
          let domain := mix_domain domain 0x564c414e (Z.land tci 0x0fff) in
          ethertype ← read16 frame (l3_offset + 2);
          vlan_tags n frame (l3_offset + 4) ethertype domain
      else mret (l3_offset, ethertype, domain)
  end.

Definition decode_ethernet_bytes (ts_ns wire_len : Z) (frame : bytes) (inherited_domain depth : Z)
  : dec InnerOutcome :=
  if MAX_TUNNEL_DEPTH <? depth then mret IIgnored
  else if blen frame <? 14 then truncated "truncated ethernet header"
  else
    ethertype ← read16 frame 12;
    '(l3_offset, ethertype, domain) ← vlan_tags 4 frame 14 ethertype inherited_domain;
    l3 ← lift (slice l3_offset (blen frame) frame);
    if ethertype =? ETHERTYPE_IPV4 then decode_ipv4 ts_ns wire_len l3 domain depth
    else if ethertype =? ETHERTYPE_IPV6 then decode_ipv6 ts_ns wire_len l3 domain depth
    else mret IIgnored.

Definition decode_layer_body (l : Layer) : Z -> Z -> bytes -> Z -> Z -> dec InnerOutcome :=
  match l with
  | Ethernet => decode_ethernet_bytes
  | Ipv4 => decode_ipv4
  | Ipv6 => decode_ipv6
  end.
End Decoder.

Section Entry.
Context {Store : Type} `{FragmentStore Store}.
Context (clock : nat -> Z).

(** The knot: every tunnel level uses one unit of fuel; four are enough because
    the source stops at [MAX_TUNNEL_DEPTH]. *)
Fixpoint decode_layer (fuel : nat) (l : Layer) (ts_ns wire_len : Z) (b : bytes) (domain depth : Z)
  : dec InnerOutcome :=
  match fuel with
  | O => lift None
  | S fuel => decode_layer_body clock (decode_layer fuel) l ts_ns wire_len b domain depth
  end.

Definition decode (frame : CapturedFrame) : dec DecodeOutcome :=
  outcome ← decode_layer 4 Ethernet (cf_ts_ns frame) (cf_wire_len frame) (cf_data frame) 0 0;
  mret (match outcome with
        | IPacket p => DPacket p
        | IPendingFragment => DPendingFragment
        | IIgnored => DIgnored
        end).

(** [parse_ethernet_frame]: a fresh decoder without metrics ([stateless]). *)
Definition stateless (store : Store) : Decoder :=
  {| fragments := store; metrics := None; tunnel_decapsulation := true; clock_reads := 0 |}.

Definition parse_ethernet_frame (store : Store) (ts_ns wire_len : Z) (frame : bytes)
  : option (option ParsedPacket + string) :=
  match decode {| cf_ts_ns := ts_ns; cf_wire_len := wire_len; cf_data := frame |} (stateless store) with
  | Some (_, inl (DPacket p)) => Some (inl (Some p))
  | Some (_, inl _) => Some (inl None)
  | Some (_, inr e) => Some (inr e)
  | None => None
  end.
End Entry.
