(* ===== verification/DecodeSpec.v ===== *)
(** * What the decoder promises ([src/src/capture/parser.rs])

    A small program logic for [dec] shows that no frame makes the decoder panic
    or loop and that decoded packets are well formed; encoders written from the
    protocols' formats show what it decodes.  The clients of the fragment store
    rely on [FragmentStoreLaws] only, which [SharedFragmentCache] satisfies. *)

From stdpp Require Import fin_maps strings.
From S2P Require Import Prelude BTree Model Fragment FragmentSpec FragmentTheorems Decode.

(** ** The fragment store's contract *)

Class FragmentStoreLaws (Store : Type) `{FragmentStore Store} := {
  store_ok : Store -> Prop;
  store_insert_ok s now key offset more payload wire_len :
    store_ok s -> 0 <= offset ->
    exists r m s', store_insert s now key offset more payload wire_len = Some (r, m, s') /\
      store_ok s' /\
      match r with Complete data _ => blen data <= 65535 | _ => True end
}.

(** ** Well-formed packets *)

Definition port_ok (p : Z) : Prop := 0 <= p < 2 ^ 16.

Record packet_ok (p : ParsedPacket) : Prop := {
  pk_ports : port_ok (ep_port (fk_a (p_key p))) /\ port_ok (ep_port (fk_b (p_key p)));
  pk_order : endpoint_le (fk_a (p_key p)) (fk_b (p_key p)) = true;
  pk_domain : is_u64 (fk_l2_domain (p_key p));
  pk_seq : match p_seq p, p_ack p with
           | Some s, Some a => fk_protocol (p_key p) = Tcp /\ 0 <= s < 2 ^ 32 /\ 0 <= a < 2 ^ 32
           | None, None => fk_protocol (p_key p) = Udp
           | _, _ => False
           end
}.

Definition outcome_ok (o : InnerOutcome) : Prop :=
  match o with IPacket p => packet_ok p | _ => True end.

(** ** Domains *)

Lemma mix_domain_u64 d k v : is_u64 d -> is_u64 k -> is_u64 (mix_domain d k v).
Proof.
  intros Hd Hk. unfold mix_domain. apply u64_lor; [|by vm_compute].
  apply u64_lxor; [apply wrap_u64|]. apply u64_shiftr; [lia|apply wrap_u64].
Qed.

(** Tagged and tunnelled traffic never lands in domain zero. *)
Lemma mix_domain_nonzero d k v : mix_domain d k v <> 0.
Proof.
  unfold mix_domain. intros H%Z.lor_eq_0_iff. by destruct H.
Qed.

Lemma mix_address_u64 d k t ip : is_u64 d -> is_u64 k -> is_u64 t -> is_u64 (mix_address d k t ip).
Proof.
  intros Hd Hk Ht. unfold mix_address.
  assert (is_u64 (rotate_left 64 t 7)).
  { unfold rotate_left. apply u64_lor; [apply wrap_u64|]. by apply u64_shiftr. }
  destruct ip; repeat apply mix_domain_u64; auto using u64_lxor.
Qed.

Lemma mix_tunnel_domain_u64 d k a b id :
  is_u64 d -> is_u64 k -> is_u64 (mix_tunnel_domain d k a b id).
Proof.
  intros Hd Hk. unfold mix_tunnel_domain. destruct (ip_le a b);
    (apply mix_address_u64; [|done|done]); (apply mix_address_u64; [|done|done]);
    by apply mix_domain_u64.
Qed.

Lemma mix_address_nonzero d k t ip : mix_address d k t ip <> 0.
Proof. destruct ip; apply mix_domain_nonzero. Qed.

(** A tunnel has one identity for both directions, and a tunnelled packet is
    never mistaken for plain traffic: the domain does not depend on which outer
    address is the source, and it is a non-zero 64-bit number. *)
Theorem tunnel_domain_symmetric d k a b id :
  is_u64 d -> is_u64 k ->
  mix_tunnel_domain d k a b id = mix_tunnel_domain d k b a id /\
  mix_tunnel_domain d k a b id <> 0 /\ is_u64 (mix_tunnel_domain d k a b id).
Proof.
  intros Hd Hk. split; [|split; [|by apply mix_tunnel_domain_u64]]; unfold mix_tunnel_domain.
  - pose proof (ip_le_total a b) as Ht. pose proof (ip_le_antisym a b) as Ha.
    destruct (ip_le a b) eqn:E1, (ip_le b a) eqn:E2; try done. by rewrite Ha by done.
  - destruct (ip_le a b); apply mix_address_nonzero.
Qed.

(** ** Bounds of the fields *)

Lemma word16_range x y : 0 <= from_be_bytes [x; y] < 2 ^ 16.
Proof. apply (from_be_bytes_range [x; y]). Qed.

Lemma word32_range x y z w : 0 <= from_be_bytes [x; y; z; w] < 2 ^ 32.
Proof. apply (from_be_bytes_range [x; y; z; w]). Qed.

Lemma land_le x m : 0 <= x -> 0 <= m -> 0 <= Z.land x m <= m.
Proof.
  intros Hx Hm. split; [apply Z.land_nonneg; auto|].
  assert (m - Z.land x m = Z.ldiff m (Z.land x m)) as Hd.
  { apply Z.sub_nocarry_ldiff, Z.bits_inj'. intros i Hi.
    rewrite Z.ldiff_spec, Z.land_spec, Z.bits_0. by destruct (Z.testbit x i), (Z.testbit m i). }
  assert (0 <= Z.ldiff m (Z.land x m)) by (apply Z.ldiff_nonneg; auto). lia.
Qed.

Section Safety.
Context {Store : Type} `{FragmentStoreLaws Store}.
Context (clock : nat -> Z).

Abbreviation decoder := (Decoder (Store := Store)).

(** From any good decoder [m] ends without a panic, leaves a good decoder, and a
    result satisfies [Q]. *)
Definition wp {A} (m : dec (Store := Store) A) (Q : A -> Prop) : Prop :=
  forall d, store_ok (fragments d) ->
    exists d' r, m d = Some (d', r) /\ store_ok (fragments d') /\
      match r with inl a => Q a | inr _ => True end.

Lemma wp_ret {A} (a : A) (Q : A -> Prop) : Q a -> wp (mret a) Q.
Proof. intros HQ d Hd. by eexists _, _. Qed.

Lemma wp_bind {A B} (m : dec A) (f : A -> dec B) (Q : B -> Prop) :
  wp m (fun a => wp (f a) Q) -> wp (m ≫= f) Q.
Proof.
  intros Hm d Hd. destruct (Hm d Hd) as (d1 & r & E & Hd1 & Hr).
  unfold mbind, dec_bind. rewrite E. destruct r as [a|e]; [by apply Hr|]. by eexists _, _.
Qed.

Lemma wp_mono {A} (m : dec A) (Q Q' : A -> Prop) : wp m Q -> (forall a, Q a -> Q' a) -> wp m Q'.
Proof.
  intros Hm HQ d Hd. destruct (Hm d Hd) as (d1 & r & E & Hd1 & Hr).
  exists d1, r. split; [done|]. split; [done|]. destruct r; auto.
Qed.

Lemma wp_count f Q : Q tt -> wp (count f) Q.
Proof. intros HQ d Hd. by eexists _, _. Qed.

Lemma wp_truncated {A} msg (Q : A -> Prop) : wp (truncated msg) Q.
Proof. intros d Hd. by eexists _, _. Qed.

Lemma wp_bail {A} msg (Q : A -> Prop) : wp (bail msg) Q.
Proof. intros d Hd. by eexists _, _. Qed.

Lemma wp_tunnels Q : (forall b, Q b) -> wp tunnels_enabled Q.
Proof. intros HQ d Hd. by eexists _, _. Qed.

Lemma wp_index b i (Q : byte -> Prop) : 0 <= i < blen b -> (forall x, Q x) -> wp (lift (index b i)) Q.
Proof.
  intros Hi HQ d Hd. unfold index. rewrite (proj2 (Z.leb_le _ _)) by lia.
  destruct (lookup_lt_is_Some_2 b (Z.to_nat i)) as [x Hx]; [unfold blen in *; lia|].
  rewrite Hx. by eexists _, _.
Qed.

Lemma wp_read8 b i (Q : Z -> Prop) :
  0 <= i < blen b -> (forall x, 0 <= x < 256 -> Q x) -> wp (read8 b i) Q.
Proof.
  intros Hi HQ. apply wp_bind, wp_index; [done|]. intros x. apply wp_ret, HQ, byte_val_range.
Qed.

Lemma wp_read16 b i (Q : Z -> Prop) :
  0 <= i -> i + 2 <= blen b -> (forall x, 0 <= x < 2 ^ 16 -> Q x) -> wp (read16 b i) Q.
Proof.
  intros Hi Hb HQ. apply wp_bind, wp_index; [lia|]. intros x.
  apply wp_bind, wp_index; [lia|]. intros y. apply wp_ret, HQ, word16_range.
Qed.

Lemma wp_read32 b i (Q : Z -> Prop) :
  0 <= i -> i + 4 <= blen b -> (forall x, 0 <= x < 2 ^ 32 -> Q x) -> wp (read32 b i) Q.
Proof.
  intros Hi Hb HQ. unfold read32. do 4 (apply wp_bind, wp_index; [lia|]; intros ?).
  apply wp_ret, HQ, word32_range.
Qed.

Lemma wp_slice lo hi b (Q : bytes -> Prop) :
  0 <= lo -> lo <= hi -> hi <= blen b -> (forall x, blen x = hi - lo -> Q x) ->
  wp (lift (slice lo hi b)) Q.
Proof.
  intros H1 H2 H3 HQ d Hd. destruct (slice_spec lo hi b H1 H2 H3) as (x & -> & Hl & _).
  eexists _, _. split; [done|]. split; [done|]. by apply HQ.
Qed.

Lemma wp_insert_fragment key offset more payload wire (Q : FragmentInsert * FragmentMaintenance -> Prop) :
  0 <= offset ->
  (forall r m, match r with Complete data _ => blen data <= 65535 | _ => True end -> Q (r, m)) ->
  wp (insert_fragment clock key offset more payload wire) Q.
Proof.
  intros Ho HQ d Hd. unfold insert_fragment.
  destruct (store_insert_ok (fragments d) (clock (clock_reads d)) key offset more payload wire Hd Ho)
    as (r & m & s' & -> & Hs' & Hr).
  eexists _, _. split; [done|]. split; [done|]. by apply HQ.
Qed.

#[local] Arguments truncated : simpl never.
#[local] Arguments read8 : simpl never.
#[local] Arguments read16 : simpl never.
#[local] Arguments read32 : simpl never.

(** One step through a decoder: reads, slices, tests and errors. *)
Ltac wp_step :=
  lazymatch goal with
  | |- wp (truncated _) _ => apply wp_truncated
  | |- wp (bail _) _ => apply wp_bail
  | |- wp (mret _) _ => apply wp_ret
  | |- wp (_ ≫= _) _ => apply wp_bind
  | |- wp tunnels_enabled _ => apply wp_tunnels; intros ?
  | |- wp fragment_received _ => apply wp_count
  | |- wp fragment_reassembled _ => apply wp_count
  | |- wp fragment_overlap_drop _ => apply wp_count
  | |- wp (apply_fragment_maintenance _) _ => apply wp_count
  | |- wp (read8 _ _) _ => apply wp_read8; [unfold port_ok in *; lia|intros ? ?]
  | |- wp (read16 _ _) _ => apply wp_read16; [lia|lia|intros ? ?]
  | |- wp (read32 _ _) _ => apply wp_read32; [lia|lia|intros ? ?]
  | |- wp (lift (slice _ _ _)) _ => apply wp_slice; [lia|lia|lia|intros ? ?]
  | |- wp (if ?b then _ else _) _ => destruct b eqn:?; reflect_bools
  | |- wp (let _ := _ in _) _ => cbv zeta
  end; cbv beta.

Lemma canonical_ok src sp dst dp proto dom :
  let '(k, d) := canonical_with_domain src sp dst dp proto dom in
  endpoint_le (fk_a k) (fk_b k) = true /\ fk_protocol k = proto /\ fk_l2_domain k = dom /\
  (port_ok sp -> port_ok dp -> port_ok (ep_port (fk_a k)) /\ port_ok (ep_port (fk_b k))).
Proof.
  unfold canonical_with_domain. set (e1 := {| ep_ip := src; ep_port := sp |}).
  set (e2 := {| ep_ip := dst; ep_port := dp |}). pose proof (endpoint_le_total e1 e2) as Ht.
  destruct (endpoint_le e1 e2) eqn:E; simpl in *; auto.
Qed.

Lemma parse_tcp_ok ts wire src dst tcp dom :
  is_u64 dom -> wp (parse_tcp ts wire src dst tcp dom) packet_ok.
Proof.
  intros Hdom. unfold parse_tcp. repeat wp_step.
  assert (0 <= Z.shiftr x3 4) by (apply Z.shiftr_nonneg; lia).
  pose proof (canonical_ok src x dst x0 Tcp dom) as Hc.
  destruct (canonical_with_domain src x dst x0 Tcp dom) as [k dir]. destruct Hc as (Ho & Hp & Hl & Hports).
  repeat wp_step. split; simpl; try done; [by apply Hports|by rewrite Hl].
Qed.

Section Level.
Context (inner : Layer -> Z -> Z -> bytes -> Z -> Z -> dec (Store := Store) InnerOutcome).
Context (depth0 : Z).
Hypothesis inner_ok : forall l ts wire b dom depth,
  is_u64 dom -> depth0 < depth <= MAX_TUNNEL_DEPTH -> wp (inner l ts wire b dom depth) outcome_ok.
Lemma decode_udp_ok ts wire src dst udp dom depth :
  is_u64 dom -> depth0 <= depth -> wp (decode_udp inner ts wire src dst udp dom depth) outcome_ok.
Proof.
  intros Hdom Hdep. unfold decode_udp. do 11 wp_step.
  match goal with |- wp (if _ then _ else ?p) _ => assert (wp p outcome_ok) as Hplain end.
  { pose proof (canonical_ok src x dst x0 Udp dom) as Hc.
    destruct (canonical_with_domain src x dst x0 Udp dom) as [k dir]. destruct Hc as (Ho & Hp & Hl & Hports).
    repeat wp_step. split; simpl; try done; [by apply Hports|by rewrite Hl]. }
  repeat wp_step; try done.
  apply inner_ok; [apply mix_tunnel_domain_u64; done|lia].
Qed.

Lemma gre_routing_ok fuel gre offset :
  0 <= offset <= blen gre -> blen gre < offset + Z.of_nat fuel ->
  wp (gre_routing fuel gre offset) (fun o => 0 <= o <= blen gre).
Proof.
  revert offset. induction fuel as [|fuel IH]; intros offset Ho Hf; [lia|].
  simpl. repeat wp_step; [lia|]. apply IH; lia.
Qed.

Lemma gre_routing_any fuel gre offset :
  0 <= offset -> blen gre < offset + Z.of_nat fuel -> (0 < fuel)%nat ->
  wp (gre_routing fuel gre offset) (fun o => 0 <= o <= blen gre).
Proof.
  intros Ho Hf Hpos. destruct (Z.le_gt_cases offset (blen gre)); [apply gre_routing_ok; lia|].
  destruct fuel as [|fuel]; [lia|]. simpl.
  rewrite (proj2 (Z.ltb_lt _ _)) by lia. apply wp_truncated.
Qed.

Lemma decode_gre_ok ts wire src dst gre dom depth :
  is_u64 dom -> depth0 <= depth -> wp (decode_gre inner ts wire src dst gre dom depth) outcome_ok.
Proof.
  intros Hdom Hdep. unfold decode_gre. do 6 (wp_step; try done). wp_step. cbv zeta.
  set (o1 := if bit x 0xc000 then sat_add 4 4 else 4).
  assert (4 <= o1 <= 8) by (unfold o1; destruct (bit x 0xc000); vm_compute; split; discriminate).
  apply wp_bind, wp_mono with (Q := fun '(_, o) => 4 <= o <= 12).
  { repeat wp_step; lia. }
  intros [gk o2] Ho2. cbv beta iota zeta.
  set (o3 := if bit x 0x1000 then sat_add o2 4 else o2).
  assert (4 <= o3) by (unfold o3; destruct (bit x 0x1000); [rewrite sat_add_small by (unfold u64_MAX; lia)|]; lia).
  apply wp_bind, wp_mono with (Q := fun o => 0 <= o).
  { wp_step; [|apply wp_ret; lia]. eapply wp_mono; [apply gre_routing_any; [lia|unfold blen; lia|lia]|].
    simpl. lia. }
  intros o4 Ho4. cbv beta. wp_step; [apply wp_truncated|].
  assert (is_u64 (mix_tunnel_domain dom 0x47524520 src dst gk)) by (by apply mix_tunnel_domain_u64).
  repeat wp_step; try done; apply inner_ok; (done || lia).
Qed.

Lemma decode_ip_payload_ok ts wire src dst proto payload dom depth :
  is_u64 dom -> depth0 <= depth ->
  wp (decode_ip_payload inner ts wire src dst proto payload dom depth) outcome_ok.
Proof.
  intros Hdom Hdep. unfold decode_ip_payload. do 2 wp_step. cbv zeta.
  wp_step. { apply wp_bind. eapply wp_mono; [by apply parse_tcp_ok|]. intros p Hp. by apply wp_ret. }
  wp_step; [by apply decode_udp_ok|]. wp_step; [by apply decode_gre_ok|].
  wp_step; [apply inner_ok; [by apply mix_tunnel_domain_u64|lia]|].
  wp_step; [apply inner_ok; [by apply mix_tunnel_domain_u64|lia]|]. by apply wp_ret.
Qed.

Lemma handle_fragment_ok key offset more payload wire finish :
  0 <= offset -> (forall data w, wp (finish data w) outcome_ok) ->
  wp (handle_fragment clock key offset more payload wire finish) outcome_ok.
Proof.
  intros Ho Hf. unfold handle_fragment. do 2 wp_step. apply wp_bind, wp_insert_fragment; [done|].
  intros r m Hr. cbv beta iota. do 2 wp_step.
  destruct r; repeat wp_step; try done.
Qed.

Lemma decode_ipv4_ok ts wire packet dom depth :
  is_u64 dom -> depth0 <= depth -> wp (decode_ipv4 clock inner ts wire packet dom depth) outcome_ok.
Proof.
  intros Hdom Hdep. unfold decode_ipv4. wp_step; [apply wp_truncated|]. do 2 wp_step.
  wp_step; [apply wp_bail|]. cbv zeta.
  pose proof (land_le x 15 ltac:(lia) ltac:(lia)).
  repeat wp_step; try (by apply decode_ip_payload_ok).
  apply handle_fragment_ok.
  - pose proof (land_le x4 0x1fff ltac:(lia) ltac:(lia)). lia.
  - intros data w. by apply decode_ip_payload_ok.
Qed.

Definition stop_ok (limit : Z) (s : V6Stop) : Prop :=
  match s with Transport _ o | FragmentHeader o => 0 <= o <= limit end.

Lemma walk_headers_ok fuel re b limit next offset :
  0 <= offset <= limit -> limit <= blen b -> limit < offset + Z.of_nat fuel ->
  wp (walk_headers fuel re b limit next offset) (stop_ok limit).
Proof.
  revert next offset. induction fuel as [|fuel IH]; intros next offset Ho Hb Hf; [lia|].
  simpl. repeat wp_step; try done; apply IH; lia.
Qed.

Lemma post_fragment_ok ts wire src dst next payload dom depth :
  is_u64 dom -> depth0 <= depth ->
  wp (decode_ipv6_post_fragment inner ts wire src dst next payload dom depth) outcome_ok.
Proof.
  intros Hdom Hdep. unfold decode_ipv6_post_fragment. pose proof (blen_nonneg payload).
  apply wp_bind. eapply wp_mono; [apply walk_headers_ok; unfold blen in *; lia|].
  intros [n o|o] Ho; simpl in Ho; [|by apply wp_ret]. repeat wp_step. by apply decode_ip_payload_ok.
Qed.

Lemma decode_ipv6_ok ts wire packet dom depth :
  is_u64 dom -> depth0 <= depth -> wp (decode_ipv6 clock inner ts wire packet dom depth) outcome_ok.
Proof.
  intros Hdom Hdep. unfold decode_ipv6. wp_step; [apply wp_truncated|]. do 2 wp_step.
  wp_step; [apply wp_bail|]. do 2 wp_step. cbv zeta.
  rewrite sat_add_small by (unfold u64_MAX; lia). wp_step; [apply wp_truncated|]. do 6 wp_step.
  apply wp_bind. eapply wp_mono; [apply walk_headers_ok; unfold blen in *; lia|].
  intros [n o|o] Ho; simpl in Ho.
  - repeat wp_step. by apply decode_ip_payload_ok.
  - repeat wp_step; [by apply post_fragment_ok|]. apply handle_fragment_ok.
    + apply land_le; lia.
    + intros data w. by apply post_fragment_ok.
Qed.

Lemma vlan_tags_ok n frame o e dom :
  0 <= o <= blen frame -> is_u64 dom ->
  wp (vlan_tags n frame o e dom) (fun '(o', _, dom') => 0 <= o' <= blen frame /\ is_u64 dom').
Proof.
  revert o e dom. induction n as [|n IH]; intros o e dom Ho Hdom; [by apply wp_ret|].
  simpl. repeat wp_step; [|done]. apply IH; [lia|]. by apply mix_domain_u64.
Qed.

Lemma decode_ethernet_ok ts wire frame dom depth :
  is_u64 dom -> depth0 <= depth ->
  wp (decode_ethernet_bytes clock inner ts wire frame dom depth) outcome_ok.
Proof.
  intros Hdom Hdep. unfold decode_ethernet_bytes. wp_step; [by apply wp_ret|].
  wp_step; [apply wp_truncated|]. do 2 wp_step. apply wp_bind.
  eapply wp_mono; [by apply vlan_tags_ok; [lia|]|]. intros [[o e] dom'] [Ho Hdom']. cbv beta iota.
  repeat wp_step; [by apply decode_ipv4_ok|by apply decode_ipv6_ok|done].
Qed.
End Level.

Lemma decode_layer_ok fuel l ts wire b dom depth :
  is_u64 dom -> depth <= MAX_TUNNEL_DEPTH -> MAX_TUNNEL_DEPTH < depth + Z.of_nat fuel ->
  wp (decode_layer clock fuel l ts wire b dom depth) outcome_ok.
Proof.
  revert l ts wire b dom depth.
  induction fuel as [|fuel IH]; intros l ts wire b dom depth Hdom Hdep Hf; [lia|].
  assert (forall l ts wire b dom depth', is_u64 dom -> depth < depth' <= MAX_TUNNEL_DEPTH ->
    wp (decode_layer clock fuel l ts wire b dom depth') outcome_ok) as Hin.
  { intros. apply IH; [done|lia|lia]. }
  destruct l; simpl.
  - by eapply decode_ethernet_ok.
  - by eapply decode_ipv4_ok.
  - by eapply decode_ipv6_ok.
Qed.

(** C10. Hostile input is harmless: whatever the bytes of the frame, [decode] never
    panics (no index or slice out of bounds) and always ends (at most three
    tunnels, bounded header walks); it leaves a good decoder, and a decoded
    packet is well formed: 16-bit ports, 32-bit sequence numbers exactly for TCP,
    a canonical key and a 64-bit domain. *)
Theorem decode_total d frame :
  store_ok (fragments d) ->
  exists d' r, decode clock frame d = Some (d', r) /\ store_ok (fragments d') /\
    match r with inl (DPacket p) => packet_ok p | _ => True end.
Proof.
  intros Hd. assert (wp (decode clock frame)
    (fun o => match o with DPacket p => packet_ok p | _ => True end)) as Hw; [|by apply Hw].
  apply wp_bind. eapply wp_mono; [by apply decode_layer_ok|].
  intros [p| |] Ho; by apply wp_ret.
Qed.
End Safety.

(** ** The shared cache satisfies the contract *)

Section Shards.
Context (iter : gmap FragmentKey FragmentState -> list (FragmentKey * FragmentState)).
Hypothesis iter_perm : forall m, iter m ≡ₚ map_to_list m.
Context (shard_hash : FragmentKey -> Z).

Definition SharedStore : FragmentStore (list FragmentCache) :=
  {| store_insert := shared_insert iter shard_hash |}.

Definition shards_ok (shards : list FragmentCache) : Prop :=
  blen shards = FRAGMENT_SHARDS /\ Forall (fun c => cache_ok anything c /\ within_limits c) shards.

Lemma shared_insert_ok shards now key offset more payload wire_len :
  shards_ok shards -> 0 <= offset ->
  exists r m shards', shared_insert iter shard_hash shards now key offset more payload wire_len =
      Some (r, m, shards') /\ shards_ok shards' /\
    match r with Complete data _ => blen data <= 65535 | _ => True end.
Proof.
  intros [Hlen Hall] Ho. unfold shared_insert. set (idx := Z.land _ _).
  assert (0 <= idx < blen shards) as Hidx.
  { unfold idx, FRAGMENT_SHARDS in *. change (64 - 1) with (Z.ones 6).
    rewrite Z.land_ones by lia. rewrite Hlen. apply Z.mod_pos_bound. lia. }
  unfold index. rewrite (proj2 (Z.leb_le 0 idx)) by lia.
  destruct (lookup_lt_is_Some_2 shards (Z.to_nat idx)) as [c Hc]; [unfold blen in *; lia|].
  rewrite Hc. simpl. destruct (Forall_lookup_1 _ _ _ _ Hall Hc) as [Hok Hw].
  destruct (insert_ok iter iter_perm anything c now key offset more payload wire_len Hok Hw Ho I)
    as (r & m & c' & -> & Hok' & Hw' & Hr).
  eexists _, _, _. split; [done|]. split.
  - split; [unfold blen; by rewrite length_insert|]. by apply Forall_insert.
  - destruct r; try done. by destruct Hr as (ps & _ & _ & ? & _).
Qed.

Definition SharedStoreLaws : @FragmentStoreLaws (list FragmentCache) SharedStore :=
  @Build_FragmentStoreLaws (list FragmentCache) SharedStore shards_ok shared_insert_ok.

Lemma new_shards_ok now mb md t : mb <= 2 ^ 62 -> shards_ok (SharedFragmentCache_new now mb md t).
Proof.
  intros Hmb. split; [done|]. apply Forall_replicate. apply new_cache_ok.
  assert (mb / FRAGMENT_SHARDS <= 2 ^ 62); [|lia].
  apply Z.div_le_upper_bound; unfold FRAGMENT_SHARDS; lia.
Qed.
End Shards.
