(* ===== verification/DecodeRoundtrip.v ===== *)
(** * Encoding and decoding packets ([src/src/capture/parser.rs])

    Encoders written from the header formats (RFC 791, RFC 9293, IEEE 802.1Q) and
    the theorem that the decoder recovers what they encode: addresses, ports,
    sequence numbers, flags, VLAN identity and exactly the payload bytes, without
    options and without link-layer padding. *)

From stdpp Require Import strings.
From S2P Require Import Prelude BTree Model Fragment Decode DecodeSpec.

(** ** Encoders *)

Definition be16 (x : Z) : bytes := [byte_of (Z.shiftr x 8); byte_of x].

Definition be32 (x : Z) : bytes :=
  [byte_of (Z.shiftr x 24); byte_of (Z.shiftr x 16); byte_of (Z.shiftr x 8); byte_of x].

Record TcpHeader := {
  t_sport : Z; t_dport : Z; t_seq : Z; t_ack : Z; t_bits : Z;
  t_window : Z; t_checksum : Z; t_urgent : Z; t_options : bytes
}.

Definition encode_tcp (h : TcpHeader) (payload : bytes) : bytes :=
  be16 (t_sport h) ++ be16 (t_dport h) ++ be32 (t_seq h) ++ be32 (t_ack h) ++
  [byte_of ((5 + blen (t_options h) / 4) * 16); byte_of (t_bits h)] ++
  be16 (t_window h) ++ be16 (t_checksum h) ++ be16 (t_urgent h) ++ t_options h ++ payload.

Record Ipv4Header := {
  i_tos : byte; i_id : Z; i_df : bool; i_ttl : byte; i_protocol : Z; i_checksum : Z;
  i_src : byte * byte * byte * byte; i_dst : byte * byte * byte * byte; i_options : bytes
}.

Definition octets (a : byte * byte * byte * byte) : bytes :=
  let '(a1, a2, a3, a4) := a in [a1; a2; a3; a4].

Definition encode_ipv4 (h : Ipv4Header) (payload : bytes) : bytes :=
  [byte_of (4 * 16 + (5 + blen (i_options h) / 4)); i_tos h] ++
  be16 (20 + blen (i_options h) + blen payload) ++
  be16 (i_id h) ++ be16 (if i_df h then 0x4000 else 0) ++
  [i_ttl h; byte_of (i_protocol h)] ++ be16 (i_checksum h) ++
  octets (i_src h) ++ octets (i_dst h) ++ i_options h ++ payload.

(** VLAN tags as pairs of protocol identifier and control information. *)
Fixpoint encode_tags (tags : list (Z * Z)) (ethertype : Z) : bytes :=
  match tags with
  | [] => be16 ethertype
  | (tpid, tci) :: tags => be16 tpid ++ be16 tci ++ encode_tags tags ethertype
  end.

(** [encode_tags] cut after the first type, as the decoder reads it. *)
Definition first_type (tags : list (Z * Z)) (ethertype : Z) : Z :=
  match tags with [] => ethertype | (tpid, _) :: _ => tpid end.

Fixpoint tag_tail (tags : list (Z * Z)) (ethertype : Z) : bytes :=
  match tags with
  | [] => []
  | (_, tci) :: tags => be16 tci ++ be16 (first_type tags ethertype) ++ tag_tail tags ethertype
  end.

Definition encode_ethernet (macs : bytes) (tags : list (Z * Z)) (ethertype : Z) (payload : bytes)
  : bytes := macs ++ encode_tags tags ethertype ++ payload.

Definition u16 (x : Z) : Prop := 0 <= x < 2 ^ 16.

(** Options fill up to ten words. *)
Definition options_ok (o : bytes) : Prop := blen o mod 4 = 0 /\ blen o <= 40.

Record tcp_ok (h : TcpHeader) : Prop := {
  to_ports : u16 (t_sport h) /\ u16 (t_dport h);
  to_seq : 0 <= t_seq h < 2 ^ 32 /\ 0 <= t_ack h < 2 ^ 32;
  to_bits : 0 <= t_bits h < 256;
  to_options : options_ok (t_options h)
}.

Definition flags_of (bits : Z) : TcpFlags :=
  {| fin := bit bits 1; syn := bit bits 2; rst := bit bits 4; psh := bit bits 8;
     ack_flag := bit bits 16 |}.

(** The domain of a tag stack: the VLAN numbers, outermost first. *)
Definition tag_domain (dom : Z) (tags : list (Z * Z)) : Z :=
  fold_left (fun d '(_, tci) => mix_domain d 0x564c414e (Z.land tci 0x0fff)) tags dom.

Lemma options_words o : options_ok o -> 0 <= blen o / 4 <= 10 /\ blen o = blen o / 4 * 4.
Proof. intros [H1 H2]. pose proof (blen_nonneg o). Z.to_euclidean_division_equations. lia. Qed.

(** ** Words *)

Lemma byte_val_shift x n : 0 <= n -> byte_val (byte_of (Z.shiftr x n)) = (x / 2 ^ n) mod 256.
Proof. intros. rewrite byte_val_of, Z.shiftr_div_pow2 by done. done. Qed.

Lemma blen_be16 x : blen (be16 x) = 2.
Proof. done. Qed.

Lemma blen_be32 x : blen (be32 x) = 4.
Proof. done. Qed.

Lemma blen_octets a : blen (octets a) = 4.
Proof. by destruct a as [[[]]]. Qed.

#[local] Hint Rewrite blen_be16 blen_be32 blen_octets : bazalt.

Lemma from_be_bytes_2 x y : from_be_bytes [x; y] = byte_val x * 256 + byte_val y.
Proof. change [x; y] with ([x] ++ [y]). by rewrite from_be_bytes_snoc. Qed.

Lemma be16_roundtrip x : u16 x -> from_be_bytes [byte_of (Z.shiftr x 8); byte_of x] = x.
Proof.
  intros Hx. rewrite from_be_bytes_2, byte_val_shift, byte_val_of by lia. unfold wrap, u16 in *.
  Z.to_euclidean_division_equations. lia.
Qed.

Lemma be32_roundtrip x : 0 <= x < 2 ^ 32 ->
  from_be_bytes [byte_of (Z.shiftr x 24); byte_of (Z.shiftr x 16); byte_of (Z.shiftr x 8); byte_of x] = x.
Proof.
  intros Hx. change [?a; ?b; ?c; ?d] with ((([a] ++ [b]) ++ [c]) ++ [d]).
  rewrite !from_be_bytes_snoc. change (from_be_bytes [?a]) with (Z.lor (Z.shiftl 0 8) (byte_val a)).
  rewrite shift_byte, !byte_val_shift, byte_val_of by lia. unfold wrap.
  Z.to_euclidean_division_equations. lia.
Qed.

Lemma encode_tags_eq tags e : encode_tags tags e = be16 (first_type tags e) ++ tag_tail tags e.
Proof.
  induction tags as [|[tpid tci] tags IH]; cbn [encode_tags first_type tag_tail].
  - by rewrite app_nil_r.
  - by rewrite IH.
Qed.

Lemma tag_tail_length tags e : blen (tag_tail tags e) = 4 * blen tags.
Proof.
  induction tags as [|[tpid tci] tags IH]; cbn [tag_tail]; autorewrite with bazalt; [done|]. lia.
Qed.

Section Roundtrip.
Context {Store : Type} `{FragmentStore Store}.
Context (clock : nat -> Z).

Lemma bind_inl {A B} (m : dec (Store := Store) A) (f : A -> dec B) d d' a :
  m d = Some (d', inl a) -> (m ≫= f) d = f a d'.
Proof. intros E. unfold mbind, dec_bind. by rewrite E. Qed.

Lemma read8_at b i x (d : Decoder (Store := Store)) : index b i = Some x -> read8 b i d = Some (d, inl (byte_val x)).
Proof. intros E. unfold read8, mbind, dec_bind, lift. by rewrite E. Qed.

Lemma read16_at b i x y (d : Decoder (Store := Store)) :
  index b i = Some x -> index b (i + 1) = Some y ->
  read16 b i d = Some (d, inl (from_be_bytes [x; y])).
Proof. intros E1 E2. unfold read16, mbind, dec_bind, lift. by rewrite E1, E2. Qed.

Lemma read32_at b i x y z w (d : Decoder (Store := Store)) :
  index b i = Some x -> index b (i + 1) = Some y -> index b (i + 2) = Some z ->
  index b (i + 3) = Some w -> read32 b i d = Some (d, inl (from_be_bytes [x; y; z; w])).
Proof. intros E1 E2 E3 E4. unfold read32, mbind, dec_bind, lift. by rewrite E1, E2, E3, E4. Qed.

Lemma slice_at (pre mid post : bytes) lo hi (d : Decoder (Store := Store)) :
  lo = blen pre -> hi = lo + blen mid ->
  lift (slice lo hi (pre ++ mid ++ post)) d = Some (d, inl mid).
Proof.
  intros -> ->. unfold lift. rewrite slice_full_spec.
  - do 3 f_equal. rewrite drop_app_length'; [|unfold blen; lia].
    rewrite take_app_length'; [done|unfold blen; lia].
  - apply blen_nonneg.
  - pose proof (blen_nonneg mid). lia.
  - rewrite !blen_app. pose proof (blen_nonneg post). lia.
Qed.

Lemma slice_rest (pre rest : bytes) lo (d : Decoder (Store := Store)) :
  lo = blen pre -> lift (slice lo (blen (pre ++ rest)) (pre ++ rest)) d = Some (d, inl rest).
Proof.
  intros Hlo. rewrite <- (app_nil_r rest) at 2. apply slice_at; [done|].
  rewrite blen_app. lia.
Qed.

Lemma shiftr_low a b n : 0 <= n -> 0 <= b < 2 ^ n -> Z.shiftr (a * 2 ^ n + b) n = a.
Proof.
  intros Hn Hb. rewrite Z.shiftr_div_pow2 by done. rewrite Z.div_add_l by lia.
  rewrite Z.div_small by done. lia.
Qed.

#[local] Arguments truncated : simpl never.
#[local] Arguments read8 : simpl never.
#[local] Arguments read16 : simpl never.
#[local] Arguments read32 : simpl never.
#[local] Arguments lift : simpl never.
#[local] Arguments from_be_bytes : simpl never.
#[local] Arguments byte_of : simpl never.
#[local] Arguments Z.mul : simpl never.
#[local] Arguments Z.add : simpl never.

(** Runs one read whose bytes are spelled out. *)
Ltac read :=
  first [ erewrite bind_inl; [|apply read8_at; reflexivity]
        | erewrite bind_inl; [|apply read16_at; reflexivity]
        | erewrite bind_inl; [|apply read32_at; reflexivity] ].

Lemma parse_encoded_tcp ts wire src dst dom h payload (d : Decoder (Store := Store)) :
  tcp_ok h ->
  parse_tcp ts wire src dst (encode_tcp h payload) dom d =
  let '(key, direction) := canonical_with_domain src (t_sport h) dst (t_dport h) Tcp dom in
  Some (d, inl {| p_ts_ns := ts; p_key := key; p_direction := direction; p_seq := Some (t_seq h);
                  p_ack := Some (t_ack h); p_flags := flags_of (t_bits h); p_payload := payload;
                  p_wire_len := wire |}).
Proof.
  intros [[Hsp Hdp] [Hsq Hak] Hbits Ho]. set (o := t_options h) in *.
  destruct (options_words o Ho) as [Hw Hw4].
  pose proof (blen_nonneg o). pose proof (blen_nonneg payload).
  set (b := encode_tcp h payload).
  assert (blen b = 20 + blen o + blen payload) as Hb.
  { unfold b, encode_tcp. autorewrite with bazalt. fold o. lia. }
  unfold parse_tcp. rewrite Hb, (proj2 (Z.ltb_ge _ 20)) by lia.
  do 5 read. rewrite !be16_roundtrip, !be32_roundtrip by done.
  assert (Z.shiftr (byte_val (byte_of ((5 + blen (t_options h) / 4) * 16))) 4 * 4 = 20 + blen o) as Hoff.
  { fold o. rewrite byte_val_of, wrap_small by lia.
    rewrite <- (Z.add_0_r (_ * 16)). change 16 with (2 ^ 4). rewrite shiftr_low by lia. lia. }
  rewrite Hoff, (proj2 (Z.ltb_ge _ 20)), (proj2 (Z.ltb_ge _ (20 + blen o))) by lia.
  read. rewrite byte_val_of, wrap_small by done.
  destruct (canonical_with_domain _ _ _ _ _ _) as [key dir].
  assert (exists pre, b = pre ++ payload ++ [] /\ blen pre = 20 + blen o) as (pre & Hpre & Hpl).
  { eexists. split; [unfold b, encode_tcp; rewrite !app_assoc, app_nil_r; reflexivity|].
    autorewrite with bazalt. fold o. lia. }
  rewrite Hpre. erewrite bind_inl; [done|]. apply slice_at; [done|]. lia.
Qed.

Record ipv4_ok (h : Ipv4Header) (payload : bytes) : Prop := {
  ip_proto : 0 <= i_protocol h < 256;
  ip_options : options_ok (i_options h);
  ip_length : 20 + blen (i_options h) + blen payload < 2 ^ 16
}.

(** An unfragmented IPv4 packet, with padding behind it, is passed on with its
    addresses, its protocol and exactly its payload. *)
Lemma decode_encoded_ipv4 inner ts wire h payload padding dom depth (d : Decoder (Store := Store)) :
  ipv4_ok h payload ->
  decode_ipv4 clock inner ts wire (encode_ipv4 h payload ++ padding) dom depth d =
  decode_ip_payload inner ts wire (V4 (octets (i_src h))) (V4 (octets (i_dst h))) (i_protocol h)
    payload dom depth d.
Proof.
  intros [Hp Ho Hl]. destruct (options_words _ Ho) as [Hw Hw4]. unfold encode_ipv4.
  destruct (i_src h) as [[[s1 s2] s3] s4], (i_dst h) as [[[d1 d2] d3] d4].
  set (o := i_options h) in *. pose proof (blen_nonneg o). pose proof (blen_nonneg payload).
  pose proof (blen_nonneg padding). set (total := 20 + blen o + blen payload) in *.
  assert (blen o / 4 = Z.of_nat (Z.to_nat (blen o / 4))) by lia.
  match goal with |- decode_ipv4 _ _ _ _ ?x _ _ _ = _ => set (b := x) end.
  assert (blen b = total + blen padding) as Hb.
  { unfold b. autorewrite with bazalt. fold o. lia. }
  unfold decode_ipv4. rewrite Hb, (proj2 (Z.ltb_ge _ 20)) by lia. read.
  rewrite byte_val_of, wrap_small by lia. change (4 * 16) with (4 * 2 ^ 4).
  rewrite shiftr_low by lia. change (negb (4 =? 4)) with false. cbv iota.
  change 15 with (Z.ones 4). rewrite Z.land_ones, Z.add_comm, Z_mod_plus_full, Z.mod_small by lia.
  cbv zeta. replace ((5 + blen o / 4) * 4) with (20 + blen o) by lia.
  rewrite (proj2 (Z.ltb_ge (20 + blen o) 20)), (proj2 (Z.ltb_ge _ (20 + blen o))) by lia.
  read. rewrite be16_roundtrip by (unfold u16; lia).
  rewrite (proj2 (Z.ltb_ge total _)), (proj2 (Z.ltb_ge _ total)) by lia.
  assert (slice 12 16 b = Some (octets (s1, s2, s3, s4))) as Hsrc
    by (rewrite slice_full_spec by lia; reflexivity).
  assert (slice 16 20 b = Some (octets (d1, d2, d3, d4))) as Hdst
    by (rewrite slice_full_spec by lia; reflexivity).
  erewrite bind_inl; [|unfold lift; rewrite Hsrc; reflexivity].
  erewrite bind_inl; [|unfold lift; rewrite Hdst; reflexivity].
  read. read. rewrite byte_val_of, wrap_small by lia.
  assert (u16 (if i_df h then 0x4000 else 0)) by (unfold u16; destruct (i_df h); lia).
  rewrite be16_roundtrip by done.
  assert (exists pre, b = pre ++ payload ++ padding /\ blen pre = 20 + blen o) as (pre & Hpre & Hpl).
  { exists ([byte_of (4 * 16 + (5 + blen o / 4)); i_tos h] ++ be16 total ++ be16 (i_id h) ++
      be16 (if i_df h then 0x4000 else 0) ++ [i_ttl h; byte_of (i_protocol h)] ++
      be16 (i_checksum h) ++ octets (s1, s2, s3, s4) ++ octets (d1, d2, d3, d4) ++ o).
    split; [unfold b; by rewrite <- !app_assoc|]. autorewrite with bazalt. lia. }
  rewrite Hpre. erewrite bind_inl; [|apply slice_at; [done|unfold total; lia]].
  destruct (i_df h); reflexivity.
Qed.

Definition tpid_ok (tag : Z * Z) : Prop := u16 tag.1 /\ u16 tag.2 /\ is_vlan tag.1 = true.

Lemma read16_be pre x rest (d : Decoder (Store := Store)) i :
  u16 x -> i = blen pre -> read16 (pre ++ be16 x ++ rest) i d = Some (d, inl x).
Proof.
  intros Hx ->. rewrite <- (be16_roundtrip x Hx) at 2.
  assert (forall j l, index (pre ++ l) (blen pre + Z.of_nat j) = l !! j) as Hi.
  { intros j l. unfold index. pose proof (blen_nonneg pre). rewrite (proj2 (Z.leb_le _ _)) by lia.
    rewrite lookup_app_r by (unfold blen; lia). f_equal. unfold blen. lia. }
  apply read16_at.
  - rewrite <- (Z.add_0_r (blen pre)). apply (Hi 0%nat (be16 x ++ rest)).
  - apply (Hi 1%nat (be16 x ++ rest)).
Qed.

Lemma first_type_u16 tags etype : Forall tpid_ok tags -> u16 etype -> u16 (first_type tags etype).
Proof. intros Ht He. destruct tags as [|[tp tc] tags]; [done|]. by apply Forall_inv in Ht as [? _]. Qed.

Lemma vlan_tags_encoded n pre tags etype payload dom (d : Decoder (Store := Store)) :
  Forall tpid_ok tags -> (length tags <= n)%nat -> u16 etype -> is_vlan etype = false ->
  vlan_tags n (pre ++ tag_tail tags etype ++ payload) (blen pre) (first_type tags etype) dom d =
    Some (d, inl (blen pre + 4 * blen tags, etype, tag_domain dom tags)).
Proof.
  intros Ht Hn He Hv. revert pre tags dom Ht Hn.
  assert (forall pre dom m, vlan_tags m (pre ++ payload) (blen pre) etype dom d =
    Some (d, inl (blen pre + 4 * blen (@nil (Z * Z)), etype, dom))) as Hnil.
  { intros pre dom m. rewrite (@blen_nil (Z * Z)), Z.mul_0_r, Z.add_0_r.
    destruct m; cbn [vlan_tags]; [done|]. by rewrite Hv. }
  induction n as [|n IH]; intros pre tags dom Ht Hn.
  { destruct tags; [|simpl in Hn; lia]. apply (Hnil pre dom 0%nat). }
  destruct tags as [|[tpid tci] tags]; [apply (Hnil pre dom (S n))|].
  apply Forall_cons in Ht as [(Htp & Htc & Hvl) Ht]. simpl in Htp, Htc, Hvl.
  cbn [vlan_tags first_type tag_tail]. rewrite Hvl. rewrite <- !app_assoc.
  pose proof (first_type_u16 tags etype Ht He) as Hft.
  pose proof (blen_nonneg payload). pose proof (blen_nonneg (tag_tail tags etype)).
  rewrite (proj2 (Z.ltb_ge _ _)) by (autorewrite with bazalt; lia).
  erewrite bind_inl; [|by apply read16_be].
  erewrite bind_inl.
  2: { rewrite app_assoc. apply read16_be; [done|]. by autorewrite with bazalt. }
  rewrite !app_assoc, <- (app_assoc _ (tag_tail _ _)).
  replace (blen pre + 4) with (blen ((pre ++ be16 tci) ++ be16 (first_type tags etype)))
    by (autorewrite with bazalt; lia).
  rewrite (IH _ tags) by (done || (simpl in Hn; lia)).
  replace (blen (_ ++ be16 (first_type tags etype)) + 4 * blen tags)
    with (blen pre + 4 * blen ((tpid, tci) :: tags)) by (autorewrite with bazalt; lia). done.
Qed.

Lemma decode_tcp_payload inner ts wire src dst payload dom depth (d : Decoder (Store := Store)) :
  decode_ip_payload inner ts wire src dst 6 payload dom depth d =
  match parse_tcp ts wire src dst payload dom d with
  | Some (d', inl p) => Some (d', inl (IPacket p))
  | Some (d', inr e) => Some (d', inr e)
  | None => None
  end.
Proof. reflexivity. Qed.

(** Decoding inverts encoding: an Ethernet frame with up to four VLAN tags, an
    unfragmented IPv4 packet (with options) and a TCP segment (with options)
    decodes to exactly its addresses, ports, sequence numbers, flags and payload;
    the VLAN numbers become the domain and trailing padding is dropped. *)
Theorem decode_encoded ts wire macs tags ip tcp payload padding (d : Decoder (Store := Store)) :
  blen macs = 12 -> Forall tpid_ok tags -> (length tags <= 4)%nat -> tcp_ok tcp ->
  i_protocol ip = 6 -> ipv4_ok ip (encode_tcp tcp payload) ->
  decode clock
    {| cf_ts_ns := ts; cf_wire_len := wire;
       cf_data := encode_ethernet macs tags ETHERTYPE_IPV4
                    (encode_ipv4 ip (encode_tcp tcp payload) ++ padding) |} d =
  let '(key, direction) :=
    canonical_with_domain (V4 (octets (i_src ip))) (t_sport tcp) (V4 (octets (i_dst ip))) (t_dport tcp)
      Tcp (tag_domain 0 tags) in
  Some (d, inl (DPacket {| p_ts_ns := ts; p_key := key; p_direction := direction;
                           p_seq := Some (t_seq tcp); p_ack := Some (t_ack tcp);
                           p_flags := flags_of (t_bits tcp); p_payload := payload;
                           p_wire_len := wire |})).
Proof.
  intros Hm Ht Hn Htcp Hproto Hip. set (l3 := encode_ipv4 ip (encode_tcp tcp payload) ++ padding).
  unfold encode_ethernet. rewrite encode_tags_eq, <- app_assoc.
  assert (u16 ETHERTYPE_IPV4) as He by by vm_compute.
  pose proof (first_type_u16 tags _ Ht He) as Hft.
  set (tail := tag_tail tags ETHERTYPE_IPV4). pose proof (blen_nonneg l3).
  set (frame := macs ++ be16 _ ++ tail ++ l3). pose proof (blen_nonneg tail).
  assert (blen frame = 14 + blen tail + blen l3) as Hlen
    by (unfold frame; autorewrite with bazalt; lia).
  assert (blen tail = 4 * blen tags) as Htl by apply tag_tail_length.
  assert (decode_layer clock 4 Ethernet ts wire frame 0 0 d =
    decode_ip_payload (decode_layer clock 3) ts wire (V4 (octets (i_src ip))) (V4 (octets (i_dst ip)))
      6 (encode_tcp tcp payload) (tag_domain 0 tags) 0 d) as Hlayer.
  { change (decode_ethernet_bytes clock (decode_layer clock 3) ts wire frame 0 0 d = 
      decode_ip_payload (decode_layer clock 3) ts wire (V4 (octets (i_src ip))) (V4 (octets (i_dst ip)))
      6 (encode_tcp tcp payload) (tag_domain 0 tags) 0 d).
    unfold decode_ethernet_bytes. change (MAX_TUNNEL_DEPTH <? 0) with false. cbv iota.
    rewrite (proj2 (Z.ltb_ge _ 14)) by lia.
    erewrite bind_inl; [|by apply read16_be].
    assert (frame = (macs ++ be16 (first_type tags ETHERTYPE_IPV4)) ++ tail ++ l3) as Hfr
      by (unfold frame; by rewrite <- app_assoc).
    replace 14 with (blen (macs ++ be16 (first_type tags ETHERTYPE_IPV4)))
      by (autorewrite with bazalt; lia).
    erewrite bind_inl; [|rewrite Hfr; apply vlan_tags_encoded; (done || by vm_compute)]. cbv beta iota.
    erewrite bind_inl.
    2: { rewrite Hfr, app_assoc. apply slice_rest. autorewrite with bazalt. lia. }
    change (ETHERTYPE_IPV4 =? ETHERTYPE_IPV4) with true. cbv iota. unfold l3.
    rewrite decode_encoded_ipv4 by done. by rewrite Hproto. }
  unfold decode. cbn [cf_ts_ns cf_wire_len cf_data]. unfold mbind, dec_bind. rewrite Hlayer.
  rewrite decode_tcp_payload. rewrite parse_encoded_tcp by done.
  destruct (canonical_with_domain _ _ _ _ _ _) as [key dir]. done.
Qed.
End Roundtrip.
