(* ===== verification/DecodeExamples.v ===== *)
(** * The fragment cache on concrete fragments

    The theorems of [FragmentTheorems.v] applied to a datagram of twelve bytes
    cut in two. *)

From stdpp Require Import fin_maps strings.
From S2P Require Import Prelude BTree Model Fragment FragmentSpec FragmentTheorems Decode DecodeSpec DecodeRoundtrip.

Definition ex_key : FragmentKey :=
  {| version := 4; key_l2_domain := 0; src := V4 [x0a; x00; x00; x01];
     dst := V4 [x0a; x00; x00; x02]; frag_id := 7; next_header := 17 |}.

Definition ex_first : FragmentPiece :=
  {| piece_data := [x41; x42; x43; x44; x45; x46; x47; x48]; piece_more := true |}.
Definition ex_last : FragmentPiece :=
  {| piece_data := [x49; x4a; x4b; x4c]; piece_more := false |}.

Definition ex_fragments : btree FragmentPiece := [(0, ex_first); (8, ex_last)].

Definition arrive (now k : Z) (p : FragmentPiece) : arrival :=
  {| ar_now := now; ar_key := ex_key; ar_offset := k; ar_piece := p; ar_wire := 60 |}.

(** The last fragment comes first. *)
Definition ex_arrivals : list arrival := [arrive 5 8 ex_last; arrive 9 0 ex_first].

Definition ex_cache : FragmentCache := FragmentCache_new 0 65536 64 (30 * 10 ^ 9).

Lemma completed_is_received_witness :
  exists rs c', feed_all map_to_list (FragmentCache_new 0 65536 64 (30 * 10 ^ 9)) ex_arrivals = Some (rs, c') /\
    within_limits c' /\
    forall i a d w, rs !! i = Some (Complete d w) -> ex_arrivals !! i = Some a ->
      assembled (received (take (S i) ex_arrivals) (ar_key a)) d.
Proof.
  apply completed_is_received; [done|lia|].
  repeat constructor; simpl; lia.
Defined.

Example reordered_fragments_complete :
  (fst <$> feed_all map_to_list ex_cache ex_arrivals) =
    Some [Pending; Complete (piece_data ex_first ++ piece_data ex_last) 120].
Proof. vm_compute. reflexivity. Qed.

Lemma ex_fragmentation : fragmentation ex_fragments 12.
Proof.
  split; [by repeat split|done|done|].
  intros k p [[= <- <-]|[[= <- <-]|[]]]; split; done.
Qed.

Lemma fragments_reassemble_witness :
  exists rs c', feed_all map_to_list ex_cache ex_arrivals =
    Some (rs ++ [Complete (payload_of ex_fragments)
                  (fold_left (fun w a => sat_add w (ar_wire a)) ex_arrivals 0)], c') /\
    Forall (eq Pending) rs.
Proof.
  apply (fragments_reassemble map_to_list) with (key := ex_key) (total := 12) (start := 0).
  - done.
  - apply ex_fragmentation.
  - by apply new_cache_ok.
  - by apply (new_cache_ok anything).
  - reflexivity.
  - apply Permutation_swap.
  - repeat constructor; simpl; lia.
  - split; vm_compute; discriminate.
Defined.

(** The cache after the first fragment. *)
Definition ex_state : FragmentState :=
  {| pieces := [(0, ex_first)]; st_bytes := 328; total_len := None; last_seen := 5; wire_bytes := 60 |}.

Definition ex_half_cache : FragmentCache := set_states ex_cache {[ex_key := ex_state]} 328.

Lemma ex_half_cache_ok : cache_ok anything ex_half_cache.
Proof.
  split; simpl; [|vm_compute; reflexivity|done|done].
  apply map_Forall_insert_2; [|done]. split; simpl; try done.
  - intros k p [[= <- <-]|[]]. done.
  - intros k p k' p' [[= <- <-]|[]] [[= <- <-]|[]]. lia.
  - intros k p [[= <- <-]|[]]. done.
Qed.

(** Four bytes at offset 4 overlap the first fragment. *)
Lemma overlap_drops_datagram_witness :
  exists r m c', insert map_to_list ex_half_cache 9 ex_key 4 false (piece_data ex_last) 60 =
      Some (r, m, c') /\
    (r = DroppedOverlap \/ r = DroppedInvalid) /\ states c' !! ex_key = None.
Proof.
  apply (overlap_drops_datagram map_to_list) with (Q := anything) (s := ex_state)
    (k0 := 0) (p0 := ex_first) (p := ex_last);
    [done|apply ex_half_cache_ok|reflexivity|reflexivity|by left|done|done|done|done|done].
Defined.

(** * The decoder on concrete frames

    The theorems of [DecodeSpec.v] and [DecodeRoundtrip.v] applied to a tagged TCP
    segment, and a VXLAN frame decoded through its tunnel. *)

(** The store: real shards, iterated in the order of [map_to_list]. *)
Definition ex_store : FragmentStore (list FragmentCache) := SharedStore map_to_list (fun _ => 5).

Definition ex_laws : @FragmentStoreLaws (list FragmentCache) ex_store :=
  SharedStoreLaws map_to_list (fun m => Permutation_refl _) (fun _ => 5).

Definition ex_shards : list FragmentCache := SharedFragmentCache_new 0 (64 * 1024) 64 (10 ^ 9).

Definition ex_decoder : Decoder (Store := list FragmentCache) := stateless ex_shards.

Definition ex_frame : CapturedFrame :=
  {| cf_ts_ns := 7; cf_wire_len := 60; cf_data := repeat xff 60 |}.

Lemma decode_total_witness :
  exists d' r, @decode _ ex_store (fun _ => 0) ex_frame ex_decoder = Some (d', r) /\
    @store_ok _ _ ex_laws (fragments d') /\
    match r with inl (DPacket p) => packet_ok p | _ => True end.
Proof.
  apply (@decode_total _ ex_store ex_laws). by apply new_shards_ok.
Defined.

Lemma tunnel_domain_symmetric_witness :
  mix_tunnel_domain 5 0x56584c41 (V4 [x0a; x00; x00; x01]) (V4 [x0a; x00; x00; x02]) 42 =
    mix_tunnel_domain 5 0x56584c41 (V4 [x0a; x00; x00; x02]) (V4 [x0a; x00; x00; x01]) 42 /\
  mix_tunnel_domain 5 0x56584c41 (V4 [x0a; x00; x00; x01]) (V4 [x0a; x00; x00; x02]) 42 <> 0 /\
  is_u64 (mix_tunnel_domain 5 0x56584c41 (V4 [x0a; x00; x00; x01]) (V4 [x0a; x00; x00; x02]) 42).
Proof. apply tunnel_domain_symmetric; unfold is_u64; lia. Defined.

Definition ex_ip : Ipv4Header :=
  {| i_tos := x00; i_id := 99; i_df := true; i_ttl := x40; i_protocol := 6; i_checksum := 0;
     i_src := (x0a, x00, x00, x02); i_dst := (x0a, x00, x00, x01); i_options := [x01; x01; x01; x00] |}.

Definition ex_tcp : TcpHeader :=
  {| t_sport := 40000; t_dport := 80; t_seq := 4000000000; t_ack := 17; t_bits := 0x18;
     t_window := 512; t_checksum := 0; t_urgent := 0; t_options := [] |}.

Definition ex_payload : bytes := [x47; x45; x54].

Lemma decode_encoded_witness :
  @decode _ ex_store (fun _ => 0)
    {| cf_ts_ns := 7; cf_wire_len := 70;
       cf_data := encode_ethernet (repeat x00 12) [(0x88a8, 100); (0x8100, 7)] ETHERTYPE_IPV4
                    (encode_ipv4 ex_ip (encode_tcp ex_tcp ex_payload) ++ repeat x00 6) |} ex_decoder =
  let '(key, direction) :=
    canonical_with_domain (V4 (octets (i_src ex_ip))) (t_sport ex_tcp) (V4 (octets (i_dst ex_ip)))
      (t_dport ex_tcp) Tcp (tag_domain 0 [(0x88a8, 100); (0x8100, 7)]) in
  Some (ex_decoder,
        inl (DPacket {| p_ts_ns := 7; p_key := key; p_direction := direction;
                        p_seq := Some (t_seq ex_tcp); p_ack := Some (t_ack ex_tcp);
                        p_flags := flags_of (t_bits ex_tcp); p_payload := ex_payload;
                        p_wire_len := 70 |})).
Proof.
  apply (@decode_encoded _ ex_store); try reflexivity.
  - repeat constructor; simpl; unfold u16; lia.
  - simpl. lia.
  - split; by vm_compute.
  - split; by vm_compute.
Defined.

Definition udp_segment (sport dport : Z) (payload : bytes) : bytes :=
  be16 sport ++ be16 dport ++ be16 (8 + blen payload) ++ be16 0 ++ payload.

Definition udp_ip : Ipv4Header :=
  {| i_tos := x00; i_id := 1; i_df := false; i_ttl := x40; i_protocol := 17; i_checksum := 0;
     i_src := (xc0, xa8, x00, x01); i_dst := (xc0, xa8, x00, x02); i_options := [] |}.

(** The frame of the previous example inside VXLAN network 42. *)
Definition vxlan_frame : bytes :=
  encode_ethernet (repeat x00 12) [] ETHERTYPE_IPV4
    (encode_ipv4 udp_ip (udp_segment 50000 4789
       ([x08; x00; x00; x00; x00; x00; x2a; x00] ++
        encode_ethernet (repeat x00 12) [] ETHERTYPE_IPV4
          (encode_ipv4 ex_ip (encode_tcp ex_tcp ex_payload))))).

Example vxlan_is_decapsulated :
  match @parse_ethernet_frame _ ex_store (fun _ => 0) ex_shards 1 100 vxlan_frame with
  | Some (inl (Some p)) =>
      source_endpoint p = {| ep_ip := V4 [x0a; x00; x00; x02]; ep_port := 40000 |} /\
      p_payload p = ex_payload /\
      fk_l2_domain (p_key p) =
        mix_tunnel_domain 0 0x56584c41 (V4 [xc0; xa8; x00; x01]) (V4 [xc0; xa8; x00; x02]) 42
  | _ => False
  end.
Proof. vm_compute. repeat split. Qed.
