(* ===== verification/Services.v ===== *)
(** * The service registry ([ServiceRegistry] in [src/src/http/mod.rs])

    The ports BAZALT analyses, and the questions the flow engine, the topology
    and the HTTP layer ask of them.  A published map ([ArcSwap]) is a value; an
    edit is an atomic replacement. *)

From stdpp Require Import strings pretty sorting.
From S2P Require Import Prelude Model.

Definition bytes_of (s : string) : bytes := String.list_byte_of_string s.

Record ServicePacketScope := { destination : bool; flow : bool }.

Record ServiceRegistry := { by_port_map : gmap Z ServiceConfig; generation : Z }.

Definition ServiceRegistry_new (initial : list ServiceConfig) : ServiceRegistry :=
  {| by_port_map := fold_left (fun m s => <[sc_port s := s]> m) initial ∅; generation := 1 |}.

Definition upsert (r : ServiceRegistry) (service : ServiceConfig) : ServiceRegistry :=
  {| by_port_map := <[sc_port service := service]> (by_port_map r);
     generation := wrapping_add 64 (generation r) 1 |}.

Definition delete_port (r : ServiceRegistry) (port : Z) : bool * ServiceRegistry :=
  match by_port_map r !! port with
  | None => (false, r)
  | Some _ =>
      (true, {| by_port_map := delete port (by_port_map r);
                generation := wrapping_add 64 (generation r) 1 |})
  end.

Definition port_le (a b : ServiceConfig) : Prop := sc_port a <= sc_port b.

#[export] Instance port_le_dec : RelDecision port_le.
Proof. intros a b. unfold port_le. apply _. Defined.

Definition list_services (r : ServiceRegistry) : list ServiceConfig :=
  merge_sort port_le (map snd (map_to_list (by_port_map r))).

Definition by_port (r : ServiceRegistry) (port : Z) : option ServiceConfig := by_port_map r !! port.

Definition registry_is_empty (r : ServiceRegistry) : bool := bool_decide (by_port_map r = ∅).

Definition ports (r : ServiceRegistry) : list Z :=
  merge_sort Z.le (map fst (map_to_list (by_port_map r))).

Definition accepts_port (r : ServiceRegistry) (port : Z) : bool :=
  bool_decide (is_Some (by_port_map r !! port)).

Definition packet_scope (r : ServiceRegistry) (packet : ParsedPacket) : ServicePacketScope :=
  let destination := accepts_port r (ep_port (destination_endpoint packet)) in
  let source := accepts_port r (ep_port (source_endpoint packet)) in
  {| destination := destination; flow := destination || source |}.

Definition accepts_destination (r : ServiceRegistry) (packet : ParsedPacket) : bool :=
  accepts_port r (ep_port (destination_endpoint packet)).

Definition accepts_flow (r : ServiceRegistry) (key : FlowKey) : bool :=
  accepts_port r (ep_port (fk_a key)) || accepts_port r (ep_port (fk_b key)).

Definition service_for_http (r : ServiceRegistry) (key : FlowKey) (request_direction : Direction)
  : bytes :=
  let port := match request_direction with
              | AToB => ep_port (fk_b key)
              | BToA => ep_port (fk_a key)
              end in
  match by_port_map r !! port with
  | Some service => sc_name service
  | None => bytes_of ("http:" +:+ pretty port)
  end.

Definition flow_service (r : ServiceRegistry) (key : FlowKey) : option ServiceConfig :=
  match by_port_map r !! ep_port (fk_a key) with
  | Some s => Some s
  | None => by_port_map r !! ep_port (fk_b key)
  end.

Definition service_for_flow (r : ServiceRegistry) (key : FlowKey) : option bytes :=
  sc_name <$> flow_service r key.

Definition should_parse_http (r : ServiceRegistry) (key : FlowKey) : bool :=
  match flow_service r key with Some s => sc_http s | None => false end.

(** ** Facts *)

(** Every service is filed under its own port. *)
Definition registry_ok (r : ServiceRegistry) : Prop :=
  forall p s, by_port_map r !! p = Some s -> sc_port s = p.

Lemma fold_insert_ok l (m : gmap Z ServiceConfig) :
  (forall p s, m !! p = Some s -> sc_port s = p) ->
  forall p s, fold_left (fun m s => <[sc_port s := s]> m) l m !! p = Some s -> sc_port s = p.
Proof.
  revert m. induction l as [|x l IH]; simpl; intros m Hm; [done|]. apply IH.
  intros p s [[<- <-]|[_ H]]%lookup_insert_Some; [done|auto].
Qed.

Lemma registry_new_ok initial : registry_ok (ServiceRegistry_new initial).
Proof. intros p s. apply fold_insert_ok. by intros ? ? ?%lookup_empty_Some. Qed.

Lemma upsert_ok r s : registry_ok r -> registry_ok (upsert r s).
Proof.
  intros Hr p x. simpl. intros [[<- <-]|[_ H]]%lookup_insert_Some; [done|by apply Hr].
Qed.

Lemma delete_port_ok r p : registry_ok r -> registry_ok (delete_port r p).2.
Proof.
  intros Hr. unfold delete_port. destruct (by_port_map r !! p); [|done].
  intros q x. simpl. intros [_ H]%lookup_delete_Some. by apply Hr.
Qed.

Lemma accepts_port_upsert r s p :
  accepts_port (upsert r s) p = bool_decide (p = sc_port s) || accepts_port r p.
Proof.
  unfold accepts_port. simpl. destruct (decide (p = sc_port s)) as [->|Hn].
  - rewrite lookup_insert_eq, !bool_decide_eq_true_2 by eauto. done.
  - rewrite lookup_insert_ne by done. by rewrite (bool_decide_eq_false_2 (p = sc_port s)).
Qed.

Lemma accepts_port_delete r q p :
  accepts_port (delete_port r q).2 p = negb (bool_decide (p = q)) && accepts_port r p.
Proof.
  unfold accepts_port, delete_port. destruct (decide (p = q)) as [->|Hn].
  - rewrite (bool_decide_eq_true_2 (q = q)) by done. simpl.
    destruct (by_port_map r !! q) eqn:E; simpl; rewrite ?lookup_delete_eq, ?E;
      by apply bool_decide_eq_false_2; intros [? ?].
  - rewrite (bool_decide_eq_false_2 (p = q)) by done. simpl.
    destruct (by_port_map r !! q); simpl; [|done]. by rewrite lookup_delete_ne by done.
Qed.

(** The scope of a packet is the pair of the two admission questions. *)
Lemma packet_scope_spec r p :
  destination (packet_scope r p) = accepts_destination r p /\
  flow (packet_scope r p) = accepts_flow r (p_key p).
Proof.
  split; [done|]. unfold packet_scope, accepts_flow, destination_endpoint, source_endpoint. simpl.
  destruct (p_direction p); [apply orb_comm|done].
Qed.

(** ** Properties *)

Inductive Edit := Upsert (service : ServiceConfig) | DeletePort (port : Z).

Definition edit (r : ServiceRegistry) (e : Edit) : ServiceRegistry :=
  match e with Upsert s => upsert r s | DeletePort p => (delete_port r p).2 end.

(** What the last edit of a port says. *)
Fixpoint last_edit (edits : list Edit) (port : Z) (before : option ServiceConfig)
  : option ServiceConfig :=
  match edits with
  | [] => before
  | Upsert s :: l => last_edit l port (if decide (sc_port s = port) then Some s else before)
  | DeletePort p :: l => last_edit l port (if decide (p = port) then None else before)
  end.

Lemma edits_ok edits r : registry_ok r -> registry_ok (fold_left edit edits r).
Proof.
  revert r. induction edits as [|[s|p] l IH]; simpl; intros r Hr; [done| |]; apply IH;
    [by apply upsert_ok|by apply delete_port_ok].
Qed.

Lemma edits_lookup edits r p :
  by_port (fold_left edit edits r) p = last_edit edits p (by_port r p).
Proof.
  revert r. induction edits as [|[s|q] l IH]; simpl; intros r; [done| |]; rewrite IH; f_equal; unfold by_port.
  - simpl. destruct (decide (sc_port s = p)) as [<-|]; [by rewrite lookup_insert_eq|by rewrite lookup_insert_ne].
  - unfold delete_port. destruct (by_port_map r !! q) eqn:E; simpl; destruct (decide (q = p)) as [<-|];
      by rewrite ?lookup_delete_eq, ?lookup_delete_ne.
Qed.

Lemma sorted_ports l :
  Sorted port_le l -> NoDup (map sc_port l) -> StronglySorted Z.lt (map sc_port l).
Proof.
  intros Hs Hn. apply Sorted_StronglySorted in Hs; [|intros ? ? ?; unfold port_le; lia].
  induction Hs as [|s l Hs IH Hall]; simpl in *; [constructor|].
  apply NoDup_cons in Hn as [Hni Hn]. constructor; [by apply IH|].
  apply Forall_forall. intros p Hp. assert (sc_port s <> p) by congruence.
  apply list_elem_of_fmap in Hp as (x & -> & Hx). eapply Forall_forall in Hall; [|done].
  unfold port_le in Hall. lia.
Qed.

(** The service list: after any edits of a registry, the listing is strictly
    ordered by port and holds exactly the services of the last edits, and a
    packet's port is accepted exactly when its last edit added a service. *)
Theorem registry_lists_last_edits initial edits :
  let r := fold_left edit edits (ServiceRegistry_new initial) in
  StronglySorted Z.lt (map sc_port (list_services r)) /\
  (forall s, s ∈ list_services r <->
    last_edit edits (sc_port s) (by_port (ServiceRegistry_new initial) (sc_port s)) = Some s) /\
  forall p, accepts_port r p =
    bool_decide (is_Some (last_edit edits p (by_port (ServiceRegistry_new initial) p))).
Proof.
  intros r. assert (registry_ok r) as Hr by apply edits_ok, registry_new_ok.
  assert (forall s, s ∈ map snd (map_to_list (by_port_map r)) <-> by_port r (sc_port s) = Some s) as Hin.
  { intros s. split.
    - intros ([p x] & -> & H)%list_elem_of_fmap. apply elem_of_map_to_list in H. simpl.
      by rewrite (Hr _ _ H).
    - intros H. apply list_elem_of_fmap. exists (sc_port s, s). by rewrite elem_of_map_to_list. }
  unfold list_services. split; [|split].
  - apply sorted_ports; [apply Sorted_merge_sort; intros ? ?; unfold port_le; lia|].
    rewrite merge_sort_Permutation.
    assert (map sc_port (map snd (map_to_list (by_port_map r))) = map fst (map_to_list (by_port_map r))) as ->.
    { rewrite map_map. apply map_ext_in. intros [p s] H. simpl. apply Hr.
      by apply elem_of_map_to_list, list_elem_of_In. }
    apply NoDup_fst_map_to_list.
  - intros s. rewrite merge_sort_Permutation, Hin. unfold r. by rewrite edits_lookup.
  - intros p. unfold r. rewrite <- edits_lookup. done.
Qed.
