(* ===== verification/Flow.v ===== *)
(** * The flow engine ([src/src/flow/mod.rs])

    One shard of the flow table: admission, TCP generations and tombstones,
    reassembly of both halves, idle timers, and what it sends to the L7 workers.
    [shard_loop] is the function [loop_iteration] on the pair of the shard's own
    state ([Shard]) and what it shares with other threads ([World]: the atomic
    counters and the channel).  Every call of [Instant::now] is an argument of its
    own (the record [Times]); [Uuid::new_v4] is the argument [fresh]; whether the
    n-th send succeeds is the parameter [link]; the hash map's iteration order is
    the parameter [iter].  [None] is a panic. *)

From stdpp Require Import fin_maps.
From S2P Require Import Prelude BTree Model Services Reassembly.

(** ** Counters ([Metrics]) *)

Inductive Counter :=
  | FlowQueueDepth | PacketsReceived | PacketBytes | PacketsFiltered
  | ActiveFlows | FlowStateRejections | FlowPrefixRejections | FlowsCompleted
  | TcpRetransmits | TcpOutOfOrder | TcpGapEvents | TcpGapBytes | TcpRejectedResets.

#[export] Instance Counter_eq_dec : EqDecision Counter.
Proof. solve_decision. Defined.

Definition Metrics := Counter -> Z.

Definition store (m : Metrics) (c : Counter) (v : Z) : Metrics :=
  fun c' => if decide (c' = c) then v else m c'.

Definition fetch_add (m : Metrics) (c : Counter) (n : Z) : Metrics :=
  store m c (wrapping_add 64 (m c) n).

Definition fetch_sub (m : Metrics) (c : Counter) (n : Z) : Metrics :=
  store m c (wrapping_sub 64 (m c) n).

Definition queue_dequeued (m : Metrics) (c : Counter) : Metrics := store m c (sat_sub (m c) 1).

(** ** What the shard shares *)

Record World := { metrics : Metrics; out : list FlowOutput; sends : nat }.

Definition count (w : World) (c : Counter) (n : Z) : World :=
  {| metrics := fetch_add (metrics w) c n; out := out w; sends := sends w |}.

Definition uncount (w : World) (c : Counter) (n : Z) : World :=
  {| metrics := fetch_sub (metrics w) c n; out := out w; sends := sends w |}.

Definition dequeue (w : World) : World :=
  {| metrics := queue_dequeued (metrics w) FlowQueueDepth; out := out w; sends := sends w |}.

(** ** Tombstones *)

Definition TCP_TOMBSTONE_TTL : Z := 2 * 10 ^ 9.
Definition TCP_TOMBSTONE_MAX : Z := 65536.

Record TcpTombstones := { by_key : gmap FlowKey Z; order : list (Z * FlowKey) }.

Definition TcpTombstones_new : TcpTombstones := {| by_key := ∅; order := [] |}.

(** Removes [key] if its deadline is still [deadline]. *)
Definition forget (m : gmap FlowKey Z) (deadline : Z) (key : FlowKey) : gmap FlowKey Z :=
  match m !! key with
  | Some current => if current =? deadline then delete key m else m
  | None => m
  end.

Fixpoint expire_loop (m : gmap FlowKey Z) (order : list (Z * FlowKey)) (now : Z) : TcpTombstones :=
  match order with
  | (deadline, key) :: order' =>
      if deadline <=? now then expire_loop (forget m deadline key) order' now
      else {| by_key := m; order := order |}
  | [] => {| by_key := m; order := [] |}
  end.

Definition expire (t : TcpTombstones) (now : Z) : TcpTombstones :=
  expire_loop (by_key t) (order t) now.

Definition contains_live (t : TcpTombstones) (key : FlowKey) (now : Z) : bool * TcpTombstones :=
  let t := expire t now in
  (match by_key t !! key with Some deadline => now <? deadline | None => false end, t).

Definition tomb_remove (t : TcpTombstones) (key : FlowKey) : TcpTombstones :=
  {| by_key := delete key (by_key t); order := order t |}.

Fixpoint shrink_loop (m : gmap FlowKey Z) (order : list (Z * FlowKey)) : TcpTombstones :=
  if TCP_TOMBSTONE_MAX <? Z.of_nat (size m) then
    match order with
    | (deadline, key) :: order => shrink_loop (forget m deadline key) order
    | [] => {| by_key := m; order := [] |}
    end
  else {| by_key := m; order := order |}.

Definition tomb_insert (t : TcpTombstones) (key : FlowKey) (now : Z) : TcpTombstones :=
  let deadline := now + TCP_TOMBSTONE_TTL in
  let t := {| by_key := <[key := deadline]> (by_key t); order := order t ++ [(deadline, key)] |} in
  let t := expire t now in
  shrink_loop (by_key t) (order t).

(** ** Flows *)

Inductive SourcePrefix := P4 (net : Z) | P6 (net : bytes).

#[export] Instance SourcePrefix_eq_dec : EqDecision SourcePrefix.
Proof. solve_decision. Defined.

#[export] Instance SourcePrefix_countable : Countable SourcePrefix :=
  inj_countable' (fun p => match p with P4 n => inl n | P6 n => inr n end)
    (fun s => match s with inl n => P4 n | inr n => P6 n end) ltac:(by intros []).

Definition from_packet (p : ParsedPacket) : SourcePrefix :=
  match ep_ip (source_endpoint p) with
  | V4 o => P4 (Z.shiftr (from_be_bytes o) 8)
  | V6 o => P6 (take 8 o)
  end.

Record FlowState := {
  f_id : FlowId;
  f_key : FlowKey;
  initiator : Direction;
  source_prefix : SourcePrefix;
  started_ns : Z;
  last_seen_ns : Z;
  last_activity : Z;
  a_to_b : TcpHalf;
  b_to_a : TcpHalf;
  packets_a_to_b : Z;
  packets_b_to_a : Z;
  bytes_a_to_b : Z;
  bytes_b_to_a : Z;
  f_truncated : bool;
  visible : bool;
  last_snapshot : Z
}.

(** The readings of [Instant::now] while one packet is handled, by call site. *)
Record Times := {
  tombstone_now : Z;
  created_now : Z;
  created_snapshot_now : Z;
  counted_now : Z;
  snapshot_now : Z;
  timer_now : Z;
  closed_now : Z
}.

Definition FlowState_new (packet : ParsedPacket) (fresh : FlowId) (t : Times) : FlowState :=
  {| f_id := fresh; f_key := p_key packet; initiator := p_direction packet;
     source_prefix := from_packet packet; started_ns := p_ts_ns packet;
     last_seen_ns := p_ts_ns packet; last_activity := created_now t;
     a_to_b := TcpHalf_default; b_to_a := TcpHalf_default;
     packets_a_to_b := 0; packets_b_to_a := 0; bytes_a_to_b := 0; bytes_b_to_a := 0;
     f_truncated := false; visible := false; last_snapshot := created_snapshot_now t |}.

Definition half (s : FlowState) (d : Direction) : TcpHalf :=
  match d with AToB => a_to_b s | BToA => b_to_a s end.

Definition set_half (s : FlowState) (d : Direction) (h : TcpHalf) : FlowState :=
  {| f_id := f_id s; f_key := f_key s; initiator := initiator s; source_prefix := source_prefix s;
     started_ns := started_ns s; last_seen_ns := last_seen_ns s; last_activity := last_activity s;
     a_to_b := match d with AToB => h | BToA => a_to_b s end;
     b_to_a := match d with AToB => b_to_a s | BToA => h end;
     packets_a_to_b := packets_a_to_b s; packets_b_to_a := packets_b_to_a s;
     bytes_a_to_b := bytes_a_to_b s; bytes_b_to_a := bytes_b_to_a s;
     f_truncated := f_truncated s; visible := visible s; last_snapshot := last_snapshot s |}.

Definition set_truncated (s : FlowState) : FlowState :=
  {| f_id := f_id s; f_key := f_key s; initiator := initiator s; source_prefix := source_prefix s;
     started_ns := started_ns s; last_seen_ns := last_seen_ns s; last_activity := last_activity s;
     a_to_b := a_to_b s; b_to_a := b_to_a s; packets_a_to_b := packets_a_to_b s;
     packets_b_to_a := packets_b_to_a s; bytes_a_to_b := bytes_a_to_b s;
     bytes_b_to_a := bytes_b_to_a s; f_truncated := true; visible := visible s;
     last_snapshot := last_snapshot s |}.

Definition set_visible (s : FlowState) (snapshot : Z) : FlowState :=
  {| f_id := f_id s; f_key := f_key s; initiator := initiator s; source_prefix := source_prefix s;
     started_ns := started_ns s; last_seen_ns := last_seen_ns s; last_activity := last_activity s;
     a_to_b := a_to_b s; b_to_a := b_to_a s; packets_a_to_b := packets_a_to_b s;
     packets_b_to_a := packets_b_to_a s; bytes_a_to_b := bytes_a_to_b s;
     bytes_b_to_a := bytes_b_to_a s; f_truncated := f_truncated s; visible := true;
     last_snapshot := snapshot |}.

Definition is_syn_retransmit (s : FlowState) (p : ParsedPacket) : bool :=
  syn (p_flags p) && negb (ack_flag (p_flags p)) &&
  match p_seq p with Some _ => true | None => false end &&
  bool_decide (initial_syn_seq (half s (p_direction p)) = p_seq p).

Definition count_packet (s : FlowState) (p : ParsedPacket) (now : Z) : FlowState :=
  let add x n := wrapping_add 64 x n in
  let len := blen (p_payload p) in
  let a := match p_direction p with AToB => true | BToA => false end in
  {| f_id := f_id s; f_key := f_key s; initiator := initiator s; source_prefix := source_prefix s;
     started_ns := started_ns s; last_seen_ns := p_ts_ns p; last_activity := now;
     a_to_b := a_to_b s; b_to_a := b_to_a s;
     packets_a_to_b := if a then add (packets_a_to_b s) 1 else packets_a_to_b s;
     packets_b_to_a := if a then packets_b_to_a s else add (packets_b_to_a s) 1;
     bytes_a_to_b := if a then add (bytes_a_to_b s) len else bytes_a_to_b s;
     bytes_b_to_a := if a then bytes_b_to_a s else add (bytes_b_to_a s) len;
     f_truncated := f_truncated s; visible := visible s; last_snapshot := last_snapshot s |}.

Definition should_close (s : FlowState) (rst_accepted : bool) : bool :=
  rst_accepted || (fin_consumed (a_to_b s) && fin_consumed (b_to_a s)).

Definition summary (s : FlowState) : FlowSummary :=
  let '(src, dst, packets_c2s, packets_s2c, bytes_c2s, bytes_s2c) :=
    match initiator s with
    | AToB => (fk_a (f_key s), fk_b (f_key s), packets_a_to_b s, packets_b_to_a s,
               bytes_a_to_b s, bytes_b_to_a s)
    | BToA => (fk_b (f_key s), fk_a (f_key s), packets_b_to_a s, packets_a_to_b s,
               bytes_b_to_a s, bytes_a_to_b s)
    end in
  {| sm_flow_id := f_id s; sm_started_at := started_ns s; sm_ended_at := last_seen_ns s;
     sm_src_ip := ep_ip src; sm_dst_ip := ep_ip dst; sm_src_port := ep_port src;
     sm_dst_port := ep_port dst; sm_protocol := fk_protocol (f_key s); sm_service := None;
     sm_packets_c2s := packets_c2s; sm_packets_s2c := packets_s2c; sm_bytes_c2s := bytes_c2s;
     sm_bytes_s2c := bytes_s2c; sm_truncated := f_truncated s |}.

(** ** Timers: the binary heap as a list in the order it is popped *)

Record TimerItem := { deadline : Z; tm_serial : Z; tm_key : FlowKey; tm_flow_id : FlowId }.

(** Less urgent in the heap's (reversed) order. *)
Definition timer_before (a b : TimerItem) : bool :=
  (deadline a <? deadline b) || ((deadline a =? deadline b) && (tm_serial a <=? tm_serial b)).

Fixpoint timer_push (x : TimerItem) (l : list TimerItem) : list TimerItem :=
  match l with
  | [] => [x]
  | y :: l => if timer_before x y then x :: y :: l else y :: timer_push x l
  end.

(** ** The shard *)

Record FlowConfig := {
  max_active_flows : Z;
  max_flows_per_source_prefix : Z;
  max_ooo_bytes : Z;
  max_ooo_segments : Z;
  tcp_gap_timeout : Z;
  tcp_idle_timeout : Z;
  udp_idle_timeout : Z;
  live_flow_update_interval : Z
}.

Definition idle_timeout (cfg : FlowConfig) (p : TransportProtocol) : Z :=
  match p with Tcp => tcp_idle_timeout cfg | Udp => udp_idle_timeout cfg end.

Record Shard := {
  flows : gmap FlowKey FlowState;
  tombstones : TcpTombstones;
  timers : list TimerItem;
  source_counts : gmap SourcePrefix Z;
  serial : Z
}.

Definition Shard_new : Shard :=
  {| flows := ∅; tombstones := TcpTombstones_new; timers := []; source_counts := ∅; serial := 0 |}.

Definition set_flows (s : Shard) (m : gmap FlowKey FlowState) : Shard :=
  {| flows := m; tombstones := tombstones s; timers := timers s;
     source_counts := source_counts s; serial := serial s |}.

Definition set_tombstones (s : Shard) (t : TcpTombstones) : Shard :=
  {| flows := flows s; tombstones := t; timers := timers s;
     source_counts := source_counts s; serial := serial s |}.

Definition set_source_counts (s : Shard) (m : gmap SourcePrefix Z) : Shard :=
  {| flows := flows s; tombstones := tombstones s; timers := timers s;
     source_counts := m; serial := serial s |}.

Definition set_timers (s : Shard) (l : list TimerItem) (n : Z) : Shard :=
  {| flows := flows s; tombstones := tombstones s; timers := l;
     source_counts := source_counts s; serial := n |}.

Section Engine.
Context (link : nat -> bool).
Context (cfg : FlowConfig).

Definition tcp_gap_timeout_ns : Z := Z.min (tcp_gap_timeout cfg) u64_MAX.

(** [L7Ingress::send]: accepted, or refused because the worker stopped. *)
Definition send (w : World) (msg : FlowOutput) : bool * World :=
  if link (sends w)
  then (true, {| metrics := metrics w; out := out w ++ [msg]; sends := S (sends w) |})
  else (false, {| metrics := metrics w; out := out w; sends := S (sends w) |}).

Definition try_admit_flow (w : World) : bool * World :=
  if metrics w ActiveFlows <? max_active_flows cfg
  then (true, {| metrics := store (metrics w) ActiveFlows (metrics w ActiveFlows + 1);
                 out := out w; sends := sends w |})
  else (false, w).

Definition chunk_message (s : FlowState) (direction : Direction) (key : FlowKey) (flow_id : FlowId)
  (c : ReassembledChunk) : FlowOutput :=
  Chunk {| ch_flow_id := flow_id; ch_ts_ns := chunk_ts_ns c; ch_direction := direction;
           ch_key := key; ch_offset := chunk_offset c; ch_data := chunk_data c;
           ch_truncated := f_truncated s |}.

Fixpoint send_chunks (s : FlowState) (chunks : list ReassembledChunk) (direction : Direction)
  (key : FlowKey) (flow_id : FlowId) (w : World) : FlowState * World :=
  match chunks with
  | [] => (s, w)
  | c :: chunks =>
      let '(ok, w) := send w (chunk_message s direction key flow_id c) in
      if ok then send_chunks s chunks direction key flow_id w else (set_truncated s, w)
  end.

Definition gap_sum (gs : list StreamGap) : Z :=
  fold_left (fun acc g => wrapping_add 64 acc (gap_len g)) gs 0.

Definition emit_tcp_outcome (s : FlowState) (outcome : ReassemblyOutcome) (direction : Direction)
  (key : FlowKey) (flow_id : FlowId) (w : World) : bool * FlowState * World :=
  let w :=
    if is_empty (gaps outcome) then w
    else count (count w TcpGapEvents (blen (gaps outcome))) TcpGapBytes (gap_sum (gaps outcome)) in
  let '(s, w) := send_chunks s (emitted outcome) direction key flow_id w in
  (negb (is_empty (emitted outcome)), s, w).

Definition finalize_tcp_halves (s : FlowState) (key : FlowKey) (w : World)
  : option (FlowState * World) :=
  match fk_protocol key with
  | Udp => Some (s, w)
  | Tcp =>
      let flow_id := f_id s in
      '(ha, a) ← finalize (a_to_b s);
      '(hb, b) ← finalize (b_to_a s);
      let s := set_half (set_half s AToB ha) BToA hb in
      let '(emitted_a, s, w) := emit_tcp_outcome s a AToB key flow_id w in
      let '(emitted_b, s, w) := emit_tcp_outcome s b BToA key flow_id w in
      Some (if emitted_a || emitted_b then set_visible s (last_snapshot s) else s, w)
  end.

(** One flow fewer of this source. *)
Definition release (counts : gmap SourcePrefix Z) (p : SourcePrefix) : gmap SourcePrefix Z :=
  match counts !! p with
  | Some c =>
      let c := sat_sub c 1 in
      if c =? 0 then delete p counts else <[p := c]> counts
  | None => counts
  end.

(** What happens to a flow that leaves the table. *)
Definition retire (s : FlowState) (key : FlowKey) (counts : gmap SourcePrefix Z) (w : World)
  : option (gmap SourcePrefix Z * World) :=
  '(s, w) ← finalize_tcp_halves s key w;
  let w := if visible s
           then count (send w (Closed (summary s))).2 FlowsCompleted 1 else w in
  let w := uncount w ActiveFlows 1 in
  Some (release counts (source_prefix s), w).

Definition close_flow (sh : Shard) (key : FlowKey) (w : World) : option (Shard * World) :=
  match flows sh !! key with
  | None => Some (sh, w)
  | Some s =>
      '(counts, w) ← retire s key (source_counts sh) w;
      Some (set_source_counts (set_flows sh (delete key (flows sh))) counts, w)
  end.

(** ** One packet *)

(** The tombstone check: [true] when the packet is a tail of a closed generation. *)
Definition check_tombstone (sh : Shard) (packet : ParsedPacket) (t : Times) : bool * Shard :=
  let key := p_key packet in
  let f := p_flags packet in
  match fk_protocol key with
  | Udp => (false, sh)
  | Tcp =>
      if syn f && negb (ack_flag f) then (false, set_tombstones sh (tomb_remove (tombstones sh) key))
      else if negb (bool_decide (is_Some (flows sh !! key))) && negb (syn f) then
        let '(live, tombs) := contains_live (tombstones sh) key (tombstone_now t) in
        (live && (fin f || rst f || is_empty (p_payload packet)), set_tombstones sh tombs)
      else (false, sh)
  end.

(** A genuinely new SYN closes the generation before it. *)
Definition check_generation (sh : Shard) (packet : ParsedPacket) (w : World)
  : option (Shard * World) :=
  let f := p_flags packet in
  let new_generation :=
    match fk_protocol (p_key packet), flows sh !! p_key packet with
    | Tcp, Some existing => syn f && negb (ack_flag f) && negb (is_syn_retransmit existing packet)
    | _, _ => false
    end in
  if new_generation then close_flow sh (p_key packet) w else Some (sh, w).

(** The state the packet belongs to and whether it is new; [None] when the packet
    is refused. *)
Definition find_or_create (sh : Shard) (services : ServiceRegistry) (packet : ParsedPacket)
  (fresh : FlowId) (t : Times) (w : World) : option (FlowState * bool) * Shard * World :=
  match flows sh !! p_key packet with
  | Some s => (Some (s, false), sh, w)
  | None =>
      if negb (accepts_destination services packet) then (None, sh, count w PacketsFiltered 1)
      else
        let '(admitted, w) := try_admit_flow w in
        if negb admitted then (None, sh, count w FlowStateRejections 1)
        else
          let source := from_packet packet in
          let c := default 0 (source_counts sh !! source) in
          let sh := set_source_counts sh (<[source := c]> (source_counts sh)) in
          if max_flows_per_source_prefix cfg <=? c
          then (None, sh, count (uncount w ActiveFlows 1) FlowPrefixRejections 1)
          else
            let sh := set_source_counts sh (<[source := wrapping_add 64 c 1]> (source_counts sh)) in
            let s := FlowState_new packet fresh t in
            (Some (s, true), set_flows sh (<[p_key packet := s]> (flows sh)), w)
  end.

(** The cumulative ACK of the packet, told to the opposite half. *)
Definition handle_ack (s : FlowState) (packet : ParsedPacket) (rst_accepted : bool) (w : World)
  : option (bool * FlowState * World) :=
  let f := p_flags packet in
  let dir := opposite (p_direction packet) in
  if ack_flag f && (negb (rst f) || rst_accepted) then
    match p_ack packet with
    | Some ack =>
        '(h, outcome) ← acknowledge (half s dir) ack (p_ts_ns packet) tcp_gap_timeout_ns;
        Some (emit_tcp_outcome (set_half s dir h) outcome dir (p_key packet) (f_id s) w)
    | None => Some (false, s, w)
    end
  else Some (false, s, w).

(** The segment itself, unless it is a reset or a pure ACK. *)
Definition handle_segment (s : FlowState) (packet : ParsedPacket) (w : World)
  : option (bool * FlowState * World) :=
  let f := p_flags packet in
  let dir := p_direction packet in
  if negb (rst f)
     && (negb (is_empty (p_payload packet)) || syn f || fin f || negb (is_initialized (half s dir)))
  then
    '(h, outcome) ← accept (half s dir) (default 0 (p_seq packet)) (syn f) (fin f) (p_ts_ns packet)
                      (p_payload packet) (max_ooo_bytes cfg) (max_ooo_segments cfg)
                      tcp_gap_timeout_ns;
    let w := if retransmit outcome then count w TcpRetransmits 1 else w in
    let w := if saw_out_of_order outcome then count w TcpOutOfOrder 1 else w in
    Some (emit_tcp_outcome (set_half s dir h) outcome dir (p_key packet) (f_id s) w)
  else Some (false, s, w).

(** The TCP arm: emitted content, accepted reset, state and world. *)
Definition handle_tcp (s : FlowState) (packet : ParsedPacket) (w : World)
  : option (bool * bool * FlowState * World) :=
  let f := p_flags packet in
  let rst_accepted :=
    rst f && rst_matches_next (half s (p_direction packet)) (default 0 (p_seq packet)) in
  let w := if rst f && negb rst_accepted then count w TcpRejectedResets 1 else w in
  '(emitted_ack, s, w) ← handle_ack s packet rst_accepted w;
  '(emitted_data, s, w) ← handle_segment s packet w;
  Some (emitted_ack || emitted_data, rst_accepted, s, w).

Definition handle_udp (s : FlowState) (packet : ParsedPacket) (w : World)
  : bool * FlowState * World :=
  if is_empty (p_payload packet) then (false, s, w)
  else
    let dir := p_direction packet in
    let '(offset, h) := reserve_udp_offset (half s dir) (blen (p_payload packet)) in
    let s := set_half s dir h in
    let msg := Chunk {| ch_flow_id := f_id s; ch_ts_ns := p_ts_ns packet; ch_direction := dir;
                        ch_key := p_key packet; ch_offset := offset;
                        ch_data := p_payload packet; ch_truncated := f_truncated s |} in
    let '(ok, w) := send w msg in
    (true, if ok then s else set_truncated s, w).

(** The live snapshot after emitted content. *)
Definition publish (s : FlowState) (emitted_content : bool) (now : Z) (w : World)
  : FlowState * World :=
  if emitted_content
     && (negb (visible s) || (live_flow_update_interval cfg <=? sat_sub now (last_snapshot s)))
  then
    let s := set_visible s now in
    let '(ok, w) := send w (Snapshot (summary s)) in
    (if ok then s else set_truncated s, w)
  else (s, w).

(** The end of the handler: the lifetime timer of a new flow, and the close. *)
Definition schedule_or_close (sh : Shard) (s : FlowState) (packet : ParsedPacket)
  (is_new rst_accepted : bool) (t : Times) (w : World) : option (Shard * World) :=
  let key := p_key packet in
  let close := should_close s rst_accepted in
  let sh :=
    if is_new && negb close then
      let n := wrapping_add 64 (serial sh) 1 in
      set_timers sh
        (timer_push {| deadline := timer_now t + idle_timeout cfg (fk_protocol key);
                       tm_serial := n; tm_key := key; tm_flow_id := f_id s |} (timers sh)) n
    else sh in
  if close then
    let sh := match fk_protocol key with
              | Tcp => set_tombstones sh (tomb_insert (tombstones sh) key (closed_now t))
              | Udp => sh
              end in
    close_flow sh key w
  else Some (sh, w).

(** The [Ok(packet)] arm of [shard_loop]; [false] is a [continue], which starts
    the next turn of the loop at once. *)
Definition handle_packet (services : ServiceRegistry) (packet : ParsedPacket) (fresh : FlowId)
  (t : Times) (sh : Shard) (w : World) : option (bool * Shard * World) :=
  let w := dequeue w in
  let '(suppressed, sh) := check_tombstone sh packet t in
  if suppressed then Some (false, sh, w)
  else
    '(sh, w) ← check_generation sh packet w;
    match find_or_create sh services packet fresh t w with
    | (None, sh, w) => Some (false, sh, w)
    | (Some (s, is_new), sh, w) =>
        let w := count (count w PacketsReceived 1) PacketBytes (p_wire_len packet) in
        let s := count_packet s packet (counted_now t) in
        '(emitted_content, rst_accepted, s, w) ←
          match fk_protocol (p_key packet) with
          | Tcp => handle_tcp s packet w
          | Udp => let '(e, s, w) := handle_udp s packet w in Some (e, false, s, w)
          end;
        let '(s, w) := publish s emitted_content (snapshot_now t) w in
        let sh := set_flows sh (<[p_key packet := s]> (flows sh)) in
        '(sh, w) ← schedule_or_close sh s packet is_new rst_accepted t w;
        Some (true, sh, w)
    end.

(** ** Timers *)

Fixpoint run_timers (fuel : nat) (now : Z) (sh : Shard) (w : World) : option (Shard * World) :=
  match timers sh with
  | [] => Some (sh, w)
  | item :: rest =>
      if now <? deadline item then Some (sh, w)
      else
        match fuel with
        | O => None
        | S fuel =>
            let sh := set_timers sh rest (serial sh) in
            match flows sh !! tm_key item with
            | None => run_timers fuel now sh w
            | Some s =>
                if negb (f_id s =? tm_flow_id item) then run_timers fuel now sh w
                else
                  let next_deadline := last_activity s + idle_timeout cfg (fk_protocol (f_key s)) in
                  if next_deadline <=? now then
                    '(sh, w) ← close_flow sh (tm_key item) w;
                    run_timers fuel now sh w
                  else
                    let n := wrapping_add 64 (serial sh) 1 in
                    run_timers fuel now
                      (set_timers sh
                         (timer_push {| deadline := next_deadline; tm_serial := n;
                                        tm_key := tm_key item; tm_flow_id := f_id s |} (timers sh)) n)
                      w
            end
        end
  end.

Context (iter : gmap FlowKey FlowState -> list (FlowKey * FlowState)).

Fixpoint rebuild (l : list (FlowKey * FlowState)) (heap : list TimerItem) (n : Z)
  : list TimerItem * Z :=
  match l with
  | [] => (heap, n)
  | (key, s) :: l =>
      let n := wrapping_add 64 n 1 in
      rebuild l
        (timer_push {| deadline := last_activity s + idle_timeout cfg (fk_protocol (f_key s));
                       tm_serial := n; tm_key := key; tm_flow_id := f_id s |} heap) n
  end.

Definition compact (sh : Shard) : Shard :=
  if (4096 <? blen (timers sh))
     && (sat_add (sat_mul (Z.of_nat (size (flows sh))) 2) 1024 <? blen (timers sh))
  then let '(heap, n) := rebuild (iter (flows sh)) [] (serial sh) in set_timers sh heap n
  else sh.

(** One turn of [shard_loop]: a packet or a receive timeout, then the timers
    (unless the packet ended the turn with [continue]). *)
Inductive Event :=
  | Packet (packet : ParsedPacket) (fresh : FlowId) (t : Times)
  | Timeout.

Definition loop_iteration (services : ServiceRegistry) (e : Event) (now : Z) (sh : Shard) (w : World)
  : option (Shard * World) :=
  '(completed, sh, w) ← match e with
                        | Packet packet fresh t => handle_packet services packet fresh t sh w
                        | Timeout => Some (true, sh, w)
                        end;
  if completed : bool then
    '(sh, w) ← run_timers (length (timers sh)) now sh w;
    Some (compact sh, w)
  else Some (sh, w).

(** The drain when the channel is disconnected. *)
Fixpoint drain (l : list (FlowKey * FlowState)) (counts : gmap SourcePrefix Z) (w : World)
  : option (gmap SourcePrefix Z * World) :=
  match l with
  | [] => Some (counts, w)
  | (key, s) :: l => '(counts, w) ← retire s key counts w; drain l counts w
  end.

Definition shutdown (sh : Shard) (w : World) : option (Shard * World) :=
  '(counts, w) ← drain (iter (flows sh)) (source_counts sh) w;
  Some (set_source_counts (set_flows sh ∅) counts, w).
End Engine.

(** ** Choosing the shard *)

Definition shard_index (packet : ParsedPacket) (seed : Z) (shards : Z) : Z :=
  shard_hash64 (p_key packet) seed mod shards.
