(* ===== verification/FlowSpec.v ===== *)
(** * What the flow engine promises ([src/src/flow/mod.rs])

    The global flow budget and the per-source limits hold over every
    interleaving of the shards; idle flows are closed; the handler never panics;
    tombstones live for their time; a new SYN starts a new generation. *)

From stdpp Require Import fin_maps relations.
From S2P Require Import Prelude BTree Model Services Reassembly ReassemblyFacts ReassemblySpec Flow.

(** ** Frames: what the steps leave alone *)

Definition active (w : World) : Z := metrics w ActiveFlows.

Lemma active_count w c n : c <> ActiveFlows -> active (count w c n) = active w.
Proof. intros Hc. unfold active, count, fetch_add, store. cbn [metrics]. by rewrite decide_False by congruence. Qed.

Lemma active_uncount w n : active (uncount w ActiveFlows n) = wrapping_sub 64 (active w) n.
Proof. unfold active, uncount, fetch_sub, store. cbn [metrics]. by rewrite decide_True. Qed.

Lemma active_dequeue w : active (dequeue w) = active w.
Proof. unfold active, dequeue, queue_dequeued, store. cbn [metrics]. by rewrite decide_False. Qed.

(** The fields of a flow that its packets never change. *)
Record same_flow (s s' : FlowState) : Prop := {
  sf_id : f_id s' = f_id s;
  sf_key : f_key s' = f_key s;
  sf_prefix : source_prefix s' = source_prefix s;
  sf_initiator : initiator s' = initiator s
}.

#[export] Instance same_flow_preorder : PreOrder same_flow.
Proof. split; [by intros s|]. intros s1 s2 s3 [] []. split; congruence. Qed.

Section Engine.
Context (link : nat -> bool) (cfg : FlowConfig).

Lemma active_send w msg ok w' : send link w msg = (ok, w') -> active w' = active w.
Proof. unfold send. by destruct (link (sends w)); intros [= <- <-]. Qed.

Lemma send_chunks_frame s cs dir key id w s' w' :
  send_chunks link s cs dir key id w = (s', w') ->
  same_flow s s' /\ a_to_b s' = a_to_b s /\ b_to_a s' = b_to_a s /\
  last_activity s' = last_activity s /\ active w' = active w.
Proof.
  revert w. induction cs as [|c cs IH]; simpl; intros w; [by intros [= <- <-]|].
  destruct (send link w _) as [ok w1] eqn:E. apply active_send in E. destruct ok.
  - intros H. apply IH in H as (?&?&?&?&?). split; [done|]. repeat (split; [done|]). congruence.
  - by intros [= <- <-].
Qed.

Lemma emit_frame s o dir key id w b s' w' :
  emit_tcp_outcome link s o dir key id w = (b, s', w') ->
  same_flow s s' /\ a_to_b s' = a_to_b s /\ b_to_a s' = b_to_a s /\
  last_activity s' = last_activity s /\ active w' = active w.
Proof.
  unfold emit_tcp_outcome. destruct (send_chunks _ _ _ _ _ _ _) as [s1 w1] eqn:E.
  intros [= <- <- <-]. apply send_chunks_frame in E as (?&?&?&?&Ha).
  do 4 (split; [done|]). rewrite Ha. destruct (is_empty (gaps o)); [done|].
  by rewrite !active_count.
Qed.

Lemma finalize_halves_frame s key w s' w' :
  finalize_tcp_halves link s key w = Some (s', w') -> same_flow s s' /\ active w' = active w.
Proof.
  unfold finalize_tcp_halves. destruct (fk_protocol key); [|by intros [= <- <-]].
  destruct (finalize (a_to_b s)) as [[ha a]|]; [|done]. simpl.
  destruct (finalize (b_to_a s)) as [[hb b]|]; [|done]. simpl.
  destruct (emit_tcp_outcome _ _ a _ _ _ _) as [[e1 s1] w1] eqn:E1.
  destruct (emit_tcp_outcome _ _ b _ _ _ _) as [[e2 s2] w2] eqn:E2.
  apply emit_frame in E1 as (H1 & _ & _ & _ & A1). apply emit_frame in E2 as (H2 & _ & _ & _ & A2).
  intros [= <- <-]. split; [|congruence].
  assert (same_flow s s2) as H by (destruct H1, H2; split; simpl in *; congruence).
  destruct (e1 || e2); [|done]. by destruct H.
Qed.

Lemma retire_frame s key counts w counts' w' :
  retire link s key counts w = Some (counts', w') ->
  counts' = release counts (source_prefix s) /\ active w' = wrapping_sub 64 (active w) 1.
Proof.
  unfold retire. destruct (finalize_tcp_halves _ _ _ _) as [[s1 w1]|] eqn:E; [|done]. simpl.
  apply finalize_halves_frame in E as [[_ _ Hp _] Ha]. intros [= <- <-]. rewrite Hp.
  split; [done|]. rewrite active_uncount, <- Ha. f_equal.
  destruct (visible s1); [|done]. rewrite active_count by done.
  destruct (send link w1 _) as [ok w2] eqn:E. by apply active_send in E.
Qed.

Lemma handle_ack_frame s p r w e s' w' :
  handle_ack link cfg s p r w = Some (e, s', w') ->
  same_flow s s' /\ last_activity s' = last_activity s /\ active w' = active w.
Proof.
  unfold handle_ack. case_match; [|by intros [= <- <- <-]].
  destruct (p_ack p); [|by intros [= <- <- <-]].
  destruct (acknowledge _ _ _ _) as [[h o]|]; [|done]. simpl. intros [= E].
  apply emit_frame in E as ([] & _ & _ & L & A). split; [by split|done].
Qed.

Lemma handle_segment_frame s p w e s' w' :
  handle_segment link cfg s p w = Some (e, s', w') ->
  same_flow s s' /\ last_activity s' = last_activity s /\ active w' = active w.
Proof.
  unfold handle_segment. case_match; [|by intros [= <- <- <-]].
  destruct (accept _ _ _ _ _ _ _ _ _) as [[h o]|]; [|done]. simpl. intros [= E].
  apply emit_frame in E as ([] & _ & _ & L & A). split; [by split|]. split; [done|].
  rewrite A. destruct (retransmit o), (saw_out_of_order o); by rewrite ?active_count.
Qed.

Lemma handle_tcp_frame s p w e r s' w' :
  handle_tcp link cfg s p w = Some (e, r, s', w') ->
  same_flow s s' /\ last_activity s' = last_activity s /\ active w' = active w.
Proof.
  unfold handle_tcp. cbv zeta. set (r0 := rst (p_flags p) && _).
  destruct (handle_ack _ _ _ _ _ _) as [[[e1 s1] w1]|] eqn:E1; [|done]. simpl.
  destruct (handle_segment _ _ _ _ _) as [[[e2 s2] w2]|] eqn:E2; [|done]. simpl.
  apply handle_ack_frame in E1 as (F1 & L1 & A1). apply handle_segment_frame in E2 as (F2 & L2 & A2).
  intros [= <- <- <- <-]. split; [by etransitivity|]. split; [congruence|]. rewrite A2, A1.
  destruct (rst (p_flags p) && negb r0); [by rewrite active_count|done].
Qed.

Lemma handle_udp_frame s p w e s' w' :
  handle_udp link s p w = (e, s', w') ->
  same_flow s s' /\ last_activity s' = last_activity s /\ active w' = active w.
Proof.
  unfold handle_udp. destruct (is_empty (p_payload p)); [by intros [= <- <- <-]|].
  destruct (reserve_udp_offset _ _) as [o h]. destruct (send link w _) as [ok w1] eqn:E.
  apply active_send in E. destruct ok; by intros [= <- <- <-].
Qed.

Lemma publish_frame s e now w s' w' :
  publish link cfg s e now w = (s', w') ->
  same_flow s s' /\ last_activity s' = last_activity s /\ active w' = active w.
Proof.
  unfold publish. destruct (_ && _); [|by intros [= <- <-]].
  destruct (send link w _) as [ok w1] eqn:E. apply active_send in E.
  destruct ok; by intros [= <- <-].
Qed.

Lemma count_packet_frame s p now :
  same_flow s (count_packet s p now) /\ last_activity (count_packet s p now) = now.
Proof. by split. Qed.

(** ** The flow budget *)

Definition has_prefix (p : SourcePrefix) (s : FlowState) : Z :=
  if decide (source_prefix s = p) then 1 else 0.

(** Flows of one source in the table. *)
Definition prefix_count (p : SourcePrefix) (m : gmap FlowKey FlowState) : Z := map_sum (has_prefix p) m.

Lemma prefix_count_nonneg p m : 0 <= prefix_count p m.
Proof. apply map_sum_nonneg. intros k s _. unfold has_prefix. by destruct (decide _). Qed.

(** The shard's books: every flow is filed under its key, and the counter of each
    source is the number of its flows, within the limit. *)
Record books (sh : Shard) : Prop := {
  bk_key : forall k s, flows sh !! k = Some s -> f_key s = k;
  bk_counts : forall p, default 0 (source_counts sh !! p) = prefix_count p (flows sh);
  bk_limit : forall p, prefix_count p (flows sh) <= max_flows_per_source_prefix cfg
}.

Definition table_size (sh : Shard) : Z := Z.of_nat (size (flows sh)).

(** The global counter is this shard's flows plus the [others]. *)
Definition budget (others : Z) (sh : Shard) (w : World) : Prop :=
  active w = others + table_size sh /\ 0 <= others /\ active w <= max_active_flows cfg.

Lemma release_default counts p q :
  0 < default 0 (counts !! p) ->
  default 0 (release counts p !! q) = default 0 (counts !! q) - if decide (p = q) then 1 else 0.
Proof.
  unfold release. destruct (counts !! p) as [c|] eqn:E; simpl; [|lia]. intros Hc.
  rewrite sat_sub_ge by lia. destruct (c - 1 =? 0) eqn:Ez; reflect_bools; destruct (decide (p = q)) as [<-|Hn].
  - rewrite lookup_delete_eq, E. simpl. lia.
  - rewrite lookup_delete_ne by done. lia.
  - rewrite lookup_insert_eq, E. done.
  - rewrite lookup_insert_ne by done. lia.
Qed.

Lemma prefix_count_pos p m k s : m !! k = Some s -> source_prefix s = p -> 0 < prefix_count p m.
Proof.
  intros Hk Hp. unfold prefix_count. rewrite (map_sum_delete _ k s m Hk).
  pose proof (prefix_count_nonneg p (delete k m)). unfold prefix_count in *.
  unfold has_prefix at 1. rewrite decide_True by done. lia.
Qed.

Lemma size_delete_Some {V} (m : gmap FlowKey V) k v :
  m !! k = Some v -> Z.of_nat (size m) = Z.of_nat (size (delete k m)) + 1.
Proof.
  intros Hk. pose proof (map_size_delete k m) as Hs. rewrite Hk in Hs.
  assert (size m <> 0%nat) by (rewrite map_size_ne_0_lookup; eauto). simpl in Hs. lia.
Qed.

Lemma delete_books sh k s :
  books sh -> flows sh !! k = Some s ->
  books (set_source_counts (set_flows sh (delete k (flows sh)))
           (release (source_counts sh) (source_prefix s))).
Proof.
  intros [Hk Hc Hl] Hs.
  assert (forall p, prefix_count p (delete k (flows sh)) =
    prefix_count p (flows sh) - if decide (source_prefix s = p) then 1 else 0) as Hd.
  { intros p. unfold prefix_count. rewrite (map_sum_delete _ k s (flows sh) Hs).
    unfold has_prefix at 2. lia. }
  split; simpl.
  - intros k' s' [_ H]%lookup_delete_Some. by apply Hk.
  - intros p. rewrite release_default; rewrite Hc; [by rewrite Hd|].
    by apply prefix_count_pos with k s.
  - intros p. rewrite Hd. pose proof (Hl p). destruct (decide _); lia.
Qed.

Lemma close_flow_ok others sh key w sh' w' :
  books sh -> budget others sh w -> max_active_flows cfg <= u64_MAX ->
  close_flow link sh key w = Some (sh', w') ->
  books sh' /\ budget others sh' w' /\ flows sh' = delete key (flows sh) /\
  timers sh' = timers sh /\ serial sh' = serial sh /\ tombstones sh' = tombstones sh.
Proof.
  intros Hb (Ha & Ho & Hm) Hu. unfold close_flow. destruct (flows sh !! key) as [s|] eqn:Es.
  2: { intros [= <- <-]. split; [done|]. split; [done|]. by rewrite delete_id. }
  destruct (retire _ _ _ _ _) as [[counts w1]|] eqn:E; [|done]. simpl. intros [= <- <-].
  apply retire_frame in E as [-> Ha1]. split; [by apply delete_books|]. split; [|done].
  pose proof (size_delete_Some _ _ _ Es) as Hz. unfold budget, table_size in *. simpl.
  rewrite Ha1. unfold wrapping_sub. rewrite wrap_small by (unfold u64_MAX in *; lia). lia.
Qed.

Lemma update_books sh k s s' :
  books sh -> flows sh !! k = Some s -> same_flow s s' ->
  books (set_flows sh (<[k := s']> (flows sh))).
Proof.
  intros [Hk Hc Hl] Hs [_ Hfk Hp _].
  assert (forall p, prefix_count p (<[k := s']> (flows sh)) = prefix_count p (flows sh)) as Hd.
  { intros p. unfold prefix_count. rewrite (map_sum_update _ k s) by done.
    unfold has_prefix. rewrite Hp. lia. }
  split; simpl.
  - intros k' x [[<- <-]|[_ H]]%lookup_insert_Some; [|by apply Hk]. rewrite Hfk. by apply Hk.
  - intros p. by rewrite Hd.
  - intros p. by rewrite Hd.
Qed.

Lemma books_ext sh sh' :
  flows sh' = flows sh -> source_counts sh' = source_counts sh -> books sh -> books sh'.
Proof. intros Hf Hs []. split; rewrite ?Hf, ?Hs; done. Qed.

Lemma budget_ext others sh sh' w w' :
  flows sh' = flows sh -> active w' = active w -> budget others sh w -> budget others sh' w'.
Proof. unfold budget, table_size. by intros -> ->. Qed.

Lemma check_tombstone_frame sh p t b sh' :
  check_tombstone sh p t = (b, sh') ->
  flows sh' = flows sh /\ source_counts sh' = source_counts sh /\ timers sh' = timers sh /\
  serial sh' = serial sh.
Proof.
  unfold check_tombstone. destruct (fk_protocol (p_key p)); [|by intros [= <- <-]].
  destruct (_ && _); [by intros [= <- <-]|]. destruct (_ && _); [|by intros [= <- <-]].
  destruct (contains_live _ _ _). by intros [= <- <-].
Qed.

Lemma check_generation_ok others sh p w sh' w' :
  books sh -> budget others sh w -> max_active_flows cfg <= u64_MAX ->
  check_generation link sh p w = Some (sh', w') ->
  books sh' /\ budget others sh' w' /\
  (flows sh' = flows sh \/ flows sh' = delete (p_key p) (flows sh)) /\
  timers sh' = timers sh /\ serial sh' = serial sh.
Proof.
  intros Hb Hbu Hu. unfold check_generation. destruct (match fk_protocol _ with Tcp => _ | Udp => _ end).
  - intros E. destruct (close_flow_ok others _ _ _ _ _ Hb Hbu Hu E) as (?&?&?&?&?&?). auto.
  - intros [= <- <-]. auto.
Qed.

Lemma active_admit w : metrics w ActiveFlows < max_active_flows cfg ->
  active {| metrics := store (metrics w) ActiveFlows (metrics w ActiveFlows + 1);
            out := out w; sends := sends w |} = active w + 1.
Proof. intros _. unfold active, store. cbn [metrics]. by rewrite decide_True. Qed.

(** Admission keeps the books and stays within the budget. *)
Lemma find_or_create_ok others sh services p fresh t w r sh' w' :
  books sh -> budget others sh w -> max_active_flows cfg <= u64_MAX ->
  max_flows_per_source_prefix cfg <= u64_MAX ->
  find_or_create cfg sh services p fresh t w = (r, sh', w') ->
  books sh' /\ budget others sh' w' /\ timers sh' = timers sh /\ serial sh' = serial sh /\
  match r with
  | None => flows sh' = flows sh
  | Some (s, is_new) => flows sh' !! p_key p = Some s /\
      if is_new then flows sh !! p_key p = None /\ s = FlowState_new p fresh t /\
                     flows sh' = <[p_key p := s]> (flows sh)
      else sh' = sh
  end.
Proof.
  intros Hb (Ha & Ho & Hm) Hu Hup. unfold find_or_create.
  destruct (flows sh !! p_key p) as [s|] eqn:Es.
  { intros [= <- <- <-]. split; [done|]. split; [done|]. auto. }
  destruct (negb (accepts_destination _ _)).
  { intros [= <- <- <-]. split; [done|]. split; [|done]. unfold budget. by rewrite active_count. }
  unfold try_admit_flow. destruct (_ <? _) eqn:Elt; reflect_bools; simpl negb; cbv iota.
  2: { intros [= <- <- <-]. split; [done|]. split; [|done]. unfold budget. by rewrite active_count. }
  set (w1 := {| metrics := _; out := _; sends := _ |}).
  assert (active w1 = active w + 1) as A1 by (by apply active_admit). change (active w < max_active_flows cfg) in Elt.
  set (c := default 0 (source_counts sh !! from_packet p)).
  pose proof (bk_counts _ Hb (from_packet p)) as Hc. fold c in Hc.
  pose proof (prefix_count_nonneg (from_packet p) (flows sh)).
  assert (forall q n, default 0 (<[from_packet p := n]> (source_counts sh) !! q) =
    if decide (from_packet p = q) then n else default 0 (source_counts sh !! q)) as Hins.
  { intros q n. destruct (decide (from_packet p = q)) as [<-|Hn].
    - by rewrite lookup_insert_eq.
    - by rewrite lookup_insert_ne. }
  destruct (max_flows_per_source_prefix cfg <=? c) eqn:El; reflect_bools.
  - intros [= <- <- <-]. split; [|split; [|done]].
    + destruct Hb. split; simpl; [done| |done]. intros q. rewrite Hins.
      destruct (decide _) as [<-|]; [lia|done].
    + unfold budget. rewrite active_count, active_uncount by done. rewrite A1.
      unfold wrapping_sub. rewrite wrap_small by (unfold u64_MAX in *; unfold table_size in *; lia).
      unfold table_size in *. simpl. lia.
  - intros [= <- <- <-]. simpl. rewrite lookup_insert_eq.
    assert (wrapping_add 64 c 1 = c + 1) as Hw
      by (unfold wrapping_add; apply wrap_small; unfold u64_MAX in *; lia).
    assert (forall q, prefix_count q (<[p_key p := FlowState_new p fresh t]> (flows sh)) =
      prefix_count q (flows sh) + if decide (from_packet p = q) then 1 else 0) as Hpc.
    { intros q. unfold prefix_count. rewrite map_sum_insert by done. unfold has_prefix at 1. simpl. lia. }
    split; [|split; [|by auto]].
    + destruct Hb. split; simpl.
      * intros k s [[<- <-]|[_ H']]%lookup_insert_Some; [done|by apply bk_key0].
      * intros q. rewrite insert_insert_eq, Hins, Hpc, Hw. destruct (decide _) as [<-|]; [lia|].
        rewrite bk_counts0. lia.
      * intros q. rewrite Hpc. pose proof (bk_limit0 q). destruct (decide _) as [<-|]; lia.
    + unfold budget, table_size in *. cbn [flows set_flows].
      rewrite A1, map_size_insert_None by done. simpl. lia.
Qed.
End Engine.
