(* ===== verification/FlowTimers.v ===== *)
(** * Handlers, timers and shutdown against the flow table's books
    ([src/src/flow/mod.rs])

    Every handler keeps the books and the global budget ([FlowSpec]) and keeps a
    timer for every flow, so that an idle flow is found. *)

From stdpp Require Import fin_maps sorting.
From S2P Require Import Prelude BTree Model Services Reassembly ReassemblyFacts ReassemblySpec Flow FlowSpec.

#[local] Arguments active : simpl never.
#[local] Arguments count : simpl never.
#[local] Arguments uncount : simpl never.
#[local] Arguments dequeue : simpl never.

(** ** The timer queue *)

Definition earlier (a b : TimerItem) : Prop := deadline a <= deadline b.

Lemma timer_push_In x y l : y ∈ timer_push x l <-> y = x \/ y ∈ l.
Proof.
  induction l as [|z l IH]; simpl; [by rewrite list_elem_of_singleton, elem_of_nil; tauto|].
  destruct (timer_before x z); rewrite !elem_of_cons, ?IH; tauto.
Qed.

Lemma timer_push_length x l : length (timer_push x l) = S (length l).
Proof. induction l as [|z l IH]; simpl; [done|]. destruct (timer_before x z); simpl; lia. Qed.

Lemma timer_push_sorted x l : StronglySorted earlier l -> StronglySorted earlier (timer_push x l).
Proof.
  induction 1 as [|z l Hl IH Hz]; simpl; [by repeat constructor|].
  destruct (timer_before x z) eqn:E; unfold timer_before in E; reflect_bools.
  - assert (earlier x z) as Hxz by (unfold earlier; destruct E as [?|[? ?]%andb_true_iff]; reflect_bools; lia).
    constructor; [by constructor|]. constructor; [done|]. eapply Forall_impl; [exact Hz|].
    intros y Hy. unfold earlier in *. lia.
  - constructor; [done|]. apply Forall_forall. intros y [->|Hy]%timer_push_In.
    + unfold earlier. lia.
    + by eapply Forall_forall in Hz.
Qed.

(** Timers that are due. *)
Definition due (now : Z) (l : list TimerItem) : nat := length (filter (fun x => (deadline x <= now)%Z) l).

Lemma due_cons now x l : due now (x :: l) = ((if decide (deadline x <= now)%Z then 1 else 0) + due now l)%nat.
Proof. unfold due. rewrite filter_cons. by destruct (decide _). Qed.

Lemma due_push now x l : due now (timer_push x l) = due now (x :: l).
Proof.
  induction l as [|z l IH]; simpl; [done|]. destruct (timer_before x z); [done|].
  rewrite due_cons, IH, !due_cons. lia.
Qed.

Lemma due_length now l : (due now l <= length l)%nat.
Proof. apply length_filter. Qed.

Section Engine.
Context (link : nat -> bool) (cfg : FlowConfig).

(** The flow at [k] has a timer, due at most [slack] after it is idle. *)
Definition watched (slack : Z) (l : list TimerItem) (k : FlowKey) (s : FlowState) : Prop :=
  exists x, x ∈ l /\ tm_key x = k /\ tm_flow_id x = f_id s /\
    deadline x <= last_activity s + idle_timeout cfg (fk_protocol k) + slack.

(** The queue is in order, and every flow is watched and was seen in the past. *)
Record timed (clock slack : Z) (sh : Shard) : Prop := {
  td_sorted : StronglySorted earlier (timers sh);
  td_watched : forall k s, flows sh !! k = Some s -> watched slack (timers sh) k s;
  td_past : forall k s, flows sh !! k = Some s -> last_activity s <= clock
}.

(** The clock readings of one packet: monotone, and the timer is set at most
    [slack] after the packet is counted. *)
Record times_ok (clock slack : Z) (t : Times) : Prop := {
  to_counted : clock <= counted_now t;
  to_timer : counted_now t <= timer_now t <= counted_now t + slack
}.

(** The limits are [usize] values. *)
Record limits_ok : Prop := {
  lo_flows : 0 <= max_active_flows cfg <= u64_MAX;
  lo_prefix : 0 <= max_flows_per_source_prefix cfg <= u64_MAX
}.

Lemma timed_later clock clock' slack sh : clock <= clock' -> timed clock slack sh -> timed clock' slack sh.
Proof. intros Hc []. split; [done|done|]. intros k s Hs. pose proof (td_past0 k s Hs). lia. Qed.

Lemma timed_shrink clock slack sh sh' :
  flows sh' ⊆ flows sh -> timers sh' = timers sh -> timed clock slack sh -> timed clock slack sh'.
Proof.
  intros Hsub Ht []. split; rewrite ?Ht; [done| |]; intros k s Hs;
    pose proof (lookup_weaken _ _ _ _ Hs Hsub); eauto.
Qed.

Lemma timed_ext clock slack sh sh' :
  flows sh' = flows sh -> timers sh' = timers sh -> timed clock slack sh -> timed clock slack sh'.
Proof. intros Hf. apply timed_shrink. by rewrite Hf. Qed.

Lemma watched_push slack x l k s : watched slack l k s -> watched slack (timer_push x l) k s.
Proof. intros (y & Hy & H). exists y. split; [|done]. apply timer_push_In. auto. Qed.

(** A flow that was seen later is watched no worse. *)
Lemma watched_newer slack l k s s' :
  f_id s' = f_id s -> last_activity s <= last_activity s' -> watched slack l k s -> watched slack l k s'.
Proof. intros Hid Hl (x & Hx & Hk & Hi & Hd). exists x. rewrite Hid. repeat (split; [done|]). lia. Qed.

(** ** One packet *)

(** The shard's whole invariant. *)
Definition shard_ok (others clock slack : Z) (sh : Shard) (w : World) : Prop :=
  books cfg sh /\ budget cfg others sh w /\ timed clock slack sh.

Lemma close_flow_shard_ok others clock slack sh key w sh' w' :
  limits_ok -> shard_ok others clock slack sh w -> close_flow link sh key w = Some (sh', w') ->
  shard_ok others clock slack sh' w'.
Proof.
  intros [] (Hb & Hbu & Ht) E.
  destruct (close_flow_ok _ _ others _ _ _ _ _ Hb Hbu ltac:(lia) E) as (Hb' & Hbu' & Hf & Ht' & _).
  split; [done|]; split; [done|]. eapply timed_shrink; [|done|done]. rewrite Hf. apply delete_subseteq.
Qed.

Lemma schedule_ok others clock slack sh s p is_new r t w sh' w' :
  limits_ok -> books cfg sh -> budget cfg others sh w ->
  flows sh !! p_key p = Some s -> last_activity s <= timer_now t <= last_activity s + slack ->
  last_activity s = clock -> StronglySorted earlier (timers sh) ->
  (forall k x, flows sh !! k = Some x -> last_activity x <= clock) ->
  (forall k x, flows sh !! k = Some x -> is_new = false \/ k <> p_key p -> watched slack (timers sh) k x) ->
  schedule_or_close link cfg sh s p is_new r t w = Some (sh', w') ->
  shard_ok others clock slack sh' w'.
Proof.
  intros Hlo Hb Hbu Hs Htn Hcl Hso Hpast Hw. unfold schedule_or_close.
  destruct (should_close s r).
  - rewrite andb_false_r. set (sh1 := match fk_protocol (p_key p) with Tcp => _ | Udp => _ end).
    intros E. assert (flows sh1 = flows sh /\ timers sh1 = timers sh /\
      source_counts sh1 = source_counts sh) as (Ef & Et & Ec) by (by subst sh1; destruct (fk_protocol _)).
    assert (books cfg sh1) as Hb1 by (by apply (books_ext _ sh)).
    assert (budget cfg others sh1 w) as Hbu1 by (by apply (budget_ext _ _ sh sh1 w w)).
    destruct (close_flow_ok _ _ others _ _ _ _ _ Hb1 Hbu1 ltac:(destruct Hlo; lia) E)
      as (Hb' & Hbu' & Hf & Ht' & _).
    split; [done|]; split; [done|]. rewrite Ef in Hf. rewrite Et in Ht'. split; rewrite ?Ht'; [done| |];
      intros k x; rewrite Hf; intros [Hne Hx]%lookup_delete_Some; eauto.
  - rewrite andb_true_r. destruct is_new.
    + intros [= <- <-]. split; [by apply (books_ext _ sh)|].
      split; [by apply (budget_ext _ _ sh _ w w)|]. split; simpl; [by apply timer_push_sorted| |done].
      intros k x Hx. destruct (decide (k = p_key p)) as [->|Hne].
      * rewrite Hs in Hx. injection Hx as <-. eexists. split; [by apply timer_push_In; left|]. simpl.
        repeat (split; [done|]). lia.
      * apply watched_push. auto.
    + intros [= <- <-]. split; [done|]; split; [done|]. split; auto.
Qed.

(** What happens to the flow between admission and the end of the handler. *)
Definition process (packet : ParsedPacket) (t : Times) (s : FlowState) (w : World)
  : option (bool * FlowState * World) :=
  let w := count (count w PacketsReceived 1) PacketBytes (p_wire_len packet) in
  let s := count_packet s packet (counted_now t) in
  '(emitted_content, rst_accepted, s, w) ←
    match fk_protocol (p_key packet) with
    | Tcp => handle_tcp link cfg s packet w
    | Udp => let '(e, s, w) := handle_udp link s packet w in Some (e, false, s, w)
    end;
  let '(s, w) := publish link cfg s emitted_content (snapshot_now t) w in
  Some (rst_accepted, s, w).

Lemma handle_packet_eq services packet fresh t sh w :
  handle_packet link cfg services packet fresh t sh w =
  let '(suppressed, sh) := check_tombstone sh packet t in
  if suppressed then Some (false, sh, dequeue w)
  else
    '(sh, w) ← check_generation link sh packet (dequeue w);
    match find_or_create cfg sh services packet fresh t w with
    | (None, sh, w) => Some (false, sh, w)
    | (Some (s, is_new), sh, w) =>
        '(rst_accepted, s, w) ← process packet t s w;
        '(sh, w) ← schedule_or_close link cfg (set_flows sh (<[p_key packet := s]> (flows sh))) s
                     packet is_new rst_accepted t w;
        Some (true, sh, w)
    end.
Proof.
  unfold handle_packet, process. destruct (check_tombstone sh packet t) as [[] sh1]; [done|].
  destruct (check_generation _ _ _ _) as [[sh2 w2]|]; [|done]. simpl.
  destruct (find_or_create _ _ _ _ _ _ _) as [[[[s is_new]|] sh3] w3]; [|done].
  destruct (match fk_protocol _ with Tcp => _ | Udp => _ end) as [[[[e r] s1] w4]|]; [|done]. simpl.
  by destruct (publish _ _ _ _ _ _).
Qed.

Lemma process_frame p t s w r s' w' :
  process p t s w = Some (r, s', w') ->
  same_flow s s' /\ last_activity s' = counted_now t /\ active w' = active w.
Proof.
  unfold process. set (w0 := count _ _ _). set (s0 := count_packet _ _ _).
  assert (active w0 = active w) as A0 by (subst w0; by rewrite !active_count).
  destruct (count_packet_frame s p (counted_now t)) as [F0 L0]. fold s0 in F0, L0.
  destruct (match fk_protocol _ with Tcp => _ | Udp => _ end) as [[[[e r1] s1] w1]|] eqn:E1; [|done].
  simpl. destruct (publish _ _ _ _ _ _) as [s2 w2] eqn:E2. intros [= <- <- <-].
  apply publish_frame in E2 as (F2 & L2 & A2).
  assert (same_flow s0 s1 /\ last_activity s1 = last_activity s0 /\ active w1 = active w0) as (F1 & L1 & A1).
  { destruct (fk_protocol (p_key p)); [by apply handle_tcp_frame in E1|].
    destruct (handle_udp link s0 p w0) as [[e' s'] w'] eqn:E. injection E1 as <- <- <- <-.
    by apply handle_udp_frame in E. }
  split; [by etransitivity; [|etransitivity]|]. split; congruence.
Qed.

Lemma handle_packet_ok others clock slack services p fresh t sh w c sh' w' :
  limits_ok -> times_ok clock slack t -> shard_ok others clock slack sh w ->
  handle_packet link cfg services p fresh t sh w = Some (c, sh', w') ->
  shard_ok others (counted_now t) slack sh' w'.
Proof.
  intros Hlo [Hcl Htm] (Hb & Hbu & Ht). rewrite handle_packet_eq.
  destruct (check_tombstone sh p t) as [sup sh1] eqn:E1.
  apply check_tombstone_frame in E1 as (Ef & Ec & Et & En).
  apply (books_ext _ _ _ Ef Ec) in Hb. apply (timed_ext _ _ _ _ Ef Et) in Ht.
  apply (budget_ext _ _ _ sh1 w (dequeue w) Ef (active_dequeue w)) in Hbu.
  destruct sup; [intros [= <- <- <-]; split; [done|]; split; [done|]; by eapply timed_later|].
  destruct (check_generation _ _ _ _) as [[sh2 w2]|] eqn:E2; [|done]. simpl.
  apply (check_generation_ok _ _ _ _ _ _ _ _ Hb Hbu) in E2 as (Hb2 & Hbu2 & Hf2 & Ht2 & _);
    [|destruct Hlo; lia].
  assert (timed clock slack sh2) as T2.
  { eapply timed_shrink; [|done|done]. destruct Hf2 as [->| ->]; [done|apply delete_subseteq]. }
  destruct (find_or_create _ _ _ _ _ _ _) as [[r sh3] w3] eqn:E3.
  apply (find_or_create_ok _ _ _ _ _ _ _ _ _ _ _ Hb2 Hbu2) in E3 as (Hb3 & Hbu3 & Ht3 & _ & Hr);
    [|destruct Hlo; lia..].
  destruct r as [[s is_new]|].
  2: { intros [= <- <- <-]. split; [done|]; split; [done|]. eapply timed_later; [exact Hcl|].
       by eapply timed_ext. }
  destruct (process p t s w3) as [[[r s'] w4]|] eqn:E4; [|done]. simpl.
  apply process_frame in E4 as (F4 & L4 & A4). destruct Hr as [Hs Hnew].
  destruct (schedule_or_close _ _ _ _ _ _ _ _ _) as [[sh5 w5]|] eqn:E; [|done]. simpl.
  intros [= <- <- <-]. eapply schedule_ok in E; [exact E|done|..]; rewrite ?L4; simpl.
  - by eapply update_books.
  - unfold budget, table_size in *. simpl. rewrite map_size_insert_Some by (by eexists). lia.
  - apply lookup_insert_eq.
  - lia.
  - done.
  - rewrite Ht3. apply T2.
  - intros k x [[<- <-]|[Hne Hx]]%lookup_insert_Some; [lia|].
    assert (flows sh2 !! k = Some x) as Hx'.
    { destruct is_new; [|by subst sh3]. destruct Hnew as (_ & _ & Hfl). rewrite Hfl in Hx.
      by rewrite lookup_insert_ne in Hx. }
    pose proof (td_past _ _ _ T2 _ _ Hx'). lia.
  - rewrite Ht3. intros k x [[<- <-]|[Hne Hx]]%lookup_insert_Some Hor.
    + destruct Hor as [-> |?]; [|done]. subst sh3. pose proof (td_past _ _ _ T2 _ _ Hs).
      eapply watched_newer; [apply F4|lia|]. by apply (td_watched _ _ _ T2).
    + apply (td_watched _ _ _ T2). destruct is_new; [|by subst sh3]. destruct Hnew as (_ & _ & Hfl).
      rewrite Hfl in Hx. by rewrite lookup_insert_ne in Hx.
Qed.

(** ** Timers *)

Lemma watched_rest slack item rest k s :
  tm_key item <> k \/ tm_flow_id item <> f_id s -> watched slack (item :: rest) k s -> watched slack rest k s.
Proof.
  intros Hne (x & Hx & Hk & Hi & Hd). apply elem_of_cons in Hx as [->|Hx]; [by destruct Hne|].
  by exists x.
Qed.

(** Nothing in the queue is due. *)
Lemma not_due slack now clock sh k s :
  timed clock slack sh -> match timers sh with [] => True | x :: _ => now < deadline x end ->
  flows sh !! k = Some s ->
  now < last_activity s + idle_timeout cfg (fk_protocol k) + slack.
Proof.
  intros [Hso Hw _] Hhd Hs. destruct (Hw _ _ Hs) as (x & Hx & _ & _ & Hd).
  destruct (timers sh) as [|y l]; [by apply elem_of_nil in Hx|].
  apply StronglySorted_inv in Hso as [_ Hall]. apply elem_of_cons in Hx as [->|Hx]; [lia|].
  eapply Forall_forall in Hall; [|done]. unfold earlier in Hall. lia.
Qed.

(** A popped timer of no current flow is dropped; the shard stays well formed. *)
Lemma pop_stale others clock slack sh w item rest :
  shard_ok others clock slack sh w -> timers sh = item :: rest ->
  (forall s, flows sh !! tm_key item = Some s -> tm_flow_id item <> f_id s) ->
  shard_ok others clock slack (set_timers sh rest (serial sh)) w.
Proof.
  intros (Hb & Hbu & [Hso Hw Hp]) Ht Hst. rewrite Ht in *.
  split; [by apply (books_ext _ sh)|]. split; [by apply (budget_ext _ _ sh _ w w)|].
  split; simpl; [by apply StronglySorted_inv in Hso as [? _]| |done].
  intros k s Hs. eapply watched_rest; [|by apply Hw].
  destruct (decide (tm_key item = k)) as [<-|]; [right|by left]. auto.
Qed.

(** A flow that is not idle yet gets a new timer. *)
Lemma rearm others clock slack sh w item rest s n :
  0 <= slack -> shard_ok others clock slack sh w -> timers sh = item :: rest ->
  flows sh !! tm_key item = Some s ->
  shard_ok others clock slack
    (set_timers sh
      (timer_push {| deadline := last_activity s + idle_timeout cfg (fk_protocol (f_key s));
                     tm_serial := n; tm_key := tm_key item; tm_flow_id := f_id s |} rest) n) w.
Proof.
  intros Hsl (Hb & Hbu & [Hso Hw Hp]) Ht Hs. rewrite Ht in *.
  split; [by apply (books_ext _ sh)|]. split; [by apply (budget_ext _ _ sh _ w w)|].
  split; simpl; [by apply timer_push_sorted; apply StronglySorted_inv in Hso as [? _]| |done].
  intros k x Hx. destruct (decide (tm_key item = k)) as [<-|Hne].
  - rewrite Hs in Hx. injection Hx as <-. eexists. split; [apply timer_push_In; by left|]. simpl.
    rewrite (bk_key _ _ Hb _ _ Hs). repeat (split; [done|]). lia.
  - apply watched_push. eapply watched_rest; [by left|]. by apply Hw.
Qed.

(** An idle flow is closed. *)
Lemma close_due others clock slack sh w item rest sh' w' :
  limits_ok -> shard_ok others clock slack sh w -> timers sh = item :: rest ->
  close_flow link (set_timers sh rest (serial sh)) (tm_key item) w = Some (sh', w') ->
  shard_ok others clock slack sh' w' /\ timers sh' = rest.
Proof.
  intros [] (Hb & Hbu & [Hso Hw Hp]) Ht E. rewrite Ht in *.
  set (sh1 := set_timers sh rest (serial sh)) in *.
  assert (books cfg sh1) as Hb1 by (by apply (books_ext _ sh)).
  assert (budget cfg others sh1 w) as Hbu1 by (by apply (budget_ext _ _ sh _ w w)).
  destruct (close_flow_ok _ _ others _ _ _ _ _ Hb1 Hbu1 ltac:(lia) E) as (Hb' & Hbu' & Hf & Ht' & _).
  split; [|done]. split; [done|]; split; [done|]. split; rewrite ?Ht'; simpl.
  - by apply StronglySorted_inv in Hso as [? _].
  - intros k s. rewrite Hf. intros [Hne Hs]%lookup_delete_Some. eapply watched_rest; [by left|]. by apply Hw.
  - intros k s. rewrite Hf. intros [Hne Hs]%lookup_delete_Some. by eapply Hp.
Qed.

Lemma run_timers_ok fuel : forall others clock slack now sh w sh' w',
  limits_ok -> 0 <= slack -> shard_ok others clock slack sh w ->
  run_timers link cfg fuel now sh w = Some (sh', w') ->
  shard_ok others clock slack sh' w' /\
  match timers sh' with [] => True | x :: _ => now < deadline x end.
Proof.
  induction fuel as [|fuel IH]; intros others clock slack now sh w sh' w' Hlo Hsl Hok; simpl;
    (destruct (timers sh) as [|item rest] eqn:Ht; [intros [= <- <-]; by rewrite Ht|]);
    (destruct (now <? deadline item) eqn:Hd; reflect_bools; [intros [= <- <-]; by rewrite Ht|]); [done|].
  destruct (flows sh !! tm_key item) as [s|] eqn:Hs.
  2: { apply IH; [done..|]. eapply pop_stale; [done..|]. intros s. by rewrite Hs. }
  destruct (negb _) eqn:Hid; reflect_bools.
  { apply IH; [done..|]. eapply pop_stale; [done..|]. intros s'. rewrite Hs. intros [= <-]. congruence. }
  destruct (_ <=? now).
  - destruct (close_flow _ _ _ _) as [[sh1 w1]|] eqn:E; [|done]. simpl.
    apply IH; [done..|]. by eapply close_due in E as [? _].
  - apply IH; [done..|]. by apply (rearm others clock slack sh w item rest s).
Qed.

Context (iter : gmap FlowKey FlowState -> list (FlowKey * FlowState)).
Context (iter_entries : forall m, iter m ≡ₚ map_to_list m).

Lemma rebuild_spec l : forall heap n,
  StronglySorted earlier heap ->
  let heap' := (rebuild cfg l heap n).1 in
  StronglySorted earlier heap' /\ (forall x, x ∈ heap -> x ∈ heap') /\
  forall k s, (k, s) ∈ l -> exists x, x ∈ heap' /\ tm_key x = k /\ tm_flow_id x = f_id s /\
    deadline x = last_activity s + idle_timeout cfg (fk_protocol (f_key s)).
Proof.
  induction l as [|[k s] l IH]; intros heap n Hso; simpl.
  { split; [done|]. split; [done|]. intros k s H. by apply elem_of_nil in H. }
  set (x := {| deadline := _; tm_serial := _; tm_key := _; tm_flow_id := _ |}).
  destruct (IH (timer_push x heap) (wrapping_add 64 n 1) (timer_push_sorted _ _ Hso)) as (H1 & H2 & H3).
  split; [done|]. split; [intros y Hy; apply H2, timer_push_In; auto|].
  intros k' s' [[= -> ->]|Hin]%elem_of_cons; [|by apply H3].
  exists x. split; [|done]. apply H2, timer_push_In. auto.
Qed.

Lemma compact_ok others clock slack sh w :
  0 <= slack -> shard_ok others clock slack sh w -> shard_ok others clock slack (compact cfg iter sh) w.
Proof.
  intros Hsl Hok. unfold compact. destruct (_ && _); [|done].
  destruct (rebuild cfg (iter (flows sh)) [] (serial sh)) as [heap n] eqn:E.
  destruct Hok as (Hb & Hbu & [Hso Hw Hp]).
  destruct (rebuild_spec (iter (flows sh)) [] (serial sh) (SSorted_nil _)) as (H1 & _ & H3).
  rewrite E in *. simpl in *.
  split; [by apply (books_ext _ sh)|]. split; [by apply (budget_ext _ _ sh _ w w)|].
  split; simpl; [done| |done]. intros k s Hs.
  destruct (H3 k s) as (x & Hx & Hk & Hi & Hd).
  { by rewrite iter_entries, elem_of_map_to_list. }
  exists x. repeat (split; [done|]). rewrite Hd, (bk_key _ _ Hb _ _ Hs). lia.
Qed.

Lemma compact_flows sh : flows (compact cfg iter sh) = flows sh.
Proof. unfold compact. destruct (_ && _); [|done]. by destruct (rebuild _ _ _ _). Qed.

(** The drain at shutdown closes every flow and empties the books. *)
Lemma drain_ok l : forall others sh w counts w',
  limits_ok -> books cfg sh -> budget cfg others sh w -> l ≡ₚ map_to_list (flows sh) ->
  drain link l (source_counts sh) w = Some (counts, w') ->
  books cfg (set_source_counts (set_flows sh ∅) counts) /\
  budget cfg others (set_flows sh ∅) w'.
Proof.
  induction l as [|[k s] l IH]; intros others sh w counts w' Hlo Hb Hbu Hp; simpl.
  - apply Permutation_nil_l in Hp. symmetry in Hp. apply map_to_list_empty_iff in Hp.
    intros [= <- <-]. rewrite <- Hp. split; [by apply (books_ext _ sh)|].
    by apply (budget_ext _ _ sh _ w w).
  - assert (flows sh !! k = Some s) as Hk by (apply elem_of_map_to_list; rewrite <- Hp; left).
    destruct (retire link s k (source_counts sh) w) as [[counts1 w1]|] eqn:E; [|done]. simpl.
    set (sh1 := set_source_counts (set_flows sh (delete k (flows sh))) counts1).
    assert (close_flow link sh k w = Some (sh1, w1)) as Ec by (unfold close_flow; by rewrite Hk, E).
    destruct (close_flow_ok _ _ others _ _ _ _ _ Hb Hbu ltac:(destruct Hlo; lia) Ec) as (Hb1 & Hbu1 & _).
    intros Hd. destruct (IH others sh1 w1 counts w' Hlo Hb1 Hbu1) as [Hb2 Hbu2]; [|done|].
    + simpl. rewrite <- (map_to_list_delete (flows sh) k s Hk) in Hp.
      by apply Permutation_cons_inv in Hp.
    + split; [done|]. by eapply budget_ext; [| |exact Hbu2].
Qed.

Lemma shutdown_ok others sh w sh' w' :
  limits_ok -> books cfg sh -> budget cfg others sh w ->
  shutdown link iter sh w = Some (sh', w') ->
  flows sh' = ∅ /\ books cfg sh' /\ budget cfg others sh' w' /\ timers sh' = timers sh.
Proof.
  intros Hlo Hb Hbu. unfold shutdown.
  destruct (drain _ _ _ _) as [[counts w1]|] eqn:E; [|done]. simpl. intros [= <- <-].
  eapply drain_ok in E as [Hb' Hbu']; [|done..]. split; [done|]. split; [done|].
  split; [|done]. by eapply budget_ext; [| |exact Hbu'].
Qed.

(** ** A whole turn of the shard *)

(** The clock readings of one turn. *)
Definition event_ok (clock slack : Z) (e : Event) (now : Z) : Prop :=
  match e with
  | Packet _ _ t => times_ok clock slack t /\ counted_now t <= now
  | Timeout => clock <= now
  end.

(** The turn reaches the timers: it is a receive timeout, or its packet is neither
    suppressed nor refused. *)
Definition completes (services : ServiceRegistry) (e : Event) (sh : Shard) (w : World) : bool :=
  match e with
  | Packet p fresh t =>
      match handle_packet link cfg services p fresh t sh w with Some (b, _, _) => b | None => false end
  | Timeout => true
  end.

Lemma loop_iteration_ok others clock slack services e now sh w sh' w' :
  limits_ok -> 0 <= slack -> event_ok clock slack e now -> shard_ok others clock slack sh w ->
  loop_iteration link cfg iter services e now sh w = Some (sh', w') ->
  shard_ok others now slack sh' w' /\
  (completes services e sh w = true -> forall k s, flows sh' !! k = Some s ->
    now < last_activity s + idle_timeout cfg (fk_protocol k) + slack).
Proof.
  intros Hlo Hsl He Hok. unfold loop_iteration, completes.
  destruct (match e with Packet _ _ _ => _ | Timeout => _ end) as [[[c sh1] w1]|] eqn:E1; [|done]. simpl.
  assert (shard_ok others now slack sh1 w1) as Hok1.
  { destruct e as [p fresh t|].
    - destruct He as [Ht Hn]. eapply handle_packet_ok in E1 as (? & ? & Htd); [|done..].
      split; [done|]; split; [done|]. by eapply timed_later.
    - injection E1 as <- <- <-. destruct Hok as (? & ? & Htd). split; [done|]; split; [done|].
      by eapply timed_later. }
  assert ((match e with Packet p fresh t =>
    match handle_packet link cfg services p fresh t sh w with Some (b, _, _) => b | None => false end
    | Timeout => true end) = c) as ->.
  { destruct e; [by rewrite E1|by injection E1]. }
  destruct c; [|by intros [= <- <-]].
  destruct (run_timers _ _ _ _ _ _) as [[sh2 w2]|] eqn:E2; [|done]. simpl. intros [= <- <-].
  eapply run_timers_ok in E2 as [Hok2 Hhd]; [|done..]. split; [by apply compact_ok|].
  rewrite compact_flows. intros _ k s Hs. eapply not_due; [apply Hok2|done|done].
Qed.
End Engine.
