(* ===== verification/FlowSystem.v ===== *)
(** * The shard never panics and its loops end ([src/src/flow/mod.rs])

    Every operation returns when both halves of every TCP flow satisfy the
    reassembly invariant, and keeps that invariant; the timer loop runs at most
    once per due timer. *)

From stdpp Require Import fin_maps.
From S2P Require Import Prelude BTree Reassembly ReassemblyFacts ReassemblySpec Model Services Flow FlowSpec FlowTimers.

#[local] Arguments count : simpl never.
#[local] Arguments accept : simpl never.
#[local] Arguments acknowledge : simpl never.
#[local] Arguments finalize : simpl never.

(** Both directions are well formed. *)
Definition sound (s : FlowState) : Prop := forall d, inv (half s d).

(** Both directions are shorter than 2^62 bytes. *)
Definition room (s : FlowState) : Prop := forall d, nextz (half s d) <= LIMIT.

Definition each_tcp (P : FlowState -> Prop) (m : gmap FlowKey FlowState) : Prop :=
  forall k s, m !! k = Some s -> fk_protocol k = Tcp -> P s.

(** What the decoder guarantees of a packet. *)
Definition packet_ok (p : ParsedPacket) : Prop :=
  u32 (default 0 (p_seq p)) /\ blen (p_payload p) < 2 ^ 32.

Lemma each_tcp_subseteq P m m' : m' ⊆ m -> each_tcp P m -> each_tcp P m'.
Proof. intros Hsub Hm k s Hs. apply Hm. by eapply lookup_weaken. Qed.

Lemma each_tcp_insert P m k s :
  (fk_protocol k = Tcp -> P s) -> each_tcp P m -> each_tcp P (<[k := s]> m).
Proof. intros Hs Hm k' s' [[<- <-]|[_ H]]%lookup_insert_Some; [done|by apply Hm]. Qed.

Lemma sound_same s s' : a_to_b s' = a_to_b s -> b_to_a s' = b_to_a s -> sound s -> sound s'.
Proof. intros Ha Hb Hs d. specialize (Hs d). destruct d; simpl in *; congruence. Qed.

Lemma room_same s s' : a_to_b s' = a_to_b s -> b_to_a s' = b_to_a s -> room s -> room s'.
Proof. intros Ha Hb Hs d. specialize (Hs d). destruct d; simpl in *; congruence. Qed.

Lemma half_set s d d' h : half (set_half s d h) d' = if decide (d' = d) then h else half s d'.
Proof. by destruct d, d'. Qed.

Lemma sound_set s d h : inv h -> sound s -> sound (set_half s d h).
Proof. intros Hh Hs d'. rewrite half_set. destruct (decide (d' = d)); [done|apply Hs]. Qed.

Lemma observe_room h seq syn :
  inv h -> u32 seq -> nextz h <= LIMIT -> nextz (observe h seq syn) <= LIMIT.
Proof.
  intros Hinv Hs Hl. destruct (observe_frame h seq syn) as (_ & _ & _ & _ & En).
  destruct Hinv as [Hf|Hw].
  - unfold observe. rewrite (fresh_next _ Hf).
    assert (0 <= wrapping_add 32 seq (b2z syn) < 2 ^ 32) by (apply Z.mod_pos_bound; lia).
    change INITIAL_SEQ_EPOCH with (2 ^ 32). unfold nextz, LIMIT in *. simpl initial_syn_seq.
    destruct (initial_syn_seq h), syn; cbn [next_abs set_next set_initial_syn default from_option id]; lia.
  - rewrite En; [done|]. destruct Hw as [Hl'|[_ [n Hn] _ _ _]]; [by rewrite (live_next _ _ Hl')|by rewrite Hn].
Qed.

Section Engine.
Context (link : nat -> bool) (cfg : FlowConfig).
Context (ooo_ok : 0 <= max_ooo_bytes cfg /\ 0 <= max_ooo_segments cfg).

Lemma retire_total s key counts w :
  (fk_protocol key = Tcp -> sound s) -> exists r, retire link s key counts w = Some r.
Proof.
  intros Hs. unfold retire, finalize_tcp_halves. destruct (fk_protocol key); [|simpl; eauto].
  destruct (finalize_preserves (a_to_b s) (Hs eq_refl AToB)) as (ha & a & ->).
  destruct (finalize_preserves (b_to_a s) (Hs eq_refl BToA)) as (hb & b & ->). simpl.
  destruct (emit_tcp_outcome _ _ a _ _ _ _) as [[e1 s1] w1].
  destruct (emit_tcp_outcome _ _ b _ _ _ _) as [[e2 s2] w2]. simpl. eauto.
Qed.

Lemma close_flow_total sh key w :
  each_tcp sound (flows sh) ->
  exists sh' w', close_flow link sh key w = Some (sh', w') /\ timers sh' = timers sh /\
    flows sh' = delete key (flows sh).
Proof.
  intros Hs. unfold close_flow. destruct (flows sh !! key) as [s|] eqn:E.
  - destruct (retire_total s key (source_counts sh) w) as [[counts w1] ->]; [by apply Hs|].
    simpl. eauto.
  - rewrite delete_id by done. eauto.
Qed.

Lemma handle_ack_total s p r w :
  sound s -> room s ->
  exists e s' w', handle_ack link cfg s p r w = Some (e, s', w') /\ sound s' /\
    half s' (p_direction p) = half s (p_direction p).
Proof.
  intros Hs Hr. unfold handle_ack. destruct (_ && _); [|eauto 6]. destruct (p_ack p) as [ack|]; [|eauto 6].
  set (d := opposite (p_direction p)).
  destruct (acknowledge_preserves _ ack (p_ts_ns p) (tcp_gap_timeout_ns cfg) (Hs d) (Hr d))
    as (h & out & -> & Hi). simpl.
  destruct (emit_tcp_outcome _ _ _ _ _ _ _) as [[e s1] w1] eqn:E.
  apply emit_frame in E as (_ & Ea & Eb & _). exists e, s1, w1. split; [done|].
  split; [eapply sound_same; [exact Ea|exact Eb|]; by apply sound_set|].
  transitivity (half (set_half s d h) (p_direction p)).
  - by destruct (p_direction p); simpl; rewrite ?Ea, ?Eb.
  - rewrite half_set. subst d. by destruct (p_direction p).
Qed.

Lemma handle_segment_total s p w :
  sound s -> packet_ok p -> nextz (half s (p_direction p)) <= LIMIT ->
  exists e s' w', handle_segment link cfg s p w = Some (e, s', w') /\ sound s'.
Proof.
  intros Hs [Hq Hlen] Hr. unfold handle_segment. destruct (_ && _); [|eauto 6].
  set (d := p_direction p) in *. set (f := p_flags p).
  destruct (accept_preserves (half s d) (default 0 (p_seq p)) (syn f) (fin f) (p_ts_ns p) (p_payload p)
    (max_ooo_bytes cfg) (max_ooo_segments cfg) (tcp_gap_timeout_ns cfg) (Hs d)) as (h & out & -> & Hw).
  { split; [done|done| |apply ooo_ok|apply ooo_ok]. by apply observe_room. }
  simpl. destruct (emit_tcp_outcome _ _ _ _ _ _ _) as [[e s1] w1] eqn:E.
  apply emit_frame in E as (_ & Ea & Eb & _). exists e, s1, w1. split; [done|].
  eapply sound_same; [exact Ea|exact Eb|]. apply sound_set; [by right|done].
Qed.

Lemma publish_halves s e now w s' w' :
  publish link cfg s e now w = (s', w') -> a_to_b s' = a_to_b s /\ b_to_a s' = b_to_a s.
Proof.
  unfold publish. destruct (_ && _); [|by intros [= <- <-]].
  destruct (send link w _) as [ok w1]. by destruct ok; intros [= <- <-].
Qed.

Lemma process_total p t s w :
  packet_ok p -> (fk_protocol (p_key p) = Tcp -> sound s /\ room s) ->
  exists r s' w', process link cfg p t s w = Some (r, s', w') /\
    (fk_protocol (p_key p) = Tcp -> sound s').
Proof.
  intros Hp Hs. unfold process. set (w0 := count _ _ _). set (s0 := count_packet _ _ _).
  destruct (fk_protocol (p_key p)).
  - destruct (Hs eq_refl) as [Hso Hro]. clear Hs.
    assert (sound s0) as Hs0 by (by apply (sound_same s)).
    assert (room s0) as Hr0 by (by apply (room_same s)).
    unfold handle_tcp. cbv zeta. set (r0 := rst (p_flags p) && _).
    set (w1 := if _ && negb r0 then _ else _).
    destruct (handle_ack_total s0 p r0 w1 Hs0 Hr0) as (e1 & s1 & w2 & -> & Hs1 & Eh). simpl.
    destruct (handle_segment_total s1 p w2 Hs1 Hp) as (e2 & s2 & w3 & -> & Hs2);
      [rewrite Eh; apply Hr0|]. simpl.
    destruct (publish _ _ _ _ _ _) as [s3 w4] eqn:E. apply publish_halves in E as [Ea Eb].
    exists r0, s3, w4. split; [done|]. intros _. by eapply sound_same.
  - destruct (handle_udp _ _ _ _) as [[e s1] w1]. simpl. destruct (publish _ _ _ _ _ _) as [s2 w2].
    by exists false, s2, w2.
Qed.

Lemma new_flow_sound p fresh t : sound (FlowState_new p fresh t) /\ room (FlowState_new p fresh t).
Proof.
  split; intros []; simpl; try (left; apply fresh_default); unfold nextz, LIMIT; simpl; lia.
Qed.

Lemma handle_packet_total services p fresh t sh w :
  packet_ok p -> each_tcp sound (flows sh) -> each_tcp room (flows sh) ->
  exists c sh' w', handle_packet link cfg services p fresh t sh w = Some (c, sh', w') /\
    each_tcp sound (flows sh').
Proof.
  intros Hp Hs Hr. rewrite handle_packet_eq.
  destruct (check_tombstone sh p t) as [sup sh1] eqn:E1.
  apply check_tombstone_frame in E1 as (Ef & _). rewrite <- Ef in Hs, Hr. clear Ef sh.
  destruct sup; [by eauto 6|].
  assert (exists sh2 w2, check_generation link sh1 p (dequeue w) = Some (sh2, w2) /\
    each_tcp sound (flows sh2) /\ each_tcp room (flows sh2)) as (sh2 & w2 & -> & Hs2 & Hr2).
  { unfold check_generation. destruct (match fk_protocol _ with Tcp => _ | Udp => _ end); [|eauto].
    destruct (close_flow_total sh1 (p_key p) (dequeue w) Hs) as (sh2 & w2 & -> & _ & Ef).
    exists sh2, w2. rewrite Ef. pose proof (delete_subseteq (flows sh1) (p_key p)) as Hsub.
    eauto using each_tcp_subseteq. }
  simpl. destruct (find_or_create _ _ _ _ _ _ _) as [[r sh3] w3] eqn:E3.
  assert (each_tcp sound (flows sh3) /\
    match r with Some (s, _) => fk_protocol (p_key p) = Tcp -> sound s /\ room s | None => True end)
    as [Hs3 Hsr].
  { revert E3. unfold find_or_create, try_admit_flow.
    repeat case_match; intros; simplify_eq/=; split; eauto using new_flow_sound.
    apply each_tcp_insert; [|done]. intros _. apply new_flow_sound. }
  destruct r as [[s is_new]|]; [|by eauto 6].
  destruct (process_total p t s w3 Hp Hsr) as (rr & s' & w4 & -> & Hs'). simpl.
  unfold schedule_or_close. set (sh4 := set_flows _ _).
  assert (each_tcp sound (flows sh4)) as Hs4 by (by apply each_tcp_insert).
  set (sh5 := if _ : bool then set_timers _ _ _ else _).
  assert (flows sh5 = flows sh4) as Ef5 by (by subst sh5; destruct (_ && _)).
  destruct (should_close s' rr); [|rewrite <- Ef5 in Hs4; by eauto 6].
  set (sh6 := match fk_protocol _ with Tcp => _ | Udp => _ end).
  assert (flows sh6 = flows sh4) as Ef6 by (by subst sh6; destruct (fk_protocol _)).
  rewrite <- Ef6 in Hs4. destruct (close_flow_total sh6 (p_key p) w4 Hs4) as (sh7 & w5 & -> & _ & Ef7).
  exists true, sh7, w5. split; [done|]. rewrite Ef7. eapply each_tcp_subseteq; [apply delete_subseteq|done].
Qed.

(** At most one turn of the timer loop per due timer. *)
Lemma run_timers_total fuel : forall now sh w,
  each_tcp sound (flows sh) -> (due now (timers sh) <= fuel)%nat ->
  exists sh' w', run_timers link cfg fuel now sh w = Some (sh', w') /\ each_tcp sound (flows sh').
Proof.
  induction fuel as [|fuel IH]; intros now sh w Hs Hd; simpl;
    (destruct (timers sh) as [|item rest] eqn:Ht; [by eauto|]);
    (destruct (now <? deadline item) eqn:E; reflect_bools; [by eauto|]);
    rewrite due_cons, decide_True in Hd by done; [lia|].
  destruct (flows sh !! tm_key item) as [s|]; [|apply IH; simpl; [done|lia]].
  destruct (negb _); [apply IH; simpl; [done|lia]|].
  destruct (_ <=? now) eqn:En; reflect_bools.
  - destruct (close_flow_total (set_timers sh rest (serial sh)) (tm_key item) w Hs)
      as (sh1 & w1 & -> & Et & Ef). simpl. apply IH.
    + rewrite Ef. eapply each_tcp_subseteq; [apply delete_subseteq|done].
    + rewrite Et. simpl. lia.
  - apply IH; simpl; [done|]. rewrite due_push, due_cons, decide_False by (simpl; lia). lia.
Qed.

Context (iter : gmap FlowKey FlowState -> list (FlowKey * FlowState)).
Context (iter_entries : forall m, iter m ≡ₚ map_to_list m).

(** The payload of an event is a decoded packet. *)
Definition decoded (e : Event) : Prop :=
  match e with Packet p _ _ => packet_ok p | Timeout => True end.

Lemma loop_iteration_total services e now sh w :
  decoded e -> each_tcp sound (flows sh) -> each_tcp room (flows sh) ->
  exists sh' w', loop_iteration link cfg iter services e now sh w = Some (sh', w') /\
    each_tcp sound (flows sh').
Proof.
  intros He Hs Hr. unfold loop_iteration.
  assert (exists c sh1 w1, match e with
    | Packet p fresh t => handle_packet link cfg services p fresh t sh w
    | Timeout => Some (true, sh, w) end = Some (c, sh1, w1) /\ each_tcp sound (flows sh1))
    as (c & sh1 & w1 & -> & Hs1).
  { destruct e; [by apply handle_packet_total|by eauto 6]. }
  simpl. destruct c; [|by eauto].
  destruct (run_timers_total (length (timers sh1)) now sh1 w1 Hs1 (due_length _ _))
    as (sh2 & w2 & -> & Hs2).
  simpl. eexists _, _. split; [done|]. by rewrite compact_flows.
Qed.

Lemma drain_total l counts w :
  (forall k s, (k, s) ∈ l -> fk_protocol k = Tcp -> sound s) -> exists r, drain link l counts w = Some r.
Proof.
  revert counts w. induction l as [|[k s] l IH]; intros counts w Hl; simpl; [eauto|].
  destruct (retire_total s k counts w) as [[counts1 w1] ->]; [apply Hl; by left|]. simpl.
  apply IH. intros k' s' Hin. apply Hl. by right.
Qed.

Lemma shutdown_total sh w :
  each_tcp sound (flows sh) -> exists r, shutdown link iter sh w = Some r.
Proof.
  intros Hs. unfold shutdown.
  destruct (drain_total (iter (flows sh)) (source_counts sh) w) as [[counts w1] ->]; [|simpl; eauto].
  intros k s Hin. apply Hs. rewrite iter_entries in Hin. by apply elem_of_map_to_list in Hin.
Qed.
End Engine.

(** * The shards together ([src/src/flow/mod.rs], [spawn] and [shard_loop])

    The shards run on threads of their own and share the metrics and the channel
    to the L7 workers.  The model interleaves whole turns of [loop_iteration];
    between turns any other thread may change everything but the flow budget. *)

(** A shard and the last reading of the clock it made. *)
Definition Thread : Type := Z * Shard.

Definition tables (l : list Thread) : Z := foldr (fun x acc => table_size x.2 + acc) 0 l.

Lemma tables_app l1 l2 : tables (l1 ++ l2) = tables l1 + tables l2.
Proof. induction l1 as [|x l1 IH]; simpl; [done|]. rewrite IH. lia. Qed.

Lemma tables_nonneg l : 0 <= tables l.
Proof. induction l as [|x l IH]; simpl; [done|]. unfold table_size. lia. Qed.

Section System.
Context (link : nat -> bool) (cfg : FlowConfig) (slack : Z).
Context (iter : gmap FlowKey FlowState -> list (FlowKey * FlowState)).

(** The states the shards reach from an empty table of each. *)
Inductive reachable : list Thread -> World -> Prop :=
  | reach_start starts w : active w = 0 -> reachable (map (fun c => (c, Shard_new)) starts) w
  | reach_others l w w' : reachable l w -> active w' = active w -> reachable l w'
  | reach_turn l1 clock sh l2 w services e now sh' w' :
      reachable (l1 ++ (clock, sh) :: l2) w ->
      event_ok clock slack e now -> decoded e -> each_tcp room (flows sh) ->
      loop_iteration link cfg iter services e now sh w = Some (sh', w') ->
      reachable (l1 ++ (now, sh') :: l2) w'
  | reach_shutdown l1 clock sh l2 w sh' w' :
      reachable (l1 ++ (clock, sh) :: l2) w ->
      shutdown link iter sh w = Some (sh', w') ->
      reachable (l1 ++ l2) w'.

(** The settings are in range, and [iter] lists a map's entries. *)
Record settings_ok : Prop := {
  so_limits : limits_ok cfg;
  so_ooo : 0 <= max_ooo_bytes cfg /\ 0 <= max_ooo_segments cfg;
  so_slack : 0 <= slack;
  so_iter : forall m, iter m ≡ₚ map_to_list m
}.

Record thread_ok (x : Thread) : Prop := {
  th_books : books cfg x.2;
  th_timed : timed cfg x.1 slack x.2;
  th_sound : each_tcp sound (flows x.2)
}.

Record system_ok (l : list Thread) (w : World) : Prop := {
  sys_threads : Forall thread_ok l;
  sys_active : active w = tables l;
  sys_limit : active w <= max_active_flows cfg
}.

Lemma Shard_new_ok clock : settings_ok -> thread_ok (clock, Shard_new).
Proof.
  intros [[_ ?] _ _ _]. split; simpl.
  - split; simpl; [done|done|]. intros p. unfold prefix_count. rewrite map_sum_empty. lia.
  - split; simpl; [constructor|done|done].
  - by intros k s H.
Qed.

Lemma system_focus l1 clock sh l2 w :
  settings_ok -> system_ok (l1 ++ (clock, sh) :: l2) w ->
  Forall thread_ok (l1 ++ l2) /\ each_tcp sound (flows sh) /\
  shard_ok cfg (tables (l1 ++ l2)) clock slack sh w.
Proof.
  intros Hset [Hth Hact Hlim]. rewrite Forall_app, Forall_cons in Hth. destruct Hth as (H1 & [Hb Ht Hs] & H2).
  rewrite Forall_app. split; [done|]. split; [done|]. split; [done|]. split; [|done].
  pose proof (tables_nonneg (l1 ++ l2)). unfold budget. rewrite Hact in *.
  rewrite !tables_app in *. simpl in *. lia.
Qed.

Lemma reachable_ok l w : settings_ok -> reachable l w -> system_ok l w.
Proof.
  intros Hset. induction 1 as [starts w Hw|l w w' _ IH Hw|l1 c sh l2 w services e now sh' w' _ IH He Hd Hr E
    |l1 c sh l2 w sh' w' _ IH E].
  - assert (tables (map (fun c => (c, Shard_new)) starts) = 0) as Ht
      by (clear; induction starts as [|c l IH]; simpl; [done|by rewrite IH]).
    split; [|lia|destruct (so_limits Hset); lia].
    apply Forall_forall. intros x (c & -> & _)%list_elem_of_fmap. by apply Shard_new_ok.
  - destruct IH. split; [done|congruence|congruence].
  - destruct (system_focus _ _ _ _ _ Hset IH) as (Hth & Hs & Hok).
    destruct (loop_iteration_total link cfg (so_ooo Hset) iter services e now sh w Hd Hs Hr)
      as (sh1 & w1 & E1 & Hs1). rewrite E in E1. injection E1 as <- <-.
    destruct Hset as [Hlo _ Hsl Hit].
    eapply loop_iteration_ok in E as [(Hb & (Ha & _ & Hl) & Ht) _]; [|done..].
    apply Forall_app in Hth as [H1 H2]. rewrite tables_app in Ha. split; [|rewrite tables_app; simpl; lia|done].
    apply Forall_app. split; [done|]. by constructor.
  - destruct (system_focus _ _ _ _ _ Hset IH) as (Hth & Hs & (Hb & Hbu & Ht)).
    destruct Hset as [Hlo _ _ Hit].
    eapply shutdown_ok in E as (Hf & _ & (Ha & _ & Hl) & _); [|done..].
    split; [done| |done]. unfold table_size in Ha. rewrite Hf, map_size_empty in Ha. simpl in Ha. lia.
Qed.
End System.
