(* ===== verification/FlowTheorems.v ===== *)
(** * Properties of the flow engine ([src/src/flow/mod.rs]) *)

From stdpp Require Import fin_maps.
From S2P Require Import Prelude BTree Model Services Reassembly ReassemblySpec Flow FlowSpec FlowTimers FlowSystem.

(** ** Tombstones *)

(** Every live entry is queued for expiry. *)
Definition tomb_ok (t : TcpTombstones) : Prop :=
  forall k d, by_key t !! k = Some d -> (d, k) ∈ order t.

Lemma forget_lookup m d key k x :
  forget m d key !! k = Some x <-> m !! k = Some x /\ (k, x) <> (key, d).
Proof.
  unfold forget. destruct (m !! key) as [c|] eqn:E.
  - destruct (c =? d) eqn:Ec; reflect_bools.
    + rewrite lookup_delete_Some. split; intros [H1 H2]; split; congruence.
    + split; [|by intros []]. intros Hk. split; [done|]. intros [= -> ->]. congruence.
  - split; [|by intros []]. intros Hk. split; [done|]. intros [= -> ->]. congruence.
Qed.

Lemma expire_loop_lookup l : forall m now k x,
  by_key (expire_loop m l now) !! k = Some x -> m !! k = Some x.
Proof.
  induction l as [|[d key] l IH]; intros m now k x; simpl; [done|].
  destruct (d <=? now); [|done]. intros H%IH. by apply forget_lookup in H as [? _].
Qed.

Lemma expire_loop_keeps l : forall m now k x,
  m !! k = Some x -> now < x -> by_key (expire_loop m l now) !! k = Some x.
Proof.
  induction l as [|[d key] l IH]; intros m now k x Hk Hx; simpl; [done|].
  destruct (d <=? now) eqn:E; reflect_bools; [|done]. apply IH; [|done].
  apply forget_lookup. split; [done|]. intros [= -> ->]. lia.
Qed.

Lemma forget_ok m d key l : tomb_ok {| by_key := m; order := (d, key) :: l |} ->
  tomb_ok {| by_key := forget m d key; order := l |}.
Proof.
  intros Hok k x H. apply forget_lookup in H as [Hk Hne].
  specialize (Hok k x Hk). simpl in Hok. apply elem_of_cons in Hok as [[= -> ->]|]; done.
Qed.

Lemma expire_loop_ok l : forall m now, tomb_ok {| by_key := m; order := l |} ->
  tomb_ok (expire_loop m l now) /\ exists l1, l = l1 ++ order (expire_loop m l now).
Proof.
  induction l as [|[d key] l IH]; intros m now Hok; simpl; [by split; [|exists []]|].
  destruct (d <=? now); [|by split; [|exists []]].
  destruct (IH (forget m d key) now (forget_ok _ _ _ _ Hok)) as [H1 [l1 H2]].
  split; [done|]. exists ((d, key) :: l1). simpl. by f_equal.
Qed.

(** A key is live exactly until its deadline. *)
Lemma contains_live_eq t key now :
  (contains_live t key now).1 = match by_key t !! key with Some d => now <? d | None => false end.
Proof.
  unfold contains_live, expire. simpl.
  destruct (by_key (expire_loop _ _ _) !! key) as [d|] eqn:E.
  - by apply expire_loop_lookup in E as ->.
  - destruct (by_key t !! key) as [d|] eqn:E2; [|done]. destruct (now <? d) eqn:El; reflect_bools; [|done].
    by rewrite (expire_loop_keeps _ _ _ _ _ E2 El) in E.
Qed.

Lemma size_one (m : gmap FlowKey Z) key l :
  tomb_ok {| by_key := m; order := l |} -> (forall d' k, (d', k) ∈ l -> k = key) ->
  (size m <= 1)%nat.
Proof.
  intros Hok Hl. assert (dom m ⊆ {[ key ]}) as Hd.
  { intros k [x Hx]%elem_of_dom. apply Hok in Hx. simpl in Hx. apply Hl in Hx as ->. set_solver. }
  apply subseteq_size in Hd. by rewrite size_dom, size_singleton in Hd.
Qed.

(** Shrinking stops within the limit, and before the newest entry. *)
Lemma shrink_loop_ok l : forall m key d,
  tomb_ok {| by_key := m; order := l ++ [(d, key)] |} -> m !! key = Some d -> (d, key) ∉ l ->
  let t := shrink_loop m (l ++ [(d, key)]) in
  tomb_ok t /\ Z.of_nat (size (by_key t)) <= TCP_TOMBSTONE_MAX /\ by_key t !! key = Some d.
Proof.
  induction l as [|[d' k'] l IH]; intros m key d Hok Hk Hnew.
  - assert (size m <= 1)%nat as Hz.
    { eapply (size_one m key); [exact Hok|]. intros d' k [= -> ->]%list_elem_of_singleton. done. }
    simpl. rewrite (proj2 (Z.ltb_ge _ _)) by (unfold TCP_TOMBSTONE_MAX; lia).
    split; [done|]. split; [simpl; unfold TCP_TOMBSTONE_MAX; lia|done].
  - simpl. apply not_elem_of_cons in Hnew as [Hne Hnew].
    destruct (_ <? _) eqn:E; reflect_bools; [|by split].
    apply IH; [by apply forget_ok| |done]. apply forget_lookup. split; [done|]. congruence.
Qed.

Lemma tomb_insert_ok t key now :
  tomb_ok t -> (now + TCP_TOMBSTONE_TTL, key) ∉ order t ->
  let t' := tomb_insert t key now in
  tomb_ok t' /\ Z.of_nat (size (by_key t')) <= TCP_TOMBSTONE_MAX /\
  by_key t' !! key = Some (now + TCP_TOMBSTONE_TTL).
Proof.
  intros Hok Hnew. unfold tomb_insert, expire. simpl. set (d := now + TCP_TOMBSTONE_TTL) in *.
  set (m := <[key := d]> (by_key t)).
  assert (tomb_ok {| by_key := m; order := order t ++ [(d, key)] |}) as Hok1.
  { intros k x. simpl. subst m. intros [[<- <-]|[_ H]]%lookup_insert_Some; apply elem_of_app.
    - right. apply list_elem_of_singleton. done.
    - left. by apply Hok. }
  destruct (expire_loop_ok _ m now Hok1) as [Hok2 [l1 Hl]].
  assert (by_key (expire_loop m (order t ++ [(d, key)]) now) !! key = Some d) as Hk.
  { apply expire_loop_keeps; [apply lookup_insert_eq|]. subst d. unfold TCP_TOMBSTONE_TTL. lia. }
  destruct (expire_loop m _ now) as [m2 o2]. simpl in *.
  pose proof (Hok2 _ _ Hk) as Hin. simpl in Hin.
  destruct o2 as [|z o2 _] using rev_ind; [by apply elem_of_nil in Hin|].
  rewrite app_assoc in Hl. apply app_inj_tail in Hl as [Hl <-].
  apply shrink_loop_ok; [done|done|]. intros H. apply Hnew. rewrite Hl. apply elem_of_app. by right.
Qed.

(** A tombstone lives for its time: after a connection is closed at [now] its
    key is found exactly until [now + TTL], the table never exceeds its limit,
    and the newest entry is never the one evicted. *)
Theorem tombstone_lifetime t key now later :
  tomb_ok t -> (now + TCP_TOMBSTONE_TTL, key) ∉ order t ->
  (contains_live (tomb_insert t key now) key later).1 = (later <? now + TCP_TOMBSTONE_TTL) /\
  Z.of_nat (size (by_key (tomb_insert t key now))) <= TCP_TOMBSTONE_MAX /\
  tomb_ok (tomb_insert t key now).
Proof.
  intros Hok Hnew. destruct (tomb_insert_ok t key now Hok Hnew) as (H1 & H2 & H3).
  rewrite contains_live_eq, H3. auto.
Qed.

(** ** Tails and generations *)

Lemma close_flow_frame link sh key w sh' w' :
  close_flow link sh key w = Some (sh', w') ->
  flows sh' = delete key (flows sh) /\ tombstones sh' = tombstones sh.
Proof.
  unfold close_flow. destruct (flows sh !! key) eqn:E.
  - destruct (retire _ _ _ _ _) as [[counts w1]|]; [|done]. simpl. by intros [= <- <-].
  - intros [= <- <-]. by rewrite delete_id.
Qed.

(** A packet that only trails a closed connection. *)
Definition tail (p : ParsedPacket) : bool :=
  negb (syn (p_flags p)) && (fin (p_flags p) || rst (p_flags p) || is_empty (p_payload p)).

(** Once a TCP flow is closed, its late FINs, RSTs and bare ACKs are dropped
    while the tombstone lives: no flow is created and nothing is counted as
    received. *)
Theorem closed_tail_suppressed link cfg sh s p is_new r t w sh' w' services p' fresh t' w1 :
  fk_protocol (p_key p) = Tcp -> should_close s r = true ->
  tomb_ok (tombstones sh) -> (closed_now t + TCP_TOMBSTONE_TTL, p_key p) ∉ order (tombstones sh) ->
  schedule_or_close link cfg sh s p is_new r t w = Some (sh', w') ->
  p_key p' = p_key p -> tail p' = true -> tombstone_now t' < closed_now t + TCP_TOMBSTONE_TTL ->
  exists sh'', handle_packet link cfg services p' fresh t' sh' w1 = Some (false, sh'', dequeue w1) /\
    flows sh'' = delete (p_key p) (flows sh).
Proof.
  intros Htcp Hcl Hok Hnew E Hk Htail Hlt. unfold schedule_or_close in E.
  rewrite Hcl, Htcp, andb_false_r in E. apply close_flow_frame in E as [Hf Ht]. simpl in Hf, Ht.
  destruct (tomb_insert_ok _ _ _ Hok Hnew) as (_ & _ & Hby).
  rewrite handle_packet_eq. unfold check_tombstone. rewrite Hk, Htcp. unfold tail in Htail.
  destruct (syn (p_flags p')); [done|]. cbn [negb andb] in *. rewrite Hf, lookup_delete_eq.
  rewrite bool_decide_eq_false_2 by (intros [? ?]; done). cbn [negb andb].
  pose proof (contains_live_eq (tombstones sh') (p_key p) (tombstone_now t')) as Hlive.
  destruct (contains_live _ _ _) as [live tombs]. simpl in Hlive. rewrite Ht, Hby in Hlive.
  rewrite (proj2 (Z.ltb_lt _ _)) in Hlive by done. subst live. rewrite Htail. simpl. eauto.
Qed.

Lemma process_syn link cfg p t s w r s' w' :
  fk_protocol (p_key p) = Tcp -> ack_flag (p_flags p) = false ->
  process link cfg p t s w = Some (r, s', w') ->
  half s' (opposite (p_direction p)) = half s (opposite (p_direction p)).
Proof.
  intros Htcp Hack. unfold process, handle_tcp, handle_ack. rewrite Htcp, Hack. simpl.
  set (s0 := count_packet _ _ _).
  destruct (handle_segment _ _ _ _ _) as [[[e1 s1] w1]|] eqn:E1; [|done]. simpl.
  destruct (publish _ _ _ _ _ _) as [s2 w2] eqn:E2. apply publish_halves in E2 as [Ea Eb].
  intros [= _ <- _]. assert (half s1 (opposite (p_direction p)) = half s0 (opposite (p_direction p))) as H1.
  { revert E1. unfold handle_segment. destruct (_ && _); [|by intros [= _ <- _]].
    destruct (accept _ _ _ _ _ _ _ _ _) as [[h o]|]; [|done]. simpl. intros [= E].
    apply emit_frame in E as (_ & E3 & E4 & _). destruct (p_direction p); simpl in *; congruence. }
  destruct (p_direction p); simpl in *; congruence.
Qed.

(** TCP generations: when a SYN (without ACK) meets a flow on its key, a
    retransmitted SYN stays in that flow; a SYN with another sequence number
    ends it, and what is in the table afterwards is a flow of its own whose
    opposite direction is blank. *)
Theorem syn_starts_generation link cfg services p fresh t sh w s c sh' w' s' :
  fk_protocol (p_key p) = Tcp -> syn (p_flags p) = true -> ack_flag (p_flags p) = false ->
  flows sh !! p_key p = Some s ->
  handle_packet link cfg services p fresh t sh w = Some (c, sh', w') ->
  flows sh' !! p_key p = Some s' ->
  if is_syn_retransmit s p
  then f_id s' = f_id s /\
       half s' (opposite (p_direction p)) = half s (opposite (p_direction p))
  else f_id s' = fresh /\ initiator s' = p_direction p /\
       half s' (opposite (p_direction p)) = TcpHalf_default.
Proof.
  intros Htcp Hsyn Hack Hs. rewrite handle_packet_eq.
  destruct (check_tombstone sh p t) as [sup sh1] eqn:E1.
  pose proof E1 as (Ef & _)%check_tombstone_frame.
  assert (sup = false) as ->.
  { revert E1. unfold check_tombstone. rewrite Htcp, Hsyn, Hack. by intros [= <- _]. }
  rewrite <- Ef in Hs. unfold check_generation. rewrite Htcp, Hs, Hsyn, Hack. simpl.
  assert (forall sh2 w2 r sh3 s3 n3 w3 s4 w4, (Some (s3, n3), sh3, w3) =
      find_or_create cfg sh2 services p fresh t w2 ->
    process link cfg p t s3 w3 = Some (r, s4, w4) ->
    ('(sh, w) ← schedule_or_close link cfg (set_flows sh3 (<[p_key p := s4]> (flows sh3))) s4 p n3 r t w4;
     Some (true, sh, w)) = Some (c, sh', w') ->
    flows sh' !! p_key p = Some s' ->
    s' = s4 /\ f_id s4 = f_id s3 /\ initiator s4 = initiator s3 /\
    half s4 (opposite (p_direction p)) = half s3 (opposite (p_direction p))) as Hrest.
  { intros sh2 w2 r sh3 s3 n3 w3 s4 w4 _ Ep E Hs'.
    assert (s' = s4) as ->.
    { destruct (schedule_or_close _ _ _ _ _ _ _ _ _) as [[sh5 w5]|] eqn:E5; [|done].
      injection E as _ -> _. revert E5. unfold schedule_or_close. destruct (should_close s4 r).
      - rewrite Htcp. intros [Hf _]%close_flow_frame. rewrite Hf, lookup_delete_eq in Hs'. done.
      - rewrite andb_true_r. destruct n3; intros [= <- _]; simpl in Hs';
          rewrite lookup_insert_eq in Hs'; congruence. }
    split; [done|]. pose proof (process_syn _ _ _ _ _ _ _ _ _ Htcp Hack Ep).
    by apply process_frame in Ep as ([] & _). }
  destruct (is_syn_retransmit s p); simpl.
  - destruct (find_or_create _ _ _ _ _ _ _) as [[r sh3] w3] eqn:E3. pose proof E3 as E3'.
    unfold find_or_create in E3. rewrite Hs in E3. injection E3 as <- <- <-.
    destruct (process _ _ _ _ _ _) as [[[r s4] w4]|] eqn:E4; [|done]. simpl.
    intros E Hs'. by edestruct Hrest as (-> & ? & _ & ?).
  - destruct (close_flow _ _ _ _) as [[sh2 w2]|] eqn:E2; [|done]. simpl.
    apply close_flow_frame in E2 as [Hf _].
    destruct (find_or_create _ _ _ _ _ _ _) as [[r sh3] w3] eqn:E3. pose proof E3 as E3'.
    assert (flows sh2 !! p_key p = None) as Hnone by (rewrite Hf; apply lookup_delete_eq).
    unfold find_or_create in E3. rewrite Hnone in E3. destruct r as [[s3 n3]|].
    + assert (s3 = FlowState_new p fresh t) as -> by (by repeat case_match; simplify_eq).
      destruct (process _ _ _ _ _ _) as [[[r s4] w4]|] eqn:E4; [|done]. simpl. intros E Hs'.
      edestruct Hrest as (-> & -> & -> & ->); [done..|]. simpl. by destruct (p_direction p).
    + intros [= _ <- _]. assert (flows sh3 = flows sh2) as -> by (by repeat case_match; simplify_eq).
      by rewrite Hnone.
Qed.

(** ** The whole engine *)

Section System.
Context (link : nat -> bool) (cfg : FlowConfig) (slack : Z).
Context (iter : gmap FlowKey FlowState -> list (FlowKey * FlowState)).

(** C4. Resource limits: however the shards interleave, the global counter is
    exactly the number of tracked flows and never exceeds [max_active_flows],
    and in every shard each source has the number of flows its counter says,
    at most [max_flows_per_source_prefix]. *)
Theorem flow_budget shards w clock sh prefix :
  settings_ok cfg slack iter -> reachable link cfg slack iter shards w -> (clock, sh) ∈ shards ->
  metrics w ActiveFlows = tables shards /\ tables shards <= max_active_flows cfg /\
  default 0 (source_counts sh !! prefix) = prefix_count prefix (flows sh) /\
  prefix_count prefix (flows sh) <= max_flows_per_source_prefix cfg.
Proof.
  intros Hset Hr Hin. destruct (reachable_ok _ _ _ _ _ _ Hset Hr) as [Hth Ha Hl].
  eapply Forall_forall in Hth as [[_ Hc Hp] _ _]; [|done]. unfold active in *.
  split; [done|]. split; [lia|]. by split.
Qed.

(** C32. Idle flows are closed: after every turn of a shard at time [now] that is not
    cut short by a refused packet, no flow in its table has been idle for its
    timeout (plus [slack], the delay between counting a packet and setting its
    timer). *)
Theorem idle_flows_close l1 clock sh l2 w services e now sh' w' k s :
  settings_ok cfg slack iter -> reachable link cfg slack iter (l1 ++ (clock, sh) :: l2) w ->
  event_ok clock slack e now ->
  completes link cfg services e sh w = true ->
  loop_iteration link cfg iter services e now sh w = Some (sh', w') ->
  flows sh' !! k = Some s ->
  now < last_activity s + idle_timeout cfg (fk_protocol k) + slack.
Proof.
  intros Hset Hr He Hc E Hs. pose proof (reachable_ok _ _ _ _ _ _ Hset Hr) as Hok.
  destruct (system_focus _ _ _ _ _ _ _ _ Hset Hok) as (_ & _ & Hsh).
  destruct Hset as [Hlo _ Hsl Hit]. eapply loop_iteration_ok in E as [_ Hidle]; [|done..]. eauto.
Qed.

(** C31. No panic: in every reachable state every turn of every shard returns,
    whatever packet it is given, and so does the drain at shutdown. *)
Theorem shard_never_panics l1 clock sh l2 w services e now :
  settings_ok cfg slack iter -> reachable link cfg slack iter (l1 ++ (clock, sh) :: l2) w ->
  decoded e -> each_tcp room (flows sh) ->
  (exists sh' w', loop_iteration link cfg iter services e now sh w = Some (sh', w')) /\
  (exists sh' w', shutdown link iter sh w = Some (sh', w')).
Proof.
  intros Hset Hr He Hroom. pose proof (reachable_ok _ _ _ _ _ _ Hset Hr) as Hok.
  destruct (system_focus _ _ _ _ _ _ _ _ Hset Hok) as (_ & Hso & _). destruct Hset as [_ Ho _ Hit]. split.
  - destruct (loop_iteration_total link cfg Ho iter services e now sh w He Hso Hroom) as (sh' & w' & -> & _).
    eauto.
  - destruct (shutdown_total link iter Hit sh w Hso) as [[sh' w'] ->]. eauto.
Qed.
End System.

(** ** Refused packets *)

(** Consecutive turns of one shard. *)
Fixpoint turns (link : nat -> bool) (cfg : FlowConfig) iter (services : ServiceRegistry)
  (events : list (Event * Z)) (sh : Shard) (w : World) : option (Shard * World) :=
  match events with
  | [] => Some (sh, w)
  | (e, now) :: events =>
      '(sh, w) ← loop_iteration link cfg iter services e now sh w;
      turns link cfg iter services events sh w
  end.

(** A packet of no tracked flow. *)
Definition unknown (sh : Shard) (e : Event) : Prop :=
  match e with Packet p _ _ => flows sh !! p_key p = None | Timeout => False end.

Lemma unknown_refused link cfg iter services e now sh w :
  unknown sh e -> max_active_flows cfg <= active w ->
  exists sh' w', loop_iteration link cfg iter services e now sh w = Some (sh', w') /\
    flows sh' = flows sh /\ timers sh' = timers sh /\ active w' = active w.
Proof.
  destruct e as [p fresh t|]; [|done]. unfold loop_iteration, unknown. rewrite handle_packet_eq.
  intros Hk Hfull. destruct (check_tombstone sh p t) as [sup sh1] eqn:E1.
  apply check_tombstone_frame in E1 as (Ef & _ & Et & _). rewrite <- Ef in Hk.
  destruct sup; [simpl; eexists _, _; split; [done|]; by rewrite active_dequeue|].
  assert (check_generation link sh1 p (dequeue w) = Some (sh1, dequeue w)) as ->
    by (unfold check_generation; rewrite Hk; by destruct (fk_protocol _)).
  simpl. unfold find_or_create. rewrite Hk. destruct (negb _).
  - simpl. eexists _, _. split; [done|]. by rewrite active_count, active_dequeue.
  - unfold try_admit_flow. fold (active (dequeue w)). rewrite active_dequeue.
    rewrite (proj2 (Z.ltb_ge _ _)) by done. simpl.
    eexists _, _. split; [done|]. by rewrite active_count, active_dequeue.
Qed.

(** Starvation: a refused packet ends its turn before the timers, so while the
    flow table is full, a stream of packets of unknown flows, however long and
    at whatever times, leaves every idle flow in the table. *)
Theorem refused_packets_starve_timers link cfg iter services events sh w :
  max_active_flows cfg <= metrics w ActiveFlows -> Forall (fun e => unknown sh e.1) events ->
  exists sh' w', turns link cfg iter services events sh w = Some (sh', w') /\
    flows sh' = flows sh /\ timers sh' = timers sh.
Proof.
  change (metrics w ActiveFlows) with (active w).
  revert sh w. induction events as [|[e now] events IH]; intros sh w Hfull Hall; simpl; [by eauto|].
  apply Forall_cons in Hall as [He Hall].
  destruct (unknown_refused link cfg iter services e now sh w He Hfull) as (sh1 & w1 & -> & Ef & Et & Ea).
  simpl. destruct (IH sh1 w1) as (sh2 & w2 & -> & Ef2 & Et2); [lia| |].
  - eapply Forall_impl; [exact Hall|]. intros [[p fresh t|] n]; simpl; [by rewrite Ef|done].
  - eexists _, _. split; [done|]. split; congruence.
Qed.
