(* ===== verification/FlowExamples.v ===== *)
(** * The flow engine on concrete packets

    The theorems of [FlowTheorems.v] applied to one TCP connection of a shard. *)

From stdpp Require Import strings fin_maps.
From S2P Require Import Prelude BTree Model Services Reassembly ReassemblySpec Flow FlowSpec FlowTimers FlowSystem.
From S2P Require Import FlowTheorems.

Definition ex_cfg : FlowConfig :=
  {| max_active_flows := 4; max_flows_per_source_prefix := 2; max_ooo_bytes := 1000;
     max_ooo_segments := 10; tcp_gap_timeout := 100; tcp_idle_timeout := 1000;
     udp_idle_timeout := 500; live_flow_update_interval := 50 |}.

Definition ex_link : nat -> bool := fun _ => true.
Definition ex_iter : gmap FlowKey FlowState -> list (FlowKey * FlowState) := map_to_list.

Definition ex_services : ServiceRegistry :=
  ServiceRegistry_new [{| sc_name := bytes_of "web"; sc_port := 80; sc_http := true;
    sc_urldecode_http_requests := false; sc_merge_adjacent_packets := false; sc_parse_websockets := false |}].

Definition ex_a : Endpoint := {| ep_ip := V4 [x0a; x00; x00; x01]; ep_port := 5000 |}.
Definition ex_b : Endpoint := {| ep_ip := V4 [x0a; x00; x00; x02]; ep_port := 80 |}.
Definition ex_key : FlowKey := {| fk_a := ex_a; fk_b := ex_b; fk_protocol := Tcp; fk_l2_domain := 0 |}.

Definition ex_packet (f : TcpFlags) (seq : Z) (d : bytes) : ParsedPacket :=
  {| p_ts_ns := 7; p_key := ex_key; p_direction := AToB; p_seq := Some seq; p_ack := None;
     p_flags := f; p_payload := d; p_wire_len := 60 |}.

Definition ex_syn : TcpFlags :=
  {| fin := false; syn := true; rst := false; psh := false; ack_flag := false |}.
Definition ex_fin : TcpFlags :=
  {| fin := true; syn := false; rst := false; psh := false; ack_flag := false |}.

Definition ex_times (n : Z) : Times :=
  {| tombstone_now := n; created_now := n; created_snapshot_now := n; counted_now := n;
     snapshot_now := n; timer_now := n; closed_now := n |}.

Definition ex_world : World := {| metrics := fun _ => 0; out := []; sends := 0 |}.

Definition ex_event (f : TcpFlags) (seq fresh n : Z) : Event := Packet (ex_packet f seq []) fresh (ex_times n).

Definition ex_turn (e : Event) (now : Z) (s : Shard * World) : Shard * World :=
  default s (loop_iteration ex_link ex_cfg ex_iter ex_services e now s.1 s.2).

Definition returns {A} (o : option A) : bool := match o with Some _ => true | None => false end.

Lemma returns_default {A} (o : option A) d : returns o = true -> o = Some (default d o).
Proof. by destruct o. Qed.

Lemma ex_turn_eq e now s :
  returns (loop_iteration ex_link ex_cfg ex_iter ex_services e now s.1 s.2) = true ->
  loop_iteration ex_link ex_cfg ex_iter ex_services e now s.1 s.2 =
    Some ((ex_turn e now s).1, (ex_turn e now s).2).
Proof. intros H. rewrite <- surjective_pairing. by apply returns_default. Qed.

(** A SYN creates a flow. *)
Definition ex_opened : Shard * World := ex_turn (ex_event ex_syn 100 1 10) 10 (Shard_new, ex_world).

Definition ex_flow : FlowState :=
  default (FlowState_new (ex_packet ex_syn 100 []) 1 (ex_times 10)) (flows ex_opened.1 !! ex_key).

Example opened_one_flow :
  size (flows ex_opened.1) = 1%nat /\ f_id ex_flow = 1 /\ metrics ex_opened.2 ActiveFlows = 1.
Proof. vm_compute. done. Qed.

Lemma ex_settings : settings_ok ex_cfg 0 ex_iter.
Proof. split; [split; simpl; unfold u64_MAX; lia|simpl; lia|lia|]. intros m. reflexivity. Qed.

Lemma ex_reachable : reachable ex_link ex_cfg 0 ex_iter [(10, ex_opened.1)] ex_opened.2.
Proof.
  apply (reach_turn ex_link ex_cfg 0 ex_iter [] 0 Shard_new [] ex_world ex_services (ex_event ex_syn 100 1 10)).
  - by apply (reach_start ex_link ex_cfg 0 ex_iter [0]).
  - by repeat split.
  - by repeat split.
  - by intros k s Hs.
  - apply (ex_turn_eq _ _ (Shard_new, ex_world)). by vm_compute.
Qed.

Lemma flow_budget_witness :
  metrics ex_opened.2 ActiveFlows = tables [(10, ex_opened.1)] /\ tables [(10, ex_opened.1)] <= 4 /\
  default 0 (source_counts ex_opened.1 !! from_packet (ex_packet ex_syn 100 [])) =
    prefix_count (from_packet (ex_packet ex_syn 100 [])) (flows ex_opened.1) /\
  prefix_count (from_packet (ex_packet ex_syn 100 [])) (flows ex_opened.1) <= 2.
Proof.
  apply (flow_budget ex_link ex_cfg 0 ex_iter [(10, ex_opened.1)] ex_opened.2 10);
    [apply ex_settings|apply ex_reachable|by left].
Defined.

Lemma idle_flows_close_witness :
  let turned := ex_turn Timeout 900 ex_opened in
  flows turned.1 !! ex_key = Some ex_flow /\ 900 < last_activity ex_flow + 1000 + 0.
Proof.
  split; [by vm_compute|].
  apply (idle_flows_close ex_link ex_cfg 0 ex_iter [] 10 ex_opened.1 [] ex_opened.2 ex_services Timeout 900
    (ex_turn Timeout 900 ex_opened).1 (ex_turn Timeout 900 ex_opened).2 ex_key ex_flow);
    [apply ex_settings|apply ex_reachable|by vm_compute|by vm_compute|by apply ex_turn_eq; vm_compute|by vm_compute].
Defined.

Lemma ex_room : each_tcp room (flows ex_opened.1).
Proof.
  intros k s Hs _. apply elem_of_map_to_list in Hs.
  assert (map_to_list (flows ex_opened.1) = [(ex_key, ex_flow)]) as E by (by vm_compute).
  rewrite E in Hs. apply list_elem_of_singleton in Hs as [= -> ->]. by intros []; vm_compute.
Qed.

Lemma shard_never_panics_witness :
  (exists sh' w', loop_iteration ex_link ex_cfg ex_iter ex_services (ex_event ex_fin 101 2 20) 20
     ex_opened.1 ex_opened.2 = Some (sh', w')) /\
  (exists sh' w', shutdown ex_link ex_iter ex_opened.1 ex_opened.2 = Some (sh', w')).
Proof.
  apply (shard_never_panics ex_link ex_cfg 0 ex_iter [] 10 ex_opened.1 []);
    [apply ex_settings|apply ex_reachable|by repeat split|apply ex_room].
Defined.

Lemma tombstone_lifetime_witness :
  (contains_live (tomb_insert TcpTombstones_new ex_key 5) ex_key 2000000004).1 = true /\
  Z.of_nat (size (by_key (tomb_insert TcpTombstones_new ex_key 5))) <= TCP_TOMBSTONE_MAX /\
  tomb_ok (tomb_insert TcpTombstones_new ex_key 5).
Proof.
  apply (tombstone_lifetime TcpTombstones_new ex_key 5 2000000004); [|by intros ?%elem_of_nil].
  by intros k d Hk.
Defined.

(** The reset that closes [ex_opened]'s flow, then a late FIN. *)
Definition ex_close : option (Shard * World) :=
  schedule_or_close ex_link ex_cfg ex_opened.1 ex_flow (ex_packet ex_syn 100 []) false true (ex_times 30)
    ex_opened.2.

Lemma closed_tail_suppressed_witness :
  let r := default ex_opened ex_close in
  exists sh'', handle_packet ex_link ex_cfg ex_services (ex_packet ex_fin 101 []) 3 (ex_times 40) r.1 r.2 =
    Some (false, sh'', dequeue r.2) /\ flows sh'' = delete ex_key (flows ex_opened.1).
Proof.
  apply (closed_tail_suppressed ex_link ex_cfg ex_opened.1 ex_flow (ex_packet ex_syn 100 []) false true
    (ex_times 30) ex_opened.2 (default ex_opened ex_close).1 (default ex_opened ex_close).2).
  - done.
  - by vm_compute.
  - assert (map_to_list (by_key (tombstones ex_opened.1)) = []) as E by (by vm_compute).
    apply map_to_list_empty_iff in E. intros k d H. by rewrite E, lookup_empty in H.
  - assert (order (tombstones ex_opened.1) = []) as -> by (by vm_compute). by intros ?%elem_of_nil.
  - rewrite <- surjective_pairing. apply returns_default. by vm_compute.
  - done.
  - done.
  - done.
Defined.

Definition ex_again (seq : Z) : bool * Shard * World :=
  default (true, ex_opened.1, ex_opened.2) (handle_packet ex_link ex_cfg ex_services (ex_packet ex_syn seq []) 9 (ex_times 50)
    ex_opened.1 ex_opened.2).

Definition ex_flow2 : FlowState := default ex_flow (flows (ex_again 700).1.2 !! ex_key).

Lemma syn_starts_generation_witness :
  is_syn_retransmit ex_flow (ex_packet ex_syn 700 []) = false /\
  f_id ex_flow2 = 9 /\ initiator ex_flow2 = AToB /\ half ex_flow2 BToA = TcpHalf_default.
Proof.
  assert (is_syn_retransmit ex_flow (ex_packet ex_syn 700 []) = false) as Hn by (by vm_compute).
  split; [done|].
  pose proof (syn_starts_generation ex_link ex_cfg ex_services (ex_packet ex_syn 700 []) 9 (ex_times 50)
    ex_opened.1 ex_opened.2 ex_flow (ex_again 700).1.1 (ex_again 700).1.2 (ex_again 700).2 ex_flow2) as H.
  rewrite Hn in H. apply H; clear H.
  - done.
  - done.
  - done.
  - by vm_compute.
  - rewrite <- !surjective_pairing. apply returns_default. by vm_compute.
  - by vm_compute.
Defined.

(** The table is full (four flows over all shards) and the flow of this shard long
    idle; packets of another flow change nothing. *)
Definition ex_full : World :=
  {| metrics := fun c => if decide (c = ActiveFlows) then 4 else 0; out := []; sends := 0 |}.

Definition ex_other : ParsedPacket :=
  {| p_ts_ns := 9; p_key := {| fk_a := ex_a; fk_b := ex_b; fk_protocol := Udp; fk_l2_domain := 0 |};
     p_direction := AToB; p_seq := None; p_ack := None; p_flags := TcpFlags_default; p_payload := [x01];
     p_wire_len := 60 |}.

Lemma refused_packets_starve_timers_witness :
  exists sh' w', turns ex_link ex_cfg ex_iter ex_services
    (repeat (Packet ex_other 5 (ex_times (10 ^ 9)), 10 ^ 9) 3) ex_opened.1 ex_full = Some (sh', w') /\
    flows sh' = flows ex_opened.1 /\ timers sh' = timers ex_opened.1.
Proof.
  apply refused_packets_starve_timers; [by vm_compute|].
  apply Forall_forall. intros x Hx. apply list_elem_of_In, repeat_spec in Hx as ->. by vm_compute.
Defined.
