(* ===== verification/Text.v ===== *)
(** * Text of the standard library: [str], ASCII and UTF-8

    What the HTTP layer uses of Rust's strings.  A [str] is the list of its code
    points while it is taken apart, and its UTF-8 bytes where it is stored. *)

From S2P Require Import Prelude.

(** The result of fallible code; error messages are left out. *)
Inductive Result (A : Type) :=
  | Ok (a : A)
  | Err.
Arguments Ok {A} a.
Arguments Err {A}.

#[export] Instance Result_ret : MRet Result := fun A a => Ok a.
#[export] Instance Result_bind : MBind Result :=
  fun A B f r => match r with Ok a => f a | Err => Err end.

Definition of_option {A} (o : option A) : Result A := match o with Some a => Ok a | None => Err end.

Definition between (lo x hi : Z) : bool := (lo <=? x) && (x <=? hi).

(** ** UTF-8 *)

Definition continuation (b : byte) : bool := between 0x80 (byte_val b) 0xBF.

(** The second byte a three-byte and a four-byte sequence may have. *)
Definition second3 (x : Z) (b : byte) : bool :=
  between (if x =? 0xE0 then 0xA0 else 0x80) (byte_val b) (if x =? 0xED then 0x9F else 0xBF).

Definition second4 (x : Z) (b : byte) : bool :=
  between (if x =? 0xF0 then 0x90 else 0x80) (byte_val b) (if x =? 0xF4 then 0x8F else 0xBF).

Definition low6 (b : byte) : Z := Z.land (byte_val b) 0x3F.

(** The characters of a byte string; [None] is one invalid sequence (as long as
    the lossy conversion takes it). *)
Fixpoint chars (v : bytes) : list (option Z) :=
  match v with
  | [] => []
  | b0 :: r0 =>
      let x := byte_val b0 in
      if x <? 0x80 then Some x :: chars r0
      else if between 0xC2 x 0xDF then
        match r0 with
        | b1 :: r1 =>
            if continuation b1 then Some (Z.shiftl (x - 0xC0) 6 + low6 b1) :: chars r1
            else None :: chars r0
        | [] => [None]
        end
      else if between 0xE0 x 0xEF then
        match r0 with
        | b1 :: r1 =>
            if second3 x b1 then
              match r1 with
              | b2 :: r2 =>
                  if continuation b2
                  then Some (Z.shiftl (x - 0xE0) 12 + Z.shiftl (low6 b1) 6 + low6 b2) :: chars r2
                  else None :: chars r1
              | [] => [None]
              end
            else None :: chars r0
        | [] => [None]
        end
      else if between 0xF0 x 0xF4 then
        match r0 with
        | b1 :: r1 =>
            if second4 x b1 then
              match r1 with
              | b2 :: r2 =>
                  if continuation b2 then
                    match r2 with
                    | b3 :: r3 =>
                        if continuation b3
                        then Some (Z.shiftl (x - 0xF0) 18 + Z.shiftl (low6 b1) 12
                                   + Z.shiftl (low6 b2) 6 + low6 b3) :: chars r3
                        else None :: chars r2
                    | [] => [None]
                    end
                  else None :: chars r1
              | [] => [None]
              end
            else None :: chars r0
        | [] => [None]
        end
      else None :: chars r0
  end.

Definition from_utf8 (v : bytes) : Result (list Z) := of_option (mapM (fun c => c) (chars v)).

Definition from_utf8_lossy (v : bytes) : list Z := map (default 0xFFFD) (chars v).

Definition len_utf8 (c : Z) : Z :=
  if c <? 0x80 then 1 else if c <? 0x800 then 2 else if c <? 0x10000 then 3 else 4.

(** [str::len]. *)
Definition str_len (s : list Z) : Z := foldr (fun c n => len_utf8 c + n) 0 s.

Definition tail6 (c shift : Z) : byte := byte_of (0x80 + Z.land (Z.shiftr c shift) 0x3F).

Definition encode_utf8 (c : Z) : bytes :=
  if c <? 0x80 then [byte_of c]
  else if c <? 0x800 then [byte_of (0xC0 + Z.shiftr c 6); tail6 c 0]
  else if c <? 0x10000 then [byte_of (0xE0 + Z.shiftr c 12); tail6 c 6; tail6 c 0]
  else [byte_of (0xF0 + Z.shiftr c 18); tail6 c 12; tail6 c 6; tail6 c 0].

Definition str_bytes (s : list Z) : bytes := concat (map encode_utf8 s).

(** ** Characters *)

Definition is_ascii_digit (c : Z) : bool := between 48 c 57.
Definition is_ascii_uppercase (c : Z) : bool := between 65 c 90.
Definition is_ascii_whitespace (c : Z) : bool :=
  (c =? 9) || (c =? 10) || (c =? 12) || (c =? 13) || (c =? 32).
Definition to_ascii_lowercase (c : Z) : Z := if is_ascii_uppercase c then c + 32 else c.

(** [char::is_whitespace]: the Unicode property White_Space. *)
Definition is_whitespace (c : Z) : bool :=
  between 9 c 13 || (c =? 32) || (c =? 0x85) || (c =? 0xA0) || (c =? 0x1680)
  || between 0x2000 c 0x200A || (c =? 0x2028) || (c =? 0x2029) || (c =? 0x202F)
  || (c =? 0x205F) || (c =? 0x3000).

Definition eq_ignore_ascii_case (s t : list Z) : bool :=
  bool_decide (map to_ascii_lowercase s = map to_ascii_lowercase t).

(** The code points of an ASCII literal, and of a byte string taken byte by byte. *)
Definition vals (v : bytes) : list Z := map byte_val v.

(** ** Taking strings apart *)

Fixpoint trim_start (s : list Z) : list Z :=
  match s with
  | c :: s' => if is_whitespace c then trim_start s' else s
  | [] => []
  end.

Definition trim (s : list Z) : list Z := rev (trim_start (rev (trim_start s))).

(** [str::split] on one character: at least one piece. *)
Fixpoint split_on (sep : Z) (s : list Z) : list (list Z) :=
  match s with
  | [] => [[]]
  | c :: s =>
      if c =? sep then [] :: split_on sep s
      else match split_on sep s with p :: ps => (c :: p) :: ps | [] => [[c]] end
  end.

(** [split(c).next().unwrap_or("")]. *)
Definition first_piece (sep : Z) (s : list Z) : list Z :=
  match split_on sep s with p :: _ => p | [] => [] end.

(** ** Numbers *)

Definition to_digit (radix c : Z) : option Z :=
  let d := if is_ascii_digit c then c - 48
           else if between 97 (to_ascii_lowercase c) 122 then to_ascii_lowercase c - 87
           else radix in
  if d <? radix then Some d else None.

(** The digits of a number, most significant first; [None] on another character
    or when the value passes 64 bits. *)
Fixpoint digits (radix acc : Z) (s : list Z) : option Z :=
  match s with
  | [] => Some acc
  | c :: s =>
      d ← to_digit radix c;
      let acc := acc * radix + d in
      if acc <=? u64_MAX then digits radix acc s else None
  end.

(** [u64::from_str_radix] and [usize::from_str_radix]: an optional plus sign, then
    at least one digit. *)
Definition from_str_radix (radix : Z) (s : list Z) : Result Z :=
  match s with
  | [] => Err
  | c :: s' =>
      if c =? 43
      then match s' with [] => Err | _ :: _ => of_option (digits radix 0 s') end
      else of_option (digits radix 0 s)
  end.

(** ** Searching bytes *)

Fixpoint starts_with (v pat : bytes) {struct pat} : bool :=
  match pat, v with
  | [], _ => true
  | p :: pat, b :: v => bool_decide (b = p) && starts_with v pat
  | _ :: _, [] => false
  end.

(** [windows(n).position(|w| w == pat)] for a pattern of [n > 0] bytes. *)
Fixpoint window_position (pat v : bytes) : option Z :=
  match v with
  | [] => None
  | _ :: v' => if starts_with v pat then Some 0 else Z.add 1 <$> window_position pat v'
  end.

(** ** Facts *)

Lemma starts_with_spec v pat : starts_with v pat = true <-> exists t, v = pat ++ t.
Proof.
  revert v. induction pat as [|p pat IH]; intros v; simpl.
  - split; [by exists v|done].
  - destruct v as [|b v]; [split; [done|by intros [t H]]|].
    rewrite andb_true_iff, IH, bool_decide_eq_true. split.
    + intros [-> [t ->]]. by exists t.
    + intros [t [= -> ->]]. split; [done|by exists t].
Qed.

Lemma starts_with_app v w pat : starts_with v pat = true -> starts_with (v ++ w) pat = true.
Proof. intros [t ->]%starts_with_spec. apply starts_with_spec. exists (t ++ w). by rewrite <- app_assoc. Qed.

(** Whether a pattern starts here depends on its length only. *)
Lemma starts_with_long v w pat : blen pat <= blen v -> starts_with (v ++ w) pat = starts_with v pat.
Proof.
  revert v. induction pat as [|p pat IH]; intros [|b v]; simpl; rewrite ?blen_cons; intros H; try done.
  - rewrite blen_nil in H. pose proof (blen_nonneg pat). lia.
  - f_equal. apply IH. lia.
Qed.

Lemma window_position_Some pat v p :
  window_position pat v = Some p ->
  0 <= p /\ exists t, v = take (Z.to_nat p) v ++ pat ++ t.
Proof.
  revert p. induction v as [|b v IH]; intros p; simpl; [done|].
  destruct (starts_with (b :: v) pat) eqn:E.
  - intros [= <-]. apply starts_with_spec in E as [t E]. split; [lia|]. by exists t.
  - intros (q & Hq & ->)%fmap_Some. destruct (IH q Hq) as [Hq0 [t Ht]]. split; [lia|].
    exists t. replace (Z.to_nat (1 + q)) with (S (Z.to_nat q)) by lia. simpl. by f_equal.
Qed.

Lemma window_position_range pat v p :
  pat <> [] -> window_position pat v = Some p -> 0 <= p /\ p + blen pat <= blen v.
Proof.
  intros Hpat H. apply window_position_Some in H as [H0 [t Ht]]. split; [done|].
  assert (blen v = blen (take (Z.to_nat p) v) + blen pat + blen t) as E by (rewrite Ht at 1; by rewrite !blen_app, Z.add_assoc).
  apply blen_pos in Hpat. unfold blen in *. rewrite length_take in E. lia.
Qed.

(** The first occurrence is not moved by what follows. *)
Lemma window_position_app pat v w p :
  window_position pat v = Some p -> window_position pat (v ++ w) = Some p.
Proof.
  revert p. induction v as [|b v IH]; intros p; [done|]. simpl app. simpl window_position.
  destruct (starts_with (b :: v) pat) eqn:E.
  - intros [= <-]. rewrite app_comm_cons. by rewrite starts_with_app.
  - intros (q & Hq & ->)%fmap_Some. assert (starts_with (b :: v ++ w) pat = false) as ->.
    { rewrite app_comm_cons, starts_with_long; [done|]. pose proof Hq as Hr.
      destruct (decide (pat = [])) as [->|Hp]; [by destruct v|].
      apply window_position_range in Hr; [|done]. rewrite blen_cons. lia. }
    by rewrite (IH q Hq).
Qed.

(** Nothing found here, and too little left over: the search may start later. *)
Lemma window_position_skip pat u v :
  (forall i, (i < length u)%nat -> starts_with (drop i (u ++ v)) pat = false) ->
  window_position pat (u ++ v) = Z.add (blen u) <$> window_position pat v.
Proof.
  induction u as [|b u IH]; simpl; intros H.
  - destruct (window_position pat v); simpl; [f_equal; rewrite blen_nil; lia|done].
  - pose proof (H 0%nat ltac:(lia)) as H0. simpl in H0. rewrite H0, IH.
    + destruct (window_position pat v); simpl; [f_equal; rewrite blen_cons; lia|done].
    + intros i Hi. apply (H (S i)). lia.
Qed.

Lemma window_position_None pat v i :
  window_position pat v = None -> (i < length v)%nat -> starts_with (drop i v) pat = false.
Proof.
  revert i. induction v as [|b v IH]; simpl; intros i; [lia|].
  destruct (starts_with (b :: v) pat) eqn:E; [done|]. intros H%fmap_None Hi.
  destruct i; [done|]. apply IH; [done|lia].
Qed.

Lemma to_digit_range radix c d : 0 <= radix -> to_digit radix c = Some d -> 0 <= d < radix.
Proof.
  intros Hr. unfold to_digit. cbv zeta. unfold is_ascii_digit, between.
  repeat case_match; intros [= <-]; reflect_bools; lia.
Qed.

Lemma digits_nonneg radix s acc n : 0 <= radix -> 0 <= acc -> digits radix acc s = Some n -> 0 <= n.
Proof.
  intros Hr. revert acc. induction s as [|c s IH]; simpl; intros acc Ha; [by intros [= <-]|].
  destruct (to_digit radix c) as [d|] eqn:E; simpl; [|done]. apply to_digit_range in E; [|done].
  destruct (_ <=? u64_MAX); [|done]. apply IH. nia.
Qed.

Lemma from_str_radix_nonneg radix s n : 0 <= radix -> from_str_radix radix s = Ok n -> 0 <= n.
Proof.
  intros Hr. unfold from_str_radix. destruct s as [|c s]; [done|].
  assert (forall s, of_option (digits radix 0 s) = Ok n -> 0 <= n) as Hs.
  { intros s'. destruct (digits radix 0 s') eqn:E; simpl; [|done]. intros [= <-].
    by eapply digits_nonneg in E. }
  destruct (c =? 43); [destruct s; [done|]|]; apply Hs.
Qed.
