(* ===== verification/Chunked.v ===== *)
(** * The chunked transfer decoder ([ChunkedDecoder] in [src/src/http/mod.rs])

    [consume] takes what it can from the front of a buffer and remembers where it
    stopped.  Its loop is [consume_loop] over [consume_step]; a step goes on,
    leaves the loop or fails.  [None] is a loop that does not end. *)

From S2P Require Import Prelude Text.

Definition crlf : bytes := [x0d; x0a].
Definition double_crlf : bytes := [x0d; x0a; x0d; x0a].

Definition find_crlf_from (v : bytes) (from : Z) : option Z :=
  if blen v <? 2 then None
  else
    let start := Z.min from (sat_sub (blen v) 1) in
    Z.add start <$> window_position crlf (drop (Z.to_nat start) v).

Definition find_double_crlf_from (v : bytes) (from : Z) : option Z :=
  if blen v <? 4 then None
  else
    let start := Z.min from (sat_sub (blen v) 3) in
    Z.add start <$> window_position double_crlf (drop (Z.to_nat start) v).

Inductive ChunkState := Size | Data (remaining : Z) | DataCrlf | Trailers.

Record ChunkedDecoder := { state : ChunkState; scan_from : Z }.

Definition ChunkedDecoder_default : ChunkedDecoder := {| state := Size; scan_from := 0 |}.

Record ChunkData := { relative_offset : Z; data : bytes }.

Record ChunkConsume := {
  data_chunks : list ChunkData;
  done_ : bool;
  wire_consumed : Z;
  body_bytes : Z
}.

(** The variables of the loop. *)
Record ConsumeState := {
  cs_decoder : ChunkedDecoder;
  cs_buf : bytes;
  cs_chunks : list ChunkData;
  cs_collected : Z;
  cs_body_bytes : Z;
  cs_done : bool
}.

Inductive Flow_ := Again (s : ConsumeState) | Stop (s : ConsumeState) | Bail (s : ConsumeState).

(** The decoder and buffer of a state replaced. *)
Definition at_ (s : ConsumeState) (st : ChunkState) (scan : Z) (buf : bytes) : ConsumeState :=
  {| cs_decoder := {| state := st; scan_from := scan |}; cs_buf := buf; cs_chunks := cs_chunks s;
     cs_collected := cs_collected s; cs_body_bytes := cs_body_bytes s; cs_done := cs_done s |}.

Definition finished (s : ConsumeState) : ConsumeState :=
  {| cs_decoder := cs_decoder s; cs_buf := cs_buf s; cs_chunks := cs_chunks s;
     cs_collected := cs_collected s; cs_body_bytes := cs_body_bytes s; cs_done := true |}.

(** The size a chunk-size line states: hexadecimal digits before an extension. *)
Definition chunk_size (line : bytes) : Result Z :=
  text ← from_utf8 line;
  let s := trim (first_piece 59 text) in
  if is_empty s || (16 <? str_len s) then Err else from_str_radix 16 s.

Definition size_step (max_line : Z) (s : ConsumeState) : Flow_ :=
  let buf := cs_buf s in
  match find_crlf_from buf (scan_from (cs_decoder s)) with
  | None =>
      if max_line <? blen buf then Bail s
      else Stop (at_ s Size (sat_sub (blen buf) 1) buf)
  | Some pos =>
      let rest := drop (Z.to_nat (pos + 2)) buf in
      match chunk_size (take (Z.to_nat pos) buf) with
      | Err => Bail (at_ s Size 0 rest)
      | Ok n => Again (at_ s (if n =? 0 then Trailers else Data n) 0 rest)
      end
  end.

Definition data_step (initial_len max_collect remaining : Z) (s : ConsumeState) : Flow_ :=
  let buf := cs_buf s in
  if is_empty buf then Stop s
  else
    let n := Z.min remaining (blen buf) in
    let relative := sat_sub initial_len (blen buf) in
    let collect := Z.min n (sat_sub max_collect (cs_collected s)) in
    let left := remaining - n in
    let s' :=
      {| cs_decoder := {| state := if left =? 0 then DataCrlf else Data left;
                          scan_from := scan_from (cs_decoder s) |};
         cs_buf := drop (Z.to_nat n) buf;
         cs_chunks := if collect =? 0 then cs_chunks s
                      else cs_chunks s ++ [{| relative_offset := relative;
                                              data := take (Z.to_nat collect) (take (Z.to_nat n) buf) |}];
         cs_collected := if collect =? 0 then cs_collected s else sat_add (cs_collected s) collect;
         cs_body_bytes := sat_add (cs_body_bytes s) n;
         cs_done := cs_done s |} in
    if left =? 0 then Again s' else Stop s'.

Definition data_crlf_step (s : ConsumeState) : Flow_ :=
  let buf := cs_buf s in
  if blen buf <? 2 then Stop s
  else if negb (bool_decide (take 2 buf = crlf)) then Bail s
  else Again (at_ s Size (scan_from (cs_decoder s)) (drop 2 buf)).

Definition trailers_step (max_line : Z) (s : ConsumeState) : Flow_ :=
  let buf := cs_buf s in
  if starts_with buf crlf then Stop (finished (at_ s Size 0 (drop 2 buf)))
  else
    match find_double_crlf_from buf (scan_from (cs_decoder s)) with
    | None =>
        if max_line <? blen buf then Bail s
        else Stop (at_ s Trailers (sat_sub (blen buf) 3) buf)
    | Some pos => Stop (finished (at_ s Size 0 (drop (Z.to_nat (pos + 4)) buf)))
    end.

Definition consume_step (initial_len max_line max_collect : Z) (s : ConsumeState) : Flow_ :=
  match state (cs_decoder s) with
  | Size => size_step max_line s
  | Data remaining => data_step initial_len max_collect remaining s
  | DataCrlf => data_crlf_step s
  | Trailers => trailers_step max_line s
  end.

Fixpoint consume_loop (fuel : nat) (initial_len max_line max_collect : Z) (s : ConsumeState)
  : option (bool * ConsumeState) :=
  match fuel with
  | O => None
  | S fuel =>
      match consume_step initial_len max_line max_collect s with
      | Again s => consume_loop fuel initial_len max_line max_collect s
      | Stop s => Some (true, s)
      | Bail s => Some (false, s)
      end
  end.

(** [consume]: the result, and the decoder and buffer left behind. *)
Definition consume (d : ChunkedDecoder) (buf : bytes) (max_line max_collect : Z)
  : option (Result ChunkConsume * ChunkedDecoder * bytes) :=
  let start := {| cs_decoder := d; cs_buf := buf; cs_chunks := []; cs_collected := 0;
                  cs_body_bytes := 0; cs_done := false |} in
  '(ok, s) ← consume_loop (S (length buf)) (blen buf) max_line max_collect start;
  Some (if ok : bool
        then Ok {| data_chunks := cs_chunks s; done_ := cs_done s;
                   wire_consumed := sat_sub (blen buf) (blen (cs_buf s));
                   body_bytes := cs_body_bytes s |}
        else Err, cs_decoder s, cs_buf s).
