(* ===== verification/ChunkedSpec.v ===== *)
(** * What the chunked decoder promises

    Its loop ends and every piece it hands out is the buffer's bytes at the offset
    it names; the resumed scan for line ends is the full scan; and the pieces of a
    chunked body, cut anywhere, decode to the body. *)

From S2P Require Import Prelude Text Chunked.

#[local] Arguments find_crlf_from : simpl never.
#[local] Arguments find_double_crlf_from : simpl never.
#[local] Arguments chunk_size : simpl never.
#[local] Arguments starts_with : simpl never.

(** ** The resumed scan *)

(** No occurrence starts before [scan], whatever is appended. *)
Definition hint_ok (pat buf : bytes) (scan : Z) : Prop :=
  0 <= scan /\ forall i t, Z.of_nat i < scan -> starts_with (drop i (buf ++ t)) pat = false.

Lemma hint_zero pat buf : hint_ok pat buf 0.
Proof. split; [lia|]. intros i t. lia. Qed.

Lemma hint_app pat buf t scan : hint_ok pat buf scan -> hint_ok pat (buf ++ t) scan.
Proof. intros [H0 H]. split; [done|]. intros i t' Hi. rewrite <- app_assoc. by apply H. Qed.

(** After a search of the whole buffer the last bytes need to be seen again. *)
Lemma hint_searched pat buf :
  0 < blen pat -> window_position pat buf = None ->
  hint_ok pat buf (sat_sub (blen buf) (blen pat - 1)).
Proof.
  intros Hpat Hn. split; [unfold sat_sub; lia|]. intros i t Hi.
  assert (Z.of_nat i + blen pat <= blen buf) by (unfold sat_sub in Hi; lia).
  rewrite drop_app_le by (unfold blen in *; lia).
  rewrite starts_with_long.
  - apply window_position_None; [done|]. unfold blen in *; lia.
  - unfold blen in *. rewrite length_drop. lia.
Qed.

Lemma scan_from_hint pat buf scan :
  hint_ok pat buf scan -> 0 < blen pat ->
  (if blen buf <? blen pat then None
   else let start := Z.min scan (sat_sub (blen buf) (blen pat - 1)) in
     Z.add start <$> window_position pat (drop (Z.to_nat start) buf)) = window_position pat buf.
Proof.
  intros [H0 H] Hpat. destruct (blen buf <? blen pat) eqn:E; reflect_bools.
  - destruct (window_position pat buf) as [p|] eqn:Ep; [|done].
    assert (pat <> []) by (intros ->; done).
    apply window_position_range in Ep; [|done]. lia.
  - cbv zeta. set (start := Z.min _ _).
    assert (0 <= start <= blen buf) by (subst start; unfold sat_sub; lia).
    rewrite <- (take_drop (Z.to_nat start) buf) at 2. rewrite window_position_skip.
    + replace (blen (take (Z.to_nat start) buf)) with start; [done|].
      unfold blen in *. rewrite length_take. lia.
    + intros i. rewrite length_take, take_drop. intros Hi.
      rewrite <- (app_nil_r buf). apply H. subst start. lia.
Qed.

Lemma find_crlf_hint buf scan :
  hint_ok crlf buf scan -> find_crlf_from buf scan = window_position crlf buf.
Proof. intros H. by apply (scan_from_hint crlf). Qed.

Lemma find_double_crlf_hint buf scan :
  hint_ok double_crlf buf scan -> find_double_crlf_from buf scan = window_position double_crlf buf.
Proof. intros H. by apply (scan_from_hint double_crlf). Qed.

(** ** The loop ends, and its pieces are the buffer's *)

Definition state_ok (st : ChunkState) : Prop := match st with Data n => 0 < n | _ => True end.

(** [s] is further down the buffer [buf0], with pieces of it. *)
Record within_buf (buf0 : bytes) (s : ConsumeState) : Prop := {
  wb_buf : exists k, cs_buf s = drop k buf0;
  wb_chunks : Forall (fun c => 0 <= relative_offset c /\
    relative_offset c + blen (data c) <= blen buf0 /\
    data c = take (length (data c)) (drop (Z.to_nat (relative_offset c)) buf0)) (cs_chunks s);
  wb_state : state_ok (state (cs_decoder s))
}.

Definition flow_state (f : Flow_) : ConsumeState := match f with Again s | Stop s | Bail s => s end.

Lemma crlf_range buf scan p :
  find_crlf_from buf scan = Some p -> 0 <= scan -> 0 <= p /\ p + 2 <= blen buf.
Proof.
  unfold find_crlf_from. destruct (blen buf <? 2) eqn:E; [done|]; reflect_bools.
  intros (q & Hq & ->)%fmap_Some Hs. apply window_position_range in Hq; [|done].
  change (blen crlf) with 2 in Hq. unfold blen, sat_sub in *. rewrite length_drop in Hq. lia.
Qed.

Lemma chunk_size_nonneg line n : chunk_size line = Ok n -> 0 <= n.
Proof.
  unfold chunk_size. destruct (from_utf8 line) as [text|]; simpl; [|done].
  destruct (_ || _); [done|]. by apply from_str_radix_nonneg.
Qed.

Lemma within_move buf0 s st scan k :
  within_buf buf0 s -> state_ok st -> within_buf buf0 (at_ s st scan (drop k (cs_buf s))).
Proof.
  intros [[j Hb] Hc _] Hst. split; simpl; [|done|done]. exists (j + k)%nat. by rewrite Hb, drop_drop.
Qed.

Lemma step_within buf0 max_line max_collect s :
  within_buf buf0 s -> 0 <= scan_from (cs_decoder s) -> 0 <= cs_collected s ->
  let f := consume_step (blen buf0) max_line max_collect s in
  within_buf buf0 (flow_state f) /\ 0 <= scan_from (cs_decoder (flow_state f)) /\
  0 <= cs_collected (flow_state f) /\
  match f with
  | Again s' => (length (cs_buf s') < length (cs_buf s))%nat
  | Stop s' => (length (cs_buf s') <= length (cs_buf s))%nat /\
      (cs_done s' = true \/ blen (cs_buf s') <= Z.max max_line 1)
  | Bail s' => (length (cs_buf s') <= length (cs_buf s))%nat
  end.
Proof.
  intros Hw Hsc Hcol. unfold consume_step. pose proof (wb_state _ _ Hw) as Hst.
  assert (forall st scan, state_ok st -> within_buf buf0 (at_ s st scan (cs_buf s))) as Hstay.
  { intros st scan H. pose proof (within_move _ _ _ scan 0 Hw H) as H'. by rewrite drop_0 in H'. }
  destruct (state (cs_decoder s)) as [|remaining| |].
  - unfold size_step. destruct (find_crlf_from _ _) as [p|] eqn:Ep.
    + apply crlf_range in Ep as [Hp0 Hp]; [|done].
      destruct (chunk_size _) as [n|] eqn:En; simpl.
      * apply chunk_size_nonneg in En. split; [apply within_move; [done|]|].
        { destruct (n =? 0) eqn:E; reflect_bools; simpl; [done|lia]. }
        split; [lia|]. split; [done|]. rewrite length_drop. unfold blen in *. lia.
      * split; [by apply within_move|]. split; [lia|]. split; [done|]. rewrite length_drop. lia.
    + destruct (_ <? _) eqn:El; reflect_bools; simpl; [done|]. split; [by apply Hstay|].
      split; [unfold sat_sub; lia|]. split; [done|]. split; [done|right; lia].
  - unfold data_step. destruct (is_empty (cs_buf s)) eqn:He.
    { cbn [flow_state]. do 4 (split; [done|]). right. apply is_empty_spec in He. rewrite He, blen_nil. lia. }
    assert (0 < blen (cs_buf s)) as Hpos.
    { apply blen_pos. by intros E; rewrite E in He. }
    simpl in Hst. set (n := Z.min remaining (blen (cs_buf s))).
    set (collect := Z.min n _). set (s' := {| cs_decoder := _; cs_buf := _ |}).
    assert (within_buf buf0 s' /\ 0 <= scan_from (cs_decoder s') /\ 0 <= cs_collected s' /\
      (length (cs_buf s') < length (cs_buf s))%nat) as H.
    { destruct Hw as [[k Hk] Hc _]. split; [split; simpl|simpl; split; [done|split]].
      - exists (k + Z.to_nat n)%nat. by rewrite Hk, drop_drop.
      - destruct (collect =? 0) eqn:Ec; reflect_bools; [done|]. apply Forall_app. split; [done|].
        apply Forall_singleton. simpl.
        assert (0 <= collect <= n) by (subst collect; unfold sat_sub in *; lia).
        assert (n <= blen (cs_buf s)) by lia.
        assert ((k <= length buf0)%nat /\ blen (cs_buf s) = blen buf0 - Z.of_nat k) as [Hk1 Hk2].
        { rewrite Hk in Hpos |- *. unfold blen in *. rewrite length_drop in *. lia. }
        rewrite take_take. rewrite Nat.min_l by lia.
        assert (blen (take (Z.to_nat collect) (cs_buf s)) = collect) as Hl
          by (unfold blen in *; rewrite length_take; lia).
        unfold sat_sub. split; [lia|]. split; [lia|].
        replace (Z.to_nat (Z.max 0 (blen buf0 - blen (cs_buf s)))) with k by lia.
        rewrite <- Hk. f_equal. unfold blen in Hl. lia.
      - destruct (_ =? 0) eqn:E; reflect_bools; simpl; [done|]. lia.
      - unfold sat_add, sat_sub, u64_MAX in *. destruct (collect =? 0); lia.
      - rewrite length_drop. unfold blen in *. lia. }
    destruct H as (H1 & H2 & H3 & H4).
    destruct (_ =? 0) eqn:Ez; reflect_bools; cbn [flow_state]; do 3 (split; [done|]); [done|].
    split; [lia|]. right. subst s'. cbn [cs_buf]. rewrite drop_ge by (unfold blen in *; lia).
    rewrite blen_nil. lia.
  - unfold data_crlf_step. destruct (_ <? 2) eqn:E; reflect_bools.
    { cbn [flow_state]. do 4 (split; [done|]). right. lia. }
    destruct (negb _); [done|]. cbn [flow_state]. split; [by apply within_move|]. split; [done|].
    split; [done|]. simpl. rewrite length_drop. unfold blen in E. lia.
  - unfold trailers_step. destruct (starts_with _ _).
    + cbn [flow_state]. destruct (within_move buf0 s Size 0 2 Hw I) as [? ? _].
      split; [by split|]. split; [done|]. split; [done|]. simpl. rewrite length_drop. split; [lia|by left].
    + destruct (find_double_crlf_from _ _) as [p|].
      * cbn [flow_state]. destruct (within_move buf0 s Size 0 (Z.to_nat (p + 4)) Hw I) as [? ? _].
        split; [by split|]. split; [done|]. split; [done|]. simpl. rewrite length_drop. split; [lia|by left].
      * destruct (_ <? _) eqn:El; reflect_bools; [done|]. cbn [flow_state]. split; [by apply Hstay|].
        split; [simpl; unfold sat_sub; lia|]. split; [done|]. split; [done|simpl; right; lia].
Qed.

Lemma loop_within fuel : forall buf0 max_line max_collect s,
  within_buf buf0 s -> 0 <= scan_from (cs_decoder s) -> 0 <= cs_collected s ->
  (length (cs_buf s) < fuel)%nat ->
  exists ok s', consume_loop fuel (blen buf0) max_line max_collect s = Some (ok, s') /\
    within_buf buf0 s' /\ 0 <= scan_from (cs_decoder s') /\
    (length (cs_buf s') <= length (cs_buf s))%nat /\
    (ok = true -> cs_done s' = true \/ blen (cs_buf s') <= Z.max max_line 1).
Proof.
  induction fuel as [|fuel IH]; intros buf0 max_line max_collect s Hw Hs Hc Hf; [lia|]. simpl.
  destruct (step_within buf0 max_line max_collect s Hw Hs Hc) as (H1 & H2 & H3 & H4).
  destruct (consume_step _ _ _ s) as [s'|s'|s']; simpl in *.
  - destruct (IH buf0 max_line max_collect s' H1 H2 H3) as (ok & s'' & -> & ? & ? & ? & ?); [lia|].
    exists ok, s''. do 3 (split; [done|]). split; [lia|done].
  - destruct H4. exists true, s'. by do 4 (split; [done|]).
  - exists false, s'. by do 4 (split; [done|]).
Qed.

(** One call, from any state: it returns, takes a prefix of the buffer, and each
    piece is the buffer's bytes at its offset. *)
Lemma consume_spec d buf max_line max_collect :
  state_ok (state d) -> 0 <= scan_from d ->
  exists r d' k, consume d buf max_line max_collect = Some (r, d', drop k buf) /\
    (k <= length buf)%nat /\ state_ok (state d') /\ 0 <= scan_from d' /\
    match r with
    | Ok r => wire_consumed r = Z.of_nat k /\
        Forall (fun c => 0 <= relative_offset c /\ relative_offset c + blen (data c) <= blen buf /\
          data c = take (length (data c)) (drop (Z.to_nat (relative_offset c)) buf)) (data_chunks r) /\
        (done_ r = true \/ blen (drop k buf) <= Z.max max_line 1)
    | Err => True
    end.
Proof.
  intros Hst Hsc. unfold consume. set (start := {| cs_decoder := d |}).
  assert (within_buf buf start) as Hw by (split; simpl; [by exists 0%nat|constructor|done]).
  destruct (loop_within (S (length buf)) buf max_line max_collect start Hw Hsc) as (ok & s & -> & [[k Hk] Hc Hs] & H2 & H3 & H4);
    [simpl; lia|simpl; lia|]. simpl. rewrite Hk.
  assert (drop (Nat.min k (length buf)) buf = drop k buf) as Emin.
  { destruct (decide (k <= length buf)%nat); [by rewrite Nat.min_l|]. by rewrite !drop_ge by lia. }
  exists (if ok then Ok {| data_chunks := cs_chunks s; done_ := cs_done s;
    wire_consumed := sat_sub (blen buf) (blen (drop k buf)); body_bytes := cs_body_bytes s |} else Err),
    (cs_decoder s), (Nat.min k (length buf)).
  split; [|split; [lia|split; [done|split; [done|]]]].
  - rewrite Emin. done.
  - destruct ok; [|done]. simpl. split; [unfold sat_sub, blen; rewrite length_drop; lia|]. split; [done|].
    rewrite Emin, <- Hk. auto.
Qed.
