(* ===== verification/ChunkedRoundtrip.v ===== *)
(** * A chunked body, cut anywhere, decodes to the body

    [expects] says what bytes a decoder still needs and what body they carry.  One
    call of [consume] on the front of those bytes moves along; calls on successive
    pieces of the wire, as [HttpStreamParser::feed] makes them, give the body,
    report the end exactly there, and leave the bytes after it. *)

From S2P Require Import Prelude Text Chunked ChunkedSpec.

#[local] Arguments find_crlf_from : simpl never.
#[local] Arguments find_double_crlf_from : simpl never.
#[local] Arguments chunk_size : simpl never.
#[local] Arguments starts_with : simpl never.
#[local] Arguments window_position : simpl never.
#[local] Arguments crlf : simpl never.
#[local] Opaque crlf.

(** ** The format *)

(** A chunk-size line that states [n], short enough. *)
Definition line_ok (max_line : Z) (line : bytes) (n : Z) : Prop :=
  chunk_size line = Ok n /\ window_position crlf (line ++ crlf) = Some (blen line) /\
  blen line < max_line.

(** A trailer section: empty, or fields that end with an empty line. *)
Definition trailers_ok (max_line : Z) (t : bytes) : Prop :=
  t = crlf \/
  exists f, t = f ++ double_crlf /\ starts_with t crlf = false /\
    window_position double_crlf t = Some (blen f) /\ blen f + 3 <= max_line.

(** A chunk is its size line and its data. *)
Definition encode_chunk (c : bytes * bytes) : bytes := c.1 ++ crlf ++ c.2 ++ crlf.

Definition encode_body (chunks : list (bytes * bytes)) (last trailers : bytes) : bytes :=
  concat (map encode_chunk chunks) ++ last ++ crlf ++ trailers.

Record chunked_ok (max_line : Z) (chunks : list (bytes * bytes)) (last trailers : bytes) : Prop := {
  bo_chunks : Forall (fun c => line_ok max_line c.1 (blen c.2) /\ c.2 <> []) chunks;
  bo_last : line_ok max_line last 0;
  bo_trailers : trailers_ok max_line trailers
}.

(** ** What a decoder still needs *)

Inductive expects (max_line : Z) : ChunkState -> bytes -> bytes -> Prop :=
  | ex_chunk line n w body :
      line_ok max_line line n -> 0 < n -> expects max_line (Data n) w body ->
      expects max_line Size (line ++ crlf ++ w) body
  | ex_last line t :
      line_ok max_line line 0 -> trailers_ok max_line t ->
      expects max_line Size (line ++ crlf ++ t) []
  | ex_data n d w body :
      blen d = n -> 0 < n -> expects max_line DataCrlf w body ->
      expects max_line (Data n) (d ++ w) (d ++ body)
  | ex_crlf w body :
      expects max_line Size w body -> expects max_line DataCrlf (crlf ++ w) body
  | ex_trailers t : trailers_ok max_line t -> expects max_line Trailers t [].

Lemma encode_body_expects max_line chunks last trailers :
  chunked_ok max_line chunks last trailers ->
  expects max_line Size (encode_body chunks last trailers) (concat (map snd chunks)).
Proof.
  intros [Hc Hl Ht]. unfold encode_body. induction Hc as [|[line d] chunks [Hline Hd] Hc IH]; simpl.
  - by apply ex_last.
  - unfold encode_chunk. simpl. rewrite <- !app_assoc.
    apply ex_chunk with (blen d); [done|by apply blen_pos|]. apply (ex_data _ (blen d) d); [done|by apply blen_pos|].
    by apply ex_crlf.
Qed.

(** The scan position of a decoder fits its buffer. *)
Definition scan_ok (st : ChunkState) (scan : Z) (buf : bytes) : Prop :=
  match st with
  | Size => hint_ok crlf buf scan
  | Trailers => hint_ok double_crlf buf scan
  | Data _ | DataCrlf => scan = 0
  end.

Definition got (s : ConsumeState) : bytes := concat (map data (cs_chunks s)).

(** The loop took [taken] off the body. *)
Record takes (max_collect : Z) (s s' : ConsumeState) (taken : bytes) : Prop := {
  tk_body : cs_body_bytes s' = cs_body_bytes s + blen taken;
  tk_got : got s' = got s ++ take (Z.to_nat (max_collect - cs_collected s)) taken;
  tk_collected : cs_collected s' =
    cs_collected s + blen (take (Z.to_nat (max_collect - cs_collected s)) taken)
}.

Lemma takes_refl max_collect s s' :
  cs_body_bytes s' = cs_body_bytes s -> cs_chunks s' = cs_chunks s -> cs_collected s' = cs_collected s ->
  takes max_collect s s' [].
Proof.
  intros Hb Hc Hn. unfold got. split; rewrite ?take_nil, ?blen_nil; unfold got; rewrite ?Hc, ?app_nil_r; lia || done.
Qed.

Lemma takes_trans max_collect s s1 s2 t1 t2 :
  takes max_collect s s1 t1 -> takes max_collect s1 s2 t2 -> takes max_collect s s2 (t1 ++ t2).
Proof.
  intros [B1 G1 C1] [B2 G2 C2].
  set (m := max_collect - cs_collected s) in *.
  assert (take (Z.to_nat m) (t1 ++ t2) =
    take (Z.to_nat m) t1 ++ take (Z.to_nat (max_collect - cs_collected s1)) t2) as E.
  { rewrite take_app. f_equal. rewrite C1. unfold blen. rewrite length_take.
    destruct (decide (length t1 <= Z.to_nat m)%nat).
    - f_equal. subst m. lia.
    - replace (Z.to_nat m - length t1)%nat with 0%nat by lia.
      replace (Z.to_nat (max_collect - _)) with 0%nat by (subst m; lia). done. }
  split.
  - rewrite B2, B1, blen_app. lia.
  - rewrite G2, G1. fold m. rewrite E. by rewrite app_assoc.
  - fold m. rewrite C2, E, blen_app. lia.
Qed.

(** Where the loop stops, given that [w] is due and the wire goes on with [rest]. *)
Definition stops (max_line max_collect : Z) (s s' : ConsumeState) (w rest fut body : bytes) : Prop :=
  cs_done s' = bool_decide (blen w <= blen (cs_buf s)) /\
  exists taken w' body', takes max_collect s s' taken /\ body = taken ++ body' /\
    w' ++ rest = cs_buf s' ++ fut /\
    scan_ok (state (cs_decoder s')) (scan_from (cs_decoder s')) (cs_buf s') /\
    if cs_done s' then w' = [] /\ body' = [] /\ cs_decoder s' = ChunkedDecoder_default
    else expects max_line (state (cs_decoder s')) w' body'.

(** Two ways to cut the same bytes. *)
Lemma cut {A} (w rest buf fut : list A) :
  w ++ rest = buf ++ fut ->
  (exists b', buf = w ++ b' /\ rest = b' ++ fut) \/
  (exists w', w = buf ++ w' /\ w' <> [] /\ fut = w' ++ rest).
Proof.
  intros H. apply app_eq_inv in H as [(k & -> & ->)|(k & -> & ->)].
  - destruct k as [|x k]; [left; exists []; by rewrite !app_nil_r|]. right. by exists (x :: k).
  - left. by exists k.
Qed.

Lemma blen_app_le {A} (l l' : list A) : blen l <= blen (l ++ l').
Proof. rewrite blen_app. pose proof (blen_nonneg l'). lia. Qed.

(** A line end inside the buffer is where the format says; without one the buffer is short. *)
Lemma line_cut pat line w buf fut :
  0 < blen pat -> window_position pat (line ++ pat) = Some (blen line) ->
  line ++ pat ++ w = buf ++ fut ->
  (window_position pat buf = Some (blen line) /\ exists b', buf = line ++ pat ++ b' /\ w = b' ++ fut) \/
  (window_position pat buf = None /\ blen buf < blen line + blen pat).
Proof.
  intros Hp Hw E. rewrite app_assoc in E. apply cut in E as [(b' & -> & ->)|(w' & E & Hw' & ->)].
  - left. split; [by apply window_position_app|]. exists b'. by rewrite <- app_assoc.
  - right. apply blen_pos in Hw'.
    assert (blen buf < blen line + blen pat) as Hl.
    { rewrite <- blen_app, E, blen_app. lia. }
    split; [|done]. destruct (window_position pat buf) as [p|] eqn:Ep; [|done].
    pose proof (window_position_app _ _ w' _ Ep) as Ep'. rewrite <- E, Hw in Ep'. injection Ep' as <-.
    apply window_position_range in Ep; [lia|]. intros ->. done.
Qed.

(** ** One call *)

(** A loop that goes on from [s1] having taken [t] of the body and [front] of the wire. *)
Lemma stops_trans max_line max_collect s s1 s' t front w rest fut body :
  takes max_collect s s1 t -> cs_buf s = front ++ cs_buf s1 ->
  stops max_line max_collect s1 s' w rest fut body ->
  stops max_line max_collect s s' (front ++ w) rest fut (t ++ body).
Proof.
  intros Ht Hb (Hd & taken & w' & body' & Htk & -> & Hw & Hscan & Hend). split.
  - rewrite Hd, Hb, !blen_app. apply bool_decide_ext. lia.
  - exists (t ++ taken), w', body'. split; [by eapply takes_trans|]. split; [by rewrite app_assoc|].
    split; [done|]. split; done.
Qed.

Lemma stops_skip max_line max_collect s st scan b' s' front w rest fut body :
  cs_buf s = front ++ b' -> stops max_line max_collect (at_ s st scan b') s' w rest fut body ->
  stops max_line max_collect s s' (front ++ w) rest fut body.
Proof. intros Hb Hs. apply (stops_trans _ _ _ (at_ s st scan b') _ []); [by apply takes_refl|done|done]. Qed.

(** A loop that waits for more: nothing taken, the buffer shorter than the line. *)
Lemma stops_wait max_line max_collect s st scan w rest fut body :
  cs_done s = false -> expects max_line st w body -> w ++ rest = cs_buf s ++ fut ->
  blen (cs_buf s) < blen w -> scan_ok st scan (cs_buf s) ->
  stops max_line max_collect s (at_ s st scan (cs_buf s)) w rest fut body.
Proof.
  intros Hd He Hw Hl Hs. split.
  - simpl. rewrite Hd, bool_decide_eq_false_2; [done|lia].
  - exists [], w, body. split; [by apply takes_refl|]. simpl. rewrite Hd. split; [done|].
    split; [done|]. split; [done|done].
Qed.

Lemma size_line max_line line n w rest fut s :
  line_ok max_line line n -> state (cs_decoder s) = Size ->
  scan_ok Size (scan_from (cs_decoder s)) (cs_buf s) ->
  (line ++ crlf ++ w) ++ rest = cs_buf s ++ fut ->
  (exists b', cs_buf s = (line ++ crlf) ++ b' /\ w ++ rest = b' ++ fut /\
     size_step max_line s = Again (at_ s (if n =? 0 then Trailers else Data n) 0 b')) \/
  (blen (cs_buf s) < blen (line ++ crlf ++ w) /\
   size_step max_line s = Stop (at_ s Size (sat_sub (blen (cs_buf s)) 1) (cs_buf s)) /\
   scan_ok Size (sat_sub (blen (cs_buf s)) 1) (cs_buf s)).
Proof.
  intros (Hn & Hp & Hmax) Hst Hscan E. unfold size_step. rewrite find_crlf_hint by done.
  rewrite <- !app_assoc in E. apply (line_cut crlf) in E as [[Ep (b' & Eb & Ew)]|[Ep Hl]]; [| |done|done].
  - left. exists b'. rewrite Ep, Eb. split; [by rewrite <- app_assoc|]. split; [done|].
    rewrite take_app_length' by (unfold blen; lia). rewrite Hn. do 2 f_equal.
    rewrite app_assoc, drop_app_length'; [done|]. rewrite length_app. change (length crlf) with 2%nat.
    unfold blen. lia.
  - right. change (blen crlf) with 2 in Hl. rewrite Ep. split.
    + pose proof (blen_app_le (line ++ crlf) w) as Hle. rewrite !blen_app in *.
      change (blen crlf) with 2 in *. lia.
    + rewrite (proj2 (Z.ltb_ge _ _)) by lia. split; [done|]. by apply (hint_searched crlf).
Qed.

Lemma again_loop fuel initial max_line max_collect s s1 :
  consume_step initial max_line max_collect s = Again s1 ->
  consume_loop (S fuel) initial max_line max_collect s = consume_loop fuel initial max_line max_collect s1.
Proof. intros E. simpl. by rewrite E. Qed.

Lemma stop_loop fuel initial max_line max_collect s s1 :
  consume_step initial max_line max_collect s = Stop s1 ->
  consume_loop (S fuel) initial max_line max_collect s = Some (true, s1).
Proof. intros E. simpl. by rewrite E. Qed.

(** The data of one chunk. *)
Lemma data_cut max_line max_collect initial d w body rest fut s :
  0 < blen d -> state (cs_decoder s) = Data (blen d) -> scan_from (cs_decoder s) = 0 ->
  cs_done s = false -> expects max_line DataCrlf w body ->
  0 <= cs_body_bytes s -> 0 <= cs_collected s ->
  cs_body_bytes s + blen d <= u64_MAX -> cs_collected s + blen d <= u64_MAX ->
  (d ++ w) ++ rest = cs_buf s ++ fut ->
  (exists s1 b', consume_step initial max_line max_collect s = Again s1 /\
     cs_buf s = d ++ b' /\ cs_buf s1 = b' /\ w ++ rest = b' ++ fut /\ takes max_collect s s1 d /\
     cs_decoder s1 = {| state := DataCrlf; scan_from := 0 |} /\ cs_done s1 = false) \/
  (exists s1, consume_step initial max_line max_collect s = Stop s1 /\
     stops max_line max_collect s s1 (d ++ w) rest fut (d ++ body)).
Proof.
  intros Hd Hst Hsc Hdone Hexp Hbb Hcol Hs1 Hs2 E. unfold consume_step. rewrite Hst.
  unfold data_step. destruct (is_empty (cs_buf s)) eqn:He.
  { right. exists s. split; [done|]. apply is_empty_spec in He. split.
    - rewrite Hdone, bool_decide_eq_false_2; [done|]. rewrite He, blen_nil, blen_app.
      pose proof (blen_nonneg w). lia.
    - exists [], (d ++ w), (d ++ body). split; [by apply takes_refl|]. split; [done|]. split; [done|].
      rewrite Hst, Hdone. split; [done|]. by apply ex_data. }
  assert (cs_buf s <> []) as Hne by (intros H; by rewrite H in He). apply blen_pos in Hne.
  set (n := Z.min (blen d) (blen (cs_buf s))). set (collect := Z.min n _).
  set (s1 := {| cs_decoder := _; cs_buf := _ |}).
  assert (forall t b', cs_buf s = t ++ b' -> blen t = n -> takes max_collect s s1 t /\ cs_buf s1 = b') as Htk.
  { intros t b' Eb Ht. assert (take (Z.to_nat n) (cs_buf s) = t) as Et
      by (rewrite Eb; apply take_app_length'; unfold blen in Ht; lia).
    assert (0 <= collect <= n) by (subst collect; unfold sat_sub; lia).
    assert (take (Z.to_nat collect) t = take (Z.to_nat (max_collect - cs_collected s)) t) as Etk.
    { destruct (decide (max_collect - cs_collected s <= n)).
      - f_equal. subst collect. unfold sat_sub. lia.
      - rewrite !take_ge; [done|..]; subst collect; unfold sat_sub, blen in *; lia. }
    split; [|simpl; rewrite Eb; apply drop_app_length'; unfold blen in Ht; lia].
    assert (blen (take (Z.to_nat collect) t) = collect) as Hlc by (unfold blen in *; rewrite length_take; lia).
    split; simpl; rewrite <- ?Etk.
    - rewrite sat_add_small by lia. lia.
    - unfold got. simpl. destruct (collect =? 0) eqn:Ec; reflect_bools.
      + rewrite Ec. simpl. by rewrite app_nil_r.
      + rewrite map_app, concat_app. simpl. by rewrite Et, app_nil_r.
    - rewrite Hlc. destruct (collect =? 0) eqn:Ec; reflect_bools; [lia|]. rewrite sat_add_small; lia. }
  rewrite <- app_assoc in E. apply cut in E as [(b' & Eb & Ew)|(d2 & Ed & Hd2 & ->)].
  - left. assert (blen d = n) as Hn by (subst n; rewrite Eb, blen_app; pose proof (blen_nonneg b'); lia).
    destruct (Htk d b' Eb Hn) as [Ht Hb]. replace (blen d - n =? 0) with true by (symmetry; apply Z.eqb_eq; lia).
    exists s1, b'. split; [done|]. split; [done|]. split; [done|]. split; [done|]. split; [done|].
    simpl. rewrite Hsc. split; [|done]. by replace (blen d - n =? 0) with true by (symmetry; apply Z.eqb_eq; lia).
  - right. apply blen_pos in Hd2 as Hd2'.
    assert (blen (cs_buf s) = n) as Hn by (subst n; rewrite Ed, blen_app; lia).
    destruct (Htk (cs_buf s) []) as [Ht Hb]; [by rewrite app_nil_r|done|].
    assert (blen d - n = blen d2) as Hleft by (rewrite <- Hn, Ed, blen_app; lia).
    assert ((blen d2 =? 0) = false) as Hz by (apply Z.eqb_neq; lia).
    rewrite Hleft, Hz. exists s1. split; [done|]. split.
    + simpl. rewrite Hdone, bool_decide_eq_false_2; [done|]. rewrite blen_app, Ed, blen_app.
      pose proof (blen_nonneg w). lia.
    + exists (cs_buf s), (d2 ++ w), (d2 ++ body). split; [done|]. split; [by rewrite app_assoc, <- Ed|].
      split; [by rewrite Hb, <- app_assoc|]. simpl. rewrite Hleft, Hz, Hdone. split; [done|].
      by apply ex_data; [|lia|].
Qed.

(** The end of the body. *)
Lemma trailers_stops max_line max_collect initial t rest fut s :
  1 <= max_line -> trailers_ok max_line t -> state (cs_decoder s) = Trailers ->
  scan_ok Trailers (scan_from (cs_decoder s)) (cs_buf s) -> cs_done s = false ->
  t ++ rest = cs_buf s ++ fut ->
  exists s', consume_step initial max_line max_collect s = Stop s' /\
    stops max_line max_collect s s' t rest fut [].
Proof.
  intros Hmax Ht Hst Hscan Hd E. unfold consume_step. rewrite Hst. unfold trailers_step.
  rewrite find_double_crlf_hint by done.
  assert (forall b', cs_buf s = t ++ b' -> rest = b' ++ fut ->
    stops max_line max_collect s (finished (at_ s Size 0 b')) t rest fut []) as Hdone.
  { intros b' Eb Er. split.
    - simpl. rewrite bool_decide_eq_true_2; [done|]. rewrite Eb. apply blen_app_le.
    - exists [], [], []. split; [by apply takes_refl|]. simpl. split; [done|]. split; [done|].
      split; [apply hint_zero|done]. }
  assert (forall scan, blen (cs_buf s) < blen t -> scan_ok Trailers scan (cs_buf s) ->
    stops max_line max_collect s (at_ s Trailers scan (cs_buf s)) t rest fut []) as Hwait.
  { intros scan Hl Hs. apply stops_wait; [done|by apply ex_trailers|done|done|done]. }
  destruct Ht as [->|(f & -> & Hstart & Hp & Hlen)].
  - apply cut in E as [(b' & Eb & Er)|(w' & Ew & Hw' & Ef)].
    + rewrite (proj2 (starts_with_spec _ _)) by eauto. eexists. split; [done|].
      replace (drop 2 (cs_buf s)) with b' by (by rewrite Eb). by apply Hdone.
    + apply blen_pos in Hw'. pose proof (f_equal blen Ew) as Hl. rewrite blen_app in Hl.
      change (blen crlf) with 2 in Hl.
      assert (forall pat, 2 <= blen pat -> window_position pat (cs_buf s) = None) as Hnone.
      { intros pat Hpat. destruct (window_position pat (cs_buf s)) eqn:Ep; [|done].
        apply window_position_range in Ep; [lia|]. intros ->. by rewrite blen_nil in Hpat. }
      assert (starts_with (cs_buf s) crlf = false) as ->.
      { apply not_true_is_false. intros [x Hx]%starts_with_spec. rewrite Hx, blen_app in Hl.
        change (blen crlf) with 2 in Hl. pose proof (blen_nonneg x). lia. }
      rewrite Hnone by done. rewrite (proj2 (Z.ltb_ge _ _)) by lia. eexists. split; [done|].
      apply Hwait; [change (blen crlf) with 2; lia|]. by apply (hint_searched double_crlf); [|apply Hnone].
  - assert (starts_with (cs_buf s) crlf = false \/ blen (cs_buf s) < 2) as Hns.
    { destruct (decide (blen (cs_buf s) < 2)) as [|Hge]; [by right|left].
      apply cut in E as [(b' & Eb & _)|(w' & Ew & _ & _)].
      - rewrite Eb, starts_with_long; [done|]. rewrite blen_app.
        change (blen double_crlf) with 4. change (blen crlf) with 2. pose proof (blen_nonneg f). lia.
      - rewrite Ew, starts_with_long in Hstart; [done|]. change (blen crlf) with 2. lia. }
    assert (starts_with (cs_buf s) crlf = false) as ->.
    { destruct Hns as [|Hl]; [done|]. apply not_true_is_false. intros [x Hx]%starts_with_spec.
      rewrite Hx, blen_app in Hl. change (blen crlf) with 2 in Hl. pose proof (blen_nonneg x). lia. }
    rewrite <- app_assoc in E.
    destruct (line_cut double_crlf f rest (cs_buf s) fut) as [[Ep (b' & Eb & Er)]|[Ep Hl]]; [done|done|done| |].
    + rewrite Ep. eexists. split; [done|].
      replace (drop (Z.to_nat (blen f + 4)) (cs_buf s)) with b'; [apply Hdone; by rewrite <- ?app_assoc|].
      rewrite Eb, app_assoc, drop_app_length'; [done|]. rewrite length_app.
      change (length double_crlf) with 4%nat. unfold blen. lia.
    + change (blen double_crlf) with 4 in Hl. rewrite Ep, (proj2 (Z.ltb_ge _ _)) by lia.
      eexists. split; [done|]. apply Hwait; [rewrite blen_app; change (blen double_crlf) with 4; lia|].
      by apply (hint_searched double_crlf).
Qed.

Lemma data_crlf_cut max_line max_collect initial w body rest fut s :
  state (cs_decoder s) = DataCrlf -> scan_from (cs_decoder s) = 0 -> cs_done s = false ->
  expects max_line Size w body -> (crlf ++ w) ++ rest = cs_buf s ++ fut ->
  (exists b', consume_step initial max_line max_collect s = Again (at_ s Size 0 b') /\
     cs_buf s = crlf ++ b' /\ w ++ rest = b' ++ fut) \/
  (consume_step initial max_line max_collect s = Stop s /\
   stops max_line max_collect s s (crlf ++ w) rest fut body).
Proof.
  intros Hst Hsc Hd He E. unfold consume_step. rewrite Hst. unfold data_crlf_step.
  rewrite <- app_assoc in E. pose proof E as E0. apply cut in E as [(b' & Eb & Ew)|(w' & Ew & Hw' & Ef)].
  - left. exists b'. rewrite Eb, blen_app. change (blen crlf) with 2. pose proof (blen_nonneg b').
    rewrite (proj2 (Z.ltb_ge _ _)) by lia. split; [|done].
    change 2%nat with (length crlf). rewrite take_app_length, drop_app_length.
    rewrite bool_decide_eq_true_2 by done. simpl. by rewrite Hsc.
  - right. apply blen_pos in Hw'. pose proof (f_equal blen Ew) as Hl. rewrite blen_app in Hl.
    change (blen crlf) with 2 in Hl. rewrite (proj2 (Z.ltb_lt _ _)) by lia. split; [done|]. split.
    + rewrite Hd, bool_decide_eq_false_2; [done|]. rewrite blen_app. change (blen crlf) with 2.
      pose proof (blen_nonneg w). lia.
    + exists [], (crlf ++ w), body. split; [by apply takes_refl|]. split; [done|].
      split; [by rewrite <- app_assoc|]. rewrite Hst, Hsc, Hd. split; [done|by apply ex_crlf].
Qed.

(** What one call needs to know of its start. *)
Record ready (max_line : Z) (st : ChunkState) (body : bytes) (s : ConsumeState) : Prop := {
  rd_state : state (cs_decoder s) = st;
  rd_scan : scan_ok st (scan_from (cs_decoder s)) (cs_buf s);
  rd_open : cs_done s = false;
  rd_body : 0 <= cs_body_bytes s /\ cs_body_bytes s + blen body <= u64_MAX;
  rd_collected : 0 <= cs_collected s /\ cs_collected s + blen body <= u64_MAX
}.

Lemma ready_at max_line st st' body s b :
  ready max_line st body s -> scan_ok st' 0 b -> ready max_line st' body (at_ s st' 0 b).
Proof. intros []. by split. Qed.

Lemma loop_expects max_line max_collect initial st w body :
  expects max_line st w body -> 1 <= max_line -> forall fuel s rest fut,
  ready max_line st body s -> w ++ rest = cs_buf s ++ fut -> (length (cs_buf s) < fuel)%nat ->
  exists s', consume_loop fuel initial max_line max_collect s = Some (true, s') /\
    stops max_line max_collect s s' w rest fut body.
Proof.
  intros He Hmax. induction He as [line n w body Hline Hn He IH|line t Hline Ht|n d w body Hdn Hn He IH
    |w body He IH|t Ht]; intros [|fuel] s rest fut Hr E Hf; try lia.
  - destruct (size_line _ _ _ _ _ _ _ Hline (rd_state _ _ _ _ Hr) (rd_scan _ _ _ _ Hr) E)
      as [(b' & Eb & Ew & Es)|(Hl & Es & Hs)].
    + rewrite (proj2 (Z.eqb_neq n 0)) in Es by lia.
      erewrite again_loop by (unfold consume_step; rewrite (rd_state _ _ _ _ Hr); exact Es).
      destruct (IH fuel (at_ s (Data n) 0 b') rest fut) as (s' & -> & Hs'); [by eapply ready_at|done| |].
      { simpl. rewrite Eb, !length_app in Hf. change (length crlf) with 2%nat in Hf. lia. }
      exists s'. split; [done|]. rewrite app_assoc.
      by eapply stops_skip.
    + erewrite stop_loop by (unfold consume_step; rewrite (rd_state _ _ _ _ Hr); exact Es).
      eexists. split; [done|]. apply stops_wait; [apply Hr|by apply ex_chunk with n|done|done|done].
  - destruct (size_line _ _ _ _ _ _ _ Hline (rd_state _ _ _ _ Hr) (rd_scan _ _ _ _ Hr) E)
      as [(b' & Eb & Ew & Es)|(Hl & Es & Hs)].
    + simpl in Es. erewrite again_loop by (unfold consume_step; rewrite (rd_state _ _ _ _ Hr); exact Es).
      destruct (trailers_stops max_line max_collect initial t rest fut (at_ s Trailers 0 b'))
        as (s' & Et & Hs'); [done|done|done|apply hint_zero|apply Hr|done|].
      destruct fuel as [|fuel].
      { rewrite Eb, !length_app in Hf. change (length crlf) with 2%nat in Hf. lia. }
      exists s'. split; [by apply stop_loop|]. rewrite app_assoc.
      by eapply stops_skip.
    + erewrite stop_loop by (unfold consume_step; rewrite (rd_state _ _ _ _ Hr); exact Es).
      eexists. split; [done|]. apply stops_wait; [apply Hr|by apply ex_last|done|done|done].
  - subst n. destruct Hr as [Hst Hsc Hop [Hb0 Hb] [Hc0 Hc]]. rewrite blen_app in Hb, Hc.
    pose proof (blen_nonneg body).
    destruct (data_cut max_line max_collect initial d w body rest fut s) as
      [(s1 & b' & Es & Eb & Eb' & Ew & Ht & Ed & Hd1)|(s1 & Es & Hs1)]; try (done || lia).
    + erewrite again_loop by exact Es.
      destruct (IH fuel s1 rest fut) as (s' & -> & Hs').
      * destruct Ht as [T1 _ T3]. split; rewrite ?Ed; [done|done|done|lia|].
        rewrite T3. assert (blen (take (Z.to_nat (max_collect - cs_collected s)) d) <= blen d)
          by (unfold blen; rewrite length_take; lia).
        pose proof (blen_nonneg (take (Z.to_nat (max_collect - cs_collected s)) d)). lia.
      * by rewrite Eb'.
      * rewrite Eb, length_app in Hf. rewrite Eb'. unfold blen in Hn. lia.
      * exists s'. split; [done|]. eapply stops_trans; [exact Ht|by rewrite Eb'|done].
    + exists s1. split; [by apply stop_loop|done].
  - destruct (data_crlf_cut max_line max_collect initial w body rest fut s (rd_state _ _ _ _ Hr)
      (rd_scan _ _ _ _ Hr) (rd_open _ _ _ _ Hr) He E) as [(b' & Es & Eb & Ew)|[Es Hs]].
    + erewrite again_loop by exact Es.
      destruct (IH fuel (at_ s Size 0 b') rest fut) as (s' & -> & Hs').
      * eapply ready_at; [done|apply hint_zero].
      * done.
      * rewrite Eb, length_app in Hf. change (length crlf) with 2%nat in Hf. simpl. lia.
      * exists s'. split; [done|]. by eapply stops_skip.
    + exists s. split; [by apply stop_loop|done].
  - destruct (trailers_stops max_line max_collect initial t rest fut s) as (s' & Et & Hs');
      [done|done|apply Hr|apply Hr|apply Hr|done|]. exists s'. split; [by apply stop_loop|done].
Qed.

Lemma consume_expects max_line max_collect d buf w body rest fut :
  expects max_line (state d) w body -> 1 <= max_line -> blen body <= u64_MAX ->
  scan_ok (state d) (scan_from d) buf -> w ++ rest = buf ++ fut ->
  exists r d' buf' taken w' body', consume d buf max_line max_collect = Some (Ok r, d', buf') /\
    done_ r = bool_decide (blen w <= blen buf) /\ body_bytes r = blen taken /\
    concat (map data (data_chunks r)) = take (Z.to_nat max_collect) taken /\
    body = taken ++ body' /\ w' ++ rest = buf' ++ fut /\
    scan_ok (state d') (scan_from d') buf' /\
    if done_ r then w' = [] /\ body' = [] /\ d' = ChunkedDecoder_default
    else expects max_line (state d') w' body'.
Proof.
  intros He Hmax Hu Hs E. unfold consume. set (start := {| cs_decoder := d |}).
  destruct (loop_expects max_line max_collect (blen buf) _ _ _ He Hmax (S (length buf)) start rest fut)
    as (s' & -> & Hd & taken & w' & body' & [T1 T2 _] & Hb & Hw & Hsc & Hend); [by split|done|simpl; lia|].
  simpl. eexists _, _, _, taken, w', body'. split; [done|]. simpl.
  unfold got in T2. simpl in T2. rewrite Z.sub_0_r in T2. auto 10.
Qed.

(** ** Calls on successive pieces *)

(** The parser's use of the decoder: append a piece, take what can be taken, stop
    at the end of the body; [seen] body bytes count against the budget [cap]. *)
Fixpoint decode_pieces (max_line cap : Z) (d : ChunkedDecoder) (buf : bytes) (seen : Z)
  (pieces : list bytes) : option (bytes * bytes * list bytes) :=
  match pieces with
  | [] => None
  | p :: ps =>
      match consume d (buf ++ p) max_line (sat_sub cap seen) with
      | Some (Ok r, d', buf') =>
          let out := concat (map data (data_chunks r)) in
          if done_ r then Some (out, buf', ps)
          else '(o, b, rest) ← decode_pieces max_line cap d' buf' (seen + body_bytes r) ps;
               Some (out ++ o, b, rest)
      | _ => None
      end
  end.

Lemma scan_ok_app st scan buf p : scan_ok st scan buf -> scan_ok st scan (buf ++ p).
Proof. destruct st; simpl; auto using hint_app. Qed.

Lemma pieces_decode max_line cap pieces : forall d buf seen w body rest,
  expects max_line (state d) w body -> 1 <= max_line -> blen body <= u64_MAX -> 0 <= seen ->
  scan_ok (state d) (scan_from d) buf -> blen buf < blen w -> w ++ rest = buf ++ concat pieces ->
  exists b ps, decode_pieces max_line cap d buf seen pieces =
      Some (take (Z.to_nat (sat_sub cap seen)) body, b, ps) /\ b ++ concat ps = rest.
Proof.
  induction pieces as [|p pieces IH]; intros d buf seen w body rest He Hmax Hu Hseen Hs Hl E; simpl.
  { simpl in E. rewrite app_nil_r in E. apply (f_equal blen) in E. rewrite blen_app in E.
    pose proof (blen_nonneg rest). lia. }
  simpl in E. rewrite app_assoc in E.
  destruct (consume_expects max_line (sat_sub cap seen) d (buf ++ p) w body rest (concat pieces))
    as (r & d' & buf' & taken & w' & body' & -> & Hd & Hbb & Hout & -> & Hw & Hs' & Hend);
    [done|done|done|by apply scan_ok_app|done|].
  rewrite Hout. destruct (done_ r) eqn:Edone.
  - destruct Hend as (-> & -> & _). rewrite app_nil_r. simpl in Hw. eauto.
  - symmetry in Hd. apply bool_decide_eq_false_1 in Hd. pose proof (blen_nonneg taken).
    pose proof (blen_nonneg body'). rewrite blen_app in Hu.
    destruct (IH d' buf' (seen + body_bytes r) w' body' rest) as (b & ps & -> & Hb); [done|done|lia|lia|done| |done|].
    { apply (f_equal blen) in E, Hw. rewrite !blen_app in *. lia. }
    simpl. exists b, ps. split; [|done]. do 3 f_equal. rewrite take_app. f_equal.
    unfold sat_sub, blen in *. destruct (decide (Z.of_nat (length taken) <= cap - seen)).
    + f_equal. lia.
    + replace (Z.to_nat (Z.max 0 (cap - (seen + body_bytes r)))) with 0%nat by lia.
      replace (Z.to_nat (Z.max 0 (cap - seen)) - length taken)%nat with 0%nat by lia. done.
Qed.

(** C11. The chunked body of any message, however the wire cuts it, decodes to the
    body (its first [cap] bytes when the budget is smaller); the decoder reports
    the end in the piece that holds the last byte, and what follows the body is
    left untouched. *)
Theorem chunked_roundtrip max_line cap chunks last trailers rest pieces :
  chunked_ok max_line chunks last trailers -> 1 <= max_line ->
  blen (concat (map snd chunks)) <= u64_MAX ->
  concat pieces = encode_body chunks last trailers ++ rest ->
  exists b ps, decode_pieces max_line cap ChunkedDecoder_default [] 0 pieces =
      Some (take (Z.to_nat cap) (concat (map snd chunks)), b, ps) /\ b ++ concat ps = rest.
Proof.
  intros Hok Hmax Hu E. pose proof (encode_body_expects _ _ _ _ Hok) as He.
  destruct (pieces_decode max_line cap pieces ChunkedDecoder_default [] 0 _ _ rest He)
    as (b & ps & -> & Hb); [done|done|lia|apply hint_zero| |done|].
  - unfold encode_body. rewrite !blen_app, blen_nil. change (blen crlf) with 2.
    pose proof (blen_nonneg (concat (map encode_chunk chunks))). pose proof (blen_nonneg last).
    pose proof (blen_nonneg trailers). lia.
  - exists b, ps. split; [|done]. do 4 f_equal. unfold sat_sub. lia.
Qed.

(** The resumed scan is the full scan: after a search of a buffer that found no
    line end, continuing from the remembered position in the longer buffer finds
    exactly what a search of all of it finds. *)
Theorem scan_resumes buf more :
  (window_position crlf buf = None ->
   find_crlf_from (buf ++ more) (sat_sub (blen buf) 1) = find_crlf_from (buf ++ more) 0) /\
  (window_position double_crlf buf = None ->
   find_double_crlf_from (buf ++ more) (sat_sub (blen buf) 3) = find_double_crlf_from (buf ++ more) 0).
Proof.
  split; intros H.
  - rewrite !find_crlf_hint; [done|apply hint_zero|]. apply hint_app. by apply (hint_searched crlf).
  - rewrite !find_double_crlf_hint; [done|apply hint_zero|]. apply hint_app. by apply (hint_searched double_crlf).
Qed.
