(* ===== verification/HttpHeader.v ===== *)
(** * Message headers ([parse_header] and its helpers in [src/src/http/mod.rs])

    The crate [httparse] is a parameter: what it makes of a status line or a
    request line and the header fields.  What BAZALT decides from the fields, the
    framing of the body and its encoding, is modelled in full, and the module
    ends with what it promises of Content-Length and Transfer-Encoding. *)

From stdpp Require Import strings.
From S2P Require Import Prelude Model Text Services.

(** [httparse::Header]. *)
Record Header := { h_name : bytes; h_value : bytes }.

(** A parse that came to its end; [httparse] may also report a partial message. *)
Record Response := { code : option Z; response_headers : list Header }.
Record Request := { method_ : option bytes; path_ : option bytes; request_headers : list Header }.

Class HttpParse := {
  response_parse : bytes -> Result (option Response);
  request_parse : bytes -> Result (option Request)
}.

Inductive Encoding := Identity | Gzip | Deflate.

#[export] Instance Encoding_eq_dec : EqDecision Encoding.
Proof. solve_decision. Defined.

Record ParsedHeader := {
  ph_request : bool;
  ph_method : option bytes;
  ph_host : option bytes;
  ph_path : option bytes;
  ph_status : option Z;
  ph_user_agent : option bytes;
  ph_content_type : option bytes;
  ph_content_length : option Z;
  ph_has_transfer_encoding : bool;
  ph_transfer_final_chunked : bool;
  ph_ambiguous_framing : bool;
  ph_encoding : Encoding
}.

Definition named (name : string) (h : Header) : bool :=
  eq_ignore_ascii_case (vals (h_name h)) (vals (bytes_of name)).

(** The loop over the fields of one name: each value is text, taken apart at its
    commas. *)
Fixpoint over_fields {A} (step : A -> list (list Z) -> Result A) (a : A) (headers : list Header)
  : Result A :=
  match headers with
  | [] => Ok a
  | h :: headers =>
      text ← from_utf8 (h_value h);
      a ← step a (split_on 44 text);
      over_fields step a headers
  end.

Fixpoint content_length_tokens (value : option Z) (tokens : list (list Z)) : Result (option Z) :=
  match tokens with
  | [] => Ok value
  | raw :: tokens =>
      let token := trim raw in
      if is_empty token || negb (forallb is_ascii_digit token) then Err
      else
        parsed ← from_str_radix 10 token;
        match value with
        | Some existing => if existing =? parsed then content_length_tokens value tokens else Err
        | None => content_length_tokens (Some parsed) tokens
        end
  end.

Definition parse_content_length (headers : list Header) : Result (option Z) :=
  over_fields content_length_tokens None (List.filter (named "content-length") headers).

(** The state is the pair of [seen_any] and [final_chunked]. *)
Fixpoint transfer_codings (st : bool * bool) (pieces : list (list Z)) : Result (bool * bool) :=
  match pieces with
  | [] => Ok st
  | raw :: pieces =>
      let coding := trim (first_piece 59 raw) in
      if is_empty coding then Err
      else if st.2 then Err
      else transfer_codings (true, eq_ignore_ascii_case coding (vals (bytes_of "chunked"))) pieces
  end.

Definition transfer_encoding_framing (headers : list Header) : Result (bool * bool) :=
  over_fields transfer_codings (false, false) (List.filter (named "transfer-encoding") headers).

Definition header_bytes (headers : list Header) (name : string) : option bytes :=
  h_value <$> List.find (named name) headers.

Definition header_text (headers : list Header) (name : string) : option bytes :=
  (fun v => str_bytes (trim (from_utf8_lossy v))) <$> header_bytes headers name.

(** [haystack.windows(n).any(..)] for the [n] bytes of [needle]. *)
Fixpoint any_window (haystack needle : bytes) : bool :=
  match haystack with
  | [] => false
  | _ :: haystack' =>
      eq_ignore_ascii_case (vals (take (length needle) haystack)) (vals needle)
      || any_window haystack' needle
  end.

Definition ascii_contains_ignore_case (haystack needle : bytes) : bool :=
  is_empty needle || any_window haystack needle.

Section Parse.
Context `{HttpParse}.

(** The start line: request, method, path, status and fields. *)
Definition parse_start_line (v : bytes)
  : Result (bool * option bytes * option bytes * option Z * list Header) :=
  if starts_with v (bytes_of "HTTP/") then
    response ← response_parse v;
    match response with
    | Some r => Ok (false, None, None, code r, response_headers r)
    | None => Err
    end
  else
    request ← request_parse v;
    match request with
    | Some r =>
        match method_ r, path_ r with
        | Some m, Some p => Ok (true, Some m, Some p, None, request_headers r)
        | _, _ => Err
        end
    | None => Err
    end.

Definition content_encoding (headers : list Header) : Encoding :=
  match header_bytes headers "content-encoding" with
  | Some v =>
      if ascii_contains_ignore_case v (bytes_of "gzip") then Gzip
      else if ascii_contains_ignore_case v (bytes_of "deflate") then Deflate
      else Identity
  | None => Identity
  end.

Definition parse_header (v : bytes) : Result ParsedHeader :=
  '(request, method, path, status, headers) ← parse_start_line v;
  content_length ← parse_content_length headers;
  '(has_transfer_encoding, transfer_final_chunked) ← transfer_encoding_framing headers;
  Ok {| ph_request := request; ph_method := method; ph_host := header_text headers "host";
        ph_path := path; ph_status := status;
        ph_user_agent := header_text headers "user-agent";
        ph_content_type := header_text headers "content-type";
        ph_content_length := if has_transfer_encoding : bool then None else content_length;
        ph_has_transfer_encoding := has_transfer_encoding;
        ph_transfer_final_chunked := transfer_final_chunked;
        ph_ambiguous_framing :=
          has_transfer_encoding && match content_length with Some _ => true | None => false end;
        ph_encoding := content_encoding headers |}.
End Parse.

(** ** What the fields say *)

(** The comma-separated pieces of every field of one name; [None] when a value is
    not UTF-8. *)
Definition field_pieces (name : string) (headers : list Header) : option (list (list Z)) :=
  @concat (list Z) <$> mapM (fun h => match from_utf8 (h_value h) with Ok t => Some (split_on 44 t) | Err => None end)
    (List.filter (named name) headers).

(** A piece that is the decimal number [n]. *)
Definition states_length (n : Z) (raw : list Z) : Prop :=
  trim raw <> [] /\ forallb is_ascii_digit (trim raw) = true /\ from_str_radix 10 (trim raw) = Ok n.

Definition coding_of (raw : list Z) : list Z := trim (first_piece 59 raw).
Definition is_chunked (raw : list Z) : bool :=
  eq_ignore_ascii_case (coding_of raw) (vals (bytes_of "chunked")).

(** The loop over the fields is one pass over all their pieces. *)
Lemma over_fields_spec {A} (step : A -> list (list Z) -> Result A) name headers a r :
  (forall a, step a [] = Ok a) ->
  (forall l1 l2 a, step a (l1 ++ l2) = (a ← step a l1; step a l2)) ->
  over_fields step a (List.filter (named name) headers) = Ok r <->
  exists pieces, field_pieces name headers = Some pieces /\ step a pieces = Ok r.
Proof.
  intros Hnil Happ. unfold field_pieces. revert a.
  induction (List.filter (named name) headers) as [|h hs IH]; intros a; simpl.
  - split; [intros H; exists []; by rewrite Hnil|]. intros (? & [= <-] & H). by rewrite Hnil in H.
  - destruct (from_utf8 (h_value h)) as [text|]; simpl; [|split; [done|by intros (? & ? & ?)]].
    destruct (mapM _ hs) as [pss|]; simpl in IH |- *.
    + split.
      * intros H. eexists. split; [done|]. rewrite Happ.
        destruct (step a (split_on 44 text)) as [v|]; [|done]. simpl in *.
        by apply IH in H as (? & [= <-] & H).
      * intros (? & [= <-] & H). rewrite Happ in H.
        destruct (step a (split_on 44 text)) as [v|]; [|done]. simpl in *. apply IH. eauto.
    + split; [|by intros (? & ? & ?)]. intros H.
      destruct (step a (split_on 44 text)) as [v|]; [|done]. by apply IH in H as (? & ? & ?).
Qed.

Lemma content_length_tokens_app l1 l2 v :
  content_length_tokens v (l1 ++ l2) = (v ← content_length_tokens v l1; content_length_tokens v l2).
Proof.
  revert v. induction l1 as [|x l1 IH]; intros v; simpl; [done|]. destruct (_ || _); [done|].
  destruct (from_str_radix 10 _); simpl; [|done]. destruct v as [e|]; [|apply IH].
  destruct (e =? a); [apply IH|done].
Qed.

Lemma transfer_codings_app l1 l2 st :
  transfer_codings st (l1 ++ l2) = (st ← transfer_codings st l1; transfer_codings st l2).
Proof.
  revert st. induction l1 as [|x l1 IH]; intros st; simpl; [done|].
  destruct (is_empty _); [done|]. destruct st.2; [done|apply IH].
Qed.

Lemma content_length_tokens_spec tokens : forall value r,
  content_length_tokens value tokens = Ok r <->
  match r with
  | Some n => Forall (states_length n) tokens /\ (value = Some n \/ value = None /\ tokens <> [])
  | None => value = None /\ tokens = []
  end.
Proof.
  induction tokens as [|raw tokens IH]; intros value r; simpl.
  - destruct r as [n|]; split; intros H.
    + injection H as ->. auto.
    + destruct H as [_ [->|[_ ?]]]; done.
    + by injection H.
    + by destruct H as [-> _].
  - destruct (is_empty (trim raw) || negb (forallb is_ascii_digit (trim raw))) eqn:E.
    { split; [done|]. destruct r as [n|]; [|by intros []]. intros [[(H1 & H2 & _) _]%Forall_cons _].
      rewrite H2, orb_false_r in E. by apply is_empty_spec in E. }
    reflect_bools. assert (trim raw <> []) as Hne by (intros Ht; by rewrite Ht in *).
    destruct (from_str_radix 10 (trim raw)) as [m|] eqn:Em; simpl.
    2: { split; [done|]. destruct r as [n|]; [|by intros []]. intros [[(_ & _ & H3) _]%Forall_cons _]. congruence. }
    assert (forall n, states_length n raw <-> n = m) as Hst.
    { intros n. unfold states_length. rewrite Em. split; [by intros (_ & _ & [= ->])|by intros ->]. }
    destruct value as [v|].
    + destruct (v =? m) eqn:Ev; reflect_bools; [subst m|].
      * rewrite IH. destruct r as [n|]; [|by split; intros []]. rewrite Forall_cons, Hst. naive_solver.
      * split; [done|]. destruct r as [n|]; [|by intros []]. rewrite Forall_cons, Hst. naive_solver.
    + rewrite IH. destruct r as [n|]; [|by split; intros []]. rewrite Forall_cons, Hst. naive_solver.
Qed.

Lemma split_on_nonempty sep s : split_on sep s <> [].
Proof. induction s as [|c s IH]; simpl; [done|]. destruct (c =? sep); [done|]. by destruct (split_on sep s). Qed.

(** Content-Length (RFC 9112, 6.3): the header block has the length [n] exactly
    when every comma-separated value of every Content-Length field is the decimal
    number [n] and there is one; it has no length exactly when there is no such
    field; anything else, a conflict, a sign, an overflow, an empty value, is an
    error. *)
Theorem content_length_agrees headers r :
  parse_content_length headers = Ok r <->
  exists pieces, field_pieces "content-length" headers = Some pieces /\
    match r with
    | Some n => pieces <> [] /\ Forall (states_length n) pieces
    | None => pieces = []
    end.
Proof.
  unfold parse_content_length. rewrite over_fields_spec by (done || apply content_length_tokens_app).
  split; intros (pieces & Hp & H); exists pieces; (split; [done|]); revert H;
    rewrite content_length_tokens_spec; destruct r; naive_solver.
Qed.

Lemma transfer_codings_spec pieces : forall st r,
  transfer_codings st pieces = Ok r <->
  Forall (fun p => coding_of p <> []) pieces /\ Forall (fun p => is_chunked p = false) (removelast pieces) /\
  (pieces = [] \/ st.2 = false) /\
  r = match last pieces with Some p => (true, is_chunked p) | None => st end.
Proof.
  induction pieces as [|raw pieces IH]; intros st r.
  - simpl. split; [intros [= <-]; auto|by intros (_ & _ & _ & ->)].
  - cbn [transfer_codings]. cbv zeta. fold (coding_of raw). fold (is_chunked raw).
    destruct (is_empty (coding_of raw)) eqn:E.
    { apply is_empty_spec in E. split; [done|]. by intros [[? _]%Forall_cons _]. }
    assert (coding_of raw <> []) as Hne by (intros H; by rewrite H in E).
    destruct st.2 eqn:Est; [split; [done|]; by intros (_ & _ & [?|?] & _)|].
    rewrite IH. simpl. rewrite Forall_cons. destruct pieces as [|p pieces].
    + simpl. naive_solver.
    + change (last (raw :: p :: pieces)) with (last (p :: pieces)). rewrite (Forall_cons _ raw).
      destruct (last (p :: pieces)) as [q|] eqn:El; [|by apply last_None in El]. naive_solver.
Qed.

(** Transfer-Encoding (RFC 9112, 6.1): the body is chunked exactly when the last
    coding of all Transfer-Encoding fields is "chunked"; a coding after it, an
    empty one or a value that is not text is an error. *)
Theorem transfer_encoding_final headers any final :
  transfer_encoding_framing headers = Ok (any, final) <->
  exists pieces, field_pieces "transfer-encoding" headers = Some pieces /\
    Forall (fun p => coding_of p <> []) pieces /\
    Forall (fun p => is_chunked p = false) (removelast pieces) /\
    any = negb (is_empty pieces) /\
    final = match last pieces with Some p => is_chunked p | None => false end.
Proof.
  unfold transfer_encoding_framing. rewrite over_fields_spec by (done || apply transfer_codings_app).
  split; intros (pieces & Hp & H); exists pieces; (split; [done|]); revert H;
    rewrite transfer_codings_spec; destruct pieces as [|p pieces]; try naive_solver.
  - destruct (last (p :: pieces)) eqn:El; [|by apply last_None in El]. naive_solver.
  - destruct (last (p :: pieces)) eqn:El; [|by apply last_None in El]. naive_solver.
Qed.

(** A parsed length is not negative. *)
Lemma parse_header_length `{HttpParse} v parsed n :
  parse_header v = Ok parsed -> ph_content_length parsed = Some n -> 0 <= n.
Proof.
  unfold parse_header. destruct (parse_start_line v) as [[[[[rq m] pa] st] hs]|]; [|done]. simpl.
  unfold parse_content_length. destruct (over_fields content_length_tokens _ _) as [r|] eqn:E; [|done]. simpl.
  destruct (transfer_encoding_framing hs) as [[te fin]|]; [|done]. simpl. intros [= <-]. simpl.
  destruct te; [done|]. intros ->. apply over_fields_spec in E as (pieces & _ & E);
    [|done|apply content_length_tokens_app].
  apply content_length_tokens_spec in E as [Hall [?|[_ Hne]]]; [done|].
  destruct pieces as [|p pieces]; [done|]. apply Forall_cons in Hall as [(_ & _ & Hp) _].
  by apply from_str_radix_nonneg in Hp.
Qed.
