(* ===== verification/Http.v ===== *)
(** * The HTTP stream parser ([HttpConnection], [HttpStreamParser] in
    [src/src/http/mod.rs])

    One direction of a connection is a [HttpStreamParser]; what both directions
    share, and the report being built, is added in [Feed].  [feed] is the loop of
    [feed_step], one definition per body state.  [httparse] and [flate2] are
    parameters: a decompressor is the list of its successive reads, which ends at
    the end of the stream.  [new_v4 n] is the n-th random id.  [None] is a loop that
    does not end. *)

From stdpp Require Import strings.
From S2P Require Import Prelude Model Text Services Chunked HttpHeader.

Definition HTTP_PENDING_REQUEST_LIMIT : Z := 4096.
Definition HTTP_RESYNC_SUFFIX : Z := 48.

(** ** Finding a message *)

Definition looks_like_http_start (v : bytes) : bool :=
  if starts_with v (bytes_of "HTTP/") then true
  else
    match list_find (fun b => b = x20) (take 17 v) with
    | None => false
    | Some (method_end, _) =>
        let method := take method_end v in
        let rest := drop (S method_end) v in
        if negb ((1 <=? method_end)%nat && (method_end <=? 16)%nat) then false
        else if negb (forallb (fun b => is_ascii_uppercase (byte_val b) || bool_decide (b = x2d)) method)
        then false
        else
          match rest with
          | [] => false
          | c :: _ =>
              if bool_decide (method = bytes_of "CONNECT")
              then negb (is_ascii_whitespace (byte_val c))
              else starts_with rest (bytes_of "/") || starts_with rest (bytes_of "*")
                   || starts_with rest (bytes_of "http://")
                   || starts_with rest (bytes_of "https://")
          end
    end.

(** The line starts after the [idx] bytes already passed. *)
Fixpoint http_start_after_newline (v : bytes) (idx : Z) : option Z :=
  match v with
  | [] => None
  | b :: v' =>
      if bool_decide (b = x0a) && negb (is_empty v') && looks_like_http_start v'
      then Some (idx + 1)
      else http_start_after_newline v' (idx + 1)
  end.

Definition find_plausible_http_start (v : bytes) : option Z :=
  if looks_like_http_start v then Some 0 else http_start_after_newline v 0.

(** ** Data *)

Inductive HttpMode := Http | Tunnel.

#[export] Instance HttpMode_eq_dec : EqDecision HttpMode.
Proof. solve_decision. Defined.

Inductive RequestKind := Other | Head | Connect.

#[export] Instance RequestKind_eq_dec : EqDecision RequestKind.
Proof. solve_decision. Defined.

Definition from_method (method : option bytes) : RequestKind :=
  match method with
  | Some m =>
      if eq_ignore_ascii_case (vals m) (vals (bytes_of "HEAD")) then Head
      else if eq_ignore_ascii_case (vals m) (vals (bytes_of "CONNECT")) then Connect
      else Other
  | None => Other
  end.

Record HttpConfig := {
  http_max_header_bytes : Z;
  http_max_body_bytes : Z;
  http_max_decode_bytes : Z;
  http_max_decode_ratio : Z
}.

Record MessageInfo := {
  mi_flow_id : FlowId;
  mi_ts_ns : Z;
  mi_direction : Direction;
  mi_request_direction : Direction;
  mi_encoding : Encoding;
  mi_body_view : ContentView;
  mi_decoded_view : ContentView
}.

Inductive BodyState :=
  | Headers
  | Fixed (remaining : Z) (info : MessageInfo) (compressed : bytes)
  | SkipFixed (remaining capture_remaining : Z) (info : MessageInfo)
  | Chunked (info : MessageInfo) (decoder : ChunkedDecoder) (compressed : bytes) (body_seen : Z)
      (capture_body : bool)
  | UntilClose (info : MessageInfo) (compressed : bytes) (body_seen : Z) (capture_body : bool).

Record HttpEmission := {
  he_content : list ContentRecord;
  he_meta : option HttpRecord;
  he_request_direction : option Direction
}.

Record HttpStreamParser := {
  buffer : bytes;
  body_state : BodyState;
  stream_offset : Z;
  next_input_offset : option Z;
  synced : bool;
  header_scan_from : Z
}.

Definition HttpStreamParser_new : HttpStreamParser :=
  {| buffer := []; body_state := Headers; stream_offset := 0; next_input_offset := None;
     synced := true; header_scan_from := 0 |}.

(** Everything one call of [feed] changes. *)
Record Feed := {
  fd_parser : HttpStreamParser;
  fd_pending : list RequestKind;
  fd_request_direction : option Direction;
  fd_mode : HttpMode;
  fd_events : list HttpEmission;
  fd_errors : Z;
  fd_ids : nat
}.

Inductive Loop := Next (f : Feed) | Break (f : Feed).

(** ** Changes of the state *)

Definition with_parser (f : Feed) (p : HttpStreamParser) : Feed :=
  {| fd_parser := p; fd_pending := fd_pending f; fd_request_direction := fd_request_direction f;
     fd_mode := fd_mode f; fd_events := fd_events f; fd_errors := fd_errors f; fd_ids := fd_ids f |}.

Definition set_state (p : HttpStreamParser) (s : BodyState) : HttpStreamParser :=
  {| buffer := buffer p; body_state := s; stream_offset := stream_offset p;
     next_input_offset := next_input_offset p; synced := synced p;
     header_scan_from := header_scan_from p |}.

Definition set_scan (p : HttpStreamParser) (scan : Z) : HttpStreamParser :=
  {| buffer := buffer p; body_state := body_state p; stream_offset := stream_offset p;
     next_input_offset := next_input_offset p; synced := synced p; header_scan_from := scan |}.

Definition set_synced (p : HttpStreamParser) (b : bool) : HttpStreamParser :=
  {| buffer := buffer p; body_state := body_state p; stream_offset := stream_offset p;
     next_input_offset := next_input_offset p; synced := b; header_scan_from := header_scan_from p |}.

(** Takes [n] bytes off the front of the buffer. *)
Definition advance (p : HttpStreamParser) (n : Z) : HttpStreamParser :=
  {| buffer := drop (Z.to_nat n) (buffer p); body_state := body_state p;
     stream_offset := sat_add (stream_offset p) n; next_input_offset := next_input_offset p;
     synced := synced p; header_scan_from := header_scan_from p |}.

Definition clear_buffer (p : HttpStreamParser) : HttpStreamParser :=
  {| buffer := []; body_state := body_state p; stream_offset := stream_offset p;
     next_input_offset := next_input_offset p; synced := synced p;
     header_scan_from := header_scan_from p |}.

Definition in_state (f : Feed) (s : BodyState) : Feed := with_parser f (set_state (fd_parser f) s).

Definition set_pending (f : Feed) (l : list RequestKind) : Feed :=
  {| fd_parser := fd_parser f; fd_pending := l; fd_request_direction := fd_request_direction f;
     fd_mode := fd_mode f; fd_events := fd_events f; fd_errors := fd_errors f; fd_ids := fd_ids f |}.

Definition set_request_direction (f : Feed) (d : Direction) : Feed :=
  {| fd_parser := fd_parser f; fd_pending := fd_pending f; fd_request_direction := Some d;
     fd_mode := fd_mode f; fd_events := fd_events f; fd_errors := fd_errors f; fd_ids := fd_ids f |}.

Definition set_tunnel (f : Feed) : Feed :=
  {| fd_parser := fd_parser f; fd_pending := fd_pending f;
     fd_request_direction := fd_request_direction f; fd_mode := Tunnel; fd_events := fd_events f;
     fd_errors := fd_errors f; fd_ids := fd_ids f |}.

Definition error (f : Feed) : Feed :=
  {| fd_parser := fd_parser f; fd_pending := fd_pending f;
     fd_request_direction := fd_request_direction f; fd_mode := fd_mode f; fd_events := fd_events f;
     fd_errors := sat_add (fd_errors f) 1; fd_ids := fd_ids f |}.

(** Pushes an event that drew [n] ids. *)
Definition push (f : Feed) (e : HttpEmission) (n : nat) : Feed :=
  {| fd_parser := fd_parser f; fd_pending := fd_pending f;
     fd_request_direction := fd_request_direction f; fd_mode := fd_mode f;
     fd_events := fd_events f ++ [e]; fd_errors := fd_errors f; fd_ids := (fd_ids f + n)%nat |}.

(** An error after which the message boundaries are unknown. *)
Definition desync (f : Feed) : Feed :=
  set_pending (with_parser (error f) (set_synced (fd_parser f) false)) [].

(** ** Decompression *)

(** [read_bounded]: the reads so far are [out]; an empty read ends the stream. *)
Fixpoint read_bounded (reads : list (Result bytes)) (limit : Z) (out : bytes) : Result bytes :=
  match reads with
  | [] => Ok out
  | Err :: _ => Err
  | Ok [] :: _ => Ok out
  | Ok r :: reads =>
      if limit <? sat_add (blen out) (blen r) then Err else read_bounded reads limit (out ++ r)
  end.

Class Inflate := { gzip_reads : bytes -> list (Result bytes); zlib_reads : bytes -> list (Result bytes) }.

Section Parser.
Context `{HttpParse} `{Inflate}.
Context (new_v4 : nat -> Z).
Context (cfg : HttpConfig).

Definition body_record (id : Z) (info : MessageInfo) (offset : Z) (d : bytes) : ContentRecord :=
  {| cr_id := id; cr_flow_id := mi_flow_id info; cr_ts_ns := mi_ts_ns info; cr_service := None;
     cr_direction := mi_direction info; cr_view := mi_body_view info; cr_stream_offset := offset;
     cr_data := d |}.

Definition decoded_record (id : Z) (info : MessageInfo) (offset : Z) (compressed : bytes)
  : option ContentRecord :=
  if bool_decide (mi_encoding info = Identity) || is_empty compressed then None
  else
    let ratio_limit := sat_mul (blen compressed) (http_max_decode_ratio cfg) in
    let limit := Z.min (http_max_decode_bytes cfg) ratio_limit in
    if limit =? 0 then None
    else
      match (match mi_encoding info with
             | Gzip => read_bounded (gzip_reads compressed) limit []
             | Deflate => read_bounded (zlib_reads compressed) limit []
             | Identity => Err
             end) with
      | Ok d =>
          Some {| cr_id := id; cr_flow_id := mi_flow_id info; cr_ts_ns := mi_ts_ns info;
                  cr_service := None; cr_direction := mi_direction info;
                  cr_view := mi_decoded_view info; cr_stream_offset := offset; cr_data := d |}
      | Err => None
      end.

(** Keeps compressed bytes within the decode limit. *)
Definition collect (info : MessageInfo) (compressed d : bytes) : bytes :=
  if negb (bool_decide (mi_encoding info = Identity))
     && (sat_add (blen compressed) (blen d) <=? http_max_decode_bytes cfg)
  then compressed ++ d else compressed.

Definition body_event (info : MessageInfo) (r : ContentRecord) : HttpEmission :=
  {| he_content := [r]; he_meta := None; he_request_direction := Some (mi_request_direction info) |}.

(** Pushes the body bytes [d] found at [offset]. *)
Definition push_body (f : Feed) (info : MessageInfo) (offset : Z) (d : bytes) : Feed :=
  push f (body_event info (body_record (new_v4 (fd_ids f)) info offset d)) 1.

(** Pushes the decoded body, when there is one. *)
Definition push_decoded (f : Feed) (info : MessageInfo) (compressed : bytes) : Feed :=
  match decoded_record (new_v4 (fd_ids f)) info (stream_offset (fd_parser f)) compressed with
  | Some r => push f (body_event info r) 1
  | None => f
  end.

(** ** Message heads *)

Definition trim_desynced_suffix (p : HttpStreamParser) : HttpStreamParser :=
  let n := sat_sub (blen (buffer p)) HTTP_RESYNC_SUFFIX in
  if n =? 0 then p else advance p n.

Definition resync_to_http_start (p : HttpStreamParser) : bool * HttpStreamParser :=
  match find_plausible_http_start (buffer p) with
  | Some pos =>
      let p := if pos =? 0 then p else advance p pos in
      (true, set_scan (set_synced p true) 0)
  | None => (false, trim_desynced_suffix p)
  end.

Definition is_informational (status : option Z) : bool :=
  match status with Some s => between 100 s 199 && negb (s =? 101) | None => false end.

Definition status_in (lo hi : Z) (status : option Z) : bool :=
  match status with Some s => between lo s hi | None => false end.

Definition message_info (c : StreamChunk) (parsed : ParsedHeader) (req_dir : Direction) : MessageInfo :=
  {| mi_flow_id := ch_flow_id c; mi_ts_ns := ch_ts_ns c; mi_direction := ch_direction c;
     mi_request_direction := req_dir; mi_encoding := ph_encoding parsed;
     mi_body_view := if ph_request parsed then HttpRequestBody else HttpResponseBody;
     mi_decoded_view := if ph_request parsed then HttpRequestDecodedBody else HttpResponseDecodedBody |}.

Definition header_event (f : Feed) (c : StreamChunk) (parsed : ParsedHeader) (req_dir : Direction)
  (offset : Z) (header : bytes) : HttpEmission :=
  {| he_content :=
       [{| cr_id := new_v4 (fd_ids f); cr_flow_id := ch_flow_id c; cr_ts_ns := ch_ts_ns c;
           cr_service := None; cr_direction := ch_direction c;
           cr_view := if ph_request parsed then HttpRequestHeaders else HttpResponseHeaders;
           cr_stream_offset := offset; cr_data := header |}];
     he_meta :=
       Some {| hr_id := new_v4 (S (fd_ids f)); hr_flow_id := ch_flow_id c; hr_timestamp := ch_ts_ns c;
               hr_request := ph_request parsed; hr_method := ph_method parsed;
               hr_host := ph_host parsed; hr_path := ph_path parsed; hr_status := ph_status parsed;
               hr_user_agent := ph_user_agent parsed; hr_content_type := ph_content_type parsed;
               hr_body_content_id := None |};
     he_request_direction := Some req_dir |}.

(** The request this head belongs to, and the queue after it. *)
Definition correlate (f : Feed) (c : StreamChunk) (parsed : ParsedHeader) : Direction * Feed :=
  if ph_request parsed then
    let f := set_request_direction f (ch_direction c) in
    let f := if HTTP_PENDING_REQUEST_LIMIT <=? blen (fd_pending f)
             then error (set_pending f (List.tl (fd_pending f))) else f in
    (ch_direction c, set_pending f (fd_pending f ++ [from_method (ph_method parsed)]))
  else
    let req_dir := default (opposite (ch_direction c)) (fd_request_direction f) in
    (req_dir, if is_informational (ph_status parsed) then f
              else set_pending f (List.tl (fd_pending f))).

(** The state after a head whose message has the response kind [kind]. *)
Definition body_after (f : Feed) (parsed : ParsedHeader) (kind : option RequestKind)
  (info : MessageInfo) : Feed :=
  let response := negb (ph_request parsed) in
  let no_body_status :=
    response && (status_in 100 199 (ph_status parsed) || status_in 204 205 (ph_status parsed)
                 || status_in 304 304 (ph_status parsed)) in
  let response_to_head := response && bool_decide (kind = Some Head) in
  if (no_body_status || response_to_head)
     || (ph_request parsed && negb (ph_has_transfer_encoding parsed)
         && bool_decide (ph_content_length parsed = None))
  then in_state f Headers
  else if ph_has_transfer_encoding parsed then
    if ph_transfer_final_chunked parsed
    then in_state f (Chunked info ChunkedDecoder_default [] 0 true)
    else if ph_request parsed then in_state (desync f) Headers
    else in_state f (UntilClose info [] 0 true)
  else
    match ph_content_length parsed with
    | Some len =>
        if len =? 0 then in_state f Headers
        else if http_max_body_bytes cfg <? len
        then in_state f (SkipFixed len (http_max_body_bytes cfg) info)
        else in_state f (Fixed len info [])
    | None => in_state f (UntilClose info [] 0 true)
    end.

(** A head that parsed. *)
Definition on_header (f : Feed) (c : StreamChunk) (parsed : ParsedHeader) (offset : Z) (header : bytes)
  : Loop :=
  let f := if ph_ambiguous_framing parsed then error f else f in
  let kind := if ph_request parsed then None else head (fd_pending f) in
  let '(req_dir, f) := correlate f c parsed in
  let info := message_info c parsed req_dir in
  let f := push f (header_event f c parsed req_dir offset header) 2 in
  let response := negb (ph_request parsed) in
  let connect_tunnel :=
    response && bool_decide (kind = Some Connect) && status_in 200 299 (ph_status parsed) in
  let upgrade_tunnel := response && bool_decide (ph_status parsed = Some 101) in
  if connect_tunnel || upgrade_tunnel
  then Break (with_parser (set_tunnel f) (set_state (clear_buffer (fd_parser f)) Headers))
  else Next (body_after f parsed kind info).

Definition headers_step (c : StreamChunk) (f : Feed) : Loop :=
  let '(ready, p) :=
    if synced (fd_parser f) then (true, fd_parser f) else resync_to_http_start (fd_parser f) in
  if negb ready then Break (with_parser f (set_state p Headers))
  else
    match find_double_crlf_from (buffer p) (header_scan_from p) with
    | None =>
        if http_max_header_bytes cfg <? blen (buffer p) then
          let f := desync (with_parser f p) in
          Break (with_parser f (set_state (trim_desynced_suffix (set_scan (fd_parser f) 0)) Headers))
        else Break (with_parser f (set_state (set_scan p (sat_sub (blen (buffer p)) 3)) Headers))
    | Some end_ =>
        let header := take (Z.to_nat (end_ + 4)) (buffer p) in
        let offset := stream_offset p in
        let f := with_parser f (set_state (advance (set_scan p 0) (end_ + 4)) Headers) in
        match parse_header header with
        | Err => Next (desync f)
        | Ok parsed => on_header f c parsed offset header
        end
    end.

(** ** Bodies *)

Definition fixed_step (remaining : Z) (info : MessageInfo) (compressed : bytes) (f : Feed) : Loop :=
  let p := fd_parser f in
  if is_empty (buffer p) then Break f
  else
    let n := Z.min remaining (blen (buffer p)) in
    let d := take (Z.to_nat n) (buffer p) in
    let compressed := collect info compressed d in
    let f := with_parser (push_body f info (stream_offset p) d) (advance p n) in
    let left := remaining - n in
    if left =? 0
    then Next (in_state (push_decoded f info compressed) Headers)
    else Break (in_state f (Fixed left info compressed)).

Definition skip_step (remaining capture_remaining : Z) (info : MessageInfo) (f : Feed) : Loop :=
  let p := fd_parser f in
  if is_empty (buffer p) then Break f
  else
    let n := Z.min remaining (blen (buffer p)) in
    let k := Z.min n capture_remaining in
    let f := if k =? 0 then f
             else push_body f info (stream_offset p) (take (Z.to_nat k) (take (Z.to_nat n) (buffer p))) in
    let f := with_parser f (advance p n) in
    let left := remaining - n in
    if left =? 0 then Next (in_state f Headers)
    else Break (in_state f (SkipFixed left (capture_remaining - k) info)).

(** The pieces of one [consume], at their place in the stream. *)
Fixpoint push_chunks (f : Feed) (info : MessageInfo) (base : Z) (compressed : bytes)
  (chunks : list ChunkData) : Feed * bytes :=
  match chunks with
  | [] => (f, compressed)
  | c :: chunks =>
      push_chunks (push_body f info (sat_add base (relative_offset c)) (data c)) info base
        (collect info compressed (data c)) chunks
  end.

Definition chunked_step (info : MessageInfo) (decoder : ChunkedDecoder) (compressed : bytes)
  (body_seen : Z) (capture_body : bool) (f : Feed) : option Loop :=
  let p := fd_parser f in
  if is_empty (buffer p) then Some (Break f)
  else
    let collect_remaining :=
      if capture_body then sat_sub (http_max_body_bytes cfg) body_seen else 0 in
    '(r, decoder, buf) ←
      consume decoder (buffer p) (http_max_header_bytes cfg) collect_remaining;
    let consumed := sat_sub (blen (buffer p)) (blen buf) in
    Some match r with
    | Ok result =>
        let '(f, compressed) := push_chunks f info (stream_offset p) compressed (data_chunks result) in
        let body_seen := sat_add body_seen (body_bytes result) in
        let capture_body := capture_body && negb (http_max_body_bytes cfg <? body_seen) in
        let f := with_parser f (advance p (wire_consumed result)) in
        if done_ result
        then Next (in_state (if capture_body then push_decoded f info compressed else f) Headers)
        else
          let f := in_state f (Chunked info decoder compressed body_seen capture_body) in
          if consumed =? 0 then Break f else Next f
    | Err =>
        let f := with_parser f (advance p consumed) in
        Next (in_state (desync f) Headers)
    end.

Definition until_close_step (info : MessageInfo) (compressed : bytes) (body_seen : Z)
  (capture_body : bool) (f : Feed) : Loop :=
  let p := fd_parser f in
  if is_empty (buffer p) then Break f
  else
    let n := blen (buffer p) in
    let k := if capture_body then Z.min n (sat_sub (http_max_body_bytes cfg) body_seen) else 0 in
    let captured := take (Z.to_nat k) (buffer p) in
    let compressed := if k =? 0 then compressed else collect info compressed captured in
    let f := if k =? 0 then f else push_body f info (stream_offset p) captured in
    let body_seen := sat_add body_seen n in
    let capture_body := capture_body && negb (http_max_body_bytes cfg <? body_seen) in
    Break (in_state (with_parser f (advance p n)) (UntilClose info compressed body_seen capture_body)).

(** ** Feeding a chunk *)

Definition feed_step (c : StreamChunk) (f : Feed) : option Loop :=
  match body_state (fd_parser f) with
  | Headers => Some (headers_step c f)
  | Fixed remaining info compressed => Some (fixed_step remaining info compressed f)
  | SkipFixed remaining capture info => Some (skip_step remaining capture info f)
  | Chunked info decoder compressed body_seen capture =>
      chunked_step info decoder compressed body_seen capture f
  | UntilClose info compressed body_seen capture =>
      Some (until_close_step info compressed body_seen capture f)
  end.

Fixpoint feed_loop (fuel : nat) (c : StreamChunk) (f : Feed) : option Feed :=
  match fuel with
  | O => None
  | S fuel =>
      l ← feed_step c f;
      match l with Next f => feed_loop fuel c f | Break f => Some f end
  end.

(** The chunk does not continue the stream seen so far. *)
Definition is_gap (c : StreamChunk) (p : HttpStreamParser) : bool :=
  match next_input_offset p with Some expected => negb (expected =? ch_offset c) | None => false end.

(** The chunk appended at its place in the stream; a hole drops what was buffered. *)
Definition enter (c : StreamChunk) (p : HttpStreamParser) : HttpStreamParser :=
  let next := Some (sat_add (ch_offset c) (blen (ch_data c))) in
  if is_gap c p then
    {| buffer := ch_data c; body_state := Headers; stream_offset := ch_offset c;
       next_input_offset := next; synced := false; header_scan_from := 0 |}
  else
    let first := bool_decide (next_input_offset p = None) in
    {| buffer := buffer p ++ ch_data c; body_state := body_state p;
       stream_offset := if first then ch_offset c else stream_offset p;
       next_input_offset := next;
       synced := if first then ch_offset c =? 0 else synced p;
       header_scan_from := header_scan_from p |}.

Definition start_chunk (c : StreamChunk) (f : Feed) : Feed :=
  let f' := with_parser f (enter c (fd_parser f)) in
  if is_gap c (fd_parser f) then set_pending f' [] else f'.

(** Enough for every state of the buffer to be passed, with a failed chunked body
    in between. *)
Definition feed_fuel (f : Feed) : nat := S (S (2 * length (buffer (fd_parser f)))).

Definition feed (c : StreamChunk) (f : Feed) : option Feed :=
  let f := start_chunk c f in feed_loop (feed_fuel f) c f.

(** ** The end of the stream *)

Definition finish_until_close (info : MessageInfo) (compressed : bytes) (body_seen : Z)
  (capture_body : bool) (f : Feed) : Feed :=
  let p := fd_parser f in
  let '(f, compressed, final_capture) :=
    if is_empty (buffer p) then (f, compressed, capture_body)
    else
      let n := blen (buffer p) in
      let k := if capture_body then Z.min n (sat_sub (http_max_body_bytes cfg) body_seen) else 0 in
      let captured := take (Z.to_nat k) (buffer p) in
      let compressed := if k =? 0 then compressed else collect info compressed captured in
      let f := if k =? 0 then f else push_body f info (stream_offset p) captured in
      (with_parser f (advance p n), compressed,
       capture_body && (sat_add body_seen n <=? http_max_body_bytes cfg)) in
  if final_capture then push_decoded f info compressed else f.

Definition finish_fixed (remaining : Z) (info : MessageInfo) (compressed : bytes) (f : Feed) : Feed :=
  let p := fd_parser f in
  let n := Z.min remaining (blen (buffer p)) in
  let d := take (Z.to_nat n) (buffer p) in
  let '(f, compressed) :=
    if 0 <? n
    then (with_parser (push_body f info (stream_offset p) d) (advance p n), collect info compressed d)
    else (f, compressed) in
  if n =? remaining then push_decoded f info compressed else f.

Definition finish_skip (remaining capture_remaining : Z) (info : MessageInfo) (f : Feed) : Feed :=
  let p := fd_parser f in
  let n := Z.min remaining (blen (buffer p)) in
  let k := Z.min n capture_remaining in
  if n =? 0 then f
  else
    let f := if k =? 0 then f
             else push_body f info (stream_offset p) (take (Z.to_nat k) (take (Z.to_nat n) (buffer p))) in
    with_parser f (advance p n).

Definition finish_chunked (info : MessageInfo) (decoder : ChunkedDecoder) (compressed : bytes)
  (body_seen : Z) (capture_body : bool) (f : Feed) : option Feed :=
  let p := fd_parser f in
  let collect_remaining :=
    if capture_body then sat_sub (http_max_body_bytes cfg) body_seen else 0 in
  '(r, _, _) ← consume decoder (buffer p) (http_max_header_bytes cfg) collect_remaining;
  Some match r with
  | Ok result =>
      let '(f, compressed) := push_chunks f info (stream_offset p) compressed (data_chunks result) in
      let body_seen := sat_add body_seen (body_bytes result) in
      let capture_body := capture_body && negb (http_max_body_bytes cfg <? body_seen) in
      let f := with_parser f (advance p (wire_consumed result)) in
      if done_ result && capture_body then push_decoded f info compressed else f
  | Err => f
  end.

Definition finish (f : Feed) : option Feed :=
  let s := body_state (fd_parser f) in
  let f := in_state f Headers in
  f' ← match s with
       | UntilClose info compressed body_seen capture =>
           Some (finish_until_close info compressed body_seen capture f)
       | Fixed remaining info compressed => Some (finish_fixed remaining info compressed f)
       | SkipFixed remaining capture info => Some (finish_skip remaining capture info f)
       | Chunked info decoder compressed body_seen capture =>
           finish_chunked info decoder compressed body_seen capture f
       | Headers => Some f
       end;
  Some match s with
       | UntilClose _ _ _ _ => f'
       | _ => with_parser f' (clear_buffer (fd_parser f'))
       end.

(** ** Both directions of a connection *)

Record HttpConnection := {
  hc_a_to_b : HttpStreamParser;
  hc_b_to_a : HttpStreamParser;
  hc_pending : list RequestKind;
  hc_request_direction : option Direction;
  hc_mode : HttpMode
}.

Definition HttpConnection_new : HttpConnection :=
  {| hc_a_to_b := HttpStreamParser_new; hc_b_to_a := HttpStreamParser_new; hc_pending := [];
     hc_request_direction := None; hc_mode := Http |}.

Definition open (h : HttpConnection) (d : Direction) (ids : nat) : Feed :=
  {| fd_parser := match d with AToB => hc_a_to_b h | BToA => hc_b_to_a h end;
     fd_pending := hc_pending h; fd_request_direction := hc_request_direction h;
     fd_mode := hc_mode h; fd_events := []; fd_errors := 0; fd_ids := ids |}.

Definition close (h : HttpConnection) (d : Direction) (f : Feed) : HttpConnection :=
  {| hc_a_to_b := match d with AToB => fd_parser f | BToA => hc_a_to_b h end;
     hc_b_to_a := match d with AToB => hc_b_to_a h | BToA => fd_parser f end;
     hc_pending := fd_pending f; hc_request_direction := fd_request_direction f;
     hc_mode := fd_mode f |}.

(** The events, the number of parse errors, the connection and the ids drawn. *)
Definition connection_feed (h : HttpConnection) (c : StreamChunk) (ids : nat)
  : option (list HttpEmission * Z * HttpConnection * nat) :=
  if bool_decide (hc_mode h = Tunnel) then Some ([], 0, h, ids)
  else
    f ← feed c (open h (ch_direction c) ids);
    Some (fd_events f, fd_errors f, close h (ch_direction c) f, fd_ids f).

Definition connection_finish (h : HttpConnection) (ids : nat)
  : option (list HttpEmission * HttpConnection * nat) :=
  if bool_decide (hc_mode h = Tunnel) then Some ([], h, ids)
  else
    fa ← finish (open h AToB ids);
    let h := close h AToB fa in
    fb ← finish (open h BToA (fd_ids fa));
    Some (fd_events fa ++ fd_events fb, close h BToA fb, fd_ids fb).
End Parser.
