(* ===== verification/HttpTheorems.v ===== *)
(** * What the HTTP parser promises ([src/src/http/mod.rs])

    Feeding a connection always ends, every record it emits is the stream's bytes
    at the offset it names, and its memory is bounded, whatever bytes it is fed. *)

From stdpp Require Import strings.
From S2P Require Import Prelude Model Services Text Chunked ChunkedSpec HttpHeader Http.

#[local] Arguments consume : simpl never.
#[local] Arguments find_double_crlf_from : simpl never.
#[local] Arguments take : simpl never.
#[local] Arguments drop : simpl never.

Section Spec.
Context `{HttpParse} `{Inflate}.
Context (new_v4 : nat -> Z) (cfg : HttpConfig).

(** The bytes the stream of one direction of a flow may have at each offset. *)
Context (S : Z -> byte -> Prop) (dir : Direction) (own : FlowId -> Prop).

Record config_ok : Prop := {
  cf_header : 0 <= http_max_header_bytes cfg;
  cf_body : 0 <= http_max_body_bytes cfg;
  cf_decode : 0 <= http_max_decode_bytes cfg < u64_MAX
}.

(** ** Genuine records *)

Definition is_decoded (v : ContentView) : bool :=
  match v with HttpRequestDecodedBody | HttpResponseDecodedBody => true | _ => false end.

(** [d] is what the stream has at [offset]. *)
Definition slice_of (offset : Z) (d : bytes) : Prop :=
  forall i b, d !! i = Some b -> S (offset + Z.of_nat i) b.

Definition genuine (r : ContentRecord) : Prop :=
  cr_direction r = dir /\ own (cr_flow_id r) /\ cr_view r <> TcpRaw /\
  (is_decoded (cr_view r) = true \/ slice_of (cr_stream_offset r) (cr_data r)).

Definition event_genuine (e : HttpEmission) : Prop := Forall genuine (he_content e).

Lemma slice_take offset d n : slice_of offset d -> slice_of offset (take n d).
Proof. intros Hd i b Hi. apply lookup_take_Some in Hi as [Hi _]. auto. Qed.

Lemma slice_drop offset d n : slice_of offset d -> slice_of (offset + Z.of_nat n) (drop n d).
Proof.
  intros Hd i b Hi. rewrite lookup_drop in Hi. apply Hd in Hi.
  by replace (offset + Z.of_nat n + Z.of_nat i) with (offset + Z.of_nat (n + i)) by lia.
Qed.

Lemma slice_app offset d d' :
  slice_of offset d -> slice_of (offset + blen d) d' -> slice_of offset (d ++ d').
Proof.
  intros Hd Hd' i b. destruct (decide (i < length d)%nat).
  - rewrite lookup_app_l by done. apply Hd.
  - rewrite lookup_app_r by lia. intros Hi. apply Hd' in Hi.
    replace (offset + Z.of_nat i) with (offset + blen d + Z.of_nat (i - length d)) by (unfold blen; lia). done.
Qed.

(** ** The invariant *)

Definition info_ok (info : MessageInfo) : Prop :=
  is_decoded (mi_decoded_view info) = true /\ mi_body_view info <> TcpRaw /\ mi_direction info = dir /\ own (mi_flow_id info).

Definition compressed_ok (c : bytes) : Prop := blen c <= http_max_decode_bytes cfg.

Definition body_ok (s : BodyState) : Prop :=
  match s with
  | Headers => True
  | Fixed remaining info c => 0 < remaining /\ info_ok info /\ compressed_ok c
  | SkipFixed remaining capture info => 0 < remaining /\ 0 <= capture /\ info_ok info
  | Chunked info d c seen _ =>
      state_ok (state d) /\ 0 <= scan_from d /\ info_ok info /\ compressed_ok c
  | UntilClose info c seen _ => info_ok info /\ compressed_ok c
  end.

Record parser_ok (p : HttpStreamParser) : Prop := {
  po_genuine : slice_of (stream_offset p) (buffer p);
  po_offset : 0 <= stream_offset p /\ stream_offset p + blen (buffer p) <= 2 ^ 62;
  po_next : match next_input_offset p with
            | Some n => n = stream_offset p + blen (buffer p)
            | None => buffer p = []
            end;
  po_scan : 0 <= header_scan_from p;
  po_state : body_ok (body_state p)
}.

Record good (f : Feed) : Prop := {
  gd_parser : fd_mode f = Http -> parser_ok (fd_parser f);
  gd_events : Forall event_genuine (fd_events f);
  gd_pending : blen (fd_pending f) <= HTTP_PENDING_REQUEST_LIMIT
}.

Lemma advance_ok p n :
  parser_ok p -> 0 <= n <= blen (buffer p) -> parser_ok (advance p n).
Proof.
  intros [Hg Ho Hn Hs Hb] Hr.
  assert (blen (drop (Z.to_nat n) (buffer p)) = blen (buffer p) - n) as Hl
    by (unfold blen in *; rewrite length_drop; lia).
  assert (sat_add (stream_offset p) n = stream_offset p + n) as Hsat
    by (apply sat_add_small; unfold u64_MAX; lia).
  split; cbn [advance buffer stream_offset next_input_offset header_scan_from body_state];
    rewrite ?Hl, ?Hsat; [|lia| |done|done].
  - rewrite <- (Z2Nat.id n) at 1 by lia. by apply slice_drop.
  - destruct (next_input_offset p); [lia|]. by rewrite Hn, drop_nil.
Qed.

Lemma set_state_ok p s : parser_ok p -> body_ok s -> parser_ok (set_state p s).
Proof. intros [] ?. by split. Qed.

Lemma set_synced_ok p b : parser_ok p -> parser_ok (set_synced p b).
Proof. intros []. by split. Qed.

Lemma set_scan_ok p n : parser_ok p -> 0 <= n -> parser_ok (set_scan p n).
Proof. intros [] ?. by split. Qed.

Lemma with_parser_good f p : good f -> (fd_mode f = Http -> parser_ok p) -> good (with_parser f p).
Proof. intros [] ?. by split. Qed.

Lemma in_state_good f s : good f -> body_ok s -> good (in_state f s).
Proof. intros Hg Hs. apply with_parser_good; [done|]. intros Hm. apply set_state_ok; [by apply Hg|done]. Qed.

Lemma error_good f : good f -> good (error f).
Proof. intros []. by split. Qed.

Lemma desync_good f : good f -> good (desync f).
Proof.
  intros []. split; simpl; [|done|by vm_compute]. intros Hm. by apply set_synced_ok, gd_parser0.
Qed.

Lemma push_good f e n : good f -> event_genuine e -> good (push f e n).
Proof. intros [] He. split; simpl; [done| |done]. apply Forall_app. by split; [|constructor]. Qed.

Lemma push_body_good f info offset d :
  good f -> info_ok info -> slice_of offset d -> good (push_body new_v4 f info offset d).
Proof.
  intros Hg (_ & Hv & Hi & Hf) Hd. apply push_good; [done|]. apply Forall_singleton.
  split; [done|]. split; [done|]. split; [done|by right].
Qed.

Lemma push_decoded_good f info c : good f -> info_ok info -> good (push_decoded new_v4 cfg f info c).
Proof.
  intros Hg (Hi & _ & Hd & Hf). unfold push_decoded, decoded_record.
  destruct (_ || _); [done|]. destruct (_ =? 0); [done|].
  destruct (match mi_encoding info with Identity => _ | Gzip => _ | Deflate => _ end); [|done].
  apply push_good; [done|]. apply Forall_singleton. split; [done|]. split; [done|].
  split; [by intros E; cbn in E; rewrite E in Hi|by left].
Qed.

Lemma push_decoded_same f info c :
  fd_parser (push_decoded new_v4 cfg f info c) = fd_parser f /\
  fd_mode (push_decoded new_v4 cfg f info c) = fd_mode f /\
  fd_pending (push_decoded new_v4 cfg f info c) = fd_pending f.
Proof. unfold push_decoded. by destruct (decoded_record _ _ _ _). Qed.

Context (cfg_ok : config_ok).

Lemma collect_ok info c d : compressed_ok c -> compressed_ok (collect cfg info c d).
Proof.
  intros Hc. unfold collect. destruct (_ && _) eqn:E; [|done]. reflect_bools.
  pose proof (cf_decode cfg_ok). unfold compressed_ok. rewrite blen_app. unfold sat_add in *. lia.
Qed.

(** ** Message heads *)

Lemma looks_nonempty v : looks_like_http_start v = true -> 0 < blen v.
Proof. destruct v; [done|]. intros _. rewrite blen_cons. pose proof (blen_nonneg v). lia. Qed.

Lemma newline_start_range v : forall idx pos,
  http_start_after_newline v idx = Some pos -> idx < pos <= idx + blen v.
Proof.
  induction v as [|b v IH]; simpl; intros idx pos; [done|]. rewrite blen_cons. pose proof (blen_nonneg v).
  destruct (_ && _); [intros [= <-]; lia|]. intros Hp. apply IH in Hp. lia.
Qed.

Lemma http_start_range v pos : find_plausible_http_start v = Some pos -> 0 <= pos <= blen v.
Proof.
  unfold find_plausible_http_start. pose proof (blen_nonneg v). destruct (looks_like_http_start v).
  - intros [= <-]. lia.
  - intros Hp%newline_start_range. lia.
Qed.

Lemma trim_ok p :
  parser_ok p -> next_input_offset p <> None ->
  parser_ok (trim_desynced_suffix p) /\ blen (buffer (trim_desynced_suffix p)) <= HTTP_RESYNC_SUFFIX /\
  body_state (trim_desynced_suffix p) = body_state p /\
  next_input_offset (trim_desynced_suffix p) = next_input_offset p.
Proof.
  intros Hp Hn. unfold trim_desynced_suffix. pose proof (blen_nonneg (buffer p)).
  unfold sat_sub, HTTP_RESYNC_SUFFIX. destruct (_ =? 0) eqn:E; reflect_bools; [split; [done|]; split; [lia|done]|].
  split; [apply advance_ok; [done|lia]|]. split; [|done].
  simpl. unfold blen in *. rewrite length_drop. lia.
Qed.

Lemma resync_ok p ready p' :
  parser_ok p -> next_input_offset p <> None -> resync_to_http_start p = (ready, p') ->
  parser_ok p' /\ blen (buffer p') <= blen (buffer p) /\ next_input_offset p' = next_input_offset p /\
  if ready then True else blen (buffer p') <= HTTP_RESYNC_SUFFIX.
Proof.
  intros Hp Hn. unfold resync_to_http_start.
  destruct (find_plausible_http_start (buffer p)) as [pos|] eqn:E; intros [= <- <-].
  - apply http_start_range in E.
    assert (parser_ok (if pos =? 0 then p else advance p pos)) as Hp1.
    { destruct (_ =? 0); [done|]. by apply advance_ok. }
    split; [by apply set_scan_ok; [apply set_synced_ok|]|].
    destruct (pos =? 0); simpl; [done|]. split; [|done]. unfold blen in *. rewrite length_drop. lia.
  - destruct (trim_ok p Hp Hn) as (H1 & H2 & _ & H4). split; [done|]. split; [|done].
    unfold trim_desynced_suffix. destruct (_ =? 0); simpl; [done|].
    unfold blen in *. rewrite length_drop. lia.
Qed.

(** The buffer left when the loop ends. *)
Definition bound : Z := Z.max (http_max_header_bytes cfg) HTTP_RESYNC_SUFFIX.

Definition rank (s : BodyState) : nat := match s with Headers => 0 | _ => 1 end.
Definition measure (f : Feed) : nat :=
  (2 * length (buffer (fd_parser f)) + rank (body_state (fd_parser f)))%nat.

Definition fed (f : Feed) : Prop := next_input_offset (fd_parser f) <> None.

(** What one step establishes. *)
Definition step_ok (f : Feed) (l : Loop) : Prop :=
  match l with
  | Next f' => good f' /\ fd_mode f' = Http /\ fed f' /\ (measure f' < measure f)%nat
  | Break f' => good f' /\ (fd_mode f' = Http -> fed f' /\ blen (buffer (fd_parser f')) <= bound)
  end.

Lemma desync_parser f : fd_parser (desync f) = set_synced (fd_parser f) false.
Proof. done. Qed.

Lemma correlate_ok f c parsed d f' :
  good f -> correlate f c parsed = (d, f') ->
  good f' /\ fd_parser f' = fd_parser f /\ fd_mode f' = fd_mode f.
Proof.
  intros [Hp He Hl]. unfold correlate. unfold HTTP_PENDING_REQUEST_LIMIT in *.
  assert (forall l : list RequestKind, blen (List.tl l) <= blen l) as Htl.
  { intros [|x l]; simpl; [done|]. rewrite blen_cons. lia. }
  destruct (ph_request parsed).
  - cbn [fd_pending set_request_direction]. destruct (_ <=? _) eqn:E; reflect_bools; intros [= <- <-];
      (split; [split; simpl; [done|done|]|done]); rewrite blen_app, blen_cons, blen_nil;
      unfold HTTP_PENDING_REQUEST_LIMIT; [|lia].
    destruct (fd_pending f) as [|x l]; simpl.
    + rewrite blen_nil. lia.
    + rewrite blen_cons in Hl. lia.
  - intros [= <- <-]. destruct (is_informational _); [by split; [split|]|].
    split; [|done]. split; simpl; [done|done|]. specialize (Htl (fd_pending f)).
    unfold HTTP_PENDING_REQUEST_LIMIT. lia.
Qed.

Lemma message_info_ok c parsed d :
  ch_direction c = dir -> own (ch_flow_id c) -> info_ok (message_info c parsed d).
Proof. intros Hc Hf. split; simpl; [by destruct (ph_request parsed)|]. split; [by destruct (ph_request parsed)|done]. Qed.

Lemma nil_ok : compressed_ok [].
Proof. unfold compressed_ok. rewrite blen_nil. apply cfg_ok. Qed.

Lemma body_after_ok f parsed kind info :
  good f -> info_ok info -> (forall n, ph_content_length parsed = Some n -> 0 <= n) ->
  good (body_after cfg f parsed kind info) /\
  buffer (fd_parser (body_after cfg f parsed kind info)) = buffer (fd_parser f) /\
  next_input_offset (fd_parser (body_after cfg f parsed kind info)) = next_input_offset (fd_parser f) /\
  fd_mode (body_after cfg f parsed kind info) = fd_mode f.
Proof.
  intros Hg Hi Hlen. unfold body_after. pose proof nil_ok. pose proof (cf_body cfg_ok).
  destruct (_ || _); [split; [by apply in_state_good|done]|].
  destruct (ph_has_transfer_encoding parsed).
  - destruct (ph_transfer_final_chunked parsed); [split; [by apply in_state_good|done]|].
    destruct (ph_request parsed); (split; [apply in_state_good; [|done]|done]); [by apply desync_good|done].
  - destruct (ph_content_length parsed) as [len|]; [|split; [by apply in_state_good|done]].
    specialize (Hlen len eq_refl).
    destruct (len =? 0) eqn:E0; reflect_bools; [split; [by apply in_state_good|done]|].
    destruct (_ <? len); (split; [apply in_state_good; [done|]|done]); simpl; (split; [lia|done]).
Qed.

Lemma double_crlf_range v scan p :
  find_double_crlf_from v scan = Some p -> 0 <= scan -> 0 <= p /\ p + 4 <= blen v.
Proof.
  unfold find_double_crlf_from. destruct (blen v <? 4) eqn:E; [done|]; reflect_bools.
  intros (q & Hq & ->)%fmap_Some Hs. apply window_position_range in Hq; [|done].
  change (blen double_crlf) with 4 in Hq. unfold blen, sat_sub in *. rewrite length_drop in Hq. lia.
Qed.

Lemma buffer_advance p n : 0 <= n <= blen (buffer p) -> blen (buffer (advance p n)) = blen (buffer p) - n.
Proof. intros Hn. simpl. unfold blen in *. rewrite length_drop. lia. Qed.

(** A head that parsed, its bytes already taken off the buffer. *)
Lemma on_header_ok f0 f c parsed offset header :
  ch_direction c = dir -> own (ch_flow_id c) -> good f -> fd_mode f = Http -> fed f -> slice_of offset header ->
  (forall n, ph_content_length parsed = Some n -> 0 <= n) ->
  (2 * length (buffer (fd_parser f)) + 1 < measure f0)%nat ->
  step_ok f0 (on_header new_v4 cfg f c parsed offset header).
Proof.
  intros Hdir Hflow Hg Hm Hfed Hsl Hlen Hmeas. unfold on_header.
  set (f1 := if ph_ambiguous_framing parsed then error f else f).
  assert (good f1 /\ fd_parser f1 = fd_parser f /\ fd_mode f1 = fd_mode f) as (G1 & P1 & M1)
    by (subst f1; destruct (ph_ambiguous_framing parsed); [split; [by apply error_good|done]|done]).
  destruct (correlate f1 c parsed) as [d f2] eqn:E2.
  apply (correlate_ok _ _ _ _ _ G1) in E2 as (G2 & P2 & M2).
  set (f3 := push f2 _ 2).
  assert (good f3) as G3.
  { apply push_good; [done|]. apply Forall_singleton. split; [done|]. split; [done|].
    split; [cbn; by destruct (ph_request parsed)|by right]. }
  destruct (_ || _).
  - split; [|by intros Hc]. apply with_parser_good; [by destruct G3; split|]. by intros Hc.
  - destruct (body_after_ok f3 parsed (if ph_request parsed then None else head (fd_pending f1))
      (message_info c parsed d)) as (G4 & B4 & N4 & M4); [done|by apply message_info_ok|done|].
    split; [done|]. split; [rewrite M4; simpl; congruence|]. unfold fed. rewrite N4. simpl.
    rewrite P2, P1. split; [done|]. unfold measure at 1. rewrite B4. simpl. rewrite P2, P1.
    destruct (body_state _); simpl; lia.
Qed.

Lemma headers_step_ok c f :
  ch_direction c = dir -> own (ch_flow_id c) -> good f -> fd_mode f = Http -> fed f -> body_state (fd_parser f) = Headers ->
  step_ok f (headers_step new_v4 cfg c f).
Proof.
  intros Hdir Hflow Hg Hm Hfed Hst. pose proof (gd_parser _ Hg Hm) as Hp. unfold headers_step.
  destruct (if synced (fd_parser f) then _ else _) as [ready p] eqn:Er.
  assert (parser_ok p /\ blen (buffer p) <= blen (buffer (fd_parser f)) /\
    next_input_offset p = next_input_offset (fd_parser f) /\
    if ready then True else blen (buffer p) <= HTTP_RESYNC_SUFFIX) as (Hp1 & Hb1 & Hn1 & Hr).
  { destruct (synced (fd_parser f)); [by injection Er as <- <-|]. by apply resync_ok in Er. }
  assert (forall q, parser_ok q -> next_input_offset q = next_input_offset p -> blen (buffer q) <= bound ->
    step_ok f (Break (with_parser f (set_state q Headers)))) as Hbreak.
  { intros q Hq Hnq Hbq. split; [apply with_parser_good; [done|]; intros _; by apply set_state_ok|].
    intros _. unfold fed. simpl. rewrite Hnq, Hn1. done. }
  destruct ready; cbn [negb].
  2: { apply Hbreak; [done|done|]. unfold bound. lia. }
  assert (next_input_offset p <> None) as Hne by (by rewrite Hn1).
  destruct (find_double_crlf_from (buffer p) (header_scan_from p)) as [e|] eqn:Ee.
  - apply double_crlf_range in Ee as [He0 He]; [|apply Hp1].
    set (f1 := with_parser f _).
    assert (parser_ok (set_state (advance (set_scan p 0) (e + 4)) Headers)) as Hp2.
    { apply set_state_ok; [|done]. apply advance_ok; [by apply set_scan_ok|simpl; lia]. }
    assert (good f1) as G1 by (by apply with_parser_good).
    assert (2 * length (buffer (fd_parser f1)) + 1 < measure f)%nat as Hmeas.
    { unfold measure. rewrite Hst. subst f1. simpl. unfold blen in *. rewrite length_drop. lia. }
    destruct (parse_header _) as [parsed|] eqn:Eh.
    + apply on_header_ok; [done|done|done|done|by unfold fed|apply slice_take, Hp1| |done].
      intros n Hn. by eapply parse_header_length.
    + split; [by apply desync_good|]. split; [done|]. split; [by unfold fed|].
      unfold measure at 1. subst f1. simpl in *. lia.
  - destruct (_ <? _) eqn:El; reflect_bools.
    + rewrite desync_parser. cbn [fd_parser with_parser].
      destruct (trim_ok (set_scan (set_synced p false) 0)) as (T1 & T2 & _ & T4);
        [by apply set_scan_ok, Z.le_refl; apply set_synced_ok|done|].
      split.
      * apply with_parser_good; [apply desync_good; by apply with_parser_good|]. intros _. by apply set_state_ok.
      * intros _. unfold fed. simpl. rewrite T4. split; [done|]. unfold bound.
        change (blen (buffer (trim_desynced_suffix (set_scan (set_synced p false) 0))) <=
          http_max_header_bytes cfg `max` HTTP_RESYNC_SUFFIX). lia.
    + apply Hbreak; [apply set_scan_ok; [done|unfold sat_sub; lia]|done|]. unfold bound. simpl. lia.
Qed.

(** ** Bodies *)

(** A step that took [n > 0] bytes and goes on to the next head. *)
Lemma next_head f0 f p n :
  good f -> fd_mode f = Http -> fd_parser f = advance p n -> fd_parser f0 = p -> parser_ok p ->
  next_input_offset p <> None -> 0 < n <= blen (buffer p) ->
  step_ok f0 (Next (in_state f Headers)).
Proof.
  intros Hg Hm Hf Hf0 Hp Hne Hn. split; [by apply in_state_good|]. split; [done|].
  unfold fed, measure. simpl. rewrite Hf, Hf0. simpl. split; [done|].
  unfold blen in Hn. rewrite length_drop. lia.
Qed.

(** A step that left the buffer empty and waits. *)
Lemma wait_body f0 f s :
  good f -> body_ok s -> fed f -> buffer (fd_parser f) = [] -> step_ok f0 (Break (in_state f s)).
Proof.
  intros Hg Hs Hfed Hb. split; [by apply in_state_good|]. intros _. split; [done|]. simpl.
  rewrite Hb, blen_nil. unfold bound, HTTP_RESYNC_SUFFIX. lia.
Qed.

Lemma empty_buffer f :
  good f -> fed f -> is_empty (buffer (fd_parser f)) = true -> step_ok f (Break f).
Proof.
  intros Hg Hfed He. apply is_empty_spec in He. split; [done|]. intros _. split; [done|].
  rewrite He, blen_nil. unfold bound, HTTP_RESYNC_SUFFIX. lia.
Qed.

Lemma nonempty_pos {A} (l : list A) : is_empty l = false -> 0 < blen l.
Proof. intros He. apply blen_pos. by intros ->. Qed.

Lemma drop_all (l : bytes) n : blen l <= n -> drop (Z.to_nat n) l = [].
Proof. intros Hn. apply drop_ge. unfold blen in Hn. lia. Qed.

Lemma fixed_step_ok remaining info comp f :
  good f -> fd_mode f = Http -> fed f -> body_state (fd_parser f) = Fixed remaining info comp ->
  step_ok f (fixed_step new_v4 cfg remaining info comp f).
Proof.
  intros Hg Hm Hfed Hst. pose proof (gd_parser _ Hg Hm) as Hp.
  pose proof (po_state _ Hp) as Hb. rewrite Hst in Hb. destruct Hb as (Hrem & Hi & Hc).
  unfold fixed_step. destruct (is_empty _) eqn:He; [by apply empty_buffer|]. apply nonempty_pos in He.
  set (p := fd_parser f) in *. set (n := Z.min remaining (blen (buffer p))).
  set (f1 := with_parser _ (advance p n)).
  assert (good f1) as G1.
  { apply with_parser_good; [apply push_body_good; [done|done|apply slice_take, Hp]|].
    intros _. apply advance_ok; [done|lia]. }
  destruct (_ =? 0) eqn:El; reflect_bools.
  - destruct (push_decoded_same f1 info (collect cfg info comp (take (Z.to_nat n) (buffer p)))) as (P & M & _).
    apply (next_head f _ p n); [by apply push_decoded_good|by rewrite M|by rewrite P|done|done|done|lia].
  - apply wait_body; [done|split; [lia|split; [done|by apply collect_ok]]|done|]. simpl.
    apply drop_all. lia.
Qed.

Lemma skip_step_ok remaining capture info f :
  good f -> fd_mode f = Http -> fed f -> body_state (fd_parser f) = SkipFixed remaining capture info ->
  step_ok f (skip_step new_v4 remaining capture info f).
Proof.
  intros Hg Hm Hfed Hst. pose proof (gd_parser _ Hg Hm) as Hp.
  pose proof (po_state _ Hp) as Hb. rewrite Hst in Hb. destruct Hb as (Hrem & Hcap & Hi).
  unfold skip_step. destruct (is_empty _) eqn:He; [by apply empty_buffer|]. apply nonempty_pos in He.
  set (p := fd_parser f) in *. set (n := Z.min remaining (blen (buffer p))). set (k := Z.min n capture).
  set (f1 := with_parser _ (advance p n)).
  assert (good f1 /\ fd_mode f1 = Http) as [G1 M1].
  { subst f1. assert (parser_ok (advance p n)) by (by apply advance_ok; [|lia]).
    destruct (k =? 0); (split; [apply with_parser_good; [|done]|done]); [done|].
    apply push_body_good; [done|done|]. apply slice_take, slice_take, Hp. }
  destruct (remaining - n =? 0) eqn:El; reflect_bools.
  - by apply (next_head f _ p n); [| | | | | |lia].
  - apply wait_body; [done|simpl; split; [lia|split; [lia|done]]|done|]. simpl. apply drop_all. lia.
Qed.

Lemma push_chunks_ok info base buf chunks : info_ok info -> forall f comp,
  good f -> compressed_ok comp -> slice_of base buf -> 0 <= base -> base + blen buf <= 2 ^ 62 ->
  Forall (fun c => 0 <= relative_offset c /\ relative_offset c + blen (data c) <= blen buf /\
    data c = take (length (data c)) (drop (Z.to_nat (relative_offset c)) buf)) chunks ->
  let '(f', comp') := push_chunks new_v4 cfg f info base comp chunks in
  good f' /\ fd_parser f' = fd_parser f /\ fd_mode f' = fd_mode f /\ compressed_ok comp'.
Proof.
  intros Hi. induction chunks as [|c chunks IH]; intros f comp Hg Hc Hs Hb Hl Hall; simpl; [done|].
  apply Forall_cons in Hall as [(Hr0 & Hr1 & Hd) Hall]. pose proof (blen_nonneg (data c)).
  set (f1 := push_body _ f info _ _).
  assert (good f1) as G1.
  { apply push_body_good; [done|done|]. rewrite sat_add_small by (unfold u64_MAX; lia).
    rewrite Hd. apply slice_take. rewrite <- (Z2Nat.id (relative_offset c)) at 1 by done. by apply slice_drop. }
  specialize (IH f1 (collect cfg info comp (data c)) G1 (collect_ok _ _ _ Hc) Hs Hb Hl Hall).
  by destruct (push_chunks _ _ f1 _ _ _ _).
Qed.

Lemma chunked_step_ok info d comp seen cap f :
  good f -> fd_mode f = Http -> fed f -> body_state (fd_parser f) = Chunked info d comp seen cap ->
  exists l, chunked_step new_v4 cfg info d comp seen cap f = Some l /\ step_ok f l.
Proof.
  intros Hg Hm Hfed Hst. pose proof (gd_parser _ Hg Hm) as Hp.
  pose proof (po_state _ Hp) as Hb. rewrite Hst in Hb. destruct Hb as (Hd & Hsc & Hi & Hc).
  unfold chunked_step. destruct (is_empty _) eqn:He; [eexists; split; [done|by apply empty_buffer]|].
  apply nonempty_pos in He. set (p := fd_parser f) in *. set (cr := if cap then _ else _).
  destruct (consume_spec d (buffer p) (http_max_header_bytes cfg) cr Hd Hsc)
    as (r & d' & k & -> & Hk & Hd' & Hsc' & Hr). simpl.
  assert (sat_sub (blen (buffer p)) (blen (drop k (buffer p))) = Z.of_nat k) as ->.
  { unfold sat_sub, blen. rewrite length_drop. lia. }
  assert (parser_ok (advance p (Z.of_nat k))) as Hadv by (apply advance_ok; [done|unfold blen; lia]).
  destruct r as [result|]; eexists; (split; [done|]).
  - destruct Hr as (Hw & Hall & Hwait). rewrite Hw.
    pose proof (po_offset _ Hp) as [Ho1 Ho2].
    pose proof (push_chunks_ok info (stream_offset p) (buffer p) (data_chunks result) Hi f comp Hg Hc
      (po_genuine _ Hp) Ho1 Ho2 Hall) as Hpc.
    destruct (push_chunks _ _ f _ _ _ _) as [f1 comp1]. destruct Hpc as (G1 & P1 & M1 & C1).
    set (f2 := with_parser f1 _).
    assert (good f2) as G2 by (by apply with_parser_good).
    destruct (done_ result) eqn:Edone.
    + set (f3 := if _ : bool then _ else f2).
      assert (good f3 /\ fd_parser f3 = advance p (Z.of_nat k) /\ fd_mode f3 = Http) as (G3 & P3 & M3).
      { subst f3. destruct (_ && _); [|split; [done|]; split; [done|simpl; congruence]].
        destruct (push_decoded_same f2 info comp1) as (-> & -> & _).
        split; [by apply push_decoded_good|]. split; [done|simpl; congruence]. }
      split; [by apply in_state_good|]. split; [done|]. unfold fed, measure. fold p. rewrite Hst. simpl. rewrite P3. simpl.
      split; [done|]. rewrite length_drop. lia.
    + set (f3 := in_state f2 _).
      assert (good f3) as G3 by (by apply in_state_good).
      destruct (Z.of_nat k =? 0) eqn:Ek; reflect_bools.
      * split; [done|]. intros _. split; [done|]. destruct Hwait as [|Hwait]; [congruence|].
        simpl. rewrite Nat2Z.id. unfold bound, HTTP_RESYNC_SUFFIX. pose proof (cf_header cfg_ok). lia.
      * split; [done|]. split; [simpl; congruence|]. split; [done|]. unfold measure. fold p. rewrite Hst. simpl.
        rewrite length_drop. lia.
  - split; [apply in_state_good; [|done]; apply desync_good; by apply with_parser_good|].
    split; [done|]. split; [done|]. unfold measure. fold p. rewrite Hst. simpl. rewrite length_drop. lia.
Qed.

Lemma until_close_step_ok info comp seen cap f :
  good f -> fd_mode f = Http -> fed f -> body_state (fd_parser f) = UntilClose info comp seen cap ->
  step_ok f (until_close_step new_v4 cfg info comp seen cap f).
Proof.
  intros Hg Hm Hfed Hst. pose proof (gd_parser _ Hg Hm) as Hp.
  pose proof (po_state _ Hp) as Hb. rewrite Hst in Hb. destruct Hb as (Hi & Hc).
  unfold until_close_step. destruct (is_empty _) eqn:He; [by apply empty_buffer|].
  set (p := fd_parser f) in *. set (k := if cap then _ else _).
  set (f1 := if k =? 0 then f else _).
  assert (good f1 /\ fd_mode f1 = Http) as [G1 M1].
  { subst f1. destruct (k =? 0); [done|]. split; [|done]. apply push_body_good; [done|done|]. apply slice_take, Hp. }
  pose proof (blen_nonneg (buffer p)).
  apply wait_body; [|split; [done|destruct (k =? 0); [done|by apply collect_ok]]|done|simpl; by apply drop_all].
  apply with_parser_good; [done|]. intros _. apply advance_ok; [done|lia].
Qed.

Lemma feed_step_ok c f :
  ch_direction c = dir -> own (ch_flow_id c) -> good f -> fd_mode f = Http -> fed f ->
  exists l, feed_step new_v4 cfg c f = Some l /\ step_ok f l.
Proof.
  intros Hdir Hflow Hg Hm Hfed. unfold feed_step. destruct (body_state (fd_parser f)) eqn:Hst;
    [eexists; split; [done|]..| |eexists; split; [done|]].
  - by apply headers_step_ok.
  - by apply fixed_step_ok.
  - by apply skip_step_ok.
  - by apply chunked_step_ok.
  - by apply until_close_step_ok.
Qed.

(** ** One chunk *)

Lemma feed_loop_ok fuel : forall c f,
  ch_direction c = dir -> own (ch_flow_id c) -> good f -> fd_mode f = Http -> fed f -> (measure f < fuel)%nat ->
  exists f', feed_loop new_v4 cfg fuel c f = Some f' /\ good f' /\
    (fd_mode f' = Http -> fed f' /\ blen (buffer (fd_parser f')) <= bound).
Proof.
  induction fuel as [|fuel IH]; intros c f Hdir Hflow Hg Hm Hfed Hf; [lia|]. simpl.
  destruct (feed_step_ok c f Hdir Hflow Hg Hm Hfed) as ([f'|f'] & -> & Hs); simpl.
  - destruct Hs as (G & M & F & L). apply IH; [done|done|done|done|done|lia].
  - destruct Hs as [G B]. eauto.
Qed.

(** The chunk is the stream's bytes at its offset, below 2^62. *)
Record chunk_ok (c : StreamChunk) : Prop := {
  ck_direction : ch_direction c = dir;
  ck_flow : own (ch_flow_id c);
  ck_offset : 0 <= ch_offset c /\ ch_offset c + blen (ch_data c) <= 2 ^ 62;
  ck_data : slice_of (ch_offset c) (ch_data c)
}.

Lemma start_chunk_ok c f :
  good f -> fd_mode f = Http -> chunk_ok c ->
  good (start_chunk c f) /\ fd_mode (start_chunk c f) = Http /\ fed (start_chunk c f).
Proof.
  intros Hg Hm [_ _ [Ho Hl] Hd]. pose proof (gd_parser _ Hg Hm) as [Pg Po Pn Ps Pb].
  assert (sat_add (ch_offset c) (blen (ch_data c)) = ch_offset c + blen (ch_data c)) as Hsat
    by (apply sat_add_small; unfold u64_MAX; lia).
  assert (parser_ok (enter c (fd_parser f)) /\ next_input_offset (enter c (fd_parser f)) <> None) as [Hp' Hn'].
  { unfold enter, is_gap. rewrite Hsat.
    destruct (next_input_offset (fd_parser f)) as [e|]; [destruct (negb (e =? ch_offset c)) eqn:E; reflect_bools|];
      (split; [|by repeat case_match]).
    - by split.
    - rewrite bool_decide_eq_false_2 by done. split; simpl; rewrite ?blen_app; [|lia|lia|done|done].
      apply slice_app; [done|]. by replace (stream_offset (fd_parser f) + blen (buffer (fd_parser f))) with (ch_offset c) by lia.
    - rewrite bool_decide_eq_true_2 by done. rewrite Pn. by split. }
  unfold start_chunk. assert (good (with_parser f (enter c (fd_parser f)))) as Gw by (by apply with_parser_good).
  destruct (is_gap c (fd_parser f)); [|done]. split; [|done]. destruct Gw. split; simpl; [done|done|].
  rewrite blen_nil. unfold HTTP_PENDING_REQUEST_LIMIT. lia.
Qed.

Lemma feed_ok c f :
  good f -> fd_mode f = Http -> chunk_ok c ->
  exists f', feed new_v4 cfg c f = Some f' /\ good f' /\
    (fd_mode f' = Http -> fed f' /\ blen (buffer (fd_parser f')) <= bound).
Proof.
  intros Hg Hm Hc. unfold feed. destruct (start_chunk_ok c f Hg Hm Hc) as (G & M & F).
  apply feed_loop_ok; [apply Hc|apply Hc|done|done|done|]. unfold measure, feed_fuel.
  destruct (body_state _); simpl; lia.
Qed.

(** ** The end of the stream *)

Lemma finish_until_close_ok info comp seen cap f :
  good f -> fd_mode f = Http -> info_ok info -> compressed_ok comp ->
  good (finish_until_close new_v4 cfg info comp seen cap f).
Proof.
  intros Hg Hm Hi Hc. pose proof (gd_parser _ Hg Hm) as Hp. unfold finish_until_close.
  destruct (is_empty _).
  - destruct cap; [by apply push_decoded_good|done].
  - set (k := if cap then _ else _). set (f1 := if k =? 0 then f else _).
    assert (good f1) as G1.
    { subst f1. destruct (k =? 0); [done|]. apply push_body_good; [done|done|]. apply slice_take, Hp. }
    pose proof (blen_nonneg (buffer (fd_parser f))).
    assert (good (with_parser f1 (advance (fd_parser f) (blen (buffer (fd_parser f)))))) as G2
      by (apply with_parser_good; [done|]; intros _; apply advance_ok; [done|lia]).
    destruct (_ && _); [by apply push_decoded_good|done].
Qed.

Lemma finish_fixed_ok remaining info comp f :
  good f -> fd_mode f = Http -> 0 < remaining -> info_ok info -> compressed_ok comp ->
  good (finish_fixed new_v4 cfg remaining info comp f).
Proof.
  intros Hg Hm Hr Hi Hc. pose proof (gd_parser _ Hg Hm) as Hp. unfold finish_fixed.
  pose proof (blen_nonneg (buffer (fd_parser f))). set (n := Z.min _ _).
  destruct (0 <? n) eqn:En; reflect_bools.
  - set (f1 := with_parser _ _).
    assert (good f1) as G1.
    { apply with_parser_good; [apply push_body_good; [done|done|apply slice_take, Hp]|].
      intros _. apply advance_ok; [done|lia]. }
    destruct (_ =? _); [by apply push_decoded_good|done].
  - destruct (_ =? _); [by apply push_decoded_good|done].
Qed.

Lemma finish_skip_ok remaining capture info f :
  good f -> fd_mode f = Http -> 0 < remaining -> info_ok info ->
  good (finish_skip new_v4 remaining capture info f).
Proof.
  intros Hg Hm Hr Hi. pose proof (gd_parser _ Hg Hm) as Hp. unfold finish_skip.
  pose proof (blen_nonneg (buffer (fd_parser f))). set (n := Z.min _ (blen _)).
  destruct (n =? 0); [done|]. set (k := Z.min n capture). set (f1 := if k =? 0 then f else _).
  assert (good f1) as G1.
  { subst f1. destruct (k =? 0); [done|]. apply push_body_good; [done|done|].
    apply slice_take, slice_take, Hp. }
  apply with_parser_good; [done|]. intros _. apply advance_ok; [done|lia].
Qed.

Lemma finish_chunked_ok info d comp seen cap f :
  good f -> fd_mode f = Http -> state_ok (state d) -> 0 <= scan_from d -> info_ok info ->
  compressed_ok comp -> exists f', finish_chunked new_v4 cfg info d comp seen cap f = Some f' /\ good f'.
Proof.
  intros Hg Hm Hd Hsc Hi Hc. pose proof (gd_parser _ Hg Hm) as Hp. unfold finish_chunked.
  set (cr := if cap then _ else _).
  destruct (consume_spec d (buffer (fd_parser f)) (http_max_header_bytes cfg) cr Hd Hsc)
    as (r & d' & k & -> & Hk & _ & _ & Hr). simpl. destruct r as [result|]; [|eauto].
  destruct Hr as (Hw & Hall & _). rewrite Hw. pose proof (po_offset _ Hp) as [Ho1 Ho2].
  pose proof (push_chunks_ok info (stream_offset (fd_parser f)) (buffer (fd_parser f))
    (data_chunks result) Hi f comp Hg Hc (po_genuine _ Hp) Ho1 Ho2 Hall) as Hpc.
  destruct (push_chunks _ _ f _ _ _ _) as [f1 comp1]. destruct Hpc as (G1 & P1 & M1 & C1).
  assert (good (with_parser f1 (advance (fd_parser f) (Z.of_nat k)))) as G2.
  { apply with_parser_good; [done|]. intros _. apply advance_ok; [done|unfold blen; lia]. }
  eexists. split; [done|]. destruct (_ && _); [by apply push_decoded_good|done].
Qed.

(** The events of [finish] are genuine; the parser is not used again. *)
Lemma finish_ok f :
  good f -> fd_mode f = Http -> exists f', finish new_v4 cfg f = Some f' /\
    Forall event_genuine (fd_events f') /\ blen (fd_pending f') <= HTTP_PENDING_REQUEST_LIMIT.
Proof.
  intros Hg Hm. unfold finish. set (f0 := in_state f Headers).
  assert (good f0) as G0 by (by apply in_state_good).
  pose proof (po_state _ (gd_parser _ Hg Hm)) as Hb.
  assert (forall f' : Feed, good f' -> exists f'', Some (with_parser f' (clear_buffer (fd_parser f'))) = Some f'' /\
    Forall event_genuine (fd_events f'') /\ blen (fd_pending f'') <= HTTP_PENDING_REQUEST_LIMIT) as Hclear.
  { intros f' [_ ? ?]. eexists. split; [done|]. by split. }
  destruct (body_state (fd_parser f)) as [|r info c|r k info|info d c s cap|info c s cap]; simpl in Hb |- *.
  - by apply Hclear.
  - destruct Hb as (? & ? & ?). apply Hclear. by apply finish_fixed_ok.
  - destruct Hb as (? & ? & ?). apply Hclear. by apply finish_skip_ok.
  - destruct Hb as (? & ? & ? & ?).
    destruct (finish_chunked_ok info d c s cap f0) as (f' & -> & G'); [done..|]. by apply Hclear.
  - destruct Hb as (? & ?). eexists. split; [done|].
    by destruct (finish_until_close_ok info c s cap f0) as [_ ? ?].
Qed.

Lemma push_chunks_mode info base chunks : forall f comp,
  fd_mode (push_chunks new_v4 cfg f info base comp chunks).1 = fd_mode f.
Proof. induction chunks as [|c chunks IH]; intros f comp; simpl; [done|]. by rewrite IH. Qed.

Lemma finish_mode f f' : finish new_v4 cfg f = Some f' -> fd_mode f' = fd_mode f.
Proof.
  assert (forall f info c, fd_mode (push_decoded new_v4 cfg f info c) = fd_mode f) as Hd
    by (intros; apply push_decoded_same).
  unfold finish. destruct (body_state (fd_parser f)) as [|r info c|r k info|info d c s cap|info c s cap]; simpl.
  - by intros [= <-].
  - intros [= <-]. simpl. unfold finish_fixed. repeat case_match; simplify_eq/=; by rewrite ?Hd.
  - intros [= <-]. simpl. unfold finish_skip. by repeat case_match; simplify_eq/=.
  - unfold finish_chunked. destruct (consume _ _ _ _) as [[[r d'] b]|]; [|done]. simpl.
    intros [= <-]. simpl. destruct r as [result|]; [|done].
    pose proof (push_chunks_mode info (stream_offset (fd_parser f)) (data_chunks result)
      (in_state f Headers) c) as Hm.
    destruct (push_chunks _ _ _ _ _ _ _) as [f1 c1]. simpl in Hm.
    destruct (_ && _); rewrite ?Hd; done.
  - intros [= <-]. unfold finish_until_close. repeat case_match; simplify_eq/=; by rewrite ?Hd.
Qed.
End Spec.

(** * Properties of the HTTP parser, for both directions of a connection
    ([src/src/http/mod.rs]) *)

Section Connection.
Context `{HttpParse} `{Inflate}.
Context (new_v4 : nat -> Z) (cfg : HttpConfig).

(** Successive chunks of a connection: all events, and the connection after them. *)
Fixpoint feed_all (h : HttpConnection) (chunks : list StreamChunk) (ids : nat)
  : option (list HttpEmission * HttpConnection * nat) :=
  match chunks with
  | [] => Some ([], h, ids)
  | c :: chunks =>
      '(events, _, h, ids) ← connection_feed new_v4 cfg h c ids;
      '(more, h, ids) ← feed_all h chunks ids;
      Some (events ++ more, h, ids)
  end.

Section Stream.
Context (S : Direction -> Z -> byte -> Prop) (own : FlowId -> Prop).

Definition connection_ok (h : HttpConnection) : Prop :=
  (hc_mode h = Http -> parser_ok cfg (S AToB) AToB own (hc_a_to_b h) /\ parser_ok cfg (S BToA) BToA own (hc_b_to_a h)) /\
  blen (hc_pending h) <= HTTP_PENDING_REQUEST_LIMIT.

(** What a direction holds between chunks. *)
Definition bounded (h : HttpConnection) : Prop :=
  hc_mode h = Http ->
  blen (buffer (hc_a_to_b h)) <= bound cfg /\ blen (buffer (hc_b_to_a h)) <= bound cfg.

Definition event_ok (e : HttpEmission) : Prop := exists d, event_genuine (S d) d own e.

Lemma new_parser_ok d : parser_ok cfg (S d) d own HttpStreamParser_new.
Proof. split; simpl; [by intros i b|unfold blen; simpl; lia|done|done|done]. Qed.

Lemma new_connection_ok : connection_ok HttpConnection_new /\ bounded HttpConnection_new.
Proof.
  split; [split; [intros _; split; apply new_parser_ok|]|intros _; split]; simpl; unfold blen; simpl;
    unfold HTTP_PENDING_REQUEST_LIMIT, bound, HTTP_RESYNC_SUFFIX; lia.
Qed.

Lemma open_good h d ids :
  connection_ok h -> good cfg (S d) d own (open h d ids).
Proof.
  intros [Hp Hl]. split; simpl; [|constructor|done]. intros Hm. destruct (Hp Hm). by destruct d.
Qed.

Context (cfg_ok : config_ok cfg).

Lemma connection_feed_ok h c ids :
  connection_ok h -> bounded h -> chunk_ok (S (ch_direction c)) (ch_direction c) own c ->
  exists events errors h' ids', connection_feed new_v4 cfg h c ids = Some (events, errors, h', ids') /\
    connection_ok h' /\ bounded h' /\ Forall event_ok events.
Proof.
  intros Hok Hbd Hc. unfold connection_feed.
  destruct (decide (hc_mode h = Tunnel)) as [Ht|Ht].
  { rewrite bool_decide_eq_true_2 by done. eexists _, _, _, _. split; [done|]. by split; [|split; [|constructor]]. }
  rewrite bool_decide_eq_false_2 by done.
  assert (hc_mode h = Http) as Hm by (by destruct (hc_mode h)).
  destruct (feed_ok new_v4 cfg (S (ch_direction c)) (ch_direction c) own cfg_ok c (open h (ch_direction c) ids))
    as (f & -> & [Hp He Hl] & Hb); [by apply open_good|done|done|].
  simpl. eexists _, _, _, _. split; [done|]. destruct Hok as [Hpp _]. destruct (Hpp Hm) as [HA HB].
  destruct (Hbd Hm) as [BA BB]. split; [split; [|done]|split].
  - simpl. intros Hmf. specialize (Hp Hmf). by destruct (ch_direction c).
  - intros Hmf. simpl in *. destruct (Hb Hmf) as [_ Hb']. by destruct (ch_direction c).
  - eapply Forall_impl; [exact He|]. intros e Hev. by exists (ch_direction c).
Qed.

Lemma connection_feed_all_ok chunks : forall h ids,
  connection_ok h -> bounded h -> Forall (fun c => chunk_ok (S (ch_direction c)) (ch_direction c) own c) chunks ->
  exists events h' ids', feed_all h chunks ids = Some (events, h', ids') /\
    connection_ok h' /\ bounded h' /\ Forall event_ok events.
Proof.
  induction chunks as [|c chunks IH]; intros h ids Hok Hb Hall; simpl.
  - eexists _, _, _. split; [done|]. by split; [|split; [|constructor]].
  - apply Forall_cons in Hall as [Hc Hall].
    destruct (connection_feed_ok h c ids Hok Hb Hc) as (ev & er & h1 & ids1 & -> & Hok1 & Hb1 & He1). simpl.
    destruct (IH h1 ids1 Hok1 Hb1 Hall) as (ev2 & h2 & ids2 & -> & Hok2 & Hb2 & He2). simpl.
    eexists _, _, _. split; [done|]. split; [done|]. split; [done|]. by apply Forall_app.
Qed.

Lemma connection_finish_ok h ids :
  connection_ok h -> exists events h' ids', connection_finish new_v4 cfg h ids = Some (events, h', ids') /\
    Forall event_ok events.
Proof.
  intros Hok. unfold connection_finish. destruct (decide (hc_mode h = Tunnel)) as [Ht|Ht].
  { rewrite bool_decide_eq_true_2 by done. eexists _, _, _. split; [done|]. constructor. }
  rewrite bool_decide_eq_false_2 by done. assert (hc_mode h = Http) as Hm by (by destruct (hc_mode h)).
  destruct (finish_ok new_v4 cfg (S AToB) AToB own cfg_ok (open h AToB ids)) as (fa & Efa & Ea & La);
    [by apply open_good|done|]. rewrite Efa. simpl. apply finish_mode in Efa. simpl in Efa.
  set (h1 := close h AToB fa).
  destruct (finish_ok new_v4 cfg (S BToA) BToA own cfg_ok (open h1 BToA (fd_ids fa))) as (fb & -> & Eb & _).
  - split; simpl; [|constructor|done]. intros _. by apply Hok.
  - simpl. congruence.
  - simpl. eexists _, _, _. split; [done|]. apply Forall_app.
    split; (eapply Forall_impl; [eassumption|]); intros e He; by eexists.
Qed.
End Stream.

(** The stream of each direction. *)
Definition content_of (T : Direction -> Z -> byte) (r : ContentRecord) : Prop :=
  is_decoded (cr_view r) = true \/
  forall i b, cr_data r !! i = Some b -> T (cr_direction r) (cr_stream_offset r + Z.of_nat i) = b.


(** Bounded memory: whatever the chunks of a connection are, each direction holds
    at most the header limit (or the 48-byte resynchronisation suffix) between
    chunks, at most the decode limit of compressed bytes, and at most 4096 pending
    requests. *)
Theorem http_memory_bounded chunks :
  config_ok cfg ->
  Forall (fun c => 0 <= ch_offset c /\ ch_offset c + blen (ch_data c) <= 2 ^ 62) chunks ->
  exists events h ids, feed_all HttpConnection_new chunks 0 = Some (events, h, ids) /\
    blen (hc_pending h) <= 4096 /\
    (hc_mode h = Http -> forall p, p = hc_a_to_b h \/ p = hc_b_to_a h ->
      blen (buffer p) <= Z.max (http_max_header_bytes cfg) 48 /\
      match body_state p with
      | Fixed _ _ c | Chunked _ _ c _ _ | UntilClose _ c _ _ => blen c <= http_max_decode_bytes cfg
      | _ => True
      end).
Proof.
  intros Hcfg Hall. set (any := fun _ : FlowId => True). set (S := fun (_ : Direction) (_ : Z) (_ : byte) => True).
  destruct (new_connection_ok S any) as [H1 H2].
  destruct (connection_feed_all_ok S any Hcfg chunks HttpConnection_new 0 H1 H2) as (ev & h & ids & E & [Hok Hl] & Hb & _).
  { eapply Forall_impl; [exact Hall|]. intros c Hc. by split. }
  exists ev, h, ids. split; [done|]. split; [done|]. intros Hm p Hp.
  destruct (Hok Hm) as [PA PB]. destruct (Hb Hm) as [BA BB].
  assert (parser_ok cfg (S AToB) AToB any p \/ parser_ok cfg (S BToA) BToA any p) as Hpo by (destruct Hp as [-> | ->]; auto).
  split; [by destruct Hp as [-> | ->]|].
  destruct Hpo as [[_ _ _ _ Hs]|[_ _ _ _ Hs]]; destruct (body_state p); simpl in Hs; naive_solver.
Qed.
End Connection.
