(* ===== verification/HttpExamples.v ===== *)
(** * The HTTP layer on concrete messages

    The theorems on chunked bodies, framing and the stream parser applied to a
    request cut into pieces; and what the chunk-size parser accepts. *)

From stdpp Require Import strings.
From S2P Require Import Prelude Model Text Services Chunked ChunkedSpec ChunkedRoundtrip HttpHeader.
From S2P Require Import Http HttpTheorems.

(** ** Chunked bodies *)

Definition ex_chunks : list (bytes * bytes) := [(bytes_of "4;x=1", bytes_of "test"); (bytes_of "0A", bytes_of "0123456789")].

Definition ex_trailers : bytes := bytes_of "A: b" ++ double_crlf.

Lemma ex_body_ok : chunked_ok 64 ex_chunks (bytes_of "0") ex_trailers.
Proof.
  split.
  - repeat apply Forall_cons_2; [by repeat split; vm_compute..|apply Forall_nil_2].
  - by repeat split; vm_compute.
  - right. exists (bytes_of "A: b"). by repeat split; vm_compute.
Qed.

(** The wire, byte by byte, with the next message behind it. *)
Definition ex_wire : bytes := encode_body ex_chunks (bytes_of "0") ex_trailers ++ bytes_of "GET /".

Lemma chunked_roundtrip_witness :
  concat (map (fun b => [b]) ex_wire) = ex_wire /\
  exists b ps, decode_pieces 64 100 ChunkedDecoder_default [] 0 (map (fun b => [b]) ex_wire) =
    Some (bytes_of "test0123456789", b, ps) /\ b ++ concat ps = bytes_of "GET /".
Proof.
  split; [by vm_compute|].
  apply (chunked_roundtrip 64 100 ex_chunks (bytes_of "0") ex_trailers (bytes_of "GET /"));
    [apply ex_body_ok|lia|by vm_compute|by vm_compute].
Defined.

Lemma scan_resumes_witness :
  find_crlf_from (bytes_of "ab" ++ crlf) (sat_sub (blen (bytes_of "ab")) 1) =
    find_crlf_from (bytes_of "ab" ++ crlf) 0.
Proof. apply (scan_resumes (bytes_of "ab") crlf). by vm_compute. Defined.

(** [from_str_radix] takes a leading plus sign, so a chunk-size line may have one;
    RFC 9112 allows hexadecimal digits only. *)
Example plus_sign_accepted : chunk_size (bytes_of "+A") = Ok 10.
Proof. by vm_compute. Qed.

Example chunk_size_cases :
  chunk_size (bytes_of "") = Err /\ chunk_size (bytes_of " 1f ; name=value") = Ok 31 /\
  chunk_size (bytes_of "ffffffffffffffff") = Ok u64_MAX /\ chunk_size (bytes_of "11111111111111111") = Err /\
  chunk_size (bytes_of "-1") = Err /\ chunk_size (bytes_of "+") = Err.
Proof. by vm_compute. Qed.

(** ** A request *)

(** A concrete [httparse]: every request is a POST with three bytes of body. *)
Definition ex_parse : HttpParse :=
  {| response_parse _ := Err;
     request_parse _ :=
       Ok (Some {| method_ := Some (bytes_of "POST"); path_ := Some (bytes_of "/");
                   request_headers := [{| h_name := bytes_of "Content-Length"; h_value := bytes_of " 3" |}] |}) |}.

Definition ex_inflate : Inflate := {| gzip_reads _ := []; zlib_reads _ := [] |}.

Definition ex_http : HttpConfig :=
  {| http_max_header_bytes := 1024; http_max_body_bytes := 100; http_max_decode_bytes := 100;
     http_max_decode_ratio := 4 |}.

Definition ex_flow_key : FlowKey :=
  {| fk_a := {| ep_ip := V4 [x0a; x00; x00; x01]; ep_port := 5000 |};
     fk_b := {| ep_ip := V4 [x0a; x00; x00; x02]; ep_port := 80 |}; fk_protocol := Tcp; fk_l2_domain := 0 |}.

Definition ex_message : bytes := bytes_of "POST / HTTP/1.1" ++ double_crlf ++ bytes_of "abc".

Definition ex_stream (d : Direction) (o : Z) : byte := default x00 (ex_message !! Z.to_nat o).

Definition ex_piece (o : Z) (d : bytes) : StreamChunk :=
  {| ch_flow_id := 1; ch_ts_ns := 5; ch_direction := AToB; ch_key := ex_flow_key; ch_offset := o;
     ch_data := d; ch_truncated := false |}.

Definition ex_pieces : list StreamChunk :=
  [ex_piece 0 (take 17 ex_message); ex_piece 17 (take 4 (drop 17 ex_message)); ex_piece 21 (drop 21 ex_message)].

Lemma ex_piece_ok o d :
  0 <= o -> o + blen d <= blen ex_message -> d = take (length d) (drop (Z.to_nat o) ex_message) ->
  chunk_ok (fun o b => ex_stream AToB o = b) AToB (eq 1) (ex_piece o d).
Proof.
  intros Ho Hl Hd. split; simpl; [done|done| |].
  - assert (blen ex_message <= 2 ^ 62) by (by vm_compute). lia.
  - intros i b Hi. unfold ex_stream. rewrite Hd in Hi. apply lookup_take_Some in Hi as [Hi _].
    rewrite lookup_drop in Hi. replace (Z.to_nat (o + Z.of_nat i)) with (Z.to_nat o + i)%nat by lia.
    by rewrite Hi.
Qed.


(** What those events are: the head at offset 0, then the body at 19. *)
Example request_events :
  match @feed_all ex_parse ex_inflate Z.of_nat ex_http HttpConnection_new ex_pieces 0 with
  | Some (events, h, _) =>
      map (fun e => map (fun r => (cr_view r, cr_stream_offset r, cr_data r)) (he_content e)) events =
        [[(HttpRequestHeaders, 0, bytes_of "POST / HTTP/1.1" ++ double_crlf)];
         [(HttpRequestBody, 19, bytes_of "ab")]; [(HttpRequestBody, 21, bytes_of "c")]] /\
      hc_pending h = [Other]
  | None => False
  end.
Proof. by vm_compute. Qed.

Lemma http_memory_bounded_witness :
  exists events h ids,
    @feed_all ex_parse ex_inflate Z.of_nat ex_http HttpConnection_new ex_pieces 0 = Some (events, h, ids) /\
    blen (hc_pending h) <= 4096 /\
    (hc_mode h = Http.Http -> forall p, p = hc_a_to_b h \/ p = hc_b_to_a h ->
      blen (buffer p) <= Z.max 1024 48 /\
      match body_state p with
      | Fixed _ _ c | Http.Chunked _ _ c _ _ | UntilClose _ c _ _ => blen c <= 100
      | _ => True
      end).
Proof.
  apply (@http_memory_bounded ex_parse ex_inflate Z.of_nat ex_http ex_pieces).
  - split; by vm_compute.
  - unfold ex_pieces. repeat apply Forall_cons_2; [by vm_compute..|apply Forall_nil_2].
Defined.
