(* ===== verification/Disk.v ===== *)
(** * Files, buffered writers and the effects of fallible code

    What the storage layer uses of [std::fs] and [std::io]: one flat name space
    of files with the bytes a reader sees and how many of them [sync_data] has
    made durable, [BufWriter] with its buffering, and system calls that may fail
    at any point (a failing [write] leaves a part of its bytes behind).  The
    failures of a run are a schedule in the state, so that a theorem quantifies
    over all of them. *)

From Stdlib Require Import Ascii.
From stdpp Require Import strings sorting.
From S2P Require Import Prelude Model Text Services.

(** ** Effects: a state that survives an error *)

Definition Eff (S A : Type) : Type := S -> Result A * S.

#[export] Instance Eff_ret {S} : MRet (Eff S) := fun A a s => (Ok a, s).
#[export] Instance Eff_bind {S} : MBind (Eff S) :=
  fun A B f m s => let '(r, s) := m s in match r with Ok a => f a s | Err => (Err, s) end.

Definition bail {S A} : Eff S A := fun s => (Err, s).
Definition reads {S A} (f : S -> A) : Eff S A := fun s => (Ok (f s), s).
Definition modify {S} (f : S -> S) : Eff S unit := fun s => (Ok tt, f s).
Definition ensure {S} (b : bool) : Eff S unit := if b then mret tt else bail.
Definition lift {S A} (r : Result A) : Eff S A := fun s => (r, s).

(** [let _ = m]: the effects of [m], its error ignored. *)
Definition ignore {S A} (m : Eff S A) : Eff S unit := fun s => (Ok tt, (m s).2).

(** The body as a value: an error becomes data. *)
Definition attempt {S A} (m : Eff S A) : Eff S (Result A) := fun s => let '(r, s) := m s in (Ok r, s).

(** Runs an effect on one field of a larger state. *)
Definition focus {S T A} (get : S -> T) (set : T -> S -> S) (m : Eff T A) : Eff S A :=
  fun s => let '(r, t) := m (get s) in (r, set t s).

(** ** Paths *)

(** The components of a path. *)
Abbreviation Path := (list string).

Definition file_name (p : Path) : string := List.last p "".

(** [to_string_lossy] of a path whose components are UTF-8. *)
Definition path_string (p : Path) : string := foldr (fun c s => "/" +:+ c +:+ s) "" p.

(** [Path::starts_with]: whole components. *)
Fixpoint path_starts_with (p base : Path) : bool :=
  match base, p with
  | [], _ => true
  | b :: base, c :: p => bool_decide (b = c) && path_starts_with p base
  | _ :: _, [] => false
  end.

(** The text after the last dot, and whether any precedes it. *)
Fixpoint after_dot (s : string) : option string :=
  match s with
  | EmptyString => None
  | String c s' =>
      match after_dot s' with
      | Some e => Some e
      | None => if bool_decide (c = "."%char) then Some s' else None
      end
  end.

(** [Path::extension]: nothing for a name whose only dot is its first character. *)
Definition extension (name : string) : option string :=
  match name with
  | EmptyString => None
  | String _ rest => after_dot rest
  end.

Definition name_le (a b : string) : Prop := lex_compare (bytes_of a) (bytes_of b) <> Gt.

#[export] Instance name_le_dec : RelDecision name_le.
Proof. intros a b. unfold name_le. apply _. Defined.

(** ** Files *)

Record File := { content : bytes; synced : Z }.

(** [faults] is the outcome of the system calls to come: [Some k] fails the next
    call (a [write] after [k] bytes), the empty schedule fails none.  [calls]
    counts the readings of the clock and of the random source. *)
Record Disk := { files : gmap Path File; faults : list (option Z); calls : nat }.

Definition set_files (m : gmap Path File) (d : Disk) : Disk :=
  {| files := m; faults := faults d; calls := calls d |}.

Abbreviation IO := (Eff Disk).

Definition next_fault : IO (option Z) :=
  fun d => match faults d with
           | [] => (Ok None, d)
           | f :: fs => (Ok f, {| files := files d; faults := fs; calls := calls d |})
           end.

(** A system call that fails without an effect or does its work. *)
Definition syscall {A} (m : IO A) : IO A :=
  f ← next_fault; match f with Some _ => bail | None => m end.

Definition next_call : IO nat :=
  fun d => (Ok (calls d), {| files := files d; faults := faults d; calls := S (calls d) |}).

Definition open_file (p : Path) : IO File :=
  syscall (f ← reads (fun d => files d !! p); lift (of_option f)).

(** [OpenOptions::create_new(true)]. *)
Definition create_new (p : Path) : IO unit :=
  syscall (fun d => match files d !! p with
                    | Some _ => (Err, d)
                    | None => (Ok tt, set_files (<[p := {| content := []; synced := 0 |}]> (files d)) d)
                    end).

(** [File::create] and [OpenOptions::truncate(true)]. *)
Definition create_truncated (p : Path) : IO unit :=
  syscall (modify (fun d => set_files (<[p := {| content := []; synced := 0 |}]> (files d)) d)).

Definition append_bytes (p : Path) (b : bytes) (d : Disk) : Disk :=
  set_files (alter (fun f => {| content := content f ++ b; synced := synced f |}) p (files d)) d.

(** [File::write_all] at the end of the file: a failure comes before the last byte
    is written.  The number of bytes written comes back with the outcome. *)
Definition write_file (p : Path) (b : bytes) : IO (Result unit * Z) :=
  f ← next_fault;
  match f with
  | None => _ ← modify (append_bytes p b); mret (Ok tt, blen b)
  | Some k =>
      let part := take (Z.to_nat (Z.min k (blen b - 1))) b in
      _ ← modify (append_bytes p part); mret (Err, blen part)
  end.

Definition sync_file (p : Path) : IO unit :=
  syscall (modify (fun d =>
    set_files (alter (fun f => {| content := content f; synced := blen (content f) |}) p (files d)) d)).

(** [File::set_len] to no more than the present length. *)
Definition set_len (p : Path) (n : Z) : IO unit :=
  syscall (modify (fun d =>
    set_files (alter (fun f => {| content := take (Z.to_nat n) (content f);
                                  synced := Z.min n (synced f) |}) p (files d)) d)).

Definition remove_file (p : Path) : IO unit :=
  syscall (fun d => match files d !! p with
                    | Some _ => (Ok tt, set_files (delete p (files d)) d)
                    | None => (Err, d)
                    end).

Definition rename_file (p q : Path) : IO unit :=
  syscall (fun d => match files d !! p with
                    | Some f => (Ok tt, set_files (<[q := f]> (delete p (files d))) d)
                    | None => (Err, d)
                    end).

(** The files of a directory, in no particular order ([read_dir]). *)
Definition in_directory (root p : Path) : bool :=
  path_starts_with p root && (blen p =? blen root + 1).

Definition entries (root : Path) (d : Disk) : list Path :=
  filter (fun p => in_directory root p = true) (map fst (map_to_list (files d))).

Definition read_dir (root : Path) : IO (list Path) := syscall (reads (entries root)).

(** [fs::read]. *)
Definition read_file (p : Path) : IO bytes := f ← open_file p; mret (content f).

(** [fs::metadata(p)?.len()]. *)
Definition file_len (p : Path) : IO Z := f ← open_file p; mret (blen (content f)).

(** ** [BufWriter] over a file it alone appends to *)

Record BufWriter := { bw_path : Path; bw_buf : bytes; bw_pos : Z; bw_capacity : Z }.

(** Runs on the disk and the writer. *)
Abbreviation BufIO := (Eff (Disk * BufWriter)).

Definition set_buf (b : bytes) (n : Z) (w : BufWriter) : BufWriter :=
  {| bw_path := bw_path w; bw_buf := b; bw_pos := bw_pos w + n; bw_capacity := bw_capacity w |}.

Definition BufWriter_new (path : Path) (capacity : Z) : BufWriter :=
  {| bw_path := path; bw_buf := []; bw_pos := 0; bw_capacity := capacity |}.

(** [flush_buf]: what a failing write left over stays in the buffer. *)
Definition flush_buf : BufIO unit :=
  fun '(d, w) =>
    match bw_buf w with
    | [] => (Ok tt, (d, w))
    | _ :: _ =>
        match write_file (bw_path w) (bw_buf w) d with
        | (Ok (r, n), d) => (r, (d, set_buf (drop (Z.to_nat n) (bw_buf w)) n w))
        | (Err, d) => (Err, (d, w))
        end
    end.

Definition spare_capacity (w : BufWriter) : Z := bw_capacity w - blen (bw_buf w).

Definition buffer_bytes (b : bytes) : BufIO unit :=
  fun '(d, w) => (Ok tt, (d, set_buf (bw_buf w ++ b) 0 w)).

(** The bytes go to the file past the (empty) buffer. *)
Definition write_through (b : bytes) : BufIO unit :=
  fun '(d, w) =>
    match write_file (bw_path w) b d with
    | (Ok (r, n), d) => (r, (d, set_buf (bw_buf w) n w))
    | (Err, d) => (Err, (d, w))
    end.

Definition write_all_cold (b : bytes) : BufIO unit :=
  spare ← reads (fun s => spare_capacity s.2);
  _ ← (if spare <? blen b then flush_buf else mret tt);
  capacity ← reads (fun s => bw_capacity s.2);
  if capacity <=? blen b then write_through b else buffer_bytes b.

Definition write_all (b : bytes) : BufIO unit :=
  spare ← reads (fun s => spare_capacity s.2);
  if blen b <? spare then buffer_bytes b else write_all_cold b.

(** [stream_position] seeks, and so flushes the buffer first. *)
Definition stream_position : BufIO Z :=
  _ ← flush_buf;
  _ ← focus fst (fun d s => (d, s.2)) (syscall (mret tt));
  reads (fun s => bw_pos s.2).

Definition flush_writer : BufIO unit := flush_buf.

(** [get_ref().sync_data()]. *)
Definition sync_writer : BufIO unit :=
  fun '(d, w) => let '(r, d) := sync_file (bw_path w) d in (r, (d, w)).

(** [Drop]: a last attempt to write the buffer. *)
Definition drop_writer : BufIO unit := ignore flush_buf.
