(* ===== verification/DiskSpec.v ===== *)
(** * What buffered writers and system calls guarantee

    Every operation of a [BufWriter] extends the bytes of its file and buffer
    taken together, whatever fails; a system call touches what it names only. *)

From stdpp Require Import strings sorting.
From S2P Require Import Prelude Model Text Services Disk.

(** ** Effects *)

Lemma bind_ok {S A B} (m : Eff S A) (f : A -> Eff S B) s a s' :
  m s = (Ok a, s') -> (m ≫= f) s = f a s'.
Proof. intros E. unfold mbind, Eff_bind. by rewrite E. Qed.

Lemma bind_err {S A B} (m : Eff S A) (f : A -> Eff S B) s s' :
  m s = (Err, s') -> (m ≫= f) s = (Err, s').
Proof. intros E. unfold mbind, Eff_bind. by rewrite E. Qed.

(** The two ways a sequence runs. *)
Lemma bind_cases {S A B} (m : Eff S A) (f : A -> Eff S B) s r s' :
  (m ≫= f) s = (r, s') ->
  (m s = (Err, s') /\ r = Err) \/ exists a s1, m s = (Ok a, s1) /\ f a s1 = (r, s').
Proof.
  unfold mbind, Eff_bind. destruct (m s) as [[a|] s1].
  - intros E. right. by exists a, s1.
  - intros [= <- <-]. by left.
Qed.

Lemma bind_inv {S A B} (m : Eff S A) (f : A -> Eff S B) s b s' :
  (m ≫= f) s = (Ok b, s') -> exists a s1, m s = (Ok a, s1) /\ f a s1 = (Ok b, s').
Proof. intros [[_ ?]|?]%bind_cases; done. Qed.

Lemma ensure_true {S} (b : bool) (s : S) : b = true -> ensure b s = (Ok tt, s).
Proof. by intros ->. Qed.

Lemma ensure_inv {S} (b : bool) (s s' : S) u : ensure b s = (Ok u, s') -> b = true /\ s' = s.
Proof. destruct b; [|done]. by intros [= _ <-]. Qed.

Lemma ensure_keeps {S} (b : bool) (s s' : S) r : ensure b s = (r, s') -> s' = s.
Proof. by destruct b; intros [= _ <-]. Qed.

Lemma focus_inv {S T A} (get : S -> T) set (m : Eff T A) s r s' :
  focus get set m s = (r, s') -> exists t, m (get s) = (r, t) /\ s' = set t s.
Proof. unfold focus. destruct (m (get s)) as [r' t]. intros [= <- <-]. by exists t. Qed.

(** ** System calls *)

(** The files are the same; the schedule and the clock may have moved on. *)
Definition same_files (d d' : Disk) : Prop := files d' = files d /\ (calls d <= calls d')%nat.

#[export] Instance same_files_preorder : PreOrder same_files.
Proof.
  split; [by split|]. intros x y z [H1 H2] [H3 H4]. split; [congruence|lia].
Qed.

Lemma next_fault_spec d : exists f d', next_fault d = (Ok f, d') /\ same_files d d'.
Proof. unfold next_fault. destruct (faults d) as [|f fs]; eexists _, _; (split; [done|by split]). Qed.

(** A failed call did nothing, or was the operation itself failing. *)
Lemma syscall_inv {A} (m : IO A) d r d' :
  syscall m d = (r, d') ->
  (r = Err /\ same_files d d') \/ exists d1, same_files d d1 /\ m d1 = (r, d').
Proof.
  unfold syscall. intros E. destruct (next_fault_spec d) as (f & d1 & E1 & Hs).
  rewrite (bind_ok _ _ _ _ _ E1) in E. destruct f; [|by right; exists d1].
  left. unfold bail in E. injection E as <- <-. done.
Qed.

Lemma syscall_fine {A} (m : IO A) d : faults d = [] -> syscall m d = m d.
Proof. intros Hf. unfold syscall, mbind, Eff_bind, next_fault. by rewrite Hf. Qed.

Lemma next_call_spec d : exists d', next_call d = (Ok (calls d), d') /\ same_files d d'.
Proof. eexists. split; [done|]. split; [done|]. simpl. lia. Qed.

Lemma create_new_inv p d r d' :
  create_new p d = (r, d') ->
  (r = Err /\ same_files d d') \/
  (r = Ok tt /\ files d !! p = None /\ (calls d <= calls d')%nat /\ files d' = <[p := {| content := []; synced := 0 |}]> (files d)).
Proof.
  intros [[-> ?]|(d1 & [Hs Hc] & E)]%syscall_inv; [by left|]. simpl in E.
  destruct (files d1 !! p) eqn:Ep; injection E as <- <-; [by left|].
  right. rewrite <- Hs. done.
Qed.

Lemma open_file_inv p d f d' :
  open_file p d = (Ok f, d') -> files d !! p = Some f /\ same_files d d'.
Proof.
  intros [[? _]|(d1 & Hs & E)]%syscall_inv; [done|].
  unfold mbind, Eff_bind, reads, lift in E. rewrite <- (proj1 Hs).
  destruct (files d1 !! p); simpl in E; [|done]. by injection E as <- <-.
Qed.

(** *** No failure ahead

    An empty schedule stays empty. *)
Definition calm {A} (op : IO A) : Prop :=
  forall d r d', faults d = [] -> op d = (r, d') -> faults d' = [].

Lemma calm_bind {A B} (op : IO A) (k : A -> IO B) : calm op -> (forall a, calm (k a)) -> calm (op ≫= k).
Proof.
  intros H1 H2 d r d' Hd [[E ->]|(a & d1 & E1 & E2)]%bind_cases; [by eapply H1|].
  eapply H2; [|exact E2]. by eapply H1.
Qed.

Lemma calm_syscall {A} (op : IO A) : calm op -> calm (syscall op).
Proof. intros H d r d' Hd. rewrite syscall_fine by done. by apply H. Qed.

Lemma calm_ret {A} (a : A) : calm (mret a).
Proof. by intros d r d' Hd [= _ <-]. Qed.

Lemma calm_lift {A} (r : Result A) : calm (lift r).
Proof. by intros d r' d' Hd [= _ <-]. Qed.

Lemma calm_bail {A} : calm (bail : IO A).
Proof. by intros d r d' Hd [= _ <-]. Qed.

Lemma calm_ensure b : calm (ensure b).
Proof. destruct b; [apply calm_ret|apply calm_bail]. Qed.

Lemma calm_reads {A} (f : Disk -> A) : calm (reads f).
Proof. by intros d r d' Hd [= _ <-]. Qed.

Lemma calm_update (f : Disk -> gmap Path File) : calm (modify (fun d => set_files (f d) d)).
Proof. by intros d r d' Hd [= _ <-]. Qed.

Lemma calm_next_call : calm next_call.
Proof. by intros d r d' Hd [= _ <-]. Qed.

Lemma calm_attempt {A} (op : IO A) : calm op -> calm (attempt op).
Proof. intros H d r d' Hd E. unfold attempt in E. destruct (op d) as [r1 d1] eqn:E1. injection E as _ <-. by eapply H. Qed.

Create HintDb calm.
#[export] Hint Resolve calm_bind calm_syscall calm_ret calm_lift calm_bail calm_ensure calm_reads calm_update
  calm_next_call calm_attempt : calm.

Lemma calm_open_file p : calm (open_file p).
Proof. unfold open_file. auto with calm. Qed.

Lemma calm_create_new p : calm (create_new p).
Proof. apply calm_syscall. intros d r d' Hd E. by destruct (files d !! p); injection E as _ <-. Qed.

Lemma calm_remove_file p : calm (remove_file p).
Proof. apply calm_syscall. intros d r d' Hd E. by destruct (files d !! p); injection E as _ <-. Qed.

Lemma calm_set_len p n : calm (set_len p n).
Proof. unfold set_len. auto with calm. Qed.

Lemma calm_sync_file p : calm (sync_file p).
Proof. unfold sync_file. auto with calm. Qed.

#[export] Hint Resolve calm_open_file calm_create_new calm_remove_file calm_set_len calm_sync_file : calm.

Lemma calm_read_dir root : calm (read_dir root).
Proof. unfold read_dir. auto with calm. Qed.

Lemma calm_read_file p : calm (read_file p).
Proof. unfold read_file. auto with calm. Qed.

Lemma calm_file_len p : calm (file_len p).
Proof. unfold file_len. auto with calm. Qed.

#[export] Hint Resolve calm_read_dir calm_read_file calm_file_len : calm.

(** ** Buffered writing *)

(** The file a writer has open, as it left it. *)
Definition open_ok (s : Disk * BufWriter) (f : File) : Prop :=
  files s.1 !! bw_path s.2 = Some f /\ bw_pos s.2 = blen (content f) /\
  blen (bw_buf s.2) <= bw_capacity s.2 /\ 0 < bw_capacity s.2.

(** The bytes written so far. *)
Definition written (s : Disk * BufWriter) (f : File) : bytes := content f ++ bw_buf s.2.

(** From [s] with file [f] to [s'] with [f'], [b] more was written. *)
Record wrote (s : Disk * BufWriter) (f : File) (s' : Disk * BufWriter) (f' : File) (b : bytes) : Prop := {
  wrote_open : open_ok s' f';
  wrote_path : bw_path s'.2 = bw_path s.2;
  wrote_files : files s'.1 = <[bw_path s.2 := f']> (files s.1);
  wrote_calls : (calls s.1 <= calls s'.1)%nat;
  wrote_bytes : written s' f' = written s f ++ b;
  wrote_content : content f `prefix_of` content f'
}.

Lemma wrote_nothing s f s' :
  open_ok s f -> s'.2 = s.2 -> same_files s.1 s'.1 -> wrote s f s' f [].
Proof.
  intros (Hf & Hp & Hc & Hz) E [Hs Hcl]. split; try done.
  - unfold open_ok. by rewrite E, Hs.
  - by rewrite E.
  - by rewrite Hs, insert_id.
  - unfold written. by rewrite E, app_nil_r.
Qed.

Lemma wrote_trans s f s1 f1 s2 f2 a b :
  wrote s f s1 f1 a -> wrote s1 f1 s2 f2 b -> wrote s f s2 f2 (a ++ b).
Proof.
  intros [Ho1 Hp1 Hf1 Hk1 Hb1 Hc1] [Ho2 Hp2 Hf2 Hk2 Hb2 Hc2]. split; try done; try congruence; try lia.
  - by rewrite Hf2, Hp1, Hf1, insert_insert_eq.
  - by rewrite Hb2, Hb1, app_assoc.
  - by etrans.
Qed.

(** Whatever the schedule, a writer of [b] writes it, or fails with something left. *)
Definition writes {A} (m : BufIO A) (b : bytes) : Prop :=
  forall s f r s', open_ok s f -> m s = (r, s') ->
  exists f' b' rest, wrote s f s' f' b' /\ b = b' ++ rest /\
    match r with Ok _ => rest = [] | Err => rest <> [] end.

Lemma append_files p x d f :
  files d !! p = Some f ->
  files (append_bytes p x d) = <[p := {| content := content f ++ x; synced := synced f |}]> (files d).
Proof.
  intros Hf. unfold append_bytes. simpl. apply map_eq. intros q.
  destruct (decide (q = p)) as [->|Hn].
  - by rewrite lookup_alter_eq, lookup_insert_eq, Hf.
  - by rewrite lookup_alter_ne, lookup_insert_ne.
Qed.

Lemma write_file_spec p b d f r d' :
  files d !! p = Some f -> write_file p b d = (r, d') -> b <> [] ->
  exists o b' rest, r = Ok (o, blen b') /\ b = b' ++ rest /\
    files d' = <[p := {| content := content f ++ b'; synced := synced f |}]> (files d) /\
    (calls d <= calls d')%nat /\
    match o with Ok _ => rest = [] | Err => rest <> [] end.
Proof.
  intros Hf E Hb. apply blen_pos in Hb. unfold write_file in E.
  destruct (next_fault_spec d) as (k & d1 & E1 & Hs). rewrite (bind_ok _ _ _ _ _ E1) in E.
  destruct Hs as [Hs Hcl]. rewrite <- Hs in Hf.
  destruct k as [k|]; simpl in E; injection E as <- <-.
  - eexists Err, _, (drop (Z.to_nat (Z.min k (blen b - 1))) b). rewrite <- Hs, (append_files p _ d1 f Hf).
    split; [done|]. split; [by rewrite take_drop|]. split; [done|]. split; [done|]. intros Hd.
    apply (f_equal length) in Hd. rewrite length_drop in Hd. simpl in Hd. unfold blen in *. lia.
  - exists (Ok tt), b, []. rewrite <- Hs, (append_files p _ d1 f Hf), app_nil_r. done.
Qed.

(** The state after a write of which [b'] got through, the buffer left as [buf]. *)
Lemma wrote_file s f d' b' buf :
  open_ok s f -> blen buf <= blen (bw_buf s.2) ->
  files d' = <[bw_path s.2 := {| content := content f ++ b'; synced := synced f |}]> (files s.1) ->
  open_ok (d', set_buf buf (blen b') s.2) {| content := content f ++ b'; synced := synced f |}.
Proof.
  intros (Hf & Hp & Hc & Hz) Hl Hd. unfold open_ok. simpl. rewrite Hd, lookup_insert_eq, blen_app, Hp.
  split; [done|]. split; [done|lia].
Qed.

(** A flush writes nothing new; succeeding, it leaves nothing in the buffer. *)
Lemma flush_buf_spec s f r s' :
  open_ok s f -> flush_buf s = (r, s') ->
  exists f', wrote s f s' f' [] /\ (r = Ok tt -> bw_buf s'.2 = []).
Proof.
  destruct s as [d w]. intros Ho E. unfold flush_buf in E. destruct (bw_buf w) as [|x l] eqn:Eb.
  { injection E as <- <-. exists f. split; [by apply wrote_nothing|done]. }
  rewrite <- Eb in E. destruct (write_file _ _ d) as [r1 d1] eqn:Ew.
  pose proof Ho as (Hf & _). simpl in Hf.
  apply (write_file_spec _ _ _ f) in Ew as (o & b' & rest & -> & Hb & Hd & Hcl & Hr); [|done|by rewrite Eb].
  assert (drop (Z.to_nat (blen b')) (bw_buf w) = rest) as Hdrop.
  { rewrite Hb. unfold blen. by rewrite Nat2Z.id, drop_app_length. }
  injection E as <- <-. rewrite Hdrop.
  eexists. split; [|by intros ->]. split; try done.
  - apply (wrote_file (d, w) f); [done| |done]. simpl. rewrite Hb, blen_app.
    pose proof (blen_nonneg b'). lia.
  - unfold written. simpl. by rewrite Hb, <- !app_assoc, app_nil_r.
  - simpl. by apply prefix_app_r.
Qed.

Lemma writes_bind {A B} (m : BufIO A) (k : A -> BufIO B) a b :
  writes m a -> (forall x, writes (k x) b) -> writes (m ≫= k) (a ++ b).
Proof.
  intros Hm Hk s f r s' Ho [[E ->]|(x & s1 & E1 & E2)]%bind_cases.
  - destruct (Hm _ _ _ _ Ho E) as (f' & b' & rest & Hw & -> & Hr).
    exists f', b', (rest ++ b). split; [done|]. split; [by rewrite app_assoc|].
    intros [? _]%app_eq_nil. done.
  - destruct (Hm _ _ _ _ Ho E1) as (f1 & a' & rest & Hw1 & -> & ->). rewrite app_nil_r.
    destruct (Hk x _ _ _ _ (wrote_open _ _ _ _ _ Hw1) E2) as (f2 & b' & rest & Hw2 & -> & Hr).
    exists f2, (a' ++ b'), rest. split; [by eapply wrote_trans|]. split; [by rewrite app_assoc|done].
Qed.

Lemma buffer_spec b s f :
  open_ok s f -> blen b <= spare_capacity s.2 ->
  wrote s f (s.1, set_buf (bw_buf s.2 ++ b) 0 s.2) f b.
Proof.
  intros (Hf & Hp & Hc & Hz) Hb. unfold spare_capacity in Hb. split; try done.
  - unfold open_ok. simpl. rewrite blen_app. split; [done|lia].
  - simpl. by rewrite insert_id.
  - unfold written. simpl. by rewrite app_assoc.
Qed.

Lemma through_writes b s f r s' :
  open_ok s f -> bw_buf s.2 = [] -> b <> [] -> write_through b s = (r, s') ->
  exists f' b' rest, wrote s f s' f' b' /\ b = b' ++ rest /\
    match r with Ok _ => rest = [] | Err => rest <> [] end.
Proof.
  destruct s as [d w]. intros Ho Hw Hb E. unfold write_through in E.
  destruct (write_file _ _ d) as [r1 d1] eqn:Ew. pose proof Ho as (Hf & _). simpl in Hf, Hw.
  apply (write_file_spec _ _ _ f) in Ew as (o & b' & rest & -> & Hbb & Hd & Hcl & Hr); [|done|done].
  injection E as <- <-. rewrite Hw. eexists _, b', rest. split; [|done]. split; try done.
  - apply (wrote_file (d, w) f); [done|simpl; by rewrite Hw|done].
  - unfold written. simpl. by rewrite Hw, !app_nil_r.
  - simpl. by apply prefix_app_r.
Qed.

Lemma write_all_writes b : writes (write_all b) b.
Proof.
  intros s f r s' Ho E. unfold write_all in E. erewrite bind_ok in E by done.
  assert (forall s1 f1, wrote s f s1 f1 [] -> blen b <= spare_capacity s1.2 -> buffer_bytes b s1 = (r, s') ->
    exists f' b' rest, wrote s f s' f' b' /\ b = b' ++ rest /\
      match r with Ok _ => rest = [] | Err => rest <> [] end) as Hbuf.
  { intros [d w] f1 Hw Hl Eb. injection Eb as <- <-. exists f1, b, []. rewrite app_nil_r.
    split; [|done]. apply (wrote_trans _ _ _ _ _ _ [] b Hw).
    by apply (buffer_spec b (d, w) f1); [eapply wrote_open, Hw|]. }
  assert (forall s1 f1, wrote s f s1 f1 [] -> bw_buf s1.2 = [] -> b <> [] -> write_through b s1 = (r, s') ->
    exists f' b' rest, wrote s f s' f' b' /\ b = b' ++ rest /\
      match r with Ok _ => rest = [] | Err => rest <> [] end) as Hthrough.
  { intros s1 f1 Hw Hl Hb Eb. destruct (through_writes b s1 f1 r s') as (f' & b' & rest & Hw' & ?); try done.
    { eapply wrote_open, Hw. }
    exists f', b', rest. split; [|done]. by apply (wrote_trans _ _ _ _ _ _ [] b' Hw). }
  pose proof (wrote_nothing s f s Ho eq_refl (reflexivity _)) as H0. pose proof Ho as (_ & _ & Hc & Hz).
  destruct (Z.ltb_spec (blen b) (spare_capacity s.2)); [apply (Hbuf s f); [done|lia|done]|].
  unfold write_all_cold in E. erewrite bind_ok in E by done. unfold spare_capacity in *.
  pose proof (blen_nonneg b). pose proof (blen_nonneg (bw_buf s.2)).
  destruct (Z.ltb_spec (bw_capacity s.2 - blen (bw_buf s.2)) (blen b)).
  - assert (b <> []) as Hb by (intros ->; rewrite blen_nil in *; lia).
    apply bind_cases in E as [[E ->]|([] & s1 & E1 & E)].
    + destruct (flush_buf_spec _ _ _ _ Ho E) as (f' & Hw & _). by exists f', [], b.
    + destruct (flush_buf_spec _ _ _ _ Ho E1) as (f1 & Hw & Hr). specialize (Hr eq_refl).
      erewrite bind_ok in E by done.
      destruct (Z.leb_spec (bw_capacity s1.2) (blen b)); [by apply (Hthrough s1 f1)|].
      apply (Hbuf s1 f1); [done| |done]. rewrite Hr, blen_nil. lia.
  - erewrite bind_ok in E by done. erewrite bind_ok in E by done.
    destruct (Z.leb_spec (bw_capacity s.2) (blen b)).
    + apply (Hthrough s f); [done|apply blen_zero; lia| |done]. intros ->. rewrite blen_nil in *. lia.
    + apply (Hbuf s f); [done|lia|done].
Qed.

(** A write that fits the buffer makes no system call. *)
Lemma write_all_fits b s :
  blen b < spare_capacity s.2 -> write_all b s = (Ok tt, (s.1, set_buf (bw_buf s.2 ++ b) 0 s.2)).
Proof.
  intros Hb. unfold write_all. erewrite bind_ok by done. rewrite (proj2 (Z.ltb_lt _ _) Hb). by destruct s.
Qed.

Lemma position_spec s f r s' :
  open_ok s f -> stream_position s = (r, s') ->
  exists f', wrote s f s' f' [] /\
    (forall n, r = Ok n -> n = blen (written s f) /\ content f' = written s f).
Proof.
  intros Ho [[E ->]|([] & s1 & E1 & E)]%bind_cases.
  { destruct (flush_buf_spec _ _ _ _ Ho E) as (f' & Hw & _). by exists f'. }
  destruct (flush_buf_spec _ _ _ _ Ho E1) as (f1 & Hw & Hb). specialize (Hb eq_refl). exists f1.
  assert (forall d', same_files s1.1 d' -> wrote s f (d', s1.2) f1 []) as Hkeep.
  { intros d' Hd. apply (wrote_trans _ _ _ _ _ _ [] [] Hw).
    apply wrote_nothing; [eapply wrote_open, Hw|done|done]. }
  pose proof (wrote_bytes _ _ _ _ _ Hw) as Hbytes. unfold written in Hbytes at 1.
  rewrite Hb, !app_nil_r in Hbytes.
  apply bind_cases in E as [[E ->]|(? & s2 & E & E2)];
    apply focus_inv in E as (d' & E & ->); apply syscall_inv in E as [[? Hd]|(d1 & Hd & [= <- <-])];
    try (by split; [apply Hkeep|]); try done.
  injection E2 as <- <-. split; [by apply Hkeep|]. intros n [= <-]. cbn [snd].
  pose proof (wrote_open _ _ _ _ _ Hw) as (_ & Hp & _). by rewrite Hp, Hbytes.
Qed.

Lemma sync_spec s f r s' :
  open_ok s f -> sync_writer s = (r, s') ->
  exists f', wrote s f s' f' [] /\ s'.2 = s.2 /\ content f' = content f /\
    (r = Ok tt -> synced f' = blen (content f)).
Proof.
  destruct s as [d w]. intros Ho E. unfold sync_writer in E.
  destruct (sync_file _ d) as [r1 d1] eqn:Es. injection E as <- <-.
  apply syscall_inv in Es as [[-> Hd]|(d2 & [Hd Hcl] & [= <- <-])].
  - exists f. split; [by apply wrote_nothing|done].
  - pose proof Ho as (Hf & Hp & Hc). simpl in Hf. rewrite <- Hd in Hf.
    exists {| content := content f; synced := blen (content f) |}. split; [|done]. split; try done.
    + unfold open_ok. simpl. by rewrite lookup_alter_eq, Hf.
    + simpl. rewrite <- Hd. apply map_eq. intros q. destruct (decide (q = bw_path w)) as [->|Hn].
      * by rewrite lookup_alter_eq, lookup_insert_eq, Hf.
      * by rewrite lookup_alter_ne, lookup_insert_ne.
    + unfold written. simpl. by rewrite app_nil_r.
Qed.
