(* ===== verification/Sink.v ===== *)
(** * The metadata sink as its clients see it ([MetadataSink] in [src/src/storage/mod.rs])

    What the segment store, the HTTP layer and the matcher send to the metadata
    writer, and the contract a sender relies on: an accepted index row is appended
    to what was sent, and a durable barrier that succeeds leaves every row sent
    before it in local durable storage. *)

From S2P Require Import Prelude Model Text Disk.

Inductive MetadataEvent :=
  | MetaFlow (s : FlowSummary)
  | MetaHttp (r : HttpRecord)
  | MetaMatch (r : MatchRecord)
  | MetaContentIndex (r : ContentIndexRecord).

Definition index_row (e : MetadataEvent) : option ContentIndexRecord :=
  match e with MetaContentIndex r => Some r | _ => None end.

Class MetadataSink (S : Type) := {
  send : MetadataEvent -> Eff S unit;
  durable_barrier : Eff S unit;
  (** The states a sink can be in. *)
  sink_ok : S -> Prop;
  (** The index rows accepted so far, and those of them in durable storage. *)
  rows_sent : S -> list ContentIndexRecord;
  rows_durable : S -> list ContentIndexRecord
}.

Class MetadataSinkLaws (S : Type) `{MetadataSink S} := {
  send_keeps e s r s' : sink_ok s -> send e s = (r, s') -> sink_ok s';
  send_accepted e s s' :
    sink_ok s -> send e s = (Ok tt, s') -> rows_sent s' = rows_sent s ++ omap index_row [e];
  send_refused e s s' : sink_ok s -> send e s = (Err, s') -> rows_sent s' = rows_sent s;
  send_durable e s r s' :
    sink_ok s -> send e s = (r, s') -> rows_durable s `prefix_of` rows_durable s';
  barrier_keeps s r s' : sink_ok s -> durable_barrier s = (r, s') -> sink_ok s';
  barrier_sent s r s' : sink_ok s -> durable_barrier s = (r, s') -> rows_sent s' = rows_sent s;
  barrier_grows s r s' :
    sink_ok s -> durable_barrier s = (r, s') -> rows_durable s `prefix_of` rows_durable s';
  barrier_durable s s' :
    sink_ok s -> durable_barrier s = (Ok tt, s') -> rows_durable s' = rows_sent s'
}.
