(* ===== verification/Segment.v ===== *)
(** * The segment format ([src/src/storage/segment.rs])

    How a content record is laid out in a segment file, how a reader takes it
    back, the strict scans, and the recovery of the newest segment after a crash.
    The checksum ([crc32fast]) is a parameter. *)

From stdpp Require Import strings sorting.
From S2P Require Import Prelude Model Text Services Disk.

(** [crc32fast::Hasher]: the checksum of all bytes fed to it. *)
Class Crc32 := { crc32 : bytes -> Z; crc32_u32 : forall b, 0 <= crc32 b < 2 ^ 32 }.

(** ** Integers as bytes *)

Fixpoint to_le_bytes (n : nat) (x : Z) : bytes :=
  match n with O => [] | S n => byte_of x :: to_le_bytes n (Z.shiftr x 8) end.

Fixpoint from_le_bytes (b : bytes) : Z :=
  match b with [] => 0 | x :: b => byte_val x + Z.shiftl (from_le_bytes b) 8 end.

(** [Uuid::as_bytes] and [Uuid::from_slice]: 128 bits, most significant first. *)
Definition uuid_bytes (id : Z) : bytes := rev (to_le_bytes 16 id).
Definition uuid_from_slice (b : bytes) : Z := from_le_bytes (rev b).

(** ** The format *)

Definition MAGIC : bytes := bytes_of "PMSEG001".
Definition RECORD_MAGIC : Z := 0x504d5243.
Definition HEADER_SIZE : Z := 8 + 4 + 8.

Definition direction_to_u8 (v : Direction) : byte :=
  match v with AToB => byte_of 0 | BToA => byte_of 1 end.

Definition u8_to_direction (v : byte) : Result Direction :=
  let x := byte_val v in if x =? 0 then Ok AToB else if x =? 1 then Ok BToA else Err.

Definition view_to_u8 (v : ContentView) : byte :=
  byte_of match v with
          | TcpRaw => 0
          | HttpRequestHeaders => 1
          | HttpRequestBody => 2
          | HttpRequestDecodedBody => 3
          | HttpResponseHeaders => 4
          | HttpResponseBody => 5
          | HttpResponseDecodedBody => 6
          end.

Definition u8_to_view (v : byte) : Result ContentView :=
  let x := byte_val v in
  if x =? 0 then Ok TcpRaw
  else if x =? 1 then Ok HttpRequestHeaders
  else if x =? 2 then Ok HttpRequestBody
  else if x =? 3 then Ok HttpRequestDecodedBody
  else if x =? 4 then Ok HttpResponseHeaders
  else if x =? 5 then Ok HttpResponseBody
  else if x =? 6 then Ok HttpResponseDecodedBody
  else Err.

Definition encode_record_prefix (r : ContentRecord) : Result bytes :=
  let service := default [] (cr_service r) in
  if u16_MAX <? blen service then Err
  else if u32_MAX <? blen (cr_data r) then Err
  else Ok (uuid_bytes (cr_id r) ++ uuid_bytes (cr_flow_id r) ++ to_le_bytes 8 (cr_ts_ns r)
           ++ to_le_bytes 2 (blen service) ++ service
           ++ [direction_to_u8 (cr_direction r); view_to_u8 (cr_view r)]
           ++ to_le_bytes 8 (cr_stream_offset r) ++ to_le_bytes 4 (blen (cr_data r))).

(** ** Reading

    A reader's position is the bytes it has not read. *)

Abbreviation Reader := (Eff bytes).

(** [take]: the next [n] bytes of a slice. *)
Definition take_bytes (n : Z) : Reader bytes :=
  fun d => if blen d <? n then (Err, d) else (Ok (take (Z.to_nat n) d), drop (Z.to_nat n) d).

Definition take_u16 : Reader Z := b ← take_bytes 2; mret (from_le_bytes b).
Definition take_u32 : Reader Z := b ← take_bytes 4; mret (from_le_bytes b).
Definition take_u64 : Reader Z := b ← take_bytes 8; mret (from_le_bytes b).

(** [take(data, 1)?\[0\]]. *)
Definition take_u8 : Reader byte := b ← take_bytes 1; lift (of_option (head b)).

(** Reads to the end: everything must have been taken. *)
Definition expect_end : Reader unit := fun d => (if is_empty d then Ok tt else Err, d).

Definition record_fields : Reader ContentRecord :=
  id ← take_bytes 16;
  flow_id ← take_bytes 16;
  ts_ns ← take_u64;
  service_len ← take_u16;
  service_bytes ← take_bytes service_len;
  let service := if is_empty service_bytes then None
                 else Some (str_bytes (from_utf8_lossy service_bytes)) in
  d ← take_u8;
  direction ← lift (u8_to_direction d);
  v ← take_u8;
  view ← lift (u8_to_view v);
  stream_offset ← take_u64;
  len ← take_u32;
  payload ← take_bytes len;
  _ ← expect_end;
  mret {| cr_id := uuid_from_slice id; cr_flow_id := uuid_from_slice flow_id;
          cr_ts_ns := ts_ns; cr_service := service; cr_direction := direction;
          cr_view := view; cr_stream_offset := stream_offset; cr_data := payload |}.

Definition decode_record (data : bytes) : Result ContentRecord :=
  if blen data <? 16 + 16 + 8 + 2 + 1 + 1 + 8 + 4 then Err else (record_fields data).1.

(** [read] until the buffer is full or the file ends. *)
Definition read_up_to (n : Z) : Reader bytes :=
  fun d => (Ok (take (Z.to_nat n) d), drop (Z.to_nat n) d).

(** [read_exact]: an error when the file ends first. *)
Definition read_exact (n : Z) : Reader bytes :=
  b ← read_up_to n; _ ← ensure (blen b =? n); mret b.

Definition read_u32 : Reader Z := b ← read_exact 4; mret (from_le_bytes b).
Definition read_u64 : Reader Z := b ← read_exact 8; mret (from_le_bytes b).

Definition read_header : Reader unit :=
  magic ← read_exact 8;
  _ ← ensure (bool_decide (magic = MAGIC));
  version ← read_u32;
  _ ← ensure (version =? 1);
  _ ← read_u64;
  mret tt.

(** The three words in front of a record. *)
Definition word_at (i : nat) (hdr : bytes) : Z := from_le_bytes (take 4 (drop (4 * i) hdr)).

Section Format.
Context `{Crc32}.

Definition read_record (max_record_bytes : Z) (available_bytes : option Z)
  : Reader (option (ContentRecord * Z)) :=
  hdr ← read_up_to 12;
  if is_empty hdr then mret None else
  _ ← ensure (blen hdr =? 12);
  _ ← ensure (word_at 0 hdr =? RECORD_MAGIC);
  let len := word_at 1 hdr in
  _ ← ensure (len <=? max_record_bytes);
  _ ← ensure match available_bytes with
             | Some available => sat_add 12 len <=? available
             | None => true
             end;
  let expected_crc := word_at 2 hdr in
  payload ← read_exact len;
  _ ← ensure (crc32 payload =? expected_crc);
  r ← lift (decode_record payload);
  mret (Some (r, 12 + len)).

(** [seek(SeekFrom::Start(offset))] in a file of these bytes; a position past the
    end reads nothing. *)
Definition seek (offset : Z) (data : bytes) : bytes := drop (Z.to_nat offset) data.

(** One record at a position, of a file read as a whole. *)
Definition record_at (data : bytes) (offset max_record_bytes : Z) : Result ContentRecord :=
  match (read_record max_record_bytes (Some (sat_sub (blen data) offset)) (seek offset data)).1 with
  | Ok (Some (r, _)) => Ok r
  | _ => Err
  end.

Definition read_record_at (path : Path) (offset max_record_bytes : Z) : IO ContentRecord :=
  data ← read_file path; lift (record_at data offset max_record_bytes).

(** *** Scans

    The loop of [scan_path] and [rebuild_index_path] over a file of [file_len]
    bytes: [f] receives each record with its offset.  [n] bounds the rounds; each
    takes at least twelve bytes, so the length of the file is enough. *)
Fixpoint scan_loop {St} (f : Z -> ContentRecord -> Eff St unit) (max_record_bytes file_len : Z)
    (n : nat) (rest : bytes) (total : Z) : Eff St Z :=
  match n with
  | O => bail
  | S n =>
      let pos := file_len - blen rest in
      match read_record max_record_bytes (Some (sat_sub file_len pos)) rest with
      | (Ok (Some (record, consumed)), rest) =>
          _ ← f pos record;
          scan_loop f max_record_bytes file_len n rest (total + consumed)
      | (Ok None, _) => mret total
      | (Err, _) => bail
      end
  end.

Definition scan_file {St} (f : Z -> ContentRecord -> Eff St unit) (max_record_bytes : Z)
    (data : bytes) : Eff St Z :=
  match read_header data with
  | (Ok _, rest) => scan_loop f max_record_bytes (blen data) (S (length rest)) rest HEADER_SIZE
  | (Err, _) => bail
  end.

(** *** Recovery *)

(** [OsStr::to_str] of the extension, compared with ["seg"]. *)
Definition is_segment (p : Path) : bool := bool_decide (extension (file_name p) = Some "seg"%string).

Definition path_le (p q : Path) : Prop := name_le (file_name p) (file_name q).

#[export] Instance path_le_dec : RelDecision path_le.
Proof. intros p q. unfold path_le. apply _. Defined.

(** The paths share their directory, so their order is that of their names. *)
Definition sort_paths (l : list Path) : list Path := merge_sort path_le l.

Definition list_segments (root : Path) : IO (list Path) :=
  paths ← read_dir root;
  mret (sort_paths (filter (fun p => is_segment p = true) paths)).

Definition latest_segment_path (root : Path) : IO (option Path) :=
  paths ← list_segments root; mret (last paths).

Definition truncate_tail (path : Path) (offset : Z) : IO unit :=
  _ ← set_len path offset; sync_file path.

(** The records of the newest segment from [rest] on: an incomplete one at the
    end is cut off, a complete one must be sound. *)
Fixpoint recover_loop (path : Path) (max_record_bytes file_len : Z) (n : nat) (rest : bytes)
  : IO unit :=
  match n with
  | O => bail
  | S n =>
      let offset := file_len - blen rest in
      if offset =? file_len then mret tt else
      let remaining := sat_sub file_len offset in
      if remaining <? 12 then truncate_tail path offset else
      match read_exact 12 rest with
      | (Err, _) => bail
      | (Ok hdr, rest) =>
          _ ← ensure (word_at 0 hdr =? RECORD_MAGIC);
          let len := word_at 1 hdr in
          _ ← ensure (len <=? max_record_bytes);
          let record_end := sat_add (sat_add offset 12) len in
          if file_len <? record_end then truncate_tail path offset else
          let expected_crc := word_at 2 hdr in
          match read_exact len rest with
          | (Err, _) => bail
          | (Ok payload, rest) =>
              _ ← ensure (crc32 payload =? expected_crc);
              _ ← lift (decode_record payload);
              recover_loop path max_record_bytes file_len n rest
          end
      end
  end.

Definition recover_last_segment_tail (root : Path) (max_record_bytes : Z) : IO unit :=
  newest ← latest_segment_path root;
  match newest with
  | None => mret tt
  | Some path =>
      data ← read_file path;
      if blen data <? HEADER_SIZE then remove_file path else
      match read_header data with
      | (Err, _) => bail
      | (Ok _, rest) => recover_loop path max_record_bytes (blen data) (S (length rest)) rest
      end
  end.

Definition sum_lengths (lens : list Z) : Z := fold_left sat_add lens 0.

(** The lengths of the files named, each looked up with [metadata]. *)
Definition file_lengths (paths : list Path) : IO (list Z) :=
  foldr (fun p acc => l ← file_len p; ls ← acc; mret (l :: ls)) (mret []) paths.

Definition directory_bytes (root : Path) : IO Z :=
  paths ← read_dir root;
  lens ← file_lengths paths;
  mret (sum_lengths lens).
End Format.
