(* ===== verification/SegmentSpec.v ===== *)
(** * What the segment format guarantees

    Round trips of the integers, of UTF-8 text and of a record's envelope, and
    the two theorems a store rests on: a file of complete records scans back to
    them, and recovery keeps exactly the complete records. *)

From stdpp Require Import strings sorting.
From S2P Require Import Prelude Model Text Services Disk DiskSpec Segment.

#[export] Instance Ok_inj {A} : Inj (=) (=) (@Ok A).
Proof. by intros ? ? [=]. Qed.

(** ** Integers *)

Lemma to_le_length n x : blen (to_le_bytes n x) = Z.of_nat n.
Proof. revert x. induction n as [|n IH]; intros x; simpl; [done|]. rewrite blen_cons, IH. lia. Qed.

Lemma le_roundtrip n x : 0 <= x < 2 ^ (8 * Z.of_nat n) -> from_le_bytes (to_le_bytes n x) = x.
Proof.
  revert x. induction n as [|n IH]; intros x Hx; simpl; [change (2 ^ (8 * Z.of_nat 0)) with 1 in Hx; lia|].
  rewrite Z.shiftr_div_pow2, Z.shiftl_mul_pow2 by lia. change (2 ^ 8) with 256.
  rewrite IH.
  - rewrite byte_val_of. unfold wrap. change (2 ^ 8) with 256.
    pose proof (Z.div_mod x 256). lia.
  - replace (8 * Z.of_nat (S n)) with (8 + 8 * Z.of_nat n) in Hx by lia.
    rewrite Z.pow_add_r in Hx by lia. change (2 ^ 8) with 256 in Hx.
    split; [apply Z.div_pos; lia|]. apply Z.div_lt_upper_bound; lia.
Qed.

Lemma le_bytes_range b : 0 <= from_le_bytes b < 2 ^ (8 * blen b).
Proof.
  induction b as [|x b IH]; [done|]. rewrite blen_cons. simpl.
  rewrite Z.shiftl_mul_pow2 by lia. rewrite Z.mul_add_distr_l, Z.pow_add_r by (pose proof (blen_nonneg b); lia).
  change (2 ^ (8 * 1)) with 256. change (2 ^ 8) with 256. pose proof (byte_val_range x). lia.
Qed.

Lemma le_bytes_inv b : to_le_bytes (length b) (from_le_bytes b) = b.
Proof.
  induction b as [|x b IH]; [done|]. cbn [length to_le_bytes from_le_bytes].
  rewrite Z.shiftl_mul_pow2 by lia. change (2 ^ 8) with 256. pose proof (byte_val_range x). f_equal.
  - rewrite <- (byte_of_val x) at 2. unfold byte_of, wrap. change (2 ^ 8) with 256.
    by rewrite Z.mod_add by lia.
  - rewrite Z.shiftr_div_pow2 by lia. change (2 ^ 8) with 256. rewrite Z.div_add by lia.
    by rewrite (Z.div_small (byte_val x)), Z.add_0_l by lia.
Qed.

Lemma uuid_length id : blen (uuid_bytes id) = 16.
Proof. done. Qed.

Lemma uuid_roundtrip id : 0 <= id < 2 ^ 128 -> uuid_from_slice (uuid_bytes id) = id.
Proof. intros H. unfold uuid_from_slice, uuid_bytes. rewrite rev_involutive. by apply le_roundtrip. Qed.

(** ** UTF-8 *)

Lemma continuation_low b : continuation b = true -> byte_val b = 0x80 + low6 b /\ 0 <= low6 b < 64.
Proof.
  unfold continuation, between, low6. intros H. reflect_bools.
  change 0x3F with (Z.ones 6). rewrite Z.land_ones by lia. change (2 ^ 6) with 64.
  Z.div_mod_to_equations. lia.
Qed.

(** The bytes of a sequence come back from its code point. *)
Lemma tail_byte b c : continuation b = true -> Z.land c 0x3F = low6 b -> byte_of (0x80 + Z.land c 0x3F) = b.
Proof.
  intros H E. destruct (continuation_low b H) as [Hb _]. rewrite E, <- Hb. apply byte_of_val.
Qed.

Lemma low_bits z : Z.land z 0x3F = z mod 64.
Proof. change 0x3F with (Z.ones 6). by rewrite Z.land_ones. Qed.

Ltac utf8_arith :=
  unfold encode_utf8, tail6; rewrite !low_bits, ?Z.shiftr_div_pow2, ?Z.shiftl_mul_pow2 by lia;
  repeat match goal with |- context [2 ^ ?k] => let v := eval vm_compute in (2 ^ k) in change (2 ^ k) with v end;
  rewrite ?Z.div_1_r;
  repeat match goal with |- context [?a <? ?b] => destruct (Z.ltb_spec a b); [try lia|try lia] end;
  repeat f_equal; Z.div_mod_to_equations; lia.

Lemma encode_two x l :
  0xC2 <= x <= 0xDF -> 0 <= l < 64 ->
  encode_utf8 (Z.shiftl (x - 0xC0) 6 + l) = [byte_of x; byte_of (0x80 + l)].
Proof. intros. utf8_arith. Qed.

Lemma encode_three x l1 l2 :
  0xE0 <= x <= 0xEF -> (x = 0xE0 -> 32 <= l1) -> 0 <= l1 < 64 -> 0 <= l2 < 64 ->
  encode_utf8 (Z.shiftl (x - 0xE0) 12 + Z.shiftl l1 6 + l2)
  = [byte_of x; byte_of (0x80 + l1); byte_of (0x80 + l2)].
Proof. intros. utf8_arith. Qed.

Lemma encode_four x l1 l2 l3 :
  0xF0 <= x <= 0xF4 -> (x = 0xF0 -> 16 <= l1) -> 0 <= l1 < 64 -> 0 <= l2 < 64 -> 0 <= l3 < 64 ->
  encode_utf8 (Z.shiftl (x - 0xF0) 18 + Z.shiftl l1 12 + Z.shiftl l2 6 + l3)
  = [byte_of x; byte_of (0x80 + l1); byte_of (0x80 + l2); byte_of (0x80 + l3)].
Proof. intros. utf8_arith. Qed.

Lemma encode_one x : 0 <= x < 0x80 -> encode_utf8 x = [byte_of x].
Proof. intros. unfold encode_utf8. by rewrite (proj2 (Z.ltb_lt x 0x80)) by lia. Qed.

Lemma second3_low x b : second3 x b = true -> continuation b = true /\ (x = 0xE0 -> 32 <= low6 b).
Proof.
  intros H. assert (continuation b = true) as Hc.
  { unfold second3, continuation, between in *. reflect_bools. apply andb_true_iff.
    split; apply Z.leb_le; repeat case_match; lia. }
  split; [done|]. intros ->. destruct (continuation_low b Hc). unfold second3, between in H.
  reflect_bools. simpl in *. lia.
Qed.

Lemma second4_low x b : second4 x b = true -> continuation b = true /\ (x = 0xF0 -> 16 <= low6 b).
Proof.
  intros H. assert (continuation b = true) as Hc.
  { unfold second4, continuation, between in *. reflect_bools. apply andb_true_iff.
    split; apply Z.leb_le; repeat case_match; lia. }
  split; [done|]. intros ->. destruct (continuation_low b Hc). unfold second4, between in H.
  reflect_bools. simpl in *. lia.
Qed.

Ltac code_point_bytes :=
  repeat match goal with
  | H : second3 _ _ = true |- _ => apply second3_low in H as [? ?]
  | H : second4 _ _ = true |- _ => apply second4_low in H as [? ?]
  end;
  repeat match goal with
  | H : continuation ?b = true |- _ =>
      let E := fresh in
      destruct (continuation_low b H) as [E ?]; clear H
  end;
  unfold between in *; reflect_bools;
  rewrite ?encode_one, ?encode_two, ?encode_three, ?encode_four by (done || lia || (pose proof byte_val_range; lia));
  repeat match goal with H : byte_val ?b = 0x80 + low6 ?b |- _ => rewrite <- H; clear H end;
  by rewrite !byte_of_val.

(** Valid text is the encoding of its characters. *)
Lemma utf8_roundtrip v cs : from_utf8 v = Ok cs -> str_bytes cs = v.
Proof.
  unfold from_utf8. intros H. assert (mapM (fun c => c) (chars v) = Some cs) as E.
  { destruct (mapM _ _); simpl in H; congruence. }
  clear H. revert cs E. remember (length v) as n eqn:Hn. revert v Hn.
  induction n as [n IH] using lt_wf_ind. intros v Hn cs E.
  destruct v as [|b0 r0]; [by injection E as <-|].
  pose proof (byte_val_range b0).
  cbn [chars] in E. repeat case_match; simpl in E; try discriminate E.
  all: apply bind_Some in E as (cs' & E & [= <-]).
  all: unfold str_bytes; cbn [map concat]; fold (str_bytes cs').
  all: match type of E with mapM _ (chars ?l) = Some ?k =>
         rewrite (IH (length l) ltac:(subst n; simpl; lia) l eq_refl k E) end.
  all: code_point_bytes.
Qed.

Lemma utf8_lossless v cs : from_utf8 v = Ok cs -> str_bytes (from_utf8_lossy v) = v.
Proof.
  intros H. rewrite <- (utf8_roundtrip v cs H) at 2. f_equal. unfold from_utf8, from_utf8_lossy in *.
  destruct (mapM (fun c => c) (chars v)) as [cs'|] eqn:E; [|done]. injection H as ->.
  apply mapM_Some in E. induction E as [|o c l k Ho E IH]; [done|]. simpl. by rewrite IH, Ho.
Qed.

(** ** Fields *)

Lemma take_bytes_app n b rest : blen b = n -> take_bytes n (b ++ rest) = (Ok b, rest).
Proof.
  intros <-. unfold take_bytes. rewrite blen_app.
  rewrite (proj2 (Z.ltb_ge _ _)) by (pose proof (blen_nonneg rest); lia).
  unfold blen. rewrite Nat2Z.id, take_app_length, drop_app_length. done.
Qed.

Lemma take_le n x rest k :
  Z.of_nat n = k -> 0 <= x < 2 ^ (8 * k) ->
  (b ← take_bytes k; mret (from_le_bytes b)) (to_le_bytes n x ++ rest) = (Ok x, rest).
Proof.
  intros <- Hx. erewrite bind_ok by (apply take_bytes_app, to_le_length).
  by rewrite le_roundtrip by done.
Qed.

Lemma take_u8_app b rest : take_u8 (b :: rest) = (Ok b, rest).
Proof. unfold take_u8. by erewrite bind_ok by (by apply (take_bytes_app 1 [b])). Qed.

Lemma direction_roundtrip v : u8_to_direction (direction_to_u8 v) = Ok v.
Proof. by destruct v. Qed.

Lemma view_roundtrip v : u8_to_view (view_to_u8 v) = Ok v.
Proof. by destruct v. Qed.

(** A record as the model's types have it: identifiers of 128 bits, times and
    offsets of 64, and a service that is text. *)
Definition record_typed (r : ContentRecord) : Prop :=
  0 <= cr_id r < 2 ^ 128 /\ 0 <= cr_flow_id r < 2 ^ 128 /\ is_u64 (cr_ts_ns r) /\
  is_u64 (cr_stream_offset r) /\ exists cs, from_utf8 (default [] (cr_service r)) = Ok cs.

(** What a store gives back: an empty service name is no service. *)
Definition stored (r : ContentRecord) : ContentRecord :=
  {| cr_id := cr_id r; cr_flow_id := cr_flow_id r; cr_ts_ns := cr_ts_ns r;
     cr_service := match cr_service r with Some [] => None | o => o end;
     cr_direction := cr_direction r; cr_view := cr_view r;
     cr_stream_offset := cr_stream_offset r; cr_data := cr_data r |}.

Lemma prefix_length r p :
  encode_record_prefix r = Ok p -> blen p = 56 + blen (default [] (cr_service r)) /\
    blen (default [] (cr_service r)) <= u16_MAX /\ blen (cr_data r) <= u32_MAX.
Proof.
  unfold encode_record_prefix. repeat case_match; try done. intros <-%(inj Ok). reflect_bools.
  rewrite !blen_app, !uuid_length, !to_le_length. autorewrite with bazalt. lia.
Qed.

Lemma record_roundtrip r p :
  record_typed r -> encode_record_prefix r = Ok p -> decode_record (p ++ cr_data r) = Ok (stored r).
Proof.
  intros (Hid & Hflow & Hts & Hoff & cs & Hs) Hp. pose proof (prefix_length r p Hp) as (Hl & Hsl & Hdl).
  unfold decode_record. rewrite blen_app, Hl.
  pose proof (blen_nonneg (default [] (cr_service r))). pose proof (blen_nonneg (cr_data r)).
  rewrite (proj2 (Z.ltb_ge _ _)) by lia.
  unfold encode_record_prefix in Hp. do 2 (case_match; [done|]). apply (inj Ok) in Hp as <-.
  rewrite <- !app_assoc. unfold record_fields.
  erewrite bind_ok by (apply take_bytes_app, uuid_length).
  erewrite bind_ok by (apply take_bytes_app, uuid_length).
  erewrite bind_ok by (by apply take_le).
  erewrite bind_ok by (apply take_le; [done|]; unfold u16_MAX in *; lia).
  erewrite bind_ok by (by apply take_bytes_app). cbn [app].
  erewrite bind_ok by apply take_u8_app. erewrite bind_ok by (unfold lift; by rewrite direction_roundtrip).
  erewrite bind_ok by apply take_u8_app. erewrite bind_ok by (unfold lift; by rewrite view_roundtrip).
  erewrite bind_ok by (by apply take_le).
  erewrite bind_ok by (apply take_le; [done|]; unfold u32_MAX in *; lia).
  rewrite <- (app_nil_r (cr_data r)) at 2.
  erewrite bind_ok by (by apply take_bytes_app). erewrite bind_ok by done. simpl.
  rewrite !uuid_roundtrip by done. unfold stored. do 2 f_equal.
  destruct (cr_service r) as [[|b s]|]; [done| |done]. simpl in *. by rewrite (utf8_lossless _ _ Hs).
Qed.

(** ** Envelopes *)

Lemma read_up_to_app n b rest : blen b = n -> read_up_to n (b ++ rest) = (Ok b, rest).
Proof.
  intros <-. unfold read_up_to, blen. by rewrite Nat2Z.id, take_app_length, drop_app_length.
Qed.

Lemma read_exact_app n b rest : blen b = n -> read_exact n (b ++ rest) = (Ok b, rest).
Proof.
  intros E. unfold read_exact. erewrite bind_ok by by apply read_up_to_app.
  erewrite bind_ok; [done|]. apply ensure_true. by apply Z.eqb_eq.
Qed.

Lemma words a b c :
  0 <= a < 2 ^ 32 -> 0 <= b < 2 ^ 32 -> 0 <= c < 2 ^ 32 ->
  let hdr := to_le_bytes 4 a ++ to_le_bytes 4 b ++ to_le_bytes 4 c in
  word_at 0 hdr = a /\ word_at 1 hdr = b /\ word_at 2 hdr = c.
Proof.
  intros Ha Hb Hc hdr. unfold word_at, hdr.
  assert (forall x, length (to_le_bytes 4 x) = 4%nat) as L by done.
  split; [|split]; cbn [Nat.mul Nat.add].
  - by rewrite drop_0, take_app_length', le_roundtrip by (done || symmetry; apply L).
  - rewrite drop_app_length' by (symmetry; apply L).
    by rewrite take_app_length', le_roundtrip by (done || symmetry; apply L).
  - rewrite (app_assoc (to_le_bytes 4 a)), drop_app_length' by (rewrite length_app, !L; done).
    by rewrite firstn_all2, le_roundtrip by (done || rewrite L; lia).
Qed.

(** A payload with the record it decodes to. *)
Abbreviation Frame := (bytes * ContentRecord)%type.

Section Records.
Context `{Crc32}.

Definition envelope (payload : bytes) : bytes :=
  (to_le_bytes 4 RECORD_MAGIC ++ to_le_bytes 4 (blen payload) ++ to_le_bytes 4 (crc32 payload)) ++ payload.

Lemma envelope_length p : blen (envelope p) = 12 + blen p.
Proof. unfold envelope. rewrite !blen_app, !to_le_length. lia. Qed.

(** What [read_record] and recovery check of the twelve bytes in front of a payload. *)
Lemma envelope_words p :
  blen p <= u32_MAX ->
  exists hdr, envelope p = hdr ++ p /\ blen hdr = 12 /\ is_empty hdr = false /\
    word_at 0 hdr = RECORD_MAGIC /\ word_at 1 hdr = blen p /\ word_at 2 hdr = crc32 p.
Proof.
  intros Hl. eexists. split; [reflexivity|]. pose proof (blen_nonneg p).
  destruct (words RECORD_MAGIC (blen p) (crc32 p)) as (W0 & W1 & W2);
    [done|unfold u32_MAX in Hl; lia|apply crc32_u32|].
  rewrite W0, W1, W2. rewrite !blen_app, !to_le_length. done.
Qed.

(** Within the limits of a reader. *)
Definition frame_ok (max_record_bytes : Z) (fr : Frame) : Prop :=
  blen fr.1 <= u32_MAX /\ blen fr.1 <= max_record_bytes /\ decode_record fr.1 = Ok fr.2.

(** The bytes of frames, one after the other. *)
Definition frames (l : list Frame) : bytes := List.concat (map (fun fr => envelope fr.1) l).

Lemma frames_app l k : frames (l ++ k) = frames l ++ frames k.
Proof. unfold frames. by rewrite map_app, concat_app. Qed.

Lemma read_frame m fr rest available :
  frame_ok m fr -> (match available with Some a => 12 + blen fr.1 <= a | None => True end) ->
  read_record m available (envelope fr.1 ++ rest) = (Ok (Some (fr.2, 12 + blen fr.1)), rest).
Proof.
  intros (Hu & Hm & Hd) Ha. destruct (envelope_words _ Hu) as (hdr & -> & Hl & He & W0 & W1 & W2).
  rewrite <- app_assoc. unfold read_record.
  erewrite bind_ok by by apply read_up_to_app. rewrite He, W0, W1, W2.
  erewrite bind_ok by (apply ensure_true; lia). erewrite bind_ok by by apply ensure_true.
  erewrite bind_ok by (apply ensure_true; lia).
  erewrite bind_ok by (apply ensure_true; destruct available; [|done]; unfold sat_add; lia).
  erewrite bind_ok by by apply read_exact_app. erewrite bind_ok by (apply ensure_true; lia).
  erewrite bind_ok by (unfold lift; by rewrite Hd). done.
Qed.

(** ** The records a store writes *)

Definition storable (max_record_bytes : Z) (r : ContentRecord) : Prop :=
  record_typed r /\ exists p, encode_record_prefix r = Ok p /\
    blen (p ++ cr_data r) <= u32_MAX /\ blen (p ++ cr_data r) <= max_record_bytes.

(** The frame of a record: its encoded prefix and data, and what they decode to. *)
Definition frame_of (r : ContentRecord) : Frame :=
  (match encode_record_prefix r with Ok p => p | Err => [] end ++ cr_data r, stored r).

Lemma frame_of_ok m r : storable m r -> frame_ok m (frame_of r).
Proof.
  intros (Ht & p & Hp & Hu & Hm). unfold frame_of, frame_ok. rewrite Hp. split; [done|]. split; [done|].
  by apply record_roundtrip.
Qed.

(** ** Scans *)

(** A visitor's passage over frames, each with its offset. *)
Fixpoint visit {St} (f : Z -> ContentRecord -> Eff St unit) (pos : Z) (l : list Frame) : Eff St unit :=
  match l with
  | [] => mret tt
  | fr :: l => _ ← f pos fr.2; visit f (pos + (12 + blen fr.1)) l
  end.

Lemma scan_frames {St} (f : Z -> ContentRecord -> Eff St unit) m l : forall n len total s,
  Forall (frame_ok m) l -> blen (frames l) <= len -> (length (frames l) < n)%nat ->
  scan_loop f m len n (frames l) total s
  = (_ ← visit f (len - blen (frames l)) l; mret (total + blen (frames l))) s.
Proof.
  induction l as [|fr l IH]; intros [|n] len total s Hs Hl Hn; [simpl in *; lia| |simpl in *; lia|].
  - cbn. by rewrite Z.add_0_r.
  - inversion_clear Hs as [|? ? Hr Hrs]. cbn [scan_loop visit]. unfold frames in *. cbn [map concat] in *.
    fold (frames l) in *. rewrite blen_app in *. pose proof (blen_nonneg (frames l)).
    pose proof (blen_nonneg fr.1). rewrite envelope_length in *.
    rewrite read_frame by (done || unfold sat_sub; lia).
    unfold mbind, Eff_bind at 1 2 3. destruct (f _ _ s) as [[[]|] s1]; [|done].
    rewrite IH; [|done|lia|].
    2:{ rewrite length_app in Hn. pose proof (envelope_length fr.1). unfold blen in *. lia. }
    unfold mbind, Eff_bind. replace (len - (12 + blen fr.1 + blen (frames l)) + (12 + blen fr.1))
      with (len - blen (frames l)) by lia.
    destruct (visit _ _ _ _) as [[]]; [|done]. unfold mret, Eff_ret. do 2 f_equal. lia.
Qed.

Definition header_ok (hdr : bytes) : Prop :=
  blen hdr = HEADER_SIZE /\ forall rest, read_header (hdr ++ rest) = (Ok tt, rest).

Lemma header_written created :
  header_ok (MAGIC ++ to_le_bytes 4 1 ++ to_le_bytes 8 created).
Proof.
  split; [by rewrite !blen_app, !to_le_length|]. intros rest. rewrite <- !app_assoc. unfold read_header.
  erewrite bind_ok by by apply read_exact_app. erewrite bind_ok by done. unfold read_u32, read_u64.
  erewrite bind_ok. 2:{ erewrite bind_ok by (by apply read_exact_app, to_le_length). done. }
  erewrite bind_ok by done.
  erewrite bind_ok. 2:{ erewrite bind_ok by (by apply read_exact_app, to_le_length). done. }
  done.
Qed.

(** A complete segment: a header and frames. *)
Definition segment_of (m : Z) (data : bytes) (l : list Frame) : Prop :=
  exists hdr, header_ok hdr /\ Forall (frame_ok m) l /\ data = hdr ++ frames l.

Lemma scan_segment {St} (f : Z -> ContentRecord -> Eff St unit) m data l s :
  segment_of m data l ->
  scan_file f m data s = (_ ← visit f HEADER_SIZE l; mret (HEADER_SIZE + blen (frames l))) s.
Proof.
  intros (hdr & [Hl Hh] & Hs & ->). unfold scan_file. rewrite Hh, blen_app, Hl.
  rewrite scan_frames by (done || lia || (unfold HEADER_SIZE; lia)).
  by replace (HEADER_SIZE + blen (frames l) - blen (frames l)) with HEADER_SIZE by lia.
Qed.

(** The offset of each frame finds its record. *)
Lemma segment_lookup m hdr l1 fr l2 rest :
  header_ok hdr -> frame_ok m fr ->
  record_at (hdr ++ frames l1 ++ envelope fr.1 ++ l2 ++ rest) (HEADER_SIZE + blen (frames l1)) m = Ok fr.2.
Proof.
  intros [Hl _] Hf. unfold record_at, seek. rewrite app_assoc.
  rewrite drop_app_length' by (rewrite length_app; unfold blen in *; lia).
  rewrite read_frame; [done|done|]. rewrite !blen_app, envelope_length, Hl.
  pose proof (blen_nonneg (l2 ++ rest)) as Hn. rewrite blen_app in Hn. unfold sat_sub. lia.
Qed.
(** ** Recovery *)

(** What an interrupted append leaves at the end of a segment. *)
Definition torn (m : Z) (tail : bytes) : Prop :=
  exists fr k, frame_ok m fr /\ (k < length (envelope fr.1))%nat /\ tail = take k (envelope fr.1).

(** What recovery does about it. *)
Definition cut_tail (path : Path) (len : Z) (tail : bytes) : IO unit :=
  if is_empty tail then mret tt else truncate_tail path (len - blen tail).

Lemma recover_torn path m tail len n d :
  torn m tail -> blen tail <= len < u64_MAX -> (length tail < n)%nat ->
  recover_loop path m len n tail d = cut_tail path len tail d.
Proof.
  intros (fr & k & (Hu & Hm & Hd) & Hk & ->) Hl Hn. destruct n as [|n]; [lia|]. unfold cut_tail.
  assert (blen (take k (envelope fr.1)) = Z.of_nat k) as Hb by (unfold blen; rewrite length_take; lia).
  cbn [recover_loop]. rewrite Hb in *. destruct (decide (k = 0%nat)) as [->|Hk0].
  { by rewrite (proj2 (Z.eqb_eq _ _)) by lia. }
  rewrite (proj2 (Z.eqb_neq _ _)) by lia.
  replace (is_empty (take k (envelope fr.1))) with false
    by (destruct (take k _); [rewrite blen_nil in Hb; lia|done]).
  replace (sat_sub len (len - Z.of_nat k)) with (Z.of_nat k) by (unfold sat_sub; lia).
  destruct (Z.ltb_spec (Z.of_nat k) 12); [done|].
  destruct (envelope_words _ Hu) as (hdr & E & Hlh & He & W0 & W1 & W2). rewrite E.
  assert (length hdr = 12%nat) as Hln by (unfold blen in Hlh; lia).
  rewrite take_app_ge, Hln by lia. rewrite read_exact_app by done. rewrite W0, W1.
  erewrite bind_ok by by apply ensure_true. erewrite bind_ok by (apply ensure_true; lia).
  rewrite (proj2 (Z.ltb_lt _ _)); [done|]. unfold sat_add.
  rewrite E, length_app, Hln in Hk. unfold blen. lia.
Qed.

Lemma recover_step path m fr rest len n d :
  frame_ok m fr -> blen (envelope fr.1 ++ rest) <= len < u64_MAX ->
  recover_loop path m len (S n) (envelope fr.1 ++ rest) d = recover_loop path m len n rest d.
Proof.
  intros (Hu & Hm & Hd) Hl. rewrite blen_app, envelope_length in Hl. cbn [recover_loop].
  rewrite blen_app, envelope_length. pose proof (blen_nonneg fr.1). pose proof (blen_nonneg rest).
  rewrite (proj2 (Z.eqb_neq _ _)) by lia.
  rewrite (proj2 (Z.ltb_ge (sat_sub _ _) 12)) by (unfold sat_sub; lia).
  destruct (envelope_words _ Hu) as (hdr & -> & Hlh & He & W0 & W1 & W2).
  rewrite <- app_assoc, read_exact_app by done. rewrite W0, W1, W2.
  erewrite bind_ok by by apply ensure_true. erewrite bind_ok by (apply ensure_true; lia).
  rewrite (proj2 (Z.ltb_ge len _)) by (unfold sat_add; lia).
  rewrite read_exact_app by done. erewrite bind_ok by (apply ensure_true; lia).
  erewrite bind_ok by (unfold lift; by rewrite Hd). done.
Qed.

Lemma recover_frames path m tail len d : forall l n,
  Forall (frame_ok m) l -> torn m tail -> blen (frames l ++ tail) <= len < u64_MAX ->
  (length (frames l ++ tail) < n)%nat ->
  recover_loop path m len n (frames l ++ tail) d = cut_tail path len tail d.
Proof.
  induction l as [|fr l IH]; intros n Hs Ht Hl Hn; [by apply recover_torn|].
  inversion_clear Hs as [|? ? Hr Hrs]. destruct n as [|n]; [lia|].
  change (frames (fr :: l)) with (envelope fr.1 ++ frames l) in *. rewrite <- app_assoc in *.
  rewrite recover_step by done. rewrite blen_app in Hl. rewrite length_app in Hn.
  pose proof (envelope_length fr.1). pose proof (blen_nonneg fr.1).
  assert (12 <= length (envelope fr.1))%nat by (unfold blen in *; lia).
  apply IH; [done|done|lia|lia].
Qed.

(** *** What recovery accepts is sound *)

Lemma read_exact_inv n d b d' : read_exact n d = (Ok b, d') -> d = b ++ d' /\ blen b = n.
Proof.
  unfold read_exact. intros E. apply bind_inv in E as (x & d1 & Ex & E).
  apply bind_inv in E as ([] & d2 & [Hn ->]%ensure_inv & [= <- <-]). injection Ex as <- <-.
  split; [by rewrite take_drop|lia].
Qed.

Lemma hdr_words hdr :
  blen hdr = 12 ->
  hdr = to_le_bytes 4 (word_at 0 hdr) ++ to_le_bytes 4 (word_at 1 hdr) ++ to_le_bytes 4 (word_at 2 hdr).
Proof.
  intros Hl. unfold word_at. cbn [Nat.mul Nat.add].
  assert (forall i, (i + 4 <= 12)%nat -> to_le_bytes 4 (from_le_bytes (take 4 (drop i hdr))) = take 4 (drop i hdr)) as W.
  { intros i Hi. rewrite <- (le_bytes_inv (take 4 (drop i hdr))) at 2. f_equal.
    rewrite length_take, length_drop. unfold blen in Hl. lia. }
  rewrite !W by lia. rewrite drop_0, <- (take_drop 4 hdr) at 1. f_equal.
  rewrite <- (take_drop 4 (drop 4 hdr)) at 1. f_equal. rewrite drop_drop. cbn [Nat.add].
  rewrite take_ge; [done|]. rewrite length_drop. unfold blen in Hl. lia.
Qed.

Lemma envelope_of hdr payload :
  blen hdr = 12 -> word_at 0 hdr = RECORD_MAGIC -> word_at 1 hdr = blen payload ->
  word_at 2 hdr = crc32 payload -> hdr ++ payload = envelope payload.
Proof.
  intros Hl W0 W1 W2. unfold envelope. by rewrite (hdr_words hdr Hl), W0, W1, W2, <- !app_assoc at 1.
Qed.

Lemma word_range i hdr : 0 <= word_at i hdr <= u32_MAX.
Proof.
  unfold word_at. pose proof (le_bytes_range (take 4 (drop (4 * i) hdr))) as H1.
  assert (2 ^ (8 * blen (take 4 (drop (4 * i) hdr))) <= 2 ^ 32).
  { apply Z.pow_le_mono_r; [lia|]. unfold blen. rewrite length_take. lia. }
  unfold u32_MAX. lia.
Qed.

Lemma recover_inv path m len d' n : forall rest d,
  recover_loop path m len n rest d = (Ok tt, d') -> blen rest <= len < u64_MAX ->
  exists l tail, rest = frames l ++ tail /\ Forall (frame_ok m) l /\
    cut_tail path len tail d = (Ok tt, d').
Proof.
  induction n as [|n IH]; intros rest d; [done|]. cbn [recover_loop]. intros E Hl.
  unfold cut_tail. destruct (Z.eqb_spec (len - blen rest) len) as [Ez|Ez].
  { exists [], []. injection E as <-. rewrite (blen_zero rest) by lia. done. }
  assert (is_empty rest = false) as He by (destruct rest; [rewrite blen_nil in Ez; lia|done]).
  destruct (_ <? 12); [exists [], rest; by rewrite He|].
  destruct (read_exact 12 rest) as [[hdr|] rest1] eqn:Eh; [|done].
  apply read_exact_inv in Eh as [-> Hlh].
  apply bind_inv in E as ([] & d1 & [W0 ->]%ensure_inv & E).
  apply bind_inv in E as ([] & d2 & [W1 ->]%ensure_inv & E).
  destruct (len <? _); [exists [], (hdr ++ rest1); by rewrite He|].
  destruct (read_exact _ rest1) as [[payload|] rest2] eqn:Ep; [|done].
  apply read_exact_inv in Ep as [-> Hlp].
  apply bind_inv in E as ([] & d3 & [W2 ->]%ensure_inv & E).
  apply bind_inv in E as (r & d4 & Er & E). unfold lift in Er. injection Er as Er <-.
  rewrite !blen_app in Hl. pose proof (blen_nonneg hdr). pose proof (blen_nonneg payload).
  destruct (IH rest2 d E ltac:(lia)) as (l & tail & -> & Hs & Hc). exists ((payload, r) :: l), tail.
  split; [|split; [|done]].
  - change (frames ((payload, r) :: l)) with (envelope payload ++ frames l).
    rewrite <- (envelope_of hdr payload) by lia. by rewrite <- !app_assoc.
  - constructor; [|done]. unfold frame_ok. cbn [fst snd]. pose proof (word_range 1 hdr).
    split; [lia|]. split; [lia|done].
Qed.
End Records.
