(* ===== verification/SegmentStore.v ===== *)
(** * The segment store ([SegmentStore], [ActiveWriter] in [src/src/storage/segment.rs])

    The writer thread as a state machine over the disk and the metadata sink: one
    turn per command it receives, its rotation, its commits and its exits, and the
    store's operations as the queue of commands in front of it.  The names and
    times of new files and the resolution of symbolic links are parameters. *)

From stdpp Require Import strings sorting.
From S2P Require Import Prelude Model Text Services Disk Sink Segment.

(** What the clock and the random source answer to their [n]th question: the
    formatted time and the identifier of a new file's name, the time in its header. *)
Class SegmentNames := {
  segment_stamp : nat -> string;
  segment_uuid : nat -> string;
  created_ns : nat -> Z
}.

(** [Path::canonicalize]. *)
Class Canonicalize := { canonicalize : Disk -> Path -> Result Path }.

Record PreparedRecord := { prefix : bytes; payload_len : Z; encoded_len : Z }.

Record ActiveWriter := {
  aw_root : Path;
  aw_max_bytes : Z;
  aw_max_record_bytes : Z;
  aw_file : BufWriter;
  aw_path : Path;
  aw_bytes : Z;
  aw_retained_bytes : Z;
  aw_store_max_bytes : Z
}.

Definition set_aw_file (f : BufWriter) (w : ActiveWriter) : ActiveWriter :=
  {| aw_root := aw_root w; aw_max_bytes := aw_max_bytes w;
     aw_max_record_bytes := aw_max_record_bytes w; aw_file := f; aw_path := aw_path w;
     aw_bytes := aw_bytes w; aw_retained_bytes := aw_retained_bytes w;
     aw_store_max_bytes := aw_store_max_bytes w |}.

Definition count_bytes (n : Z) (w : ActiveWriter) : ActiveWriter :=
  {| aw_root := aw_root w; aw_max_bytes := aw_max_bytes w;
     aw_max_record_bytes := aw_max_record_bytes w; aw_file := aw_file w; aw_path := aw_path w;
     aw_bytes := aw_bytes w + n; aw_retained_bytes := sat_add (aw_retained_bytes w) n;
     aw_store_max_bytes := aw_store_max_bytes w |}.

Definition start_file (path : Path) (f : BufWriter) (w : ActiveWriter) : ActiveWriter :=
  {| aw_root := aw_root w; aw_max_bytes := aw_max_bytes w;
     aw_max_record_bytes := aw_max_record_bytes w; aw_file := f; aw_path := path;
     aw_bytes := HEADER_SIZE; aw_retained_bytes := sat_add (aw_retained_bytes w) HEADER_SIZE;
     aw_store_max_bytes := aw_store_max_bytes w |}.

Definition prepare_record (w : ActiveWriter) (record : ContentRecord) : Result PreparedRecord :=
  prefix ← encode_record_prefix record;
  let payload_len := sat_add (blen prefix) (blen (cr_data record)) in
  if u32_MAX <? payload_len then Err else
  if aw_max_record_bytes w <? payload_len then Err else
  let encoded_len := 12 + payload_len in
  if aw_store_max_bytes w <? sat_add (aw_retained_bytes w) encoded_len then Err else
  Ok {| prefix := prefix; payload_len := payload_len; encoded_len := encoded_len |}.

Definition needs_rotation (w : ActiveWriter) (encoded_len : Z) : bool :=
  (HEADER_SIZE <? aw_bytes w) && (aw_max_bytes w <? aw_bytes w + encoded_len).

Definition check_rotation_budget (w : ActiveWriter) (encoded_len : Z) : bool :=
  let required := sat_add HEADER_SIZE encoded_len in
  negb (aw_store_max_bytes w <? sat_add (aw_retained_bytes w) required).

(** [BufWriter::with_capacity(4 * 1024 * 1024, file)]. *)
Definition BUFFER_CAPACITY : Z := 4 * 1024 * 1024.

Definition INDEX_BATCH : Z := 512.

Record SegmentMetrics := { segment_bytes : Z; segment_disk_bytes : Z }.

Section Store.
Context `{Crc32} `{SegmentNames} {S : Type} `{MetadataSink S}.

(** ** New files *)

Definition create_segment (root : Path) : IO Path :=
  n ← next_call;
  let path := root ++ ["segment-" +:+ segment_stamp n +:+ "-" +:+ segment_uuid n +:+ ".seg"]%string in
  _ ← create_new path;
  mret path.

Definition write_header : BufIO unit :=
  n ← focus fst (fun d s => (d, s.2)) next_call;
  _ ← write_all MAGIC;
  _ ← write_all (to_le_bytes 4 1);
  write_all (to_le_bytes 8 (created_ns n)).

(** A new file with its header in the buffer, as [ActiveWriter::new] and
    [rotate_after_commit] both make it. *)
Definition with_header (path : Path) : IO (Path * BufWriter) :=
  fun d => let '(r, (d, file)) := write_header (d, BufWriter_new path BUFFER_CAPACITY) in
           (match r with Ok _ => Ok (path, file) | Err => Err end, d).

Definition open_segment (root : Path) : IO (Path * BufWriter) :=
  path ← create_segment root; with_header path.

Definition ActiveWriter_new (root : Path)
    (max_bytes max_record_bytes store_max_bytes retained_bytes : Z) : IO ActiveWriter :=
  _ ← syscall (mret tt);
  pf ← open_segment root;
  mret {| aw_root := root; aw_max_bytes := max_bytes; aw_max_record_bytes := max_record_bytes;
          aw_file := pf.2; aw_path := pf.1; aw_bytes := HEADER_SIZE;
          aw_retained_bytes := sat_add retained_bytes HEADER_SIZE;
          aw_store_max_bytes := store_max_bytes |}.

(** ** The writer's state *)

Record WriterState := {
  st_disk : Disk;
  st_sink : S;
  st_writer : ActiveWriter;
  st_pending : list ContentIndexRecord;
  st_metrics : SegmentMetrics
}.

Abbreviation Writer := (Eff WriterState).

Definition set_st_disk (d : Disk) (s : WriterState) : WriterState :=
  {| st_disk := d; st_sink := st_sink s; st_writer := st_writer s;
     st_pending := st_pending s; st_metrics := st_metrics s |}.
Definition set_st_sink (k : S) (s : WriterState) : WriterState :=
  {| st_disk := st_disk s; st_sink := k; st_writer := st_writer s;
     st_pending := st_pending s; st_metrics := st_metrics s |}.
Definition set_st_writer (w : ActiveWriter) (s : WriterState) : WriterState :=
  {| st_disk := st_disk s; st_sink := st_sink s; st_writer := w;
     st_pending := st_pending s; st_metrics := st_metrics s |}.
Definition set_st_pending (l : list ContentIndexRecord) (s : WriterState) : WriterState :=
  {| st_disk := st_disk s; st_sink := st_sink s; st_writer := st_writer s;
     st_pending := l; st_metrics := st_metrics s |}.
Definition set_st_metrics (m : SegmentMetrics) (s : WriterState) : WriterState :=
  {| st_disk := st_disk s; st_sink := st_sink s; st_writer := st_writer s;
     st_pending := st_pending s; st_metrics := m |}.

Definition on_disk {A} (m : IO A) : Writer A := focus st_disk set_st_disk m.
Definition on_sink {A} (m : Eff S A) : Writer A := focus st_sink set_st_sink m.
Definition on_file {A} (m : BufIO A) : Writer A :=
  focus (fun s => (st_disk s, aw_file (st_writer s)))
    (fun df s => set_st_writer (set_aw_file df.2 (st_writer s)) (set_st_disk df.1 s)) m.
Definition modify_writer (f : ActiveWriter -> ActiveWriter) : Writer unit :=
  modify (fun s => set_st_writer (f (st_writer s)) s).

Definition rotate_after_commit : Writer unit :=
  w ← reads st_writer;
  _ ← ensure (negb (aw_store_max_bytes w <? sat_add (aw_retained_bytes w) HEADER_SIZE));
  pf ← on_disk (open_segment (aw_root w));
  _ ← on_file drop_writer;
  modify_writer (start_file pf.1 pf.2).

(** The record's envelope, piece by piece. *)
Definition write_envelope (record : ContentRecord) (prepared : PreparedRecord) : BufIO unit :=
  let crc := crc32 (prefix prepared ++ cr_data record) in
  _ ← write_all (to_le_bytes 4 RECORD_MAGIC);
  _ ← write_all (to_le_bytes 4 (payload_len prepared));
  _ ← write_all (to_le_bytes 4 crc);
  _ ← write_all (prefix prepared);
  write_all (cr_data record).

(** The position before the record comes back. *)
Definition write_prepared (record : ContentRecord) (prepared : PreparedRecord)
  : Writer (Path * Z * Z) :=
  w ← reads st_writer;
  _ ← ensure (negb (aw_store_max_bytes w <? sat_add (aw_retained_bytes w) (encoded_len prepared)));
  offset ← on_file stream_position;
  _ ← on_file (write_envelope record prepared);
  _ ← modify_writer (count_bytes (encoded_len prepared));
  path ← reads (fun s => aw_path (st_writer s));
  mret (path, offset, encoded_len prepared).

Definition flush_visible_writer : Writer unit := on_file flush_writer.
Definition flush_sync : Writer unit := _ ← on_file flush_writer; on_file sync_writer.

(** ** Publishing the index *)

(** The rows go out in order; what the sink refuses, and all after it, stays. *)
Fixpoint publish (rows : list ContentIndexRecord) : Writer unit :=
  match rows with
  | [] => mret tt
  | row :: rows =>
      _ ← on_sink (send (MetaContentIndex row));
      _ ← modify (set_st_pending rows);
      publish rows
  end.

Definition flush_and_publish (durable : bool) : Writer unit :=
  _ ← (if durable then flush_sync else flush_visible_writer);
  pending ← reads st_pending;
  publish pending.

Definition commit_and_rotate : Writer unit :=
  _ ← flush_and_publish true;
  _ ← on_sink durable_barrier;
  rotate_after_commit.

Definition index_of (record : ContentRecord) (path : Path) (offset : Z) : ContentIndexRecord :=
  {| ci_content_id := cr_id record; ci_flow_id := cr_flow_id record; ci_ts_ns := cr_ts_ns record;
     ci_service := cr_service record; ci_direction := cr_direction record;
     ci_view := cr_view record; ci_stream_offset := cr_stream_offset record;
     ci_payload_len := Z.min (blen (cr_data record)) u32_MAX;
     ci_segment_path := path_string path; ci_segment_offset := offset |}.

(** ** The thread *)

Inductive SegmentCommand := Record_ (r : ContentRecord) | Flush | Seal.

(** What [recv_timeout] returns; a time-out comes with the shutdown flag and
    whether the queue is empty. *)
Inductive Received := Command (c : SegmentCommand) | Timeout (shutdown queue_empty : bool) | Disconnected.

Inductive Reply := NoReply | FlushReply (r : Result unit) | SealReply (r : Result (list Path)).

(** How a turn of the loop ends: at the test of [fatal] at its foot, by a
    [continue] that sets [fatal] and passes the test by, or by a [break]. *)
Inductive Turn := Foot (failed : bool) | Skipped | Broke.

Definition is_err {A} (r : Result A) : bool := match r with Ok _ => false | Err => true end.

Definition count_segment (bytes : Z) (s : WriterState) : WriterState :=
  set_st_metrics {| segment_bytes := wrapping_add 64 (segment_bytes (st_metrics s)) bytes;
                    segment_disk_bytes := aw_retained_bytes (st_writer s) |} s.

Definition store_record (record : ContentRecord) (prepared : PreparedRecord) (s : WriterState)
  : Turn * WriterState :=
  match write_prepared record prepared s with
  | (Err, s) => (Foot true, s)
  | (Ok (path, offset, bytes), s) =>
      let s := count_segment bytes s in
      let s := set_st_pending (st_pending s ++ [index_of record path offset]) s in
      if INDEX_BATCH <=? blen (st_pending s) then
        let '(r, s) := flush_and_publish false s in (Foot (is_err r), s)
      else (Foot false, s)
  end.

Definition record_turn (record : ContentRecord) (s : WriterState) : Turn * WriterState :=
  match prepare_record (st_writer s) record with
  | Err => (Skipped, s)
  | Ok prepared =>
      if needs_rotation (st_writer s) (encoded_len prepared) then
        if check_rotation_budget (st_writer s) (encoded_len prepared) then
          match commit_and_rotate s with
          | (Ok _, s) => store_record record prepared s
          | (Err, s) => (Skipped, s)
          end
        else (Skipped, s)
      else store_record record prepared s
  end.

Definition seal : Writer (list Path) :=
  _ ← commit_and_rotate;
  active ← reads (fun s => aw_path (st_writer s));
  root ← reads (fun s => aw_root (st_writer s));
  paths ← on_disk (list_segments root);
  mret (filter (fun p => p <> active) paths).

Definition turn (ev : Received) (s : WriterState) : Turn * Reply * WriterState :=
  match ev with
  | Command (Record_ record) => let '(t, s) := record_turn record s in (t, NoReply, s)
  | Command Flush =>
      let '(r, s) := flush_and_publish false s in (Foot (is_err r), FlushReply r, s)
  | Command Seal => let '(r, s) := seal s in (Foot (is_err r), SealReply r, s)
  | Timeout shutdown queue_empty =>
      let '(failed, s) :=
        if is_empty (st_pending s) then (false, s)
        else let '(r, s) := flush_and_publish false s in (is_err r, s) in
      if shutdown && queue_empty then (Broke, NoReply, s) else (Foot failed, NoReply, s)
  | Disconnected => (Broke, NoReply, s)
  end.

Record Thread := { th_state : WriterState; th_fatal : bool; th_running : bool }.

(** The loop ends: a last durable flush, its error only logged. *)
Definition finish_thread (s : WriterState) : Thread :=
  {| th_state := (flush_and_publish true s).2; th_fatal := true; th_running := false |}.

Definition thread_step (ev : Received) (t : Thread) : Reply * Thread :=
  if th_running t then
    let '(how, reply, s) := turn ev (th_state t) in
    (reply, match how with
            | Broke => finish_thread s
            | Skipped => {| th_state := s; th_fatal := true; th_running := true |}
            | Foot failed =>
                if th_fatal t || failed then finish_thread s
                else {| th_state := s; th_fatal := false; th_running := true |}
            end)
  else (NoReply, t).

Definition thread_run (evs : list Received) (t : Thread) : Thread :=
  fold_left (fun t ev => (thread_step ev t).2) evs t.
End Store.

Arguments WriterState S : clear implicits.
Arguments Thread S : clear implicits.
