(* ===== verification/SegmentStoreSpec.v ===== *)
(** * The invariant of the segment writer

    The state of the writer thread against a history: the sealed segments with
    their records, the records of the active file whose index rows are out and
    those whose rows wait, and what an interrupted write left behind.  Every turn
    keeps the invariant, whatever the disk and the sink refuse. *)

From stdpp Require Import strings sorting.
From S2P Require Import Prelude Model Text Services Disk DiskSpec Sink Segment SegmentSpec SegmentStore.

Record History := {
  sealed : list (Path * list ContentRecord);
  indexed : list ContentRecord;
  waiting : list ContentRecord;
  partial : bytes
}.

Definition active_records (g : History) : list ContentRecord := indexed g ++ waiting g.

(** Every record of the history, in the order it was written. *)
Definition recorded (g : History) : list ContentRecord :=
  concat (map snd (sealed g)) ++ active_records g.

Definition disk_bytes (d : Disk) : Z := map_sum (fun f => blen (content f)) (files d).

Section Spec.
Context `{CRC : Crc32} `{NAMES : SegmentNames} {S : Type} `{SINK : MetadataSink S} `{LAWS : !MetadataSinkLaws S}.

Definition frames_of (rs : list ContentRecord) : bytes := frames (map frame_of rs).

(** The index rows of records laid out from a position on. *)
Fixpoint rows (path : Path) (pos : Z) (rs : list ContentRecord) : list ContentIndexRecord :=
  match rs with
  | [] => []
  | r :: rs => index_of r path pos :: rows path (pos + (12 + blen (frame_of r).1)) rs
  end.

Definition sealed_rows (g : History) : list ContentIndexRecord :=
  concat (map (fun pr => rows pr.1 HEADER_SIZE pr.2) (sealed g)).

#[local] Arguments frames_of : simpl never.
#[local] Arguments envelope : simpl never.
#[local] Arguments HEADER_SIZE : simpl never.

Lemma frames_of_app a b : frames_of (a ++ b) = frames_of a ++ frames_of b.
Proof. unfold frames_of. by rewrite map_app, frames_app. Qed.

Lemma frames_of_one r : frames_of [r] = envelope (frame_of r).1.
Proof. unfold frames_of, frames. cbn [map concat]. by rewrite app_nil_r. Qed.

Lemma rows_app path a b : forall pos,
  rows path pos (a ++ b) = rows path pos a ++ rows path (pos + blen (frames_of a)) b.
Proof.
  induction a as [|r a IH]; intros pos; cbn [rows app].
  - change (frames_of []) with (@nil byte). by rewrite blen_nil, Z.add_0_r.
  - rewrite IH. change (r :: a) with ([r] ++ a). rewrite frames_of_app, blen_app, frames_of_one, envelope_length.
    do 3 f_equal. lia.
Qed.

(** The name of the file made at the [n]th question to the clock. *)
Definition segment_path (root : Path) (n : nat) : Path :=
  root ++ ["segment-" +:+ segment_stamp n +:+ "-" +:+ segment_uuid n +:+ ".seg"]%string.

Context (root : Path) (m store_max : Z) (old : gmap Path File) (rows0 : list ContentIndexRecord) (R0 T0 : Z)
  (n0 : nat).

Definition file_state (s : WriterState S) : Disk * BufWriter := (st_disk s, aw_file (st_writer s)).
Definition put_file (df : Disk * BufWriter) (s : WriterState S) : WriterState S :=
  set_st_writer (set_aw_file df.2 (st_writer s)) (set_st_disk df.1 s).

(** The active file holds a header, the records and what an interrupted write
    left; it holds the indexed records for every reader to see. *)
Definition active_file (g : History) (df : Disk * BufWriter) : Prop :=
  exists f hdr, open_ok df f /\ header_ok hdr /\
    written df f = hdr ++ frames_of (active_records g) ++ partial g /\
    (indexed g = [] \/ (hdr ++ frames_of (indexed g)) `prefix_of` content f).

(** A sealed file is a complete segment and durable. *)
Definition sealed_file (d : Disk) (pr : Path * list ContentRecord) : Prop :=
  exists f, files d !! pr.1 = Some f /\ segment_of m (content f) (map frame_of pr.2) /\
    synced f = blen (content f).

Definition partial_ok (tail : bytes) : Prop := tail = [] \/ torn m tail.

Record inv_with (tail_ok : bytes -> Prop) (g : History) (s : WriterState S) : Prop := {
  i_root : aw_root (st_writer s) = root;
  i_max : aw_max_record_bytes (st_writer s) = m;
  i_store : aw_store_max_bytes (st_writer s) = store_max;
  i_path : aw_path (st_writer s) = bw_path (aw_file (st_writer s));
  i_active : active_file g (file_state s);
  i_sealed : Forall (sealed_file (st_disk s)) (sealed g);
  i_nodup : NoDup (aw_path (st_writer s) :: map fst (sealed g));
  i_names : exists n, aw_path (st_writer s) = segment_path root n /\ (n0 <= n < calls (st_disk s))%nat /\
    Forall (fun p => exists j, (j < n)%nat /\ p = segment_path root j) (map fst (sealed g));
  i_old : forall q f, old !! q = Some f -> files (st_disk s) !! q = Some f /\ q <> aw_path (st_writer s);
  i_dom : forall q f, files (st_disk s) !! q = Some f ->
    q = aw_path (st_writer s) \/ In q (map fst (sealed g)) \/ old !! q = Some f;
  i_storable : Forall (storable m) (active_records g);
  i_partial : tail_ok (partial g);
  i_pending : st_pending s
    = rows (aw_path (st_writer s)) (HEADER_SIZE + blen (frames_of (indexed g))) (waiting g);
  i_sent : rows_sent (st_sink s)
    = rows0 ++ sealed_rows g ++ rows (aw_path (st_writer s)) HEADER_SIZE (indexed g);
  i_sink : sink_ok (st_sink s);
  i_durable : (rows0 ++ sealed_rows g) `prefix_of` rows_durable (st_sink s);
  i_bytes : aw_bytes (st_writer s) = HEADER_SIZE + blen (frames_of (active_records g));
  i_total : disk_bytes (st_disk s) + blen (bw_buf (aw_file (st_writer s)))
    = T0 + (aw_retained_bytes (st_writer s) - R0) + blen (partial g);
  i_budget : 0 <= aw_retained_bytes (st_writer s) /\
    aw_retained_bytes (st_writer s) + blen (partial g) <= Z.max store_max (R0 + HEADER_SIZE)
}.

Definition inv : History -> WriterState S -> Prop := inv_with partial_ok.

(** ** The file under the writer *)

Lemma disk_bytes_write s f s' f' b :
  open_ok s f -> wrote s f s' f' b ->
  disk_bytes s'.1 + blen (bw_buf s'.2) = disk_bytes s.1 + blen (bw_buf s.2) + blen b.
Proof.
  intros (Hf & _) Hw. unfold disk_bytes. rewrite (wrote_files _ _ _ _ _ Hw).
  rewrite (map_sum_update _ _ f) by done.
  pose proof (f_equal blen (wrote_bytes _ _ _ _ _ Hw)) as E. unfold written in E.
  rewrite !blen_app in E. lia.
Qed.

(** The history with a different end of the active file. *)
Definition with_partial (t : bytes) (g : History) : History :=
  {| sealed := sealed g; indexed := indexed g; waiting := waiting g; partial := t |}.

(** More bytes reach the active file; the counters of the writer stand. *)
Lemma file_step (tail_ok : bytes -> Prop) g s f s1 f1 b :
  inv g s -> open_ok (file_state s) f -> wrote (file_state s) f s1 f1 b ->
  tail_ok (partial g ++ b) ->
  aw_retained_bytes (st_writer s) + blen (partial g ++ b) <= Z.max store_max (R0 + HEADER_SIZE) ->
  inv_with tail_ok (with_partial (partial g ++ b) g) (put_file s1 s).
Proof.
  intros I Ho Hw Hp Hb. destruct I. pose proof (disk_bytes_write _ _ _ _ _ Ho Hw) as Hd.
  pose proof (wrote_path _ _ _ _ _ Hw) as Epath. pose proof (wrote_files _ _ _ _ _ Hw) as Efiles.
  pose proof (wrote_calls _ _ _ _ _ Hw) as Ecalls.
  unfold file_state in *. cbn [fst snd] in *. rewrite <- i_path0 in Epath, Efiles.
  assert (forall q, q <> aw_path (st_writer s) -> files s1.1 !! q = files (st_disk s) !! q) as Hother.
  { intros q Hq. by rewrite Efiles, lookup_insert_ne. }
  split; try done; cbn.
  - destruct i_active0 as (f0 & hdr & Ho0 & Hh & Hwr & Hix).
    assert (f0 = f) as -> by (destruct Ho0 as [E0 _], Ho as [E1 _]; unfold file_state in *; congruence).
    exists f1, hdr. destruct s1 as [d1 w1]. change (file_state _) with (d1, w1).
    split; [eapply wrote_open, Hw|]. split; [done|]. split.
    + rewrite (wrote_bytes _ _ _ _ _ Hw). unfold file_state in Hwr. rewrite Hwr. by rewrite <- !app_assoc.
    + destruct Hix as [?|Hix]; [by left|right]. etrans; [exact Hix|]. eapply wrote_content, Hw.
  - rewrite Forall_forall in *. intros pr Hpr. destruct (i_sealed0 pr Hpr) as (f2 & E2 & ? & ?).
    exists f2. split; [|done]. rewrite Hother; [done|].
    intros Eq. apply NoDup_cons in i_nodup0 as [Hn _]. apply Hn. rewrite <- Eq.
    by apply list_elem_of_fmap_2.
  - destruct i_names0 as (n & ? & ? & ?). exists n. split; [done|]. split; [lia|done].
  - intros q f2 Hq. destruct (i_old0 q f2 Hq). split; [|done]. by rewrite Hother.
  - intros q f2 Hq. destruct (decide (q = aw_path (st_writer s))) as [->|Hn]; [by left|].
    apply (i_dom0 q f2). by rewrite <- Hother.
  - rewrite blen_app. unfold file_state in *. lia.
  - lia.
Qed.

(** ** Flushing and publishing *)

Lemma cons_inj {A} (x y : A) l k : x :: l = y :: k -> x = y /\ l = k.
Proof. by intros [=]. Qed.

(** Everything written is in the file. *)
Definition flushed (g : History) (df : Disk * BufWriter) : Prop :=
  exists f hdr, open_ok df f /\ header_ok hdr /\ bw_buf df.2 = [] /\
    content f = hdr ++ frames_of (active_records g) ++ partial g.

Lemma with_partial_id g : with_partial (partial g ++ []) g = g.
Proof. rewrite app_nil_r. by destruct g. Qed.

(** A file operation that writes nothing new. *)
Lemma quiet_step g s f s1 f1 :
  inv g s -> open_ok (file_state s) f -> wrote (file_state s) f s1 f1 [] -> inv g (put_file s1 s).
Proof.
  intros I Ho Hw. rewrite <- (with_partial_id g). eapply file_step; try done; rewrite app_nil_r; apply I.
Qed.

Lemma on_file_inv {A} (op : BufIO A) s r s' :
  on_file op s = (r, s') -> exists df, op (file_state s) = (r, df) /\ s' = put_file df s.
Proof. apply focus_inv. Qed.

Lemma file_state_put df s : file_state (put_file df s) = df.
Proof. by destruct df. Qed.

Lemma flush_ok g s r s' :
  inv g s -> on_file flush_writer s = (r, s') ->
  inv g s' /\ (exists df, s' = put_file df s) /\ (r = Ok tt -> flushed g (file_state s')).
Proof.
  intros I (df & E & ->)%on_file_inv. pose proof (i_active _ _ _ I) as (f & hdr & Ho & Hh & Hwr & _).
  destruct (flush_buf_spec _ _ _ _ Ho E) as (f' & Hw & Hb).
  split; [by eapply quiet_step|]. split; [by exists df|]. intros Hr. specialize (Hb Hr).
  rewrite file_state_put. exists f', hdr. split; [eapply wrote_open, Hw|]. split; [done|]. split; [done|].
  pose proof (wrote_bytes _ _ _ _ _ Hw) as E'. unfold written at 1 in E'.
  by rewrite Hb, Hwr, !app_nil_r in E'.
Qed.

Lemma sync_ok g s r s' :
  inv g s -> flushed g (file_state s) -> on_file sync_writer s = (r, s') ->
  inv g s' /\ (exists df, s' = put_file df s) /\ flushed g (file_state s') /\
  (r = Ok tt -> exists f, files (st_disk s') !! aw_path (st_writer s') = Some f /\
                          synced f = blen (content f)).
Proof.
  intros I (f & hdr & Ho & Hh & Hb & Hc) (df & E & ->)%on_file_inv.
  destruct (sync_spec _ _ _ _ Ho E) as (f' & Hw & Hs & Hcc & Hsy).
  split; [by eapply quiet_step|]. split; [by exists df|]. rewrite file_state_put. split.
  - exists f', hdr. split; [eapply wrote_open, Hw|]. rewrite Hs, Hcc. done.
  - intros Hr. exists f'. rewrite Hcc. split; [|by apply Hsy].
    pose proof (wrote_open _ _ _ _ _ Hw) as (Hl & _). cbn. rewrite (i_path _ _ _ I).
    by rewrite <- Hl, (wrote_path _ _ _ _ _ Hw).
Qed.

(** The same records, some more of them indexed. *)
Definition same_records (g g' : History) : Prop :=
  sealed g' = sealed g /\ active_records g' = active_records g /\ partial g' = partial g.

Lemma same_records_flushed g g' df : same_records g g' -> flushed g df -> flushed g' df.
Proof. intros (_ & E1 & E2). unfold flushed. by rewrite E1, E2. Qed.

Lemma publish_row g s r rs s' :
  inv g s -> flushed g (file_state s) -> waiting g = r :: rs ->
  send (MetaContentIndex (index_of r (aw_path (st_writer s))
          (HEADER_SIZE + blen (frames_of (indexed g))))) (st_sink s) = (Ok tt, s') ->
  let path := aw_path (st_writer s) in
  let g' := {| sealed := sealed g; indexed := indexed g ++ [r]; waiting := rs; partial := partial g |} in
  inv g' (set_st_pending (rows path (HEADER_SIZE + blen (frames_of (indexed g ++ [r]))) rs)
            (set_st_sink s' s)) /\ same_records g g'.
Proof.
  intros I Hfl Hwait E path g'.
  assert (active_records g' = active_records g) as Ha.
  { unfold active_records. simpl. by rewrite Hwait, <- app_assoc. }
  split; [|done]. pose proof (i_sink _ _ _ I) as Hok. pose proof (send_accepted _ _ _ Hok E) as Hsent.
  pose proof (send_durable _ _ _ _ Hok E) as Hdur. pose proof (send_keeps _ _ _ _ Hok E) as Hok'.
  destruct I. split; try done.
  - destruct Hfl as (f & hdr & Ho & Hh & Hb & Hc). exists f, hdr. split; [done|]. split; [done|].
    unfold written. change (bw_buf _) with (bw_buf (file_state s).2). rewrite Hb, app_nil_r, Ha.
    split; [done|]. right. rewrite Hc. unfold active_records. rewrite Hwait. cbn [indexed].
    change (r :: rs) with ([r] ++ rs). rewrite (app_assoc (indexed g)), (frames_of_app _ rs).
    rewrite <- !app_assoc. apply prefix_app, prefix_app_r. done.
  - by rewrite Ha.
  - cbn. rewrite Hsent, i_sent0. cbn [omap list_omap index_row]. rewrite rows_app. cbn [rows].
    unfold sealed_rows. cbn [sealed]. by rewrite <- !app_assoc.
  - cbn. by etrans.
  - rewrite Ha. done.
Qed.

(** A sink that refuses a row keeps what it has. *)
Lemma refuse_ok g s e s' :
  inv g s -> send e (st_sink s) = (Err, s') -> inv g (set_st_sink s' s).
Proof.
  intros I E. pose proof (i_sink _ _ _ I) as Hok. pose proof (send_refused _ _ _ Hok E) as Hs.
  pose proof (send_durable _ _ _ _ Hok E) as Hd. pose proof (send_keeps _ _ _ _ Hok E) as Hok'.
  destruct I. split; try done; cbn; [by rewrite Hs|by etrans].
Qed.

Lemma publish_ok pending : forall g s r s',
  inv g s -> flushed g (file_state s) -> st_pending s = pending ->
  publish pending s = (r, s') ->
  exists g', inv g' s' /\ same_records g g' /\ file_state s' = file_state s /\
    st_writer s' = st_writer s /\ (r = Ok tt -> waiting g' = []).
Proof.
  induction pending as [|row pending IH]; intros g s r s' I Hfl Hp E.
  - injection E as <- <-. exists g. do 4 (split; [done|]). intros _.
    pose proof (i_pending _ _ _ I) as Hq. rewrite Hp in Hq. by destruct (waiting g).
  - pose proof (i_pending _ _ _ I) as Hq. rewrite Hp in Hq.
    destruct (waiting g) as [|rec rs] eqn:Hwait; [done|]. cbn [rows] in Hq. apply cons_inj in Hq as [-> Hq].
    cbn [publish] in E. apply bind_cases in E as [[E ->]|([] & s1 & E1 & E)].
    + apply focus_inv in E as (k & E & ->). exists g. split; [by eapply refuse_ok|]. done.
    + apply focus_inv in E1 as (k & E1 & ->). erewrite bind_ok in E by done.
      destruct (publish_row _ _ _ _ _ I Hfl Hwait E1) as [I1 Hsame].
      rewrite <- Z.add_assoc, <- envelope_length, <- frames_of_one, <- blen_app, <- frames_of_app in Hq.
      rewrite <- Hq in I1. apply (IH _ _ _ _ I1) in E as (g' & I' & (Hs & Ha & Hpt) & Hf & Hw & Hr); [|by eapply same_records_flushed|done].
      exists g'. split; [done|]. split; [|done].
      destruct Hsame as (Hs1 & Ha1 & Hpt1). split; [congruence|]. split; congruence.
Qed.

Lemma flush_and_publish_ok durable g s r s' :
  inv g s -> flush_and_publish durable s = (r, s') ->
  exists g', inv g' s' /\ same_records g g' /\ aw_path (st_writer s') = aw_path (st_writer s) /\
    (r = Ok tt -> waiting g' = [] /\ flushed g' (file_state s') /\
       (durable = true -> exists f, files (st_disk s') !! aw_path (st_writer s') = Some f /\
                                    synced f = blen (content f))).
Proof.
  intros I E. unfold flush_and_publish in E.
  assert (forall g1 s1, inv g1 s1 -> same_records g g1 -> aw_path (st_writer s1) = aw_path (st_writer s) ->
    flushed g1 (file_state s1) -> publish (st_pending s1) s1 = (r, s') ->
    exists g', inv g' s' /\ same_records g g' /\ aw_path (st_writer s') = aw_path (st_writer s) /\
      (r = Ok tt -> waiting g' = [] /\ flushed g' (file_state s') /\ st_disk s' = st_disk s1)) as Hpub.
  { intros g1 s1 I1 (Hs1 & Ha1 & Hp1) Hpath Hfl Ep.
    destruct (publish_ok _ _ _ _ _ I1 Hfl eq_refl Ep) as (g' & I' & Hs & Hf & Hw & Hr). exists g'.
    split; [done|]. split; [destruct Hs as (? & ? & ?); split; [congruence|split; congruence]|].
    split; [by rewrite Hw|]. intros Hok. split; [by apply Hr|].
    rewrite Hf. split; [by eapply same_records_flushed|]. by injection Hf. }
  apply bind_cases in E as [[E ->]|([] & s1 & E1 & E)].
  - exists g. destruct durable.
    + apply bind_cases in E as [[E _]|([] & s1 & E1 & E)].
      * apply flush_ok with (g := g) in E as (I' & (df & ->) & _); done.
      * apply flush_ok with (g := g) in E1 as (I1 & (df & ->) & Hfl); [|done].
        apply sync_ok with (g := g) in E as (I' & (df' & ->) & _); [done|done|by apply Hfl].
    + apply flush_ok with (g := g) in E as (I' & (df & ->) & _); done.
  - erewrite bind_ok in E by done. destruct durable.
    + apply bind_inv in E1 as ([] & s2 & E1 & E2).
      apply flush_ok with (g := g) in E1 as (I1 & (df & ->) & Hfl); [|done].
      apply sync_ok with (g := g) in E2 as (I2 & (df' & ->) & Hfl2 & Hsy); [|done|by apply Hfl].
      destruct (Hpub _ _ I2 (conj eq_refl (conj eq_refl eq_refl)) eq_refl Hfl2 E) as (g' & I' & Hs & Hp & Hr).
      exists g'. split; [done|]. split; [done|]. split; [done|]. intros Hok.
      destruct (Hr Hok) as (? & ? & Hd). split; [done|]. split; [done|]. intros _.
      rewrite Hd, Hp. by apply Hsy.
    + apply flush_ok with (g := g) in E1 as (I1 & (df & ->) & Hfl); [|done].
      destruct (Hpub _ _ I1 (conj eq_refl (conj eq_refl eq_refl)) eq_refl (Hfl eq_refl) E) as (g' & I' & Hs & Hp & Hr).
      exists g'. split; [done|]. split; [done|]. split; [done|]. intros Hok.
      destruct (Hr Hok) as (? & ? & Hd). split; [done|]. split; done.
Qed.

(** ** Writing a record *)

Definition prepared_ok (r : ContentRecord) (p : PreparedRecord) : Prop :=
  encode_record_prefix r = Ok (prefix p) /\ payload_len p = blen (prefix p ++ cr_data r) /\
  encoded_len p = 12 + payload_len p /\ payload_len p <= u32_MAX /\ payload_len p <= m.

Lemma prepare_inv w r p :
  prepare_record w r = Ok p -> aw_max_record_bytes w = m -> prepared_ok r p.
Proof.
  unfold prepare_record, prepared_ok. intros E <-. destruct (encode_record_prefix r) as [pre|] eqn:Ep; [|done].
  destruct (prefix_length r pre Ep) as (Hl & Hsl & Hdl). simpl in E.
  assert (sat_add (blen pre) (blen (cr_data r)) = blen (pre ++ cr_data r)) as Hsat.
  { rewrite blen_app. apply sat_add_small. unfold u16_MAX, u32_MAX, u64_MAX in *. lia. }
  rewrite Hsat in E. repeat case_match; try done. injection E as <-. reflect_bools. cbn.
  repeat split; lia.
Qed.

Lemma frame_of_prefix r p : encode_record_prefix r = Ok p -> (frame_of r).1 = p ++ cr_data r.
Proof. unfold frame_of. by intros ->. Qed.

Lemma write_envelope_writes r p :
  encode_record_prefix r = Ok (prefix p) -> payload_len p = blen (prefix p ++ cr_data r) ->
  writes (write_envelope r p) (envelope (frame_of r).1).
Proof.
  intros Hp Hl. rewrite (frame_of_prefix _ _ Hp). unfold write_envelope, envelope. rewrite Hl, <- !app_assoc.
  repeat (apply writes_bind; [apply write_all_writes|intros _]). apply write_all_writes.
Qed.

Definition with_record (r : ContentRecord) (g : History) : History :=
  {| sealed := sealed g; indexed := indexed g; waiting := waiting g ++ [r]; partial := [] |}.

Lemma active_with_record r g : active_records (with_record r g) = active_records g ++ [r].
Proof. unfold active_records. simpl. by rewrite app_assoc. Qed.

(** A complete record turns from bytes into a record of the history. *)
Lemma count_record tail_ok g s r n :
  inv_with tail_ok (with_partial (envelope (frame_of r).1) g) s -> storable m r ->
  n = blen (envelope (frame_of r).1) ->
  aw_retained_bytes (st_writer s) + n <= u64_MAX ->
  inv (with_record r g)
    (set_st_pending (st_pending s ++
        [index_of r (aw_path (st_writer s)) (HEADER_SIZE + blen (frames_of (active_records g)))])
      (set_st_writer (count_bytes n (st_writer s)) s)).
Proof.
  intros I Hst -> Hn. destruct I. cbn [partial with_partial] in *.
  assert (active_records (with_partial (envelope (frame_of r).1) g) = active_records g) as Ha by done.
  split; try done.
  - destruct i_active0 as (f & hdr & Ho & Hh & Hwr & Hix). exists f, hdr. split; [done|]. split; [done|].
    split; [|done]. rewrite active_with_record, frames_of_app, frames_of_one, Ha in *.
    change (partial _) with (@nil byte). rewrite app_nil_r. exact Hwr.
  - rewrite active_with_record. apply Forall_app. by split; [|apply Forall_singleton].
  - by left.
  - cbn. rewrite i_pending0. cbn. rewrite rows_app. f_equal. cbn [rows]. do 2 f_equal.
    unfold active_records. rewrite frames_of_app, blen_app. lia.
  - rewrite active_with_record, frames_of_app, frames_of_one, blen_app.
    change (aw_bytes _) with (aw_bytes (st_writer s) + blen (envelope (frame_of r).1)).
    rewrite i_bytes0, Ha. lia.
  - cbn [count_bytes set_st_writer set_st_pending st_writer st_disk aw_retained_bytes aw_file with_record partial].
    rewrite sat_add_small by lia. change (blen []) with 0. lia.
  - cbn [count_bytes set_st_writer set_st_pending st_writer aw_retained_bytes with_record partial].
    rewrite sat_add_small by lia. change (blen []) with 0.
    pose proof (blen_nonneg (envelope (frame_of r).1)). lia.
Qed.

Lemma strict_prefix_torn fr b rest :
  frame_ok m fr -> envelope fr.1 = b ++ rest -> rest <> [] -> torn m b.
Proof.
  intros Hf E Hr. exists fr, (length b). rewrite E. split; [done|]. split.
  - rewrite length_app. destruct rest; [done|simpl; lia].
  - by rewrite take_app_length.
Qed.

Lemma write_prepared_ok g s r p res s' :
  inv g s -> partial g = [] -> record_typed r -> store_max < u64_MAX ->
  prepared_ok r p -> write_prepared r p s = (res, s') ->
  match res with
  | Ok (path, offset, n) =>
      inv (with_record r g) (set_st_pending (st_pending s' ++ [index_of r path offset]) s')
  | Err => exists t, inv (with_partial t g) s'
  end.
Proof.
  intros I Hpt Ht Hmax (Hpre & Hpl & Hel & Hu & Hm) E.
  assert (storable m r) as Hst.
  { split; [done|]. exists (prefix p). rewrite Hpl in *. done. }
  assert (encoded_len p = blen (envelope (frame_of r).1)) as Henc.
  { by rewrite envelope_length, (frame_of_prefix _ _ Hpre), Hel, Hpl. }
  pose proof (i_budget _ _ _ I) as [Hr0 _].
  assert (forall s1, inv g s1 -> exists t, inv (with_partial t g) s1) as Hsame.
  { intros s1 I1. exists []. rewrite <- Hpt. by destruct g. }
  unfold write_prepared in E. erewrite bind_ok in E by done.
  apply bind_cases in E as [[E ->]|([] & s0 & [Hret ->]%ensure_inv & E)];
    [apply ensure_keeps in E as ->; by apply Hsame|].
  rewrite (i_store _ _ _ I) in Hret. unfold sat_add in Hret. apply negb_true_iff, Z.ltb_ge in Hret.
  pose proof (i_active _ _ _ I) as (f & hdr & Ho & Hh & Hwr & _).
  apply bind_cases in E as [[E ->]|(offset & s1 & E1 & E)].
  { apply on_file_inv in E as (df & E & ->). destruct (position_spec _ _ _ _ Ho E) as (f1 & Hw & _).
    apply Hsame. by eapply quiet_step. }
  apply on_file_inv in E1 as (df & E1 & ->).
  destruct (position_spec _ _ _ _ Ho E1) as (f1 & Hw & Hoff). destruct (Hoff _ eq_refl) as [-> _].
  pose proof (quiet_step _ _ _ _ _ I Ho Hw) as I1.
  pose proof (wrote_open _ _ _ _ _ Hw) as Ho1. rewrite <- (file_state_put df s) in Ho1.
  assert (HEADER_SIZE + blen (frames_of (active_records g)) = blen (written (file_state s) f)) as Hpos.
  { rewrite Hwr, Hpt, app_nil_r, blen_app. by destruct Hh as [-> _]. }
  assert (forall (tail_ok : bytes -> Prop) s2 f2 b, wrote (file_state (put_file df s)) f1 s2 f2 b ->
    tail_ok b -> blen b <= encoded_len p ->
    inv_with tail_ok (with_partial b g) (put_file s2 (put_file df s))) as Hstep.
  { intros tail_ok s2 f2 b Hw2 Hb Hl. pose proof (file_step tail_ok g (put_file df s) f1 s2 f2 b I1 Ho1 Hw2) as H.
    rewrite Hpt in H. cbn [app] in H. apply H; [done|]. cbn. lia. }
  apply bind_cases in E as [[E ->]|([] & s2 & E2 & E)].
  - apply on_file_inv in E as (df2 & E & ->).
    destruct (write_envelope_writes r p Hpre Hpl _ _ _ _ Ho1 E) as (f2 & b & rest & Hw2 & Hb & Hrest).
    exists b. apply (Hstep partial_ok df2 f2 b Hw2).
    + right. eapply strict_prefix_torn; [by apply frame_of_ok|done|done].
    + rewrite Henc, Hb, blen_app. pose proof (blen_nonneg rest). lia.
  - apply on_file_inv in E2 as (df2 & E2 & ->).
    destruct (write_envelope_writes r p Hpre Hpl _ _ _ _ Ho1 E2) as (f2 & b & rest & Hw2 & Hb & ->).
    rewrite app_nil_r in Hb. subst b. erewrite bind_ok in E by done. injection E as <- <-.
    pose proof (Hstep (fun _ => True) df2 f2 _ Hw2 Logic.I ltac:(lia)) as I2.
    rewrite <- Hpos. apply (count_record _ _ _ _ (encoded_len p)) in I2; [exact I2|done|done|].
    cbn. lia.
Qed.

(** ** Rotation *)

Lemma with_header_spec path d :
  exists d' hdr, with_header path d
      = (Ok (path, {| bw_path := path; bw_buf := hdr; bw_pos := 0; bw_capacity := BUFFER_CAPACITY |}), d') /\
    files d' = files d /\ (calls d <= calls d')%nat /\ header_ok hdr /\ faults d' = faults d.
Proof.
  unfold with_header, write_header.
  set (d1 := {| files := files d; faults := faults d; calls := Datatypes.S (calls d) |}).
  assert (next_call d = (Ok (calls d), d1)) as E by done.
  erewrite bind_ok by (unfold focus; cbn [fst]; by rewrite E).
  erewrite bind_ok by (apply write_all_fits; by cbn).
  erewrite bind_ok by (apply write_all_fits; by cbn).
  erewrite write_all_fits by by cbn. cbn [fst snd set_buf bw_buf].
  exists d1, (MAGIC ++ to_le_bytes 4 1 ++ to_le_bytes 8 (created_ns (calls d))).
  split; [done|]. split; [done|]. split; [cbn; lia|]. split; [apply header_written|done].
Qed.

Lemma open_segment_inv d r d' :
  open_segment root d = (r, d') ->
  match r with
  | Ok (path, w) =>
      path = segment_path root (calls d) /\ files d !! path = None /\ (calls d < calls d')%nat /\
      files d' = <[path := {| content := []; synced := 0 |}]> (files d) /\ header_ok (bw_buf w) /\
      w = {| bw_path := path; bw_buf := bw_buf w; bw_pos := 0; bw_capacity := BUFFER_CAPACITY |}
  | Err => same_files d d'
  end.
Proof.
  unfold open_segment, create_segment. intros E.
  apply bind_cases in E as [[E ->]|(path & d1 & E1 & E)].
  - apply bind_cases in E as [[E _]|(n & d1 & E1 & E)]; [done|]. injection E1 as <- <-.
    apply bind_cases in E as [[E _]|([] & d2 & E1 & [=])].
    apply create_new_inv in E as [[_ [Hf Hc]]|[? _]]; [|done]. split; [done|]. simpl in Hc. lia.
  - apply bind_inv in E1 as (n & d2 & [= <- <-] & E1). apply bind_inv in E1 as ([] & d3 & E1 & [= <- <-]).
    apply create_new_inv in E1 as [[? _]|(_ & Hn & Hc & Hf)]; [done|]. cbn [files calls] in *.
    destruct (with_header_spec (segment_path root (calls d)) d3) as (d4 & hdr & Eh & Hf4 & Hc4 & Hh & _).
    unfold segment_path in Eh. rewrite Eh in E. injection E as <- <-. cbn [bw_buf].
    split; [done|]. split; [done|]. split; [lia|]. by rewrite Hf4.
Qed.

Lemma set_disk_ok g s d' : inv g s -> same_files (st_disk s) d' -> inv g (set_st_disk d' s).
Proof.
  intros I Hd. pose proof (i_active _ _ _ I) as (f & hdr & Ho & _).
  assert (set_st_disk d' s = put_file (d', aw_file (st_writer s)) s) as ->.
  { destruct s as [d k w l me]. by destruct w. }
  eapply quiet_step; [done|done|]. by apply wrote_nothing.
Qed.

(** The files of the history are on the disk, so that a new one is none of them. *)
Lemma history_paths g s p :
  inv g s -> files (st_disk s) !! p = None -> Forall (fun q => q <> p) (aw_path (st_writer s) :: map fst (sealed g)).
Proof.
  intros I Hp. constructor.
  - intros <-. pose proof (i_active _ _ _ I) as (f & hdr & (Ho & _) & _). cbn in Ho.
    rewrite <- (i_path _ _ _ I) in Ho. congruence.
  - apply Forall_map. eapply Forall_impl; [apply (i_sealed _ _ _ I)|].
    intros pr (f & Hf & _) Eq. simpl in Eq. congruence.
Qed.

(** The current file joins the sealed ones, a new one is active. *)
Definition rotated (path : Path) (g : History) : History :=
  {| sealed := sealed g ++ [(path, indexed g)]; indexed := []; waiting := []; partial := [] |}.

Lemma drop_empty s : bw_buf (aw_file (st_writer s)) = [] -> on_file drop_writer s = (Ok tt, put_file (file_state s) s).
Proof.
  intros Hb. unfold on_file, focus, drop_writer, ignore, flush_buf. cbn. by rewrite Hb.
Qed.

Lemma sealed_rows_rotated path g :
  sealed_rows (rotated path g) = sealed_rows g ++ rows path HEADER_SIZE (indexed g).
Proof. unfold sealed_rows. cbn [rotated sealed]. rewrite map_app, concat_app. cbn. by rewrite app_nil_r. Qed.

Lemma sealed_current g s :
  inv g s -> partial g = [] -> waiting g = [] -> flushed g (file_state s) ->
  (exists f, files (st_disk s) !! aw_path (st_writer s) = Some f /\ synced f = blen (content f)) ->
  sealed_file (st_disk s) (aw_path (st_writer s), indexed g).
Proof.
  intros I Hpt Hwait (f & hdr & (Hf & _) & Hhdr & _ & Hc) (f' & Hf' & Hs). cbn in Hf.
  rewrite <- (i_path _ _ _ I), Hf' in Hf. injection Hf as ->. exists f. split; [done|]. split; [|done].
  pose proof (i_storable _ _ _ I) as Hst. unfold active_records in *. rewrite Hwait, app_nil_r in *.
  exists hdr. split; [done|]. rewrite Hpt, app_nil_r in Hc. split; [|done].
  apply Forall_map. eapply Forall_impl; [exact Hst|]. apply frame_of_ok.
Qed.

Lemma rotated_ok g s s' w :
  let path := segment_path root (calls (st_disk s)) in
  inv g s -> partial g = [] -> waiting g = [] -> bw_buf (aw_file (st_writer s)) = [] ->
  sealed_file (st_disk s) (aw_path (st_writer s), indexed g) ->
  rows_durable (st_sink s) = rows_sent (st_sink s) ->
  aw_retained_bytes (st_writer s) + HEADER_SIZE <= store_max -> store_max < u64_MAX ->
  files (st_disk s) !! path = None -> (calls (st_disk s) < calls (st_disk s'))%nat ->
  files (st_disk s') = <[path := {| content := []; synced := 0 |}]> (files (st_disk s)) ->
  header_ok (bw_buf w) ->
  w = {| bw_path := path; bw_buf := bw_buf w; bw_pos := 0; bw_capacity := BUFFER_CAPACITY |} ->
  st_sink s' = st_sink s -> st_pending s' = st_pending s -> st_writer s' = start_file path w (st_writer s) ->
  inv (rotated (aw_path (st_writer s)) g) s'.
Proof.
  intros path I Hpt Hwait Hbuf Hseal Hdur Hret Hmax Hnew Hc Hf Hh Hw Hsink Hpend Hwr.
  pose proof (history_paths _ _ _ I Hnew) as Hpaths. destruct I.
  assert (bw_path w = path) as Hwp by (by rewrite Hw).
  assert (forall q, q <> path -> files (st_disk s') !! q = files (st_disk s) !! q) as Hkeep.
  { intros q Hq. by rewrite Hf, lookup_insert_ne. }
  apply Forall_cons in Hpaths as [Hp1 Hp2].
  assert (forall pr, sealed_file (st_disk s) pr -> pr.1 <> path -> sealed_file (st_disk s') pr) as Hs.
  { intros pr (f & E & ?) Hq. exists f. by rewrite Hkeep. }
  unfold file_state in *. split; rewrite ?Hwr, ?Hsink, ?Hpend; try done; cbn [rotated sealed indexed waiting partial start_file aw_path aw_file aw_bytes aw_retained_bytes].
  - exists {| content := []; synced := 0 |}, (bw_buf w). unfold file_state. rewrite Hwr. cbn [start_file aw_file].
    split; [|split; [done|split; [|by left]]].
    + unfold open_ok. cbn [fst snd]. rewrite Hwp, Hf, lookup_insert_eq, Hw. cbn [bw_pos bw_buf bw_capacity].
      split; [done|]. split; [done|]. destruct Hh as [-> _]. done.
    + unfold written. cbn. by rewrite app_nil_r.
  - apply Forall_app. split; [|apply Forall_singleton; by apply Hs].
    rewrite Forall_forall in *. intros pr Hpr. apply Hs; [by apply i_sealed0|].
    apply (proj1 (Forall_forall _ _) Hp2). by apply (list_elem_of_fmap_2 fst).
  - rewrite map_app. cbn [map fst]. apply NoDup_cons. split.
    + rewrite elem_of_app, list_elem_of_singleton. rewrite Forall_forall in Hp2.
      intros [Hin|Heq]; [by apply (Hp2 _ Hin)|by apply Hp1].
    + rewrite (Permutation_app_comm (map fst (sealed g))). done.
  - destruct i_names0 as (n & Hn & Hlt & Hj). exists (calls (st_disk s)). split; [done|]. split; [lia|].
    rewrite map_app. apply Forall_app. split.
    + eapply Forall_impl; [exact Hj|]. intros p (j & ? & ?). exists j. split; [lia|done].
    + apply Forall_singleton. exists n. split; [lia|done].
  - intros q f Hq. destruct (i_old0 q f Hq) as [Hq1 _].
    assert (q <> path) as Hqp by (intros ->; congruence). by rewrite Hkeep.
  - intros q f Hq. destruct (decide (q = path)) as [->|Hqp]; [by left|right].
    rewrite map_app, in_app_iff. rewrite Hkeep in Hq by done.
    destruct (i_dom0 q f Hq) as [->|[?|?]]; [left; right; by left|left; by left|by right].
  - by left.
  - by rewrite i_pending0, Hwait.
  - rewrite sealed_rows_rotated, i_sent0. cbn [rows]. by rewrite app_nil_r.
  - by rewrite sealed_rows_rotated, Hdur, i_sent0.
  - unfold disk_bytes in *. rewrite Hf, map_sum_insert by done. cbn [content].
    rewrite Hbuf, Hpt in i_total0. destruct Hh as [-> _]. rewrite sat_add_small by (unfold u64_MAX in *; lia).
    change (blen []) with 0 in *. lia.
  - rewrite sat_add_small by (unfold u64_MAX in *; lia). change (blen []) with 0.
    rewrite Hpt in i_budget0. unfold HEADER_SIZE in *. lia.
Qed.

Lemma rotate_ok g s r s' :
  inv g s -> partial g = [] -> waiting g = [] -> flushed g (file_state s) -> store_max < u64_MAX ->
  (exists f, files (st_disk s) !! aw_path (st_writer s) = Some f /\ synced f = blen (content f)) ->
  rows_durable (st_sink s) = rows_sent (st_sink s) ->
  rotate_after_commit s = (r, s') ->
  match r with
  | Ok _ => inv (rotated (aw_path (st_writer s)) g) s' /\ aw_path (st_writer s') <> aw_path (st_writer s)
  | Err => inv g s'
  end.
Proof.
  intros I Hpt Hwait Hfl Hmax Hsync Hdur E. unfold rotate_after_commit in E.
  erewrite bind_ok in E by done.
  apply bind_cases in E as [[E ->]|([] & s1 & [Hb ->]%ensure_inv & E)]; [by apply ensure_keeps in E as ->|].
  rewrite (i_root _ _ _ I), (i_store _ _ _ I) in *.
  apply bind_cases in E as [[E ->]|([path w] & s1 & E1 & E)].
  - apply focus_inv in E as (d' & E & ->). apply open_segment_inv in E. by apply set_disk_ok.
  - apply focus_inv in E1 as (d' & E1 & ->).
    apply open_segment_inv in E1 as (-> & Hnew & Hc & Hf & Hh & Hw).
    pose proof (sealed_current _ _ I Hpt Hwait Hfl Hsync) as Hseal.
    destruct Hfl as (f & hdr & _ & _ & Hbuf & _).
    erewrite bind_ok in E by by apply drop_empty. injection E as <- <-.
    split.
    + eapply (rotated_ok g s); try done. unfold sat_add in Hb. apply negb_true_iff, Z.ltb_ge in Hb. lia.
    + cbn. pose proof (history_paths _ _ _ I Hnew) as Hp. by apply Forall_cons in Hp as [? _].
Qed.

(** ** Commits *)

Lemma barrier_ok g s r k :
  inv g s -> durable_barrier (st_sink s) = (r, k) ->
  inv g (set_st_sink k s) /\ (r = Ok tt -> rows_durable k = rows_sent k).
Proof.
  intros I E. pose proof (i_sink _ _ _ I) as Hok. pose proof (barrier_sent _ _ _ Hok E) as Hs.
  pose proof (barrier_grows _ _ _ Hok E) as Hg. pose proof (barrier_keeps _ _ _ Hok E) as Hok'.
  split; [|intros ->; by apply (barrier_durable _ _ Hok E)].
  destruct I. split; try done; cbn; [by rewrite Hs|by etrans].
Qed.

(** A turn keeps the records and may add to them. *)
Definition extends_records (g g' : History) (new : list ContentRecord) : Prop :=
  recorded g' = recorded g ++ new.

Lemma same_records_recorded g g' : same_records g g' -> recorded g' = recorded g.
Proof. intros (E1 & E2 & _). unfold recorded. by rewrite E1, E2. Qed.

Lemma commit_ok g s r s' :
  inv g s -> partial g = [] -> store_max < u64_MAX -> commit_and_rotate s = (r, s') ->
  exists g', inv g' s' /\ partial g' = [] /\ recorded g' = recorded g /\
    (r = Ok tt -> sealed g' = sealed g ++ [(aw_path (st_writer s), active_records g)] /\
                  active_records g' = [] /\ aw_path (st_writer s') <> aw_path (st_writer s)).
Proof.
  intros I Hpt Hmax [[E ->]|([] & s1 & E1 & E)]%bind_cases.
  { destruct (flush_and_publish_ok _ _ _ _ _ I E) as (g' & I' & Hs & _). exists g'.
    split; [done|]. split; [by destruct Hs as (_ & _ & ->)|]. split; [by apply same_records_recorded|done]. }
  destruct (flush_and_publish_ok _ _ _ _ _ I E1) as (g1 & I1 & Hs1 & Hp1 & Hr1).
  destruct (Hr1 eq_refl) as (Hwait & Hfl & Hsync). specialize (Hsync eq_refl).
  assert (partial g1 = []) as Hpt1 by (by destruct Hs1 as (_ & _ & ->)).
  pose proof (same_records_recorded _ _ Hs1) as Hrec1.
  assert (indexed g1 = active_records g) as Hix.
  { destruct Hs1 as (_ & <- & _). unfold active_records. by rewrite Hwait, app_nil_r. }
  apply bind_cases in E as [[E ->]|([] & s2 & E2 & E)].
  { apply focus_inv in E as (k & E & ->). destruct (barrier_ok _ _ _ _ I1 E) as [I2 _]. by exists g1. }
  apply focus_inv in E2 as (k & E2 & ->). destruct (barrier_ok _ _ _ _ I1 E2) as [I2 Hdur].
  eapply rotate_ok in E; [|exact I2|done|done|done|done|done|by apply Hdur].
  destruct r as [[]|]; [|by exists g1]. destruct E as [I' Hne]. eexists. split; [exact I'|].
  split; [done|]. cbn in Hne. rewrite Hp1 in Hne. split.
  - rewrite <- Hrec1. unfold recorded, rotated, active_records. cbn. rewrite map_app, concat_app, Hwait. cbn.
    by rewrite !app_nil_r.
  - intros _. cbn. rewrite Hp1, Hix. by destruct Hs1 as (-> & _).
Qed.

(** ** Turns *)

Lemma metrics_ok g s f : inv g s -> inv g (set_st_metrics f s).
Proof. by intros []. Qed.

(** What a turn leaves: the invariant, and a clean end unless the thread stops. *)
Definition turn_ok (g : History) (t : Turn) (s' : WriterState S) (rs : list ContentRecord) : Prop :=
  exists g' new, inv g' s' /\ recorded g' = recorded g ++ new /\ sublist new rs /\
    (t = Foot true \/ t = Broke \/ partial g' = []) /\ (t = Foot false -> new = rs).

Lemma store_record_ok g s r p t s' :
  inv g s -> partial g = [] -> record_typed r -> store_max < u64_MAX ->
  prepared_ok r p -> store_record r p s = (t, s') -> turn_ok g t s' [r].
Proof.
  intros I Hpt Ht Hmax Hp E. unfold store_record in E.
  destruct (write_prepared r p s) as [res s1] eqn:Ew.
  pose proof (write_prepared_ok _ _ _ _ _ _ I Hpt Ht Hmax Hp Ew) as Hw.
  assert (recorded (with_record r g) = recorded g ++ [r]) as Hrec.
  { unfold recorded. by rewrite active_with_record, <- app_assoc. }
  destruct res as [[[path offset] n]|].
  - apply (metrics_ok _ _ (st_metrics (count_segment n s1))) in Hw.
    change (set_st_metrics _ _) with
      (set_st_pending (st_pending (count_segment n s1) ++ [index_of r path offset]) (count_segment n s1)) in Hw.
    destruct (_ <=? _).
    + destruct (flush_and_publish false _) as [rf s2] eqn:Ef. injection E as <- <-.
      destruct (flush_and_publish_ok _ _ _ _ _ Hw Ef) as (g' & I' & Hs & _). exists g', [r].
      rewrite (same_records_recorded _ _ Hs). split; [done|]. split; [done|]. split; [done|]. split; [|done].
      right; right. by destruct Hs as (_ & _ & ->).
    + injection E as <- <-. exists (with_record r g), [r]. split; [done|]. split; [done|].
      split; [done|]. split; [by right; right|done].
  - injection E as <- <-. destruct Hw as (t & Hw). exists (with_partial t g), [].
    split; [done|]. split; [by rewrite app_nil_r|]. split; [apply sublist_nil_l|]. split; [by left|done].
Qed.

Lemma record_turn_ok g s r t s' :
  inv g s -> partial g = [] -> record_typed r -> store_max < u64_MAX ->
  record_turn r s = (t, s') -> turn_ok g t s' [r].
Proof.
  intros I Hpt Ht Hmax E. unfold record_turn in E.
  assert (forall g' s1, inv g' s1 -> partial g' = [] -> recorded g' = recorded g -> turn_ok g Skipped s1 [r]) as Hskip.
  { intros g' s1 I1 Hp1 Hr1. exists g', []. rewrite app_nil_r. split; [done|]. split; [done|].
    split; [apply sublist_nil_l|]. split; [by right; right|done]. }
  destruct (prepare_record _ r) as [p|] eqn:Ep; [|injection E as <- <-; by apply (Hskip g)].
  apply prepare_inv in Ep; [|apply I]. destruct (needs_rotation _ _); [|by eapply store_record_ok].
  destruct (check_rotation_budget _ _) eqn:Eb; [|injection E as <- <-; by apply (Hskip g)].
  destruct (commit_and_rotate s) as [rc s1] eqn:Ec.
  destruct (commit_ok _ _ _ _ I Hpt Hmax Ec) as (g1 & I1 & Hp1 & Hr1 & Hok).
  destruct rc as [[]|]; [|injection E as <- <-; by apply (Hskip g1)].
  destruct (store_record_ok _ _ _ _ _ _ I1 Hp1 Ht Hmax Ep E) as (g' & new & I' & Hr & ?).
  exists g', new. by rewrite Hr, Hr1.
Qed.

Definition records_of (ev : Received) : list ContentRecord :=
  match ev with Command (Record_ r) => [r] | _ => [] end.

Definition typed_event (ev : Received) : Prop := Forall record_typed (records_of ev).

(** A flush that adds no record. *)
Lemma flush_turn g s durable r s' t :
  inv g s -> partial g = [] -> flush_and_publish durable s = (r, s') -> turn_ok g t s' [].
Proof.
  intros I Hpt E. destruct (flush_and_publish_ok _ _ _ _ _ I E) as (g' & I' & Hs & _).
  exists g', []. rewrite app_nil_r, (same_records_recorded _ _ Hs). split; [done|]. split; [done|].
  split; [done|]. split; [|done]. right; right. by destruct Hs as (_ & _ & ->).
Qed.

Lemma seal_ok g s r s' t :
  inv g s -> partial g = [] -> store_max < u64_MAX -> seal s = (r, s') -> turn_ok g t s' [].
Proof.
  intros I Hpt Hmax E.
  assert (forall g' s1, inv g' s1 -> partial g' = [] -> recorded g' = recorded g -> turn_ok g t s1 []) as Hdone.
  { intros g' s1 I1 Hp1 Hr1. exists g', []. rewrite app_nil_r. do 3 (split; [done|]). by split; [right; right|]. }
  apply bind_cases in E as [[E ->]|([] & s1 & E1 & E)].
  { destruct (commit_ok _ _ _ _ I Hpt Hmax E) as (g' & I' & Hp & Hr & _). by apply (Hdone g'). }
  destruct (commit_ok _ _ _ _ I Hpt Hmax E1) as (g1 & I1 & Hp1 & Hr1 & _).
  erewrite bind_ok in E by done. erewrite bind_ok in E by done.
  assert (exists d', s' = set_st_disk d' s1 /\ same_files (st_disk s1) d') as (d' & -> & Hd).
  { apply bind_cases in E as [[E ->]|(paths & s2 & E2 & E)].
    - apply focus_inv in E as (d' & E & ->). exists d'. split; [done|].
      apply bind_cases in E as [[E _]|(l & d1 & E1' & [=])].
      apply syscall_inv in E as [[_ ?]|(d1 & ? & [=])]. done.
    - injection E as <- <-. apply focus_inv in E2 as (d' & E & ->). exists d'. split; [done|].
      apply bind_inv in E as (l & d1 & E & [= <- <-]).
      apply syscall_inv in E as [[? _]|(d2 & Hd & [= <- <-])]; [done|]. done. }
  apply (Hdone g1); [by apply set_disk_ok|done|done].
Qed.

Lemma turn_keeps g ev s t reply s' :
  inv g s -> partial g = [] -> typed_event ev -> store_max < u64_MAX ->
  turn ev s = (t, reply, s') -> turn_ok g t s' (records_of ev).
Proof.
  intros I Hpt Ht Hmax E.
  assert (forall t, turn_ok g t s []) as Hsame.
  { intros t0. exists g, []. rewrite app_nil_r. do 3 (split; [done|]). by split; [right; right|]. }
  destruct ev as [[r| |]|shutdown queue_empty|]; simpl in E |- *.
  - destruct (record_turn r s) as [t1 s1] eqn:Er. injection E as <- <- <-.
    apply (proj1 (Forall_singleton _ _)) in Ht. by eapply record_turn_ok.
  - destruct (flush_and_publish false s) as [r1 s1] eqn:Er. injection E as <- <- <-. by eapply flush_turn.
  - destruct (seal s) as [r1 s1] eqn:Er. injection E as <- <- <-. by eapply seal_ok.
  - destruct (is_empty (st_pending s)).
    + destruct (shutdown && queue_empty); injection E as <- <- <-; apply Hsame.
    + destruct (flush_and_publish false s) as [r1 s1] eqn:Er.
      destruct (shutdown && queue_empty); injection E as <- <- <-; by eapply flush_turn.
  - injection E as <- <- <-. apply Hsame.
Qed.

(** ** The thread *)

(** The history of a thread that was sent [rs]: nothing else is on record, and all
    of it is while no turn has failed. *)
Definition thread_ok (g : History) (t : Thread S) (rs : list ContentRecord) : Prop :=
  inv g (th_state t) /\ (th_running t = true -> partial g = []) /\ sublist (recorded g) rs /\
  (th_fatal t = false -> recorded g = rs) /\ (th_running t = false -> th_fatal t = true).

Lemma finish_thread_ok g s rs : inv g s -> sublist (recorded g) rs -> exists g', thread_ok g' (finish_thread s) rs.
Proof.
  intros I Hsub. unfold finish_thread. destruct (flush_and_publish true s) as [r s'] eqn:E.
  destruct (flush_and_publish_ok _ _ _ _ _ I E) as (g' & I' & Hs & _). exists g'.
  split; [done|]. split; [done|]. by rewrite (same_records_recorded _ _ Hs).
Qed.

Lemma thread_step_ok g t ev rs :
  thread_ok g t rs -> typed_event ev -> store_max < u64_MAX ->
  exists g', thread_ok g' (thread_step ev t).2 (rs ++ records_of ev).
Proof.
  intros (I & Hpt & Hsub & Hall & Hstop) Ht Hmax. unfold thread_step.
  destruct (th_running t) eqn:Erun.
  2:{ exists g. cbn [snd]. unfold thread_ok. rewrite Erun, (Hstop eq_refl).
      do 2 (split; [done|]). split; [by apply sublist_inserts_r|done]. }
  destruct (turn ev (th_state t)) as [[how reply] s] eqn:E.
  destruct (turn_keeps _ _ _ _ _ _ I (Hpt eq_refl) Ht Hmax E) as (g' & new & I' & Hr & Hnew & Hend & Hfull).
  assert (sublist (recorded g') (rs ++ records_of ev)) as Hsub' by (rewrite Hr; by apply sublist_app).
  destruct how as [failed| |]; simpl.
  - destruct (th_fatal t) eqn:Ef; simpl; [by eapply finish_thread_ok|].
    destruct failed; [by eapply finish_thread_ok|]. exists g'. split; [done|].
    split; [by intros _; destruct Hend as [?|[?|?]]|]. split; [done|]. split; [|done]. intros _.
    by rewrite Hr, (Hall eq_refl), Hfull.
  - exists g'. split; [done|]. split; [by intros _; destruct Hend as [?|[?|?]]|]. by split.
  - by eapply finish_thread_ok.
Qed.

Lemma thread_run_ok evs : forall g t rs,
  thread_ok g t rs -> Forall typed_event evs -> store_max < u64_MAX ->
  exists g', thread_ok g' (thread_run evs t) (rs ++ concat (map records_of evs)).
Proof.
  induction evs as [|ev evs IH]; intros g t rs Hok Ht Hmax; cbn [map concat].
  - exists g. by rewrite app_nil_r.
  - inversion_clear Ht as [|? ? Hev Hevs].
    destruct (thread_step_ok _ _ _ _ Hok Hev Hmax) as (g1 & Hok1).
    destruct (IH _ _ _ Hok1 Hevs Hmax) as (g2 & Hok2). exists g2. by rewrite <- app_assoc in Hok2.
Qed.
End Spec.

#[global] Arguments i_root {_ _ _ _ _ _ _ _ _ _ _ _ _ _ _} _.
#[global] Arguments i_max {_ _ _ _ _ _ _ _ _ _ _ _ _ _ _} _.
#[global] Arguments i_store {_ _ _ _ _ _ _ _ _ _ _ _ _ _ _} _.
#[global] Arguments i_path {_ _ _ _ _ _ _ _ _ _ _ _ _ _ _} _.
#[global] Arguments i_active {_ _ _ _ _ _ _ _ _ _ _ _ _ _ _} _.
#[global] Arguments i_sealed {_ _ _ _ _ _ _ _ _ _ _ _ _ _ _} _.
#[global] Arguments i_nodup {_ _ _ _ _ _ _ _ _ _ _ _ _ _ _} _.
#[global] Arguments i_names {_ _ _ _ _ _ _ _ _ _ _ _ _ _ _} _.
#[global] Arguments i_old {_ _ _ _ _ _ _ _ _ _ _ _ _ _ _} _.
#[global] Arguments i_dom {_ _ _ _ _ _ _ _ _ _ _ _ _ _ _} _.
#[global] Arguments i_storable {_ _ _ _ _ _ _ _ _ _ _ _ _ _ _} _.
#[global] Arguments i_partial {_ _ _ _ _ _ _ _ _ _ _ _ _ _ _} _.
#[global] Arguments i_pending {_ _ _ _ _ _ _ _ _ _ _ _ _ _ _} _.
#[global] Arguments i_sent {_ _ _ _ _ _ _ _ _ _ _ _ _ _ _} _.
#[global] Arguments i_sink {_ _ _ _ _ _ _ _ _ _ _ _ _ _ _} _.
#[global] Arguments i_durable {_ _ _ _ _ _ _ _ _ _ _ _ _ _ _} _.
#[global] Arguments i_bytes {_ _ _ _ _ _ _ _ _ _ _ _ _ _ _} _.
#[global] Arguments i_total {_ _ _ _ _ _ _ _ _ _ _ _ _ _ _} _.
#[global] Arguments i_budget {_ _ _ _ _ _ _ _ _ _ _ _ _ _ _} _.

(** ** The thread that [open] starts *)

Definition fresh_history : History := {| sealed := []; indexed := []; waiting := []; partial := [] |}.

Lemma start_ok `{Crc32} `{SegmentNames} {S} `{!MetadataSink S}
    root max_bytes m store_max retained d w d' (sink : S) :
  ActiveWriter_new root max_bytes m store_max retained d = (Ok w, d') ->
  0 <= retained <= store_max -> store_max < u64_MAX - HEADER_SIZE ->
  sink_ok sink -> rows_durable sink = rows_sent sink ->
  thread_ok root m store_max (files d) (rows_sent sink) retained (disk_bytes d) (calls d)
    fresh_history
    {| th_state := {| st_disk := d'; st_sink := sink; st_writer := w; st_pending := [];
                      st_metrics := {| segment_bytes := 0; segment_disk_bytes := retained |} |};
       th_fatal := false; th_running := true |} [].
Proof.
  intros E Hr Hmax Hok Hdur. unfold ActiveWriter_new in E.
  apply bind_inv in E as ([] & d0 & E0 & E).
  apply syscall_inv in E0 as [[? _]|(d1 & [Hf1 Hc1] & [= <-])]; [done|].
  apply bind_inv in E as ([path f] & d2 & E & [= <- <-]).
  apply open_segment_inv in E as (Hpath & Hnew & Hc & Hf & Hh & Hw). rewrite Hf1 in Hf, Hnew.
  assert (bw_path f = path) as Hwp by (by rewrite Hw).
  split; [|done]. split; try done; cbn.
  - exists {| content := []; synced := 0 |}, (bw_buf f). unfold file_state. cbn.
    split; [|split; [done|split; [by rewrite app_nil_r|by left]]].
    unfold open_ok. cbn. rewrite Hwp, Hf, lookup_insert_eq, Hw. cbn. destruct Hh as [-> _]. done.
  - constructor; [by intros ?%elem_of_nil|constructor].
  - exists (calls d1). split; [done|]. by split.
  - intros q f0 Hq. assert (q <> path) by (intros ->; congruence). by rewrite Hf, lookup_insert_ne.
  - intros q f0 Hq. destruct (decide (q = path)) as [->|Hn]; [by left|right; right].
    by rewrite Hf, lookup_insert_ne in Hq.
  - by left.
  - by rewrite app_nil_r.
  - by rewrite app_nil_r, Hdur.
  - unfold disk_bytes. rewrite Hf, map_sum_insert by done. cbn. destruct Hh as [-> _].
    rewrite sat_add_small by (unfold HEADER_SIZE, u64_MAX in *; lia). change (blen []) with 0. lia.
  - rewrite sat_add_small by (unfold HEADER_SIZE, u64_MAX in *; lia). change (blen []) with 0.
    unfold HEADER_SIZE in *. lia.
Qed.
