(* ===== verification/Spool.v ===== *)
(** * The metadata spool ([MetadataSpool] in [src/src/storage/spool.rs])

    Batches of metadata events as numbered files, written under a temporary name
    and renamed into place.  The serialisation of a batch ([serde_json]) and the
    random part of a temporary name ([uuid]) are parameters. *)

From Stdlib Require Import Ascii.
From stdpp Require Import strings sorting.
From S2P Require Import Prelude Model Text Services Disk Sink.

Class SpoolCodec := {
  to_vec : list MetadataEvent -> Result bytes;
  from_slice : bytes -> Result (list MetadataEvent);
  temp_suffix : nat -> string
}.

(** ** Names *)

(** [n] in decimal, padded with zeros to [w] digits. *)
Fixpoint decimal (w : nat) (n : Z) : list Z :=
  match w with O => [] | S w => decimal w (n / 10) ++ [48 + n mod 10] end.

Definition text (codes : list Z) : string := String.string_of_list_byte (map byte_of codes).

(** [{sequence:020}]: every [u64] has at most twenty digits. *)
Definition sequence_name (sequence : Z) : string := text (decimal 20 sequence).

Fixpoint before_dot (s : string) : option string :=
  match s with
  | EmptyString => None
  | String c s' =>
      match before_dot s' with
      | Some b => Some (String c b)
      | None => if bool_decide (c = "."%char) then Some EmptyString else None
      end
  end.

(** [Path::file_stem]. *)
Definition file_stem (name : string) : string :=
  match name with
  | EmptyString => EmptyString
  | String c rest => match before_dot rest with Some b => String c b | None => name end
  end.

(** [str::parse::<u64>]. *)
Definition parse_u64 (s : string) : Result Z := from_str_radix 10 (vals (bytes_of s)).

(** A file left behind before its rename. *)
Definition is_stale_temp (name : string) : bool :=
  starts_with (bytes_of name) (bytes_of ".") &&
  bool_decide (is_Some (window_position (bytes_of ".tmp-") (bytes_of name))).

(** ** The spool *)

Record MetadataSpool := {
  sp_disk : Disk;
  sp_root : Path;
  sp_max_bytes : Z;
  sp_bytes : Z
}.

Abbreviation Spooling := (Eff MetadataSpool).

Definition set_sp_disk (d : Disk) (s : MetadataSpool) : MetadataSpool :=
  {| sp_disk := d; sp_root := sp_root s; sp_max_bytes := sp_max_bytes s; sp_bytes := sp_bytes s |}.
Definition set_sp_bytes (n : Z) (s : MetadataSpool) : MetadataSpool :=
  {| sp_disk := sp_disk s; sp_root := sp_root s; sp_max_bytes := sp_max_bytes s; sp_bytes := n |}.

Definition spool_io {A} (m : IO A) : Spooling A := focus sp_disk set_sp_disk m.

Definition entry_le (a b : Z * Path) : Prop := a.1 <= b.1.

#[export] Instance entry_le_dec : RelDecision entry_le.
Proof. intros a b. unfold entry_le. apply _. Defined.

(** The number of a batch file. *)
Definition entry_of (path : Path) : option (Z * Path) :=
  if bool_decide (extension (file_name path) = Some "json"%string)
  then match parse_u64 (file_stem (file_name path)) with
       | Ok sequence => Some (sequence, path)
       | Err => None
       end
  else None.

Definition list_entries (root : Path) : IO (list (Z * Path)) :=
  paths ← read_dir root;
  mret (merge_sort entry_le (omap entry_of paths)).

Fixpoint remove_files (paths : list Path) : IO unit :=
  match paths with
  | [] => mret tt
  | p :: paths => _ ← remove_file p; remove_files paths
  end.

Fixpoint sum_files (paths : list Path) (bytes : Z) : IO Z :=
  match paths with
  | [] => mret bytes
  | p :: paths => n ← file_len p; sum_files paths (sat_add bytes n)
  end.

Definition spool_open (root : Path) (max_bytes : Z) : IO Z :=
  _ ← ensure (negb (max_bytes =? 0));
  _ ← syscall (mret tt);
  paths ← read_dir root;
  _ ← remove_files (filter (fun p => is_stale_temp (file_name p) = true) paths);
  listed ← list_entries root;
  bytes ← sum_files (map snd listed) 0;
  _ ← ensure (negb (max_bytes <? bytes));
  mret bytes.

Definition MetadataSpool_open (root : Path) (max_bytes : Z) (d : Disk) : Result MetadataSpool * Disk :=
  let '(r, d) := spool_open root max_bytes d in
  (match r with
   | Ok bytes => Ok {| sp_disk := d; sp_root := root; sp_max_bytes := max_bytes; sp_bytes := bytes |}
   | Err => Err
   end, d).

Definition spool_entries : Spooling (list (Z * Path)) :=
  root ← reads sp_root; spool_io (list_entries root).

Definition max_sequence : Spooling Z :=
  l ← spool_entries; mret match last l with Some (seq, _) => seq | None => 0 end.

Definition first_sequence : Spooling (option Z) :=
  l ← spool_entries; mret (fst <$> head l).

Definition path_for_sequence (root : Path) (sequence : Z) : Path :=
  root ++ [(sequence_name sequence +:+ ".json")%string].

Section Spool.
Context `{SpoolCodec}.

Definition temp_path (root : Path) (sequence : Z) (n : nat) : Path :=
  root ++ [("." +:+ sequence_name sequence +:+ ".tmp-" +:+ temp_suffix n)%string].

(** [file.write_all]. *)
Definition write_whole (p : Path) (b : bytes) : IO unit :=
  rn ← write_file p b; lift rn.1.

(** The batch appears under its name with all its bytes on stable storage; the
    directory is synchronised last. *)
Definition publish_batch (tmp final : Path) (payload : bytes) : IO unit :=
  _ ← create_truncated tmp;
  _ ← (if is_empty payload then mret tt else write_whole tmp payload);
  _ ← sync_file tmp;
  _ ← rename_file tmp final;
  syscall (mret tt).

(** A failed batch takes its temporary file with it, if it can. *)
Definition publish_or_clean (tmp final : Path) (payload : bytes) : IO unit :=
  fun d => match publish_batch tmp final payload d with
           | (Ok _, d) => (Ok tt, d)
           | (Err, d) => (Err, (remove_file tmp d).2)
           end.

Definition spool_append (sequence : Z) (events : list MetadataEvent) : Spooling unit :=
  if is_empty events then mret tt else
  payload ← lift (to_vec events);
  s ← reads (fun s => s);
  _ ← ensure (negb (sp_max_bytes s <? sat_add (sp_bytes s) (blen payload)));
  n ← spool_io next_call;
  _ ← spool_io (publish_or_clean (temp_path (sp_root s) sequence n)
                  (path_for_sequence (sp_root s) sequence) payload);
  modify (fun s => set_sp_bytes (wrapping_add 64 (sp_bytes s) (blen payload)) s).

Definition spool_read (path : Path) : Spooling (list MetadataEvent) :=
  payload ← spool_io (read_file path); lift (from_slice payload).

Definition spool_remove (path : Path) : Spooling unit :=
  r ← spool_io (attempt (file_len path));
  let len := match r with Ok n => n | Err => 0 end in
  _ ← spool_io (remove_file path);
  _ ← spool_io (syscall (mret tt));
  modify (fun s => set_sp_bytes (sat_sub (sp_bytes s) len) s).
End Spool.
