(* ===== verification/SegmentOps.v ===== *)
(** * The operations of the segment store ([impl SegmentStore] in [src/src/storage/segment.rs])

    Opening the store, the queue in front of the writer thread, the barriers,
    reads by location, scans, index rebuilding and retention. *)

From stdpp Require Import strings.
From S2P Require Import Prelude Model Services Text Disk Sink Segment SegmentStore Spool.

Record SegmentDiskStats := { files_ : Z; bytes_ : Z }.

Record SegmentDeleteStats := { deleted_files : Z; deleted_bytes : Z }.

Section Operations.
Context `{Crc32} `{SegmentNames} `{Canonicalize} {S : Type} `{MetadataSink S}.

(** A writer thread whose initialisation failed has returned; the disk and the
    sink stay with the other users of the store. *)
Inductive WriterThread : Type :=
  | Started (t : Thread S)
  | NeverStarted (d : Disk) (sink : S).

(** The queue holds what the thread has not received. *)
Record SegmentStore := {
  ss_root : Path;
  ss_max_record_bytes : Z;
  ss_queue : list SegmentCommand;
  ss_writer : WriterThread
}.

Abbreviation Store := (Eff SegmentStore).

Definition set_ss_queue (q : list SegmentCommand) (s : SegmentStore) : SegmentStore :=
  {| ss_root := ss_root s; ss_max_record_bytes := ss_max_record_bytes s;
     ss_queue := q; ss_writer := ss_writer s |}.
Definition set_ss_writer (w : WriterThread) (s : SegmentStore) : SegmentStore :=
  {| ss_root := ss_root s; ss_max_record_bytes := ss_max_record_bytes s;
     ss_queue := ss_queue s; ss_writer := w |}.

Definition store_disk (s : SegmentStore) : Disk :=
  match ss_writer s with Started t => st_disk (th_state t) | NeverStarted d _ => d end.
Definition store_sink (s : SegmentStore) : S :=
  match ss_writer s with Started t => st_sink (th_state t) | NeverStarted _ k => k end.

Definition with_state (f : WriterState S -> WriterState S) (t : Thread S) : Thread S :=
  {| th_state := f (th_state t); th_fatal := th_fatal t; th_running := th_running t |}.

Definition set_store_disk (d : Disk) (s : SegmentStore) : SegmentStore :=
  set_ss_writer match ss_writer s with
                | Started t => Started (with_state (set_st_disk d) t)
                | NeverStarted _ k => NeverStarted d k
                end s.
Definition set_store_sink (k : S) (s : SegmentStore) : SegmentStore :=
  set_ss_writer match ss_writer s with
                | Started t => Started (with_state (set_st_sink k) t)
                | NeverStarted d _ => NeverStarted d k
                end s.

Definition disk_io {A} (m : IO A) : Store A := focus store_disk set_store_disk m.
Definition sink_io {A} (m : Eff S A) : Store A := focus store_sink set_store_sink m.

(** ** Opening *)

Definition start_writer (w : ActiveWriter) (retained_bytes : Z) (d : Disk) (sink : S) : Thread S :=
  {| th_state := {| st_disk := d; st_sink := sink; st_writer := w; st_pending := [];
                    st_metrics := {| segment_bytes := 0; segment_disk_bytes := retained_bytes |} |};
     th_fatal := false; th_running := true |}.

Definition spawn_writer (root : Path)
    (max_bytes max_record_bytes store_max_bytes retained_bytes : Z) (d : Disk) (sink : S)
  : WriterThread :=
  match ActiveWriter_new root max_bytes max_record_bytes store_max_bytes retained_bytes d with
  | (Ok w, d) => Started (start_writer w retained_bytes d sink)
  | (Err, d) => NeverStarted d sink
  end.

(** The directory is made, the newest segment recovered and the budget checked
    before the thread starts. *)
Definition prepare_directory (root : Path) (max_record_bytes store_max_bytes : Z) : IO Z :=
  _ ← syscall (mret tt);
  _ ← recover_last_segment_tail root max_record_bytes;
  retained_bytes ← directory_bytes root;
  _ ← ensure (negb (store_max_bytes <? retained_bytes));
  mret retained_bytes.

Definition open (root : Path) (max_bytes max_record_bytes store_max_bytes : Z)
    (d : Disk) (sink : S) : Result SegmentStore * Disk :=
  match prepare_directory root max_record_bytes store_max_bytes d with
  | (Ok retained_bytes, d) =>
      (Ok {| ss_root := root; ss_max_record_bytes := max_record_bytes; ss_queue := [];
             ss_writer := spawn_writer root max_bytes max_record_bytes store_max_bytes
                            retained_bytes d sink |}, d)
  | (Err, d) => (Err, d)
  end.

(** ** The queue *)

Definition writer_running (s : SegmentStore) : bool :=
  match ss_writer s with Started t => th_running t | NeverStarted _ _ => false end.

(** A send fails once the thread has dropped the receiver. *)
Definition push_command (c : SegmentCommand) : Store unit :=
  fun s : SegmentStore => if writer_running s then (Ok tt, set_ss_queue (ss_queue s ++ [c]) s) else (Err, s).

Definition append (record : ContentRecord) : Store unit := push_command (Record_ record).

(** The thread receives the commands of the queue in order; the answer is to the
    last of them. *)
Fixpoint serve (cmds : list SegmentCommand) (reply : Reply) (t : Thread S) : Reply * Thread S :=
  match cmds with
  | [] => (reply, t)
  | c :: cmds => let '(reply, t) := thread_step (Command c) t in serve cmds reply t
  end.

Definition await_reply : Store Reply :=
  fun s => match ss_writer s with
           | Started t => let '(reply, t) := serve (ss_queue s) NoReply t in
                          (Ok reply, set_ss_queue [] (set_ss_writer (Started t) s))
           | NeverStarted _ _ => (Err, s)
           end.

(** Sends a command and waits until the thread has answered it or is gone. *)
Definition request (c : SegmentCommand) : Store Reply := _ ← push_command c; await_reply.

Definition flush_visible : Store unit :=
  reply ← request Flush;
  lift match reply with FlushReply r => r | _ => Err end.

Definition snapshot_for_replay : Store (list Path) :=
  reply ← request Seal;
  lift match reply with SealReply r => r | _ => Err end.

(** ** Reading *)

(** [root.canonicalize()]. *)
Definition canonical_store_root : Store Path :=
  d ← reads store_disk; root ← reads ss_root; lift (canonicalize d root).

(** The location of a file, inside the store only. *)
Definition inside (canonical_root path : Path) : Store Path :=
  d ← reads store_disk;
  canonical_path ← lift (canonicalize d path);
  _ ← ensure (path_starts_with canonical_path canonical_root);
  mret canonical_path.

Definition inside_root (path : Path) : Store Path :=
  canonical_root ← canonical_store_root; inside canonical_root path.

Definition read_at (path : Path) (offset : Z) : Store ContentRecord :=
  canonical_path ← inside_root path;
  max_record_bytes ← reads ss_max_record_bytes;
  disk_io (read_record_at canonical_path offset max_record_bytes).

Definition read_many_at (path : Path) (offsets : list Z) : Store (list (Z * Result ContentRecord)) :=
  canonical_path ← inside_root path;
  max_record_bytes ← reads ss_max_record_bytes;
  data ← disk_io (read_file canonical_path);
  mret (map (fun offset => (offset, record_at data offset max_record_bytes)) offsets).

Definition segment_paths : Store (list Path) :=
  root ← reads ss_root; disk_io (list_segments root).

(** [fs::metadata(path).map(|m| m.len()).unwrap_or(0)]. *)
Definition len_or_zero (path : Path) : IO Z :=
  r ← attempt (file_len path); mret match r with Ok n => n | Err => 0 end.

Fixpoint sum_len_or_zero (paths : list Path) (bytes : Z) : IO Z :=
  match paths with
  | [] => mret bytes
  | p :: paths => n ← len_or_zero p; sum_len_or_zero paths (sat_add bytes n)
  end.

Definition disk_stats : Store SegmentDiskStats :=
  paths ← segment_paths;
  bytes ← disk_io (sum_len_or_zero paths 0);
  mret {| files_ := blen paths; bytes_ := bytes |}.

(** The callback's effects are on a state [T] of its own. *)
Definition scan_path {T} (path : Path) (f : ContentRecord -> Eff T unit) (t : T) : Store (Z * T) :=
  max_record_bytes ← reads ss_max_record_bytes;
  data ← disk_io (read_file path);
  let '(r, t) := scan_file (fun _ => f) max_record_bytes data t in
  n ← lift r; mret (n, t).

(** *** The index *)

Definition send_row (path : Path) (offset : Z) (record : ContentRecord) : Eff (S * Z) unit :=
  _ ← focus fst (fun k s => (k, s.2)) (send (MetaContentIndex (index_of record path offset)));
  modify (fun s => (s.1, sat_add s.2 1)).

Definition send_rows (path : Path) (max_record_bytes : Z) (data : bytes) : Store Z :=
  fun s => let '(r, (sink, count)) :=
             scan_file (send_row path) max_record_bytes data (store_sink s, 0) in
           (match r with Ok _ => Ok count | Err => Err end, set_store_sink sink s).

Definition rebuild_index_path (path : Path) : Store Z :=
  max_record_bytes ← reads ss_max_record_bytes;
  data ← disk_io (read_file path);
  send_rows path max_record_bytes data.

Fixpoint rebuild_paths (paths : list Path) (count : Z) : Store Z :=
  match paths with
  | [] => mret count
  | p :: paths => n ← rebuild_index_path p; rebuild_paths paths (sat_add count n)
  end.

Definition rebuild_index : Store Z :=
  _ ← flush_visible;
  paths ← segment_paths;
  rebuild_paths paths 0.

(** *** Retention *)

Record Ages := { newest : Z; records : Z }.

Definition note_age (record : ContentRecord) : Eff Ages unit :=
  modify (fun a => {| newest := Z.max (newest a) (cr_ts_ns record); records := sat_add (records a) 1 |}).

Fixpoint old_segments (cutoff_ns : Z) (paths : list Path) : Store (list Path) :=
  match paths with
  | [] => mret []
  | p :: paths =>
      na ← scan_path p note_age {| newest := 0; records := 0 |};
      rest ← old_segments cutoff_ns paths;
      mret (if (records na.2 =? 0) || (newest na.2 <? cutoff_ns) then p :: rest else rest)
  end.

Definition retention_candidates (cutoff_ns : Z) : Store (list Path) :=
  paths ← snapshot_for_replay; old_segments cutoff_ns paths.

Fixpoint delete_loop (canonical_root : Path) (paths : list Path) (stats : SegmentDeleteStats)
  : Store SegmentDeleteStats :=
  match paths with
  | [] => mret stats
  | p :: paths =>
      canonical ← inside canonical_root p;
      len ← disk_io (len_or_zero canonical);
      _ ← disk_io (remove_file canonical);
      delete_loop canonical_root paths
        {| deleted_files := sat_add (deleted_files stats) 1; deleted_bytes := sat_add (deleted_bytes stats) len |}
  end.

Definition delete_segments (paths : list Path) : Store SegmentDeleteStats :=
  canonical_root ← canonical_store_root;
  delete_loop canonical_root paths {| deleted_files := 0; deleted_bytes := 0 |}.

End Operations.

Arguments WriterThread S : clear implicits.
Arguments SegmentStore S : clear implicits.

(** * Starting the segment store ([StorageRuntime::start] in [src/src/storage/mod.rs])

    The part of the start-up that brings the content index back in step with the
    segments: the newest segment of the last run, or once all of them, is indexed
    again, and a durable barrier closes the recovery. *)

Definition CONTENT_INDEX_RECOVERY_MARKER : string := ".content-index-recovery-v2".

(** ["v2\n"]. *)
Definition marker_text : bytes := bytes_of "v2" ++ [byte_of 10].

Definition recovery_marker_valid (path : Path) : IO bool :=
  r ← attempt (read_file path);
  mret match r with Ok value => bool_decide (value = marker_text) | Err => false end.

Definition write_recovery_marker (path : Path) : IO unit :=
  _ ← create_truncated path;
  _ ← write_whole path marker_text;
  sync_file path.

(** [path.exists()]. *)
Definition path_exists (path : Path) : IO bool :=
  r ← attempt (file_len path); mret match r with Ok _ => true | Err => false end.

Section Start.
Context `{Crc32} `{SegmentNames} `{Canonicalize} {S : Type} `{MetadataSink S}.

Definition index_again (path : Path) (present : bool) : Eff (SegmentStore S) unit :=
  if present then (_ ← rebuild_index_path path; mret tt) else mret tt.

Definition index_all (recovery_marker : Path) : Eff (SegmentStore S) unit :=
  _ ← rebuild_index;
  _ ← sink_io durable_barrier;
  disk_io (write_recovery_marker recovery_marker).

Definition index_newest (recovery_segment : option Path) : Eff (SegmentStore S) unit :=
  match recovery_segment with
  | Some path => present ← disk_io (path_exists path); index_again path present
  | None => mret tt
  end.

(** One full recovery, or that of the segment that was active at the last stop. *)
Definition recover_index (requires_full_index_recovery : bool) (recovery_marker : Path)
    (recovery_segment : option Path) : Eff (SegmentStore S) unit :=
  if requires_full_index_recovery then index_all recovery_marker else index_newest recovery_segment.

Definition recover_and_commit (full : bool) (marker : Path) (newest : option Path) : Eff (SegmentStore S) unit :=
  _ ← recover_index full marker newest; sink_io durable_barrier.

(** The store after its recovery; the disk comes back as [open] left it, before
    the writer made its first file. *)
Definition start_segments (segment_dir : Path) (max_bytes max_record_bytes store_max_bytes : Z)
    (d : Disk) (sink : S) : Result (SegmentStore S) * Disk :=
  match latest_segment_path segment_dir d with
  | (Err, d) => (Err, d)
  | (Ok recovery_segment, d) =>
      let recovery_marker := segment_dir ++ [CONTENT_INDEX_RECOVERY_MARKER] in
      match recovery_marker_valid recovery_marker d with
      | (Err, d) => (Err, d)
      | (Ok valid, d) =>
          match open segment_dir max_bytes max_record_bytes store_max_bytes d sink with
          | (Err, d) => (Err, d)
          | (Ok store, d) =>
              match recover_and_commit (negb valid) recovery_marker recovery_segment store with
              | (Ok _, store) => (Ok store, d)
              | (Err, _) => (Err, d)
              end
          end
      end
  end.
End Start.
