(* ===== verification/SegmentTheorems.v ===== *)
(** * What the segment store guarantees

    Over any sequence of received commands and any schedule of failing system
    calls and refused sends: the index never points at anything but the record it
    describes, the disk budget holds, a snapshot is complete and frozen, and a
    crash at any point is recovered from. *)

From stdpp Require Import strings sorting.
From S2P Require Import Prelude Model Services Text Disk DiskSpec Sink Segment SegmentSpec SegmentStore SegmentStoreSpec.
From S2P Require Import SegmentOps.

(** ** Opening *)

(** Every file of the disk lies in the store's directory. *)
Definition flat (root : Path) (d : Disk) : Prop :=
  forall p, is_Some (files d !! p) -> in_directory root p = true.

Lemma sum_lengths_spec lens : forall acc,
  0 <= acc -> Forall (fun n => 0 <= n) lens -> fold_left sat_add lens acc = Z.min (acc + foldr Z.add 0 lens) u64_MAX \/ u64_MAX < acc.
Proof.
  induction lens as [|n lens IH]; intros acc Ha Hn; simpl; [lia|]. inversion_clear Hn as [|? ? H1 H2].
  assert (0 <= foldr Z.add 0 lens) by (clear -H2; induction H2; simpl; lia).
  destruct (IH (sat_add acc n)) as [E|E]; [unfold sat_add; unfold u64_MAX; lia|done| |].
  - rewrite E. unfold sat_add. lia.
  - unfold sat_add in E. lia.
Qed.

Lemma file_lengths_inv paths : forall d lens d',
  file_lengths paths d = (Ok lens, d') ->
  same_files d d' /\ Forall2 (fun p n => exists f, files d !! p = Some f /\ n = blen (content f)) paths lens.
Proof.
  induction paths as [|p paths IH]; intros d lens d' E; [by injection E as <- <-|].
  change (file_lengths (p :: paths)) with
    (l ← file_len p; ls ← file_lengths paths; mret (l :: ls) : IO (list Z)) in E.
  apply bind_inv in E as (n & d1 & E1 & E). apply bind_inv in E as (ls & d2 & E2 & [= <- <-]).
  apply bind_inv in E1 as (f & d3 & E1 & [= <- <-]). apply open_file_inv in E1 as [Hf Hs].
  apply IH in E2 as [Hs2 Hl]. split; [by etrans|]. constructor; [by exists f|].
  eapply Forall2_impl; [exact Hl|]. intros q k (f' & Hq & ?). exists f'. by rewrite <- (proj1 Hs).
Qed.

Lemma disk_bytes_list d :
  disk_bytes d = foldr (fun pf acc => blen (content pf.2) + acc) 0 (map_to_list (files d)).
Proof.
  unfold disk_bytes, map_sum. rewrite map_fold_foldr.
  induction (map_to_list (files d)) as [|[p f] l IH]; [done|]. simpl. by rewrite IH.
Qed.

Lemma filter_all {A} (P : A -> Prop) `{!forall x, Decision (P x)} l : Forall P l -> filter P l = l.
Proof. induction 1 as [|x l Hx _ IH]; [done|]. by rewrite filter_cons_True, IH. Qed.

(** In a flat directory the budget check counts every byte of the disk. *)
Lemma directory_bytes_sum root d n d' :
  flat root d -> directory_bytes root d = (Ok n, d') ->
  n = Z.min (disk_bytes d) u64_MAX /\ same_files d d'.
Proof.
  intros Hflat E. apply bind_inv in E as (paths & d1 & E1 & E).
  apply syscall_inv in E1 as [[? _]|(d0 & Hs0 & [= <- <-])]; [done|].
  apply bind_inv in E as (lens & d2 & E & [= <- <-]).
  apply file_lengths_inv in E as [Hs Hl]. split; [|by etrans].
  assert (entries root d0 = map fst (map_to_list (files d))) as He.
  { unfold entries. rewrite (proj1 Hs0). apply filter_all. apply Forall_forall. intros p Hp.
    apply Hflat. apply (list_elem_of_fmap fst) in Hp as ([q f] & -> & Hq). exists f.
    by apply elem_of_map_to_list. }
  rewrite He in Hl. rewrite disk_bytes_list in *.
  assert (Forall (fun pf => files d !! pf.1 = Some pf.2) (map_to_list (files d))) as Hin.
  { apply Forall_forall. intros [p f] Hp. by apply elem_of_map_to_list. }
  rewrite (proj1 Hs0) in Hl. revert Hin Hl. generalize (map_to_list (files d)). intros l Hin Hl.
  assert (foldr Z.add 0 lens = foldr (fun pf acc => blen (content pf.2) + acc) 0 l /\ Forall (fun n => 0 <= n) lens) as [Hsum Hn].
  { revert lens Hl. induction Hin as [|[p f] l Hp Hin IH]; intros lens Hl.
    - by apply Forall2_nil_inv_l in Hl as ->.
    - apply Forall2_cons_inv_l in Hl as (n & ls & (f' & Hf & ->) & Hl & ->). simpl in Hp, Hf.
      rewrite Hp in Hf. injection Hf as <-. destruct (IH ls Hl) as [E ?]. simpl. rewrite E. split; [done|].
      constructor; [apply blen_nonneg|done]. }
  unfold sum_lengths. destruct (sum_lengths_spec lens 0) as [->|?]; [lia|done| |unfold u64_MAX in *; lia].
  by rewrite Hsum.
Qed.

Lemma directory_bytes_inv root d n d' :
  flat root d -> directory_bytes root d = (Ok n, d') -> disk_bytes d < u64_MAX ->
  n = disk_bytes d /\ same_files d d'.
Proof. intros Hflat E Hlt. destruct (directory_bytes_sum _ _ _ _ Hflat E) as [-> ?]. split; [lia|done]. Qed.

Section Runs.
Context `{CRC : Crc32} `{NAMES : SegmentNames} {S : Type} `{SINK : MetadataSink S} `{LAWS : !MetadataSinkLaws S}.
Context (root : Path) (max_bytes m store_max : Z).

(** What a store that has opened starts from: its disk after recovery, within the
    budget, and the sink in step with its durable storage. *)
Record opened (d : Disk) (sink : S) (t : Thread S) : Prop := {
  o_open : exists d0 s, open root max_bytes m store_max d0 sink = (Ok s, d) /\ ss_writer s = Started t;
  o_flat : flat root d;
  o_small : disk_bytes d < u64_MAX;
  o_budget : store_max < u64_MAX - HEADER_SIZE;
  o_sink : sink_ok sink;
  o_rows : rows_durable sink = rows_sent sink
}.

Definition received (evs : list Received) : list ContentRecord := concat (map records_of evs).

Abbreviation ok d sink := (thread_ok root m store_max (files d) (rows_sent sink) (disk_bytes d) (disk_bytes d) (calls d)).

Lemma opened_ok d sink t : opened d sink t -> disk_bytes d <= store_max /\ ok d sink fresh_history t [].
Proof.
  intros [(d0 & s & E & Ew) Hflat Hsmall Hb Hk Hs]. unfold open in E.
  destruct (prepare_directory root m store_max d0) as [[n|] d1] eqn:Ep; [|done].
  injection E as <- <-. cbn in Ew. unfold spawn_writer in Ew.
  destruct (ActiveWriter_new root max_bytes m store_max n d1) as [[w|] d2] eqn:En; [|done].
  injection Ew as <-.
  apply bind_inv in Ep as ([] & d3 & _ & Ep). apply bind_inv in Ep as ([] & d4 & _ & Ep).
  apply bind_inv in Ep as (n' & d5 & Ed & Ep). apply bind_inv in Ep as ([] & d6 & [Hn ->]%ensure_inv & [= <- <-]).
  assert (files d5 = files d4) as Hf.
  { apply bind_inv in Ed as (paths & d7 & E1 & E2). apply bind_inv in E2 as (ls & d8 & E2 & [= _ <-]).
    apply file_lengths_inv in E2 as [[-> _] _]. by apply syscall_inv in E1 as [[? _]|(d9 & [Hs0 _] & [= _ <-])]. }
  apply directory_bytes_inv in Ed as [-> _]; [|by unfold flat in *; rewrite <- Hf|by unfold disk_bytes in *; rewrite <- Hf].
  assert (disk_bytes d4 = disk_bytes d5) as Hd by (unfold disk_bytes; by rewrite Hf). rewrite Hd in *.
  apply negb_true_iff, Z.ltb_ge in Hn. split; [done|]. apply (start_ok root max_bytes); try done.
  split; [|done]. apply map_sum_nonneg. intros; apply blen_nonneg.
Qed.

(** The state of the thread after any run. *)
Lemma run_ok d sink t evs :
  opened d sink t -> Forall typed_event evs ->
  exists g, ok d sink g (thread_run evs t) (received evs).
Proof.
  intros Ho Ht. destruct (opened_ok _ _ _ Ho) as [_ Hok].
  destruct (thread_run_ok _ _ _ _ _ _ _ _ evs _ _ _ Hok Ht) as (g & Hg).
  { pose proof (o_budget _ _ _ Ho). unfold HEADER_SIZE in *. lia. }
  by exists g.
Qed.

(** ** The index *)

(** The row describes the record and the file holds it at the row's offset. *)
Definition found (d : Disk) (row : ContentIndexRecord) (r : ContentRecord) : Prop :=
  exists path f, files d !! path = Some f /\ row = index_of r path (ci_segment_offset row) /\
    record_at (content f) (ci_segment_offset row) m = Ok (stored r).

Lemma rows_found d path f hdr rest : forall b a,
  files d !! path = Some f -> header_ok hdr -> Forall (fun r => frame_ok m (frame_of r)) b ->
  content f = hdr ++ frames_of a ++ frames_of b ++ rest ->
  Forall2 (found d) (rows path (HEADER_SIZE + blen (frames_of a)) b) b.
Proof.
  induction b as [|r b IH]; intros a Hf Hh Hst Hc; cbn [rows]; [constructor|].
  inversion_clear Hst as [|? ? Hr Hb].
  change (r :: b) with ([r] ++ b) in Hc. rewrite frames_of_app, frames_of_one in Hc.
  constructor.
  - exists path, f. split; [done|]. split; [done|]. rewrite Hc, <- (app_assoc (envelope _)).
    by apply (segment_lookup m hdr (map frame_of a) (frame_of r)).
  - rewrite <- Z.add_assoc, <- envelope_length, <- frames_of_one, <- blen_app, <- frames_of_app.
    apply IH; [done|done|done|]. rewrite frames_of_app, frames_of_one, Hc. by rewrite <- !app_assoc.
Qed.

Lemma sealed_found d pr :
  sealed_file m d pr -> Forall2 (found d) (rows pr.1 HEADER_SIZE pr.2) pr.2.
Proof.
  intros (f & Hf & (hdr & Hh & Hs & Hc) & _). rewrite Forall_map in Hs.
  apply (rows_found d pr.1 f hdr [] pr.2 []); [done|done|done|]. by rewrite app_nil_r.
Qed.

Lemma sealed_rows_found d l :
  Forall (sealed_file m d) l ->
  Forall2 (found d) (concat (map (fun pr => rows pr.1 HEADER_SIZE pr.2) l)) (concat (map snd l)).
Proof. induction 1; [constructor|]. cbn. apply Forall2_app; [by apply sealed_found|done]. Qed.

Lemma active_found d path f hdr rs :
  files d !! path = Some f -> header_ok hdr -> Forall (storable m) rs ->
  rs = [] \/ (hdr ++ frames_of rs) `prefix_of` content f ->
  Forall2 (found d) (rows path HEADER_SIZE rs) rs.
Proof.
  intros Hf Hh Hst [->|[rest Hc]]; [constructor|].
  apply (rows_found d path f hdr rest rs []); [done|done| |by rewrite Hc, <- app_assoc].
  eapply Forall_impl; [exact Hst|]. apply frame_of_ok.
Qed.

(** C7. Whatever fails and however it is interrupted, the content index never
    points at anything but what it describes: after any sequence of commands, each
    index row the writer has sent names a file that holds, at the row's offset, the
    very record the row was made from (an empty service name reads back as none).
    The rows are in the order of the records, no record has two, and when no turn
    has failed and none waits, every record received has one. *)
Theorem index_points_at_records d sink t evs :
  opened d sink t -> Forall typed_event evs ->
  let s := th_state (thread_run evs t) in
  exists new rs,
    rows_sent (st_sink s) = rows_sent sink ++ new /\ Forall2 (found (st_disk s)) new rs /\
    sublist rs (received evs) /\
    (th_fatal (thread_run evs t) = false -> st_pending s = [] -> rs = received evs).
Proof.
  intros Ho Ht s. destruct (run_ok _ _ _ evs Ho Ht) as (g & I & _ & Hsub & Hall & _).
  fold s in I. exists (sealed_rows g ++ rows (aw_path (st_writer s)) HEADER_SIZE (indexed g)).
  exists (concat (map snd (sealed g)) ++ indexed g). split; [apply (i_sent I)|].
  destruct (i_active I) as (f & hdr & (Hf & _) & Hh & _ & Hix). cbn in Hf.
  rewrite <- (i_path I) in Hf.
  pose proof (i_storable I) as Hst. apply Forall_app in Hst as [Hst _].
  split; [|split].
  - apply Forall2_app; [apply sealed_rows_found, I|]. by eapply active_found.
  - etrans; [|exact Hsub]. unfold recorded, active_records. rewrite app_assoc. by apply sublist_inserts_r.
  - intros Hfa Hpe. rewrite <- (Hall Hfa). unfold recorded, active_records.
    pose proof (i_pending I) as Hp. rewrite Hpe in Hp.
    destruct (waiting g); [by rewrite app_nil_r|done].
Qed.

(** C22. The disk budget: at every moment of every run the bytes in the store's
    files stay within the configured maximum, the header of the file made at
    opening apart, whichever writes are cut short. *)
Theorem disk_budget_holds d sink t evs :
  opened d sink t -> Forall typed_event evs ->
  disk_bytes (st_disk (th_state (thread_run evs t))) <= Z.max store_max (disk_bytes d + HEADER_SIZE) /\
  disk_bytes d <= store_max.
Proof.
  intros Ho Ht. destruct (opened_ok _ _ _ Ho) as [Hd _]. split; [|done].
  destruct (run_ok _ _ _ evs Ho Ht) as (g & I & _).
  pose proof (i_total I). pose proof (i_budget I).
  pose proof (blen_nonneg (bw_buf (aw_file (st_writer (th_state (thread_run evs t)))))). lia.
Qed.
End Runs.

(** ** Records the writer refuses *)

Section Refusals.
Context `{CRC : Crc32} `{NAMES : SegmentNames} {S : Type} `{SINK : MetadataSink S}.

(** What ends a turn short of the test of [fatal]: a record that does not fit the
    record limit or the store's budget. *)
Definition refused (w : ActiveWriter) (r : ContentRecord) : Prop := prepare_record w r = Err.

Definition after_refusals (rs : list ContentRecord) (t : Thread S) : Thread S :=
  {| th_state := th_state t; th_fatal := th_fatal t || negb (is_empty rs); th_running := true |}.

Lemma refused_step r t :
  th_running t = true -> refused (st_writer (th_state t)) r ->
  thread_step (Command (Record_ r)) t = (NoReply, after_refusals [r] t).
Proof.
  intros Hr He. unfold thread_step, turn, record_turn. rewrite Hr, He.
  unfold after_refusals. cbn. by rewrite orb_true_r.
Qed.

(** C40. A record that the writer refuses (too large, or past the store's budget)
    leaves no trace, and neither does the fatal error it raises as long as nothing
    else arrives: the thread keeps running on the same state, and drops every
    further record it refuses.  The first command it can serve, or the next
    time-out, ends it. *)
Theorem refused_records_leave_no_trace rs t :
  th_running t = true -> Forall (refused (st_writer (th_state t))) rs ->
  thread_run (map (fun r => Command (Record_ r)) rs) t = after_refusals rs t /\
  (rs <> [] -> forall ev, (forall r, ev <> Command (Record_ r)) ->
     th_running (thread_step ev (after_refusals rs t)).2 = false).
Proof.
  intros Hr Hrs. split.
  - revert t Hr Hrs. induction rs as [|r rs IH]; intros t Hr Hrs.
    + destruct t; cbn in *. unfold after_refusals. by rewrite Hr, orb_false_r.
    + apply Forall_cons in Hrs as [H1 H2]. cbn [map thread_run fold_left].
      rewrite refused_step by done. cbn [snd]. unfold thread_run in IH. rewrite IH by done.
      unfold after_refusals. cbn. by rewrite orb_true_r.
  - intros Hne ev Hev. assert (th_fatal (after_refusals rs t) = true) as Hf.
    { destruct rs; [done|]. apply orb_true_r. }
    unfold thread_step. cbn [th_running after_refusals].
    destruct (turn ev (th_state (after_refusals rs t))) as [[[failed| |] reply] s] eqn:Et; cbn [snd].
    + by rewrite Hf.
    + exfalso. unfold turn in Et. destruct ev as [[r| |]|sh q|]; [by destruct (Hev r)|..];
        repeat case_match; simplify_eq.
    + done.
Qed.
End Refusals.

(** * Snapshots

    What sealing the active segment gives a replay: a set of files that holds
    every record received before, and that no later turn changes. *)

(** ** Names *)

Lemma after_dot_seg s : after_dot (s +:+ ".seg") = Some "seg"%string.
Proof.
  induction s as [|c s IH]; [done|].
  change (String c s +:+ ".seg") with (String c (s +:+ ".seg")). cbn [after_dot]. by rewrite IH.
Qed.

Lemma string_app_assoc a b c : (a +:+ b) +:+ c = a +:+ (b +:+ c).
Proof. induction a as [|x a IH]; [done|]. exact (f_equal (String x) IH). Qed.

Lemma last_snoc {A} (l : list A) x d : List.last (l ++ [x]) d = x.
Proof. induction l as [|y l IH]; [done|]. simpl. rewrite IH. by destruct l. Qed.

Lemma starts_with_self p : forall q, path_starts_with (p ++ q) p = true.
Proof. induction p as [|c p IH]; intros q; [by destruct q|]. simpl. by rewrite bool_decide_true, IH. Qed.

Section Snapshots.
Context `{CRC : Crc32} `{NAMES : SegmentNames} {S : Type} `{SINK : MetadataSink S} `{LAWS : !MetadataSinkLaws S}.
Context (root : Path) (max_bytes m store_max : Z).

Lemma segment_path_listed n : is_segment (segment_path root n) = true /\ in_directory root (segment_path root n) = true.
Proof.
  unfold is_segment, in_directory, segment_path, file_name. rewrite last_snoc, starts_with_self, blen_app. split.
  - apply bool_decide_eq_true.
    assert (forall a b, extension ("segment-" +:+ a +:+ "-" +:+ b +:+ ".seg") = Some "seg"%string) as H; [|apply H].
    intros a b. rewrite <- !string_app_assoc.
    set (x := (("segment-" +:+ a) +:+ "-") +:+ b).
    assert (exists c y, x = String c y) as (c & y & ->) by by eexists _, _. apply (after_dot_seg y).
  - cbn [andb]. apply Z.eqb_eq. done.
Qed.

Lemma sort_paths_In l p : In p (sort_paths l) <-> In p l.
Proof.
  unfold sort_paths. rewrite <- !list_elem_of_In. by rewrite (merge_sort_Permutation path_le l).
Qed.

Lemma list_segments_inv d paths d' :
  list_segments root d = (Ok paths, d') ->
  same_files d d' /\
  forall p, In p paths <-> is_Some (files d !! p) /\ in_directory root p = true /\ is_segment p = true.
Proof.
  intros E. apply bind_inv in E as (l & d1 & E & [= <- <-]).
  apply syscall_inv in E as [[? _]|(d0 & Hs & [= <- <-])]; [done|]. split; [done|].
  intros p. rewrite sort_paths_In, <- list_elem_of_In, list_elem_of_filter. unfold entries.
  rewrite list_elem_of_filter, (proj1 Hs). split.
  - intros (? & ? & ([q f] & -> & Hq)%list_elem_of_fmap). apply elem_of_map_to_list in Hq. by eauto.
  - intros ([f Hf] & ? & ?). split; [done|]. split; [done|]. apply list_elem_of_fmap.
    exists (p, f). split; [done|]. by apply elem_of_map_to_list.
Qed.

(** ** Sealing *)

Lemma seal_inv old rows0 R0 T0 n0 g s paths s' :
  inv root m store_max old rows0 R0 T0 n0 g s -> partial g = [] -> store_max < u64_MAX ->
  seal s = (Ok paths, s') ->
  exists g', inv root m store_max old rows0 R0 T0 n0 g' s' /\ partial g' = [] /\ active_records g' = [] /\
    recorded g' = recorded g /\
    forall p, In p paths <-> is_Some (files (st_disk s') !! p) /\ in_directory root p = true /\
                            is_segment p = true /\ p <> aw_path (st_writer s').
Proof.
  intros I Hpt Hmax E. apply bind_inv in E as ([] & s1 & E1 & E).
  destruct (commit_ok _ _ _ _ _ _ _ _ _ _ _ _ I Hpt Hmax E1) as (g1 & I1 & Hp1 & Hr1 & Hok).
  destruct (Hok eq_refl) as (Hsealed & Hact & _).
  apply bind_inv in E as (active & s2 & [= <- <-] & E). apply bind_inv in E as (r & s2 & [= <- <-] & E).
  apply bind_inv in E as (l & s2 & E2 & [= <- <-]). apply focus_inv in E2 as (d' & E2 & ->).
  rewrite (i_root I1) in E2. apply list_segments_inv in E2 as [Hd Hl].
  exists g1. split; [by apply set_disk_ok|]. split; [done|]. split; [done|]. split; [done|].
  intros p. rewrite <- list_elem_of_In, list_elem_of_filter, list_elem_of_In, Hl. cbn.
  rewrite (proj1 Hd). tauto.
Qed.

(** With nothing in the active file yet, everything else on the disk may count as
    old: the later history starts afresh. *)
Lemma rebase old rows0 R0 T0 n0 g s :
  inv root m store_max old rows0 R0 T0 n0 g s -> partial g = [] -> active_records g = [] ->
  inv root m store_max (delete (aw_path (st_writer s)) (files (st_disk s))) (rows_sent (st_sink s))
    (aw_retained_bytes (st_writer s) - HEADER_SIZE)
    (disk_bytes (st_disk s) + blen (bw_buf (aw_file (st_writer s))) - HEADER_SIZE) n0 fresh_history s.
Proof.
  intros I Hpt Hact. destruct I.
  assert (indexed g = [] /\ waiting g = []) as [Hix Hwt] by by apply app_eq_nil.
  split; try done.
  - destruct i_active as (f & hdr & Ho & Hh & Hw & _). exists f, hdr. split; [done|]. split; [done|].
    split; [|by left]. rewrite Hw, Hact, Hpt. done.
  - constructor; [by intros ?%elem_of_nil|constructor].
  - destruct i_names as (n & ? & ? & _). exists n. by split.
  - intros q f [Hn Hq]%lookup_delete_Some. by split.
  - intros q f Hq. destruct (decide (q = aw_path (st_writer s))) as [->|Hn]; [by left|right; right].
    by rewrite lookup_delete_ne.
  - by left.
  - by rewrite i_pending, Hwt.
  - cbn. by rewrite app_nil_r.
  - cbn. rewrite app_nil_r, i_sent, Hix. cbn. by rewrite app_nil_r.
  - by rewrite i_bytes, Hact.
  - change (blen (partial fresh_history)) with 0. lia.
  - change (blen (partial fresh_history)) with 0. rewrite Hpt in i_budget. change (blen []) with 0 in i_budget. lia.
Qed.

(** The file holds the record in one of its frames. *)
Definition holds (d : Disk) (p : Path) (r : ContentRecord) : Prop :=
  exists f l, files d !! p = Some f /\ segment_of m (content f) l /\ In (stored r) (map snd l).

Lemma sealed_holds d l r :
  Forall (sealed_file m d) l -> In r (concat (map snd l)) -> exists p, In p (map fst l) /\ holds d p r.
Proof.
  intros Hs (rs & (pr & <- & Hpr)%in_map_iff & Hr)%in_concat.
  rewrite Forall_forall in Hs. destruct (Hs pr (proj2 (list_elem_of_In _ _) Hpr)) as (f & Hf & Hseg & _).
  exists pr.1. split; [by apply in_map|]. exists f, (map frame_of pr.2). split; [done|]. split; [done|].
  rewrite map_map. apply (in_map (fun x => (frame_of x).2) _ r Hr).
Qed.

(** A thread that goes on from a rebased state leaves the old files alone. *)
Lemma thread_old_kept old rows0 R0 T0 n0 g t evs p f :
  thread_ok root m store_max old rows0 R0 T0 n0 g t [] -> Forall typed_event evs -> store_max < u64_MAX ->
  old !! p = Some f -> files (st_disk (th_state (thread_run evs t))) !! p = Some f.
Proof.
  intros Hok Ht Hmax Hp. destruct (thread_run_ok _ _ _ _ _ _ _ _ evs _ _ _ Hok Ht Hmax) as (g' & I & _).
  by destruct (i_old I p f Hp).
Qed.

(** C21. A snapshot for replay is complete and frozen.  When the writer answers a
    seal with a list of files, every record received before (no turn having
    failed) is in one of them, the active file is not among them, and whatever the
    thread receives later, and whatever fails, none of them changes by a byte. *)
Theorem snapshot_is_complete_and_frozen d sink t evs later paths t1 :
  opened root max_bytes m store_max d sink t -> Forall typed_event evs -> Forall typed_event later ->
  thread_step (Command Seal) (thread_run evs t) = (SealReply (Ok paths), t1) ->
  let d1 := st_disk (th_state t1) in
  (th_fatal (thread_run evs t) = false ->
     forall r, In r (received evs) -> exists p, In p paths /\ holds d1 p r) /\
  ~ In (aw_path (st_writer (th_state t1))) paths /\
  (forall p, In p paths -> is_Some (files d1 !! p) /\
     files (st_disk (th_state (thread_run later t1))) !! p = files d1 !! p).
Proof.
  intros Ho Ht Hlater E d1. assert (store_max < u64_MAX) as Hmax.
  { pose proof (o_budget _ _ _ _ _ _ _ Ho). unfold HEADER_SIZE in *. lia. }
  destruct (run_ok _ _ _ _ _ _ _ evs Ho Ht) as (g & I & Hpt & Hsub & Hall & _).
  unfold thread_step in E. destruct (th_running (thread_run evs t)); [|done]. specialize (Hpt eq_refl).
  unfold turn in E. destruct (seal (th_state (thread_run evs t))) as [r1 s1] eqn:Es.
  injection E as -> Et1. cbn [is_err] in Et1. rewrite orb_false_r in Et1.
  destruct (seal_inv _ _ _ _ _ _ _ _ _ I Hpt Hmax Es) as (g1 & I1 & Hp1 & Hact & Hrec & Hpaths).
  pose proof (rebase _ _ _ _ _ _ _ I1 Hp1 Hact) as I2.
  assert (exists g', thread_ok root m store_max (delete (aw_path (st_writer s1)) (files (st_disk s1)))
    (rows_sent (st_sink s1)) (aw_retained_bytes (st_writer s1) - HEADER_SIZE)
    (disk_bytes (st_disk s1) + blen (bw_buf (aw_file (st_writer s1))) - HEADER_SIZE) (calls d) g' t1 []
    /\ aw_path (st_writer (th_state t1)) = aw_path (st_writer s1)) as (g' & Hok & Hpath).
  { destruct (th_fatal _).
    - subst t1. destruct (finish_thread_ok _ _ _ _ _ _ _ _ _ _ [] I2 (sublist_nil_l _)) as (g' & Hg). exists g'. split; [done|].
      change (th_state (finish_thread s1)) with (flush_and_publish true s1).2.
      destruct (flush_and_publish true s1) as [rf sf] eqn:Ef.
      by destruct (flush_and_publish_ok _ _ _ _ _ _ _ _ _ _ _ _ _ I2 Ef) as (_ & _ & _ & ? & _).
    - subst t1. exists fresh_history. split; [|done]. done. }
  assert (forall p, In p paths -> exists f, delete (aw_path (st_writer s1)) (files (st_disk s1)) !! p = Some f) as Hin.
  { intros p Hp. apply Hpaths in Hp as ([f Hf] & _ & _ & Hn). exists f. by rewrite lookup_delete_ne. }
  split; [|split].
  - intros Hfa r Hr. rewrite Hfa in Et1. subst t1. rewrite <- (Hall Hfa), <- Hrec in Hr.
    unfold recorded in Hr. rewrite Hact, app_nil_r in Hr.
    destruct (sealed_holds _ _ r (i_sealed I1) Hr) as (p & Hp & Hh).
    exists p. split; [|done]. apply Hpaths. destruct Hh as (f & l & Hf & _).
    destruct (i_names I1) as (n & _ & _ & Hj).
    apply list_elem_of_In in Hp. rewrite Forall_forall in Hj. destruct (Hj p Hp) as (j & _ & ->).
    destruct (segment_path_listed j) as [? ?]. split; [by exists f|]. split; [done|]. split; [done|].
    intros Heq. pose proof (i_nodup I1) as Hnd. apply NoDup_cons in Hnd as [Hnd _].
    by rewrite Heq in Hp.
  - rewrite Hpath. intros Hp. by apply Hpaths in Hp as (_ & _ & _ & ?).
  - intros p Hp. destruct (Hin p Hp) as (f & Hf). destruct Hok as (I' & Hrest).
    destruct (i_old I' p f Hf) as [Hf1 _]. unfold d1. rewrite Hf1. split; [by eexists|].
    by eapply thread_old_kept; [exact (conj I' Hrest)| | |].
Qed.
End Snapshots.
