(* ===== verification/SegmentCrash.v ===== *)
(** * Crashes and recovery

    A crash keeps of every file a beginning that has at least its durable bytes.
    Whenever it strikes, the next opening finds the records of the sealed segments
    and a beginning of the active one's, and cuts nothing else away. *)

From stdpp Require Import strings sorting.
From S2P Require Import Prelude Model Text Services Disk DiskSpec Sink Segment SegmentSpec SegmentStore SegmentStoreSpec SegmentOps SegmentTheorems.

Definition crash_file (f f' : File) : Prop :=
  content f' `prefix_of` content f /\ synced f <= blen (content f') /\ synced f' = blen (content f').

Definition crashed (d d' : Disk) : Prop :=
  forall q, option_Forall2 crash_file (files d !! q) (files d' !! q).

Lemma crashed_Some d d' q f' :
  crashed d d' -> files d' !! q = Some f' -> exists f, files d !! q = Some f /\ crash_file f f'.
Proof. intros H E. specialize (H q). rewrite E in H. inversion H. by eexists. Qed.

Lemma crashed_lookup d d' q f :
  crashed d d' -> files d !! q = Some f -> exists f', files d' !! q = Some f' /\ crash_file f f'.
Proof. intros H E. specialize (H q). rewrite E in H. inversion H. by eexists. Qed.

(** What was durable is all there. *)
Lemma crash_durable f f' : crash_file f f' -> synced f = blen (content f) -> content f' = content f.
Proof.
  intros ([t E] & Hs & _) Hd. rewrite Hd, E, blen_app in Hs.
  rewrite (blen_zero t), app_nil_r in E; [done|]. pose proof (blen_nonneg t). lia.
Qed.

(** ** The newest file *)

Definition name_lt (a b : string) : Prop := lex_compare (bytes_of a) (bytes_of b) = Lt.

Lemma name_le_total : Total name_le.
Proof.
  intros a b. unfold name_le. rewrite (lex_compare_antisym (bytes_of b) (bytes_of a)).
  destruct (lex_compare _ _); simpl; auto; left; congruence.
Qed.

Lemma last_sorted l p :
  In p l -> (forall q, In q l -> q = p \/ name_lt (file_name q) (file_name p)) ->
  last (sort_paths l) = Some p.
Proof.
  intros Hp Hmax. unfold sort_paths.
  assert (Total path_le) as Ht by (intros a b; apply name_le_total).
  pose proof (Sorted_merge_sort path_le l) as Hs. pose proof (merge_sort_Permutation path_le l) as Hperm.
  revert Hs Hperm. generalize (merge_sort path_le l). intros k Hs Hperm.
  assert (p ∈ k) as Hpk by (rewrite Hperm; by apply list_elem_of_In).
  assert (forall q, q ∈ k -> q = p \/ name_lt (file_name q) (file_name p)) as Hk.
  { intros q Hq. apply Hmax, list_elem_of_In. by rewrite <- Hperm. }
  clear -Hs Hpk Hk. induction k as [|x k IH]; [by apply elem_of_nil in Hpk|].
  destruct k as [|y k].
  - apply list_elem_of_singleton in Hpk as ->. done.
  - rewrite last_cons_cons. apply IH.
    + by inversion Hs.
    + apply elem_of_cons in Hpk as [->|?]; [|done].
      inversion Hs as [|? ? _ Hy]; subst. inversion Hy as [|? ? Hxy]; subst.
      destruct (Hk y) as [->|Hlt]; [set_solver|set_solver|]. exfalso. unfold path_le, name_le, name_lt in *.
      rewrite lex_compare_antisym, Hlt in Hxy. done.
    + set_solver.
Qed.

Section Crash.
Context `{CRC : Crc32} `{NAMES : SegmentNames} {S : Type} `{SINK : MetadataSink S} `{LAWS : !MetadataSinkLaws S}.
Context (root : Path) (max_bytes m store_max : Z).

(** ** A beginning of a segment *)

Lemma partial_prefix t t' : partial_ok m t -> t' `prefix_of` t -> partial_ok m t'.
Proof.
  intros [->|(fr & k & Hf & Hk & ->)] Hp; [left; by apply prefix_nil_inv in Hp|].
  right. exists fr, (length t'). split; [done|]. destruct Hp as [u Hu].
  assert (length t' <= k)%nat by (pose proof (f_equal length Hu) as E; rewrite length_take, length_app in E; lia).
  split; [lia|]. rewrite <- (take_drop k (envelope fr.1)), Hu, <- app_assoc. by rewrite take_app_length.
Qed.

Lemma frames_prefix l : forall tail c,
  Forall (frame_ok m) l -> partial_ok m tail -> c `prefix_of` (frames l ++ tail) ->
  exists k t, c = frames (take k l) ++ t /\ partial_ok m t.
Proof.
  induction l as [|fr l IH]; intros tail c Hl Ht Hc.
  - exists 0%nat, c. split; [done|]. by eapply partial_prefix.
  - inversion_clear Hl as [|? ? Hf Hl'].
    change (frames (fr :: l)) with (envelope fr.1 ++ frames l) in Hc. rewrite <- app_assoc in Hc.
    destruct (decide (length c < length (envelope fr.1))%nat) as [Hlt|Hge].
    + exists 0%nat, c. split; [done|]. right. exists fr, (length c). split; [done|]. split; [done|].
      destruct Hc as [u Hu]. assert (take (length c) (envelope fr.1 ++ (frames l ++ tail)) = c) as E
        by (rewrite Hu; apply take_app_length).
      rewrite <- E at 1. by rewrite take_app_le by lia.
    + destruct Hc as [u Hu]. assert (c = envelope fr.1 ++ drop (length (envelope fr.1)) c) as E.
      { assert (take (length (envelope fr.1)) c = envelope fr.1) as E1.
        { rewrite <- (take_app_le c u) by lia. rewrite <- Hu. apply take_app_length. }
        by rewrite <- E1 at 1; rewrite take_drop. }
      destruct (IH tail (drop (length (envelope fr.1)) c) Hl' Ht) as (k & t & Ek & Hpt).
      { exists u. rewrite E in Hu. rewrite <- app_assoc in Hu. by apply app_inv_head in Hu. }
      exists (Datatypes.S k), t. split; [|done]. rewrite E, Ek at 1.
      change (frames (take (Datatypes.S k) (fr :: l))) with (envelope fr.1 ++ frames (take k l)). by rewrite app_assoc.
Qed.

(** ** Recovery of the newest file *)

Lemma recover_partial path tail len d l n :
  Forall (frame_ok m) l -> partial_ok m tail -> blen (frames l ++ tail) <= len < u64_MAX ->
  (length (frames l ++ tail) < n)%nat ->
  recover_loop path m len n (frames l ++ tail) d = cut_tail path len tail d.
Proof.
  intros Hl [->|Ht] Hlen Hn; [|by apply recover_frames].
  revert n Hn. induction Hl as [|fr l Hf Hl IH]; intros n Hn.
  - destruct n as [|n]; [simpl in Hn; lia|]. cbn. by rewrite Z.sub_0_r, Z.eqb_refl.
  - destruct n as [|n]; [lia|]. rewrite app_nil_r in *.
    change (frames (fr :: l)) with (envelope fr.1 ++ frames l) in *.
    rewrite recover_step by done. rewrite blen_app in Hlen. rewrite length_app in Hn.
    pose proof (envelope_length fr.1). pose proof (blen_nonneg fr.1).
    assert (12 <= length (envelope fr.1))%nat by (unfold blen in *; lia). apply IH; lia.
Qed.

(** The newest file after recovery. *)
Definition recovered (hdr : bytes) (l : list Frame) (f' : option File) : Prop :=
  match f' with
  | None => l = []
  | Some f' => header_ok hdr /\ Forall (frame_ok m) l /\ content f' = hdr ++ frames l /\
               synced f' = blen (content f')
  end.

Lemma truncate_fine path n d f :
  faults d = [] -> files d !! path = Some f -> 0 <= n <= blen (content f) ->
  exists d', truncate_tail path n d = (Ok tt, d') /\ faults d' = [] /\
    files d' = <[path := {| content := take (Z.to_nat n) (content f); synced := n |}]> (files d).
Proof.
  intros Hd Hf Hn. unfold truncate_tail, set_len, sync_file.
  erewrite bind_ok by (rewrite syscall_fine by done; reflexivity).
  rewrite syscall_fine by done. eexists. split; [reflexivity|]. split; [done|]. cbn.
  apply map_eq. intros q. destruct (decide (q = path)) as [->|Hq].
  - rewrite !lookup_alter_eq, Hf, lookup_insert_eq. cbn. do 2 f_equal.
    unfold blen in *. rewrite length_take. lia.
  - by rewrite !lookup_alter_ne, lookup_insert_ne.
Qed.

Lemma recover_known path f d :
  faults d = [] -> files d !! path = Some f -> latest_segment_path root d = (Ok (Some path), d) ->
  recover_last_segment_tail root m d
  = (if blen (content f) <? HEADER_SIZE then remove_file path else
     match read_header (content f) with
     | (Err, _) => bail
     | (Ok _, rest) => recover_loop path m (blen (content f)) (Datatypes.S (length rest)) rest
     end) d.
Proof.
  intros Hd Hf Hlast. unfold recover_last_segment_tail. erewrite bind_ok by exact Hlast.
  assert (read_file path d = (Ok (content f), d)) as Hread.
  { unfold read_file, open_file. erewrite bind_ok; [done|]. rewrite syscall_fine by done.
    unfold mbind, Eff_bind, reads, lift. by rewrite Hf. }
  cbv beta iota. by erewrite bind_ok by exact Hread.
Qed.

Lemma recover_newest d path f hdr l tail :
  faults d = [] -> files d !! path = Some f -> synced f = blen (content f) ->
  blen (content f) < u64_MAX -> latest_segment_path root d = (Ok (Some path), d) ->
  header_ok hdr -> Forall (frame_ok m) l -> partial_ok m tail ->
  content f `prefix_of` (hdr ++ frames l ++ tail) ->
  exists d' k, recover_last_segment_tail root m d = (Ok tt, d') /\
    (forall q, q <> path -> files d' !! q = files d !! q) /\ recovered hdr (take k l) (files d' !! path).
Proof.
  intros Hd Hf Hsy Hlen Hlast [Hhl Hh] Hl Ht Hc.
  rewrite (recover_known path f d Hd Hf Hlast).
  destruct (Z.ltb_spec (blen (content f)) HEADER_SIZE) as [Hs|Hs].
  { unfold remove_file. rewrite syscall_fine, Hf by done. eexists _, 0%nat. split; [done|]. cbn.
    split; [|by rewrite lookup_delete_eq]. intros q Hq. by rewrite lookup_delete_ne. }
  assert (exists c, content f = hdr ++ c /\ c `prefix_of` (frames l ++ tail)) as (c & Ec & Hcp).
  { destruct Hc as [u Hu]. exists (drop (length hdr) (content f)).
    assert (take (length hdr) (content f) = hdr) as E1.
    { rewrite <- (take_app_le (content f) u) by (unfold blen in *; lia). rewrite <- Hu. apply take_app_length. }
    assert (content f = hdr ++ drop (length hdr) (content f)) as E by (by rewrite <- E1 at 1; rewrite take_drop).
    split; [done|]. exists u. rewrite E in Hu. rewrite <- app_assoc in Hu. by apply app_inv_head in Hu. }
  rewrite Ec, Hh. destruct (frames_prefix l tail c Hl Ht Hcp) as (k & t & -> & Hpt).
  assert (Forall (frame_ok m) (take k l)) as Hk by by apply Forall_take.
  rewrite Ec, !blen_app in Hlen. rewrite Hhl in Hlen.
  rewrite recover_partial; [|done|done|rewrite !blen_app, Hhl; unfold HEADER_SIZE in *; lia|lia].
  unfold cut_tail. pose proof (blen_nonneg (frames (take k l))). pose proof (blen_nonneg t).
  pose proof (blen_nonneg hdr).
  destruct (is_empty t) eqn:Et.
  - apply is_empty_spec in Et as ->. exists d, k. split; [done|]. split; [done|]. rewrite Hf. cbn.
    split; [by split|]. split; [done|]. split; [|done]. by rewrite Ec, app_nil_r.
  - destruct (truncate_fine path (blen (hdr ++ frames (take k l) ++ t) - blen t) d f) as (d' & E & _ & Hf');
      [done|done|rewrite Ec, !blen_app; lia|].
    exists d', k. split; [done|]. rewrite Hf'. split; [intros q Hq; by rewrite lookup_insert_ne|].
    rewrite lookup_insert_eq. cbn. split; [by split|]. split; [done|].
    assert (Z.to_nat (blen (hdr ++ frames (take k l) ++ t) - blen t) = length (hdr ++ frames (take k l))) as ->.
    { rewrite !blen_app. unfold blen. rewrite length_app. lia. }
    rewrite Ec, app_assoc, take_app_length. split; [done|]. rewrite !blen_app. lia.
Qed.

(** ** The directory *)

(** Every segment of the directory is complete and durable. *)
Definition complete (d : Disk) : Prop :=
  forall p f, files d !! p = Some f -> in_directory root p = true -> is_segment p = true ->
  (exists l, segment_of m (content f) l) /\ synced f = blen (content f).

(** The clock gives later files later names, also later than those found. *)
Definition later_names (d : Disk) : Prop :=
  (forall i j, (i < j)%nat -> name_lt (file_name (segment_path root i)) (file_name (segment_path root j))) /\
  (forall p j, is_Some (files d !! p) -> is_segment p = true -> (calls d <= j)%nat ->
     name_lt (file_name p) (file_name (segment_path root j))).

Lemma latest_fine d path f :
  faults d = [] -> files d !! path = Some f -> is_segment path = true -> in_directory root path = true ->
  (forall q, is_Some (files d !! q) -> is_segment q = true ->
     q = path \/ name_lt (file_name q) (file_name path)) ->
  latest_segment_path root d = (Ok (Some path), d).
Proof.
  intros Hd Hf Hs Hr Hmax.
  assert (exists paths, list_segments root d = (Ok (sort_paths paths), d)) as (paths & E).
  { unfold list_segments, read_dir. eexists. by erewrite bind_ok by (rewrite syscall_fine by done; reflexivity). }
  unfold latest_segment_path. erewrite bind_ok by exact E. do 2 f_equal.
  destruct (list_segments_inv root _ _ _ E) as [_ Hin]. unfold mret, Eff_ret. do 2 f_equal.
  apply last_sorted.
  - apply sort_paths_In, Hin. split; [by eexists|done].
  - intros q Hq. apply sort_paths_In, Hin in Hq as (? & _ & ?). by apply Hmax.
Qed.

Abbreviation writer_inv old rows0 R0 T0 n0 := (inv root m store_max old rows0 R0 T0 n0).

(** After a crash the active file is the newest. *)
Lemma active_is_newest d rows0 R0 T0 g s dc f' :
  writer_inv (files d) rows0 R0 T0 (calls d) g s -> later_names d -> crashed (st_disk s) dc ->
  faults dc = [] -> files dc !! aw_path (st_writer s) = Some f' ->
  latest_segment_path root dc = (Ok (Some (aw_path (st_writer s))), dc).
Proof.
  intros I [Hinc Hlater] Hcr Hd Hf. destruct (i_names I) as (n & Hn & Hlt & Hj).
  destruct (segment_path_listed root n) as [H1 H2]. rewrite Hn in *.
  eapply latest_fine; try done. intros q [fq Hq] Hseg.
  destruct (crashed_Some _ _ _ _ Hcr Hq) as (f0 & Hf0 & _).
  destruct (i_dom I q f0 Hf0) as [->|[Hin|Hold]]; [left; congruence| |].
  - right. rewrite Forall_forall in Hj. apply list_elem_of_In in Hin.
    destruct (Hj q Hin) as (j & ? & ->). by apply Hinc.
  - right. apply Hlater; [by eexists|done|lia].
Qed.

(** The other segments come through whole. *)
Lemma crash_keeps_complete d rows0 R0 T0 g s dc p f' :
  writer_inv (files d) rows0 R0 T0 (calls d) g s -> complete d -> crashed (st_disk s) dc ->
  p <> aw_path (st_writer s) -> files dc !! p = Some f' -> in_directory root p = true -> is_segment p = true ->
  exists f, files (st_disk s) !! p = Some f /\ content f' = content f /\ synced f' = blen (content f') /\
    exists l, segment_of m (content f) l.
Proof.
  intros I Hcomp Hcr Hp Hf Hdir Hseg. destruct (crashed_Some _ _ _ _ Hcr Hf) as (f & Hf0 & Hc).
  exists f. split; [done|].
  assert ((exists l, segment_of m (content f) l) /\ synced f = blen (content f)) as [Hl Hs].
  { destruct (i_dom I p f Hf0) as [?|[Hin|Hold]]; [done| |by eapply Hcomp].
    apply in_map_iff in Hin as (pr & <- & Hin). pose proof (i_sealed I) as Hse. rewrite Forall_forall in Hse.
    destruct (Hse pr (proj2 (list_elem_of_In _ _) Hin)) as (f1 & Hf1 & ? & ?).
    rewrite Hf1 in Hf0. injection Hf0 as ->. split; [by eexists|done]. }
  split; [by apply crash_durable|]. by destruct Hc as (_ & _ & ?).
Qed.

Lemma active_crash d rows0 R0 T0 g s dc :
  writer_inv (files d) rows0 R0 T0 (calls d) g s -> later_names d -> crashed (st_disk s) dc ->
  faults dc = [] -> (forall p f, files dc !! p = Some f -> blen (content f) < u64_MAX) ->
  exists d' hdr k, recover_last_segment_tail root m dc = (Ok tt, d') /\
    (forall q, q <> aw_path (st_writer s) -> files d' !! q = files dc !! q) /\
    recovered hdr (take k (map frame_of (active_records g))) (files d' !! aw_path (st_writer s)).
Proof.
  intros I Hnames Hcr Hd Hsmall. destruct (i_active I) as (f & hdr & (Hf & _) & Hh & Hw & _). cbn in Hf.
  rewrite <- (i_path I) in Hf. destruct (crashed_lookup _ _ _ _ Hcr Hf) as (f' & Hf' & Hp & _ & Hs).
  pose proof (active_is_newest _ _ _ _ _ _ _ _ I Hnames Hcr Hd Hf') as Hlast.
  destruct (recover_newest dc (aw_path (st_writer s)) f' hdr (map frame_of (active_records g)) (partial g))
    as (d' & k & E & Hq & Hrec); try done.
  - by eapply Hsmall.
  - apply Forall_map. eapply Forall_impl; [apply (i_storable I)|]. apply frame_of_ok.
  - apply (i_partial I).
  - etrans; [exact Hp|]. unfold frames_of in Hw. rewrite <- Hw. unfold written. by apply prefix_app_r.
  - by exists d', hdr, k.
Qed.

(** Recovery leaves every segment complete. *)
Lemma crash_complete d rows0 R0 T0 g s dc d' hdr l :
  writer_inv (files d) rows0 R0 T0 (calls d) g s -> complete d -> crashed (st_disk s) dc ->
  (forall q, q <> aw_path (st_writer s) -> files d' !! q = files dc !! q) ->
  recovered hdr l (files d' !! aw_path (st_writer s)) -> complete d'.
Proof.
  intros I Hcomp Hcr Hkeep Hrec p f Hf Hdir Hseg. destruct (decide (p = aw_path (st_writer s))) as [->|Hp].
  - rewrite Hf in Hrec. destruct Hrec as (Hh & Hl & Hc & Hs). split; [|done]. by eexists _, hdr.
  - rewrite Hkeep in Hf by done.
    destruct (crash_keeps_complete _ _ _ _ _ _ _ _ _ I Hcomp Hcr Hp Hf Hdir Hseg) as (f0 & _ & -> & Hs & Hl).
    by split.
Qed.

End Crash.
