(* ===== verification/SpoolSpec.v ===== *)
(** * What the spool guarantees

    Batch files have distinct names that parse back to their numbers; an appended
    batch is in its file, and no operation touches another batch's file. *)

From Stdlib Require Import Ascii.
From stdpp Require Import strings sorting.
From S2P Require Import Prelude Model Text Services Disk DiskSpec Sink Spool.

(** A batch reads back as it was written. *)
Class SpoolCodecLaws `{SpoolCodec} :=
  codec_roundtrip events payload : to_vec events = Ok payload -> from_slice payload = Ok events.

(** ** Names *)

Lemma decimal_length w : forall n, length (decimal w n) = w.
Proof. induction w as [|w IH]; intros n; simpl; [done|]. rewrite length_app, IH. simpl. lia. Qed.

Lemma decimal_codes w : forall n, Forall (fun c => 48 <= c <= 57) (decimal w n).
Proof.
  induction w as [|w IH]; intros n; simpl; [constructor|]. apply Forall_app. split.
  - apply IH.
  - apply Forall_singleton. pose proof (Z.mod_pos_bound n 10). lia.
Qed.

(** The digits of a number are its value. *)
Lemma to_digit_code x : 0 <= x < 10 -> to_digit 10 (48 + x) = Some x.
Proof.
  intros Hx. unfold to_digit, is_ascii_digit, between.
  rewrite (proj2 (Z.leb_le 48 _)), (proj2 (Z.leb_le _ 57)) by lia. cbn [andb].
  replace (48 + x - 48) with x by lia. by rewrite (proj2 (Z.ltb_lt _ _)) by lia.
Qed.

Lemma digits_app l : forall acc k,
  digits 10 acc (l ++ k) = (v ← digits 10 acc l; digits 10 v k).
Proof.
  induction l as [|c l IH]; intros acc k; simpl; [done|].
  destruct (to_digit 10 c); simpl; [|done]. by destruct (_ <=? _).
Qed.

Lemma digits_decimal w : forall n, 0 <= n <= u64_MAX -> n < 10 ^ Z.of_nat w ->
  digits 10 0 (decimal w n) = Some n.
Proof.
  induction w as [|w IH]; intros n Hn Hw.
  - change (10 ^ Z.of_nat 0) with 1 in Hw. simpl. f_equal. lia.
  - cbn [decimal]. rewrite digits_app, IH.
    + simpl. rewrite to_digit_code by (apply Z.mod_pos_bound; lia). simpl.
      pose proof (Z.div_mod n 10). replace (n / 10 * 10 + n mod 10) with n by lia.
      by rewrite (proj2 (Z.leb_le _ _)) by lia.
    + split; [apply Z.div_pos; lia|]. unfold u64_MAX in *. apply Z.div_le_upper_bound; lia.
    + rewrite Nat2Z.inj_succ, Z.pow_succ_r in Hw by lia. apply Z.div_lt_upper_bound; lia.
Qed.

Lemma text_codes l : Forall (fun c => 48 <= c <= 57) l -> vals (bytes_of (text l)) = l.
Proof.
  intros Hl. unfold vals, bytes_of, text. rewrite String.list_byte_of_string_of_list_byte.
  induction Hl as [|c l Hc Hl IH]; [done|]. cbn [map]. rewrite IH, byte_val_of, wrap_small by lia. done.
Qed.

(** The name of a batch parses back to its number. *)
Lemma sequence_roundtrip q : 0 <= q <= u64_MAX -> parse_u64 (sequence_name q) = Ok q.
Proof.
  intros Hq. unfold parse_u64, sequence_name. rewrite text_codes by apply decimal_codes.
  pose proof (digits_decimal 20 q Hq) as Hd. pose proof (decimal_length 20 q) as Hl.
  pose proof (decimal_codes 20 q) as Hc.
  destruct (decimal 20 q) as [|c l]; [done|]. apply Forall_cons in Hc as [Hc _].
  unfold from_str_radix. rewrite (proj2 (Z.eqb_neq c 43)) by lia.
  rewrite Hd; [done|]. unfold u64_MAX in Hq. change (10 ^ Z.of_nat 20) with 100000000000000000000. lia.
Qed.

Lemma bytes_of_append a b : bytes_of (a +:+ b) = bytes_of a ++ bytes_of b.
Proof. induction a as [|c a IH]; [done|]. exact (f_equal (cons _) IH). Qed.

Lemma sequence_name_inj a b :
  0 <= a <= u64_MAX -> 0 <= b <= u64_MAX ->
  bytes_of (sequence_name a) = bytes_of (sequence_name b) -> a = b.
Proof.
  intros Ha Hb E. pose proof (sequence_roundtrip a Ha) as E1. pose proof (sequence_roundtrip b Hb) as E2.
  unfold parse_u64 in *. rewrite E in E1. rewrite E1 in E2. by injection E2.
Qed.

Lemma path_for_sequence_inj root a b :
  0 <= a <= u64_MAX -> 0 <= b <= u64_MAX -> path_for_sequence root a = path_for_sequence root b -> a = b.
Proof.
  intros Ha Hb E. apply sequence_name_inj; [done|done|].
  apply app_inv_head in E.
  apply (f_equal (fun l => bytes_of (List.last l "")%string)) in E. cbn [List.last] in E.
  rewrite !bytes_of_append in E. by apply app_inv_tail in E.
Qed.

Section SpoolSpec.
Context `{CODEC : SpoolCodec} `{LAWS : !SpoolCodecLaws}.

Lemma dot_head x c l y : bytes_of "." ++ x = (c :: l) ++ y -> byte_val c = 46.
Proof. by intros [= <- _]. Qed.

(** A temporary file is no batch. *)
Lemma temp_path_other root q n k : temp_path root q n <> path_for_sequence root k.
Proof.
  unfold temp_path, path_for_sequence. intros E. apply app_inv_head in E.
  apply (f_equal (fun l => bytes_of (List.last l "")%string)) in E. cbn [List.last] in E. rewrite !bytes_of_append in E.
  assert (forall c l, bytes_of (sequence_name k) = c :: l -> byte_val c = 46 -> False) as Hdot.
  { intros c l Ek Hc. pose proof (decimal_codes 20 k) as Hcodes.
    rewrite <- (text_codes _ Hcodes) in Hcodes. unfold sequence_name in Ek. rewrite Ek in Hcodes.
    apply Forall_cons in Hcodes as [Hcodes _]. lia. }
  destruct (bytes_of (sequence_name k)) as [|c l] eqn:Ek.
  - apply (f_equal length) in Ek. unfold sequence_name, text, bytes_of in Ek.
    rewrite String.list_byte_of_string_of_list_byte, length_map, decimal_length in Ek. done.
  - apply (Hdot c l); [done|]. exact (dot_head _ _ _ _ E).
Qed.

(** ** What operations touch *)

Definition touches {A} (ps : list Path) (op : IO A) : Prop :=
  forall d r d', op d = (r, d') -> forall p, ~ In p ps -> files d' !! p = files d !! p.

Lemma touches_bind {A B} ps (op : IO A) (k : A -> IO B) :
  touches ps op -> (forall a, touches ps (k a)) -> touches ps (op ≫= k).
Proof.
  intros H1 H2 d r d' [[E ->]|(a & d1 & E1 & E2)]%bind_cases p Hp; [by eapply H1|].
  rewrite (H2 a _ _ _ E2 p Hp). by eapply H1.
Qed.

Lemma touches_syscall {A} ps (op : IO A) : touches ps op -> touches ps (syscall op).
Proof.
  intros H d r d' [[_ [Hf _]]|(d1 & [Hf _] & E)]%syscall_inv p Hp; [by rewrite Hf|].
  rewrite (H _ _ _ E p Hp). by rewrite Hf.
Qed.

Lemma touches_pure {A} ps (r : Result A) : touches ps (lift r).
Proof. by intros d r' d' [= _ <-]. Qed.

Lemma touches_ret {A} ps (a : A) : touches ps (mret a).
Proof. by intros d r' d' [= _ <-]. Qed.

Lemma touches_create ps p : In p ps -> touches ps (create_truncated p).
Proof.
  intros Hp. apply touches_syscall. intros d r d' [= _ <-] q Hq. cbn.
  rewrite lookup_insert_ne; [done|]. by intros ->.
Qed.

Lemma touches_sync ps p : In p ps -> touches ps (sync_file p).
Proof.
  intros Hp. apply touches_syscall. intros d r d' [= _ <-] q Hq. cbn.
  rewrite lookup_alter_ne; [done|]. by intros ->.
Qed.

Lemma touches_remove ps p : In p ps -> touches ps (remove_file p).
Proof.
  intros Hp. apply touches_syscall. intros d r d' E q Hq. cbn in E.
  destruct (files d !! p); injection E as _ <-; [|done]. cbn.
  rewrite lookup_delete_ne; [done|]. by intros ->.
Qed.

Lemma touches_rename ps p q : In p ps -> In q ps -> touches ps (rename_file p q).
Proof.
  intros Hp Hq. apply touches_syscall. intros d r d' E x Hx. cbn in E.
  destruct (files d !! p); injection E as _ <-; [|done]. cbn.
  rewrite lookup_insert_ne by (by intros ->). rewrite lookup_delete_ne; [done|]. by intros ->.
Qed.

Lemma touches_write ps p b : In p ps -> touches ps (write_file p b).
Proof.
  intros Hp d r d' E q Hq. unfold write_file in E. destruct (next_fault_spec d) as (k & d1 & E1 & [Hf _]).
  rewrite (bind_ok _ _ _ _ _ E1) in E.
  assert (forall x, files (append_bytes p x d1) !! q = files d !! q) as H.
  { intros x. cbn. rewrite lookup_alter_ne, Hf; [done|]. by intros ->. }
  destruct k; injection E as _ <-; apply H.
Qed.

Lemma touches_publish tmp final payload : touches [tmp; final] (publish_batch tmp final payload).
Proof.
  assert (In tmp [tmp; final] /\ In final [tmp; final]) as [H1 H2] by (simpl; auto).
  unfold publish_batch. apply touches_bind; [by apply touches_create|intros _].
  apply touches_bind.
  { destruct (is_empty payload); [apply touches_ret|]. unfold write_whole.
    apply touches_bind; [by apply touches_write|intros; apply touches_pure]. }
  intros _. apply touches_bind; [by apply touches_sync|intros _].
  apply touches_bind; [by apply touches_rename|intros _]. apply touches_syscall, touches_ret.
Qed.

Lemma touches_clean tmp final payload : touches [tmp; final] (publish_or_clean tmp final payload).
Proof.
  intros d r d' E p Hp. unfold publish_or_clean in E.
  destruct (publish_batch tmp final payload d) as [[[]|] d1] eqn:Ep; injection E as <- <-;
    pose proof (touches_publish _ _ _ _ _ _ Ep p Hp) as H1; [done|].
  destruct (remove_file tmp d1) as [r2 d2] eqn:Er. cbn. rewrite <- H1.
  apply (touches_remove [tmp; final] tmp ltac:(simpl; auto) _ _ _ Er p Hp).
Qed.

(** A published batch is whole, and on stable storage. *)
Lemma publish_batch_ok tmp final payload d d' :
  publish_batch tmp final payload d = (Ok tt, d') ->
  files d' !! final = Some {| content := payload; synced := blen payload |}.
Proof.
  intros E. apply bind_inv in E as ([] & d1 & E1 & E).
  apply syscall_inv in E1 as [[? _]|(d0 & _ & [= <-])]; [done|].
  apply bind_inv in E as ([] & d2 & E2 & E).
  assert (files d2 !! tmp = Some {| content := payload; synced := 0 |}) as H2.
  { destruct payload as [|b p].
    - injection E2 as <-. cbn. by rewrite lookup_insert_eq.
    - cbn [is_empty] in E2. apply bind_inv in E2 as ([o n] & d3 & E2 & E3).
      apply (write_file_spec _ _ _ {| content := []; synced := 0 |}) in E2
        as (o' & b' & rest & [= -> ->] & Hb & Hf & _ & Hr); [| |done].
      + unfold lift in E3. cbn in E3. injection E3 as -> <-. rewrite Hf, lookup_insert_eq, Hb, Hr.
        cbn. by rewrite app_nil_r.
      + cbn. by rewrite lookup_insert_eq. }
  apply bind_inv in E as ([] & d4 & E4 & E). apply bind_inv in E as ([] & d5 & E5 & E).
  apply syscall_inv in E4 as [[? _]|(d6 & [Hf6 _] & [= <-])]; [done|].
  apply syscall_inv in E5 as [[? _]|(d7 & [Hf7 _] & E5)]; [done|].
  apply syscall_inv in E as [[? _]|(d8 & [Hf8 _] & [= <-])]; [done|].
  cbn in E5. rewrite Hf7 in E5. cbn in E5. rewrite lookup_alter_eq, Hf6, H2 in E5. cbn in E5.
  injection E5 as <-. rewrite Hf8. cbn. by rewrite lookup_insert_eq.
Qed.

Lemma open_same p d r d' : open_file p d = (r, d') -> files d' = files d.
Proof.
  intros [[_ [Hf _]]|(d1 & [Hf _] & E)]%syscall_inv; [done|]. rewrite <- Hf.
  apply bind_cases in E as [[[=] _]|(o & d2 & [= <- <-] & E)]. by injection E as _ <-.
Qed.

Lemma read_file_spec p d r d' :
  read_file p d = (r, d') ->
  files d' = files d /\ forall b, r = Ok b -> exists f, files d !! p = Some f /\ b = content f.
Proof.
  intros [[E ->]|(f & d1 & E & [= <- <-])]%bind_cases.
  - split; [by eapply open_same|done].
  - apply open_file_inv in E as [Hf [Hs _]]. split; [done|]. intros b [= <-]. by exists f.
Qed.

Lemma attempt_len_same p d r d' : attempt (file_len p) d = (r, d') -> files d' = files d.
Proof.
  unfold attempt. destruct (file_len p d) as [r1 d1] eqn:E. intros [= _ <-].
  apply bind_cases in E as [[E _]|(f & d2 & E & [= _ <-])]; by eapply open_same.
Qed.

(** ** Operations *)

(** The batch file of a number holds a batch. *)
Definition spool_holds (s : MetadataSpool) (q : Z) (batch : list MetadataEvent) : Prop :=
  exists f, files (sp_disk s) !! path_for_sequence (sp_root s) q = Some f /\
            from_slice (content f) = Ok batch.

(** Every other batch is where it was. *)
Definition others_kept (q : Z) (s s' : MetadataSpool) : Prop :=
  sp_root s' = sp_root s /\
  forall k batch, 0 <= k <= u64_MAX -> k <> q -> spool_holds s k batch -> spool_holds s' k batch.

Lemma others_same q s s' :
  sp_root s' = sp_root s -> 0 <= q <= u64_MAX ->
  (forall k, 0 <= k <= u64_MAX -> k <> q -> files (sp_disk s') !! path_for_sequence (sp_root s) k
     = files (sp_disk s) !! path_for_sequence (sp_root s) k) -> others_kept q s s'.
Proof.
  intros Hr Hq Hf. split; [done|]. intros k batch Hk Hne (f & Hl & Hd). exists f.
  by rewrite Hr, Hf.
Qed.

Lemma append_spec q batch s r s' :
  spool_append q batch s = (r, s') -> 0 <= q <= u64_MAX -> batch <> [] ->
  others_kept q s s' /\ (r = Ok tt -> spool_holds s' q batch).
Proof.
  intros E Hq Hb. unfold spool_append in E.
  destruct (is_empty batch) eqn:Hem; [by apply is_empty_spec in Hem|].
  assert (others_kept q s s) as Hsame by by split.
  apply bind_cases in E as [[E ->]|(payload & s1 & E1 & E)]; [by injection E as _ <-|].
  unfold lift in E1. injection E1 as Ep <-.
  apply bind_cases in E as [[E ->]|(s2 & s3 & [= <- <-] & E)]; [done|].
  apply bind_cases in E as [[E ->]|([] & s3 & [_ ->]%ensure_inv & E)]; [by apply ensure_keeps in E as ->|].
  apply bind_cases in E as [[E ->]|(n & s3 & E1 & E)]; [by apply focus_inv in E as (d & [=] & _)|].
  apply focus_inv in E1 as (d1 & [= <- <-] & ->).
  set (tmp := temp_path (sp_root s) q (calls (sp_disk s))) in *.
  set (final := path_for_sequence (sp_root s) q) in *.
  assert (forall k d2 r2, publish_or_clean tmp final payload
      {| files := files (sp_disk s); faults := faults (sp_disk s); calls := Datatypes.S (calls (sp_disk s)) |} = (r2, d2) ->
    0 <= k <= u64_MAX -> k <> q ->
    files d2 !! path_for_sequence (sp_root s) k = files (sp_disk s) !! path_for_sequence (sp_root s) k) as Hkeep.
  { intros k d2 r2 Ed Hk Hne. rewrite (touches_clean _ _ _ _ _ _ Ed); [done|].
    intros [Et|[Ef|[]]]; [by eapply temp_path_other|]. apply Hne. symmetry. by eapply path_for_sequence_inj. }
  apply bind_cases in E as [[E ->]|([] & s3 & E1 & E)].
  - apply focus_inv in E as (d2 & E & ->). split; [|done]. apply others_same; [done|done|].
    intros k Hk Hne. by eapply Hkeep.
  - apply focus_inv in E1 as (d2 & E1 & ->). injection E as <- <-. split.
    + apply others_same; [done|done|]. intros k Hk Hne. by eapply Hkeep.
    + intros _. unfold publish_or_clean in E1. destruct (publish_batch _ _ _ _) as [[[]|] d3] eqn:Epub; [|done].
      injection E1 as <-. apply publish_batch_ok in Epub. eexists. split; [exact Epub|].
      by apply codec_roundtrip.
Qed.

Lemma read_spec path s r s' :
  spool_read path s = (r, s') ->
  sp_root s' = sp_root s /\ files (sp_disk s') = files (sp_disk s) /\
  forall batch, r = Ok batch -> exists f, files (sp_disk s) !! path = Some f /\ from_slice (content f) = Ok batch.
Proof.
  intros E.
  apply bind_cases in E as [[E ->]|(payload & s1 & E1 & E)].
  - apply focus_inv in E as (d & E & ->). destruct (read_file_spec _ _ _ _ E) as [Hf _]. done.
  - apply focus_inv in E1 as (d & E1 & ->). destruct (read_file_spec _ _ _ _ E1) as [Hf Hb].
    injection E as <- <-. split; [done|]. split; [done|]. intros batch Hbatch.
    destruct (Hb _ eq_refl) as (f & ? & ->). by exists f.
Qed.

Lemma remove_spec q s r s' :
  spool_remove (path_for_sequence (sp_root s) q) s = (r, s') -> 0 <= q <= u64_MAX -> others_kept q s s'.
Proof.
  intros E Hq. set (path := path_for_sequence (sp_root s) q) in *.
  assert (forall (op : IO unit), touches [path] op -> forall s0 r0 s1, spool_io op s0 = (r0, s1) ->
    sp_root s1 = sp_root s0 /\ forall p, p <> path -> files (sp_disk s1) !! p = files (sp_disk s0) !! p) as Hop.
  { intros op Ht s0 r0 s1 (d & Ed & ->)%focus_inv. split; [done|]. intros p Hp. cbn.
    apply (Ht _ _ _ Ed). intros [?|[]]. by apply Hp. }
  assert (forall s1, sp_root s1 = sp_root s -> (forall p, p <> path -> files (sp_disk s1) !! p = files (sp_disk s) !! p) ->
    others_kept q s s1) as Hdone.
  { intros s1 Hr Hf. apply others_same; [done|done|]. intros k Hk Hne. apply Hf. intros Heq. apply Hne.
    by eapply path_for_sequence_inj. }
  apply bind_cases in E as [[E ->]|(n & s1 & E1 & E)].
  { apply focus_inv in E as (d & E & ->). apply Hdone; [done|]. intros p Hp. cbn. by rewrite (attempt_len_same _ _ _ _ E). }
  apply focus_inv in E1 as (d & E1 & ->). apply attempt_len_same in E1.
  apply bind_cases in E as [[E ->]|([] & s2 & E2 & E)].
  { destruct (Hop _ (touches_remove [path] path ltac:(simpl; auto)) _ _ _ E) as [Hr Hf]. apply Hdone; [done|].
    intros p Hp. rewrite Hf by done. cbn. by rewrite E1. }
  destruct (Hop _ (touches_remove [path] path ltac:(simpl; auto)) _ _ _ E2) as [Hr Hf].
  assert (forall p, p <> path -> files (sp_disk s2) !! p = files (sp_disk s) !! p) as Hf2.
  { intros p Hp. rewrite Hf by done. cbn. by rewrite E1. }
  apply bind_cases in E as [[E ->]|([] & s3 & E3 & E)].
  { destruct (Hop _ (touches_syscall _ _ (touches_ret [path] tt)) _ _ _ E) as [Hr3 Hf3].
    apply Hdone; [by rewrite Hr3|]. intros p Hp. by rewrite Hf3, Hf2. }
  destruct (Hop _ (touches_syscall _ _ (touches_ret [path] tt)) _ _ _ E3) as [Hr3 Hf3].
  injection E as <- <-. apply Hdone; [by cbn; rewrite Hr3|]. intros p Hp. cbn. by rewrite Hf3, Hf2.
Qed.
End SpoolSpec.
