(* ===== verification/Metadata.v ===== *)
(** * The metadata writer and the projector ([StorageRuntime::start] in [src/src/storage/mod.rs])

    Two tasks around the spool: the writer batches the events of the channel into
    numbered spool files and answers barriers, the projector moves the files, in
    order, into ClickHouse.  One step of the system is a send, a turn of a task, or
    a look of a waiting barrier; how many events a batch takes before its deadline
    and what ClickHouse answers are choices of the environment. *)

From stdpp Require Import strings.
From S2P Require Import Prelude Model Text Services Disk Sink Spool.

(** The receiver of a barrier's answer, by the number of events its sender saw
    accepted before it. *)
Inductive MetadataCommand :=
  | Event (e : MetadataEvent)
  | Barrier (projected : bool) (mark : nat).

Record Answer := { a_projected : bool; a_mark : nat; a_result : Result unit }.

Record Waiting := { w_mark : nat; w_durable_sequence : Z }.

(** [sent] and [spooled] record what the channel accepted and what was durably
    appended; the code has no such lists.  [clickhouse] is what the database
    accepted. *)
Record Meta := {
  me_spool : MetadataSpool;
  me_channel : list MetadataCommand;
  me_writing : bool;
  me_next_sequence : Z;
  me_durable_sequence : Z;
  me_projected_sequence : Z;
  me_projecting : bool;
  me_projector_sequence : Z;
  me_clickhouse : list MetadataEvent;
  me_waiting : list Waiting;
  me_answers : list Answer;
  me_cuts : list nat;
  me_sent : list MetadataEvent;
  me_spooled : list MetadataEvent
}.

Definition set_me_spool (x : MetadataSpool) (s : Meta) : Meta :=
  {| me_spool := x; me_channel := me_channel s; me_writing := me_writing s;
     me_next_sequence := me_next_sequence s; me_durable_sequence := me_durable_sequence s;
     me_projected_sequence := me_projected_sequence s; me_projecting := me_projecting s;
     me_projector_sequence := me_projector_sequence s; me_clickhouse := me_clickhouse s;
     me_waiting := me_waiting s; me_answers := me_answers s; me_cuts := me_cuts s;
     me_sent := me_sent s; me_spooled := me_spooled s |}.
Definition set_me_channel (x : list MetadataCommand) (s : Meta) : Meta :=
  {| me_spool := me_spool s; me_channel := x; me_writing := me_writing s;
     me_next_sequence := me_next_sequence s; me_durable_sequence := me_durable_sequence s;
     me_projected_sequence := me_projected_sequence s; me_projecting := me_projecting s;
     me_projector_sequence := me_projector_sequence s; me_clickhouse := me_clickhouse s;
     me_waiting := me_waiting s; me_answers := me_answers s; me_cuts := me_cuts s;
     me_sent := me_sent s; me_spooled := me_spooled s |}.
Definition set_me_answers (x : list Answer) (s : Meta) : Meta :=
  {| me_spool := me_spool s; me_channel := me_channel s; me_writing := me_writing s;
     me_next_sequence := me_next_sequence s; me_durable_sequence := me_durable_sequence s;
     me_projected_sequence := me_projected_sequence s; me_projecting := me_projecting s;
     me_projector_sequence := me_projector_sequence s; me_clickhouse := me_clickhouse s;
     me_waiting := me_waiting s; me_answers := x; me_cuts := me_cuts s;
     me_sent := me_sent s; me_spooled := me_spooled s |}.
Definition set_me_waiting (x : list Waiting) (s : Meta) : Meta :=
  {| me_spool := me_spool s; me_channel := me_channel s; me_writing := me_writing s;
     me_next_sequence := me_next_sequence s; me_durable_sequence := me_durable_sequence s;
     me_projected_sequence := me_projected_sequence s; me_projecting := me_projecting s;
     me_projector_sequence := me_projector_sequence s; me_clickhouse := me_clickhouse s;
     me_waiting := x; me_answers := me_answers s; me_cuts := me_cuts s;
     me_sent := me_sent s; me_spooled := me_spooled s |}.
Definition set_me_projecting (x : bool) (s : Meta) : Meta :=
  {| me_spool := me_spool s; me_channel := me_channel s; me_writing := me_writing s;
     me_next_sequence := me_next_sequence s; me_durable_sequence := me_durable_sequence s;
     me_projected_sequence := me_projected_sequence s; me_projecting := x;
     me_projector_sequence := me_projector_sequence s; me_clickhouse := me_clickhouse s;
     me_waiting := me_waiting s; me_answers := me_answers s; me_cuts := me_cuts s;
     me_sent := me_sent s; me_spooled := me_spooled s |}.
Definition set_me_clickhouse (x : list MetadataEvent) (s : Meta) : Meta :=
  {| me_spool := me_spool s; me_channel := me_channel s; me_writing := me_writing s;
     me_next_sequence := me_next_sequence s; me_durable_sequence := me_durable_sequence s;
     me_projected_sequence := me_projected_sequence s; me_projecting := me_projecting s;
     me_projector_sequence := me_projector_sequence s; me_clickhouse := x;
     me_waiting := me_waiting s; me_answers := me_answers s; me_cuts := me_cuts s;
     me_sent := me_sent s; me_spooled := me_spooled s |}.

(** ** Sending *)

Definition push_event (e : MetadataEvent) (s : Meta) : Meta :=
  {| me_spool := me_spool s; me_channel := me_channel s ++ [Event e]; me_writing := me_writing s;
     me_next_sequence := me_next_sequence s; me_durable_sequence := me_durable_sequence s;
     me_projected_sequence := me_projected_sequence s; me_projecting := me_projecting s;
     me_projector_sequence := me_projector_sequence s; me_clickhouse := me_clickhouse s;
     me_waiting := me_waiting s; me_answers := me_answers s; me_cuts := me_cuts s;
     me_sent := me_sent s ++ [e]; me_spooled := me_spooled s |}.

Definition meta_send (e : MetadataEvent) : Eff Meta unit :=
  fun s => if me_writing s then (Ok tt, push_event e s) else (Err, s).

(** The first half of [barrier_inner]; the mark names the answer. *)
Definition push_barrier (projected : bool) : Eff Meta nat :=
  fun s => if me_writing s
           then let mark := length (me_sent s) in
                (Ok mark, set_me_channel (me_channel s ++ [Barrier projected mark]) s)
           else (Err, s).

(** ** The writer *)

Definition BATCH : nat := 2048.

(** The batch of one turn: up to [n] further commands come before the deadline, a
    barrier ends the batch. *)
Fixpoint collect (n : nat) (cmds : list MetadataCommand) (batch : list MetadataEvent)
  : list MetadataEvent * option (bool * nat) * list MetadataCommand :=
  match n, cmds with
  | S n, Event e :: cmds =>
      if (length batch <? BATCH)%nat then collect n cmds (batch ++ [e]) else (batch, None, Event e :: cmds)
  | S n, Barrier projected mark :: cmds =>
      if (length batch <? BATCH)%nat then (batch, Some (projected, mark), cmds)
      else (batch, None, Barrier projected mark :: cmds)
  | _, _ => (batch, None, cmds)
  end.

(** [recv], then the rest of the batch. *)
Definition receive (cut : nat) (cmds : list MetadataCommand)
  : option (list MetadataEvent * option (bool * nat) * list MetadataCommand) :=
  match cmds with
  | [] => None
  | Event e :: cmds => Some (collect cut cmds [e])
  | Barrier projected mark :: cmds => Some ([], Some (projected, mark), cmds)
  end.

Definition refuse (b : bool * nat) : Answer := {| a_projected := b.1; a_mark := b.2; a_result := Err |}.

Definition barriers (cmds : list MetadataCommand) : list (bool * nat) :=
  omap (fun c => match c with Barrier p k => Some (p, k) | Event _ => None end) cmds.

(** The task ends: the channel is gone, and with it every answer still due. *)
Definition stop_writer (due : list (bool * nat)) (s : Meta) : Meta :=
  {| me_spool := me_spool s; me_channel := []; me_writing := false;
     me_next_sequence := me_next_sequence s; me_durable_sequence := me_durable_sequence s;
     me_projected_sequence := me_projected_sequence s; me_projecting := me_projecting s;
     me_projector_sequence := me_projector_sequence s; me_clickhouse := me_clickhouse s;
     me_waiting := me_waiting s;
     me_answers := me_answers s ++ map refuse (due ++ barriers (me_channel s)); me_cuts := me_cuts s;
     me_sent := me_sent s; me_spooled := me_spooled s |}.

(** An appended batch: its sequence is published to the projector. *)
Definition note_durable (sequence : Z) (batch : list MetadataEvent) (s : Meta) : Meta :=
  {| me_spool := me_spool s; me_channel := me_channel s; me_writing := me_writing s;
     me_next_sequence := sat_add (me_next_sequence s) 1; me_durable_sequence := sequence;
     me_projected_sequence := me_projected_sequence s; me_projecting := me_projecting s;
     me_projector_sequence := me_projector_sequence s; me_clickhouse := me_clickhouse s;
     me_waiting := me_waiting s; me_answers := me_answers s; me_cuts := me_cuts s;
     me_sent := me_sent s; me_spooled := me_spooled s ++ batch |}.

Definition answer_barrier (durable_sequence : Z) (b : bool * nat) (s : Meta) : Meta :=
  if b.1 then set_me_waiting (me_waiting s ++ [{| w_mark := b.2; w_durable_sequence := durable_sequence |}]) s
  else set_me_answers (me_answers s ++ [{| a_projected := false; a_mark := b.2; a_result := Ok tt |}]) s.

Definition answer_due (durable_sequence : Z) (due : option (bool * nat)) (s : Meta) : Meta :=
  match due with Some b => answer_barrier durable_sequence b s | None => s end.

Section Meta.
Context `{SpoolCodec}.

Definition writer_turn (cut : nat) (s : Meta) : Meta :=
  if negb (me_writing s) then s else
  match receive cut (me_channel s) with
  | None => s
  | Some (batch, due, rest) =>
      let s := set_me_channel rest s in
      let durable_sequence := sat_sub (me_next_sequence s) 1 in
      if is_empty batch then answer_due durable_sequence due s
      else
        let sequence := me_next_sequence s in
        match spool_append sequence batch (me_spool s) with
        | (Ok _, sp) => answer_due sequence due (note_durable sequence batch (set_me_spool sp s))
        | (Err, sp) => stop_writer (option_list due) (set_me_spool sp s)
        end
  end.

(** ** The projector *)

(** One batch is out: the next sequence is due. *)
Definition note_projected (sequence : Z) (s : Meta) : Meta :=
  {| me_spool := me_spool s; me_channel := me_channel s; me_writing := me_writing s;
     me_next_sequence := me_next_sequence s; me_durable_sequence := me_durable_sequence s;
     me_projected_sequence := sequence; me_projecting := me_projecting s;
     me_projector_sequence := sat_add sequence 1; me_clickhouse := me_clickhouse s;
     me_waiting := me_waiting s; me_answers := me_answers s; me_cuts := me_cuts s;
     me_sent := me_sent s; me_spooled := me_spooled s |}.

Definition file_exists (path : Path) (s : MetadataSpool) : bool :=
  bool_decide (is_Some (files (sp_disk s) !! path)).

(** A round of the loop: [shutdown] is the flag as read, [accepted] whether the
    database takes the batch before the flag is seen. *)
Definition projector_turn (shutdown accepted : bool) (s : Meta) : Meta :=
  if negb (me_projecting s) then s else
  if shutdown then set_me_projecting false s else
  let sequence := me_projector_sequence s in
  if me_durable_sequence s <? sequence then s else
  let path := path_for_sequence (sp_root (me_spool s)) sequence in
  if negb (file_exists path (me_spool s)) then set_me_projecting false s else
  match spool_read path (me_spool s) with
  | (Err, sp) => set_me_projecting false (set_me_spool sp s)
  | (Ok batch, sp) =>
      let s := set_me_spool sp s in
      if negb accepted then set_me_projecting false s else
      let s := set_me_clickhouse (me_clickhouse s ++ batch) s in
      match spool_remove path (me_spool s) with
      | (Err, sp) => set_me_projecting false (set_me_spool sp s)
      | (Ok _, sp) => note_projected sequence (set_me_spool sp s)
      end
  end.

(** ** Waiting barriers *)

Definition look (w : Waiting) (s : Meta) : option (Result unit) :=
  if w_durable_sequence w <=? me_projected_sequence s then Some (Ok tt)
  else if negb (me_projecting s) then Some Err
  else None.

(** The [i]th waiting barrier looks at the projector. *)
Definition waiter_turn (i : nat) (s : Meta) : Meta :=
  match me_waiting s !! i with
  | None => s
  | Some w =>
      match look w s with
      | None => s
      | Some r =>
          set_me_answers (me_answers s ++ [{| a_projected := true; a_mark := w_mark w; a_result := r |}])
            (set_me_waiting (delete i (me_waiting s)) s)
      end
  end.

(** ** The system *)

Inductive meta_step : Meta -> Meta -> Prop :=
  | step_send e s r s' : meta_send e s = (r, s') -> meta_step s s'
  | step_barrier p s r s' : push_barrier p s = (r, s') -> meta_step s s'
  | step_writer cut s : meta_step s (writer_turn cut s)
  | step_projector shutdown accepted s : meta_step s (projector_turn shutdown accepted s)
  | step_waiter i s : meta_step s (waiter_turn i s).

(** The state a start over a spool directory leads to. *)
Definition meta_start (sp : MetadataSpool) (cuts : list nat) (first : option Z) (last : Z) : Meta :=
  {| me_spool := sp; me_channel := []; me_writing := true;
     me_next_sequence := Z.max (sat_add last 1) 1; me_durable_sequence := last;
     me_projected_sequence := match first with Some q => sat_sub q 1 | None => last end;
     me_projecting := true;
     me_projector_sequence := match first with Some q => q | None => Z.max (sat_add last 1) 1 end;
     me_clickhouse := []; me_waiting := []; me_answers := []; me_cuts := cuts;
     me_sent := []; me_spooled := [] |}.

Definition start_metadata (root : Path) (max_bytes : Z) (cuts : list nat) (d : Disk) : Result Meta :=
  match MetadataSpool_open root max_bytes d with
  | (Err, _) => Err
  | (Ok sp, _) =>
      match max_sequence sp with
      | (Err, _) => Err
      | (Ok last, sp) =>
          match first_sequence sp with
          | (Err, _) => Err
          | (Ok first, sp) => Ok (meta_start sp cuts first last)
          end
      end
  end.

(** ** The sink of a sender

    A durable barrier waits until the writer has answered or stopped; meanwhile the
    writer takes its turns, each with the next choice of the schedule. *)

Definition take_cut (s : Meta) : nat * Meta :=
  match me_cuts s with
  | [] => (BATCH, s)
  | c :: cs =>
      (c, {| me_spool := me_spool s; me_channel := me_channel s; me_writing := me_writing s;
             me_next_sequence := me_next_sequence s; me_durable_sequence := me_durable_sequence s;
             me_projected_sequence := me_projected_sequence s; me_projecting := me_projecting s;
             me_projector_sequence := me_projector_sequence s; me_clickhouse := me_clickhouse s;
             me_waiting := me_waiting s; me_answers := me_answers s; me_cuts := cs;
             me_sent := me_sent s; me_spooled := me_spooled s |})
  end.

(** Turns until the channel is empty: the barrier is its last command. *)
Fixpoint drain_channel (n : nat) (s : Meta) : Meta :=
  match n, me_channel s with
  | S n, _ :: _ => let '(cut, s) := take_cut s in drain_channel n (writer_turn cut s)
  | _, _ => s
  end.

Definition meta_durable_barrier : Eff Meta unit :=
  fun s => match push_barrier false s with
           | (Ok _, s) =>
               let s := drain_channel (length (me_channel s)) s in
               (match last (me_answers s) with Some a => a_result a | None => Err end, s)
           | (Err, s) => (Err, s)
           end.
End Meta.
