(* ===== verification/MetadataTheorems.v ===== *)
(** * What the metadata pipeline guarantees

    The invariant of the writer, the projector and the waiting barriers over every
    interleaving of their turns; a barrier's answer and the order in ClickHouse
    follow from it.  The writer is the sink the segment store is verified against. *)

From stdpp Require Import strings sorting.
From S2P Require Import Prelude Model Services Text Disk DiskSpec Sink Spool SpoolSpec Metadata.

Definition events (cmds : list MetadataCommand) : list MetadataEvent :=
  omap (fun c => match c with Event e => Some e | Barrier _ _ => None end) cmds.

Definition due_command (due : option (bool * nat)) : list MetadataCommand :=
  match due with Some (p, mark) => [Barrier p mark] | None => [] end.

Lemma events_app a b : events (a ++ b) = events a ++ events b.
Proof. unfold events. by rewrite omap_app. Qed.

Lemma events_map l : events (map Event l) = l.
Proof. induction l as [|e l IH]; [done|]. cbn. by rewrite <- IH at 2. Qed.

Lemma events_due due : events (due_command due) = [].
Proof. by destruct due as [[]|]. Qed.

(** A batch is a run of events at the head of the channel, up to a barrier. *)
Lemma collect_spec n : forall cmds b0 batch due rest,
  collect n cmds b0 = (batch, due, rest) ->
  exists took, batch = b0 ++ took /\ cmds = map Event took ++ due_command due ++ rest.
Proof.
  induction n as [|n IH]; intros cmds b0 batch due rest; cbn [collect].
  - intros [= <- <- <-]. exists []. by rewrite app_nil_r.
  - destruct cmds as [|[e|p mark] cmds].
    + intros [= <- <- <-]. exists []. by rewrite app_nil_r.
    + destruct (_ <? _)%nat.
      * intros E. apply IH in E as (took & -> & ->). exists (e :: took). by rewrite <- app_assoc.
      * intros [= <- <- <-]. exists []. by rewrite app_nil_r.
    + destruct (_ <? _)%nat; intros [= <- <- <-]; exists []; by rewrite app_nil_r.
Qed.

Lemma receive_spec cut cmds batch due rest :
  receive cut cmds = Some (batch, due, rest) ->
  cmds = map Event batch ++ due_command due ++ rest /\ (batch = [] -> due <> None).
Proof.
  destruct cmds as [|[e|p mark] cmds]; cbn [receive]; [done| |].
  - intros [= E]. apply collect_spec in E as (took & -> & ->). done.
  - by intros [= <- <- <-].
Qed.

(** The marks of the barriers in a channel behind [n] events. *)
Definition marks_ok (n : nat) (cmds : list MetadataCommand) : Prop :=
  forall pre p mark post, cmds = pre ++ Barrier p mark :: post -> mark = (n + length (events pre))%nat.

Lemma marks_nil n : marks_ok n [].
Proof. intros pre p mark post E. by destruct pre. Qed.

Lemma marks_snoc n cmds c :
  marks_ok n cmds ->
  match c with Event _ => True | Barrier _ mark => mark = (n + length (events cmds))%nat end ->
  marks_ok n (cmds ++ [c]).
Proof.
  intros Hm Hc pre p mark post E. destruct post as [|x post' _] using rev_ind.
  - apply app_inj_tail in E as [-> ->]. done.
  - change (Barrier p mark :: post' ++ [x]) with ((Barrier p mark :: post') ++ [x]) in E.
    rewrite app_assoc in E. apply app_inj_tail in E as [-> _]. by eapply Hm.
Qed.

Lemma marks_drop n l rest : marks_ok n (l ++ rest) -> marks_ok (n + length (events l)) rest.
Proof.
  intros Hm pre p mark post ->. rewrite (Hm (l ++ pre) p mark post) by by rewrite <- app_assoc.
  rewrite events_app, length_app. lia.
Qed.

Lemma marks_due n l due rest :
  marks_ok n (map Event l ++ due_command due ++ rest) ->
  match due with Some (_, mark) => mark = (n + length l)%nat | None => True end.
Proof.
  destruct due as [[p mark]|]; [|done]. intros Hm. cbn in Hm.
  rewrite (Hm (map Event l) p mark rest eq_refl). by rewrite events_map.
Qed.

Section MetadataSpec.
Context `{CODEC : SpoolCodec} `{LAWS : !SpoolCodecLaws}.

(** What a start finds in the spool ([backlog], from the number [q0] on), what was
    appended since ([new]), and how many of these batches are projected ([k]). *)
Record meta_inv (backlog : list (list MetadataEvent)) (q0 : Z) (new : list (list MetadataEvent)) (k : nat)
    (s : Meta) : Prop := {
  v_low : 1 <= q0;
  v_next : me_next_sequence s = q0 + blen (backlog ++ new);
  v_high : me_next_sequence s <= u64_MAX;
  v_durable : me_durable_sequence s = me_next_sequence s - 1;
  v_spooled : me_spooled s = concat new;
  v_sent : if me_writing s then me_sent s = me_spooled s ++ events (me_channel s)
           else me_spooled s `prefix_of` me_sent s;
  v_k : (k <= length (backlog ++ new))%nat;
  v_projector : me_projector_sequence s = q0 + Z.of_nat k;
  v_projected : me_projected_sequence s = q0 + Z.of_nat k - 1;
  v_clickhouse : me_clickhouse s = concat (take k (backlog ++ new)) \/
    (me_projecting s = false /\ (k < length (backlog ++ new))%nat /\
     me_clickhouse s = concat (take (S k) (backlog ++ new)));
  v_files : forall i batch, (backlog ++ new) !! i = Some batch -> (k <= i)%nat ->
    me_projecting s = true \/ (k < i)%nat -> spool_holds (me_spool s) (q0 + Z.of_nat i) batch;
  v_marks : marks_ok (length (me_spooled s)) (me_channel s);
  v_waiting : forall w, In w (me_waiting s) -> exists j, (j <= length new)%nat /\
    w_durable_sequence w = q0 + blen backlog + Z.of_nat j - 1 /\ w_mark w = length (concat (take j new));
  v_answers : forall a, In a (me_answers s) -> a_result a = Ok tt ->
    if a_projected a
    then exists j, (j <= length new)%nat /\ (length backlog + j <= k)%nat /\ a_mark a = length (concat (take j new))
    else (a_mark a <= length (me_spooled s))%nat
}.

Lemma all_length backlog new : blen (backlog ++ new) = blen backlog + blen (new : list (list MetadataEvent)).
Proof. apply blen_app. Qed.

Lemma inv_send backlog q0 new k s e r s' :
  meta_inv backlog q0 new k s -> meta_send e s = (r, s') -> meta_inv backlog q0 new k s'.
Proof.
  intros I E. unfold meta_send in E. destruct (me_writing s) eqn:Ew; injection E as <- <-; [|done].
  destruct I. rewrite Ew in *. split; try done; cbn.
  - rewrite Ew. rewrite v_sent0, events_app. by rewrite <- app_assoc.
  - by apply marks_snoc.
Qed.

Lemma inv_barrier backlog q0 new k s p r s' :
  meta_inv backlog q0 new k s -> push_barrier p s = (r, s') -> meta_inv backlog q0 new k s'.
Proof.
  intros I E. unfold push_barrier in E. destruct (me_writing s) eqn:Ew; injection E as <- <-; [|done].
  destruct I. rewrite Ew in *. split; try done; cbn.
  - rewrite Ew. rewrite v_sent0, events_app. cbn. by rewrite !app_nil_r.
  - apply marks_snoc; [done|]. by rewrite v_sent0, length_app.
Qed.
(** Only the channel differs. *)
Lemma inv_channel backlog q0 new k due rest s :
  meta_inv backlog q0 new k s -> me_channel s = due_command due ++ rest ->
  meta_inv backlog q0 new k (set_me_channel rest s).
Proof.
  intros I E. destruct I. rewrite E in *. split; try done; cbn.
  - rewrite events_app, events_due in v_sent0. done.
  - apply marks_drop in v_marks0. rewrite events_due in v_marks0. by rewrite Nat.add_0_r in v_marks0.
Qed.

Lemma inv_answer backlog q0 new k due s :
  meta_inv backlog q0 new k s ->
  match due with Some (_, mark) => mark = length (me_spooled s) | None => True end ->
  meta_inv backlog q0 new k (answer_due (me_durable_sequence s) due s).
Proof.
  intros I. destruct due as [[p mark]|]; [|done]. intros ->. unfold answer_due, answer_barrier.
  destruct p; cbn [fst snd]; destruct I; split; try done; cbn.
  - intros w [Hw|[<-|[]]]%in_app_or; [by apply v_waiting0|]. exists (length new). cbn.
    rewrite firstn_all, v_spooled0, v_durable0, v_next0, all_length. split; [done|]. split; [|done].
    unfold blen. lia.
  - intros a [Ha|[<-|[]]]%in_app_or; [by apply v_answers0|]. cbn. done.
Qed.

(** The batches appended so far keep their place when one more is appended. *)
Lemma take_snoc {A} j (l : list A) x : (j <= length l)%nat -> take j (l ++ [x]) = take j l.
Proof. intros. by rewrite take_app_le. Qed.

Lemma inv_note_durable backlog q0 new k batch s sp rest due :
  meta_inv backlog q0 new k s -> me_next_sequence s < u64_MAX -> me_writing s = true ->
  me_channel s = map Event batch ++ due_command due ++ rest ->
  others_kept (me_next_sequence s) (me_spool s) sp -> spool_holds sp (me_next_sequence s) batch ->
  meta_inv backlog q0 (new ++ [batch]) k
    (note_durable (me_next_sequence s) batch (set_me_spool sp (set_me_channel rest s))).
Proof.
  intros I Hlt Ew Ec [_ Hk] Hh. destruct I. rewrite Ew, Ec in *.
  assert (me_next_sequence s = q0 + blen backlog + blen new) as Hn by (rewrite v_next0, all_length; lia).
  unfold blen in *. split; cbn; try done.
  - unfold blen. rewrite sat_add_small by lia. rewrite !length_app in *. cbn [length]. lia.
  - rewrite sat_add_small by lia. lia.
  - rewrite sat_add_small by lia. lia.
  - rewrite v_spooled0, concat_app. cbn. by rewrite app_nil_r.
  - rewrite Ew, v_sent0, !events_app, events_map, events_due. by rewrite <- !app_assoc.
  - rewrite app_assoc, length_app. lia.
  - rewrite app_assoc. destruct v_clickhouse0 as [E|(Hp & Hkl & E)]; [left|right; split; [done|split]].
    + by rewrite take_snoc.
    + rewrite length_app. lia.
    + by rewrite take_snoc by lia.
  - intros i b Hi Hki Hor. rewrite app_assoc in Hi. apply list.lookup_app_Some in Hi as [Hi|[Hlen Hi]].
    + pose proof (lookup_lt_Some _ _ _ Hi) as Hl. rewrite length_app in Hl. apply Hk; [lia|lia|].
      by apply v_files0.
    + apply list_lookup_singleton_Some in Hi as [Hi0 <-]. rewrite length_app in *.
      replace (q0 + Z.of_nat i) with (me_next_sequence s) by lia. done.
  - rewrite length_app. rewrite app_assoc in v_marks0. apply marks_drop in v_marks0.
    by rewrite events_app, events_map, events_due, app_nil_r in v_marks0.
  - intros w Hw. destruct (v_waiting0 w Hw) as (j & Hj & E1 & E2). exists j. rewrite length_app, take_snoc by done.
    split; [lia|done].
  - intros a Ha Hr. specialize (v_answers0 a Ha Hr). destruct (a_projected a).
    + destruct v_answers0 as (j & Hj & E1 & E2). exists j. rewrite length_app, take_snoc by done. split; [lia|done].
    + rewrite length_app. lia.
Qed.

Lemma inv_stop backlog q0 new k s sp rest due :
  meta_inv backlog q0 new k s -> me_writing s = true -> others_kept (me_next_sequence s) (me_spool s) sp ->
  meta_inv backlog q0 new k (stop_writer due (set_me_spool sp (set_me_channel rest s))).
Proof.
  intros I Ew [_ Hk]. destruct I. rewrite Ew in *.
  assert (me_next_sequence s = q0 + blen (backlog ++ new)) as Hn by done.
  unfold blen in *. split; cbn; try done.
  - rewrite v_sent0. by eexists.
  - intros i b Hi Hki Hor. pose proof (lookup_lt_Some _ _ _ Hi) as Hl. apply Hk; [lia|lia|]. by apply v_files0.
  - apply marks_nil.
  - intros a [Ha|Ha]%in_app_or Hr; [by apply v_answers0|].
    apply in_map_iff in Ha as (b & <- & _). done.
Qed.

Lemma inv_writer backlog q0 new k cut s :
  meta_inv backlog q0 new k s -> me_next_sequence s < u64_MAX ->
  exists new', meta_inv backlog q0 new' k (writer_turn cut s).
Proof.
  intros I Hlt. unfold writer_turn. destruct (me_writing s) eqn:Ew; cbn [negb]; [|by exists new].
  destruct (receive cut (me_channel s)) as [[[batch due] rest]|] eqn:Er; [|by exists new].
  apply receive_spec in Er as [Ec _]. pose proof (v_marks _ _ _ _ _ I) as Hm. rewrite Ec in Hm.
  apply marks_due in Hm. pose proof (v_low _ _ _ _ _ I). pose proof (v_next _ _ _ _ _ I) as Hn. unfold blen in Hn.
  destruct (is_empty batch) eqn:Hb.
  - apply is_empty_spec in Hb as ->. exists new. cbn in Hm, Ec. apply (inv_channel _ _ _ _ _ _ _ I) in Ec.
    rewrite sat_sub_ge by (cbn; lia). cbn [me_next_sequence set_me_channel].
    rewrite <- (v_durable _ _ _ _ _ I).
    apply (inv_answer _ _ _ _ due) in Ec; [done|]. destruct due as [[]|]; [cbn; lia|done].
  - assert (batch <> []) as Hne by by intros ->.
    destruct (spool_append _ _ _) as [r sp] eqn:Ea. cbn [me_spool me_next_sequence set_me_channel] in *.
    destruct (append_spec _ _ _ _ _ Ea ltac:(lia) Hne) as [Hk Hh].
    destruct r as [[]|].
    + exists (new ++ [batch]).
      pose proof (inv_note_durable _ _ _ _ _ _ _ _ _ I Hlt Ew Ec Hk (Hh eq_refl)) as I'.
      apply (inv_answer _ _ _ _ due) in I'; [done|]. destruct due as [[]|]; [cbn; by rewrite length_app|done].
    + exists new. by apply inv_stop.
Qed.
(** The projector stops; files of batches it has not read are untouched. *)
Lemma inv_give_up backlog q0 new k s sp :
  meta_inv backlog q0 new k s -> others_kept (q0 + Z.of_nat k) (me_spool s) sp ->
  meta_inv backlog q0 new k (set_me_projecting false (set_me_spool sp s)).
Proof.
  intros I [_ Hk]. destruct I. unfold blen in *. split; cbn; try done.
  - destruct v_clickhouse0 as [E|(_ & ? & E)]; [by left|by right].
  - intros i b Hi Hki [Hor|Hor]; [done|]. pose proof (lookup_lt_Some _ _ _ Hi) as Hl.
    apply Hk; [lia|lia|]. apply v_files0; [done|done|by right].
Qed.

Lemma inv_stop_projector backlog q0 new k s :
  meta_inv backlog q0 new k s -> meta_inv backlog q0 new k (set_me_projecting false s).
Proof.
  intros I. destruct I. split; cbn; try done.
  - destruct v_clickhouse0 as [E|(_ & ? & E)]; [by left|by right].
  - intros i b Hi Hki [Hor|Hor]; [done|]. apply v_files0; [done|done|by right].
Qed.

(** The database has a batch whose file could not be removed. *)
Lemma inv_unremoved backlog q0 new k batch s sp :
  meta_inv backlog q0 new k s -> me_projecting s = true -> (backlog ++ new) !! k = Some batch ->
  others_kept (q0 + Z.of_nat k) (me_spool s) sp ->
  meta_inv backlog q0 new k
    (set_me_projecting false (set_me_spool sp (set_me_clickhouse (me_clickhouse s ++ batch) s))).
Proof.
  intros I Hp Hb [_ Hk]. destruct I. rewrite Hp in *. unfold blen in *.
  pose proof (lookup_lt_Some _ _ _ Hb) as Hkl. split; cbn; try done.
  - right. split; [done|]. split; [done|]. destruct v_clickhouse0 as [->|[[=] _]].
    rewrite (take_S_r _ _ _ Hb), concat_app. cbn. by rewrite app_nil_r.
  - intros i b Hi Hki [Hor|Hor]; [done|]. pose proof (lookup_lt_Some _ _ _ Hi) as Hl.
    apply Hk; [lia|lia|]. apply v_files0; [done|done|by right].
Qed.

Lemma inv_note_projected backlog q0 new k batch s sp :
  meta_inv backlog q0 new k s -> me_projecting s = true -> (backlog ++ new) !! k = Some batch ->
  others_kept (q0 + Z.of_nat k) (me_spool s) sp ->
  meta_inv backlog q0 new (S k)
    (note_projected (q0 + Z.of_nat k) (set_me_spool sp (set_me_clickhouse (me_clickhouse s ++ batch) s))).
Proof.
  intros I Hp Hb [_ Hk]. destruct I. rewrite Hp in *. unfold blen in *.
  pose proof (lookup_lt_Some _ _ _ Hb) as Hkl. split; cbn; try done.
  - rewrite sat_add_small by lia. lia.
  - lia.
  - left. destruct v_clickhouse0 as [->|[[=] _]].
    rewrite (take_S_r _ _ _ Hb), concat_app. cbn. by rewrite app_nil_r.
  - intros i b Hi Hki _. pose proof (lookup_lt_Some _ _ _ Hi) as Hl.
    apply Hk; [lia|lia|]. apply v_files0; [done|lia|by left].
  - intros a Ha Hr. specialize (v_answers0 a Ha Hr). destruct (a_projected a); [|done].
    destruct v_answers0 as (j & Hj & E1 & E2). exists j. split; [done|]. split; [lia|done].
Qed.

Lemma same_files_kept q s sp :
  sp_root sp = sp_root s -> files (sp_disk sp) = files (sp_disk s) -> others_kept q s sp.
Proof.
  intros Hr Hf. split; [done|]. intros i b _ _ (f & Hl & Hd). exists f. by rewrite Hr, Hf.
Qed.

Lemma inv_projector backlog q0 new k shutdown accepted s :
  meta_inv backlog q0 new k s ->
  exists k', meta_inv backlog q0 new k' (projector_turn shutdown accepted s).
Proof.
  intros I. unfold projector_turn. destruct (me_projecting s) eqn:Hp; cbn [negb]; [|by exists k].
  destruct shutdown. { exists k. by apply inv_stop_projector. }
  rewrite (v_projector _ _ _ _ _ I). destruct (Z.ltb_spec (me_durable_sequence s) (q0 + Z.of_nat k)) as [|Hle]; [by exists k|].
  rewrite (v_durable _ _ _ _ _ I), (v_next _ _ _ _ _ I) in Hle. unfold blen in Hle.
  destruct (lookup_lt_is_Some_2 (backlog ++ new) k ltac:(lia)) as [batch Hb].
  destruct (v_files _ _ _ _ _ I k batch Hb ltac:(lia) ltac:(by left)) as (f & Hf & Hd).
  unfold file_exists. rewrite (bool_decide_eq_true_2 (is_Some _)) by (by exists f). cbn [negb].
  destruct (spool_read _ _) as [r sp] eqn:Er. destruct (read_spec _ _ _ _ Er) as (Hr & Hfs & Hb').
  pose proof (same_files_kept (q0 + Z.of_nat k) _ _ Hr Hfs) as Hk.
  destruct r as [batch'|]; [|exists k; by apply inv_give_up].
  destruct (Hb' _ eq_refl) as (f' & Hf' & Hd'). rewrite Hf in Hf'. injection Hf' as <-. rewrite Hd in Hd'.
  injection Hd' as <-. destruct accepted; cbn [negb]; [|exists k; by apply inv_give_up].
  cbn [me_spool set_me_spool set_me_clickhouse].
  destruct (spool_remove _ _) as [r' sp'] eqn:Em.
  pose proof (v_low _ _ _ _ _ I). pose proof (v_high _ _ _ _ _ I) as Hh. rewrite (v_next _ _ _ _ _ I) in Hh.
  unfold blen in Hh. rewrite <- Hr in Em. apply remove_spec in Em; [|lia].
  assert (others_kept (q0 + Z.of_nat k) (me_spool s) sp') as Hk'.
  { destruct Hk as [R1 K1], Em as [R2 K2]. split; [by rewrite R2|]. intros i b Hi Hne Hh'. apply K2; auto. }
  destruct r' as [[]|].
  - exists (S k). apply (inv_note_projected _ _ _ _ _ _ _ I Hp Hb Hk').
  - exists k. apply (inv_unremoved _ _ _ _ _ _ _ I Hp Hb Hk').
Qed.

Lemma inv_waiter backlog q0 new k i s :
  meta_inv backlog q0 new k s -> meta_inv backlog q0 new k (waiter_turn i s).
Proof.
  intros I. unfold waiter_turn. destruct (me_waiting s !! i) as [w|] eqn:Hw; [|done].
  destruct (look w s) as [r|] eqn:Hl; [|done]. destruct I. split; try done; cbn.
  - intros w' Hin%list_elem_of_In%list_elem_of_delete_inv. by apply v_waiting0, list_elem_of_In.
  - intros a [Ha|[<-|[]]]%in_app_or; [by apply v_answers0|]. cbn. intros ->.
    assert (In w (me_waiting s)) as Hin by (by eapply list_elem_of_In, list_elem_of_lookup_2).
    destruct (v_waiting0 w Hin) as (j & Hj & E1 & E2). exists j. split; [done|]. split; [|done].
    unfold look in Hl. destruct (Z.leb_spec (w_durable_sequence w) (me_projected_sequence s)); [|by destruct (negb _)].
    unfold blen in *. lia.
Qed.

(** The next number never goes back. *)
Lemma next_mono s s' : meta_step s s' -> me_next_sequence s <= u64_MAX -> me_next_sequence s <= me_next_sequence s' <= u64_MAX.
Proof.
  assert (forall q due x, me_next_sequence (answer_due q due x) = me_next_sequence x) as Ha.
  { intros q [[[] m]|] x; done. }
  intros Hs Hle. destruct Hs as [e s r s' E|p s r s' E|cut s|shutdown accepted s|i s].
  - unfold meta_send in E. destruct (me_writing s); injection E as _ <-; cbn; lia.
  - unfold push_barrier in E. destruct (me_writing s); injection E as _ <-; cbn; lia.
  - unfold writer_turn. destruct (negb _); [lia|]. destruct (receive _ _) as [[[batch due] rest]|]; [|lia].
    destruct (is_empty batch); [rewrite Ha; cbn; lia|]. destruct (spool_append _ _ _) as [[[]|] sp]; [|cbn; lia].
    rewrite Ha. cbn. unfold sat_add. lia.
  - unfold projector_turn. repeat (case_match; simplify_eq; cbn; try lia).
  - unfold waiter_turn. repeat (case_match; simplify_eq; cbn; try lia).
Qed.

Lemma inv_step backlog q0 new k s s' :
  meta_inv backlog q0 new k s -> meta_step s s' -> me_next_sequence s' < u64_MAX ->
  exists new' k', meta_inv backlog q0 new' k' s'.
Proof.
  intros I Hs Hlt. pose proof (next_mono _ _ Hs (v_high _ _ _ _ _ I)) as Hm.
  destruct Hs as [e s r s' E|p s r s' E|cut s|shutdown accepted s|i s].
  - exists new, k. by eapply inv_send.
  - exists new, k. by eapply inv_barrier.
  - destruct (inv_writer _ _ _ _ cut _ I) as [new' I']; [lia|]. by exists new', k.
  - destruct (inv_projector _ _ _ _ shutdown accepted _ I) as [k' I']. by exists new, k'.
  - exists new, k. by apply inv_waiter.
Qed.

Lemma inv_reachable backlog q0 new k s s' :
  meta_inv backlog q0 new k s -> rtc meta_step s s' -> me_next_sequence s' < u64_MAX ->
  exists new' k', meta_inv backlog q0 new' k' s'.
Proof.
  intros I Hs. revert new k I. induction Hs as [s|s s1 s2 H1 Hr IH]; intros new k I Hlt; [by exists new, k|].
  pose proof (next_mono _ _ H1 (v_high _ _ _ _ _ I)) as Hm.
  assert (me_next_sequence s1 <= me_next_sequence s2) as Hm2.
  { assert (me_next_sequence s1 <= u64_MAX) as Hu by lia. clear -Hr Hu.
    induction Hr as [|x y z Hxy _ IH]; [lia|]. pose proof (next_mono _ _ Hxy Hu). specialize (IH ltac:(lia)). lia. }
  destruct (inv_step _ _ _ _ _ _ I H1) as (new1 & k1 & I1); [lia|]. by eapply IH.
Qed.
End MetadataSpec.

(** * Barriers of the metadata pipeline, and the pipeline as a sink

    What a barrier that succeeds says about the spool and about ClickHouse, over
    every interleaving of the senders, the writer, the projector and the waiting
    barriers; and that the sender's side of the pipeline keeps the contract of
    [Sink.MetadataSinkLaws], so that the segment store's theorems hold on it. *)

(** ** The start *)

Lemma digits_bounds l : forall acc v,
  0 <= acc <= u64_MAX -> digits 10 acc l = Some v -> 0 <= v <= u64_MAX.
Proof.
  induction l as [|c l IH]; intros acc v Ha; cbn [digits]; [by intros [= <-]|].
  destruct (to_digit 10 c) as [d|] eqn:Ed; [|done]. change (Some d ≫= ?f) with (f d). cbv beta zeta.
  destruct (Z.leb_spec (acc * 10 + d) u64_MAX); [|done]. apply IH. split; [|done].
  assert (0 <= d); [|lia]. unfold to_digit, is_ascii_digit, between in Ed.
  destruct (_ && _) eqn:Hc in Ed.
  - destruct (_ <? _) in Ed; [|done]. injection Ed as <-. apply andb_true_iff in Hc as [Hc _]. lia.
  - destruct (_ && _) eqn:Hc2 in Ed.
    + destruct (_ <? _) in Ed; [|done]. injection Ed as <-. apply andb_true_iff in Hc2 as [Hc2 _]. lia.
    + by rewrite Z.ltb_irrefl in Ed.
Qed.

Lemma parse_u64_bounds name v : parse_u64 name = Ok v -> 0 <= v <= u64_MAX.
Proof.
  assert (forall o, of_option o = Ok v -> o = Some v) as Ho by (by intros [] [= ->]).
  assert (0 <= 0 <= u64_MAX) by (unfold u64_MAX; lia).
  unfold parse_u64, from_str_radix. destruct (vals _) as [|c l]; [done|].
  destruct (c =? 43); [destruct l as [|c' l]; [done|]|]; intros E%Ho; by eapply digits_bounds.
Qed.

Section MetadataTheorems.
Context `{CODEC : SpoolCodec} `{LAWS : !SpoolCodecLaws}.

Lemma list_entries_bounds root d l d' :
  list_entries root d = (Ok l, d') -> Forall (fun e => 0 <= e.1 <= u64_MAX) l.
Proof.
  intros E. apply bind_inv in E as (paths & d1 & _ & [= <- _]).
  rewrite merge_sort_Permutation. apply Forall_forall. intros [q p] Hin%list_elem_of_omap.
  destruct Hin as (x & _ & E). unfold entry_of in E. destruct (bool_decide _); [|done].
  destruct (parse_u64 _) as [v|] eqn:Ev; [|done]. injection E as <- <-. by eapply parse_u64_bounds.
Qed.

Lemma started_state root max_bytes cuts d s0 :
  start_metadata root max_bytes cuts d = Ok s0 ->
  exists sp first last, s0 = meta_start sp cuts first last /\ 0 <= last <= u64_MAX.
Proof.
  unfold start_metadata. destruct (MetadataSpool_open _ _ _) as [[sp|] ?]; [|done].
  destruct (max_sequence sp) as [[q|] sp1] eqn:Em; [|done].
  destruct (first_sequence sp1) as [[first|] sp2]; [|done]. intros [= <-].
  exists sp2, first, q. split; [done|].
  apply bind_inv in Em as (l & s1 & El & Em). apply bind_inv in El as (r & s2 & [= <- <-] & El).
  apply focus_inv in El as (d2 & El & _). apply list_entries_bounds in El.
  injection Em as <- _. destruct (list.last l) as [[q' p]|] eqn:Hl; [|unfold u64_MAX; lia].
  apply last_Some in Hl as [l' ->]. by apply Forall_app in El as [_ [? _]%Forall_cons].
Qed.

(** What a start finds: batch files numbered from [q0] on, without a gap. *)
Record resumes (s0 : Meta) (q0 : Z) (backlog : list (list MetadataEvent)) : Prop := {
  rs_low : 1 <= q0;
  rs_first : me_projector_sequence s0 = q0;
  rs_next : me_next_sequence s0 = q0 + blen backlog;
  rs_files : forall i batch, backlog !! i = Some batch -> spool_holds (me_spool s0) (q0 + Z.of_nat i) batch
}.

Lemma inv_start root max_bytes cuts d s0 q0 backlog :
  start_metadata root max_bytes cuts d = Ok s0 -> resumes s0 q0 backlog -> me_next_sequence s0 < u64_MAX ->
  meta_inv backlog q0 [] 0 s0.
Proof.
  intros (sp & first & q & -> & Hq)%started_state [H1 H2 H3 H4] Hlt. cbn in *.
  assert (Z.max (sat_add q 1) 1 = q + 1) as Hn by (unfold sat_add in *; lia).
  split; cbn; rewrite ?app_nil_r; try done.
  - lia.
  - lia.
  - lia.
  - destruct first; lia.
  - destruct first as [f|]; [rewrite sat_sub_ge; lia|lia].
  - by left.
  - intros i b Hi _ _. by apply H4.
  - apply marks_nil.
Qed.

(** ** Barriers *)

Lemma take_prefix {A} n (l k : list A) : l `prefix_of` k -> (n <= length l)%nat -> take n k `prefix_of` l.
Proof. intros [x ->] Hn. rewrite take_app_le by done. apply prefix_take. Qed.

Lemma spooled_sent backlog q0 new k s : meta_inv backlog q0 new k s -> me_spooled s `prefix_of` me_sent s.
Proof.
  intros I. pose proof (v_sent _ _ _ _ _ I) as H. destruct (me_writing s); [|done]. rewrite H. by eexists.
Qed.

Lemma concat_take_prefix {A} i j (l : list (list A)) :
  (i <= j)%nat -> concat (take i l) `prefix_of` concat (take j l).
Proof.
  intros. rewrite <- (take_drop i (take j l)), take_take, Nat.min_l, concat_app by done. by eexists.
Qed.

End MetadataTheorems.
