(* ===== verification/MetadataSink.v ===== *)
(** * The metadata pipeline is a metadata sink

    The sender's side of the pipeline ([MetadataSink::send] and
    [MetadataSink::durable_barrier] with the writer that answers) keeps the
    contract of [Sink.MetadataSinkLaws], against which the segment store is
    verified. *)

From stdpp Require Import strings countable.
From S2P Require Import Prelude Model Services Text Disk DiskSpec Sink Spool SpoolSpec Metadata MetadataTheorems.

Section MetadataSink.
Context `{CODEC : SpoolCodec}.

Definition sink_inv (s : Meta) : Prop :=
  if me_writing s then me_sent s = me_spooled s ++ events (me_channel s)
  else me_spooled s `prefix_of` me_sent s.

#[export] Instance meta_sink : MetadataSink Meta := {
  send := meta_send;
  durable_barrier := meta_durable_barrier;
  sink_ok := sink_inv;
  rows_sent s := omap index_row (me_sent s);
  rows_durable s := omap index_row (me_spooled s)
}.

(** What a turn of the writer leaves alone, and what it may add to. *)
Definition turned (s s' : Meta) : Prop :=
  sink_inv s' /\ me_sent s' = me_sent s /\ me_spooled s `prefix_of` me_spooled s'.

Lemma turned_refl s : sink_inv s -> turned s s.
Proof. by split. Qed.

Lemma turned_trans s1 s2 s3 : turned s1 s2 -> turned s2 s3 -> turned s1 s3.
Proof. intros (_ & E1 & P1) (I & E2 & P2). split; [done|]. split; [congruence|by etrans]. Qed.

Lemma answer_due_turned q due s : sink_inv s -> turned s (answer_due q due s).
Proof. intros I. by destruct due as [[[] m]|]. Qed.

Lemma answer_due_channel q due s : me_channel (answer_due q due s) = me_channel s.
Proof. by destruct due as [[[] m]|]. Qed.

(** A turn takes at least one command off a live channel; a writer that stops
    refuses every barrier it leaves, the last one of the channel last. *)
Lemma writer_turn_spec cut s :
  sink_inv s -> me_writing s = true -> me_channel s <> [] ->
  let s' := writer_turn cut s in
  turned s s' /\
  ((exists took, took <> [] /\ me_channel s = took ++ me_channel s' /\ me_writing s' = true) \/
   (me_writing s' = false /\ me_channel s' = [] /\
    (forall mark, list.last (me_channel s) = Some (Barrier false mark) ->
      exists a, list.last (me_answers s') = Some a /\ a_result a = Err))).
Proof.
  intros I Hw Hc s'. subst s'. unfold writer_turn. rewrite Hw. cbn [negb].
  destruct (receive cut (me_channel s)) as [[[batch due] rest]|] eqn:Er.
  2:{ by destruct (me_channel s) as [|[|]]. }
  apply receive_spec in Er as [Ec Hdue]. unfold sink_inv in I. rewrite Hw in I.
  assert (map Event batch ++ due_command due <> []) as Hne.
  { destruct batch; [|done]. destruct due as [[]|]; [done|]. by destruct (Hdue eq_refl). }
  destruct (is_empty batch) eqn:Hb.
  - apply is_empty_spec in Hb as ->. assert (sink_inv (set_me_channel rest s)) as I'.
    { unfold sink_inv. cbn. rewrite Hw, I, Ec, !events_app. by rewrite events_due. }
    destruct (answer_due_turned (sat_sub (me_next_sequence (set_me_channel rest s)) 1) due _ I') as (J & J1 & J2).
    split; [by split|]. left. exists (due_command due). rewrite answer_due_channel. split; [done|].
    split; [done|]. by destruct due as [[[] m]|].
  - destruct (spool_append _ _ _) as [[[]|] sp]; cbn [me_next_sequence set_me_channel].
    + set (x := note_durable _ _ _). assert (sink_inv x) as I'.
      { unfold sink_inv, x. cbn. rewrite Hw, I, Ec, !events_app, events_map, events_due. by rewrite <- app_assoc. }
      destruct (answer_due_turned (me_next_sequence s) due _ I') as (J & J1 & J2). split; [split; [done|]|].
      * split; [done|]. etrans; [|exact J2]. by eexists.
      * left. exists (map Event batch ++ due_command due). rewrite answer_due_channel, <- app_assoc.
        split; [done|]. split; [done|]. by destruct due as [[[] m]|].
    + split; [split; [|done]|].
      * unfold sink_inv. cbn. rewrite I. by eexists.
      * right. split; [done|]. split; [done|]. intros mark Hl. rewrite Ec in Hl.
        assert (option_list due ++ barriers rest <> []) as Hb'.
        { destruct due as [b|]; [done|]. cbn in Hl |- *. destruct rest as [|c r' _] using rev_ind.
          - rewrite app_nil_r in Hl. change (map Event batch) with (Event <$> batch) in Hl.
            by rewrite fmap_last in Hl; destruct (list.last batch).
          - rewrite !app_assoc, last_snoc in Hl. injection Hl as ->. unfold barriers. rewrite omap_app. cbn. by destruct (omap _ _). }
        unfold stop_writer. cbn [me_answers me_channel set_me_spool set_me_channel]. rewrite last_app. change (map refuse ?l) with (refuse <$> l). rewrite fmap_last. destruct (list.last (option_list due ++ barriers rest)) as [b|] eqn:El.
        { by exists (refuse b). }
        by apply last_None in El.
Qed.

(** Draining empties the channel; a writer that stopped meanwhile has refused the
    durable barrier at its end. *)
Lemma drain_spec mark n : forall s,
  sink_inv s -> me_writing s = true -> list.last (me_channel s) = Some (Barrier false mark) ->
  (length (me_channel s) <= n)%nat ->
  let s' := drain_channel n s in
  turned s s' /\
  (me_writing s' = true /\ me_channel s' = [] \/
   exists a, list.last (me_answers s') = Some a /\ a_result a = Err).
Proof.
  induction n as [|n IH]; intros s I Hw Hl Hn.
  { apply last_Some in Hl as [l El]. rewrite El, length_app in Hn. cbn in Hn. lia. }
  cbn [drain_channel]. destruct (me_channel s) as [|c cmds] eqn:Ec; [done|]. rewrite <- Ec in *.
  destruct (take_cut s) as [cut s1] eqn:Et.
  assert (turned s s1 /\ me_writing s1 = true /\ me_channel s1 = me_channel s) as (T1 & Hw1 & Hc1).
  { unfold take_cut in Et. destruct (me_cuts s); injection Et as <- <-; done. }
  destruct (writer_turn_spec cut s1) as [T2 Hcase]; [by destruct T1|done|by rewrite Hc1, Ec|].
  rewrite Hc1 in Hcase. pose proof (turned_trans _ _ _ T1 T2) as T.
  destruct Hcase as [(took & Hne & Hch & Hw')|(Hw' & Hch & Hrefused)].
  - destruct (me_channel (writer_turn cut s1)) as [|c' cmds'] eqn:Ec'.
    + assert (drain_channel n (writer_turn cut s1) = writer_turn cut s1) as -> by (destruct n; cbn; by rewrite ?Ec').
      split; [done|]. by left.
    + rewrite <- Ec' in *. destruct (IH (writer_turn cut s1)) as [T' Hend]; [by destruct T|done| | |].
      * rewrite Hch in Hl. rewrite Ec' in Hl |- *. by rewrite last_app_cons in Hl.
      * rewrite Hch, length_app in Hn. destruct took; [done|]. cbn in Hn. lia.
      * split; [by eapply turned_trans|done].
  - assert (drain_channel n (writer_turn cut s1) = writer_turn cut s1) as -> by (destruct n; cbn; by rewrite ?Hch).
    split; [done|]. right. by eapply Hrefused.
Qed.

(** A durable barrier that answers [Ok] finds every event in the spool. *)
Lemma barrier_spec s r s' :
  sink_inv s -> meta_durable_barrier s = (r, s') -> turned s s' /\ (r = Ok tt -> me_spooled s' = me_sent s').
Proof.
  intros I. unfold meta_durable_barrier, push_barrier. destruct (me_writing s) eqn:Hw.
  2:{ intros [= <- <-]. split; [by apply turned_refl|done]. }
  set (x := set_me_channel _ s). assert (sink_inv x) as Ix.
  { unfold sink_inv, x in *. cbn. rewrite Hw in *. rewrite I, events_app. cbn. by rewrite app_nil_r. }
  intros [<- <-]%pair_equal_spec.
  destruct (drain_spec (length (me_sent s)) (length (me_channel x)) x Ix Hw) as [T Hend]; [by apply last_snoc|done|].
  split; [done|]. intros Hr. destruct T as (J & _ & _). destruct Hend as [[Hw' Hc]|(a & Ha & He)].
  - unfold sink_inv in J. rewrite Hw', Hc in J. cbn [app] in J. rewrite app_nil_r in J. symmetry. exact J.
  - rewrite Ha, He in Hr. done.
Qed.

Lemma omap_prefix {A B} (f : A -> option B) l k : l `prefix_of` k -> omap f l `prefix_of` omap f k.
Proof. intros [x ->]. rewrite omap_app. by eexists. Qed.

#[export] Instance meta_sink_laws : MetadataSinkLaws Meta.
Proof.
  split; cbn.
  - intros e s r s' I E. unfold meta_send in E. destruct (me_writing s) eqn:Hw; injection E as _ <-; [|done].
    unfold sink_inv in *. cbn. rewrite Hw in *. rewrite I, events_app. by rewrite <- app_assoc.
  - intros e s s' _ E. unfold meta_send in E. destruct (me_writing s); [|done]. injection E as <-. cbn.
    by rewrite omap_app.
  - intros e s s' _ E. unfold meta_send in E. destruct (me_writing s); [done|]. by injection E as <-.
  - intros e s r s' _ E. unfold meta_send in E. destruct (me_writing s); by injection E as _ <-.
  - intros s r s' I E. by destruct (barrier_spec _ _ _ I E) as [(J & _) _].
  - intros s r s' I E. destruct (barrier_spec _ _ _ I E) as [(_ & -> & _) _]. done.
  - intros s r s' I E. destruct (barrier_spec _ _ _ I E) as [(_ & _ & P) _]. by apply omap_prefix.
  - intros s s' I E. destruct (barrier_spec _ _ _ I E) as [_ H]. by rewrite H.
Qed.
End MetadataSink.

(** * The metadata pipeline on concrete inputs

    A concrete serialisation of batches of index rows, and a run of the pipeline
    with a durable and a projected barrier. *)

(** ** A serialisation *)

Definition direction_nat (d : Direction) : nat := match d with AToB => 0 | BToA => 1 end.
Definition nat_direction (n : nat) : Direction := match n with O => AToB | _ => BToA end.

Definition views : list ContentView :=
  [TcpRaw; HttpRequestHeaders; HttpRequestBody; HttpRequestDecodedBody; HttpResponseHeaders; HttpResponseBody;
   HttpResponseDecodedBody].
Definition view_nat (v : ContentView) : nat :=
  match v with
  | TcpRaw => 0 | HttpRequestHeaders => 1 | HttpRequestBody => 2 | HttpRequestDecodedBody => 3
  | HttpResponseHeaders => 4 | HttpResponseBody => 5 | HttpResponseDecodedBody => 6
  end.

Definition row_fields (r : ContentIndexRecord) :=
  (ci_content_id r, ci_flow_id r, ci_ts_ns r, map byte_val <$> ci_service r, direction_nat (ci_direction r),
   view_nat (ci_view r), ci_stream_offset r, ci_payload_len r, ci_segment_path r, ci_segment_offset r).

Definition fields_row (x : Z * Z * Z * option (list Z) * nat * nat * Z * Z * string * Z) : ContentIndexRecord :=
  let '(id, flow, ts, service, d, v, so, len, path, off) := x in
  {| ci_content_id := id; ci_flow_id := flow; ci_ts_ns := ts; ci_service := map byte_of <$> service;
     ci_direction := nat_direction d; ci_view := nth v views TcpRaw; ci_stream_offset := so;
     ci_payload_len := len; ci_segment_path := path; ci_segment_offset := off |}.

Lemma fields_row_fields r : fields_row (row_fields r) = r.
Proof.
  destruct r as [id flow ts service d v so len path off]. cbn.
  assert (forall l, map byte_of (map byte_val l) = l) as E.
  { intros l. rewrite map_map. rewrite <- (map_id l) at 2. apply map_ext, byte_of_val. }
  by destruct service, d, v; cbn; rewrite ?E.
Qed.

Fixpoint bits (p : positive) : bytes :=
  match p with xH => [] | xO p => byte_of 0 :: bits p | xI p => byte_of 1 :: bits p end.
Fixpoint unbits (b : bytes) : positive :=
  match b with [] => xH | x :: b => if byte_val x =? 0 then xO (unbits b) else xI (unbits b) end.

Lemma unbits_bits p : unbits (bits p) = p.
Proof. induction p as [p IH|p IH|]; cbn; [by rewrite IH..|done]. Qed.

Definition row_codec : SpoolCodec := {|
  to_vec evs := match mapM index_row evs with
                | Some rows => Ok (bits (encode (map row_fields rows)))
                | None => Err
                end;
  from_slice b := match decode (unbits b) with
                  | Some rows => Ok (map (fun x => MetaContentIndex (fields_row x)) rows)
                  | None => Err
                  end;
  temp_suffix _ := ""%string
|}.
#[local] Existing Instance row_codec.

#[local] Instance row_codec_laws : SpoolCodecLaws.
Proof.
  intros evs payload E. cbn in *. destruct (mapM index_row evs) as [rows|] eqn:Em; [|done].
  injection E as <-. rewrite unbits_bits, decode_encode. f_equal. rewrite map_map.
  apply mapM_Some_1 in Em. induction Em as [|e r evs rows He _ IH]; [done|].
  cbn [map]. rewrite fields_row_fields, IH. by destruct e; try done; injection He as ->.
Qed.

(** ** A run *)

Definition ex_row (n : Z) : ContentIndexRecord :=
  {| ci_content_id := n; ci_flow_id := 7; ci_ts_ns := 1000 + n; ci_service := Some (bytes_of "web");
     ci_direction := AToB; ci_view := TcpRaw; ci_stream_offset := n; ci_payload_len := 1;
     ci_segment_path := "/s"; ci_segment_offset := 20 |}.
Definition ex_event (n : Z) : MetadataEvent := MetaContentIndex (ex_row n).

Definition spool_root : Path := ["spool"%string].
Definition empty_disk : Disk := {| files := ∅; faults := []; calls := 0 |}.
Definition ex_spool : MetadataSpool :=
  {| sp_disk := empty_disk; sp_root := spool_root; sp_max_bytes := 1000000; sp_bytes := 0 |}.
Definition ex_meta : Meta := meta_start ex_spool [] None 0.

Lemma ex_started : start_metadata spool_root 1000000 [] empty_disk = Ok ex_meta.
Proof. by vm_compute. Qed.

Lemma ex_resumes : resumes ex_meta 1 [].
Proof. by split. Qed.

(** Two events and a durable barrier, then a third event and a projected one. *)
Inductive Act :=
  | Send (e : MetadataEvent)
  | Ask (projected : bool)
  | WriterTurn (cut : nat)
  | ProjectorTurn (shutdown accepted : bool)
  | WaiterTurn (i : nat).

Definition perform (s : Meta) (a : Act) : Meta :=
  match a with
  | Send e => (meta_send e s).2
  | Ask p => (push_barrier p s).2
  | WriterTurn cut => writer_turn cut s
  | ProjectorTurn shutdown accepted => projector_turn shutdown accepted s
  | WaiterTurn i => waiter_turn i s
  end.

Lemma perform_steps acts : forall s, rtc meta_step s (fold_left perform acts s).
Proof.
  induction acts as [|a acts IH]; intros s; cbn [fold_left]; [apply rtc_refl|].
  eapply rtc_l; [|apply IH]. destruct a; cbn [perform].
  - eapply step_send, surjective_pairing.
  - eapply step_barrier, surjective_pairing.
  - apply step_writer.
  - apply step_projector.
  - apply step_waiter.
Qed.

Definition ex_acts : list Act :=
  [Send (ex_event 1); Send (ex_event 2); Ask false; WriterTurn 5; Send (ex_event 3); Ask true; WriterTurn 5;
   ProjectorTurn false true; WaiterTurn 0; ProjectorTurn false true; WaiterTurn 0].

Definition ex_end : Meta := fold_left perform ex_acts ex_meta.


(** The projector stops at a gap in the spool, and the waiting barrier is told. *)
Lemma projector_stops_at_a_gap :
  let s := set_me_spool ex_spool (fold_left perform [Send (ex_event 1); Ask true; WriterTurn 5] ex_meta) in
  let s := fold_left perform [ProjectorTurn false true; WaiterTurn 0] s in
  (me_projecting s, map (fun a => (a_projected a, a_result a)) (me_answers s)) = (false, [(true, Err)]).
Proof. by vm_compute. Qed.
