(* ===== verification/SegmentRestart.v ===== *)
(** * Restarts

    The content index over any number of runs, crashes and restarts: every record
    in every segment that a start finds has its row in durable storage. *)

From stdpp Require Import strings sorting.
From S2P Require Import Prelude Model Text Services Disk DiskSpec Sink Spool Segment SegmentSpec SegmentStore SegmentStoreSpec.
From S2P Require Import SegmentOps SegmentTheorems SegmentCrash.

(** ** Quiet start-up *)

Section Calm.
Context `{CRC : Crc32} `{NAMES : SegmentNames}.

Lemma calm_recover_loop path m len n : forall rest, calm (recover_loop path m len n rest).
Proof.
  induction n as [|n IH]; intros rest; cbn [recover_loop]; [apply calm_bail|].
  assert (forall o, calm (truncate_tail path o)) by (intros o; unfold truncate_tail; auto with calm).
  repeat (case_match; auto with calm).
Qed.

Lemma calm_recover root m : calm (recover_last_segment_tail root m).
Proof.
  unfold recover_last_segment_tail, latest_segment_path, list_segments.
  apply calm_bind; [auto with calm|]. intros [path|]; [|apply calm_ret].
  apply calm_bind; [auto with calm|]. intros data. repeat (case_match; auto using calm_recover_loop with calm).
Qed.

Lemma calm_directory_bytes root : calm (directory_bytes root).
Proof.
  unfold directory_bytes. apply calm_bind; [auto with calm|]. intros paths. apply calm_bind; [|auto with calm].
  induction paths as [|p paths IH]; [apply calm_ret|]. cbn. auto with calm.
Qed.

Lemma calm_open_segment root : calm (open_segment root).
Proof.
  unfold open_segment, create_segment. apply calm_bind; [auto with calm|]. intros path d r d' Hd E.
  destruct (with_header_spec path d) as (d1 & hdr & E1 & _ & _ & _ & Hf). rewrite E1 in E. injection E as _ <-.
  by rewrite Hf.
Qed.

Lemma calm_writer_new root a b c e : calm (ActiveWriter_new root a b c e).
Proof. unfold ActiveWriter_new. auto using calm_open_segment with calm. Qed.
End Calm.

(** ** Rows for frames *)

Section Restart.
Context `{CRC : Crc32} `{NAMES : SegmentNames} `{CANON : Canonicalize} {S : Type} `{SINK : MetadataSink S} `{LAWS : !MetadataSinkLaws S}.
Context (root : Path) (max_bytes m store_max : Z).

(** Each frame from a position on has a row among [k]; the row was made from the
    record of the frame, when it was written or read back. *)
Fixpoint covered (k : list ContentIndexRecord) (p : Path) (pos : Z) (l : list Frame) : Prop :=
  match l with
  | [] => True
  | fr :: l =>
      (exists r, In (index_of r p pos) k /\ (fr.2 = r \/ fr.2 = stored r)) /\
      covered k p (pos + (12 + blen fr.1)) l
  end.

(** Every segment of the directory is complete, and indexed by the rows. *)
Definition indexed_disk (d : Disk) (k : list ContentIndexRecord) : Prop :=
  forall p f, files d !! p = Some f -> in_directory root p = true -> is_segment p = true ->
    exists l, segment_of m (content f) l /\ covered k p HEADER_SIZE l.

Lemma covered_mono k k' p l : forall pos, incl k k' -> covered k p pos l -> covered k' p pos l.
Proof.
  induction l as [|fr l IH]; intros pos Hi; [done|]. intros [(r & Hr & He) Hl].
  split; [|by apply IH]. exists r. split; [by apply Hi|done].
Qed.

Lemma covered_rows k p rs : forall pos, incl (rows p pos rs) k -> covered k p pos (map frame_of rs).
Proof.
  induction rs as [|r rs IH]; intros pos Hi; [done|]. split.
  - exists r. split; [apply Hi; by left|by right].
  - apply IH. intros x Hx. apply Hi. by right.
Qed.

Fixpoint frame_rows (p : Path) (pos : Z) (l : list Frame) : list ContentIndexRecord :=
  match l with [] => [] | fr :: l => index_of fr.2 p pos :: frame_rows p (pos + (12 + blen fr.1)) l end.

Lemma covered_frame_rows k p l : forall pos, incl (frame_rows p pos l) k -> covered k p pos l.
Proof.
  induction l as [|fr l IH]; intros pos Hi; [done|]. split.
  - exists fr.2. split; [apply Hi; by left|by left].
  - apply IH. intros x Hx. apply Hi. by right.
Qed.

Lemma visit_rows p l : forall pos k n r k' n',
  sink_ok k -> visit (send_row p) pos l (k, n) = (r, (k', n')) ->
  sink_ok k' /\ rows_durable k `prefix_of` rows_durable k' /\
  (r = Ok tt -> rows_sent k' = rows_sent k ++ frame_rows p pos l).
Proof.
  induction l as [|fr l IH]; intros pos k n r k' n' Hk E; cbn [visit frame_rows] in *.
  - injection E as _ <- <-. split; [done|]. split; [done|]. by rewrite app_nil_r.
  - apply bind_cases in E as [[E ->]|([] & [k1 n1] & E1 & E)].
    + apply bind_cases in E as [[E _]|([] & s1 & E1 & [=])].
      apply focus_inv in E as (k1 & E & [= -> ->]). split; [by eapply send_keeps|].
      split; [by eapply send_durable|done].
    + apply bind_inv in E1 as ([] & s1 & E1 & [= <- <-]). apply focus_inv in E1 as (k2 & E1 & ->). cbn [fst snd] in *.
      destruct (IH _ _ _ _ _ _ (send_keeps _ _ _ _ Hk E1) E) as (H1 & H2 & H3). split; [done|].
      split; [etrans; [by eapply send_durable|done]|]. intros Hr. rewrite (H3 Hr).
      rewrite (send_accepted _ _ _ Hk E1). by rewrite <- app_assoc.
Qed.

(** ** The start-up's operations on a started store *)

(** A store with the thread [t] over the disk [d] and the sink [k]. *)
Definition store_at (s0 : SegmentStore S) (t : Thread S) (d : Disk) (k : S) : SegmentStore S :=
  set_ss_writer (Started (with_state (fun st => set_st_sink k (set_st_disk d st)) t)) s0.

Lemma disk_io_at {A} (op : IO A) s0 t d k r s' :
  disk_io op (store_at s0 t d k) = (r, s') -> exists d', op d = (r, d') /\ s' = store_at s0 t d' k.
Proof. intros (d' & E & ->)%focus_inv. by exists d'. Qed.

Lemma sink_io_at {A} (op : Eff S A) s0 t d k r s' :
  sink_io op (store_at s0 t d k) = (r, s') -> exists k', op k = (r, k') /\ s' = store_at s0 t d k'.
Proof. intros (k' & E & ->)%focus_inv. by exists k'. Qed.

Lemma open_file_fine p d : faults d = [] -> open_file p d = (of_option (files d !! p), d).
Proof. intros Hd. unfold open_file. by rewrite syscall_fine. Qed.

Lemma read_file_fine p d f : faults d = [] -> files d !! p = Some f -> read_file p d = (Ok (content f), d).
Proof.
  intros Hd Hf. unfold read_file. rewrite (bind_ok _ _ d f d); [done|]. by rewrite open_file_fine, Hf.
Qed.

Lemma marker_fine p d f :
  faults d = [] -> files d !! p = Some f -> content f = marker_text -> recovery_marker_valid p d = (Ok true, d).
Proof.
  intros Hd Hf Hc. unfold recovery_marker_valid. rewrite (bind_ok _ _ d (Ok (content f)) d).
  - rewrite Hc. by rewrite bool_decide_eq_true_2.
  - unfold attempt. by rewrite (read_file_fine _ _ f).
Qed.

Lemma path_exists_fine p d :
  faults d = [] -> path_exists p d = (Ok (bool_decide (is_Some (files d !! p))), d).
Proof.
  intros Hd. unfold path_exists. destruct (files d !! p) as [f|] eqn:Hf.
  - rewrite (bind_ok _ _ d (Ok (blen (content f))) d); [done|]. unfold attempt, file_len.
    rewrite (bind_ok _ _ d f d); [done|]. by rewrite open_file_fine, Hf.
  - rewrite (bind_ok _ _ d Err d); [done|]. unfold attempt, file_len.
    rewrite (bind_err _ _ d d); [done|]. by rewrite open_file_fine, Hf.
Qed.

Lemma send_rows_at path data l s0 t d k r s' :
  sink_ok k -> segment_of m data l -> send_rows path m data (store_at s0 t d k) = (r, s') ->
  exists k', s' = store_at s0 t d k' /\ sink_ok k' /\ rows_durable k `prefix_of` rows_durable k' /\
    forall n, r = Ok n -> rows_sent k' = rows_sent k ++ frame_rows path HEADER_SIZE l.
Proof.
  intros Hk Hl E. unfold send_rows in E. change (store_sink (store_at s0 t d k)) with k in E.
  rewrite (scan_segment _ _ _ _ _ Hl) in E.
  destruct ((_ ← visit _ _ _; mret _) (k, 0)) as [r1 [k' n']] eqn:Ev. injection E as <- <-.
  exists k'. split; [done|].
  apply bind_cases in Ev as [[Ev ->]|([] & [k1 n1] & Ev & [= <- -> ->])];
    destruct (visit_rows _ _ _ _ _ _ _ _ Hk Ev) as (H1 & H2 & H3); split; try done; split; try done.
  intros _ _. by apply H3.
Qed.

(** The start-up's recovery succeeds only with the newest segment indexed and every
    row durable. *)
Lemma recover_at marker path s0 t d k store :
  ss_max_record_bytes s0 = m -> faults d = [] -> sink_ok k ->
  (forall f, files d !! path = Some f -> (exists l, segment_of m (content f) l) \/ content f = []) ->
  recover_and_commit false marker (Some path) (store_at s0 t d k) = (Ok tt, store) ->
  exists k', store = store_at s0 t d k' /\ sink_ok k' /\ rows_durable k' = rows_sent k' /\
    rows_sent k `prefix_of` rows_sent k' /\
    forall f, files d !! path = Some f ->
      exists l, segment_of m (content f) l /\ incl (frame_rows path HEADER_SIZE l) (rows_sent k').
Proof.
  intros Hm Hd Hk Hseg E. apply bind_inv in E as ([] & s1 & E1 & E).
  assert (exists k1, s1 = store_at s0 t d k1 /\ sink_ok k1 /\ rows_sent k `prefix_of` rows_sent k1 /\
    forall f, files d !! path = Some f ->
      exists l, segment_of m (content f) l /\ incl (frame_rows path HEADER_SIZE l) (rows_sent k1)) as (k1 & -> & Hk1 & Hp & Hrows).
  { cbn [recover_index index_newest] in E1. apply bind_inv in E1 as (present & s2 & E2 & E1).
    apply disk_io_at in E2 as (d2 & E2 & ->). rewrite path_exists_fine in E2 by done.
    injection E2 as <- <-. destruct (files d !! path) as [f|] eqn:Hf; cbn [index_again] in E1.
    2:{ injection E1 as <-. by exists k. }
    apply bind_inv in E1 as (n & s3 & E2 & [= <-]). apply bind_inv in E2 as (mr & s4 & [= <- <-] & E2).
    apply bind_inv in E2 as (data & s4 & E3 & E2). apply disk_io_at in E3 as (d3 & E3 & ->).
    rewrite (read_file_fine _ _ f) in E3 by done. injection E3 as <- <-.
    cbn in E2. rewrite Hm in E2.
    destruct (Hseg f eq_refl) as [[l Hl]|He].
    2:{ by rewrite He in E2. }
    destruct (send_rows_at _ _ _ _ _ _ _ _ _ Hk Hl E2) as (k1 & -> & Hk1 & _ & Hs). specialize (Hs n eq_refl).
    exists k1. split; [done|]. split; [done|]. rewrite Hs. split; [by eexists|]. intros f' [= <-].
    exists l. split; [done|]. by apply incl_appr, incl_refl. }
  apply sink_io_at in E as (k2 & E & ->). exists k2. split; [done|]. split; [by eapply barrier_keeps|].
  split; [by eapply barrier_durable|]. by rewrite (barrier_sent _ _ _ Hk1 E).
Qed.

(** ** Lives of a store *)

(** The store as a start leaves it: [d] is the disk before the first new file, [t]
    the thread.  A life begins on a directory whose segments are all indexed and
    goes on through runs, crashes and restarts; the clock gives later files later
    names, and the durable rows are those of the run before. *)
Inductive life : Disk -> Thread S -> Prop :=
  | life_first d sink t :
      opened root max_bytes m store_max d sink t -> complete root m d -> later_names root d ->
      indexed_disk d (rows_durable sink) -> life d t
  | life_restart d t evs dc sink store d1 t1 :
      life d t -> Forall typed_event evs ->
      crashed (st_disk (th_state (thread_run evs t))) dc -> faults dc = [] ->
      (forall p f, files dc !! p = Some f -> blen (content f) < u64_MAX) ->
      sink_ok sink -> rows_durable sink = rows_sent sink ->
      rows_durable (st_sink (th_state (thread_run evs t))) `prefix_of` rows_durable sink ->
      recovery_marker_valid (root ++ [CONTENT_INDEX_RECOVERY_MARKER]) dc = (Ok true, dc) ->
      start_segments root max_bytes m store_max dc sink = (Ok store, d1) ->
      ss_writer store = Started t1 -> later_names root d1 -> life d1 t1.

(** What a start promises the run that follows. *)
Record serving (d : Disk) (t : Thread S) : Prop := {
  sv_thread : thread_ok root m store_max (files d) (rows_sent (st_sink (th_state t))) (disk_bytes d) (disk_bytes d)
                (calls d) fresh_history t [];
  sv_flat : flat root d;
  sv_max : store_max < u64_MAX - HEADER_SIZE;
  sv_complete : complete root m d;
  sv_names : later_names root d;
  sv_indexed : indexed_disk d (rows_sent (st_sink (th_state t)))
}.

Lemma indexed_mono d k k' : incl k k' -> indexed_disk d k -> indexed_disk d k'.
Proof.
  intros Hi H p f Hf Hd Hs. destruct (H p f Hf Hd Hs) as (l & Hl & Hc). exists l.
  split; [done|]. by eapply covered_mono.
Qed.

Lemma prefix_incl {A} (l k : list A) : l `prefix_of` k -> incl l k.
Proof. intros [x ->]. apply incl_appl, incl_refl. Qed.

Lemma first_serving d sink t :
  opened root max_bytes m store_max d sink t -> complete root m d -> later_names root d ->
  indexed_disk d (rows_durable sink) -> serving d t /\ st_sink (th_state t) = sink.
Proof.
  intros Ho Hc Hn Hi. destruct (opened_ok _ _ _ _ _ _ _ Ho) as [_ Hok].
  assert (st_sink (th_state t) = sink) as Hs.
  { destruct Ho as [(d0 & s & E & Ew) _ _ _ _ _]. unfold open in E.
    destruct (prepare_directory _ _ _ _) as [[n|] d1]; [|done]. injection E as <- _. cbn in Ew.
    unfold spawn_writer in Ew. destruct (ActiveWriter_new _ _ _ _ _ _) as [[w|] d2]; [|done]. by injection Ew as <-. }
  split; [|done]. split; try done; rewrite ?Hs; try done.
  - by destruct Ho.
  - by destruct Ho.
  - rewrite <- (o_rows _ _ _ _ _ _ _ Ho). done.
Qed.

(** After a run and a crash, all segments but the newest are indexed by what the
    run made durable. *)
Lemma crash_indexed d t g evs dc p f' :
  serving d t ->
  inv root m store_max (files d) (rows_sent (st_sink (th_state t))) (disk_bytes d) (disk_bytes d) (calls d) g
    (th_state (thread_run evs t)) ->
  crashed (st_disk (th_state (thread_run evs t))) dc ->
  p <> aw_path (st_writer (th_state (thread_run evs t))) -> files dc !! p = Some f' ->
  in_directory root p = true -> is_segment p = true ->
  exists l, segment_of m (content f') l /\
    covered (rows_durable (st_sink (th_state (thread_run evs t)))) p HEADER_SIZE l.
Proof.
  intros Hsv I Hcr Hp Hf Hdir Hseg. set (s := th_state (thread_run evs t)) in *.
  destruct (crash_keeps_complete root m store_max _ _ _ _ _ _ _ _ _ I (sv_complete _ _ Hsv) Hcr Hp Hf Hdir Hseg)
    as (f & Hf0 & -> & _ & _).
  pose proof (prefix_incl _ _ (i_durable I)) as Hinc.
  destruct (i_dom I p f Hf0) as [?|[Hin|Hold]]; [done| |].
  - apply in_map_iff in Hin as (pr & <- & Hin). pose proof (i_sealed I) as Hse. rewrite Forall_forall in Hse.
    destruct (Hse pr (proj2 (list_elem_of_In _ _) Hin)) as (f1 & Hf1 & Hl & _). rewrite Hf1 in Hf0. injection Hf0 as ->.
    exists (map frame_of pr.2). split; [done|]. apply covered_rows. intros x Hx. apply Hinc, in_or_app. right.
    unfold sealed_rows. apply in_concat. exists (rows pr.1 HEADER_SIZE pr.2). split; [|done].
    apply in_map_iff. by exists pr.
  - destruct (sv_indexed _ _ Hsv p f Hold Hdir Hseg) as (l & Hl & Hc). exists l. split; [done|].
    eapply covered_mono; [|exact Hc]. intros x Hx. apply Hinc, in_or_app. by left.
Qed.

(** *** The start-up *)

(** A store whose writer never started keeps none. *)
Definition keeps_never {A} (op : Eff (SegmentStore S) A) : Prop :=
  forall s r s', (exists d k, ss_writer s = NeverStarted d k) -> op s = (r, s') ->
    exists d k, ss_writer s' = NeverStarted d k.

Lemma never_bind {A B} (op : Eff (SegmentStore S) A) (f : A -> Eff (SegmentStore S) B) :
  keeps_never op -> (forall a, keeps_never (f a)) -> keeps_never (op ≫= f).
Proof.
  intros H1 H2 s r s' Hn [[E ->]|(a & s1 & E1 & E2)]%bind_cases; [by eapply H1|].
  eapply H2; [|exact E2]. by eapply H1.
Qed.

Lemma never_disk {A} (op : IO A) : keeps_never (disk_io op).
Proof. intros s r s' (d & k & Hw) (d' & E & ->)%focus_inv. unfold set_store_disk. rewrite Hw. by eexists _, _. Qed.

Lemma never_sink {A} (op : Eff S A) : keeps_never (sink_io op).
Proof. intros s r s' (d & k & Hw) (d' & E & ->)%focus_inv. unfold set_store_sink. rewrite Hw. by eexists _, _. Qed.

Lemma never_ret {A} (a : A) : keeps_never (mret a).
Proof. by intros s r s' Hn [= _ <-]. Qed.

Lemma never_reads {A} (f : SegmentStore S -> A) : keeps_never (reads f).
Proof. by intros s r s' Hn [= _ <-]. Qed.

Lemma never_send_rows path mr data : keeps_never (send_rows path mr data).
Proof.
  intros s r s' (d & k & Hw) E. unfold send_rows in E. destruct (scan_file _ _ _ _) as [r1 [k1 n1]].
  injection E as _ <-. unfold set_store_sink. rewrite Hw. by eexists _, _.
Qed.

Lemma never_recover marker path : keeps_never (recover_and_commit false marker (Some path)).
Proof.
  apply never_bind; [|intros _; apply never_sink]. cbn [recover_index index_newest].
  apply never_bind; [apply never_disk|]. intros [|]; cbn [index_again]; [|apply never_ret].
  apply never_bind; [|intros; apply never_ret]. apply never_bind; [apply never_reads|]. intros mr.
  apply never_bind; [apply never_disk|]. intros data. apply never_send_rows.
Qed.

Lemma start_inv dc sink store d1 t1 newest d' :
  faults dc = [] -> latest_segment_path root dc = (Ok (Some newest), dc) ->
  recovery_marker_valid (root ++ [CONTENT_INDEX_RECOVERY_MARKER]) dc = (Ok true, dc) ->
  recover_last_segment_tail root m dc = (Ok tt, d') -> flat root d' ->
  (forall f, files d' !! newest = Some f -> exists l, segment_of m (content f) l) ->
  sink_ok sink -> rows_durable sink = rows_sent sink -> store_max < u64_MAX - HEADER_SIZE ->
  start_segments root max_bytes m store_max dc sink = (Ok store, d1) -> ss_writer store = Started t1 ->
  files d1 = files d' /\
  thread_ok root m store_max (files d1) (rows_sent (st_sink (th_state t1))) (disk_bytes d1) (disk_bytes d1) (calls d1)
    fresh_history t1 [] /\
  rows_sent sink `prefix_of` rows_sent (st_sink (th_state t1)) /\
  forall f, files d1 !! newest = Some f -> exists l, segment_of m (content f) l /\
    incl (frame_rows newest HEADER_SIZE l) (rows_sent (st_sink (th_state t1))).
Proof.
  intros Hd Hlast Hmark Hrec Hflat Hseg Hk Hdur Hmax E Hw. unfold start_segments in E.
  rewrite Hlast, Hmark in E. cbn [negb] in E.
  unfold open in E. destruct (prepare_directory root m store_max dc) as [[n|] d2] eqn:Ep; [|done].
  destruct (recover_and_commit false _ (Some newest) _) as [[[]|] store1] eqn:Er; [|done].
  injection E as -> ->.
  apply bind_inv in Ep as ([] & d3 & E3 & Ep). rewrite syscall_fine in E3 by done. injection E3 as <-.
  apply bind_inv in Ep as ([] & d4 & E4 & Ep). rewrite Hrec in E4. injection E4 as <-.
  apply bind_inv in Ep as (n' & d5 & Ed & Ep). apply bind_inv in Ep as ([] & d6 & [Hn ->]%ensure_inv & [= -> ->]).
  assert (faults d1 = []) as Hf1 by (eapply calm_directory_bytes; [|exact Ed]; by eapply calm_recover).
  destruct (directory_bytes_sum _ _ _ _ Hflat Ed) as [-> [Hfiles _]]. apply negb_true_iff, Z.ltb_ge in Hn.
  assert (disk_bytes d1 = disk_bytes d') as Hbytes by (unfold disk_bytes; by rewrite Hfiles).
  assert (Z.min (disk_bytes d') u64_MAX = disk_bytes d1) as Hmin by (unfold HEADER_SIZE in Hmax; lia). rewrite Hmin in Hn, Er.
  unfold spawn_writer in Er. destruct (ActiveWriter_new root max_bytes m store_max (disk_bytes d1) d1) as [[w|] d2] eqn:Ew.
  2:{ apply never_recover in Er as (? & ? & Hnv); [by rewrite Hnv in Hw|by eexists _, _]. }
  assert (faults d2 = []) as Hf2 by by eapply calm_writer_new.
  pose proof Ew as Ew'. apply bind_inv in Ew' as ([] & d3 & E3 & Ew'). rewrite syscall_fine in E3 by done. injection E3 as <-.
  apply bind_inv in Ew' as ([np nf] & d4 & E4 & [= _ ->]).
  apply open_segment_inv in E4 as (_ & Hnew & _ & Hfd & _).
  set (s0 := {| ss_root := root; ss_max_record_bytes := m; ss_queue := []; ss_writer := _ |}) in Er.
  change s0 with (store_at s0 (start_writer w (disk_bytes d1) d2 sink) d2 sink) in Er.
  assert (forall f, files d2 !! newest = Some f -> (exists l, segment_of m (content f) l) \/ content f = []) as Hseg2.
  { intros f Hf. rewrite Hfd, lookup_insert in Hf. case_decide as Hnp; [injection Hf as <-; by right|].
    left. rewrite Hfiles in Hf. by apply Hseg. }
  destruct (recover_at _ _ s0 _ _ _ _ eq_refl Hf2 Hk Hseg2 Er) as (k & -> & Hk' & Hdur' & Hp & Hrows).
  cbn in Hw. injection Hw as <-. cbn [th_state st_sink with_state set_st_sink].
  split; [done|]. split; [|split; [done|]].
  - apply (start_ok root max_bytes m store_max (disk_bytes d1) d1 w d2 k Ew); try done.
    split; [|done]. apply map_sum_nonneg. intros; apply blen_nonneg.
  - intros f Hf. apply Hrows. rewrite Hfd, lookup_insert_ne; [done|]. intros ->. congruence.
Qed.

Lemma restart_serving d t evs dc sink store d1 t1 :
  serving d t -> Forall typed_event evs ->
  crashed (st_disk (th_state (thread_run evs t))) dc -> faults dc = [] ->
  (forall p f, files dc !! p = Some f -> blen (content f) < u64_MAX) ->
  sink_ok sink -> rows_durable sink = rows_sent sink ->
  rows_durable (st_sink (th_state (thread_run evs t))) `prefix_of` rows_durable sink ->
  recovery_marker_valid (root ++ [CONTENT_INDEX_RECOVERY_MARKER]) dc = (Ok true, dc) ->
  start_segments root max_bytes m store_max dc sink = (Ok store, d1) ->
  ss_writer store = Started t1 -> later_names root d1 -> serving d1 t1.
Proof.
  intros Hsv Ht Hcr Hd Hsmall Hk Hdur Hp Hmark E Hw Hnames.
  assert (store_max < u64_MAX) as Hmax by (pose proof (sv_max _ _ Hsv); unfold HEADER_SIZE in *; lia).
  destruct (thread_run_ok _ _ _ _ _ _ _ _ evs _ _ _ (sv_thread _ _ Hsv) Ht Hmax) as (g & I & _).
  set (s := th_state (thread_run evs t)) in *.
  destruct (active_crash root m store_max _ _ _ _ _ _ _ I (sv_names _ _ Hsv) Hcr Hd Hsmall)
    as (d' & hdr & k & Erec & Hkeep & Hrec).
  pose proof (crash_complete root m store_max _ _ _ _ _ _ _ _ _ _ I (sv_complete _ _ Hsv) Hcr Hkeep Hrec) as Hcomp.
  destruct (i_active I) as (f & ? & (Hf & _) & _). cbn in Hf. rewrite <- (i_path I) in Hf.
  destruct (crashed_lookup _ _ _ _ Hcr Hf) as (f' & Hf' & _).
  pose proof (active_is_newest root m store_max _ _ _ _ _ _ _ _ I (sv_names _ _ Hsv) Hcr Hd Hf') as Hlast.
  destruct (i_names I) as (n & Hn & _ & Hj). destruct (segment_path_listed root n) as [Hseg Hdir]. rewrite <- Hn in *.
  assert (flat root d') as Hflat.
  { intros q [fq Hq]. destruct (decide (q = aw_path (st_writer s))) as [->|Hne]; [done|].
    rewrite Hkeep in Hq by done. destruct (crashed_Some _ _ _ _ Hcr Hq) as (f0 & Hf0 & _).
    destruct (i_dom I q f0 Hf0) as [?|[Hin|Hold]]; [done| |by eapply (sv_flat _ _ Hsv)].
    rewrite Forall_forall in Hj. apply list_elem_of_In in Hin. destruct (Hj q Hin) as (j & _ & ->).
    apply segment_path_listed. }
  assert (forall f, files d' !! aw_path (st_writer s) = Some f -> exists l, segment_of m (content f) l) as Hnewest.
  { intros f0 Hf0. apply (Hcomp _ _ Hf0 Hdir Hseg). }
  destruct (start_inv _ _ _ _ _ _ _ Hd Hlast Hmark Erec Hflat Hnewest Hk Hdur (sv_max _ _ Hsv) E Hw)
    as (Hfiles & Hok & Hgrow & Hrows).
  assert (incl (rows_durable (st_sink s)) (rows_sent (st_sink (th_state t1)))) as Hinc.
  { intros y Hy. apply (prefix_incl _ _ Hgrow). rewrite <- Hdur. by apply (prefix_incl _ _ Hp). }
  split; try done.
  - intros q Hq. rewrite Hfiles in Hq. by apply Hflat.
  - apply Hsv.
  - intros q fq Hq. rewrite Hfiles in Hq. by apply Hcomp.
  - intros q fq Hq Hqd Hqs. destruct (decide (q = aw_path (st_writer s))) as [->|Hne].
    + destruct (Hrows _ Hq) as (l & Hl & Hi). exists l. split; [done|]. by apply covered_frame_rows.
    + rewrite Hfiles, Hkeep in Hq by done.
      destruct (crash_indexed _ _ _ _ _ _ _ Hsv I Hcr Hne Hq Hqd Hqs) as (l & Hl & Hc).
      exists l. split; [done|]. by eapply covered_mono.
Qed.

Lemma life_serving d t : life d t -> serving d t.
Proof.
  induction 1 as [d sink t Ho Hc Hn Hi|d t evs dc sink store d1 t1 _ IH]; [|by eapply restart_serving].
  by eapply first_serving.
Qed.

End Restart.
