(* ===== verification/SegmentExamples.v ===== *)
(** * The segment store on concrete inputs

    A store whose sink is the metadata pipeline, its records small enough to
    rotate often; the theorems of the store on its runs; and three behaviours of
    the writer that its comments do not promise. *)

From Stdlib Require Import Ascii.
From stdpp Require Import strings sorting.
From S2P Require Import Prelude Model Services Text Disk Sink Segment SegmentSpec SegmentStore SegmentStoreSpec.
From S2P Require Import SegmentOps SegmentTheorems SegmentCrash Spool Metadata MetadataSink SegmentRestart.

#[local] Existing Instance row_codec.


(** A sum of the bytes for a checksum. *)
Definition byte_sum (b : bytes) : Z := (foldr (fun x acc => byte_val x + acc) 0 b) mod 2 ^ 32.

#[local] Instance sum_crc : Crc32 := { crc32 := byte_sum; crc32_u32 b := Z.mod_pos_bound _ (2 ^ 32) eq_refl }.

(** A clock whose later times are longer. *)
Fixpoint unary (n : nat) : string := match n with O => "" | S n => "t" +:+ unary n end.

#[local] Instance unary_names : SegmentNames :=
  { segment_stamp := unary; segment_uuid _ := "u"%string; created_ns n := Z.of_nat n }.

Definition seg_root : Path := ["seg"%string].

Lemma unary_lt k : forall i r r',
  lex_compare (bytes_of (unary i +:+ "-" +:+ r)) (bytes_of (unary (i + S k) +:+ "-" +:+ r')) = Lt.
Proof.
  induction i as [|i IH]; intros r r'; [done|].
  exact (IH r r').
Qed.

Lemma names_later i j :
  (i < j)%nat -> name_lt (file_name (segment_path seg_root i)) (file_name (segment_path seg_root j)).
Proof.
  intros Hij. unfold name_lt, segment_path, file_name, seg_root. cbn [app List.last].
  replace j with (i + S (j - i - 1))%nat by lia.
  exact (unary_lt _ i _ _).
Qed.

(** ** An opened store *)

Definition ex_record (n : Z) (data : string) : ContentRecord :=
  {| cr_id := n; cr_flow_id := 9; cr_ts_ns := 100 + n; cr_service := Some (bytes_of "web"); cr_direction := AToB;
     cr_view := TcpRaw; cr_stream_offset := n; cr_data := bytes_of data |}.

Definition ex_disk (fs : list (option Z)) : Disk := {| files := ∅; faults := fs; calls := 0 |}.

(** Segments of 200 bytes, records of 100, a store of 1000. *)
Definition ex_open (fs : list (option Z)) : Result (SegmentStore Meta) * Disk :=
  open seg_root 200 100 1000 (ex_disk fs) ex_meta.

Definition dummy_thread : Thread Meta := finish_thread
  {| st_disk := ex_disk []; st_sink := ex_meta;
     st_writer := {| aw_root := seg_root; aw_max_bytes := 0; aw_max_record_bytes := 0; aw_file := BufWriter_new [] 0;
                     aw_path := []; aw_bytes := 0; aw_retained_bytes := 0; aw_store_max_bytes := 0 |};
     st_pending := []; st_metrics := {| segment_bytes := 0; segment_disk_bytes := 0 |} |}.

Definition thread_of (r : Result (SegmentStore Meta) * Disk) : Thread Meta :=
  match r.1 with Ok {| ss_writer := Started t |} => t | _ => dummy_thread end.

Definition starts (r : Result (SegmentStore Meta) * Disk) : bool :=
  match r.1 with Ok {| ss_writer := Started _ |} => true | _ => false end.

Definition ex_thread (fs : list (option Z)) : Thread Meta := thread_of (ex_open fs).

Lemma ex_opened fs :
  starts (ex_open fs) = true -> files (ex_open fs).2 = ∅ ->
  opened seg_root 200 100 1000 (ex_open fs).2 ex_meta (ex_thread fs).
Proof.
  intros Hs Hf. split.
  - exists (ex_disk fs). unfold starts, ex_thread, thread_of, ex_open in *.
    destruct (open _ _ _ _ _ _) as [[[q m c [t|]]|] d]; cbn in *; try done. by eexists.
  - intros p [f E]. by rewrite Hf in E.
  - unfold disk_bytes. by rewrite Hf.
  - done.
  - done.
  - done.
Qed.

Definition ex_records (l : list (Z * string)) : list ContentRecord := map (fun x => ex_record x.1 x.2) l.
Definition ex_events (l : list (Z * string)) : list Received := map (fun r => Command (Record_ r)) (ex_records l).

Lemma ex_typed l : Forall (fun x => 0 <= x.1 < 1000) l -> Forall typed_event (ex_events l).
Proof.
  induction 1 as [|[n data] l Hn _ IH]; [constructor|]. constructor; [|exact IH].
  constructor; [|constructor]. cbn in Hn. unfold record_typed, is_u64. cbn.
  split; [lia|]. split; [lia|]. split; [lia|]. split; [lia|]. by eexists.
Qed.

Definition five : list (Z * string) := [(1, "alpha"); (2, "beta"); (3, "gamma"); (4, "delta"); (5, "epsilon")]%string.

Lemma five_typed : Forall typed_event (ex_events five).
Proof. apply ex_typed. by repeat (constructor; [cbn; lia|]). Qed.

Lemma fine_start : starts (ex_open []) = true /\ files (ex_open []).2 = ∅.
Proof. by vm_compute. Qed.

Lemma index_points_at_records_witness :
  let s := th_state (thread_run (ex_events five ++ [Command Flush]) (ex_thread [])) in
  (length (rows_sent (st_sink s)), size (files (st_disk s)), st_pending s) = (5%nat, 3%nat, []) /\
  exists new rs,
    rows_sent (st_sink s) = rows_sent ex_meta ++ new /\ Forall2 (found 100 (st_disk s)) new rs /\
    sublist rs (received (ex_events five ++ [Command Flush])) /\
    (th_fatal (thread_run (ex_events five ++ [Command Flush]) (ex_thread [])) = false -> st_pending s = [] ->
     rs = received (ex_events five ++ [Command Flush])).
Proof.
  split; [by vm_compute|].
  apply (index_points_at_records seg_root 200 100 1000 (ex_open []).2 ex_meta (ex_thread [])).
  - apply ex_opened; apply fine_start.
  - apply Forall_app. split; [exact five_typed|]. by repeat constructor.
Defined.

(** ** A store that fills up *)

Definition many : list (Z * string) := repeat (6, "0123456789"%string) 12.

Lemma many_typed : Forall typed_event (ex_events many).
Proof. apply ex_typed, Forall_forall. intros x Hx. apply list_elem_of_In, repeat_spec in Hx as ->. cbn. lia. Qed.

(** Ten of the twelve records fit; the others are refused. *)
Lemma disk_budget_holds_witness :
  let s := th_state (thread_run (ex_events many) (ex_thread [])) in
  (disk_bytes (st_disk s) <= 1000) /\
  disk_bytes (st_disk s) <= Z.max 1000 (disk_bytes (ex_open []).2 + HEADER_SIZE) /\
  disk_bytes (ex_open []).2 <= 1000.
Proof.
  split; [by vm_compute|].
  apply (disk_budget_holds seg_root 200 100 1000 (ex_open []).2 ex_meta (ex_thread [])).
  - apply ex_opened; apply fine_start.
  - exact many_typed.
Defined.

(** ** A snapshot *)

Definition before_seal : Thread Meta := thread_run (ex_events five) (ex_thread []).
Definition after_seal : Reply * Thread Meta := thread_step (Command Seal) before_seal.
Definition reply_paths (r : Reply) : list Path := match r with SealReply (Ok paths) => paths | _ => [] end.
Definition snapshot_paths : list Path := reply_paths after_seal.1.

Lemma seal_answers : after_seal = (SealReply (Ok snapshot_paths), after_seal.2).
Proof.
  assert (after_seal.1 = SealReply (Ok snapshot_paths)) as <- by by vm_compute.
  apply surjective_pairing.
Qed.

Lemma snapshot_is_complete_and_frozen_witness :
  let d1 := st_disk (th_state after_seal.2) in
  length snapshot_paths = 3%nat /\
  (th_fatal (thread_run (ex_events five) (ex_thread [])) = false ->
     forall r, In r (received (ex_events five)) -> exists p, In p snapshot_paths /\ holds 100 d1 p r) /\
  ~ In (aw_path (st_writer (th_state after_seal.2))) snapshot_paths /\
  (forall p, In p snapshot_paths -> is_Some (files d1 !! p) /\
     files (st_disk (th_state (thread_run (ex_events many) after_seal.2))) !! p = files d1 !! p).
Proof.
  split; [by vm_compute|].
  apply (snapshot_is_complete_and_frozen seg_root 200 100 1000 (ex_open []).2 ex_meta (ex_thread [])
           (ex_events five) (ex_events many) snapshot_paths after_seal.2).
  - apply ex_opened; apply fine_start.
  - exact five_typed.
  - exact many_typed.
  - exact seal_answers.
Defined.

(** ** A crash *)

(** Each file keeps its durable bytes alone. *)
Definition lose (f : File) : File :=
  {| content := take (Z.to_nat (synced f)) (content f);
     synced := blen (take (Z.to_nat (synced f)) (content f)) |}.
Definition power_cut (d : Disk) : Disk := {| files := lose <$> files d; faults := []; calls := calls d |}.

Lemma power_cut_crashed d :
  map_Forall (fun _ f => 0 <= synced f <= blen (content f)) (files d) -> crashed d (power_cut d).
Proof.
  intros H q. cbn. rewrite lookup_fmap. destruct (files d !! q) as [f|] eqn:E; cbn; constructor.
  specialize (H q f E). cbn in H. unfold crash_file, lose. cbn. split; [apply prefix_take|]. split; [|done].
  unfold blen in *. rewrite length_take. lia.
Qed.


(** ** Refusals *)

Definition big : ContentRecord := ex_record 7 "a payload that the hundred bytes allowed for a record do not hold".

(** Two records too large, and the writer still runs; a record it can store then
    ends it. *)
Lemma refused_records_leave_no_trace_witness :
  th_running (thread_run (map (fun r => Command (Record_ r)) [big; big]) before_seal) = true /\
  thread_run (map (fun r => Command (Record_ r)) [big; big]) before_seal = after_refusals [big; big] before_seal /\
  ([big; big] <> [] -> forall ev, (forall r, ev <> Command (Record_ r)) ->
     th_running (thread_step ev (after_refusals [big; big] before_seal)).2 = false).
Proof.
  split; [by vm_compute|]. apply (refused_records_leave_no_trace [big; big] before_seal).
  - by vm_compute.
  - assert (refused (st_writer (th_state before_seal)) big) by by vm_compute. by repeat constructor.
Defined.

(** ** Retention *)

Definition same_path : Canonicalize := {| canonicalize _ p := Ok p |}.
#[local] Existing Instance same_path.

Definition full_seal : Reply * Thread Meta :=
  thread_step (Command Seal) (thread_run (ex_events (take 8 many)) (ex_thread [])).

Definition full_store : SegmentStore Meta :=
  {| ss_root := seg_root; ss_max_record_bytes := 100; ss_queue := []; ss_writer := Started full_seal.2 |}.

Definition retained (s : SegmentStore Meta) : Z :=
  match ss_writer s with Started t => aw_retained_bytes (st_writer (th_state t)) | _ => 0 end.

(** The deletion of every sealed segment frees the disk, but the writer's count of
    its bytes stays, and with it the refusal of new records. *)
Lemma deletion_keeps_the_count :
  let '(r, s) := delete_segments (reply_paths full_seal.1) full_store in
  (is_err r, retained s =? retained full_store, disk_bytes (store_disk s)) = (false, true, 0).
Proof. by vm_compute. Qed.

(** * A restart of the segment store

    One life of the store of [SegmentExamples]: it runs, loses power with all that
    was not synchronised, and starts again. *)

#[local] Existing Instance row_codec.
#[local] Existing Instance sum_crc.
#[local] Existing Instance unary_names.
#[local] Existing Instance same_path.

(** ** A restart *)

Definition marker_path : Path := seg_root ++ [CONTENT_INDEX_RECOVERY_MARKER].

(** A directory with the marker of an earlier full recovery alone. *)
Definition marked_disk : Disk :=
  {| files := {[marker_path := {| content := marker_text; synced := 3 |}]}; faults := []; calls := 0 |}.

Definition life_open : Result (SegmentStore Meta) * Disk := open seg_root 200 100 1000 marked_disk ex_meta.
Definition life_thread : Thread Meta := thread_of life_open.

#[local] Instance file_eq : EqDecision File.
Proof. solve_decision. Defined.

Lemma marked_start : starts life_open = true /\ files life_open.2 = files marked_disk.
Proof. split; [by vm_compute|]. apply (bool_decide_eq_true_1 (_ = _)). by vm_compute. Qed.

Lemma marked_only p f : files life_open.2 !! p = Some f -> p = marker_path /\ f = {| content := marker_text; synced := 3 |}.
Proof. rewrite (proj2 marked_start). unfold marked_disk. cbn [files]. by intros [<- <-]%lookup_singleton_Some. Qed.

Lemma first_life : life seg_root 200 100 1000 life_open.2 life_thread.
Proof.
  apply (life_first seg_root 200 100 1000 life_open.2 ex_meta life_thread).
  - split.
    + exists marked_disk. pose proof (proj1 marked_start) as Hs. unfold starts, life_thread, thread_of, life_open in *.
      destruct (open _ _ _ _ _ _) as [[[q m c [t|]]|] d]; cbn in *; try done. by eexists.
    + by intros p [f [-> _]%marked_only].
    + unfold disk_bytes. by rewrite (proj2 marked_start).
    + done.
    + done.
    + done.
  - by intros p f [-> _]%marked_only.
  - split; [apply names_later|]. by intros p j [f [-> _]%marked_only].
  - by intros p f [-> _]%marked_only.
Qed.

Definition life_run : WriterState Meta := th_state (thread_run (ex_events five) life_thread).

(** The pipeline after the restart: what was spooled is what was accepted. *)
Definition meta_again (k : Meta) : Meta :=
  {| me_spool := me_spool k; me_channel := []; me_writing := true; me_next_sequence := me_next_sequence k;
     me_durable_sequence := me_durable_sequence k; me_projected_sequence := me_projected_sequence k;
     me_projecting := true; me_projector_sequence := me_projector_sequence k; me_clickhouse := me_clickhouse k;
     me_waiting := []; me_answers := []; me_cuts := []; me_sent := me_spooled k; me_spooled := me_spooled k |}.

Lemma meta_again_ok k :
  sink_ok (meta_again k) /\ rows_durable (meta_again k) = rows_sent (meta_again k) /\
  rows_durable k `prefix_of` rows_durable (meta_again k).
Proof. split; [|done]. unfold sink_ok, meta_sink, sink_inv, meta_again. cbn. by rewrite app_nil_r. Qed.

Lemma marker_stays : files (power_cut (st_disk life_run)) !! marker_path = Some {| content := marker_text; synced := 3 |}.
Proof. by vm_compute. Qed.

Definition second_start : Result (SegmentStore Meta) * Disk :=
  start_segments seg_root 200 100 1000 (power_cut (st_disk life_run)) (meta_again (st_sink life_run)).

Definition store_of (r : Result (SegmentStore Meta)) : SegmentStore Meta :=
  match r with Ok s => s | Err => full_store end.

Lemma starts_inv r : starts r = true -> r = (Ok (store_of r.1), r.2) /\ ss_writer (store_of r.1) = Started (thread_of r).
Proof. unfold starts, thread_of. destruct r as [[[q m c [t|]]|] d]; cbn [fst snd]; [by intros _|discriminate..]. Qed.

Lemma second_starts : starts second_start = true.
Proof. by vm_compute. Qed.

Definition known_name (n : nat) (p : Path) : Prop :=
  p = marker_path \/ Exists (fun j => p = segment_path seg_root j) (seq 0 n).

#[local] Instance known_name_dec n p : Decision (known_name n p).
Proof. unfold known_name. apply _. Defined.

Lemma known_later n p j : known_name n p -> is_segment p = true -> (n <= j)%nat ->
  name_lt (file_name p) (file_name (segment_path seg_root j)).
Proof.
  intros [->|(i & Hi & ->)%Exists_exists] Hs Hj; [done|]. apply list_elem_of_In, in_seq in Hi. apply names_later. lia.
Qed.

Lemma second_files : map_Forall (fun p _ => known_name (calls second_start.2) p) (files second_start.2).
Proof. apply (bool_decide_eq_true_1 (map_Forall _ _)). by vm_compute. Qed.

Lemma second_life : life seg_root 200 100 1000 second_start.2 (thread_of second_start).
Proof.
  destruct (starts_inv _ second_starts) as [Eq Hw].
  eapply (life_restart seg_root 200 100 1000 life_open.2 life_thread (ex_events five)
            (power_cut (st_disk life_run)) (meta_again (st_sink life_run)) (store_of second_start.1)).
  - exact first_life.
  - exact five_typed.
  - apply power_cut_crashed. apply (bool_decide_eq_true_1 (map_Forall _ _)). by vm_compute.
  - done.
  - apply (bool_decide_eq_true_1 (map_Forall (fun _ f => blen (content f) < u64_MAX) _)). by vm_compute.
  - apply meta_again_ok.
  - apply meta_again_ok.
  - apply meta_again_ok.
  - exact (marker_fine _ (power_cut (st_disk life_run)) _ eq_refl marker_stays eq_refl).
  - exact Eq.
  - exact Hw.
  - split; [apply names_later|]. intros p j [f Hf]. apply known_later. exact (second_files p f Hf).
Qed.

