(* ===== verification/Matching.v ===== *)
(** * Pattern matching ([src/src/matching/mod.rs])

    Rules compiled into groups per content view and service, the bounded scan of
    one record with the tail of its stream before it, the manager that swaps rule
    sets, the ingress and the worker of the live matcher, and the scanner of a
    replay.  The engines ([aho_corasick], [regex], [hex]) are parameters. *)

From stdpp Require Import strings.
From S2P Require Import Prelude Model Text Services Disk Sink.

#[export] Instance ContentView_countable : Countable ContentView :=
  inj_countable' (fun v => match v with
                           | TcpRaw => 0 | HttpRequestHeaders => 1 | HttpRequestBody => 2
                           | HttpRequestDecodedBody => 3 | HttpResponseHeaders => 4
                           | HttpResponseBody => 5 | HttpResponseDecodedBody => 6
                           end%nat)
    (fun n => match n with
              | 0 => TcpRaw | 1 => HttpRequestHeaders | 2 => HttpRequestBody
              | 3 => HttpRequestDecodedBody | 4 => HttpResponseHeaders
              | 5 => HttpResponseBody | _ => HttpResponseDecodedBody
              end%nat) ltac:(by intros []).

(** A match: the index of its pattern, where it starts and ends. *)
Record Found := { fd_pattern : nat; fd_start : Z; fd_end : Z }.

(** [AhoCorasick::new] and [find_iter], [Regex::new] and [find_iter],
    [RegexSet::new] and [matches], [hex::decode]. *)
Class Engines := {
  ac_new : list bytes -> Result (bytes -> list Found);
  regex_new : bytes -> Result (bytes -> list (Z * Z));
  regex_set_new : list bytes -> Result (bytes -> list nat);
  hex_decode : list Z -> Result bytes
}.

(** ** Rules *)

Record NewPattern := {
  np_name : bytes;
  np_expression : bytes;
  np_kind : PatternKind;
  np_action : PatternAction;
  np_direction_type : PatternDirection;
  np_service : option bytes;
  np_view : option ContentView
}.

(** [str::chars] of text. *)
Definition str_chars (s : bytes) : list Z := from_utf8_lossy s.

Definition views_of_direction (d : PatternDirection) : list ContentView :=
  match d with
  | Input => [HttpRequestHeaders; HttpRequestBody; HttpRequestDecodedBody]
  | Output => [HttpResponseHeaders; HttpResponseBody; HttpResponseDecodedBody]
  | Both => [TcpRaw; HttpRequestDecodedBody; HttpResponseDecodedBody]
  end.

Definition compatible (d : PatternDirection) (view : ContentView) : bool :=
  match d with
  | Both => true
  | Input => match view with HttpRequestHeaders | HttpRequestBody | HttpRequestDecodedBody => true | _ => false end
  | Output => match view with HttpResponseHeaders | HttpResponseBody | HttpResponseDecodedBody => true | _ => false end
  end.

Definition views_for_pattern (pattern : PatternRevision) : list ContentView :=
  match pr_view pattern with
  | Some view => if compatible (pr_direction_type pattern) view then [view] else []
  | None => views_of_direction (pr_direction_type pattern)
  end.

Definition content_view_bit (view : ContentView) : Z :=
  Z.shiftl 1 match view with
             | TcpRaw => 0
             | HttpRequestHeaders => 1
             | HttpRequestBody => 2
             | HttpRequestDecodedBody => 3
             | HttpResponseHeaders => 4
             | HttpResponseBody => 5
             | HttpResponseDecodedBody => 6
             end.

Definition match_record (p : PatternRevision) (record : ContentRecord) (start end_ : Z) (historical : bool)
  : MatchRecord :=
  {| mr_timestamp := cr_ts_ns record; mr_pattern_id := pr_id p; mr_pattern_revision := pr_revision p;
     mr_flow_id := cr_flow_id record; mr_content_id := cr_id record; mr_view := cr_view record;
     mr_action := pr_action p; mr_offset_start := start; mr_offset_end := end_; mr_historical := historical |}.

(** ** The limits of a scan *)

Record MatchLimiter := {
  per_pattern : gmap (Z * Z) Z;
  candidates : Z;
  max_per_pattern : Z;
  max_total : Z;
  limited : bool
}.

Definition MatchLimiter_new (max_per_pattern max_total : Z) : MatchLimiter :=
  {| per_pattern := ∅; candidates := 0; max_per_pattern := max_per_pattern; max_total := max_total;
     limited := false |}.

Definition exhausted (l : MatchLimiter) : bool := max_total l <=? candidates l.

Definition set_limited (l : MatchLimiter) : MatchLimiter :=
  {| per_pattern := per_pattern l; candidates := candidates l; max_per_pattern := max_per_pattern l;
     max_total := max_total l; limited := true |}.

Definition count_candidate (l : MatchLimiter) : MatchLimiter :=
  {| per_pattern := per_pattern l; candidates := candidates l + 1; max_per_pattern := max_per_pattern l;
     max_total := max_total l; limited := limited l |}.

Definition set_count (key : Z * Z) (n : Z) (l : MatchLimiter) : MatchLimiter :=
  {| per_pattern := <[key := n]> (per_pattern l); candidates := candidates l;
     max_per_pattern := max_per_pattern l; max_total := max_total l; limited := limited l |}.

(** The hits so far and the limiter. *)
Abbreviation Scan := (list MatchRecord * MatchLimiter)%type.

Definition push (pattern : PatternRevision) (hit : MatchRecord) (s : Scan) : Scan :=
  let '(out, l) := s in
  if exhausted l then (out, set_limited l)
  else
    let l := count_candidate l in
    let key := (pr_id pattern, pr_revision pattern) in
    let count := default 0 (per_pattern l !! key) in
    let l := set_count key count l in
    if max_per_pattern l <=? count then (out, set_limited l)
    else (out ++ [hit], set_count key (count + 1) l).

(** A loop over matches with the test at its head: [false] when the scan of the
    group returned early, [None] when the body panicked. *)
Fixpoint each_match {M} (f : M -> Scan -> option Scan) (ms : list M) (s : Scan) : option (bool * Scan) :=
  match ms with
  | [] => Some (true, s)
  | m :: ms => if exhausted s.2 then Some (false, (s.1, set_limited s.2))
               else s ← f m s; each_match f ms s
  end.

(** ** Groups *)

Record CompiledGroup := {
  literal_ac : option (bytes -> list Found);
  literal_meta : list PatternRevision;
  regex_set : option (bytes -> list nat);
  regex_compiled : list (bytes -> list (Z * Z));
  regex_meta : list PatternRevision;
  max_literal_len : Z
}.

Definition required_overlap_group (regex_overlap : Z) (g : CompiledGroup) : Z :=
  let literal := sat_sub (max_literal_len g) 1 in
  match regex_set g with Some _ => Z.max literal regex_overlap | None => literal end.

Section Scanning.
Context (record : ContentRecord) (historical : bool).

(** A hit of the group's [i]th literal at [base]. *)
Definition push_literal (g : CompiledGroup) (base : Z) (m : Found) (s : Scan) : option Scan :=
  meta ← literal_meta g !! fd_pattern m;
  let start := wrapping_add 64 base (fd_start m) in
  let end_ := wrapping_add 64 base (fd_end m) in
  Some (push meta (match_record meta record start end_ historical) s).

(** In the bridge, only what crosses the boundary counts. *)
Definition push_crossing (g : CompiledGroup) (base : Z) (m : Found) (s : Scan) : option Scan :=
  meta ← literal_meta g !! fd_pattern m;
  let start := wrapping_add 64 base (fd_start m) in
  let end_ := wrapping_add 64 base (fd_end m) in
  Some (if (start <? cr_stream_offset record) && (cr_stream_offset record <? end_)
        then push meta (match_record meta record start end_ historical) s else s).

Definition scan_bridge (g : CompiledGroup) (find : bytes -> list Found) (prefix : bytes) (s : Scan)
  : option (bool * Scan) :=
  if negb (is_empty prefix) && (1 <? max_literal_len g) then
    let literal_keep := sat_sub (max_literal_len g) 1 in
    let prefix_start := sat_sub (blen prefix) literal_keep in
    literal_prefix ← slice prefix_start (blen prefix) prefix;
    let bridge_current := Z.min literal_keep (blen (cr_data record)) in
    current ← slice 0 bridge_current (cr_data record);
    let base_offset := sat_sub (cr_stream_offset record) (blen literal_prefix) in
    each_match (push_crossing g base_offset) (find (literal_prefix ++ current)) s
  else Some (true, s).

Definition scan_literals (g : CompiledGroup) (prefix : bytes) (s : Scan) : option (bool * Scan) :=
  match literal_ac g with
  | None => Some (true, s)
  | Some find =>
      '(go, s) ← scan_bridge g find prefix s;
      if go : bool then each_match (push_literal g (cr_stream_offset record)) (find (cr_data record)) s
      else Some (false, s)
  end.

(** A match of the regex [meta]; what ends before the new data was found before. *)
Definition push_regex (meta : PatternRevision) (base : Z) (boundary : option Z) (m : Z * Z) (s : Scan)
  : option Scan :=
  let start := wrapping_add 64 base m.1 in
  let end_ := wrapping_add 64 base m.2 in
  let old := match boundary with Some b => end_ <=? b | None => false end in
  Some (if old then s else push meta (match_record meta record start end_ historical) s).

(** One regex that the set says matches. *)
Fixpoint each_regex (g : CompiledGroup) (combined : bytes) (base : Z) (boundary : option Z)
    (matched : list nat) (s : Scan) : option Scan :=
  match matched with
  | [] => Some s
  | idx :: matched =>
      if exhausted s.2 then Some (s.1, set_limited s.2)
      else
        meta ← regex_meta g !! idx;
        find ← regex_compiled g !! idx;
        '(go, s) ← each_match (push_regex meta base boundary) (find combined) s;
        if go : bool then each_regex g combined base boundary matched s else Some s
  end.

Definition scan_regexes (g : CompiledGroup) (prefix : bytes) (s : Scan) : option Scan :=
  match regex_set g with
  | None => Some s
  | Some matches =>
      if exhausted s.2 then Some (s.1, set_limited s.2)
      else
        let '(combined, base_offset, boundary) :=
          if is_empty prefix then (cr_data record, cr_stream_offset record, None)
          else (prefix ++ cr_data record, sat_sub (cr_stream_offset record) (blen prefix),
                Some (cr_stream_offset record)) in
        each_regex g combined base_offset boundary (matches combined) s
  end.

Definition scan_into (g : CompiledGroup) (prefix : bytes) (s : Scan) : option Scan :=
  '(go, s) ← scan_literals g prefix s;
  if go : bool then scan_regexes g prefix s else Some s.
End Scanning.

(** The patterns of each view and of each service and view. *)
Abbreviation Buckets := (gmap ContentView (list PatternRevision)).

Section Compile.
Context `{Engines}.

(** [decode_binary]: hexadecimal digits, white space and colons apart. *)
Definition decode_binary (v : bytes) : Result bytes :=
  let compact := filter (fun c => negb (is_ascii_whitespace c) && negb (c =? 58) = true) (str_chars v) in
  bytes ← hex_decode compact;
  if is_empty bytes then Err else Ok bytes.

Definition is_ok {A} (r : Result A) : bool := match r with Ok _ => true | Err => false end.

Definition validate_new_pattern (p : NewPattern) : Result unit :=
  if is_empty (trim (str_chars (np_name p))) then Err
  else if is_empty (np_expression p) then Err
  else match np_kind p with
       | Model.Binary => _ ← decode_binary (np_expression p); Ok tt
       | Model.Regex => _ ← regex_new (np_expression p); Ok tt
       | Model.Text => Ok tt
       end.

(** The tables of a group under construction. *)
Record Tables := {
  literal_bytes : list bytes;
  tb_literal_meta : list PatternRevision;
  regexes : list bytes;
  tb_regex_meta : list PatternRevision;
  tb_max_literal_len : Z
}.

Definition no_tables : Tables :=
  {| literal_bytes := []; tb_literal_meta := []; regexes := []; tb_regex_meta := []; tb_max_literal_len := 0 |}.

Definition add_literal (bytes : bytes) (p : PatternRevision) (t : Tables) : Tables :=
  {| literal_bytes := literal_bytes t ++ [bytes]; tb_literal_meta := tb_literal_meta t ++ [p];
     regexes := regexes t; tb_regex_meta := tb_regex_meta t;
     tb_max_literal_len := Z.max (tb_max_literal_len t) (blen bytes) |}.

Definition add_regex (p : PatternRevision) (t : Tables) : Tables :=
  {| literal_bytes := literal_bytes t; tb_literal_meta := tb_literal_meta t;
     regexes := regexes t ++ [pr_expression p]; tb_regex_meta := tb_regex_meta t ++ [p];
     tb_max_literal_len := tb_max_literal_len t |}.

Definition add_pattern (p : PatternRevision) (t : Tables) : Result Tables :=
  match pr_kind p with
  | Model.Text => Ok (add_literal (pr_expression p) p t)
  | Model.Binary => bytes ← decode_binary (pr_expression p); Ok (add_literal bytes p t)
  | Model.Regex => Ok (add_regex p t)
  end.

Fixpoint add_patterns (ps : list PatternRevision) (t : Tables) : Result Tables :=
  match ps with [] => Ok t | p :: ps => t ← add_pattern p t; add_patterns ps t end.

Fixpoint map_result {A B} (f : A -> Result B) (l : list A) : Result (list B) :=
  match l with [] => Ok [] | a :: l => b ← f a; bs ← map_result f l; Ok (b :: bs) end.

Definition option_result {A B} (f : A -> Result B) (o : option A) : Result (option B) :=
  match o with None => Ok None | Some a => b ← f a; Ok (Some b) end.

Definition nonempty {A} (l : list A) : option (list A) := if is_empty l then None else Some l.

Definition CompiledGroup_compile (patterns : list PatternRevision) : Result CompiledGroup :=
  t ← add_patterns patterns no_tables;
  ac ← option_result ac_new (nonempty (literal_bytes t));
  set ← option_result regex_set_new (nonempty (regexes t));
  compiled ← map_result regex_new (regexes t);
  Ok {| literal_ac := ac; literal_meta := tb_literal_meta t; regex_set := set;
        regex_compiled := compiled; regex_meta := tb_regex_meta t;
        max_literal_len := tb_max_literal_len t |}.

(** ** Rule sets *)

Record CompiledPatternSet := {
  global_groups : gmap ContentView CompiledGroup;
  service_groups : gmap bytes (gmap ContentView CompiledGroup);
  ignore_revisions : list (Z * Z)
}.

Definition is_ignore (p : PatternRevision) : bool :=
  pr_enabled p && match pr_action p with Ignore => true | Find => false end.

Definition add_to (view : ContentView) (p : PatternRevision) (b : Buckets) : Buckets :=
  <[view := default [] (b !! view) ++ [p]]> b.

Definition add_to_buckets (p : PatternRevision) (b : Buckets * gmap bytes Buckets) (view : ContentView)
  : Buckets * gmap bytes Buckets :=
  match pr_service p with
  | Some service => (b.1, <[service := add_to view p (default ∅ (b.2 !! service))]> b.2)
  | None => (add_to view p b.1, b.2)
  end.

Definition bucket_patterns (patterns : list PatternRevision) : Buckets * gmap bytes Buckets :=
  fold_left (fun b p => fold_left (add_to_buckets p) (views_for_pattern p) b)
    (filter (fun p => pr_enabled p = true) patterns) (∅, ∅).

(** The map of the results, or the first error. *)
Definition map_values {K A B} `{Countable K} (f : A -> Result B) (m : gmap K A) : Result (gmap K B) :=
  l ← map_result (fun kv => b ← f kv.2; Ok (kv.1, b)) (map_to_list m);
  Ok (list_to_map l).

Definition CompiledPatternSet_compile (patterns : list PatternRevision) : Result CompiledPatternSet :=
  let '(global_buckets, service_buckets) := bucket_patterns patterns in
  globals ← map_values CompiledGroup_compile global_buckets;
  services ← map_values (map_values CompiledGroup_compile) service_buckets;
  Ok {| global_groups := globals; service_groups := services;
        ignore_revisions := map (fun p => (pr_id p, pr_revision p)) (filter (fun p => is_ignore p = true) patterns) |}.
End Compile.

Definition views_mask (views : list ContentView) (mask : Z) : Z :=
  fold_left (fun m v => Z.lor m (content_view_bit v)) views mask.

Definition interest_mask (s : CompiledPatternSet) : Z :=
  fold_left (fun m groups => views_mask (map fst (map_to_list groups)) m)
    (map snd (map_to_list (service_groups s)))
    (views_mask (map fst (map_to_list (global_groups s))) 0).

Definition groups_for (s : CompiledPatternSet) (record : ContentRecord)
  : option CompiledGroup * option CompiledGroup :=
  (global_groups s !! cr_view record,
   name ← cr_service record; groups ← service_groups s !! name; groups !! cr_view record).

Definition is_some {A} (o : option A) : bool := match o with Some _ => true | None => false end.

Definition is_interested (s : CompiledPatternSet) (record : ContentRecord) : bool :=
  let '(global, service) := groups_for s record in is_some global || is_some service.

Definition required_overlap (s : CompiledPatternSet) (record : ContentRecord) (regex_overlap : Z) : Z :=
  let '(global, service) := groups_for s record in
  foldr (fun g m => Z.max (required_overlap_group regex_overlap g) m) 0
    (option_list global ++ option_list service).

Record ScanOutcome := { hits : list MatchRecord; so_limited : bool }.

Definition scan_group (record : ContentRecord) (historical : bool) (prefix : bytes)
    (g : option CompiledGroup) (s : Scan) : option Scan :=
  match g with Some g => scan_into record historical g prefix s | None => Some s end.

Definition scan_bounded (set : CompiledPatternSet) (record : ContentRecord) (prefix : bytes)
    (historical : bool) (max_per_pattern max_total : Z) : option ScanOutcome :=
  let '(global, service) := groups_for set record in
  if negb (is_some global) && negb (is_some service) then Some {| hits := []; so_limited := false |}
  else
    s ← scan_group record historical prefix global ([], MatchLimiter_new max_per_pattern max_total);
    s ← (if negb (exhausted s.2) then scan_group record historical prefix service s
         else Some (if is_some service then (s.1, set_limited s.2) else s));
    Some {| hits := s.1; so_limited := limited s.2 |}.

Definition scan (set : CompiledPatternSet) (record : ContentRecord) (prefix : bytes) (historical : bool)
  : option (list MatchRecord) :=
  o ← scan_bounded set record prefix historical u64_MAX u64_MAX; Some (hits o).
