(* ===== verification/Matcher.v ===== *)
(** * The live matcher and the replay scanner ([src/src/matching/mod.rs])

    The manager that installs rule sets, the ingress that admits records, the
    worker loop with the tails of its streams, and the scanner of a replay.  A
    worker is a function of its state, one message and the clock readings it
    takes; the tables of patterns are behind a class. *)

From stdpp Require Import strings.
From S2P Require Import Prelude Model Text Services Disk Sink Matching.

#[export] Instance Direction_countable : Countable Direction :=
  inj_countable' (fun d => match d with AToB => true | BToA => false end)
    (fun b : bool => if b then AToB else BToA) ltac:(by intros []).

(** ** The tail of a stream *)

Record StreamKey := { sk_flow_id : FlowId; sk_direction : Direction; sk_view : ContentView }.

#[export] Instance StreamKey_eq_dec : EqDecision StreamKey.
Proof. solve_decision. Defined.

#[export] Instance StreamKey_countable : Countable StreamKey :=
  inj_countable' (fun k => (sk_flow_id k, sk_direction k, sk_view k))
    (fun t => {| sk_flow_id := t.1.1; sk_direction := t.1.2; sk_view := t.2 |}) ltac:(by intros []).

Definition stream_key (record : ContentRecord) : StreamKey :=
  {| sk_flow_id := cr_flow_id record; sk_direction := cr_direction record; sk_view := cr_view record |}.

Record TailState := { t_data : bytes; t_end_offset : Z; t_generation : Z }.

Definition prefix_for (t : TailState) (record : ContentRecord) (generation : Z) : bytes :=
  if (t_generation t =? generation) && (t_end_offset t =? cr_stream_offset record) then t_data t else [].

Definition build_tail (previous data : bytes) (keep : Z) : option bytes :=
  if keep =? 0 then Some []
  else if keep <=? blen data then slice (blen data - keep) (blen data) data
  else
    let previous_keep := Z.min (sat_sub keep (blen data)) (blen previous) in
    kept ← slice (sat_sub (blen previous) previous_keep) (blen previous) previous;
    Some (kept ++ data).

Abbreviation Tails := (gmap StreamKey TailState).

(** [tails.get(&key).map(prefix_for).unwrap_or(&\[\])]. *)
Definition prefix_in (tails : Tails) (record : ContentRecord) (generation : Z) : bytes :=
  match tails !! stream_key record with Some t => prefix_for t record generation | None => [] end.

(** The tail a scanned record leaves, where the rules need one. *)
Definition keep_tail (tails : Tails) (record : ContentRecord) (tail : bytes) (generation keep : Z)
  : option Tails :=
  if keep =? 0 then Some (delete (stream_key record) tails)
  else
    next_tail ← build_tail tail (cr_data record) keep;
    Some (<[stream_key record := {| t_data := next_tail;
                                    t_end_offset := sat_add (cr_stream_offset record) (blen (cr_data record));
                                    t_generation := generation |}]> tails).

(** ** The rules in force *)

(** The calls of [PostgresStore] the manager makes. *)
Class PatternDb (D : Type) := {
  list_patterns : Eff D (list PatternRevision);
  list_enabled_patterns : Eff D (list PatternRevision);
  create_pattern : NewPattern -> Eff D PatternRevision;
  update_pattern : Z -> NewPattern -> bool -> Eff D PatternRevision;
  set_pattern_enabled : Z -> bool -> Eff D PatternRevision;
  delete_pattern : Z -> Eff D bool
}.

Record PatternManager (D : Type) := {
  pm_postgres : D;
  pm_active : CompiledPatternSet;
  pm_interest_mask : Z;
  pm_generation : Z
}.
Arguments pm_postgres {D} _.
Arguments pm_active {D} _.
Arguments pm_interest_mask {D} _.
Arguments pm_generation {D} _.

Section Manager.
Context {D : Type} `{PatternDb D} `{Engines}.
Implicit Types m : PatternManager D.

Definition set_postgres (d : D) m : PatternManager D :=
  {| pm_postgres := d; pm_active := pm_active m; pm_interest_mask := pm_interest_mask m;
     pm_generation := pm_generation m |}.

Definition postgres {A} (e : Eff D A) : Eff (PatternManager D) A := focus pm_postgres set_postgres e.

Definition first_set (compiled : CompiledPatternSet) : Eff D (PatternManager D) :=
  reads (fun d => {| pm_postgres := d; pm_active := compiled; pm_interest_mask := interest_mask compiled;
                     pm_generation := 1 |}).

Definition load : Eff D (PatternManager D) :=
  patterns ← list_enabled_patterns;
  compiled ← lift (CompiledPatternSet_compile patterns);
  first_set compiled.

Definition manager_list : Eff (PatternManager D) (list PatternRevision) := postgres list_patterns.

Definition prepare_rebuild : Eff (PatternManager D) CompiledPatternSet :=
  patterns ← postgres list_enabled_patterns;
  lift (CompiledPatternSet_compile patterns).

Definition install_prepared (prepared : CompiledPatternSet) m : PatternManager D :=
  {| pm_postgres := pm_postgres m; pm_active := prepared; pm_interest_mask := interest_mask prepared;
     pm_generation := wrapping_add 64 (pm_generation m) 1 |}.

Definition rebuild : Eff (PatternManager D) unit :=
  prepared ← prepare_rebuild;
  modify (install_prepared prepared).

Definition manager_create (new_pattern : NewPattern) : Eff (PatternManager D) PatternRevision :=
  _ ← lift (validate_new_pattern new_pattern);
  created ← postgres (create_pattern new_pattern);
  _ ← rebuild;
  mret created.

Definition manager_delete (id : Z) : Eff (PatternManager D) bool :=
  deleted ← postgres (delete_pattern id);
  _ ← (if deleted : bool then rebuild else mret tt);
  mret deleted.

Definition manager_set_enabled (id : Z) (enabled : bool) : Eff (PatternManager D) PatternRevision :=
  p ← postgres (set_pattern_enabled id enabled);
  _ ← rebuild;
  mret p.

Definition manager_update (id : Z) (new_pattern : NewPattern) (enabled : bool)
  : Eff (PatternManager D) PatternRevision :=
  _ ← lift (validate_new_pattern new_pattern);
  p ← postgres (update_pattern id new_pattern enabled);
  _ ← rebuild;
  mret p.

Definition active_ignore_revisions m : list (Z * Z) := ignore_revisions (pm_active m).
End Manager.

(** ** The ingress *)

Inductive MatcherWork :=
  | Content (record : ContentRecord) (snapshot : CompiledPatternSet) (generation : Z)
  | FlowClosed (id : FlowId).

(** A bounded channel; [wq_open] tells whether its worker still receives. *)
Record WorkQueue := { wq_items : list MatcherWork; wq_capacity : nat; wq_open : bool }.

(** The counters of [Metrics] the ingress and the workers change. *)
Record MatchMetrics := {
  match_queue_depth : Z;
  match_queue_high_watermark : Z;
  matcher_queue_backpressure : Z;
  matcher_queue_drops : Z;
  matcher_housekeeping_drops : Z;
  matcher_bytes : Z;
  matcher_matches : Z;
  matcher_match_limit_events : Z
}.

Definition match_enqueued (x : MatchMetrics) : MatchMetrics :=
  {| match_queue_depth := wrapping_add 64 (match_queue_depth x) 1;
     match_queue_high_watermark := Z.max (match_queue_high_watermark x) (sat_add (match_queue_depth x) 1);
     matcher_queue_backpressure := matcher_queue_backpressure x; matcher_queue_drops := matcher_queue_drops x;
     matcher_housekeeping_drops := matcher_housekeeping_drops x; matcher_bytes := matcher_bytes x;
     matcher_matches := matcher_matches x; matcher_match_limit_events := matcher_match_limit_events x |}.

Definition match_dequeued (x : MatchMetrics) : MatchMetrics :=
  {| match_queue_depth := sat_sub (match_queue_depth x) 1;
     match_queue_high_watermark := match_queue_high_watermark x;
     matcher_queue_backpressure := matcher_queue_backpressure x; matcher_queue_drops := matcher_queue_drops x;
     matcher_housekeeping_drops := matcher_housekeeping_drops x; matcher_bytes := matcher_bytes x;
     matcher_matches := matcher_matches x; matcher_match_limit_events := matcher_match_limit_events x |}.

(** Additions to the other counters. *)
Definition add_counters (backpressure drops housekeeping nbytes matches limits : Z) (x : MatchMetrics)
  : MatchMetrics :=
  {| match_queue_depth := match_queue_depth x; match_queue_high_watermark := match_queue_high_watermark x;
     matcher_queue_backpressure := wrapping_add 64 (matcher_queue_backpressure x) backpressure;
     matcher_queue_drops := wrapping_add 64 (matcher_queue_drops x) drops;
     matcher_housekeeping_drops := wrapping_add 64 (matcher_housekeeping_drops x) housekeeping;
     matcher_bytes := wrapping_add 64 (matcher_bytes x) nbytes;
     matcher_matches := wrapping_add 64 (matcher_matches x) matches;
     matcher_match_limit_events := wrapping_add 64 (matcher_match_limit_events x) limits |}.

Record MatcherIngress := {
  shard_txs : list WorkQueue;
  in_interest_mask : Z;
  in_active : CompiledPatternSet;
  in_generation : Z;
  in_metrics : MatchMetrics
}.

(** The ingress of [worker_count] fresh workers (at least one) that share a total
    capacity; the threads are the worker loops below. *)
Definition spawn_live_matcher {D} (manager : PatternManager D) (worker_count queue_capacity : nat)
    (metrics : MatchMetrics) : MatcherIngress :=
  let worker_count := Nat.max worker_count 1 in
  let per_worker_capacity := Nat.max (queue_capacity / worker_count) 1 in
  {| shard_txs := replicate worker_count {| wq_items := []; wq_capacity := per_worker_capacity; wq_open := true |};
     in_interest_mask := pm_interest_mask manager; in_active := pm_active manager;
     in_generation := pm_generation manager; in_metrics := metrics |}.

Definition with_queue (i : nat) (q : WorkQueue) (x : MatchMetrics) (g : MatcherIngress) : MatcherIngress :=
  {| shard_txs := <[i := q]> (shard_txs g); in_interest_mask := in_interest_mask g; in_active := in_active g;
     in_generation := in_generation g; in_metrics := x |}.

Definition is_interested_view (g : MatcherIngress) (view : ContentView) : bool :=
  negb (Z.land (in_interest_mask g) (content_view_bit view) =? 0).

Definition prepare_content (g : MatcherIngress) (record : ContentRecord) : option (FlowId * MatcherWork) :=
  if Z.land (in_interest_mask g) (content_view_bit (cr_view record)) =? 0 then None
  else if negb (is_interested (in_active g) record) then None
  else Some (cr_flow_id record, Content record (in_active g) (in_generation g)).

Definition push_work (work : MatcherWork) (q : WorkQueue) : WorkQueue :=
  {| wq_items := wq_items q ++ [work]; wq_capacity := wq_capacity q; wq_open := wq_open q |}.

Inductive TrySend := Sent (q : WorkQueue) | Full | Disconnected.

Definition try_send (work : MatcherWork) (q : WorkQueue) : TrySend :=
  if negb (wq_open q) then Disconnected
  else if (length (wq_items q) <? wq_capacity q)%nat then Sent (push_work work q)
  else Full.

(** [id.as_u128() as usize % shards]; [None] when there are none. *)
Definition shard_index (id : FlowId) (shards : list WorkQueue) : option nat :=
  if is_empty shards then None else Some (Z.to_nat (wrap 64 id mod blen shards)).

(** An admission is done with a result, or blocks on a full queue. *)
Inductive Admission := Done (accepted : bool) | Blocked (i : nat) (work : MatcherWork).

Definition send_content (record : ContentRecord) (g : MatcherIngress) : option (Admission * MatcherIngress) :=
  match prepare_content g record with
  | None => Some (Done true, g)
  | Some (flow_id, work) =>
      idx ← shard_index flow_id (shard_txs g);
      q ← shard_txs g !! idx;
      Some match try_send work q with
           | Sent q => (Done true, with_queue idx q (match_enqueued (in_metrics g)) g)
           | Full => (Blocked idx work, with_queue idx q (add_counters 1 0 0 0 0 0 (in_metrics g)) g)
           | Disconnected => (Done false, with_queue idx q (add_counters 0 1 0 0 0 0 (in_metrics g)) g)
           end
  end.

(** The blocking [send] looks again. *)
Definition resume_send (i : nat) (work : MatcherWork) (g : MatcherIngress)
  : option (Admission * MatcherIngress) :=
  q ← shard_txs g !! i;
  Some match try_send work q with
       | Sent q => (Done true, with_queue i q (match_enqueued (in_metrics g)) g)
       | Full => (Blocked i work, g)
       | Disconnected => (Done false, with_queue i q (add_counters 0 1 0 0 0 0 (in_metrics g)) g)
       end.

Definition try_flow_closed (flow_id : FlowId) (g : MatcherIngress) : option (bool * MatcherIngress) :=
  idx ← shard_index flow_id (shard_txs g);
  q ← shard_txs g !! idx;
  Some match try_send (FlowClosed flow_id) q with
       | Sent q => (true, with_queue idx q (match_enqueued (in_metrics g)) g)
       | Full | Disconnected => (false, with_queue idx q (add_counters 0 0 1 0 0 0 (in_metrics g)) g)
       end.

(** ** The worker *)

Record MatchLimits := { overlap_limit : Z; max_hits_per_pattern : Z; max_hits_per_record : Z }.

Record MatcherWorker := {
  tails : Tails;
  flow_tail_keys : gmap FlowId (list StreamKey);
  flow_last_seen : gmap FlowId Z;
  processed_records : Z
}.

Definition new_worker : MatcherWorker :=
  {| tails := ∅; flow_tail_keys := ∅; flow_last_seen := ∅; processed_records := 0 |}.

Definition set_tails (x : Tails) (w : MatcherWorker) : MatcherWorker :=
  {| tails := x; flow_tail_keys := flow_tail_keys w; flow_last_seen := flow_last_seen w;
     processed_records := processed_records w |}.

Record LiveEvent := { le_flow_id : FlowId; le_pattern_id : option Z; le_timestamp : Z; le_service : option bytes }.

(** What a worker shares with the rest: the metadata sink, the counters and the
    live events sent. *)
Record MatchWorld (S : Type) := { mw_sink : S; mw_metrics : MatchMetrics; mw_events : list LiveEvent }.
Arguments mw_sink {S} _.
Arguments mw_metrics {S} _.
Arguments mw_events {S} _.

Definition drop_tails (keys : list StreamKey) (m : Tails) : Tails := foldl (fun m key => delete key m) m keys.

(** [flow_last_seen.remove], and the tails of the flow with its keys. *)
Definition forget_flow (id : FlowId) (w : MatcherWorker) : MatcherWorker :=
  {| tails := match flow_tail_keys w !! id with Some keys => drop_tails keys (tails w) | None => tails w end;
     flow_tail_keys := delete id (flow_tail_keys w);
     flow_last_seen := delete id (flow_last_seen w);
     processed_records := processed_records w |}.

(** The clock is nanoseconds. *)
Definition FLOW_TAIL_AGE : Z := 120 * 10 ^ 9.

Definition stale_flows (now : Z) (seen : gmap FlowId Z) : list FlowId :=
  map fst (filter (fun e => FLOW_TAIL_AGE <= sat_sub now e.2) (map_to_list seen)).

Definition note_record (id : FlowId) (now : Z) (w : MatcherWorker) : MatcherWorker :=
  {| tails := tails w; flow_tail_keys := flow_tail_keys w; flow_last_seen := <[id := now]> (flow_last_seen w);
     processed_records := wrapping_add 64 (processed_records w) 1 |}.

(** Every 4096 records the flows not seen for two minutes go. *)
Definition evict (now : Z) (w : MatcherWorker) : MatcherWorker :=
  if Z.land (processed_records w) 4095 =? 0
  then foldl (fun w id => forget_flow id w) w (stale_flows now (flow_last_seen w))
  else w.

(** A key new to [tails] is noted under its flow, once. *)
Definition track_key (record : ContentRecord) (w : MatcherWorker) : MatcherWorker :=
  let key := stream_key record in
  let keys := default [] (flow_tail_keys w !! cr_flow_id record) in
  if is_some (tails w !! key) || existsb (fun tracked => bool_decide (tracked = key)) keys then w
  else {| tails := tails w; flow_tail_keys := <[cr_flow_id record := keys ++ [key]]> (flow_tail_keys w);
          flow_last_seen := flow_last_seen w; processed_records := processed_records w |}.

Section Worker.
Context {S : Type} `{MetadataSink S}.
Implicit Types x : MatchWorld S.

Definition count_scan (nbytes matches limits : Z) x : MatchWorld S :=
  {| mw_sink := mw_sink x; mw_metrics := add_counters 0 0 0 nbytes matches limits (mw_metrics x);
     mw_events := mw_events x |}.

Definition new_match (service : option bytes) (hit : MatchRecord) : LiveEvent :=
  {| le_flow_id := mr_flow_id hit; le_pattern_id := Some (mr_pattern_id hit);
     le_timestamp := mr_timestamp hit; le_service := service |}.

(** [false] when the sink is gone and the worker returns. *)
Fixpoint send_hits (service : option bytes) (hs : list MatchRecord) x : bool * MatchWorld S :=
  match hs with
  | [] => (true, x)
  | hit :: hs =>
      let x := count_scan 0 1 0 x in
      let '(r, s) := send (MetaMatch hit) (mw_sink x) in
      match r with
      | Err => (false, {| mw_sink := s; mw_metrics := mw_metrics x; mw_events := mw_events x |})
      | Ok _ =>
          send_hits service hs
            {| mw_sink := s; mw_metrics := mw_metrics x;
               mw_events := mw_events x ++ match mr_action hit with
                                           | Find => [new_match service hit]
                                           | Ignore => []
                                           end |}
      end
  end.

(** One record: [Some (false, _)] when the worker returns, [None] when it panics. *)
Definition worker_content (cfg : MatchLimits) (seen now : Z) (record : ContentRecord)
    (snapshot : CompiledPatternSet) (generation : Z) (w : MatcherWorker) x
  : option (bool * MatcherWorker * MatchWorld S) :=
  let w := evict now (note_record (cr_flow_id record) seen w) in
  if negb (is_interested snapshot record) then
    Some (true, set_tails (delete (stream_key record) (tails w)) w, x)
  else
    let x := count_scan (blen (cr_data record)) 0 0 x in
    let keep := required_overlap snapshot record (overlap_limit cfg) in
    let tail := prefix_in (tails w) record generation in
    o ← scan_bounded snapshot record tail false (max_hits_per_pattern cfg) (max_hits_per_record cfg);
    let x := if so_limited o then count_scan 0 0 1 x else x in
    let '(go, x) := send_hits (cr_service record) (hits o) x in
    if negb go then Some (false, w, x)
    else
      next ← keep_tail (tails w) record tail generation keep;
      let w := if keep =? 0 then w else track_key record w in
      Some (true, set_tails next w, x).

Definition worker_turn (cfg : MatchLimits) (seen now : Z) (work : MatcherWork) (w : MatcherWorker) x
  : option (bool * MatcherWorker * MatchWorld S) :=
  let x := {| mw_sink := mw_sink x; mw_metrics := match_dequeued (mw_metrics x); mw_events := mw_events x |} in
  match work with
  | FlowClosed id => Some (true, forget_flow id w, x)
  | Content record snapshot generation => worker_content cfg seen now record snapshot generation w x
  end.

(** The loop over the messages received, each with its two clock readings. *)
Fixpoint matcher_worker_loop (cfg : MatchLimits) (msgs : list (MatcherWork * (Z * Z))) (w : MatcherWorker) x
  : option (MatcherWorker * MatchWorld S) :=
  match msgs with
  | [] => Some (w, x)
  | (work, (seen, now)) :: msgs =>
      '(go, w, x) ← worker_turn cfg seen now work w x;
      if go : bool then matcher_worker_loop cfg msgs w x else Some (w, x)
  end.
End Worker.

(** ** The scanner of a replay *)

Record ReplayScanner := {
  rs_patterns : CompiledPatternSet;
  rs_tails : Tails;
  rs_last_seen_ns : gmap StreamKey Z;
  rs_limits : MatchLimits;
  rs_scanned_records : Z
}.

Definition ReplayScanner_new `{Engines} (patterns : list PatternRevision) (limits : MatchLimits)
  : Result ReplayScanner :=
  compiled ← CompiledPatternSet_compile patterns;
  Ok {| rs_patterns := compiled; rs_tails := ∅; rs_last_seen_ns := ∅; rs_limits := limits;
        rs_scanned_records := 0 |}.

Definition stale_keys (cutoff : Z) (seen : gmap StreamKey Z) : list StreamKey :=
  map fst (filter (fun e => e.2 < cutoff) (map_to_list seen)).

Definition rs_evict (ts_ns : Z) (s : ReplayScanner) : ReplayScanner :=
  if rs_scanned_records s mod 4096 =? 0 then
    let stale := stale_keys (sat_sub ts_ns 300000000000) (rs_last_seen_ns s) in
    {| rs_patterns := rs_patterns s; rs_tails := drop_tails stale (rs_tails s);
       rs_last_seen_ns := foldl (fun m key => delete key m) (rs_last_seen_ns s) stale;
       rs_limits := rs_limits s; rs_scanned_records := rs_scanned_records s |}
  else s.

Definition scan_record (record : ContentRecord) (s : ReplayScanner) : option (ScanOutcome * ReplayScanner) :=
  let key := stream_key record in
  if negb (is_interested (rs_patterns s) record) then
    Some ({| hits := []; so_limited := false |},
          {| rs_patterns := rs_patterns s; rs_tails := delete key (rs_tails s);
             rs_last_seen_ns := delete key (rs_last_seen_ns s); rs_limits := rs_limits s;
             rs_scanned_records := rs_scanned_records s |})
  else
    let limits := rs_limits s in
    let keep := required_overlap (rs_patterns s) record (overlap_limit limits) in
    let tail := prefix_in (rs_tails s) record 0 in
    o ← scan_bounded (rs_patterns s) record tail true (max_hits_per_pattern limits) (max_hits_per_record limits);
    next ← keep_tail (rs_tails s) record tail 0 keep;
    Some (o, rs_evict (cr_ts_ns record)
               {| rs_patterns := rs_patterns s; rs_tails := next;
                  rs_last_seen_ns := <[key := cr_ts_ns record]> (rs_last_seen_ns s); rs_limits := limits;
                  rs_scanned_records := wrapping_add 64 (rs_scanned_records s) 1 |}).

Fixpoint scan_records (records : list ContentRecord) (s : ReplayScanner)
  : option (list ScanOutcome * ReplayScanner) :=
  match records with
  | [] => Some ([], s)
  | r :: records =>
      '(o, s) ← scan_record r s;
      '(os, s) ← scan_records records s;
      Some (o :: os, s)
  end.
