(* ===== verification/ScanSpec.v ===== *)
(** * What a scan finds

    The scan of one record as a list of candidates, without limiter or early
    exits, and the lemmas by which [scan_bounded] is that list cut by the two
    limits. *)

From stdpp Require Import strings.
From S2P Require Import Prelude Model Text Services Disk Sink Matching.

(** A candidate: a pattern and its match. *)
Abbreviation Candidate := (PatternRevision * MatchRecord)%type.

Definition rev_key (p : PatternRevision) : Z * Z := (pr_id p, pr_revision p).

(** The last [n] elements. *)
Definition last_n {A} (n : Z) (l : list A) : list A := drop (Z.to_nat (sat_sub (blen l) n)) l.

(** ** The reference scan *)

Section Reference.
Context (record : ContentRecord) (historical : bool).

Definition candidate (p : PatternRevision) (base : Z) (lo hi : Z) : Candidate :=
  (p, match_record p record (wrapping_add 64 base lo) (wrapping_add 64 base hi) historical).

Definition literal_candidate (g : CompiledGroup) (base : Z) (m : Found) : option Candidate :=
  (fun p => candidate p base (fd_start m) (fd_end m)) <$> literal_meta g !! fd_pattern m.

Definition crosses (c : Candidate) : bool :=
  (mr_offset_start c.2 <? cr_stream_offset record) && (cr_stream_offset record <? mr_offset_end c.2).

Definition keep_crossing (c : Candidate) : option Candidate := if crosses c then Some c else None.

Definition bridge_of (g : CompiledGroup) (prefix : bytes) : bytes :=
  last_n (max_literal_len g - 1) prefix ++ take (Z.to_nat (max_literal_len g - 1)) (cr_data record).

Definition bridge_base (g : CompiledGroup) (prefix : bytes) : Z :=
  sat_sub (cr_stream_offset record) (blen (last_n (max_literal_len g - 1) prefix)).

Definition bridge_candidates (g : CompiledGroup) (find : bytes -> list Found) (prefix : bytes) : list Candidate :=
  if negb (is_empty prefix) && (1 <? max_literal_len g)
  then omap (fun m => literal_candidate g (bridge_base g prefix) m ≫= keep_crossing) (find (bridge_of g prefix))
  else [].

Definition literal_candidates (g : CompiledGroup) (prefix : bytes) : list Candidate :=
  match literal_ac g with
  | None => []
  | Some find => bridge_candidates g find prefix ++
                 omap (literal_candidate g (cr_stream_offset record)) (find (cr_data record))
  end.

Definition is_old (boundary : option Z) (c : Candidate) : bool :=
  match boundary with Some b => mr_offset_end c.2 <=? b | None => false end.

Definition new_candidate (p : PatternRevision) (base : Z) (boundary : option Z) (m : Z * Z) : option Candidate :=
  let c := candidate p base m.1 m.2 in if is_old boundary c then None else Some c.

(** The window a regex sees, where it starts, and where the new data start. *)
Definition regex_window (prefix : bytes) : bytes * Z * option Z :=
  if is_empty prefix then (cr_data record, cr_stream_offset record, None)
  else (prefix ++ cr_data record, sat_sub (cr_stream_offset record) (blen prefix), Some (cr_stream_offset record)).

Definition one_regex (g : CompiledGroup) (prefix : bytes) (idx : nat) : list Candidate :=
  let '(window, base, boundary) := regex_window prefix in
  match regex_meta g !! idx, regex_compiled g !! idx with
  | Some p, Some find => omap (new_candidate p base boundary) (find window)
  | _, _ => []
  end.

Definition regex_candidates (g : CompiledGroup) (prefix : bytes) : list Candidate :=
  match regex_set g with
  | None => []
  | Some matches => flat_map (one_regex g prefix) (matches (regex_window prefix).1.1)
  end.

Definition group_candidates (prefix : bytes) (g : CompiledGroup) : list Candidate :=
  literal_candidates g prefix ++ regex_candidates g prefix.

Definition scan_candidates (set : CompiledPatternSet) (prefix : bytes) : list Candidate :=
  let '(global, service) := groups_for set record in
  flat_map (group_candidates prefix) (option_list global ++ option_list service).
End Reference.

(** ** The reference limits: of the first [mt] candidates, the first [mp] of each pattern *)

Definition earlier (p : PatternRevision) (cs : list Candidate) : Z :=
  blen (filter (fun c => rev_key c.1 = rev_key p) cs).

Fixpoint capped (mp : Z) (seen cs : list Candidate) : list MatchRecord :=
  match cs with
  | [] => []
  | c :: cs => (if earlier c.1 seen <? mp then [c.2] else []) ++ capped mp (seen ++ [c]) cs
  end.

Definition within_limits (mp mt : Z) (cs : list Candidate) : list MatchRecord :=
  capped mp [] (take (Z.to_nat mt) cs).

(** ** Groups whose tables fit *)

Definition group_fits (g : CompiledGroup) : Prop :=
  (forall find w m, literal_ac g = Some find -> m ∈ find w -> is_Some (literal_meta g !! fd_pattern m)) /\
  (forall matches w i, regex_set g = Some matches -> i ∈ matches w ->
     is_Some (regex_meta g !! i) /\ is_Some (regex_compiled g !! i)).

(** ** The scan with its early exits, against a fold of [push] *)

Definition push_all (cs : list Candidate) (s : Scan) : Scan := fold_left (fun s c => push c.1 c.2 s) cs s.

(** The same scan up to the flag, which the code may set where the fold does not. *)
Definition same_scan (s t : Scan) : Prop :=
  s.1 = t.1 /\ per_pattern s.2 = per_pattern t.2 /\ candidates s.2 = candidates t.2 /\
  max_per_pattern s.2 = max_per_pattern t.2 /\ max_total s.2 = max_total t.2 /\
  (limited t.2 = true -> limited s.2 = true).

Lemma same_scan_refl s : same_scan s s.
Proof. done. Qed.

Lemma same_scan_exhausted s t : same_scan s t -> exhausted s.2 = exhausted t.2.
Proof. intros (_&_&Hc&_&Hm&_). unfold exhausted. by rewrite Hc, Hm. Qed.

Lemma push_same p h s t : same_scan s t -> same_scan (push p h s) (push p h t).
Proof.
  intros Hst. pose proof (same_scan_exhausted _ _ Hst) as He.
  destruct Hst as (Ho & Hp & Hc & Hm & Ht & Hl). destruct s as [o l], t as [o' l']. unfold push.
  cbn [fst snd] in *. rewrite He. destruct (exhausted l'); [done|].
  unfold set_count, count_candidate; cbn. rewrite Hp, Hm.
  case_match; unfold same_scan; cbn; rewrite ?Hp, ?Hc, ?Hm, ?Ht, ?Ho; done.
Qed.

Lemma push_all_same cs s t : same_scan s t -> same_scan (push_all cs s) (push_all cs t).
Proof. revert s t. induction cs as [|c cs IH]; intros s t H; [done|]. apply IH, push_same, H. Qed.

Lemma push_all_app cs ds s : push_all (cs ++ ds) s = push_all ds (push_all cs s).
Proof. unfold push_all. by rewrite fold_left_app. Qed.

Lemma push_exhausted p h s : exhausted s.2 = true -> push p h s = (s.1, set_limited s.2).
Proof. destruct s as [o l]. unfold push. cbn. by intros ->. Qed.

(** Once exhausted, what is left to push only sets the flag. *)
Lemma push_all_exhausted cs s :
  exhausted s.2 = true -> same_scan (s.1, set_limited s.2) (push_all cs s).
Proof.
  revert s. induction cs as [|c cs IH]; intros s H; [done|].
  unfold push_all. cbn [fold_left]. rewrite push_exhausted by done.
  by pose proof (IH (s.1, set_limited s.2) H).
Qed.

Lemma same_scan_trans s t u : same_scan s t -> same_scan t u -> same_scan s u.
Proof.
  intros (?&?&?&?&?&?) (?&?&?&?&?&?). unfold same_scan. repeat split; try congruence. auto.
Qed.

(** What a loop of the scan does: it pushes [cs], or stops exhausted. *)
Definition pushes (cs : list Candidate) (s : Scan) (r : option (bool * Scan)) : Prop :=
  exists go s', r = Some (go, s') /\ same_scan s' (push_all cs s) /\
    (go = false -> exhausted s'.2 = true /\ limited s'.2 = true).

Lemma pushes_stop cs s : exhausted s.2 = true -> pushes cs s (Some (false, (s.1, set_limited s.2))).
Proof.
  intros He. exists false, (s.1, set_limited s.2). split; [done|]. split; [by apply push_all_exhausted|done].
Qed.

(** A loop that starts where another went on. *)
Lemma pushes_bind cs ds s r (k : bool * Scan -> option (bool * Scan)) :
  pushes cs s r ->
  (forall s', pushes ds s' (k (true, s'))) ->
  (forall s', k (false, s') = Some (false, s')) ->
  pushes (cs ++ ds) s (r ≫= k).
Proof.
  intros (go & s' & -> & Hs & Hx) Hk Hf. cbn [mbind option_bind]. destruct go.
  - destruct (Hk s') as (go & s2 & -> & H2 & Hx2). exists go, s2. split; [done|]. split; [|done].
    rewrite push_all_app. eapply same_scan_trans; [exact H2|]. by apply push_all_same.
  - rewrite Hf. destruct (Hx eq_refl) as [He Hl]. exists false, s'. split; [done|]. split; [|done].
    rewrite push_all_app. apply (same_scan_trans _ (s'.1, set_limited s'.2)).
    + destruct s' as [o l], l; cbn in *; subst; done.
    + eapply same_scan_trans; [by apply push_all_exhausted|]. by apply push_all_same.
Qed.

Lemma each_match_pushes {M} (f : M -> Scan -> option Scan) (c : M -> option Candidate) ms s :
  (forall m s, m ∈ ms -> f m s = Some (match c m with Some c => push c.1 c.2 s | None => s end)) ->
  pushes (omap c ms) s (each_match f ms s).
Proof.
  revert s. induction ms as [|m ms IH]; intros s Hf.
  - exists true, s. by repeat split.
  - cbn [each_match]. destruct (exhausted s.2) eqn:He; [by apply pushes_stop|].
    rewrite Hf by apply list_elem_of_here. cbn [mbind option_bind].
    assert (omap c (m :: ms) = option_list (c m) ++ omap c ms) as -> by (cbn; by destruct (c m)).
    destruct (IH (match c m with Some c => push c.1 c.2 s | None => s end)) as (go & s' & Hr & Hs & Hx).
    { intros. apply Hf. by apply list_elem_of_further. }
    exists go, s'. split; [exact Hr|]. split; [|exact Hx]. rewrite push_all_app. by destruct (c m).
Qed.

Section Scan.
Context (record : ContentRecord) (historical : bool) (g : CompiledGroup) (Hg : group_fits g).

Lemma push_literal_candidate find w base m s :
  literal_ac g = Some find -> m ∈ find w ->
  push_literal record historical g base m s =
  Some (match literal_candidate record historical g base m with Some c => push c.1 c.2 s | None => s end).
Proof.
  intros Hf Hm. destruct (proj1 Hg find w m Hf Hm) as [p Hp].
  unfold push_literal, literal_candidate. by rewrite Hp.
Qed.

Lemma push_crossing_candidate find w base m s :
  literal_ac g = Some find -> m ∈ find w ->
  push_crossing record historical g base m s =
  Some (match literal_candidate record historical g base m ≫= keep_crossing record with
        | Some c => push c.1 c.2 s | None => s end).
Proof.
  intros Hf Hm. destruct (proj1 Hg find w m Hf Hm) as [p Hp].
  unfold push_crossing, literal_candidate, keep_crossing, crosses. rewrite Hp. cbn.
  by destruct (_ && _).
Qed.

Lemma scan_bridge_pushes find prefix s :
  literal_ac g = Some find ->
  pushes (bridge_candidates record historical g find prefix) s (scan_bridge record historical g find prefix s).
Proof.
  intros Hf. unfold scan_bridge, bridge_candidates.
  destruct (negb (is_empty prefix) && (1 <? max_literal_len g)) eqn:Hc; [|by exists true, s].
  reflect_bools. pose proof (blen_nonneg prefix). pose proof (blen_nonneg (cr_data record)).
  rewrite (sat_sub_ge (max_literal_len g) 1) by lia. set (k := max_literal_len g - 1).
  rewrite slice_suffix by (unfold sat_sub; lia). cbn [mbind option_bind].
  rewrite slice_prefix by lia. cbn [mbind option_bind].
  assert (take (Z.to_nat (Z.min k (blen (cr_data record)))) (cr_data record)
          = take (Z.to_nat k) (cr_data record)) as ->.
  { destruct (decide (k <= blen (cr_data record))); [f_equal; lia|].
    rewrite !take_ge; [done|unfold blen in *; lia..]. }
  apply each_match_pushes. intros m s' Hm. by eapply push_crossing_candidate.
Qed.

Lemma scan_literals_pushes prefix s :
  pushes (literal_candidates record historical g prefix) s (scan_literals record historical g prefix s).
Proof.
  unfold scan_literals, literal_candidates. destruct (literal_ac g) as [find|] eqn:Hf; [|by exists true, s].
  apply pushes_bind; [by apply scan_bridge_pushes| |done].
  intros s'. apply each_match_pushes. intros m s2 Hm. by eapply push_literal_candidate.
Qed.

Lemma push_regex_candidate meta base boundary m s :
  push_regex record historical meta base boundary m s =
  Some (match new_candidate record historical meta base boundary m with Some c => push c.1 c.2 s | None => s end).
Proof.
  unfold push_regex, new_candidate, is_old, candidate. cbn.
  by destruct boundary as [b|]; [destruct (_ <=? b)|].
Qed.

(** A scan of a group: [pushes], where an early exit ends it. *)
Definition scans (cs : list Candidate) (s : Scan) (r : option Scan) : Prop :=
  exists s', r = Some s' /\ same_scan s' (push_all cs s).

Lemma pushes_scans cs ds s r (k : Scan -> option Scan) :
  pushes cs s r -> (forall s', scans ds s' (k s')) ->
  scans (cs ++ ds) s ('(go, s) ← r; if go : bool then k s else Some s).
Proof.
  intros (go & s' & -> & Hs & Hx) Hk. cbn [mbind option_bind]. destruct go.
  - destruct (Hk s') as (s2 & -> & H2). exists s2. split; [done|]. rewrite push_all_app.
    eapply same_scan_trans; [exact H2|]. by apply push_all_same.
  - destruct (Hx eq_refl) as [He Hl]. exists s'. split; [done|]. rewrite push_all_app.
    apply (same_scan_trans _ (s'.1, set_limited s'.2)).
    + destruct s' as [o l], l; cbn in *; subst; done.
    + eapply same_scan_trans; [by apply push_all_exhausted|]. by apply push_all_same.
Qed.

Lemma one_regex_found prefix i p find :
  regex_meta g !! i = Some p -> regex_compiled g !! i = Some find ->
  one_regex record historical g prefix i =
  omap (new_candidate record historical p (regex_window record prefix).1.2 (regex_window record prefix).2)
    (find (regex_window record prefix).1.1).
Proof. intros Hp Hf. unfold one_regex. rewrite Hp, Hf. by destruct (regex_window record prefix) as [[? ?] ?]. Qed.

Lemma each_regex_scans prefix matches :
  forall matched s,
  regex_set g = Some matches -> (forall i, i ∈ matched -> i ∈ matches (regex_window record prefix).1.1) ->
  scans (flat_map (one_regex record historical g prefix) matched) s
    (each_regex record historical g (regex_window record prefix).1.1 (regex_window record prefix).1.2
       (regex_window record prefix).2 matched s).
Proof.
  intros matched s Hset. revert s. induction matched as [|i matched IH]; intros s Hin; [by exists s|].
  cbn [flat_map each_regex]. destruct (exhausted s.2) eqn:He.
  { exists (s.1, set_limited s.2). split; [done|]. by apply push_all_exhausted. }
  destruct (proj2 Hg _ _ i Hset (Hin i (list_elem_of_here _ _))) as [[p Hp] [find Hf]].
  rewrite Hp, Hf. cbn [mbind option_bind]. rewrite (one_regex_found prefix i p find Hp Hf). apply pushes_scans.
  - apply each_match_pushes. intros. apply push_regex_candidate.
  - intros s'. apply IH. intros. apply Hin. by apply list_elem_of_further.
Qed.

Lemma scan_regexes_scans prefix s :
  scans (regex_candidates record historical g prefix) s (scan_regexes record historical g prefix s).
Proof.
  unfold scan_regexes, regex_candidates. destruct (regex_set g) as [matches|] eqn:Hs; [|by exists s].
  destruct (exhausted s.2) eqn:He.
  { exists (s.1, set_limited s.2). split; [done|]. by apply push_all_exhausted. }
  pose proof (each_regex_scans prefix matches (matches (regex_window record prefix).1.1) s Hs (fun _ H => H)) as H.
  unfold regex_window in *. destruct (is_empty prefix); exact H.
Qed.

Lemma scan_into_scans prefix s :
  scans (group_candidates record historical prefix g) s (scan_into record historical g prefix s).
Proof. apply pushes_scans; [apply scan_literals_pushes|]. intros. apply scan_regexes_scans. Qed.
End Scan.

(** ** The limits *)

(** The limiter after the candidates [seen] were pushed at it. *)
Definition limiter_after (mp mt : Z) (seen : list Candidate) (l : MatchLimiter) : Prop :=
  max_per_pattern l = mp /\ max_total l = mt /\ candidates l = blen seen /\
  forall key, default 0 (per_pattern l !! key) = Z.min mp (blen (filter (fun c => rev_key c.1 = key) seen)).

Lemma earlier_snoc p cs c :
  earlier p (cs ++ [c]) = earlier p cs + (if decide (rev_key c.1 = rev_key p) then 1 else 0).
Proof. unfold earlier. rewrite filter_app, blen_app. cbn. unfold filter. cbn. by case_decide. Qed.

Lemma push_within mp mt seen c (out : list MatchRecord) l :
  0 <= mp -> blen seen < mt -> limiter_after mp mt seen l ->
  exists l', push c.1 c.2 (out, l) = (out ++ (if earlier c.1 seen <? mp then [c.2] else []), l') /\
    limiter_after mp mt (seen ++ [c]) l' /\
    (limited l' = false -> limited l = false /\ earlier c.1 seen < mp).
Proof.
  intros H0 Hlt (Hmp & Hmt & Hc & Hp). unfold push, exhausted. rewrite Hmt, Hc.
  destruct (mt <=? blen seen) eqn:He; reflect_bools; [lia|]. cbn [max_per_pattern count_candidate set_count].
  rewrite Hmp. pose proof (Hp (rev_key c.1)) as Hk. unfold rev_key in Hk at 1. fold (earlier c.1 seen) in Hk.
  change (per_pattern (count_candidate l)) with (per_pattern l). rewrite Hk.
  assert (forall (m : gmap (Z * Z) Z) key n, default 0 (<[key := n]> m !! key) = n) as Hsame.
  { intros. by rewrite lookup_insert_eq. }
  destruct (mp <=? Z.min mp (earlier c.1 seen)) eqn:Hb; reflect_bools;
    destruct (earlier c.1 seen <? mp) eqn:Hb'; reflect_bools; try lia.
  - rewrite app_nil_r. eexists. split; [reflexivity|]. split; [|done].
    unfold set_limited, set_count, count_candidate, limiter_after. cbn. rewrite Hc, blen_app. repeat split; [done..|].
    intros key. rewrite filter_app, blen_app. destruct (decide (key = rev_key c.1)) as [->|Hn].
    + rewrite Hsame. fold (earlier c.1 seen). pose proof (blen_nonneg (filter (fun c' => rev_key c'.1 = rev_key c.1) [c])). lia.
    + rewrite lookup_insert_ne by done. rewrite filter_cons_False, filter_nil by congruence. by rewrite Z.add_0_r.
  - eexists. split; [reflexivity|]. split; [|cbn; intros; split; [done|lia]].
    unfold set_count, count_candidate, limiter_after. cbn. rewrite Hc, blen_app. repeat split; [done..|].
    intros key. rewrite filter_app, blen_app. destruct (decide (key = rev_key c.1)) as [->|Hn].
    + rewrite Hsame. unfold earlier in *. rewrite (filter_cons_True _ c []), filter_nil by done. change (blen [c]) with 1. lia.
    + rewrite !lookup_insert_ne by done. rewrite filter_cons_False, filter_nil by congruence. by rewrite Z.add_0_r.
Qed.

Lemma limiter_fresh mp mt : 0 <= mp -> limiter_after mp mt [] (MatchLimiter_new mp mt).
Proof. intros H. unfold limiter_after. cbn. repeat split; [done..|]. intros key. rewrite lookup_empty. symmetry. by apply Z.min_r. Qed.

Lemma exhausted_after mp mt seen l : limiter_after mp mt seen l -> exhausted l = (mt <=? blen seen).
Proof. intros (_ & Hm & Hc & _). unfold exhausted. by rewrite Hm, Hc. Qed.

(** Candidates pushed at an exhausted limiter. *)
Lemma push_all_over (out : list MatchRecord) l cs :
  exhausted l = true -> exists l', push_all cs (out, l) = (out, l') /\ (limited l' = false -> cs = []).
Proof.
  intros He. destruct cs as [|c cs]; [by exists l|].
  destruct (push_all_exhausted cs (out, set_limited l) He) as (Ho & _ & _ & _ & _ & _).
  unfold push_all in *. cbn [fold_left]. rewrite push_exhausted by done. cbn [fst snd] in *.
  destruct (fold_left _ cs (out, set_limited l)) as [o l'] eqn:Hf. cbn in Ho. subst o. exists l'. split; [done|].
  assert (limited l' = true) as ->; [|done]. revert Hf. generalize (set_limited l), (eq_refl : limited (set_limited l) = true).
  clear. generalize out at 1. induction cs as [|c cs IH]; intros o l Hl Hf; [by simplify_eq/=|].
  cbn [fold_left] in Hf. destruct (push c.1 c.2 (o, l)) as [o2 l2] eqn:Hp. apply (IH o2 l2); [|done].
  revert Hp. unfold push. repeat case_match; intros; simplify_eq/=; done.
Qed.

Lemma push_all_within mp mt cs : forall seen (out : list MatchRecord) l,
  0 <= mp -> blen seen <= mt -> limiter_after mp mt seen l ->
  exists l', push_all cs (out, l) = (out ++ capped mp seen (take (Z.to_nat (mt - blen seen)) cs), l') /\
    (limited l' = false -> limited l = false /\
       map snd cs = capped mp seen (take (Z.to_nat (mt - blen seen)) cs)).
Proof.
  induction cs as [|c cs IH]; intros seen out l H0 Hle Hl.
  { exists l. rewrite take_nil. cbn. by rewrite app_nil_r. }
  destruct (decide (blen seen = mt)) as [Heq|Hne].
  - destruct (push_all_over out l (c :: cs)) as (l' & Hp & Hx).
    { rewrite (exhausted_after _ _ _ _ Hl). by apply Z.leb_le; lia. }
    exists l'. replace (mt - blen seen) with 0 by lia. cbn [Z.to_nat take capped]. rewrite app_nil_r.
    split; [done|]. intros Hf. by specialize (Hx Hf).
  - destruct (push_within mp mt seen c out l H0 ltac:(lia) Hl) as (l1 & Hp & Hl1 & Hf1).
    destruct (IH (seen ++ [c]) (out ++ (if earlier c.1 seen <? mp then [c.2] else [])) l1 H0) as (l' & Ha & Hx);
      [rewrite blen_app; change (blen [c]) with 1; lia|done|].
    exists l'. unfold push_all in *. cbn [fold_left]. rewrite Hp, Ha.
    replace (Z.to_nat (mt - blen seen)) with (S (Z.to_nat (mt - blen (seen ++ [c])))) by (rewrite blen_app; change (blen [c]) with 1; lia).
    cbn [take capped map]. rewrite <- app_assoc. split; [done|]. intros Hf. destruct (Hx Hf) as [Hl1f ->].
    destruct (Hf1 Hl1f) as [-> Hlt]. by rewrite (proj2 (Z.ltb_lt _ _) Hlt).
Qed.

(** ** A scan of a record *)

Definition set_fits (set : CompiledPatternSet) : Prop :=
  (forall view g, global_groups set !! view = Some g -> group_fits g) /\
  (forall service groups view g,
     service_groups set !! service = Some groups -> groups !! view = Some g -> group_fits g).

Lemma groups_fit set record :
  set_fits set ->
  (forall g, (groups_for set record).1 = Some g -> group_fits g) /\
  (forall g, (groups_for set record).2 = Some g -> group_fits g).
Proof.
  intros [Hg Hs]. split; intros g; cbn [groups_for fst snd]; intros H; [by eapply Hg|].
  apply bind_Some in H as (name & _ & H). apply bind_Some in H as (groups & H1 & H2). by eapply Hs.
Qed.

Lemma scan_group_scans record historical prefix g s :
  (forall g', g = Some g' -> group_fits g') ->
  scans (flat_map (group_candidates record historical prefix) (option_list g)) s
    (scan_group record historical prefix g s).
Proof.
  intros Hg. destruct g as [g|]; [|by exists s]. cbn. rewrite app_nil_r. apply scan_into_scans. by apply Hg.
Qed.

Lemma scan_bounded_scans set record prefix historical mp mt :
  set_fits set ->
  exists s', scan_bounded set record prefix historical mp mt = Some {| hits := s'.1; so_limited := limited s'.2 |} /\
    same_scan s' (push_all (scan_candidates record historical set prefix) ([], MatchLimiter_new mp mt)).
Proof.
  intros Hset. destruct (groups_fit set record Hset) as [Hg Hs].
  unfold scan_bounded, scan_candidates. destruct (groups_for set record) as [global service]. cbn [fst snd] in *.
  rewrite flat_map_app, push_all_app.
  destruct (negb (is_some global) && negb (is_some service)) eqn:Hn.
  { destruct global, service; try done. by exists ([], MatchLimiter_new mp mt). }
  destruct (scan_group_scans record historical prefix global ([], MatchLimiter_new mp mt) Hg) as (s1 & -> & H1).
  cbn [mbind option_bind]. destruct (exhausted s1.2) eqn:He; cbn [negb].
  - exists (if is_some service then (s1.1, set_limited s1.2) else s1). split; [by destruct service|].
    destruct service as [g|]; cbn [is_some option_list].
    + eapply same_scan_trans; [by apply push_all_exhausted|]. by apply push_all_same.
    + exact H1.
  - destruct (scan_group_scans record historical prefix service s1 Hs) as (s2 & -> & H2). cbn [mbind option_bind].
    exists s2. split; [done|]. eapply same_scan_trans; [exact H2|]. by apply push_all_same.
Qed.

(** The scan is the reference scan cut by the reference limits; where it does not
    say [limited], nothing was cut. *)
Lemma scan_bounded_spec set record prefix historical mp mt :
  set_fits set -> 0 <= mp -> 0 <= mt ->
  exists o, scan_bounded set record prefix historical mp mt = Some o /\
    hits o = within_limits mp mt (scan_candidates record historical set prefix) /\
    (so_limited o = false -> hits o = map snd (scan_candidates record historical set prefix)).
Proof.
  intros Hset Hmp Hmt.
  destruct (scan_bounded_scans set record prefix historical mp mt Hset) as (s' & -> & Ho & _ & _ & _ & _ & Hl).
  destruct (push_all_within mp mt (scan_candidates record historical set prefix) [] [] (MatchLimiter_new mp mt) Hmp Hmt
              (limiter_fresh mp mt Hmp)) as (l' & Hp & Hx).
  rewrite Hp in Ho, Hl. cbn [fst snd] in *. rewrite blen_nil, Z.sub_0_r in *.
  eexists. split; [reflexivity|]. cbn [hits so_limited]. split; [exact Ho|]. intros Hf.
  destruct (limited l') eqn:He; [by rewrite Hl in Hf|]. destruct (Hx eq_refl) as [_ ->]. exact Ho.
Qed.

(** ** What the limits leave *)

Lemma capped_length mp seen cs : (length (capped mp seen cs) <= length cs)%nat.
Proof. revert seen. induction cs; intros; cbn; [lia|]. case_match; cbn; specialize (IHcs (seen ++ [a])); lia. Qed.

Lemma capped_elem mp seen cs h : h ∈ capped mp seen cs -> exists c, c ∈ cs /\ c.2 = h.
Proof.
  revert seen. induction cs as [|c cs IH]; intros seen H; cbn in H; [by apply elem_of_nil in H|].
  apply elem_of_app in H as [H|H].
  - exists c. split; [apply list_elem_of_here|]. case_match; [|by apply elem_of_nil in H].
    by apply list_elem_of_singleton in H.
  - destruct (IH _ H) as (c' & ? & ?). exists c'. split; [by apply list_elem_of_further|done].
Qed.

Lemma within_limits_elem mp mt cs h : h ∈ within_limits mp mt cs -> exists c, c ∈ cs /\ c.2 = h.
Proof.
  intros H. apply capped_elem in H as (c & Hc & <-). exists c. split; [|done].
  by apply elem_of_take in Hc as (i & ? & _); eapply list_elem_of_lookup_2.
Qed.
