(* ===== verification/GroupSpec.v ===== *)
(** * What a compiled rule set holds

    The laws of the engines, the tables of a compiled group, and the rules that
    the groups of a record hold: those enabled, of its service or of none, whose
    views have the view of the record. *)

From stdpp Require Import strings.
From S2P Require Import Prelude Model Text Services Disk Sink Matching ScanSpec.

Lemma bind_Ok {A B} (m : Result A) (f : A -> Result B) b :
  m ≫= f = Ok b <-> exists a, m = Ok a /\ f a = Ok b.
Proof. destruct m as [a|]; cbn; [|naive_solver]. split; [by eauto|]. by intros (? & [= <-] & ?). Qed.

(** The bytes of [w] from [s] to [e]. *)
Definition part (s e : Z) (w : bytes) : option bytes := slice s e w.

(** What is relied on of the engines.  [find_iter] of [aho_corasick] reports
    occurrences that do not overlap, the earliest end first: an occurrence may go
    unreported only where a reported one ends inside it. *)
Class EnginesLaws `{Engines} : Prop := {
  ac_sound pats find w m :
    ac_new pats = Ok find -> m ∈ find w ->
    exists l, pats !! fd_pattern m = Some l /\ part (fd_start m) (fd_end m) w = Some l;
  ac_complete pats find w i l s e :
    ac_new pats = Ok find -> pats !! i = Some l -> l <> [] -> part s e w = Some l ->
    exists m, m ∈ find w /\ s < fd_end m <= e;
  regex_in_range r find w m :
    regex_new r = Ok find -> m ∈ find w -> 0 <= m.1 <= m.2 /\ m.2 <= blen w;
  regex_set_in_range rs matches w i :
    regex_set_new rs = Ok matches -> i ∈ matches w -> (i < length rs)%nat
}.

Section Compiled.
Context `{HE : Engines}.

Definition is_literal (p : PatternRevision) : bool :=
  match pr_kind p with Model.Regex => false | _ => true end.

(** The bytes of a text or binary pattern. *)
Definition literal_of (p : PatternRevision) : Result bytes :=
  match pr_kind p with
  | Model.Text => Ok (pr_expression p)
  | Model.Binary => decode_binary (pr_expression p)
  | Model.Regex => Err
  end.

(** ** One group *)

Record group_of (ps : list PatternRevision) (g : CompiledGroup) (lits : list bytes) : Prop := {
  go_meta : literal_meta g = filter (fun p => is_literal p = true) ps;
  go_regexes : regex_meta g = filter (fun p => is_literal p = false) ps;
  go_lits : Forall2 (fun p l => literal_of p = Ok l) (literal_meta g) lits;
  go_len : Forall (fun l => blen l <= max_literal_len g) lits;
  go_len_nonneg : 0 <= max_literal_len g;
  go_len_reached : max_literal_len g = 0 \/ Exists (fun l => blen l = max_literal_len g) lits;
  go_ac : match literal_ac g with Some find => ac_new lits = Ok find | None => lits = [] end;
  go_set : match regex_set g with
           | Some matches => regex_set_new (map pr_expression (regex_meta g)) = Ok matches
           | None => regex_meta g = [] end;
  go_compiled : Forall2 (fun p find => regex_new (pr_expression p) = Ok find) (regex_meta g) (regex_compiled g)
}.

Definition tables_of (ps : list PatternRevision) (t : Tables) : Prop :=
  tb_literal_meta t = filter (fun p => is_literal p = true) ps /\
  tb_regex_meta t = filter (fun p => is_literal p = false) ps /\
  Forall2 (fun p l => literal_of p = Ok l) (tb_literal_meta t) (literal_bytes t) /\
  regexes t = map pr_expression (tb_regex_meta t) /\
  Forall (fun l => blen l <= tb_max_literal_len t) (literal_bytes t) /\ 0 <= tb_max_literal_len t /\
  (tb_max_literal_len t = 0 \/ Exists (fun l => blen l = tb_max_literal_len t) (literal_bytes t)).

Lemma add_literal_tables ps t p l :
  tables_of ps t -> is_literal p = true -> literal_of p = Ok l -> tables_of (ps ++ [p]) (add_literal l p t).
Proof.
  intros (Hm & Hr & Hl & Hx & Hf & H0 & He) Hp Hlp. unfold tables_of, add_literal. cbn.
  rewrite !filter_app, Hm, Hr. rewrite (filter_cons_True _ p []), (filter_cons_False (fun p => is_literal p = false))
    by congruence. rewrite !filter_nil, app_nil_r. pose proof (blen_nonneg l).
  split; [done|]. split; [done|]. split; [|split; [by rewrite Hx, Hr|split; [|split; [lia|]]]].
  - rewrite Hm in Hl. apply Forall2_app; [done|]. by constructor.
  - apply Forall_app. split; [|constructor; [lia|constructor]]. eapply Forall_impl; [exact Hf|]. intros x Hl'. cbv beta in *. lia.
  - destruct (decide (blen l <= tb_max_literal_len t)).
    + rewrite Z.max_l by done. destruct He; [by left|]. right. apply Exists_app. by left.
    + rewrite Z.max_r by lia. right. apply Exists_app. right. by apply Exists_cons_hd.
Qed.

Lemma add_regex_tables ps t p : tables_of ps t -> is_literal p = false -> tables_of (ps ++ [p]) (add_regex p t).
Proof.
  intros (Hm & Hr & Hl & Hx & Hf & H0 & He) Hp. unfold tables_of, add_regex. cbn.
  rewrite !filter_app, Hm, Hr. rewrite (filter_cons_False (fun p => is_literal p = true)), (filter_cons_True _ p [])
    by congruence. rewrite !filter_nil, app_nil_r, map_app, Hx, Hr. by rewrite Hm in Hl.
Qed.

Lemma add_patterns_tables qs : forall ps t t',
  tables_of ps t -> add_patterns qs t = Ok t' -> tables_of (ps ++ qs) t'.
Proof.
  induction qs as [|p qs IH]; intros ps t t' Ht Ha; cbn in Ha; [by simplify_eq; rewrite app_nil_r|].
  destruct (add_pattern p t) as [t1|] eqn:Hp; [|done]. cbn in Ha.
  replace (ps ++ p :: qs) with ((ps ++ [p]) ++ qs) by (by rewrite <- app_assoc).
  apply (IH _ t1); [|done]. unfold add_pattern in Hp. destruct (pr_kind p) eqn:Hk.
  - simplify_eq. apply add_literal_tables; [done|unfold is_literal, literal_of; by rewrite Hk..].
  - destruct (decode_binary (pr_expression p)) as [l|] eqn:Hd; [|done]. cbn in Hp. simplify_eq.
    apply add_literal_tables; [done|unfold is_literal, literal_of; by rewrite Hk..].
  - simplify_eq. apply add_regex_tables; [done|]. unfold is_literal. by rewrite Hk.
Qed.

Lemma map_result_Forall2 {A B} (f : A -> Result B) l bs :
  map_result f l = Ok bs -> Forall2 (fun a b => f a = Ok b) l bs.
Proof.
  revert bs. induction l as [|a l IH]; intros bs H; cbn in H; [by simplify_eq|].
  destruct (f a) as [b|] eqn:Hf; [|done]. cbn in H.
  destruct (map_result f l) as [bs'|]; [|done]. cbn in H. simplify_eq. constructor; auto.
Qed.

Lemma option_result_nonempty {A B} (f : list A -> Result B) l o :
  option_result f (nonempty l) = Ok o -> match o with Some b => f l = Ok b | None => l = [] end.
Proof.
  unfold nonempty. destruct l as [|a l]; cbn; [by intros; simplify_eq|].
  destruct (f (a :: l)) as [b|] eqn:Hf; cbn; intros; by simplify_eq.
Qed.

Lemma group_compile_spec ps g : CompiledGroup_compile ps = Ok g -> exists lits, group_of ps g lits.
Proof.
  intros (t & Ha & (ac & Hac & (set & Hset & (compiled & Hc & Hg)%bind_Ok)%bind_Ok)%bind_Ok)%bind_Ok.
  apply (add_patterns_tables ps [] no_tables) in Ha as (Hm & Hr & Hl & Hx & Hf & H0 & He); cycle 1.
  { unfold tables_of. cbn. split; [done|]. split; [done|]. split; [constructor|].
    repeat split; [constructor|done|by left]. }
  cbn in Hm, Hr.
  apply option_result_nonempty in Hac, Hset. apply map_result_Forall2 in Hc. simplify_eq.
  exists (literal_bytes t). constructor; cbn; try done.
  - destruct set; [by rewrite <- Hx|]. rewrite Hx in Hset. by apply map_eq_nil in Hset.
  - rewrite Hx in Hc. by apply Forall2_fmap_l in Hc.
Qed.

Lemma group_of_fits {HL : EnginesLaws} ps g lits : group_of ps g lits -> group_fits g.
Proof.
  intros [Hm Hr Hl Hf H0 He Hac Hset Hc]. split.
  - intros find w m Hf' Hin. rewrite Hf' in Hac. destruct (ac_sound _ _ _ _ Hac Hin) as (l & Hl' & _).
    destruct (Forall2_lookup_r _ _ _ _ _ Hl Hl') as (p & ? & _). by eexists.
  - intros matches w i Hs Hin. rewrite Hs in Hset.
    pose proof (regex_set_in_range _ _ _ _ Hset Hin) as Hlt. rewrite length_map in Hlt.
    split; apply lookup_lt_is_Some_2; [done|]. by rewrite <- (Forall2_length _ _ _ Hc).
Qed.

(** ** The rules of a view and a service *)

Definition for_view (view : ContentView) (service : option bytes) (p : PatternRevision) : Prop :=
  pr_enabled p = true /\ pr_service p = service /\ view ∈ views_for_pattern p.

#[export] Instance for_view_dec view service p : Decision (for_view view service p).
Proof. unfold for_view. apply _. Defined.

Definition rules_of (view : ContentView) (service : option bytes) (ps : list PatternRevision)
  : list PatternRevision := filter (for_view view service) ps.

Lemma views_NoDup p : NoDup (views_for_pattern p).
Proof.
  unfold views_for_pattern, views_of_direction. repeat case_match; repeat constructor; set_solver.
Qed.

(** The bucket of a view for the rules of no service, or of one. *)
Definition bucket (b : Buckets * gmap bytes Buckets) (service : option bytes) (view : ContentView)
  : option (list PatternRevision) :=
  match service with None => b.1 !! view | Some s => default ∅ (b.2 !! s) !! view end.

Lemma bucket_add p b v service view :
  bucket (add_to_buckets p b v) service view =
  if decide (pr_service p = service /\ v = view) then Some (default [] (bucket b service view) ++ [p])
  else bucket b service view.
Proof.
  unfold bucket, add_to_buckets, add_to. destruct b as [g s]. cbn [fst snd].
  destruct (pr_service p) as [q|], service as [q'|]; cbn [fst snd].
  - destruct (decide (q = q')) as [->|Hq].
    + rewrite lookup_insert_eq. cbn. destruct (decide (v = view)) as [->|Hv].
      * rewrite decide_True by done. by rewrite lookup_insert_eq.
      * rewrite decide_False by naive_solver. by rewrite lookup_insert_ne.
    + rewrite lookup_insert_ne by done. by rewrite decide_False by naive_solver.
  - by rewrite decide_False by naive_solver.
  - by rewrite decide_False by naive_solver.
  - destruct (decide (v = view)) as [->|Hv].
    + rewrite decide_True by done. by rewrite lookup_insert_eq.
    + rewrite decide_False by naive_solver. by rewrite lookup_insert_ne.
Qed.

Lemma bucket_add_views p vs : forall b service view, NoDup vs ->
  bucket (fold_left (add_to_buckets p) vs b) service view =
  if decide (pr_service p = service /\ view ∈ vs) then Some (default [] (bucket b service view) ++ [p])
  else bucket b service view.
Proof.
  induction vs as [|v vs IH]; intros b service view Hn; cbn [fold_left].
  { rewrite decide_False; [done|]. intros [_ H]. by apply elem_of_nil in H. }
  apply NoDup_cons in Hn as [Hv Hn]. rewrite IH by done. rewrite bucket_add.
  destruct (decide (pr_service p = service)) as [Hs|Hs]; [|by rewrite !decide_False by naive_solver].
  destruct (decide (v = view)) as [->|Hne].
  - rewrite (decide_False (P := _ /\ _ ∈ _)), !decide_True by naive_solver (by constructor). done.
  - rewrite (decide_False (P := _ /\ v = _)) by naive_solver.
    apply decide_ext. split; intros [? H]; (split; [done|]); [by constructor|].
    by apply elem_of_cons in H as [->|H].
Qed.

Lemma nonempty_snoc {A} (l : list A) a : nonempty (l ++ [a]) = Some (default [] (nonempty l) ++ [a]).
Proof. by destruct l. Qed.

Lemma bucket_patterns_spec ps service view :
  bucket (bucket_patterns ps) service view = nonempty (rules_of view service ps).
Proof.
  unfold bucket_patterns. set (step := fun b p => fold_left (add_to_buckets p) (views_for_pattern p) b).
  enough (forall qs done b, (forall service view, bucket b service view = nonempty (rules_of view service done)) ->
            bucket (fold_left step (filter (fun p => pr_enabled p = true) qs) b) service view =
            nonempty (rules_of view service (done ++ qs))) as Hgen.
  { apply (Hgen ps []). intros s v. unfold bucket. cbn [fst snd]. destruct s; done. }
  induction qs as [|p qs IH]; intros done b Hb; [rewrite app_nil_r; apply Hb|].
  replace (done ++ p :: qs) with ((done ++ [p]) ++ qs) by (by rewrite <- app_assoc).
  assert (forall s v, rules_of v s (done ++ [p]) =
            rules_of v s done ++ if decide (for_view v s p) then [p] else []) as Hr.
  { intros. unfold rules_of. rewrite filter_app. reflexivity. }
  destruct (pr_enabled p) eqn:He.
  - rewrite filter_cons_True by done. cbn [fold_left]. apply IH. intros s v. unfold step at 1.
    rewrite bucket_add_views by apply views_NoDup. rewrite Hr, Hb. unfold for_view.
    destruct (decide (pr_service p = s /\ v ∈ views_for_pattern p)).
    + rewrite decide_True by naive_solver. by rewrite nonempty_snoc.
    + rewrite decide_False by naive_solver. by rewrite app_nil_r.
  - rewrite filter_cons_False by congruence. apply IH. intros s v. rewrite Hr, Hb.
    rewrite decide_False by (intros [? _]; congruence). by rewrite app_nil_r.
Qed.

(** ** The compiled set *)

Lemma map_values_spec {K A B} `{Countable K} (f : A -> Result B) (m : gmap K A) m' k :
  map_values f m = Ok m' -> option_result f (m !! k) = Ok (m' !! k).
Proof.
  intros (l & Hl & [= <-])%bind_Ok. apply map_result_Forall2 in Hl.
  assert (Forall2 (fun (kv : K * A) (kb : K * B) => kb.1 = kv.1 /\ f kv.2 = Ok kb.2) (map_to_list m) l) as Hf.
  { eapply Forall2_impl; [exact Hl|]. intros [x a] y (b & Hb & [= <-])%bind_Ok. done. }
  assert (map fst l = map fst (map_to_list m)) as Hk.
  { clear -Hf. induction Hf as [|? ? ? ? [Hab _]]; cbn; [done|]. by f_equal. }
  assert (NoDup (map fst l)) as Hn by (rewrite Hk; apply NoDup_fst_map_to_list).
  destruct (m !! k) as [a|] eqn:Ha.
  - apply elem_of_map_to_list, list_elem_of_lookup in Ha as [i Hi].
    destruct (Forall2_lookup_l _ _ _ _ _ Hf Hi) as ([k' b] & Hi' & Hk' & Hb). cbn in Hk', Hb. subst k'.
    cbn. rewrite Hb. cbn. f_equal. symmetry. apply elem_of_list_to_map_1; [done|]. by eapply list_elem_of_lookup_2.
  - cbn. f_equal. symmetry. apply not_elem_of_list_to_map_1. change (k ∉ map fst l). rewrite Hk.
    intros (e & -> & He)%list_elem_of_fmap. destruct e as [k a]. apply elem_of_map_to_list in He. cbn in *. congruence.
Qed.

(** The group of a view for the rules of no service, or of one. *)
Definition group (set : CompiledPatternSet) (service : option bytes) (view : ContentView) : option CompiledGroup :=
  match service with
  | None => global_groups set !! view
  | Some s => groups ← service_groups set !! s; groups !! view
  end.

Lemma compile_spec ps set service view :
  CompiledPatternSet_compile ps = Ok set ->
  option_result CompiledGroup_compile (nonempty (rules_of view service ps)) = Ok (group set service view).
Proof.
  unfold CompiledPatternSet_compile. rewrite <- bucket_patterns_spec.
  destruct (bucket_patterns ps) as [gb sb]. intros (gs & Hg & (ss & Hs & [= <-])%bind_Ok)%bind_Ok.
  unfold group, bucket. cbn [fst snd global_groups service_groups]. destruct service as [s|].
  - apply (map_values_spec _ _ _ s) in Hs. destruct (sb !! s) as [b|]; cbn in Hs |- *.
    + apply bind_Ok in Hs as (g & Hg' & [= <-]). cbn. by apply map_values_spec.
    + injection Hs as <-. by rewrite lookup_empty.
  - by apply map_values_spec.
Qed.

Lemma compile_group ps set service view :
  CompiledPatternSet_compile ps = Ok set ->
  match group set service view with
  | Some g => exists lits, group_of (rules_of view service ps) g lits /\ rules_of view service ps <> []
  | None => rules_of view service ps = []
  end.
Proof.
  intros H. apply (compile_spec ps set service view) in H.
  destruct (rules_of view service ps) as [|p l] eqn:Hr; cbn [nonempty is_empty option_result] in H.
  - injection H as <-. done.
  - apply bind_Ok in H as (g & Hg & [= <-]). destruct (group_compile_spec _ _ Hg) as [lits Hl]. by exists lits.
Qed.

Lemma compiled_fits {HL : EnginesLaws} ps set : CompiledPatternSet_compile ps = Ok set -> set_fits set.
Proof.
  intros Hc0. split.
  - intros view g Hg. pose proof (compile_group ps set None view Hc0) as Hc. cbn in Hc. rewrite Hg in Hc.
    destruct Hc as (lits & Hl & _). by eapply group_of_fits.
  - intros service groups view g Hs Hg. pose proof (compile_group ps set (Some service) view Hc0) as Hc.
    cbn in Hc. rewrite Hs in Hc. cbn in Hc. rewrite Hg in Hc.
    destruct Hc as (lits & Hl & _). by eapply group_of_fits.
Qed.

Lemma groups_for_group set record :
  groups_for set record =
  (group set None (cr_view record),
   match cr_service record with Some s => group set (Some s) (cr_view record) | None => None end).
Proof. unfold groups_for, group. done. Qed.

(** ** The rules for a record *)

Definition applies (record : ContentRecord) (p : PatternRevision) : Prop :=
  pr_enabled p = true /\ cr_view record ∈ views_for_pattern p /\
  (pr_service p = None \/ pr_service p = cr_service record).

Lemma for_view_applies record service p :
  service = None \/ service = cr_service record -> for_view (cr_view record) service p -> applies record p.
Proof. intros Hs (? & <- & ?). done. Qed.

Lemma is_interested_spec ps set record :
  CompiledPatternSet_compile ps = Ok set ->
  is_interested set record = true <-> exists p, p ∈ ps /\ applies record p.
Proof.
  intros Hc0. unfold is_interested. rewrite groups_for_group.
  assert (forall service, is_some (group set service (cr_view record)) = true <->
            exists p, p ∈ ps /\ for_view (cr_view record) service p) as Hg.
  { intros service. pose proof (compile_group ps set service (cr_view record) Hc0) as Hc.
    destruct (group set service (cr_view record)) as [g|]; cbn [is_some].
    - destruct Hc as (_ & _ & Hne). split; [|done]. intros _.
      destruct (rules_of _ _ _) as [|p l] eqn:Hr; [done|]. exists p.
      assert (p ∈ rules_of (cr_view record) service ps) as [? ?]%list_elem_of_filter by (rewrite Hr; constructor). done.
    - split; [done|]. intros (p & Hp & Hf). assert (p ∈ rules_of (cr_view record) service ps) as Hin
        by (by apply list_elem_of_filter). rewrite Hc in Hin. by apply elem_of_nil in Hin. }
  rewrite orb_true_iff, (Hg None). split.
  - intros [(p & Hp & Hf)|Hs].
    + exists p. split; [done|]. eapply for_view_applies; [|done]. by left.
    + destruct (cr_service record) as [s|] eqn:Hcs; [|done]. apply Hg in Hs as (p & Hp & Hf). exists p.
      split; [done|]. eapply for_view_applies; [|done]. by right.
  - intros (p & Hp & He & Hv & [Hs|Hs]); [left; by exists p|].
    destruct (cr_service record) as [s|] eqn:Hcs; [|left; by exists p]. right. apply Hg. by exists p.
Qed.
End Compiled.
