(* ===== verification/StreamSpec.v ===== *)
(** * Matches against the stream

    What a scan reports about the stream its records come from: every candidate
    lies in the stream, and a literal that occurs in the record, or across its
    start where the tail reaches back far enough, is reported. *)

From stdpp Require Import strings.
From S2P Require Import Prelude Model Text Services Disk Sink Matching Matcher ScanSpec GroupSpec.

(** ** Parts of a stream *)

Section Stream.
Context (stream : StreamKey -> Z -> byte).

(** The bytes [bs] stand in the stream at [off]. *)
Definition in_stream (key : StreamKey) (off : Z) (bs : bytes) : Prop :=
  forall i b, bs !! i = Some b -> stream key (off + Z.of_nat i) = b.

Lemma in_stream_nil key off : in_stream key off [].
Proof. intros i b H. done. Qed.

Lemma in_stream_app key off bs cs :
  in_stream key off (bs ++ cs) <-> in_stream key off bs /\ in_stream key (off + blen bs) cs.
Proof.
  unfold in_stream, blen. split.
  - intros H. split; intros i b Hi.
    + apply H. by apply lookup_app_l_Some.
    + rewrite <- (H (length bs + i)%nat b); [f_equal; lia|]. rewrite lookup_app_r by lia. by replace (_ - _)%nat with i by lia.
  - intros [H1 H2] i b [Hi|[? Hi]]%lookup_app_Some; [by apply H1|].
    rewrite <- (H2 _ _ Hi). f_equal. lia.
Qed.

Lemma in_stream_take key off n bs : in_stream key off bs -> in_stream key off (take n bs).
Proof. intros H. rewrite <- (take_drop n bs) in H. by apply in_stream_app in H as [? _]. Qed.

Lemma in_stream_drop key off n bs :
  in_stream key off bs -> in_stream key (off + Z.min (Z.of_nat n) (blen bs)) (drop n bs).
Proof.
  intros H. rewrite <- (take_drop n bs) in H. apply in_stream_app in H as [_ H].
  replace (Z.min _ _) with (blen (take n bs)); [done|]. unfold blen. rewrite length_take. lia.
Qed.

Lemma part_inv s e (w l : bytes) :
  part s e w = Some l -> 0 <= s <= e /\ e <= blen w /\ blen l = e - s /\
    l = take (Z.to_nat (e - s)) (drop (Z.to_nat s) w).
Proof.
  unfold part, slice. intros H. case_match; [|done]. reflect_bools. simplify_eq.
  split; [lia|]. split; [lia|]. split; [|done].
  unfold blen in *. rewrite length_take, length_drop. lia.
Qed.

Lemma part_in_stream key off w s e l :
  in_stream key off w -> part s e w = Some l -> in_stream key (off + s) l.
Proof.
  intros Hw H. apply part_inv in H as (Hs & He & _ & ->). apply in_stream_take.
  replace (off + s) with (off + Z.min (Z.of_nat (Z.to_nat s)) (blen w)) by lia. by apply in_stream_drop.
Qed.

(** Two texts of one length at the same place are the same. *)
Lemma in_stream_eq key off bs cs :
  in_stream key off bs -> in_stream key off cs -> blen bs = blen cs -> bs = cs.
Proof.
  intros H1 H2 Hl. apply list_eq. intros i. unfold blen in Hl.
  destruct (bs !! i) as [b|] eqn:Hb.
  - assert (is_Some (cs !! i)) as [c Hc].
    { apply lookup_lt_is_Some_2. apply lookup_lt_Some in Hb. lia. }
    rewrite Hc. f_equal. by rewrite <- (H1 _ _ Hb), <- (H2 _ _ Hc).
  - apply lookup_ge_None in Hb. symmetry. apply lookup_ge_None. lia.
Qed.

Lemma part_of_stream key off w s l :
  in_stream key off w -> in_stream key s l -> off <= s -> s + blen l <= off + blen w ->
  part (s - off) (s - off + blen l) w = Some l.
Proof.
  intros Hw Hl H1 H2. pose proof (blen_nonneg l).
  destruct (part (s - off) (s - off + blen l) w) as [l'|] eqn:Hp.
  - f_equal. pose proof (part_in_stream _ _ _ _ _ _ Hw Hp) as Hl'.
    replace (off + (s - off)) with s in Hl' by lia. apply part_inv in Hp as (_ & _ & Hlen & _).
    eapply in_stream_eq; [done..|lia].
  - unfold part in Hp. rewrite slice_full_spec in Hp by lia. done.
Qed.

Definition record_in (r : ContentRecord) : Prop :=
  0 <= cr_stream_offset r /\ cr_stream_offset r + blen (cr_data r) <= u64_MAX /\
  in_stream (stream_key r) (cr_stream_offset r) (cr_data r).

(** The tail is the stream before the record. *)
Definition prefix_in_stream (r : ContentRecord) (prefix : bytes) : Prop :=
  blen prefix <= cr_stream_offset r /\
  in_stream (stream_key r) (cr_stream_offset r - blen prefix) prefix.

(** ** Matches that are there *)

Section Genuine.
Context `{HE : Engines}.

(** [hit] is a match of the rule [p] that the scan of [r] may report. *)
Record genuine (r : ContentRecord) (p : PatternRevision) (historical : bool) (hit : MatchRecord) : Prop := {
  gn_applies : applies r p;
  gn_record : hit = match_record p r (mr_offset_start hit) (mr_offset_end hit) historical;
  gn_new : cr_stream_offset r <= mr_offset_end hit <= cr_stream_offset r + blen (cr_data r);
  gn_literal l : literal_of p = Ok l ->
    mr_offset_end hit = mr_offset_start hit + blen l /\ in_stream (stream_key r) (mr_offset_start hit) l;
  gn_regex : is_literal p = false ->
    exists find base window m,
      regex_new (pr_expression p) = Ok find /\ m ∈ find window /\ in_stream (stream_key r) base window /\
      base + blen window = cr_stream_offset r + blen (cr_data r) /\
      mr_offset_start hit = base + m.1 /\ mr_offset_end hit = base + m.2
}.

Section Records.
Context {HL : EnginesLaws} (r : ContentRecord) (historical : bool) (Hr : record_in r)
  (prefix : bytes) (Hp : prefix_in_stream r prefix).

Lemma last_n_length n (l : bytes) : 0 <= n -> blen (last_n n l) = Z.min n (blen l).
Proof. intros H. unfold last_n, blen, sat_sub. rewrite length_drop. lia. Qed.

Lemma last_n_in_stream key off n l :
  0 <= n -> in_stream key (off - blen l) l -> in_stream key (off - blen (last_n n l)) (last_n n l).
Proof.
  intros Hn H. rewrite last_n_length by done. unfold last_n.
  eapply in_stream_drop in H. pose proof (blen_nonneg l).
  replace (off - Z.min n (blen l)) with (off - blen l + Z.min (Z.of_nat (Z.to_nat (sat_sub (blen l) n))) (blen l));
    [exact H|unfold sat_sub; lia].
Qed.

Lemma blen_take n (l : bytes) : 0 <= n -> blen (take (Z.to_nat n) l) = Z.min n (blen l).
Proof. intros H. unfold blen. rewrite length_take. lia. Qed.

Lemma bridge_in_stream g :
  1 < max_literal_len g ->
  bridge_base r g prefix = cr_stream_offset r - blen (last_n (max_literal_len g - 1) prefix) /\
  in_stream (stream_key r) (bridge_base r g prefix) (bridge_of r g prefix) /\
  blen (bridge_of r g prefix) <= blen (last_n (max_literal_len g - 1) prefix) + blen (cr_data r).
Proof.
  intros Hl. destruct Hr as (H0 & Hm & Hd), Hp as [Hle Hs].
  assert (bridge_base r g prefix = cr_stream_offset r - blen (last_n (max_literal_len g - 1) prefix)) as Hb.
  { unfold bridge_base. apply sat_sub_ge. rewrite last_n_length by lia. lia. }
  split; [done|]. rewrite Hb. unfold bridge_of. split.
  - apply in_stream_app. split; [apply last_n_in_stream; [lia|done]|].
    replace (_ - _ + _) with (cr_stream_offset r) by lia. by apply in_stream_take.
  - rewrite blen_app. unfold blen. rewrite length_take. lia.
Qed.

Section Group.
Context (rules : list PatternRevision) (g : CompiledGroup) (lits : list bytes) (Hg : group_of rules g lits).

Lemma literal_found find w m base :
  literal_ac g = Some find -> m ∈ find w -> 0 <= base -> base + blen w <= u64_MAX ->
  exists p l, p ∈ rules /\ lits !! fd_pattern m = Some l /\ literal_of p = Ok l /\ is_literal p = true /\
    part (fd_start m) (fd_end m) w = Some l /\
    literal_candidate r historical g base m =
      Some (p, match_record p r (base + fd_start m) (base + fd_end m) historical).
Proof.
  intros Hf Hin H0 Hmax. destruct Hg as [Hm _ Hl _ _ _ Hac _ _]. rewrite Hf in Hac.
  destruct (ac_sound _ _ _ _ Hac Hin) as (l & Hl' & Hpart).
  destruct (Forall2_lookup_r _ _ _ _ _ Hl Hl') as (p & Hp' & Hlit).
  assert (p ∈ filter (fun p => is_literal p = true) rules) as [? ?]%list_elem_of_filter.
  { rewrite <- Hm. by eapply list_elem_of_lookup_2. }
  exists p, l. do 5 (split; [done|]). unfold literal_candidate, candidate. rewrite Hp'. cbn.
  apply part_inv in Hpart as (? & ? & _ & _). unfold wrapping_add. unfold u64_MAX in *.
  by rewrite !wrap_small by lia.
Qed.

Lemma literal_genuine find w m base c :
  literal_ac g = Some find -> m ∈ find w -> 0 <= base -> base + blen w <= u64_MAX ->
  in_stream (stream_key r) base w ->
  (forall p, p ∈ rules -> applies r p) ->
  literal_candidate r historical g base m = Some c ->
  cr_stream_offset r <= mr_offset_end c.2 <= cr_stream_offset r + blen (cr_data r) ->
  c.1 ∈ rules /\ genuine r c.1 historical c.2.
Proof.
  intros Hf Hin H0 Hmax Hw Ha Hc Hend.
  destruct (literal_found find w m base Hf Hin H0 Hmax) as (p & l & Hpr & _ & Hlit & Hil & Hpart & Hc').
  rewrite Hc' in Hc. simplify_eq/=. split; [done|]. pose proof (part_in_stream _ _ _ _ _ _ Hw Hpart) as Hs.
  apply part_inv in Hpart as (? & ? & Hlen & _). constructor; cbn; [by apply Ha|done|done| |congruence].
  intros l' Hl'. assert (l' = l) as -> by congruence. split; [lia|done].
Qed.

Lemma literal_candidates_genuine c :
  (forall p, p ∈ rules -> applies r p) -> c ∈ literal_candidates r historical g prefix ->
  c.1 ∈ rules /\ genuine r c.1 historical c.2.
Proof.
  intros Ha Hc. unfold literal_candidates in Hc. destruct (literal_ac g) as [find|] eqn:Hf; [|by apply elem_of_nil in Hc].
  destruct Hr as (H0 & Hm & Hd), Hp as [Hle Hs].
  apply elem_of_app in Hc as [Hc|Hc].
  - unfold bridge_candidates in Hc. destruct (_ && _) eqn:Hb; [|by apply elem_of_nil in Hc]. reflect_bools.
    apply list_elem_of_omap in Hc as (m & Hin & (c' & Hc & Hk)%bind_Some).
    unfold keep_crossing in Hk. destruct (crosses r c') eqn:Hx; [|done]. simplify_eq.
    unfold crosses in Hx. reflect_bools.
    destruct (bridge_in_stream g ltac:(done)) as (Hbase & Hbr & Hlen).
    assert (0 <= bridge_base r g prefix) by (unfold bridge_base, sat_sub; lia).
    eapply literal_genuine; [done..| |done|done|done|]; [lia|].
    destruct (literal_found find _ m (bridge_base r g prefix) Hf Hin ltac:(lia) ltac:(lia))
      as (p & l & _ & _ & _ & _ & Hpart & Hc'). rewrite Hc' in Hc. simplify_eq/=.
    apply part_inv in Hpart as (? & ? & _ & _). lia.
  - apply list_elem_of_omap in Hc as (m & Hin & Hc).
    eapply literal_genuine; [done..|].
    destruct (literal_found find _ m (cr_stream_offset r) Hf Hin ltac:(lia) ltac:(lia))
      as (p & l & _ & _ & _ & _ & Hpart & Hc'). rewrite Hc' in Hc. simplify_eq/=.
    apply part_inv in Hpart as (? & ? & _ & _). lia.
Qed.

Lemma regex_window_spec :
  exists window base, (regex_window r prefix).1 = (window, base) /\ 0 <= base /\
    base + blen window = cr_stream_offset r + blen (cr_data r) /\ in_stream (stream_key r) base window /\
    match (regex_window r prefix).2 with Some b => b = cr_stream_offset r | None => base = cr_stream_offset r end.
Proof.
  destruct Hr as (H0 & Hm & Hd), Hp as [Hle Hs]. unfold regex_window.
  destruct (is_empty prefix); cbn [fst snd]; eexists _, _; (split; [reflexivity|]); [done|].
  rewrite sat_sub_ge, blen_app by lia. repeat split; [lia|lia|]. apply in_stream_app. split; [done|].
  by replace (_ - _ + _) with (cr_stream_offset r) by lia.
Qed.

Lemma regex_candidates_genuine c :
  (forall p, p ∈ rules -> applies r p) -> c ∈ regex_candidates r historical g prefix ->
  c.1 ∈ rules /\ genuine r c.1 historical c.2.
Proof.
  intros Ha Hc. unfold regex_candidates in Hc. destruct (regex_set g) as [matches|]; [|by apply elem_of_nil in Hc].
  apply list_elem_of_In, in_flat_map in Hc as (i & _ & Hc%list_elem_of_In). unfold one_regex in Hc.
  destruct regex_window_spec as (window & base & Hw & H0 & Hlen & Hin & Hb).
  destruct (regex_window r prefix) as [wb boundary]. cbn [fst snd] in *. subst wb.
  destruct (regex_meta g !! i) as [p|] eqn:Hp'; [|by apply elem_of_nil in Hc].
  destruct (regex_compiled g !! i) as [find|] eqn:Hf; [|by apply elem_of_nil in Hc].
  apply list_elem_of_omap in Hc as (m & Hm & Hc).
  destruct Hg as [_ Hmeta _ _ _ _ _ _ Hcomp].
  pose proof (Forall2_lookup_lr _ _ _ _ _ _ Hcomp Hp' Hf) as Hre. cbv beta in Hre.
  destruct (regex_in_range _ _ _ _ Hre Hm) as [Hr1 Hr2].
  assert (p ∈ filter (fun p => is_literal p = false) rules) as [Hnl Hpr]%list_elem_of_filter.
  { rewrite <- Hmeta. by eapply list_elem_of_lookup_2. }
  destruct Hr as (Hr0 & Hmax & Hd).
  unfold new_candidate, candidate, is_old, wrapping_add, u64_MAX in *. cbn in Hc. rewrite !wrap_small in Hc by lia.
  assert (cr_stream_offset r <= base + m.2 /\ c = (p, match_record p r (base + m.1) (base + m.2) historical)) as [Hge ->].
  { destruct boundary as [b|]; [|simplify_eq; split; [lia|done]].
    destruct (base + m.2 <=? b) eqn:Ho; [done|]. reflect_bools. simplify_eq. split; [lia|done]. }
  split; [done|]. constructor; cbn; [by apply Ha|done|lia| |].
  - intros l Hl. unfold literal_of, is_literal in *. by destruct (pr_kind p).
  - intros _. by exists find, base, window, m.
Qed.

(** An occurrence in the data of the record is reported, or hidden by one whose
    end lies inside it. *)
Lemma data_literal_found i l s :
  lits !! i = Some l -> l <> [] -> in_stream (stream_key r) s l ->
  cr_stream_offset r <= s -> s + blen l <= cr_stream_offset r + blen (cr_data r) ->
  exists c, c ∈ literal_candidates r historical g prefix /\ c.1 ∈ rules /\ is_literal c.1 = true /\
    s < mr_offset_end c.2 <= s + blen l.
Proof.
  intros Hi Hne Hs H1 H2. pose proof Hg as [_ _ _ _ _ _ Hac _ _].
  unfold literal_candidates. destruct (literal_ac g) as [find|] eqn:Hf; [|by rewrite Hac in Hi].
  destruct Hr as (H0 & Hm & Hd).
  pose proof (part_of_stream _ _ _ _ _ Hd Hs H1 H2) as Hpart.
  destruct (ac_complete _ _ _ _ _ _ _ Hac Hi Hne Hpart) as (m & Hin & Hend).
  destruct (literal_found find _ m (cr_stream_offset r) Hf Hin ltac:(lia) ltac:(lia))
    as (p & l' & Hpr & _ & _ & Hil & _ & Hc).
  exists (p, match_record p r (cr_stream_offset r + fd_start m) (cr_stream_offset r + fd_end m) historical).
  split; [|split; [done|split; [done|cbn; lia]]].
  apply elem_of_app. right. apply list_elem_of_omap. by exists m.
Qed.

(** One that crosses into the record is, if the literals have one length and the
    tail reaches back to its start. *)
Lemma crossing_literal_found i l s :
  lits !! i = Some l -> Forall (fun l' => blen l' = blen l) lits -> in_stream (stream_key r) s l ->
  s < cr_stream_offset r < s + blen l -> s + blen l <= cr_stream_offset r + blen (cr_data r) ->
  cr_stream_offset r - blen prefix <= s ->
  exists c, c ∈ literal_candidates r historical g prefix /\ c.1 ∈ rules /\ is_literal c.1 = true /\
    s < mr_offset_end c.2 <= s + blen l.
Proof.
  intros Hi Hall Hs H1 H2 H3. pose proof Hg as [_ _ _ Hle _ Hreach Hac _ _].
  unfold literal_candidates. destruct (literal_ac g) as [find|] eqn:Hf; [|by rewrite Hac in Hi].
  assert (max_literal_len g = blen l) as HLen.
  { pose proof (Forall_lookup_1 _ _ _ _ Hle Hi) as Hmax. cbv beta in Hmax. destruct Hreach as [H|H]; [lia|].
    apply Exists_exists in H as (l' & Hin & <-). rewrite Forall_forall in Hall. by apply Hall. }
  destruct (bridge_in_stream g ltac:(lia)) as (Hbase & Hbr & Hlen).
  pose proof Hr as (H0 & Hm & Hd). pose proof Hp as [Hple Hps]. rewrite last_n_length in * by lia.
  assert (bridge_base r g prefix <= s) by lia.
  assert (s + blen l <= bridge_base r g prefix + blen (bridge_of r g prefix)) as Hfit.
  { unfold bridge_of. rewrite blen_app, last_n_length, blen_take by lia. lia. }
  pose proof (part_of_stream _ _ _ _ _ Hbr Hs ltac:(done) Hfit) as Hpart.
  assert (l <> []) as Hne by (intros ->; rewrite blen_nil in H1; lia).
  destruct (ac_complete _ _ _ _ _ _ _ Hac Hi Hne Hpart) as (m & Hin & Hend).
  assert (0 <= bridge_base r g prefix) by lia.
  destruct (literal_found find _ m (bridge_base r g prefix) Hf Hin ltac:(lia) ltac:(lia))
    as (p & l' & Hpr & Hl' & _ & Hil & Hpm & Hc).
  pose proof (Forall_lookup_1 _ _ _ _ Hall Hl') as Hlen'. cbv beta in Hlen'.
  apply part_inv in Hpm as (? & ? & Hlm & _).
  exists (p, match_record p r (bridge_base r g prefix + fd_start m) (bridge_base r g prefix + fd_end m) historical).
  split; [|split; [done|split; [done|cbn; lia]]].
  apply elem_of_app. left. unfold bridge_candidates. rewrite HLen.
  destruct (is_empty prefix) eqn:He; [apply is_empty_spec in He; subst prefix; rewrite blen_nil in H3; lia|].
  rewrite (proj2 (Z.ltb_lt 1 (blen l))) by lia. cbn [negb andb].
  apply list_elem_of_omap. exists m. split; [done|]. rewrite Hc. cbn. unfold keep_crossing, crosses. cbn.
  rewrite (proj2 (Z.ltb_lt _ _)) by lia. by rewrite (proj2 (Z.ltb_lt _ _)) by lia.
Qed.
End Group.

(** The group of a literal rule that applies. *)
Lemma literal_group ps set p l :
  CompiledPatternSet_compile ps = Ok set -> p ∈ ps -> applies r p -> literal_of p = Ok l ->
  exists g lits i, group set (pr_service p) (cr_view r) = Some g /\
    group_of (rules_of (cr_view r) (pr_service p) ps) g lits /\ lits !! i = Some l.
Proof.
  intros Hset Hpin Ha Hl.
  pose proof (compile_group ps set (pr_service p) (cr_view r) Hset) as Hgo.
  assert (p ∈ rules_of (cr_view r) (pr_service p) ps) as Hrule.
  { apply list_elem_of_filter. split; [|done]. destruct Ha as (? & ? & _). done. }
  destruct (group set (pr_service p) (cr_view r)) as [g|] eqn:Hgrp; [|rewrite Hgo in Hrule; by apply elem_of_nil in Hrule].
  destruct Hgo as (lits & Hg & _).
  exists g, lits. enough (exists i, lits !! i = Some l) as [i Hi] by (by exists i).
  destruct Hg as [Hm _ Hls _ _ _ _ _ _].
  assert (p ∈ literal_meta g) as [i Hi]%list_elem_of_lookup.
  { rewrite Hm. apply list_elem_of_filter. split; [|done]. unfold is_literal, literal_of in *. by destruct (pr_kind p). }
  destruct (Forall2_lookup_l _ _ _ _ _ Hls Hi) as (l' & Hl' & Hlit). exists i. congruence.
Qed.

(** The tail a literal needs is kept. *)
Lemma required_overlap_literal ps set p l limit :
  CompiledPatternSet_compile ps = Ok set -> p ∈ ps -> applies r p -> literal_of p = Ok l ->
  blen l - 1 <= required_overlap set r limit.
Proof.
  intros Hset Hpin Ha Hl. destruct (literal_group ps set p l Hset Hpin Ha Hl) as (g & lits & i & Hg & Hgo & Hi).
  pose proof (Forall_lookup_1 _ _ _ _ (go_len _ _ _ Hgo) Hi) as Hle. cbv beta in Hle.
  assert (blen l - 1 <= required_overlap_group limit g) as Hgrp.
  { unfold required_overlap_group, sat_sub. destruct (regex_set g); lia. }
  unfold required_overlap. rewrite groups_for_group. destruct Ha as (_ & _ & Hs).
  destruct (pr_service p) as [sv|] eqn:Hps.
  - destruct Hs as [|Hs]; [done|]. rewrite <- Hs, Hg. destruct (group set None (cr_view r)); cbn; lia.
  - rewrite Hg. cbn. lia.
Qed.

(** The literals of the rules beside [p] have the length of [l]. *)
Definition one_length (ps : list PatternRevision) (p : PatternRevision) (l : bytes) : Prop :=
  forall q l', q ∈ ps -> applies r q -> pr_service q = pr_service p -> literal_of q = Ok l' -> blen l' = blen l.

Lemma scan_finds ps set p l s :
  CompiledPatternSet_compile ps = Ok set -> p ∈ ps -> applies r p -> literal_of p = Ok l -> l <> [] ->
  one_length ps p l -> in_stream (stream_key r) s l ->
  cr_stream_offset r < s + blen l <= cr_stream_offset r + blen (cr_data r) ->
  cr_stream_offset r <= s \/ cr_stream_offset r - blen prefix <= s ->
  exists c, c ∈ scan_candidates r historical set prefix /\ c.1 ∈ ps /\ applies r c.1 /\ is_literal c.1 = true /\
    pr_service c.1 = pr_service p /\ s < mr_offset_end c.2 <= s + blen l.
Proof.
  intros Hset Hpin Ha Hl Hne Hone Hs Hend Hreach.
  destruct (literal_group ps set p l Hset Hpin Ha Hl) as (g & lits & i & Hgrp & Hg & Hi).
  assert (forall q, q ∈ rules_of (cr_view r) (pr_service p) ps -> q ∈ ps /\ applies r q /\ pr_service q = pr_service p) as Hrules.
  { intros q [(? & Hq & ?) ?]%list_elem_of_filter. split; [done|]. split; [|done]. repeat split; [done..|].
    rewrite Hq. by destruct Ha as (_ & _ & ?). }
  assert (Forall (fun l' => blen l' = blen l) lits) as Hall.
  { apply Forall_lookup_2. intros j l' Hj. destruct Hg as [Hm _ Hls _ _ _ _ _ _].
    destruct (Forall2_lookup_r _ _ _ _ _ Hls Hj) as (q & Hq & Hlit).
    assert (q ∈ filter (fun p => is_literal p = true) (rules_of (cr_view r) (pr_service p) ps))
      as [_ Hq']%list_elem_of_filter by (rewrite <- Hm; by eapply list_elem_of_lookup_2).
    destruct (Hrules q Hq') as (? & ? & ?). by eapply Hone. }
  assert (exists c, c ∈ literal_candidates r historical g prefix /\ c.1 ∈ rules_of (cr_view r) (pr_service p) ps /\
            is_literal c.1 = true /\ s < mr_offset_end c.2 <= s + blen l) as (c & Hc & Hcr & Hcl & Hce).
  { destruct (decide (cr_stream_offset r <= s)).
    - eapply data_literal_found; [done..|lia].
    - eapply crossing_literal_found; [done..|lia|lia|lia]. }
  destruct (Hrules _ Hcr) as (? & ? & ?). exists c. split; [|done].
  unfold scan_candidates. rewrite groups_for_group. rewrite flat_map_app.
  assert (c ∈ group_candidates r historical prefix g) as Hcg by (apply elem_of_app; by left).
  apply elem_of_app. destruct Ha as (_ & _ & Hsv). destruct (pr_service p) as [sv|] eqn:Hps.
  - right. destruct Hsv as [|Hsv]; [done|]. rewrite <- Hsv, Hgrp. cbn. by rewrite app_nil_r.
  - left. rewrite Hgrp. cbn. by rewrite app_nil_r.
Qed.

Lemma scan_candidates_genuine ps set c :
  CompiledPatternSet_compile ps = Ok set -> c ∈ scan_candidates r historical set prefix ->
  c.1 ∈ ps /\ genuine r c.1 historical c.2.
Proof.
  intros Hset Hc. unfold scan_candidates in Hc. rewrite groups_for_group in Hc.
  assert (exists service g, (service = None \/ service = cr_service r) /\ group set service (cr_view r) = Some g /\
            c ∈ group_candidates r historical prefix g) as (service & g & Hs & Hg & Hcg).
  { rewrite flat_map_app in Hc. apply elem_of_app in Hc as [Hc|Hc].
    - exists None. destruct (group set None (cr_view r)) as [g|]; [|by apply elem_of_nil in Hc].
      exists g. cbn in Hc. rewrite app_nil_r in Hc. auto.
    - destruct (cr_service r) as [s|] eqn:Hcs; [|by apply elem_of_nil in Hc].
      exists (Some s). destruct (group set (Some s) (cr_view r)) as [g|]; [|by apply elem_of_nil in Hc].
      exists g. cbn in Hc. rewrite app_nil_r in Hc. auto. }
  pose proof (compile_group ps set service (cr_view r) Hset) as Hgo. rewrite Hg in Hgo.
  destruct Hgo as (lits & Hgo & _).
  assert (forall p, p ∈ rules_of (cr_view r) service ps -> applies r p) as Ha.
  { intros p [Hf _]%list_elem_of_filter. by eapply for_view_applies. }
  assert (c.1 ∈ rules_of (cr_view r) service ps /\ genuine r c.1 historical c.2) as [[_ ?]%list_elem_of_filter ?]; [|done].
  apply elem_of_app in Hcg as [Hcg|Hcg]; [by eapply literal_candidates_genuine|by eapply regex_candidates_genuine].
Qed.
End Records.
End Genuine.
End Stream.
