(* ===== verification/MatcherSpec.v ===== *)
(** * The tails of a worker

    What [build_tail] keeps, that every tail is a part of its stream, and that the
    tables beside the tails know every one of them. *)

From stdpp Require Import strings.
From S2P Require Import Prelude Model Services Text Disk Sink Spool Metadata MetadataSink Matching Matcher ScanSpec.
From S2P Require Import GroupSpec StreamSpec.

Lemma last_n_all {A} n (l : list A) : blen l <= n -> last_n n l = l.
Proof. intros H. unfold last_n, sat_sub. by replace (Z.to_nat _) with 0%nat by lia. Qed.

Lemma last_n_app {A} n (l k : list A) :
  0 <= n -> last_n n (l ++ k) = last_n (sat_sub n (blen k)) l ++ last_n n k.
Proof.
  intros H. unfold last_n. rewrite blen_app, drop_app.
  pose proof (blen_nonneg l). pose proof (blen_nonneg k). unfold sat_sub, blen in *. f_equal.
  - destruct (decide (Z.of_nat (length k) <= n)); [f_equal; lia|]. by rewrite !drop_ge by lia.
  - f_equal. lia.
Qed.

(** [build_tail] keeps the last [keep] bytes of what it had and what came. *)
Lemma build_tail_spec previous data keep :
  0 <= keep -> build_tail previous data keep = Some (last_n keep (previous ++ data)).
Proof.
  intros H. pose proof (blen_nonneg previous). pose proof (blen_nonneg data).
  unfold build_tail. destruct (keep =? 0) eqn:Hz; reflect_bools; [|destruct (keep <=? blen data) eqn:Hk; reflect_bools].
  - subst keep. unfold last_n, sat_sub. rewrite drop_ge; [done|]. unfold blen. lia.
  - rewrite slice_suffix by lia. rewrite last_n_app by done. unfold last_n at 1.
    rewrite (drop_ge previous) by (unfold sat_sub, blen in *; lia). cbn. unfold last_n, sat_sub. do 2 f_equal. lia.
  - rewrite slice_suffix by (unfold sat_sub; lia). cbn. rewrite last_n_app by done.
    rewrite (last_n_all _ data) by lia. do 2 f_equal. unfold last_n. f_equal. unfold sat_sub. lia.
Qed.

Lemma drop_tails_lookup keys m key :
  drop_tails keys m !! key = if decide (key ∈ keys) then None else m !! key.
Proof.
  revert m. induction keys as [|k keys IH]; intros m; [by rewrite decide_False by set_solver|].
  cbn. unfold drop_tails in IH. rewrite IH. destruct (decide (key ∈ keys)) as [Hin|Hin].
  - by rewrite decide_True by set_solver.
  - destruct (decide (key = k)) as [->|Hne].
    + rewrite lookup_delete_eq. by rewrite decide_True by set_solver.
    + rewrite lookup_delete_ne by done. by rewrite decide_False by set_solver.
Qed.

(** ** Every tail is a part of its stream *)

Section Genuine.
Context (stream : StreamKey -> Z -> byte).

Definition tails_in_stream (m : Tails) : Prop :=
  forall key t, m !! key = Some t ->
    blen (t_data t) <= t_end_offset t /\ in_stream stream key (t_end_offset t - blen (t_data t)) (t_data t).

Lemma tails_in_stream_empty : tails_in_stream ∅.
Proof. intros key t H. by rewrite lookup_empty in H. Qed.

Lemma tails_in_stream_delete key m : tails_in_stream m -> tails_in_stream (delete key m).
Proof. intros H k t [_ Hk]%lookup_delete_Some. by apply H. Qed.

Lemma prefix_in_in_stream m r generation :
  tails_in_stream m -> 0 <= cr_stream_offset r -> prefix_in_stream stream r (prefix_in m r generation).
Proof.
  intros H H0. unfold prefix_in, prefix_in_stream. destruct (m !! stream_key r) as [t|] eqn:Ht.
  - unfold prefix_for. destruct (_ && _) eqn:He; [|split; [done|apply in_stream_nil]].
    reflect_bools. destruct (H _ _ Ht) as [? ?]. match goal with E : t_end_offset t = _ |- _ => rewrite <- E end. done.
  - split; [done|apply in_stream_nil].
Qed.

Lemma tails_in_stream_keep m m' r prefix generation keep :
  tails_in_stream m -> record_in stream r -> prefix_in_stream stream r prefix -> 0 <= keep ->
  keep_tail m r prefix generation keep = Some m' -> tails_in_stream m'.
Proof.
  intros H (H0 & Hmax & Hd) (Hple & Hps) Hk Hm. unfold keep_tail in Hm.
  destruct (keep =? 0); [simplify_eq; by apply tails_in_stream_delete|].
  rewrite build_tail_spec in Hm by done. cbn in Hm. simplify_eq. intros key t Ht.
  apply lookup_insert_Some in Ht as [[<- <-]|[_ Ht]]; [|by apply H]. cbn.
  rewrite sat_add_small by done. set (all := prefix ++ cr_data r).
  assert (blen all = blen prefix + blen (cr_data r)) as Hall by apply blen_app.
  split; [rewrite last_n_length by done; lia|]. apply last_n_in_stream; [done|].
  rewrite Hall. replace (_ + _ - _) with (cr_stream_offset r - blen prefix) by lia.
  apply in_stream_app. split; [done|]. by replace (_ - _ + _) with (cr_stream_offset r) by lia.
Qed.

Lemma tails_in_stream_drop keys m : tails_in_stream m -> tails_in_stream (drop_tails keys m).
Proof. intros H k t Hk. rewrite drop_tails_lookup in Hk. case_decide; [done|]. by apply H. Qed.

Lemma tails_in_stream_forget id w : tails_in_stream (tails w) -> tails_in_stream (tails (forget_flow id w)).
Proof. intros H. cbn. case_match; [by apply tails_in_stream_drop|done]. Qed.

Lemma tails_in_stream_evict now w : tails_in_stream (tails w) -> tails_in_stream (tails (evict now w)).
Proof.
  unfold evict. destruct (_ =? 0); [|done]. generalize (stale_flows now (flow_last_seen w)). intros ids.
  revert w. induction ids as [|id ids IH]; intros w H; [done|]. by apply IH, tails_in_stream_forget.
Qed.
End Genuine.

Lemma required_overlap_nonneg set record limit : 0 <= required_overlap set record limit.
Proof.
  unfold required_overlap. destruct (groups_for set record). induction (_ ++ _); cbn; lia.
Qed.

(** ** The tables of a worker *)

(** Every tail is listed under its flow, whose last record is known; the lists
    hold keys of their flow, each once. *)
Record tracked (w : MatcherWorker) : Prop := {
  tk_listed key t : tails w !! key = Some t ->
    exists keys, flow_tail_keys w !! sk_flow_id key = Some keys /\ key ∈ keys;
  tk_seen id keys : flow_tail_keys w !! id = Some keys -> is_Some (flow_last_seen w !! id);
  tk_flow id keys : flow_tail_keys w !! id = Some keys -> NoDup keys /\ Forall (fun k => sk_flow_id k = id) keys
}.

Lemma tracked_new : tracked new_worker.
Proof. constructor; cbn; intros ? ?; rewrite lookup_empty; done. Qed.

Lemma tracked_delete key w : tracked w -> tracked (set_tails (delete key (tails w)) w).
Proof. intros [Hl Hs Hf]. constructor; cbn; [|done..]. intros k t [_ Hk]%lookup_delete_Some. by eapply Hl. Qed.

Lemma tracked_forget id w : tracked w -> tracked (forget_flow id w).
Proof.
  intros [Hl Hs Hf]. constructor; cbn.
  - intros key t Hk.
    assert (tails w !! key = Some t /\ forall keys, flow_tail_keys w !! id = Some keys -> key ∉ keys) as [Ht Hn].
    { destruct (flow_tail_keys w !! id) as [keys|] eqn:Hi; [|done].
      rewrite drop_tails_lookup in Hk. case_decide; [done|]. split; [done|]. by intros ? [= <-]. }
    destruct (Hl _ _ Ht) as (keys & Hkeys & Hin). exists keys. split; [|done].
    rewrite lookup_delete_ne; [done|]. intros ->. by eapply Hn.
  - intros i keys [Hne Hi]%lookup_delete_Some. rewrite lookup_delete_ne by done. by eapply Hs.
  - intros i keys [_ Hi]%lookup_delete_Some. by apply Hf.
Qed.

(** After it a flow is known nowhere. *)
Definition flow_unknown (id : FlowId) (w : MatcherWorker) : Prop :=
  flow_last_seen w !! id = None /\ flow_tail_keys w !! id = None /\
  forall key, sk_flow_id key = id -> tails w !! key = None.

Lemma forget_unknown id w : tracked w -> flow_unknown id (forget_flow id w).
Proof.
  intros H. split; [apply lookup_delete_eq|]. split; [apply lookup_delete_eq|]. intros key Hk.
  destruct (tails (forget_flow id w) !! key) as [t|] eqn:Ht; [|done].
  destruct (tk_listed _ (tracked_forget id w H) _ _ Ht) as (keys & Hkeys & _). subst id. cbn in Hkeys.
  by rewrite lookup_delete_eq in Hkeys.
Qed.

Lemma tracked_fold ids w : tracked w -> tracked (foldl (fun w id => forget_flow id w) w ids).
Proof. revert w. induction ids as [|id ids IH]; intros w H; [done|]. by apply IH, tracked_forget. Qed.

Lemma tracked_evict now w : tracked w -> tracked (evict now w).
Proof. unfold evict. destruct (_ =? 0); [|done]. apply tracked_fold. Qed.

Lemma tracked_note id now w : tracked w -> tracked (note_record id now w).
Proof.
  intros [Hl Hs Hf]. constructor; cbn; [done| |done]. intros i keys Hi.
  destruct (decide (i = id)) as [->|]; [by rewrite lookup_insert_eq|]. rewrite lookup_insert_ne by done. by eapply Hs.
Qed.

Lemma existsb_key (key : StreamKey) keys : existsb (fun tracked => bool_decide (tracked = key)) keys = true <-> key ∈ keys.
Proof.
  rewrite existsb_exists. split.
  - intros (k & Hk%list_elem_of_In & <-%bool_decide_eq_true). done.
  - intros H. exists key. rewrite bool_decide_eq_true. split; [by apply list_elem_of_In|done].
Qed.

(** Listing the key of a record, then its tail. *)
Lemma tracked_track r t w :
  tracked w -> is_Some (flow_last_seen w !! cr_flow_id r) ->
  tracked (set_tails (<[stream_key r := t]> (tails w)) (track_key r w)).
Proof.
  intros Hw Hseen. pose proof Hw as [Hl Hs Hf]. unfold track_key.
  set (keys := default [] (flow_tail_keys w !! cr_flow_id r)).
  destruct (is_some (tails w !! stream_key r) || _) eqn:Ht.
  - constructor; cbn; [|done..]. intros key t' [[<- <-]|[_ Hk]]%lookup_insert_Some; [|by eapply Hl].
    apply orb_true_iff in Ht as [Ht|Ht%existsb_key].
    + destruct (tails w !! stream_key r) as [t'|] eqn:Hk; [|done]. by eapply Hl.
    + subst keys. cbn. destruct (flow_tail_keys w !! cr_flow_id r) as [keys|]; [by eauto|]. by apply elem_of_nil in Ht.
  - reflect_bools. assert (stream_key r ∉ keys) as Hnew by (rewrite <- existsb_key; congruence).
    assert (NoDup keys /\ Forall (fun k => sk_flow_id k = cr_flow_id r) keys) as [Hnd Hfl].
    { subst keys. destruct (flow_tail_keys w !! cr_flow_id r) as [ks|] eqn:Hk; [by apply Hf|]. by split; constructor. }
    constructor; cbn.
    + intros key t' [[<- <-]|[_ Hk]]%lookup_insert_Some.
      * exists (keys ++ [stream_key r]). rewrite lookup_insert_eq. split; [done|]. set_solver.
      * destruct (Hl _ _ Hk) as (ks & Hks & Hin).
        destruct (decide (sk_flow_id key = cr_flow_id r)) as [He|He].
        -- rewrite He in *. rewrite lookup_insert_eq. eexists. split; [done|]. subst keys. rewrite Hks. set_solver.
        -- exists ks. by rewrite lookup_insert_ne by done.
    + intros id ks [[<- _]|[_ Hi]]%lookup_insert_Some; [done|]. by eapply Hs.
    + intros id ks [[<- <-]|[_ Hi]]%lookup_insert_Some; [|by apply Hf]. split.
      * apply NoDup_app. split; [done|]. split; [set_solver|]. apply NoDup_singleton.
      * apply Forall_app. split; [done|]. by repeat constructor.
Qed.

(** * Runs of a matcher worker

    The sink as a matcher sees it, and the invariant of a worker over any sequence
    of messages: it never panics, every tail is a part of its stream and listed
    under its flow, and what it sends are matches that stand in the streams. *)

(** A sink whose accepted matches are known. *)
Class MatchLog (S : Type) `{MetadataSink S} := {
  matches_sent : S -> list MatchRecord;
  accepting : S -> Prop;
  match_accepted h s s' :
    send (MetaMatch h) s = (Ok tt, s') -> matches_sent s' = matches_sent s ++ [h];
  match_refused h s s' : send (MetaMatch h) s = (Err, s') -> matches_sent s' = matches_sent s;
  match_accepting h s :
    accepting s -> exists s', send (MetaMatch h) s = (Ok tt, s') /\ accepting s'
}.

Definition match_row (e : MetadataEvent) : option MatchRecord :=
  match e with MetaMatch h => Some h | _ => None end.

(** The metadata pipeline is one: it accepts while its writer runs. *)
#[export] Program Instance meta_match_log `{SpoolCodec} : MatchLog Meta := {
  matches_sent s := omap match_row (me_sent s);
  accepting s := me_writing s = true
}.
Next Obligation.
  intros ? h s s' Hs. cbn in Hs. unfold meta_send in Hs. destruct (me_writing s); [|done].
  apply pair_equal_spec in Hs as [_ <-]. cbn. by rewrite omap_app.
Qed.
Next Obligation.
  intros ? h s s' Hs. cbn in Hs. unfold meta_send in Hs. destruct (me_writing s); [done|].
  apply pair_equal_spec in Hs as [_ <-]. done.
Qed.
Next Obligation.
  intros ? h s Hs. cbn in *. unfold meta_send. rewrite Hs. by eexists.
Qed.

Section Run.
Context {S : Type} `{HS : MetadataSink S} {HM : MatchLog S}.
Implicit Types x : MatchWorld S.

Definition sent x : list MatchRecord := matches_sent (mw_sink x).

(** A beginning of the hits is sent, all of them unless the sink is gone. *)
Lemma send_hits_spec service hs x :
  exists go x' n, send_hits service hs x = (go, x') /\ sent x' = sent x ++ take n hs /\
    (go = true -> sent x' = sent x ++ hs) /\ (accepting (mw_sink x) -> go = true /\ accepting (mw_sink x')).
Proof.
  revert x. induction hs as [|h hs IH]; intros x.
  { exists true, x, 0%nat. cbn. by rewrite app_nil_r. }
  cbn [send_hits]. destruct (send (MetaMatch h) (mw_sink (count_scan 0 1 0 x))) as [[[]|] s] eqn:Hs; cbn in Hs.
  - match goal with |- context [send_hits service hs ?y] => destruct (IH y) as (go & x' & n & Hr & Hn & Hg & Ha) end.
    unfold sent in *. cbn [mw_sink] in *. rewrite (match_accepted _ _ _ Hs), <- app_assoc in Hn, Hg.
    exists go, x', (Datatypes.S n). split; [exact Hr|]. split; [exact Hn|]. split; [exact Hg|].
    intros Hacc. apply Ha. destruct (match_accepting h _ Hacc) as (s' & Hs' & ?). by rewrite Hs' in Hs; simplify_eq.
  - eexists false, _, 0%nat. split; [reflexivity|]. unfold sent. cbn. rewrite app_nil_r.
    split; [by apply (match_refused h)|]. split; [done|]. intros Hacc.
    destruct (match_accepting h _ Hacc) as (s' & Hs' & ?). by rewrite Hs' in Hs.
Qed.

Context (stream : StreamKey -> Z -> byte) `{HE : Engines} {HL : EnginesLaws}.
Context (cfg : MatchLimits) (Hp : 0 <= max_hits_per_pattern cfg) (Ht : 0 <= max_hits_per_record cfg).

(** A message whose record is a part of its stream and whose rules were compiled. *)
Definition work_ok (work : MatcherWork) : Prop :=
  match work with
  | FlowClosed _ => True
  | Content r set _ => record_in stream r /\ exists ps, CompiledPatternSet_compile ps = Ok set
  end.

(** A match of a rule of the message that may be reported for its record. *)
Definition genuine_for (work : MatcherWork) (hit : MatchRecord) : Prop :=
  match work with
  | FlowClosed _ => False
  | Content r set _ => exists ps p, CompiledPatternSet_compile ps = Ok set /\ p ∈ ps /\ genuine stream r p false hit
  end.

(** The tails a record finds. *)
Lemma tails_before id seen now w :
  tails_in_stream stream (tails w) -> tails_in_stream stream (tails (evict now (note_record id seen w))).
Proof. intros H. by apply tails_in_stream_evict. Qed.

(** One record: no panic, and genuine matches only. *)
Lemma worker_content_spec seen now r set generation w x :
  work_ok (Content r set generation) -> tails_in_stream stream (tails w) ->
  exists go w' x' hs, worker_content cfg seen now r set generation w x = Some (go, w', x') /\
    tails_in_stream stream (tails w') /\ sent x' = sent x ++ hs /\
    Forall (genuine_for (Content r set generation)) hs.
Proof.
  intros [Hr [ps Hps]] Hw. apply (tails_before (cr_flow_id r) seen now) in Hw. unfold worker_content.
  set (w1 := evict now (note_record (cr_flow_id r) seen w)) in *.
  destruct (negb (is_interested set r)).
  { eexists true, _, x, []. split; [reflexivity|]. rewrite app_nil_r. split; [by apply tails_in_stream_delete|done]. }
  pose proof (prefix_in_in_stream stream _ r generation Hw (proj1 Hr)) as Hpre.
  set (tail := prefix_in (tails w1) r generation) in *.
  destruct (scan_bounded_spec set r tail false _ _ (compiled_fits ps set Hps) Hp Ht) as (o & -> & Ho & _).
  cbn [mbind option_bind].
  match goal with |- context [send_hits _ (hits o) ?y] =>
    destruct (send_hits_spec (cr_service r) (hits o) y) as (go & x2 & n & Hsend & Hn & _ & _);
    assert (sent y = sent x) as Hy by (by destruct (so_limited o)) end.
  rewrite Hsend, Hy in *. cbn [mbind option_bind].
  assert (Forall (genuine_for (Content r set generation)) (take n (hits o))) as Hgen.
  { apply Forall_forall. intros h (i & Hi & _)%elem_of_take. apply list_elem_of_lookup_2 in Hi. rewrite Ho in Hi.
    apply within_limits_elem in Hi as (c & Hc & <-).
    destruct (scan_candidates_genuine stream r false Hr tail Hpre ps set c Hps Hc). by exists ps, c.1. }
  destruct go; cbn [negb]; [|by eexists false, w1, x2, _].
  set (keep := required_overlap set r (overlap_limit cfg)).
  pose proof (required_overlap_nonneg set r (overlap_limit cfg)) as Hkeep.
  assert (exists next, keep_tail (tails w1) r tail generation keep = Some next) as [next Hnext].
  { unfold keep_tail. destruct (keep =? 0); [by eexists|]. rewrite build_tail_spec by done. by eexists. }
  rewrite Hnext. cbn [mbind option_bind]. eexists true, _, x2, _. split; [reflexivity|].
  split; [|by split]. cbn. by eapply tails_in_stream_keep.
Qed.

Lemma worker_turn_spec seen now work w x :
  work_ok work -> tails_in_stream stream (tails w) ->
  exists go w' x' hs, worker_turn cfg seen now work w x = Some (go, w', x') /\
    tails_in_stream stream (tails w') /\ sent x' = sent x ++ hs /\ Forall (genuine_for work) hs.
Proof.
  intros Hok Hw. unfold worker_turn. destruct work as [r set generation|id].
  - match goal with |- context [worker_content _ _ _ _ _ _ _ ?y] =>
      destruct (worker_content_spec seen now r set generation w y Hok Hw) as (go & w' & x' & hs & Hc) end.
    by exists go, w', x', hs.
  - eexists true, _, _, []. split; [reflexivity|]. rewrite app_nil_r. split; [by apply tails_in_stream_forget|done].
Qed.

End Run.

(** ** The tables *)

Section Tables.
Context {S : Type} `{HS : MetadataSink S} {HM : MatchLog S} (cfg : MatchLimits).
Implicit Types x : MatchWorld S.

Lemma foldl_forget_other id ids w :
  id ∉ ids -> flow_last_seen (foldl (fun w id => forget_flow id w) w ids) !! id = flow_last_seen w !! id.
Proof.
  revert w. induction ids as [|i ids IH]; intros w Hn; [done|]. cbn. rewrite IH by set_solver. cbn.
  apply lookup_delete_ne. set_solver.
Qed.

(** Eviction spares a flow seen less than two minutes before. *)
Lemma evict_spares id now w t :
  flow_last_seen w !! id = Some t -> sat_sub now t < FLOW_TAIL_AGE -> is_Some (flow_last_seen (evict now w) !! id).
Proof.
  intros Hs Ha. unfold evict. destruct (_ =? 0); [|by eexists]. rewrite foldl_forget_other; [by eexists|].
  unfold stale_flows. intros ([i t'] & Hi & [Hle Hin]%list_elem_of_filter)%list_elem_of_fmap. cbn in *. subst i.
  apply elem_of_map_to_list in Hin. assert (t' = t) as -> by congruence. lia.
Qed.

(** The two clock readings of a turn are less than two minutes apart. *)
Definition prompt (msg : MatcherWork * (Z * Z)) : Prop := sat_sub msg.2.2 msg.2.1 < FLOW_TAIL_AGE.

Lemma worker_content_tracked seen now r set generation w x go w' x' :
  tracked w -> is_Some (flow_last_seen (evict now (note_record (cr_flow_id r) seen w)) !! cr_flow_id r) ->
  worker_content cfg seen now r set generation w x = Some (go, w', x') -> tracked w'.
Proof.
  intros Hw Hseen Hturn.
  unfold worker_content in Hturn. set (w1 := evict now (note_record (cr_flow_id r) seen w)) in *.
  assert (tracked w1) as Hw1 by (by apply tracked_evict, tracked_note).
  destruct (negb (is_interested set r)); [simplify_eq; by apply tracked_delete|].
  apply bind_Some in Hturn as (o & _ & Hturn). destruct (send_hits _ _ _) as [b x2].
  destruct b; cbn [negb] in Hturn; [|by simplify_eq].
  apply bind_Some in Hturn as (next & Hnext & Hturn). unfold keep_tail in Hnext.
  destruct (required_overlap _ _ _ =? 0) eqn:Hk; simplify_eq; [by apply tracked_delete|].
  apply bind_Some in Hnext as (t & _ & Hnext). simplify_eq. by apply tracked_track.
Qed.

Lemma worker_turn_tracked seen now work w x go w' x' :
  tracked w -> prompt (work, (seen, now)) -> worker_turn cfg seen now work w x = Some (go, w', x') -> tracked w'.
Proof.
  intros Hw Hpr Hturn. destruct work as [r set generation|id]; cbn in Hturn.
  - eapply worker_content_tracked; [done| |done]. eapply evict_spares; [apply lookup_insert_eq|exact Hpr].
  - simplify_eq. by apply tracked_forget.
Qed.
End Tables.
