(* ===== verification/ReplaySpec.v ===== *)
(** * The replay scanner

    It never panics, below the first eviction its tails change with the records
    alone, and it reports every occurrence of a literal in a stream cut into
    contiguous records, wherever the cuts fall. *)

From stdpp Require Import strings.
From S2P Require Import Prelude Model Text Services Disk Sink.
From S2P Require Import Matching Matcher ScanSpec GroupSpec StreamSpec MatcherSpec.

Section Replay.
Context `{HE : Engines} {HL : EnginesLaws}.
Implicit Types s : ReplayScanner.

(** The tails a record leaves when nothing is evicted. *)
Definition tails_after (r : ContentRecord) (s : ReplayScanner) : option Tails :=
  if negb (is_interested (rs_patterns s) r) then Some (delete (stream_key r) (rs_tails s))
  else keep_tail (rs_tails s) r (prefix_in (rs_tails s) r 0) 0
         (required_overlap (rs_patterns s) r (overlap_limit (rs_limits s))).

Lemma keep_tail_some m r tail generation keep :
  0 <= keep -> exists next, keep_tail m r tail generation keep = Some next.
Proof.
  intros H. unfold keep_tail. destruct (keep =? 0); [by eexists|]. rewrite build_tail_spec by done. by eexists.
Qed.

(** A scanner with compiled rules that has scanned [n] records. *)
Record scanner_ok (ps : list PatternRevision) (n : Z) (s : ReplayScanner) : Prop := {
  so_rules : CompiledPatternSet_compile ps = Ok (rs_patterns s);
  so_per_pattern : 0 <= max_hits_per_pattern (rs_limits s);
  so_per_record : 0 <= max_hits_per_record (rs_limits s);
  so_scanned : 0 <= rs_scanned_records s <= n
}.

Lemma rs_evict_small ts s : 0 < rs_scanned_records s < 4096 -> rs_evict ts s = s.
Proof.
  intros H. unfold rs_evict. destruct (_ =? 0) eqn:He; [|done]. reflect_bools.
  rewrite Z.mod_small in He by lia. lia.
Qed.

Lemma scan_record_spec ps n s r :
  scanner_ok ps n s -> n < 4095 ->
  exists o s' next, scan_record r s = Some (o, s') /\ tails_after r s = Some next /\ rs_tails s' = next /\
    scanner_ok ps (n + 1) s' /\ rs_patterns s' = rs_patterns s /\ rs_limits s' = rs_limits s /\
    let cs := scan_candidates r true (rs_patterns s) (prefix_in (rs_tails s) r 0) in
    (is_interested (rs_patterns s) r = true ->
     hits o = within_limits (max_hits_per_pattern (rs_limits s)) (max_hits_per_record (rs_limits s)) cs /\
     (so_limited o = false -> hits o = map snd cs)) /\
    (is_interested (rs_patterns s) r = false -> hits o = []).
Proof.
  intros [Hps Hp Ht Hn] Hlt. unfold scan_record, tails_after.
  destruct (is_interested (rs_patterns s) r) eqn:Hi; cbn [negb].
  2:{ eexists _, _, _. split; [reflexivity|]. do 2 (split; [done|]). split; [constructor; cbn; [done..|lia]|done]. }
  destruct (scan_bounded_spec (rs_patterns s) r (prefix_in (rs_tails s) r 0) true _ _
              (compiled_fits ps _ Hps) Hp Ht) as (o & -> & Ho & Hl). cbn [mbind option_bind].
  destruct (keep_tail_some (rs_tails s) r (prefix_in (rs_tails s) r 0) 0 _
              (required_overlap_nonneg (rs_patterns s) r (overlap_limit (rs_limits s)))) as [next Hnext].
  rewrite Hnext. cbn [mbind option_bind].
  assert (wrapping_add 64 (rs_scanned_records s) 1 = rs_scanned_records s + 1) as Hw.
  { unfold wrapping_add. apply wrap_small. lia. }
  rewrite rs_evict_small by (cbn; lia). eexists o, _, next. split; [reflexivity|]. do 2 (split; [done|]).
  split; [constructor; cbn; [done..|lia]|]. split; [done|]. split; [done|]. split; [done|]. done.
Qed.

(** ** Every literal of a stream *)

Context (stream : StreamKey -> Z -> byte) (ps : list PatternRevision).
Context (key : StreamKey) (p : PatternRevision) (l : bytes) (Hpin : p ∈ ps) (Hl : literal_of p = Ok l) (Hne : l <> []).

(** The records of a stream follow each other from [off]. *)
Fixpoint contiguous (off : Z) (rs : list ContentRecord) : Prop :=
  match rs with [] => True | r :: rs => cr_stream_offset r = off /\ contiguous (off + blen (cr_data r)) rs end.

Fixpoint stream_length (rs : list ContentRecord) : Z :=
  match rs with [] => 0 | r :: rs => blen (cr_data r) + stream_length rs end.

Definition of_key (rs : list ContentRecord) : list ContentRecord := filter (fun r => stream_key r = key) rs.

(** [p] applies to the records of the stream, beside literals of its length. *)
Definition scanned_for (r : ContentRecord) : Prop := applies r p /\ one_length r ps p l.

(** The tail that the next record of the stream finds. *)
Definition tail_reaches (lo hi : Z) (m : Tails) : Prop :=
  forall r, stream_key r = key -> cr_stream_offset r = hi -> Z.min (blen l - 1) (hi - lo) <= blen (prefix_in m r 0).

(** A hit of a literal rule beside [p] whose end lies inside the occurrence at [s]. *)
Definition reports (at_ : Z) (h : MatchRecord) : Prop :=
  mr_flow_id h = sk_flow_id key /\ mr_view h = sk_view key /\ mr_historical h = true /\
  at_ < mr_offset_end h <= at_ + blen l /\
  exists q, q ∈ ps /\ is_literal q = true /\ pr_service q = pr_service p /\
    mr_pattern_id h = pr_id q /\ mr_pattern_revision h = pr_revision q.

Lemma prefix_in_key m m' r generation :
  m !! stream_key r = m' !! stream_key r -> prefix_in m r generation = prefix_in m' r generation.
Proof. unfold prefix_in. by intros ->. Qed.

Lemma tails_after_other r s next k :
  tails_after r s = Some next -> k <> stream_key r -> next !! k = rs_tails s !! k.
Proof.
  unfold tails_after, keep_tail. intros H Hk. destruct (negb _); [simplify_eq; by rewrite lookup_delete_ne|].
  destruct (_ =? 0); [simplify_eq; by rewrite lookup_delete_ne|].
  apply bind_Some in H as (t & _ & H). simplify_eq. by rewrite lookup_insert_ne.
Qed.

Lemma tail_reaches_other lo hi r s next :
  tail_reaches lo hi (rs_tails s) -> tails_after r s = Some next -> stream_key r <> key -> tail_reaches lo hi next.
Proof.
  intros H Hn Hk r' Hr' Ho. rewrite (prefix_in_key next (rs_tails s)); [by apply H|].
  eapply tails_after_other; [done|]. congruence.
Qed.

Lemma tail_reaches_next lo hi r s next n :
  scanner_ok ps n s -> record_in stream r -> scanned_for r -> stream_key r = key -> cr_stream_offset r = hi -> lo <= hi ->
  tail_reaches lo hi (rs_tails s) -> tails_after r s = Some next -> tail_reaches lo (hi + blen (cr_data r)) next.
Proof.
  intros Hok (H0 & Hmax & _) [Ha _] Hk Ho Hle Hr Hn r' Hk' Ho'. unfold tails_after in Hn.
  assert (is_interested (rs_patterns s) r = true) as Hi.
  { eapply is_interested_spec; [by apply (so_rules _ _ _ Hok)|]. by exists p. }
  rewrite Hi in Hn. cbn [negb] in Hn. specialize (Hr r Hk Ho).
  set (tail := prefix_in (rs_tails s) r 0) in *. set (keep := required_overlap _ _ _) in *.
  assert (blen l - 1 <= keep) as Hkeep.
  { eapply required_overlap_literal; [by apply (so_rules _ _ _ Hok)|done..]. }
  pose proof (blen_nonneg tail). pose proof (blen_nonneg (cr_data r)). pose proof (blen_pos l Hne).
  unfold keep_tail in Hn. destruct (keep =? 0) eqn:Hz; reflect_bools.
  { pose proof (blen_nonneg (prefix_in next r' 0)). lia. }
  rewrite build_tail_spec in Hn by lia. cbn [mbind option_bind] in Hn. apply (inj Some) in Hn as <-. unfold prefix_in.
  rewrite Hk', Hk, lookup_insert_eq. unfold prefix_for. cbn [t_generation t_end_offset t_data].
  rewrite sat_add_small by done. rewrite (proj2 (Z.eqb_eq (cr_stream_offset r + _) _)) by lia. cbn [andb Z.eqb].
  rewrite (last_n_length _ _) by lia. rewrite blen_app. lia.
Qed.

(** The record in which an occurrence ends reports it. *)
Lemma record_reports lo r s n o at_ :
  scanner_ok ps n s -> record_in stream r -> scanned_for r -> stream_key r = key ->
  tails_in_stream stream (rs_tails s) -> tail_reaches lo (cr_stream_offset r) (rs_tails s) ->
  in_stream stream key at_ l -> lo <= at_ ->
  cr_stream_offset r < at_ + blen l <= cr_stream_offset r + blen (cr_data r) ->
  hits o = map snd (scan_candidates r true (rs_patterns s) (prefix_in (rs_tails s) r 0)) ->
  exists h, h ∈ hits o /\ reports at_ h.
Proof.
  intros Hok Hr [Ha Hone] Hk Hts Hreach Hin Hlo Hend Ho. specialize (Hreach r Hk eq_refl).
  pose proof (prefix_in_in_stream stream _ r 0 Hts (proj1 Hr)) as Hpre.
  pose proof (so_rules _ _ _ Hok) as Hps. rewrite <- Hk in Hin.
  destruct (scan_finds stream r true Hr _ Hpre ps _ p l at_ Hps Hpin Ha Hl Hne Hone Hin Hend)
    as (c & Hc & Hcps & Hca & Hcl & Hcs & Hce); [lia|].
  destruct (scan_candidates_genuine stream r true Hr _ Hpre ps _ c Hps Hc) as [_ Hg].
  exists c.2. rewrite Ho. split; [by apply list_elem_of_fmap_2|]. unfold reports.
  rewrite (gn_record _ _ _ _ _ Hg). rewrite <- Hk. cbn. repeat split; [lia..|]. by exists c.1.
Qed.

Lemma tails_after_in_stream r s next :
  record_in stream r -> tails_in_stream stream (rs_tails s) -> tails_after r s = Some next -> tails_in_stream stream next.
Proof.
  intros Hr Hts Hn. unfold tails_after in Hn. destruct (negb _); [simplify_eq; by apply tails_in_stream_delete|].
  eapply tails_in_stream_keep; [done|done| |apply required_overlap_nonneg|exact Hn].
  apply prefix_in_in_stream; [done|apply Hr].
Qed.

(** From a scanner whose tail reaches back, every occurrence still to end. *)
Lemma scan_records_spec at_ lo rs : forall s n hi,
  scanner_ok ps n s -> 0 <= n -> n + Z.of_nat (length rs) < 4096 ->
  Forall (record_in stream) rs -> Forall scanned_for (of_key rs) -> contiguous hi (of_key rs) ->
  tails_in_stream stream (rs_tails s) -> lo <= hi -> tail_reaches lo hi (rs_tails s) ->
  exists os s', scan_records rs s = Some (os, s') /\
    (Forall (fun o => so_limited o = false) os -> in_stream stream key at_ l ->
     lo <= at_ -> hi < at_ + blen l <= hi + stream_length (of_key rs) ->
     exists o h, o ∈ os /\ h ∈ hits o /\ reports at_ h).
Proof.
  induction rs as [|r rs IH]; intros s n hi Hok Hn0 Hlen Hin Hfor Hcont Hts Hle Hreach.
  { exists [], s. split; [done|]. cbn. lia. }
  apply Forall_cons in Hin as [Hr Hin]. cbn [length] in Hlen.
  destruct (scan_record_spec ps n s r Hok ltac:(lia)) as (o & s1 & next & Hscan & Hafter & Hs1 & Hok1 & _ & _ & Ho & _).
  assert (tails_in_stream stream (rs_tails s1)) as Hts1 by (rewrite Hs1; by eapply tails_after_in_stream).
  cbn [scan_records]. rewrite Hscan. cbn [mbind option_bind]. unfold of_key in *.
  destruct (decide (stream_key r = key)) as [Hk|Hk].
  - rewrite filter_cons_True in Hfor, Hcont |- * by done. apply Forall_cons in Hfor as [Hf Hfor].
    cbn [contiguous stream_length] in *. destruct Hcont as [Hoff Hcont].
    destruct (IH s1 (n + 1) (hi + blen (cr_data r))) as (os & s' & Hrec & Hfind); 
      [done|lia|lia|done|done|done|done|pose proof (blen_nonneg (cr_data r)); lia
      |rewrite Hs1; exact (tail_reaches_next lo hi r s next n Hok Hr Hf Hk Hoff Hle Hreach Hafter)|].
    rewrite Hrec. cbn [mbind option_bind]. eexists _, _. split; [reflexivity|].
    intros [Hlim Hlims]%Forall_cons Hat Hlo Hend.
    destruct (decide (at_ + blen l <= hi + blen (cr_data r))).
    + assert (is_interested (rs_patterns s) r = true) as Hi.
      { eapply is_interested_spec; [by apply (so_rules _ _ _ Hok)|]. exists p. split; [done|apply Hf]. }
      subst hi. destruct (record_reports lo r s n o at_ Hok Hr Hf Hk Hts Hreach Hat Hlo ltac:(lia)) as (h & ? & ?).
      { by apply Ho. }
      exists o, h. split; [apply list_elem_of_here|done].
    + destruct (Hfind Hlims Hat Hlo ltac:(lia)) as (o' & h & ? & ?). exists o', h. split; [by apply list_elem_of_further|done].
  - rewrite filter_cons_False in Hfor, Hcont |- * by done.
    destruct (IH s1 (n + 1) hi) as (os & s' & Hrec & Hfind); 
      [done|lia|lia|done|done|done|done|done|rewrite Hs1; exact (tail_reaches_other lo hi r s next Hreach Hafter Hk)|].
    rewrite Hrec. cbn [mbind option_bind]. eexists _, _. split; [reflexivity|].
    intros [Hlim Hlims]%Forall_cons Hat Hlo Hend.
    destruct (Hfind Hlims Hat Hlo Hend) as (o' & h & ? & ?). exists o', h. split; [by apply list_elem_of_further|done].
Qed.
End Replay.

(** From a new scanner, every occurrence. *)
Lemma new_scanner_reports `{HE : Engines} {HL : EnginesLaws} (stream : StreamKey -> Z -> byte) ps cfg scanner records key p l lo :
  ReplayScanner_new ps cfg = Ok scanner -> 0 <= max_hits_per_pattern cfg -> 0 <= max_hits_per_record cfg ->
  Z.of_nat (length records) < 4096 -> Forall (record_in stream) records ->
  p ∈ ps -> literal_of p = Ok l -> l <> [] ->
  Forall (scanned_for ps p l) (of_key key records) -> contiguous lo (of_key key records) ->
  exists os s', scan_records records scanner = Some (os, s') /\
    (Forall (fun o => so_limited o = false) os ->
     forall at_, in_stream stream key at_ l -> lo <= at_ -> at_ + blen l <= lo + stream_length (of_key key records) ->
     exists o h, o ∈ os /\ h ∈ hits o /\ reports ps key p l at_ h).
Proof.
  intros (set & Hset & [= <-])%bind_Ok Hp Ht Hlen Hin Hpin Hl Hne Hfor Hcont.
  pose proof (blen_pos l Hne) as Hpos.
  assert (forall at_, exists os s', scan_records records
            {| rs_patterns := set; rs_tails := ∅; rs_last_seen_ns := ∅; rs_limits := cfg; rs_scanned_records := 0 |} = Some (os, s') /\
            (Forall (fun o => so_limited o = false) os -> in_stream stream key at_ l -> lo <= at_ ->
             lo < at_ + blen l <= lo + stream_length (of_key key records) ->
             exists o h, o ∈ os /\ h ∈ hits o /\ reports ps key p l at_ h)) as Hall.
  { intros at_. eapply (scan_records_spec stream ps key p l Hpin Hl Hne at_ lo records _ 0 lo); try done.
    intros r _ _. rewrite Z.sub_diag. pose proof (blen_nonneg (prefix_in ∅ r 0)). cbn [rs_tails]. lia. }
  destruct (Hall 0) as (os & s' & Hrec & _). exists os, s'. split; [done|]. intros Hlim at_ Hat Hlo Hend.
  destruct (Hall at_) as (os2 & s2 & Hrec2 & Hfind). assert (os2 = os) as -> by congruence. apply Hfind; [done..|lia].
Qed.
