(* ===== verification/LiveReplay.v ===== *)
(** * The live worker and the replay scanner agree

    On the records of one rule set, below the first eviction, a worker sends the
    hits that a replay of the same records finds, in order, whatever the flows
    that close in between. *)

From stdpp Require Import strings.
From S2P Require Import Prelude Model Text Services Disk Sink.
From S2P Require Import Matching Matcher ScanSpec GroupSpec StreamSpec MatcherSpec ReplaySpec.

(** The hit as the live matcher reports it. *)
Definition live (h : MatchRecord) : MatchRecord :=
  {| mr_timestamp := mr_timestamp h; mr_pattern_id := mr_pattern_id h; mr_pattern_revision := mr_pattern_revision h;
     mr_flow_id := mr_flow_id h; mr_content_id := mr_content_id h; mr_view := mr_view h; mr_action := mr_action h;
     mr_offset_start := mr_offset_start h; mr_offset_end := mr_offset_end h; mr_historical := false |}.

(** ** The scan does not depend on the mark *)

Definition as_live (c : Candidate) : Candidate := (c.1, live c.2).

Lemma omap_map_lift {A B C} (f : A -> option B) (g : A -> option C) (h : B -> C) (l : list A) :
  (forall a, g a = h <$> f a) -> omap g l = map h (omap f l).
Proof. intros H. induction l as [|a l IH]; [done|]. cbn. rewrite H, IH. by destruct (f a). Qed.

Lemma flat_map_lift {A B C} (f : A -> list B) (g : A -> list C) (h : B -> C) (l : list A) :
  (forall a, g a = map h (f a)) -> flat_map g l = map h (flat_map f l).
Proof. intros H. induction l as [|a l IH]; [done|]. cbn. by rewrite H, IH, map_app. Qed.

Section Live.
Context (r : ContentRecord).

Lemma literal_candidate_live g base m :
  literal_candidate r false g base m = as_live <$> literal_candidate r true g base m.
Proof. unfold literal_candidate. by destruct (literal_meta g !! fd_pattern m). Qed.

Lemma group_candidates_live prefix g :
  group_candidates r false prefix g = map as_live (group_candidates r true prefix g).
Proof.
  unfold group_candidates. rewrite map_app. f_equal.
  - unfold literal_candidates. destruct (literal_ac g) as [find|]; [|done]. rewrite map_app. f_equal.
    + unfold bridge_candidates. destruct (_ && _); [|done]. apply omap_map_lift. intros m.
      rewrite literal_candidate_live. destruct (literal_candidate r true g _ m) as [c|]; [|done]. cbn.
      unfold keep_crossing, crosses. cbn. by destruct (_ && _).
    + apply omap_map_lift, literal_candidate_live.
  - unfold regex_candidates. destruct (regex_set g) as [matches|]; [|done]. apply flat_map_lift. intros i.
    unfold one_regex. destruct (regex_window r prefix) as [[window base] boundary].
    destruct (regex_meta g !! i) as [p|]; [|done]. destruct (regex_compiled g !! i) as [find|]; [|done].
    apply omap_map_lift. intros m. unfold new_candidate, is_old. cbn. destruct boundary as [b|]; [|done].
    by destruct (_ <=? b).
Qed.

Lemma scan_candidates_live set prefix :
  scan_candidates r false set prefix = map as_live (scan_candidates r true set prefix).
Proof. unfold scan_candidates. destruct (groups_for set r). apply flat_map_lift. apply group_candidates_live. Qed.
End Live.

Lemma earlier_live p cs : earlier p (map as_live cs) = earlier p cs.
Proof.
  unfold earlier. induction cs as [|c cs IH]; [done|]. cbn [map]. unfold filter in *. cbn.
  case_decide; [|done]. rewrite !blen_cons. by f_equal.
Qed.

Lemma capped_live mp seen cs : capped mp (map as_live seen) (map as_live cs) = map live (capped mp seen cs).
Proof.
  revert seen. induction cs as [|c cs IH]; intros seen; [done|]. cbn [map capped].
  rewrite map_app, <- IH, map_app, earlier_live. cbn [as_live fst snd]. f_equal. by case_match.
Qed.

Lemma within_limits_live mp mt cs : within_limits mp mt (map as_live cs) = map live (within_limits mp mt cs).
Proof. unfold within_limits. rewrite <- capped_live. by rewrite <- List.firstn_map. Qed.

(** ** Tails that agree *)

Definition same_tail (generation : Z) (t u : option TailState) : Prop :=
  match t, u with
  | None, None => True
  | Some t, Some u => t_data t = t_data u /\ t_end_offset t = t_end_offset u /\
                      t_generation t = generation /\ t_generation u = 0
  | _, _ => False
  end.

(** On the flows that are not closed. *)
Definition tails_agree (generation : Z) (closed : list FlowId) (m n : Tails) : Prop :=
  forall key, sk_flow_id key ∉ closed -> same_tail generation (m !! key) (n !! key).

Lemma prefix_in_agree generation closed m n r :
  tails_agree generation closed m n -> cr_flow_id r ∉ closed -> prefix_in m r generation = prefix_in n r 0.
Proof.
  intros H Hr. specialize (H (stream_key r) Hr). unfold prefix_in, same_tail in *.
  destruct (m !! stream_key r) as [t|], (n !! stream_key r) as [u|]; try done.
  destruct H as (Hd & He & Ht & Hu). unfold prefix_for. by rewrite Hd, He, Ht, Hu, !Z.eqb_refl.
Qed.

Lemma tails_agree_delete generation closed key m n :
  tails_agree generation closed m n -> tails_agree generation closed (delete key m) (delete key n).
Proof.
  intros H k Hk. destruct (decide (k = key)) as [->|]; [by rewrite !lookup_delete_eq|].
  rewrite !lookup_delete_ne by done. by apply H.
Qed.

Lemma keep_tail_agree generation closed m n r tail keep m' :
  tails_agree generation closed m n -> keep_tail m r tail generation keep = Some m' ->
  exists n', keep_tail n r tail 0 keep = Some n' /\ tails_agree generation closed m' n'.
Proof.
  intros H Hm. unfold keep_tail in *. destruct (keep =? 0); [simplify_eq; eexists; split; [done|]; by apply tails_agree_delete|].
  apply bind_Some in Hm as (t & -> & Hm). simplify_eq. eexists. split; [done|]. intros k Hk.
  destruct (decide (k = stream_key r)) as [->|]; [by rewrite !lookup_insert_eq|].
  rewrite !lookup_insert_ne by done. by apply H.
Qed.

Lemma tails_agree_forget generation closed id w n :
  tracked w -> tails_agree generation closed (tails w) n ->
  tails_agree generation (id :: closed) (tails (forget_flow id w)) n.
Proof.
  intros Hw H key Hk. apply not_elem_of_cons in Hk as [Hid Hk]. cbn.
  destruct (flow_tail_keys w !! id) as [keys|] eqn:Hkeys; [|by apply H].
  rewrite drop_tails_lookup, decide_False; [by apply H|]. intros Hin.
  destruct (tk_flow _ Hw _ _ Hkeys) as [_ Hf]. rewrite Forall_forall in Hf. by apply Hid, Hf.
Qed.

(** Below 4096 records nothing is evicted. *)
Lemma evict_small now w : 0 < processed_records w < 4096 -> evict now w = w.
Proof.
  intros H. unfold evict. change 4095 with (Z.ones 12). rewrite Z.land_ones by lia.
  rewrite Z.mod_small by lia. by rewrite (proj2 (Z.eqb_neq _ _)) by lia.
Qed.

(** ** In lockstep *)

Section Lockstep.
Context {S : Type} `{HS : MetadataSink S} {HM : MatchLog S} `{HE : Engines} {HL : EnginesLaws}.
Implicit Types x : MatchWorld S.

(** A worker and a scanner after the same [n] records. *)
Record in_step (ps : list PatternRevision) (cfg : MatchLimits) (generation : Z) (closed : list FlowId) (n : Z)
    (w : MatcherWorker) x (s : ReplayScanner) : Prop := {
  is_scanner : scanner_ok ps n s;
  is_limits : rs_limits s = cfg;
  is_tracked : tracked w;
  is_count : processed_records w = n;
  is_tails : tails_agree generation closed (tails w) (rs_tails s);
  is_accepting : accepting (mw_sink x)
}.

Lemma track_key_processed r w : processed_records (track_key r w) = processed_records w.
Proof. unfold track_key. by case_match. Qed.

(** The records of messages, in order. *)
Definition records_of (msgs : list (MatcherWork * (Z * Z))) : list ContentRecord :=
  omap (fun m => match m.1 with Content r _ _ => Some r | FlowClosed _ => None end) msgs.

Lemma content_step ps cfg generation closed n w x s seen now r :
  in_step ps cfg generation closed n w x s -> 0 <= n < 4095 -> cr_flow_id r ∉ closed ->
  exists w' x' o s',
    worker_content cfg seen now r (rs_patterns s) generation w x = Some (true, w', x') /\
    scan_record r s = Some (o, s') /\ rs_patterns s' = rs_patterns s /\
    in_step ps cfg generation closed (n + 1) w' x' s' /\ sent x' = sent x ++ map live (hits o).
Proof.
  intros [Hs Hlim Hw Hn Ht Ha] Hlt Hcl.
  destruct (scan_record_spec ps n s r Hs ltac:(lia)) as (o & s' & next & Hscan & Hafter & Hnext & Hs' & Hpat & Hl' & Hyes & Hno).
  set (w1 := evict now (note_record (cr_flow_id r) seen w)).
  assert (processed_records (note_record (cr_flow_id r) seen w) = n + 1) as Hcount.
  { cbn. rewrite Hn. unfold wrapping_add. apply wrap_small. lia. }
  assert (w1 = note_record (cr_flow_id r) seen w) as Hw1.
  { apply evict_small. rewrite Hcount. lia. }
  enough (exists w' x', worker_content cfg seen now r (rs_patterns s) generation w x = Some (true, w', x') /\
            processed_records w' = n + 1 /\ tails_agree generation closed (tails w') next /\
            accepting (mw_sink x') /\ sent x' = sent x ++ map live (hits o)) as (w' & x' & Hc & Hp & Hta & Hacc & Hsent).
  { exists w', x', o, s'. do 3 (split; [done|]). split; [|done]. subst next. constructor; try done; [by rewrite Hl'|].
    eapply worker_content_tracked; [exact Hw| |exact Hc]. fold w1. rewrite Hw1. cbn. by rewrite lookup_insert_eq. }
  unfold worker_content. fold w1. rewrite Hw1. unfold tails_after in Hafter.
  destruct (is_interested (rs_patterns s) r) eqn:Hi; cbn [negb] in Hafter |- *.
  2:{ apply (inj Some) in Hafter as <-. eexists _, x. split; [reflexivity|]. rewrite Hno by done. cbn [map]. rewrite app_nil_r.
      split; [done|]. split; [by apply tails_agree_delete|done]. }
  change (tails (note_record (cr_flow_id r) seen w)) with (tails w). rewrite (prefix_in_agree _ _ _ _ _ Ht Hcl).
  destruct (Hyes eq_refl) as [Hhits _]. rewrite <- Hlim.
  pose proof Hs as [Hps Hp0 Hm0 _].
  destruct (scan_bounded_spec (rs_patterns s) r (prefix_in (rs_tails s) r 0) false _ _
              (compiled_fits ps _ Hps) Hp0 Hm0) as (o2 & -> & Ho2 & _). cbn [mbind option_bind].
  assert (hits o2 = map live (hits o)) as ->.
  { rewrite Ho2, Hhits. by rewrite scan_candidates_live, within_limits_live. }
  match goal with |- context [send_hits _ _ ?y] =>
    destruct (send_hits_spec (cr_service r) (map live (hits o)) y) as (go & x2 & k & Hsend & _ & Hall & Hacc);
    assert (sent y = sent x /\ mw_sink y = mw_sink x) as [Hy Hy'] by (by destruct (so_limited o2)) end.
  rewrite Hy' in Hacc. destruct (Hacc Ha) as [-> Ha2]. rewrite Hsend. cbn [negb].
  set (keep := required_overlap (rs_patterns s) r (overlap_limit (rs_limits s))) in *.
  pose proof (required_overlap_nonneg (rs_patterns s) r (overlap_limit (rs_limits s))) as Hkeep.
  destruct (keep_tail_some (tails w) r (prefix_in (rs_tails s) r 0) generation keep Hkeep) as [next' Hn'].
  rewrite Hn'. cbn [mbind option_bind]. eexists _, x2. split; [reflexivity|].
  destruct (keep_tail_agree _ _ _ _ _ _ _ _ Ht Hn') as (next2 & Hn2 & Hagree).
  assert (next2 = next) as -> by congruence. split.
  { cbn [set_tails processed_records]. destruct (keep =? 0); [done|]. by rewrite track_key_processed. }
  split; [done|]. split; [done|]. by rewrite (Hall eq_refl), Hy.
Qed.

(** No record of a flow comes after the flow closed. *)
Fixpoint stays_closed (closed : list FlowId) (msgs : list (MatcherWork * (Z * Z))) : Prop :=
  match msgs with
  | [] => True
  | (Content r _ _, _) :: msgs => (cr_flow_id r ∉ closed) /\ stays_closed closed msgs
  | (FlowClosed id, _) :: msgs => stays_closed (id :: closed) msgs
  end.

(** The messages of one rule set. *)
Definition of_set (set : CompiledPatternSet) (generation : Z) (msg : MatcherWork * (Z * Z)) : Prop :=
  match msg.1 with Content _ snapshot g => snapshot = set /\ g = generation | FlowClosed _ => True end.

Lemma lockstep ps cfg generation set msgs : forall closed n w x s,
  in_step ps cfg generation closed n w x s -> rs_patterns s = set -> 0 <= n ->
  n + Z.of_nat (length (records_of msgs)) < 4096 -> stays_closed closed msgs -> Forall (of_set set generation) msgs ->
  exists w' x' os s', matcher_worker_loop cfg msgs w x = Some (w', x') /\
    scan_records (records_of msgs) s = Some (os, s') /\ sent x' = sent x ++ map live (flat_map hits os).
Proof.
  induction msgs as [|[work [seen now]] msgs IH]; intros closed n w x s Hst Hset Hn Hlen Hcl Hof.
  { exists w, x, [], s. cbn. by rewrite app_nil_r. }
  apply Forall_cons in Hof as [Hof Hofs]. cbn [matcher_worker_loop]. unfold worker_turn.
  set (x0 := {| mw_sink := mw_sink x; mw_metrics := _; mw_events := mw_events x |}).
  assert (in_step ps cfg generation closed n w x0 s) as Hst0 by (by destruct Hst; constructor).
  destruct work as [r snapshot g|id].
  - cbn in Hof. destruct Hof as [-> ->]. cbn [records_of omap list_omap fst] in Hlen. change (n + Z.of_nat (Datatypes.S (length (records_of msgs))) < 4096) in Hlen.
    destruct Hcl as [Hr Hcl].
    destruct (content_step ps cfg generation closed n w x0 s seen now r Hst0 ltac:(lia) Hr)
      as (w1 & x1 & o & s1 & Hc & Hscan & Hp1 & Hst1 & Hsent).
    rewrite Hset in Hc, Hp1. rewrite Hc. cbn [mbind option_bind].
    destruct (IH closed (n + 1) w1 x1 s1) as (w' & x' & os & s' & Hloop & Hrec & Hx); [done|done|lia|lia|done|done|].
    exists w', x', (o :: os), s'. split; [done|]. cbn. unfold records_of in Hrec. rewrite Hscan. cbn. rewrite Hrec.
    split; [done|]. rewrite Hx, Hsent, map_app. unfold sent, x0. cbn. by rewrite <- app_assoc.
  - cbn [mbind option_bind].
    destruct (IH (id :: closed) n (forget_flow id w) x0 s) as (w' & x' & os & s' & Hloop & Hrec & Hx);
      [|done|done|done|done|done|by exists w', x', os, s'].
    destruct Hst as [? ? Htr ? ? ?]. constructor; try done; [by apply tracked_forget|by apply tails_agree_forget].
Qed.
End Lockstep.
