(* ===== verification/MatcherTheorems.v ===== *)
(** * Theorems on matching

    What a scan may report and what it may not miss, over the records of whole
    streams, live and in a replay. *)

From stdpp Require Import strings.
From S2P Require Import Prelude Model Services Text Disk Sink Matching Matcher ScanSpec GroupSpec StreamSpec MatcherSpec.
From S2P Require Import ReplaySpec LiveReplay.

(** ** Limits *)

Lemma candidate_key record historical set prefix c :
  c ∈ scan_candidates record historical set prefix ->
  (mr_pattern_id c.2, mr_pattern_revision c.2) = rev_key c.1.
Proof.
  unfold scan_candidates. destruct (groups_for set record).
  intros (g & _ & Hc)%list_elem_of_In%in_flat_map. apply list_elem_of_In, elem_of_app in Hc as [Hc|Hc].
  - assert (forall base m, literal_candidate record historical g base m = Some c ->
              (mr_pattern_id c.2, mr_pattern_revision c.2) = rev_key c.1) as Hl.
    { intros base m H. unfold literal_candidate in H. apply fmap_Some in H as (p & _ & ->). done. }
    unfold literal_candidates in Hc. destruct (literal_ac g) as [find|]; [|by apply elem_of_nil in Hc].
    apply elem_of_app in Hc as [Hc|Hc].
    + unfold bridge_candidates in Hc. destruct (_ && _); [|by apply elem_of_nil in Hc].
      apply list_elem_of_omap in Hc as (m & _ & (c' & Hc & Hk)%bind_Some).
      unfold keep_crossing in Hk. destruct (crosses record c'); [|done]. simplify_eq. by eapply Hl.
    + apply list_elem_of_omap in Hc as (m & _ & Hc). by eapply Hl.
  - unfold regex_candidates in Hc. destruct (regex_set g); [|by apply elem_of_nil in Hc].
    apply list_elem_of_In, in_flat_map in Hc as (i & _ & Hc%list_elem_of_In). unfold one_regex in Hc.
    destruct (regex_window record prefix) as [[window base] boundary].
    destruct (regex_meta g !! i); [|by apply elem_of_nil in Hc].
    destruct (regex_compiled g !! i); [|by apply elem_of_nil in Hc].
    apply list_elem_of_omap in Hc as (m & _ & Hc). unfold new_candidate in Hc. destruct (is_old _ _); by simplify_eq.
Qed.

(** The hits of one revision. *)
Definition hits_of (key : Z * Z) (hs : list MatchRecord) : list MatchRecord :=
  filter (fun h => (mr_pattern_id h, mr_pattern_revision h) = key) hs.

Lemma hits_of_app key hs ks : hits_of key (hs ++ ks) = hits_of key hs ++ hits_of key ks.
Proof. apply filter_app. Qed.

Lemma capped_per_pattern mp key cs : forall seen,
  Forall (fun c => (mr_pattern_id c.2, mr_pattern_revision c.2) = rev_key c.1) cs -> 0 <= mp ->
  blen (hits_of key (capped mp seen cs)) <= mp - Z.min mp (blen (filter (fun c => rev_key c.1 = key) seen)).
Proof.
  induction cs as [|c cs IH]; intros seen Hk H0; [change (blen (hits_of key (capped mp seen []))) with 0; lia|]. apply Forall_cons in Hk as [Hc Hk].
  cbn [capped]. rewrite hits_of_app, blen_app. specialize (IH (seen ++ [c]) Hk H0).
  rewrite filter_app, blen_app in IH. unfold earlier. destruct (decide (rev_key c.1 = key)) as [He|He].
  - rewrite (filter_cons_True _ c []) in IH by done. rewrite filter_nil in IH. change (blen [c]) with 1 in IH.
    rewrite He. destruct (_ <? mp) eqn:Hlt; reflect_bools.
    + unfold hits_of at 1. rewrite filter_cons_True by congruence. rewrite filter_nil. change (blen [c.2]) with 1. lia.
    + change (hits_of key []) with (@nil MatchRecord). rewrite blen_nil. lia.
  - rewrite (filter_cons_False _ c []) in IH by done. rewrite filter_nil, blen_nil in IH.
    assert (hits_of key (if blen (filter (fun c' => rev_key c'.1 = rev_key c.1) seen) <? mp then [c.2] else []) = []) as ->.
    { case_match; [|done]. unfold hits_of. rewrite filter_cons_False by congruence. done. }
    rewrite blen_nil. lia.
Qed.

Section Theorems.
Context `{HE : Engines} {HL : EnginesLaws}.

(** A bounded scan with compiled rules never panics; it returns at most
    [max_total] hits and at most [max_per_pattern] of one revision, exactly the
    beginning that the two limits leave of the candidates of the unbounded scan,
    and all of them unless it says that it was limited. *)
Theorem scan_keeps_limits ps set record prefix historical mp mt :
  CompiledPatternSet_compile ps = Ok set -> 0 <= mp -> 0 <= mt ->
  exists o, scan_bounded set record prefix historical mp mt = Some o /\
    hits o = within_limits mp mt (scan_candidates record historical set prefix) /\
    blen (hits o) <= mt /\ (forall key, blen (hits_of key (hits o)) <= mp) /\
    (so_limited o = false -> hits o = map snd (scan_candidates record historical set prefix)).
Proof.
  intros Hps Hmp Hmt.
  destruct (scan_bounded_spec set record prefix historical mp mt (compiled_fits ps set Hps) Hmp Hmt) as (o & Ho & Hh & Hl).
  exists o. split; [done|]. split; [done|]. rewrite Hh. unfold within_limits. split; [|split].
  - pose proof (capped_length mp [] (take (Z.to_nat mt) (scan_candidates record historical set prefix))) as Hc.
    rewrite length_take in Hc. unfold blen. lia.
  - intros key. pose proof (capped_per_pattern mp key (take (Z.to_nat mt) (scan_candidates record historical set prefix)) []) as Hc.
    change (blen (filter (fun c : Candidate => rev_key c.1 = key) [])) with 0 in Hc.
    etrans; [apply Hc; [|done]|lia]. apply Forall_take, Forall_forall. intros c. apply candidate_key.
  - intros Hf. by rewrite <- Hl, Hh.
Qed.

(** C13. A worker fed any messages whose records are parts of their streams never
    panics, and every match it sends stands in the stream: a literal's bytes at
    the offsets of the match, a regex match in a window that ends with the
    record; the rule is enabled, for the view and service of the record. *)
Theorem live_matches_genuine {S : Type} `{HS : MetadataSink S} {HM : MatchLog S}
    (stream : StreamKey -> Z -> byte) cfg msgs (x : MatchWorld S) :
  0 <= max_hits_per_pattern cfg -> 0 <= max_hits_per_record cfg ->
  Forall (fun m => work_ok stream m.1) msgs ->
  exists w' x' hs, matcher_worker_loop cfg msgs new_worker x = Some (w', x') /\
    matches_sent (mw_sink x') = matches_sent (mw_sink x) ++ hs /\
    Forall (fun h => exists m, m ∈ msgs /\ genuine_for stream m.1 h) hs.
Proof.
  intros Hp Ht Hok.
  enough (forall w, tails_in_stream stream (tails w) ->
            exists w' x' hs, matcher_worker_loop cfg msgs w x = Some (w', x') /\ sent x' = sent x ++ hs /\
              Forall (fun h => exists m, m ∈ msgs /\ genuine_for stream m.1 h) hs) as Hgen.
  { apply (Hgen new_worker), tails_in_stream_empty. }
  revert x. induction msgs as [|[work [seen now]] msgs IH]; intros x w Hw.
  { exists w, x, []. split; [done|]. by rewrite app_nil_r. }
  apply Forall_cons in Hok as [Hok Hoks].
  destruct (worker_turn_spec stream cfg Hp Ht seen now work w x Hok Hw) as (go & w1 & x1 & hs1 & Hturn & Hw1 & Hs1 & Hg1).
  cbn [matcher_worker_loop]. rewrite Hturn. cbn [mbind option_bind].
  assert (Forall (fun h => exists m, m ∈ (work, (seen, now)) :: msgs /\ genuine_for stream m.1 h) hs1) as Hg1'.
  { eapply Forall_impl; [exact Hg1|]. intros h Hh. exists (work, (seen, now)). split; [apply list_elem_of_here|done]. }
  destruct go; [|by exists w1, x1, hs1].
  destruct (IH Hoks x1 w1 Hw1) as (w' & x' & hs & Hloop & Hs & Hg). exists w', x', (hs1 ++ hs). split; [done|].
  split; [by rewrite Hs, Hs1, app_assoc|]. apply Forall_app. split; [done|].
  eapply Forall_impl; [exact Hg|]. intros h (m & Hm & ?). exists m. split; [by apply list_elem_of_further|done].
Qed.

(** The keys of a flow. *)
Definition keys_of (id : FlowId) : list StreamKey :=
  d ← [AToB; BToA];
  v ← [TcpRaw; HttpRequestHeaders; HttpRequestBody; HttpRequestDecodedBody; HttpResponseHeaders; HttpResponseBody;
       HttpResponseDecodedBody];
  [{| sk_flow_id := id; sk_direction := d; sk_view := v |}].

Lemma keys_of_all key : key ∈ keys_of (sk_flow_id key).
Proof. destruct key as [id d v]. apply list_elem_of_In. destruct d, v; cbn; tauto. Qed.

(** After any messages, with clocks that read promptly, each tail of a worker
    is listed under its flow, whose last record is known; a flow has at most
    fourteen tails; and once it is closed nothing of it is left. *)
Theorem closed_flow_leaves_no_tail {S : Type} `{HS : MetadataSink S} {HM : MatchLog S}
    cfg msgs (x x' : MatchWorld S) w' :
  Forall prompt msgs -> matcher_worker_loop cfg msgs new_worker x = Some (w', x') ->
  (forall key t, tails w' !! key = Some t ->
     exists keys, flow_tail_keys w' !! sk_flow_id key = Some keys /\ key ∈ keys /\ (length keys <= 14)%nat /\
       is_Some (flow_last_seen w' !! sk_flow_id key)) /\
  (forall id seen now x1, exists w2 x2,
     worker_turn cfg seen now (FlowClosed id) w' x1 = Some (true, w2, x2) /\ flow_unknown id w2).
Proof.
  intros Hpr Hloop. assert (tracked w') as Hw'.
  { revert Hloop Hpr. generalize tracked_new. generalize new_worker. revert x.
    induction msgs as [|[work [seen now]] msgs IH]; intros x w Hw Hloop Hpr; cbn in Hloop; [by simplify_eq|].
    apply Forall_cons in Hpr as [Hp Hps]. apply bind_Some in Hloop as ([[go w1] x1] & Hturn & Hloop).
    assert (tracked w1) as Hw1 by (eapply worker_turn_tracked; [exact Hw|exact Hp|exact Hturn]).
    destruct go; [by eapply IH|by simplify_eq]. }
  split.
  - intros key t Ht. destruct (tk_listed _ Hw' _ _ Ht) as (keys & Hkeys & Hin). exists keys.
    destruct (tk_flow _ Hw' _ _ Hkeys) as [Hnd Hf]. do 2 (split; [done|]). split; [|by eapply tk_seen].
    change 14%nat with (length (keys_of (sk_flow_id key))). apply submseteq_length, NoDup_submseteq; [done|].
    intros k Hk. rewrite Forall_forall in Hf. rewrite <- (Hf k Hk). apply keys_of_all.
  - intros id seen now x1. eexists _, _. split; [reflexivity|]. by apply forget_unknown.
Qed.

(** C23. On fewer than 4096 records of one rule set, a worker whose sink accepts
    sends exactly the hits a replay of these records finds, in order and marked
    live, whatever flows close in between (a closed flow having no later record). *)
Theorem live_equals_replay {S : Type} `{HS : MetadataSink S} {HM : MatchLog S}
    ps cfg scanner generation msgs (x : MatchWorld S) :
  ReplayScanner_new ps cfg = Ok scanner -> 0 <= max_hits_per_pattern cfg -> 0 <= max_hits_per_record cfg ->
  Z.of_nat (length (records_of msgs)) < 4096 -> stays_closed [] msgs ->
  Forall (of_set (rs_patterns scanner) generation) msgs -> accepting (mw_sink x) ->
  exists w' x' os s', matcher_worker_loop cfg msgs new_worker x = Some (w', x') /\
    scan_records (records_of msgs) scanner = Some (os, s') /\
    matches_sent (mw_sink x') = matches_sent (mw_sink x) ++ map live (flat_map hits os).
Proof.
  intros (set & Hset & [= <-])%bind_Ok Hp Ht Hlen Hcl Hof Ha.
  eapply (lockstep ps cfg generation _ msgs [] 0); [|done|done|lia|done|done].
  by constructor.
Qed.

End Theorems.

(** * Edits of the rules and admission of records

    The interest mask is the set of views that some group has, and after an edit
    that succeeds the ingress admits exactly the records some rule in force
    applies to. *)

(** ** The interest mask *)

Definition view_index (view : ContentView) : Z :=
  match view with
  | TcpRaw => 0 | HttpRequestHeaders => 1 | HttpRequestBody => 2 | HttpRequestDecodedBody => 3
  | HttpResponseHeaders => 4 | HttpResponseBody => 5 | HttpResponseDecodedBody => 6
  end.

Lemma content_view_bit_pow view : content_view_bit view = 2 ^ view_index view.
Proof. by destruct view. Qed.

Lemma view_index_inj v w : view_index v = view_index w -> v = w.
Proof. by destruct v, w. Qed.

Lemma view_bit_test mask view :
  (Z.land mask (content_view_bit view) =? 0) = negb (Z.testbit mask (view_index view)).
Proof.
  assert (0 <= view_index view) as H0 by (by destruct view). rewrite content_view_bit_pow.
  destruct (Z.testbit mask (view_index view)) eqn:Hb; cbn [negb].
  - apply Z.eqb_neq. intros H. apply (f_equal (fun z => Z.testbit z (view_index view))) in H.
    rewrite Z.land_spec, Hb, Z.pow2_bits_true, Z.bits_0 in H by done. done.
  - apply Z.eqb_eq, Z.bits_inj'. intros n Hn. rewrite Z.land_spec, Z.bits_0.
    destruct (decide (n = view_index view)) as [->|]; [by rewrite Hb|].
    rewrite Z.pow2_bits_false by congruence. apply andb_false_r.
Qed.

Lemma views_mask_test views mask view :
  Z.testbit (views_mask views mask) (view_index view) = true <->
  Z.testbit mask (view_index view) = true \/ view ∈ views.
Proof.
  assert (forall v, 0 <= view_index v) as H0 by (by intros []).
  unfold views_mask. revert mask. induction views as [|v views IH]; intros mask; cbn [fold_left].
  { split; [by left|]. intros [|H]; [done|]. by apply elem_of_nil in H. }
  rewrite IH, Z.lor_spec, content_view_bit_pow, orb_true_iff, elem_of_cons.
  destruct (decide (view = v)) as [->|Hn].
  - rewrite Z.pow2_bits_true by done. tauto.
  - rewrite Z.pow2_bits_false; [naive_solver|]. intros H. by apply Hn, view_index_inj.
Qed.

Lemma groups_mask_test gss mask view :
  Z.testbit (fold_left (fun m (groups : gmap ContentView CompiledGroup) =>
                          views_mask (map fst (map_to_list groups)) m) gss mask) (view_index view) = true <->
  Z.testbit mask (view_index view) = true \/ exists groups, groups ∈ gss /\ view ∈ map fst (map_to_list groups).
Proof.
  revert mask. induction gss as [|groups gss IH]; intros mask; cbn [fold_left].
  { split; [by left|]. intros [|(g & H & _)]; [done|]. by apply elem_of_nil in H. }
  rewrite IH, views_mask_test. split.
  - intros [[H|H]|(g & Hg & H)]; [by left| |]; right.
    + exists groups. split; [apply list_elem_of_here|done].
    + exists g. split; [by apply list_elem_of_further|done].
  - intros [H|(g & [->|Hg]%elem_of_cons & H)]; [by left; left|by left; right|right]. by exists g.
Qed.

Lemma view_in_keys {A} (m : gmap ContentView A) view : view ∈ map fst (map_to_list m) <-> is_Some (m !! view).
Proof.
  split.
  - intros ([v a] & -> & H)%list_elem_of_fmap. apply elem_of_map_to_list in H. by exists a.
  - intros [a H]. apply list_elem_of_fmap. exists (view, a). by rewrite elem_of_map_to_list.
Qed.

(** The mask has the views of the groups. *)
Lemma interest_mask_test set view :
  Z.testbit (interest_mask set) (view_index view) = true <-> exists service, is_Some (group set service view).
Proof.
  unfold interest_mask. rewrite groups_mask_test, views_mask_test, Z.bits_0, view_in_keys. split.
  - intros [[|H]|(groups & Hg & Hv)]; [done|by exists None|].
    apply list_elem_of_fmap in Hg as ([s gs] & -> & Hg). apply elem_of_map_to_list in Hg.
    exists (Some s). cbn in *. rewrite Hg. by apply view_in_keys.
  - intros [[s|] H]; [|by left; right]. right. cbn in H. destruct H as [g (gs & Hgs & Hg)%bind_Some].
    exists gs. split; [|apply view_in_keys; by exists g].
    apply list_elem_of_fmap. exists (s, gs). by rewrite elem_of_map_to_list.
Qed.

(** ** Admission *)

Section Admission.
Context `{HE : Engines}.

Lemma interested_in_mask set record :
  is_interested set record = true ->
  (Z.land (interest_mask set) (content_view_bit (cr_view record)) =? 0) = false.
Proof.
  unfold is_interested. rewrite groups_for_group. intros H. rewrite view_bit_test.
  apply negb_false_iff, interest_mask_test. apply orb_true_iff in H as [H|H].
  - exists None. by destruct (group set None (cr_view record)).
  - destruct (cr_service record) as [s|]; [|done]. exists (Some s). by destruct (group set (Some s) (cr_view record)).
Qed.

(** With the mask of its rules, an ingress admits what a rule applies to. *)
Lemma prepare_content_spec ps g record :
  CompiledPatternSet_compile ps = Ok (in_active g) -> in_interest_mask g = interest_mask (in_active g) ->
  (prepare_content g record = Some (cr_flow_id record, Content record (in_active g) (in_generation g)) <->
     exists p, p ∈ ps /\ applies record p) /\
  (prepare_content g record = None <-> ~ exists p, p ∈ ps /\ applies record p).
Proof.
  intros Hps Hmask. rewrite <- (is_interested_spec ps _ record Hps). unfold prepare_content. rewrite Hmask.
  destruct (is_interested (in_active g) record) eqn:Hi; cbn [negb].
  - rewrite interested_in_mask by done. naive_solver.
  - destruct (_ =? 0); naive_solver.
Qed.
End Admission.

(** ** The queues *)

(** Ingresses that differ in one queue and the counters. *)
Definition queue_changed (i : nat) (q q' : WorkQueue) (g g' : MatcherIngress) : Prop :=
  shard_txs g !! i = Some q /\ shard_txs g' = <[i := q']> (shard_txs g) /\ in_active g' = in_active g /\
  in_interest_mask g' = in_interest_mask g /\ in_generation g' = in_generation g /\
  matcher_queue_drops (in_metrics g') = matcher_queue_drops (in_metrics g).

Definition all_open (g : MatcherIngress) : Prop :=
  shard_txs g <> [] /\ Forall (fun q => wq_open q = true) (shard_txs g).

Lemma shard_index_some id (shards : list WorkQueue) :
  shards <> [] -> exists i q, shard_index id shards = Some i /\ shards !! i = Some q.
Proof.
  intros Hne. unfold shard_index. destruct (is_empty shards) eqn:He; [by apply is_empty_spec in He|].
  pose proof (blen_pos shards Hne). exists (Z.to_nat (wrap 64 id mod blen shards)).
  destruct (lookup_lt_is_Some_2 shards (Z.to_nat (wrap 64 id mod blen shards))) as [q Hq]; [|by exists q].
  pose proof (Z.mod_pos_bound (wrap 64 id) (blen shards) ltac:(done)). unfold blen in *. lia.
Qed.

Lemma wrapping_add_0 x : 0 <= x <= u64_MAX -> wrapping_add 64 x 0 = x.
Proof. intros H. unfold wrapping_add. rewrite Z.add_0_r. apply wrap_small. unfold u64_MAX in H. lia. Qed.

(** While the workers live, an admitted record is either at the end of the queue
    of its flow or held by the blocked sender, which leaves it there as soon as
    the queue has room; nothing is dropped. *)
Lemma send_content_lossless g record flow_id work :
  all_open g -> 0 <= matcher_queue_drops (in_metrics g) <= u64_MAX ->
  prepare_content g record = Some (flow_id, work) ->
  exists i q, shard_index (cr_flow_id record) (shard_txs g) = Some i /\
    exists r g', send_content record g = Some (r, g') /\
      ((r = Done true /\ queue_changed i q (push_work work q) g g') \/
       (r = Blocked i work /\ queue_changed i q q g g' /\ (wq_capacity q <= length (wq_items q))%nat)).
Proof.
  intros [Hne Hopen] Hdrops Hprep.
  assert (flow_id = cr_flow_id record) as ->.
  { unfold prepare_content in Hprep. repeat case_match; simplify_eq; done. }
  destruct (shard_index_some (cr_flow_id record) _ Hne) as (i & q & Hi & Hq). exists i, q. split; [done|].
  unfold send_content. rewrite Hprep, Hi. cbn. rewrite Hq. cbn. unfold try_send.
  rewrite (Forall_lookup_1 _ _ _ _ Hopen Hq). cbn [negb].
  destruct (length (wq_items q) <? wq_capacity q)%nat eqn:Hlen; eexists _, _; (split; [reflexivity|]).
  - left. done.
  - right. split; [done|]. split; [|by apply Nat.ltb_ge in Hlen].
    unfold queue_changed, with_queue. cbn. rewrite wrapping_add_0 by done. done.
Qed.

Lemma resume_send_lossless g i q work :
  shard_txs g !! i = Some q -> wq_open q = true -> (length (wq_items q) < wq_capacity q)%nat ->
  exists g', resume_send i work g = Some (Done true, g') /\ queue_changed i q (push_work work q) g g'.
Proof.
  intros Hq Ho Hlt. unfold resume_send. rewrite Hq. cbn. unfold try_send. rewrite Ho. cbn [negb].
  rewrite (proj2 (Nat.ltb_lt _ _) Hlt). eexists. by split.
Qed.

(** ** Edits *)

Inductive Edit :=
  | Create (p : NewPattern)
  | Update (id : Z) (p : NewPattern) (enabled : bool)
  | SetEnabled (id : Z) (enabled : bool)
  | Delete (id : Z).

Section Edits.
Context {D : Type} `{HD : PatternDb D} `{HE : Engines}.
Implicit Types m : PatternManager D.

(** An edit, and whether it says that it changed something. *)
Definition run_edit (e : Edit) : Eff (PatternManager D) bool :=
  match e with
  | Create p => _ ← manager_create p; mret true
  | Update id p enabled => _ ← manager_update id p enabled; mret true
  | SetEnabled id enabled => _ ← manager_set_enabled id enabled; mret true
  | Delete id => manager_delete id
  end.

(** The rules in force stay. *)
Definition same_rules m m' : Prop :=
  pm_active m' = pm_active m /\ pm_interest_mask m' = pm_interest_mask m /\ pm_generation m' = pm_generation m.

(** The rules in force are those the database lists as enabled. *)
Definition reloaded m m' : Prop :=
  exists ps d, list_enabled_patterns d = (Ok ps, pm_postgres m') /\
    CompiledPatternSet_compile ps = Ok (pm_active m') /\ pm_interest_mask m' = interest_mask (pm_active m') /\
    pm_generation m' = wrapping_add 64 (pm_generation m) 1.

Lemma postgres_spec {A} (e : Eff D A) m r m' : postgres e m = (r, m') -> same_rules m m'.
Proof. unfold postgres, focus. destruct (e (pm_postgres m)) as [r' d]. intros [_ <-]%pair_equal_spec. done. Qed.

Lemma manager_rebuild_spec m r m' :
  rebuild m = (r, m') -> match r with Ok _ => reloaded m m' | Err => same_rules m m' end.
Proof.
  unfold rebuild, prepare_rebuild, mbind, Eff_bind, postgres, focus, lift, modify.
  destruct (list_enabled_patterns (pm_postgres m)) as [[ps|] d] eqn:Hl.
  - destruct (CompiledPatternSet_compile ps) as [set|] eqn:Hc; intros [<- <-]%pair_equal_spec; [|done].
    exists ps, (pm_postgres m). done.
  - by intros [<- <-]%pair_equal_spec.
Qed.

Lemma manager_bind_inv {A B} (e : Eff (PatternManager D) A) (f : A -> Eff (PatternManager D) B) m r m' :
  (e ≫= f) m = (r, m') ->
  (exists a m1, e m = (Ok a, m1) /\ f a m1 = (r, m')) \/ (e m = (Err, m') /\ r = Err).
Proof.
  unfold mbind, Eff_bind. destruct (e m) as [[a|] m1] eqn:He; intros H.
  - left. by exists a, m1.
  - right. apply pair_equal_spec in H as [<- <-]. done.
Qed.

(** Rules after a first call that keeps them. *)
Lemma same_reloaded m m1 m2 : same_rules m m1 -> reloaded m1 m2 -> reloaded m m2.
Proof. intros (_ & _ & Hg) (ps & d & ? & ? & ? & ?). exists ps, d. by rewrite <- Hg. Qed.

Lemma same_rules_trans m m1 m2 : same_rules m m1 -> same_rules m1 m2 -> same_rules m m2.
Proof. intros (? & ? & ?) (? & ? & ?). unfold same_rules. repeat split; congruence. Qed.

(** What [k] leaves in force: the rules listed now if it succeeds, else those of before. *)
Definition reloads {A} (k : Eff (PatternManager D) A) : Prop :=
  forall m r m', k m = (r, m') -> match r with Ok _ => reloaded m m' | Err => same_rules m m' end.

Lemma rebuild_then {A} (a : A) : reloads (_ ← rebuild; mret a).
Proof.
  intros m r m' [([] & m1 & Hr & H)|[Hr ->]]%manager_bind_inv; apply manager_rebuild_spec in Hr; [|done].
  apply pair_equal_spec in H as [<- <-]. done.
Qed.

Lemma postgres_then {A B} (e : Eff D A) (k : A -> Eff (PatternManager D) B) :
  (forall a, reloads (k a)) -> reloads (postgres e ≫= k).
Proof.
  intros Hk m r m' [(a & m1 & He & H)|[He ->]]%manager_bind_inv; apply postgres_spec in He; [|done].
  apply Hk in H. destruct r; [by eapply same_reloaded|by eapply same_rules_trans].
Qed.

Lemma lift_then {A B} (v : Result A) (k : A -> Eff (PatternManager D) B) :
  (forall a, reloads (k a)) -> reloads (lift v ≫= k).
Proof.
  intros Hk m r m' [(a & m1 & He & H)|[He ->]]%manager_bind_inv; apply pair_equal_spec in He as [_ <-]; [|done].
  by apply Hk in H.
Qed.

Lemma create_reloads p : reloads (manager_create p).
Proof. apply lift_then. intros _. apply postgres_then. intros a. apply rebuild_then. Qed.

Lemma update_reloads id p enabled : reloads (manager_update id p enabled).
Proof. apply lift_then. intros _. apply postgres_then. intros a. apply rebuild_then. Qed.

Lemma set_enabled_reloads id enabled : reloads (manager_set_enabled id enabled).
Proof. apply postgres_then. intros a. apply rebuild_then. Qed.

Lemma reloads_ret {A B} (k : Eff (PatternManager D) A) (b : B) m r m' :
  reloads k -> (_ ← k; mret b) m = (r, m') ->
  match r with Ok b' => b' = b /\ reloaded m m' | Err => same_rules m m' end.
Proof.
  intros Hk [(a & m1 & He & H)|[He ->]]%manager_bind_inv; apply Hk in He; [|done].
  apply pair_equal_spec in H as [<- <-]. done.
Qed.

Lemma run_edit_spec e m r m' :
  run_edit e m = (r, m') ->
  match r with Ok true => reloaded m m' | Ok false | Err => same_rules m m' end.
Proof.
  destruct e as [p|id p enabled|id enabled|id]; cbn [run_edit]; intros H.
  - apply reloads_ret in H; [|apply create_reloads]. destruct r; [destruct H as [-> ?]|]; done.
  - apply reloads_ret in H; [|apply update_reloads]. destruct r; [destruct H as [-> ?]|]; done.
  - apply reloads_ret in H; [|apply set_enabled_reloads]. destruct r; [destruct H as [-> ?]|]; done.
  - apply manager_bind_inv in H as [(b & m1 & He & H)|[He ->]]; apply postgres_spec in He; [|done]. destruct b.
    + pose proof (rebuild_then true _ _ _ H) as Hr. destruct r as [b'|]; [|by eapply same_rules_trans].
      assert (b' = true) as ->; [|by eapply same_reloaded].
      apply manager_bind_inv in H as [([] & m2 & _ & H)|[_ H]]; [|done]. by apply pair_equal_spec in H as [[= ->] _].
    + apply pair_equal_spec in H as [<- <-]. done.
Qed.

(** An ingress that reads the handles of the manager. *)
Definition reads_from (g : MatcherIngress) m : Prop :=
  in_active g = pm_active m /\ in_interest_mask g = pm_interest_mask m /\ in_generation g = pm_generation m.

(** An edit of the rules that reports a change puts the rules the database
    lists as enabled in force, under a new generation: an ingress then admits a
    record exactly when one of them applies to it.  An edit that fails, or changes
    nothing, leaves the rules in force as they were. *)
Theorem edits_take_effect e m r m' :
  run_edit e m = (r, m') ->
  match r with
  | Ok true => exists ps d, list_enabled_patterns d = (Ok ps, pm_postgres m') /\
      pm_generation m' = wrapping_add 64 (pm_generation m) 1 /\
      forall g record, reads_from g m' ->
        (prepare_content g record = Some (cr_flow_id record, Content record (pm_active m') (pm_generation m')) <->
           exists p, p ∈ ps /\ applies record p) /\
        (prepare_content g record = None <-> ~ exists p, p ∈ ps /\ applies record p)
  | Ok false | Err => same_rules m m'
  end.
Proof.
  intros H. apply run_edit_spec in H. destruct r as [[]|]; [|done..].
  destruct H as (ps & d & Hl & Hc & Hmask & Hgen). exists ps, d. do 2 (split; [done|]).
  intros g record (Ha & Hi & Hg). rewrite <- Ha, <- Hg. apply prepare_content_spec; congruence.
Qed.
End Edits.
