(* ===== verification/MatcherExamples.v ===== *)
(** * Examples of matching

    An engine that satisfies the laws, concrete rules and records as witnesses of
    the theorems, and two behaviours of the code worth knowing: a literal hidden by
    one that ends before it, and an edit lost between two rebuilds. *)

From stdpp Require Import strings.
From S2P Require Import Prelude Model Text Services Disk Sink Spool Metadata MetadataSink.
From S2P Require Import Matching Matcher ScanSpec GroupSpec StreamSpec MatcherSpec ReplaySpec LiveReplay.
From S2P Require Import MatcherTheorems.

#[local] Existing Instance row_codec.

(** ** An engine *)

Module Naive.
Definition ends_here (b e : Z) (w l : bytes) : bool :=
  (b <=? e - blen l) && bool_decide (part (e - blen l) e w = Some l).

(** The first pattern that ends at [e] and starts at [b] or later. *)
Fixpoint pattern_at (i : nat) (pats : list bytes) (b e : Z) (w : bytes) : option Found :=
  match pats with
  | [] => None
  | l :: pats => if ends_here b e w l then Some {| fd_pattern := i; fd_start := e - blen l; fd_end := e |}
                 else pattern_at (S i) pats b e w
  end.

(** Matches that do not overlap, the earliest end first. *)
Fixpoint find_from (n : nat) (pats : list bytes) (b e : Z) (w : bytes) : list Found :=
  match n with
  | O => []
  | S n => match pattern_at 0 pats b e w with
           | Some m => m :: find_from n pats e (e + 1) w
           | None => find_from n pats b (e + 1) w
           end
  end.

Definition find (pats : list bytes) (w : bytes) : list Found := find_from (length w) pats 0 1 w.

Fixpoint hex_pairs (s : list Z) : Result bytes :=
  match s with
  | [] => Ok []
  | a :: b :: s =>
      x ← of_option (to_digit 16 a); y ← of_option (to_digit 16 b);
      bs ← hex_pairs s; Ok (byte_of (16 * x + y) :: bs)
  | _ => Err
  end.

(** A regular expression is its own text. *)
#[export] Instance engines : Engines := {
  ac_new pats := Ok (find pats);
  regex_new r := Ok (fun w => map (fun m => (fd_start m, fd_end m)) (find [r] w));
  regex_set_new rs := Ok (fun w => filter (fun i => existsb (fun r => negb (is_empty (find [r] w)))
                                                        (option_list (rs !! i)) = true) (seq 0 (length rs)));
  hex_decode := hex_pairs
}.

Lemma pattern_at_spec pats : forall i b e w m,
  pattern_at i pats b e w = Some m ->
  fd_end m = e /\ exists j l, fd_pattern m = (i + j)%nat /\ pats !! j = Some l /\
    part (fd_start m) (fd_end m) w = Some l /\ b <= fd_start m.
Proof.
  induction pats as [|l pats IH]; intros i b e w m H; [done|]. cbn [pattern_at] in H.
  destruct (ends_here b e w l) eqn:He.
  - simplify_eq. cbn. split; [done|]. exists 0%nat, l. unfold ends_here in He. reflect_bools.
    split; [lia|]. split; [done|]. split; [by eapply bool_decide_eq_true|done].
  - destruct (IH _ _ _ _ _ H) as (Hend & j & l' & Hj & Hl & Hp). split; [done|]. exists (S j), l'.
    split; [lia|]. done.
Qed.

Lemma pattern_at_none pats i b e w l :
  pattern_at i pats b e w = None -> l ∈ pats -> b <= e - blen l -> part (e - blen l) e w <> Some l.
Proof.
  revert i. induction pats as [|l' pats IH]; intros i H Hin Hb; [by apply elem_of_nil in Hin|].
  cbn [pattern_at] in H. destruct (ends_here b e w l') eqn:He; [done|].
  apply elem_of_cons in Hin as [->|Hin]; [|by eapply IH].
  unfold ends_here in He. reflect_bools. destruct He as [He|He]; [apply Z.leb_gt in He; lia|].
  by apply bool_decide_eq_false in He.
Qed.

Lemma find_from_sound n pats : forall b e w m, m ∈ find_from n pats b e w ->
  exists l, pats !! fd_pattern m = Some l /\ part (fd_start m) (fd_end m) w = Some l.
Proof.
  induction n as [|n IH]; intros b e w m H; [by apply elem_of_nil in H|]. cbn [find_from] in H.
  destruct (pattern_at 0 pats b e w) as [m'|] eqn:Hp; [|by eapply IH].
  apply elem_of_cons in H as [->|H]; [|by eapply IH].
  apply pattern_at_spec in Hp as (_ & j & l & -> & Hl & Hpart & _). by exists l.
Qed.

Lemma find_from_complete n pats l : forall b e w s t,
  l ∈ pats -> l <> [] -> part s t w = Some l -> b <= s -> e <= t -> blen w < e + Z.of_nat n ->
  exists m, m ∈ find_from n pats b e w /\ s < fd_end m <= t.
Proof.
  induction n as [|n IH]; intros b e w s t Hin Hne Hpart Hb He Hn;
    pose proof (part_inv _ _ _ _ Hpart) as (Hst & Ht & Hlen & _); [lia|].
  pose proof (blen_pos l Hne) as Hpos.
  cbn [find_from]. destruct (pattern_at 0 pats b e w) as [m|] eqn:Hp.
  - apply pattern_at_spec in Hp as (Hend & _). destruct (decide (s < e)).
    + exists m. split; [apply list_elem_of_here|lia].
    + destruct (IH e (e + 1) w s t) as (m' & ? & ?); [done|done|done|lia..|]. exists m'. split; [by apply list_elem_of_further|done].
  - destruct (decide (e = t)) as [->|].
    + exfalso. apply (pattern_at_none _ _ _ _ _ _ Hp Hin); [lia|]. by replace (t - blen l) with s by lia.
    + apply (IH b (e + 1) w s t); done || lia.
Qed.

#[export] Instance engines_laws : EnginesLaws.
Proof.
  constructor.
  - intros pats fnd w m [= <-] Hm. by eapply find_from_sound.
  - intros pats fnd w i l s e [= <-] Hi Hne Hpart.
    pose proof (part_inv _ _ _ _ Hpart) as (? & ? & ? & _). pose proof (blen_pos l Hne).
    apply (find_from_complete _ _ l); try done; [by eapply list_elem_of_lookup_2|lia|lia|unfold blen; lia].
  - intros r fnd w m [= <-] Hm. apply list_elem_of_fmap in Hm as (f & -> & Hf).
    apply find_from_sound in Hf as (l & _ & Hl). apply part_inv in Hl as (? & ? & _). cbn. lia.
  - intros rs matches w i [= <-] Hi. apply list_elem_of_filter in Hi as [_ Hi].
    apply elem_of_seq in Hi. lia.
Qed.
End Naive.

#[local] Existing Instances Naive.engines Naive.engines_laws.

(** ** Rules and records *)

Lemma ok_witness {A} (d : A) (r : Result A) : is_ok r = true -> r = Ok (match r with Ok a => a | Err => d end).
Proof. by destruct r. Qed.

Definition no_rules : CompiledPatternSet := {| global_groups := ∅; service_groups := ∅; ignore_revisions := [] |}.
Definition compiled (ps : list PatternRevision) : CompiledPatternSet :=
  match CompiledPatternSet_compile ps with Ok set => set | Err => no_rules end.

Definition ex_rule (id : Z) (kind : PatternKind) (text : string) (service : option bytes) : PatternRevision :=
  {| pr_id := id; pr_revision := 1; pr_expression := bytes_of text; pr_kind := kind; pr_action := Find;
     pr_direction_type := Both; pr_service := service; pr_view := Some TcpRaw; pr_enabled := true |}.

(** A flag, a regular expression, four bytes in hexadecimal, and a rule of a service. *)
Definition ex_rules : list PatternRevision :=
  [ex_rule 1 Model.Text "flag" None; ex_rule 2 Model.Regex "ag{" None; ex_rule 3 Model.Binary "7b:31 32 33" None;
   ex_rule 4 Model.Text "shop" (Some (bytes_of "web"))].
Definition ex_set : CompiledPatternSet := compiled ex_rules.

Lemma ex_compiled : CompiledPatternSet_compile ex_rules = Ok ex_set.
Proof. apply ok_witness. by vm_compute. Qed.

(** One stream, cut inside the flag. *)
Definition ex_text : bytes := bytes_of "get the flag{123} of the shop".
Definition ex_stream (key : StreamKey) (off : Z) : byte := nth (Z.to_nat off) ex_text x00.

Definition ex_record (id lo hi : Z) : ContentRecord :=
  {| cr_id := id; cr_flow_id := 7; cr_ts_ns := 1000 + id; cr_service := Some (bytes_of "web"); cr_direction := AToB;
     cr_view := TcpRaw; cr_stream_offset := lo;
     cr_data := match part lo hi ex_text with Some d => d | None => [] end |}.
Definition ex_records : list ContentRecord := [ex_record 1 0 9; ex_record 2 9 10; ex_record 3 10 29].

Lemma ex_record_in id lo hi : 0 <= lo <= hi -> hi <= blen ex_text -> record_in ex_stream (ex_record id lo hi).
Proof.
  intros H1 H2. unfold record_in, ex_record. cbn [cr_stream_offset cr_data stream_key].
  unfold part. rewrite slice_full_spec by lia.
  set (d := take (Z.to_nat (hi - lo)) (drop (Z.to_nat lo) ex_text)).
  assert (blen d = hi - lo) as Hd by (subst d; unfold blen in *; rewrite length_take, length_drop; lia).
  split; [lia|]. split; [rewrite Hd; change (blen ex_text) with 29 in H2; unfold u64_MAX; lia|].
  intros i b Hi. subst d. apply lookup_take_Some in Hi as [Hi _]. rewrite lookup_drop in Hi.
  unfold ex_stream. replace (Z.to_nat (lo + Z.of_nat i)) with (Z.to_nat lo + i)%nat by lia.
  by apply nth_lookup_Some.
Qed.

Lemma ex_records_in : Forall (record_in ex_stream) ex_records.
Proof. repeat constructor; by apply ex_record_in. Qed.

Definition ex_limits : MatchLimits := {| overlap_limit := 8; max_hits_per_pattern := 5; max_hits_per_record := 5 |}.

Lemma scan_keeps_limits_witness :
  CompiledPatternSet_compile ex_rules = Ok ex_set /\
  exists o, scan_bounded ex_set (ex_record 3 0 29) [] false 1 2 = Some o /\
    hits o = within_limits 1 2 (scan_candidates (ex_record 3 0 29) false ex_set []) /\
    blen (hits o) <= 2 /\ (forall key, blen (hits_of key (hits o)) <= 1) /\
    (so_limited o = false -> hits o = map snd (scan_candidates (ex_record 3 0 29) false ex_set [])).
Proof.
  split; [exact ex_compiled|].
  apply (scan_keeps_limits ex_rules ex_set (ex_record 3 0 29) [] false 1 2); [exact ex_compiled|lia|lia].
Defined.

(** *** A live run *)

Definition ex_metrics : MatchMetrics :=
  {| match_queue_depth := 4; match_queue_high_watermark := 4; matcher_queue_backpressure := 0;
     matcher_queue_drops := 0; matcher_housekeeping_drops := 0; matcher_bytes := 0; matcher_matches := 0;
     matcher_match_limit_events := 0 |}.
Definition ex_world : MatchWorld Meta := {| mw_sink := ex_meta; mw_metrics := ex_metrics; mw_events := [] |}.

Definition ex_msgs : list (MatcherWork * (Z * Z)) :=
  map (fun r => (Content r ex_set 1, (5, 6))) ex_records ++ [(FlowClosed 7, (7, 8))].

Definition ex_hits (x : MatchWorld Meta) : list (Z * Z * Z) :=
  map (fun h => (mr_pattern_id h, mr_offset_start h, mr_offset_end h)) (matches_sent (mw_sink x)).

(** The flag is found across the three records, each other rule once. *)
Example ex_live_run :
  option_map (fun wx => ex_hits wx.2) (matcher_worker_loop ex_limits ex_msgs new_worker ex_world)
  = Some [(1, 8, 12); (3, 12, 16); (2, 10, 13); (4, 25, 29)].
Proof. vm_compute. reflexivity. Qed.

Lemma ex_work_ok : Forall (fun m => work_ok ex_stream m.1) ex_msgs.
Proof.
  unfold ex_msgs. apply Forall_app. split; [|by repeat constructor].
  apply Forall_map. eapply Forall_impl; [exact ex_records_in|]. intros r Hr. split; [exact Hr|].
  exists ex_rules. exact ex_compiled.
Qed.

Lemma live_matches_genuine_witness :
  Forall (fun m => work_ok ex_stream m.1) ex_msgs /\
  exists w' x' hs, matcher_worker_loop ex_limits ex_msgs new_worker ex_world = Some (w', x') /\
    matches_sent (mw_sink x') = matches_sent (mw_sink ex_world) ++ hs /\
    Forall (fun h => exists m, m ∈ ex_msgs /\ genuine_for ex_stream m.1 h) hs.
Proof.
  split; [exact ex_work_ok|].
  apply (live_matches_genuine ex_stream ex_limits ex_msgs ex_world); [done|done|exact ex_work_ok].
Defined.

Definition ex_end_world : option (MatcherWorker * MatchWorld Meta) :=
  matcher_worker_loop ex_limits (take 3 ex_msgs) new_worker ex_world.

Lemma ex_prompt : Forall prompt (take 3 ex_msgs).
Proof. by repeat constructor. Qed.

Lemma closed_flow_leaves_no_tail_witness :
  Forall prompt (take 3 ex_msgs) /\
  exists w' x', ex_end_world = Some (w', x') /\ size (tails w') = 1%nat /\
  (forall key t, tails w' !! key = Some t ->
     exists keys, flow_tail_keys w' !! sk_flow_id key = Some keys /\ key ∈ keys /\ (length keys <= 14)%nat /\
       is_Some (flow_last_seen w' !! sk_flow_id key)) /\
  (forall id seen now x1, exists w2 x2,
     worker_turn ex_limits seen now (FlowClosed id) w' x1 = Some (true, w2, x2) /\ flow_unknown id w2).
Proof.
  split; [exact ex_prompt|].
  assert (is_some ex_end_world = true) as Hs by (vm_compute; reflexivity).
  assert (option_map (fun wx => size (tails wx.1)) ex_end_world = Some 1%nat) as Hsize by (vm_compute; reflexivity).
  destruct ex_end_world as [[w' x']|] eqn:Hrun; [|discriminate Hs].
  exists w', x'. split; [reflexivity|]. split; [by injection Hsize|].
  unfold ex_end_world in Hrun. generalize ex_prompt. revert Hrun. generalize (take 3 ex_msgs) ex_world.
  intros msgs x Hrun Hprompt. exact (closed_flow_leaves_no_tail ex_limits msgs x x' w' Hprompt Hrun).
Defined.

(** *** A replay *)

Definition ex_scanner : ReplayScanner :=
  {| rs_patterns := ex_set; rs_tails := ∅; rs_last_seen_ns := ∅; rs_limits := ex_limits; rs_scanned_records := 0 |}.

Lemma ex_scanner_new : ReplayScanner_new ex_rules ex_limits = Ok ex_scanner.
Proof. unfold ReplayScanner_new. by rewrite ex_compiled. Qed.

Lemma live_equals_replay_witness :
  ReplayScanner_new ex_rules ex_limits = Ok ex_scanner /\
  exists w' x' os s', matcher_worker_loop ex_limits ex_msgs new_worker ex_world = Some (w', x') /\
    scan_records (records_of ex_msgs) ex_scanner = Some (os, s') /\
    matches_sent (mw_sink x') = matches_sent (mw_sink ex_world) ++ map live (flat_map hits os).
Proof.
  split; [exact ex_scanner_new|].
  apply (live_equals_replay ex_rules ex_limits ex_scanner 1 ex_msgs ex_world);
    [exact ex_scanner_new|done|done|done|cbn; set_solver|by repeat constructor|done].
Defined.

Definition ex_key : StreamKey := stream_key (ex_record 1 0 9).
Definition ex_flag : PatternRevision := ex_rule 1 Model.Text "flag" None.
Definition ex_flag_text : bytes := bytes_of "flag".

Lemma ex_flag_in_stream : in_stream ex_stream ex_key 8 ex_flag_text.
Proof.
  intros i b H. destruct i as [|[|[|[|i]]]]; cbn in H; [by simplify_eq..|done].
Qed.

Lemma ex_scanned_for : Forall (scanned_for ex_rules ex_flag ex_flag_text) (of_key ex_key ex_records).
Proof.
  apply Forall_forall. intros r [_ Hr]%list_elem_of_filter.
  assert (cr_view r = TcpRaw) as Hv by (repeat (apply elem_of_cons in Hr as [->|Hr]; [done|]); by apply elem_of_nil in Hr).
  split.
  - split; [done|]. rewrite Hv. split; [by apply list_elem_of_here|by left].
  - intros q l' Hq _ Hs Hl'. repeat (apply elem_of_cons in Hq as [->|Hq]; [cbn in *|]); try by apply elem_of_nil in Hq.
    all: vm_compute in Hl'; by simplify_eq.
Qed.


(** ** Edits *)

(** A table that keeps the latest revision of each pattern. *)
Module Table.
Definition of_new (id : Z) (p : NewPattern) (enabled : bool) : PatternRevision :=
  {| pr_id := id; pr_revision := 1; pr_expression := np_expression p; pr_kind := np_kind p; pr_action := np_action p;
     pr_direction_type := np_direction_type p; pr_service := np_service p; pr_view := np_view p; pr_enabled := enabled |}.
Definition replace (id : Z) (f : PatternRevision -> PatternRevision) (d : list PatternRevision) :=
  map (fun p => if pr_id p =? id then f p else p) d.
Definition set_enabled (b : bool) (p : PatternRevision) : PatternRevision :=
  {| pr_id := pr_id p; pr_revision := pr_revision p + 1; pr_expression := pr_expression p; pr_kind := pr_kind p;
     pr_action := pr_action p; pr_direction_type := pr_direction_type p; pr_service := pr_service p;
     pr_view := pr_view p; pr_enabled := b |}.

#[export] Instance db : PatternDb (list PatternRevision) := {
  list_patterns := reads id;
  list_enabled_patterns := reads (filter (fun p => pr_enabled p = true));
  create_pattern p := fun d => let q := of_new (blen d + 1) p true in (Ok q, d ++ [q]);
  update_pattern id p enabled := fun d => let q := of_new id p enabled in (Ok q, replace id (fun _ => q) d);
  set_pattern_enabled id b := fun d =>
    (of_option (set_enabled b <$> list_find (fun p => pr_id p = id) d ≫= fun ip => Some ip.2),
     replace id (set_enabled b) d);
  delete_pattern id := fun d => (Ok (existsb (fun p => (pr_id p =? id) && pr_enabled p) d), replace id (set_enabled false) d)
}.
End Table.
#[local] Existing Instance Table.db.

Definition ex_manager : PatternManager (list PatternRevision) :=
  {| pm_postgres := ex_rules; pm_active := ex_set; pm_interest_mask := interest_mask ex_set; pm_generation := 1 |}.

Definition ex_new (name text : string) : NewPattern :=
  {| np_name := bytes_of name; np_expression := bytes_of text; np_kind := Model.Text; np_action := Find;
     np_direction_type := Input; np_service := None; np_view := None |}.

(** The manager as it starts. *)
Example ex_loaded : load ex_rules = (Ok ex_manager, ex_rules).
Proof.
  unfold load, mbind, Eff_bind. cbn [list_enabled_patterns Table.db reads].
  change (filter (fun p => pr_enabled p = true) ex_rules) with ex_rules. unfold lift. by rewrite ex_compiled.
Qed.

Lemma edits_take_effect_witness :
  exists m', run_edit (Create (ex_new "login" "passwd")) ex_manager = (Ok true, m') /\
    exists ps d, list_enabled_patterns d = (Ok ps, pm_postgres m') /\
      pm_generation m' = wrapping_add 64 (pm_generation ex_manager) 1 /\
      forall g record, reads_from g m' ->
        (prepare_content g record = Some (cr_flow_id record, Content record (pm_active m') (pm_generation m')) <->
           exists p, p ∈ ps /\ applies record p) /\
        (prepare_content g record = None <-> ~ exists p, p ∈ ps /\ applies record p).
Proof.
  assert (match (run_edit (Create (ex_new "login" "passwd")) ex_manager).1 with Ok b => b | Err => false end = true) as Hr
    by (vm_compute; reflexivity).
  destruct (run_edit (Create (ex_new "login" "passwd")) ex_manager) as [r m'] eqn:Hrun.
  cbn [fst] in Hr. destruct r as [[]|]; [|discriminate Hr..]. exists m'. split; [reflexivity|].
  exact (edits_take_effect (Create (ex_new "login" "passwd")) ex_manager (Ok true) m' Hrun).
Defined.

(** Two requests, each a call to the database and then a rebuild in its two steps;
    the first lists the rules before the second edits them, and installs after. *)
Definition two_edits (m : PatternManager (list PatternRevision)) : Result bool * PatternManager (list PatternRevision) :=
  (a ← postgres (create_pattern (ex_new "one" "abc"));
   set_a ← prepare_rebuild;
   b ← postgres (create_pattern (ex_new "two" "xyz"));
   set_b ← prepare_rebuild;
   _ ← modify (install_prepared set_b);
   _ ← modify (install_prepared set_a);
   mret true) m.

Definition ex_body : ContentRecord :=
  {| cr_id := 9; cr_flow_id := 8; cr_ts_ns := 1; cr_service := None; cr_direction := AToB;
     cr_view := HttpRequestBody; cr_stream_offset := 0; cr_data := bytes_of "wxyz" |}.

(** Both requests succeed and both rules are in the database, but the set in force
    lacks the second one until the next rebuild. *)
Lemma overlapping_rebuilds_lose_an_edit :
  let m := two_edits ex_manager in
  m.1 = Ok true /\ map pr_expression (pm_postgres m.2) = map pr_expression ex_rules ++ [bytes_of "abc"; bytes_of "xyz"] /\
  option_map hits (scan_bounded (pm_active m.2) ex_body [] false 5 5) = Some [] /\
  option_map (fun o => map mr_pattern_id (hits o))
    (scan_bounded (pm_active (rebuild m.2).2) ex_body [] false 5 5) = Some [6].
Proof. vm_compute. repeat split. Qed.

(** ** A literal hidden by a shorter one *)

Definition ex_short_and_long : CompiledPatternSet :=
  compiled [ex_rule 1 Model.Text "g{" None; ex_rule 2 Model.Text "flag{12" None].

(** Both rules occur in the record; the one that ends first hides the other. *)
Lemma shorter_literal_hides_longer :
  option_map (fun o => (map mr_pattern_id (hits o), so_limited o))
    (scan_bounded ex_short_and_long (ex_record 1 0 29) [] false 100 100) = Some ([1], false) /\
  part 8 15 (cr_data (ex_record 1 0 29)) = Some (bytes_of "flag{12").
Proof. vm_compute. repeat split. Qed.
