(* ===== verification/Ipv4.v ===== *)
(** * IPv4 addresses and targets as text ([src/src/topology.rs])

    An address is its 32-bit value, a [str] its code points.  The display and the
    parser of [Ipv4Addr], the network of an address, and the targets of throttle
    rules with the round trip of their canonical text. *)

From S2P Require Import Prelude Model Text.

(** ** [Ipv4Addr] *)

(** Octet [i] of an address, the most significant first. *)
Definition octet (ip : Z) (i : Z) : Z := Z.land (Z.shiftr ip (8 * (3 - i))) 255.

Definition from_octets (a b c d : Z) : Z := ((a * 256 + b) * 256 + c) * 256 + d.

(** [u8::to_string]. *)
Definition show_u8 (n : Z) : list Z :=
  if n <? 10 then [48 + n]
  else if n <? 100 then [48 + n / 10; 48 + n mod 10]
  else [48 + n / 100; 48 + (n / 10) mod 10; 48 + n mod 10].

(** [Ipv4Addr::to_string]. *)
Definition ip_to_string (ip : Z) : list Z :=
  show_u8 (octet ip 0) ++ 46 :: show_u8 (octet ip 1) ++ 46 :: show_u8 (octet ip 2) ++ 46 :: show_u8 (octet ip 3).

(** Decimal digits, three at most: their value, their number and what follows. *)
Fixpoint read_digits (acc : Z) (count : nat) (s : list Z) : option (Z * nat * list Z) :=
  match s with
  | c :: s' => if is_ascii_digit c
               then if (count <? 3)%nat then read_digits (acc * 10 + (c - 48)) (S count) s' else None
               else Some (acc, count, s)
  | [] => Some (acc, count, [])
  end.

(** An octet without leading zeros. *)
Definition read_octet (s : list Z) : option (Z * list Z) :=
  '(n, count, rest) ← read_digits 0 0 s;
  if (count =? 0)%nat then None
  else if bool_decide (head s = Some 48) && (1 <? count)%nat then None
  else if n <=? 255 then Some (n, rest) else None.

Definition read_dot (s : list Z) : option (list Z) :=
  match s with c :: s => if c =? 46 then Some s else None | [] => None end.

(** [Ipv4Addr::from_str]. *)
Definition parse_ipv4 (s : list Z) : Result Z :=
  if 15 <? str_len s then Err
  else of_option (
    '(a, s) ← read_octet s; s ← read_dot s;
    '(b, s) ← read_octet s; s ← read_dot s;
    '(c, s) ← read_octet s; s ← read_dot s;
    '(d, s) ← read_octet s;
    if is_empty s then Some (from_octets a b c d) else None).

(** ** Networks *)

(** The shift of a prefix outside 0 to 32 wraps, as in a release build. *)
Definition network_for (ip prefix : Z) : Z :=
  let mask := if prefix =? 0 then 0
              else if prefix =? 32 then u32_MAX
              else wrap 32 (Z.shiftl u32_MAX (wrapping_sub 8 32 prefix mod 32)) in
  Z.land ip mask.

(** ** Targets *)

Record Ipv4Target := { network : Z; prefix : Z }.

#[export] Instance Ipv4Target_eq_dec : EqDecision Ipv4Target.
Proof. solve_decision. Defined.

#[export] Instance Ipv4Target_countable : Countable Ipv4Target :=
  inj_countable' (fun t => (network t, prefix t)) (fun p => {| network := p.1; prefix := p.2 |}) ltac:(by intros []).

(** [split_once]: before and after the first [sep]. *)
Fixpoint split_once (sep : Z) (s : list Z) : option (list Z * list Z) :=
  match s with
  | [] => None
  | c :: s => if c =? sep then Some ([], s) else (fun p => (c :: p.1, p.2)) <$> split_once sep s
  end.

Definition parse_u8 (s : list Z) : Result Z :=
  n ← from_str_radix 10 s;
  if n <=? u8_MAX then Ok n else Err.

Definition parse_prefix (s : list Z) : Result Z :=
  prefix ← parse_u8 s;
  if 32 <? prefix then Err else Ok prefix.

Definition Ipv4Target_parse (value : list Z) : Result Ipv4Target :=
  let trimmed := trim value in
  '(ip_raw, prefix) ← match split_once 47 trimmed with
                      | Some (ip, prefix) => prefix ← parse_prefix prefix; Ok (ip, prefix)
                      | None => Ok (trimmed, 32)
                      end;
  ip ← parse_ipv4 ip_raw;
  Ok {| network := network_for ip prefix; prefix := prefix |}.

Definition canonical_target (t : Ipv4Target) : list Z :=
  if prefix t =? 32 then ip_to_string (network t)
  else ip_to_string (network t) ++ 47 :: show_u8 (prefix t).

(** ** The display and its parser *)

Lemma octet_range ip i : 0 <= octet ip i <= 255.
Proof.
  unfold octet. change 255 with (Z.ones 8). rewrite Z.land_ones by lia.
  pose proof (Z.mod_pos_bound (Z.shiftr ip (8 * (3 - i))) 256 ltac:(lia)). change (2 ^ 8) with 256. change (Z.ones 8) with 255. lia.
Qed.

Lemma octet_div ip i : 0 <= i <= 3 -> octet ip i = (ip / 256 ^ (3 - i)) mod 256.
Proof.
  intros H. unfold octet. change 255 with (Z.ones 8). rewrite Z.land_ones, Z.shiftr_div_pow2 by lia.
  rewrite Z.pow_mul_r by lia. done.
Qed.

Lemma from_octets_octets ip :
  0 <= ip <= u32_MAX -> from_octets (octet ip 0) (octet ip 1) (octet ip 2) (octet ip 3) = ip.
Proof.
  intros H. unfold u32_MAX in H. rewrite !octet_div by lia. unfold from_octets. cbn [Z.sub].
  change (256 ^ (3 - 0)) with (256 * 256 * 256). change (256 ^ (3 - 1)) with (256 * 256).
  change (256 ^ (3 - 2)) with 256. change (256 ^ (3 - 3)) with 1. rewrite Z.div_1_r.
  rewrite <- !Z.div_div by lia.
  pose proof (Z.div_mod ip 256 ltac:(lia)). pose proof (Z.div_mod (ip / 256) 256 ltac:(lia)).
  pose proof (Z.div_mod (ip / 256 / 256) 256 ltac:(lia)).
  assert (0 <= ip / 256 / 256 / 256 < 256) as Hr.
  { rewrite !Z.div_div by lia. split; [apply Z.div_pos; lia|]. apply Z.div_lt_upper_bound; lia. }
  rewrite (Z.mod_small (ip / 256 / 256 / 256)) by lia. lia.
Qed.

(** The texts of the numbers below 256, checked one by one. *)
Definition all_u8 : list Z := map Z.of_nat (seq 0 256).

Lemma all_u8_spec n : 0 <= n <= 255 -> n ∈ all_u8.
Proof.
  intros H. unfold all_u8. apply list_elem_of_fmap. exists (Z.to_nat n). rewrite elem_of_seq. lia.
Qed.

Lemma u8_by_check (P : Z -> bool) n : forallb P all_u8 = true -> 0 <= n <= 255 -> P n = true.
Proof. intros H Hn. rewrite forallb_forall in H. apply H, list_elem_of_In, all_u8_spec, Hn. Qed.

Definition shows_as_octet (n : Z) : bool :=
  let s := show_u8 n in
  forallb is_ascii_digit s &&
  bool_decide (read_digits 0 0 s = Some (n, length s, [])) &&
  negb (length s =? 0)%nat && negb (bool_decide (head s = Some 48) && (1 <? length s)%nat).

Lemma show_u8_shows n : 0 <= n <= 255 -> shows_as_octet n = true.
Proof. apply u8_by_check. by vm_compute. Qed.

Lemma read_digits_app s t acc count :
  forallb is_ascii_digit s = true -> (forall c, head t = Some c -> is_ascii_digit c = false) ->
  read_digits acc count (s ++ t) =
  match read_digits acc count s with Some (n, k, _) => Some (n, k, t) | None => None end.
Proof.
  intros Hs Ht. revert acc count Hs. induction s as [|c s IH]; intros acc count Hs.
  - cbn. destruct t as [|c t]; [done|]. cbn. by rewrite (Ht c eq_refl).
  - cbn in Hs. reflect_bools. cbn [app read_digits]. rewrite H. destruct (count <? 3)%nat; [|done]. by apply IH.
Qed.

(** What follows a number ends it. *)
Definition ends_number (t : list Z) : Prop := forall c, head t = Some c -> is_ascii_digit c = false.

Lemma show_u8_nonempty n : 0 <= n <= 255 -> show_u8 n <> [].
Proof.
  intros Hn. unfold show_u8. by repeat case_match.
Qed.

Lemma read_octet_show n t : 0 <= n <= 255 -> ends_number t -> read_octet (show_u8 n ++ t) = Some (n, t).
Proof.
  intros Hn Ht. pose proof (show_u8_shows n Hn) as H. unfold shows_as_octet in H.
  apply andb_true_iff in H as [H Hz]. apply andb_true_iff in H as [H Hl]. apply andb_true_iff in H as [Hd Hr].
  apply bool_decide_eq_true in Hr. apply negb_true_iff in Hz, Hl.
  unfold read_octet. rewrite read_digits_app, Hr by done. cbn [mbind option_bind]. rewrite Hl.
  assert (head (show_u8 n ++ t) = head (show_u8 n)) as ->.
  { pose proof (show_u8_nonempty n Hn). by destruct (show_u8 n). }
  rewrite Hz. by rewrite (proj2 (Z.leb_le n 255)) by lia.
Qed.

Lemma show_u8_short n : 0 <= n <= 255 -> blen (show_u8 n) <= 3.
Proof. intros Hn. unfold show_u8, blen. repeat case_match; cbn; lia. Qed.

Lemma show_u8_ascii n : 0 <= n <= 255 -> Forall (fun c => is_ascii_digit c = true) (show_u8 n).
Proof.
  intros Hn. pose proof (show_u8_shows n Hn) as H. unfold shows_as_octet in H. reflect_bools.
  apply Forall_forall. intros c Hc. match goal with F : forallb _ _ = true |- _ => rewrite forallb_forall in F; apply F end.
  by apply list_elem_of_In.
Qed.

(** Digits and dots. *)
Definition ip_char (c : Z) : Prop := is_ascii_digit c = true \/ c = 46.

Lemma ip_to_string_chars ip : Forall ip_char (ip_to_string ip).
Proof.
  unfold ip_to_string. pose proof (octet_range ip) as Ho.
  repeat (apply Forall_app; split; [eapply Forall_impl; [by apply show_u8_ascii|by left]|constructor; [by right|]]).
  eapply Forall_impl; [by apply show_u8_ascii|by left].
Qed.

Lemma ip_char_ascii c : ip_char c -> 46 <= c <= 57.
Proof. unfold ip_char, is_ascii_digit, between. intros [H|H]; reflect_bools; lia. Qed.

Lemma str_len_ascii s : Forall (fun c => c < 128) s -> str_len s = blen s.
Proof.
  induction 1 as [|c s Hc _ IH]; [done|]. cbn [str_len foldr]. fold (str_len s). rewrite IH, blen_cons. unfold len_utf8.
  by rewrite (proj2 (Z.ltb_lt _ _) Hc).
Qed.

Lemma ip_to_string_len ip : str_len (ip_to_string ip) <= 15.
Proof.
  rewrite str_len_ascii.
  - unfold ip_to_string. pose proof (octet_range ip) as Ho. repeat rewrite ?blen_app, ?blen_cons.
    pose proof (show_u8_short _ (Ho 0)). pose proof (show_u8_short _ (Ho 1)).
    pose proof (show_u8_short _ (Ho 2)). pose proof (show_u8_short _ (Ho 3)). lia.
  - eapply Forall_impl; [apply ip_to_string_chars|]. intros c Hc%ip_char_ascii. lia.
Qed.

(** An address is read back from its text. *)
Lemma parse_ip_to_string ip : 0 <= ip <= u32_MAX -> parse_ipv4 (ip_to_string ip) = Ok ip.
Proof.
  intros H. unfold parse_ipv4. pose proof (ip_to_string_len ip).
  rewrite (proj2 (Z.ltb_ge _ _)) by done. unfold ip_to_string.
  assert (forall t, ends_number (46 :: t)) as Hdot by (intros t c [= <-]; done).
  rewrite read_octet_show by (apply octet_range || apply Hdot). cbn [mbind option_bind read_dot Z.eqb Pos.eqb].
  rewrite read_octet_show by (apply octet_range || apply Hdot). cbn [mbind option_bind read_dot Z.eqb Pos.eqb].
  rewrite read_octet_show by (apply octet_range || apply Hdot). cbn [mbind option_bind read_dot Z.eqb Pos.eqb].
  rewrite <- (app_nil_r (show_u8 (octet ip 3))), read_octet_show by (apply octet_range || done).
  cbn [mbind option_bind is_empty of_option]. by rewrite from_octets_octets.
Qed.

(** ** Targets and their canonical text *)

(** A target as [parse] makes it. *)
Definition target_ok (t : Ipv4Target) : Prop :=
  0 <= prefix t <= 32 /\ 0 <= network t <= u32_MAX /\ network t = network_for (network t) (prefix t).

Lemma ipv4_land_le a b : 0 <= a -> 0 <= Z.land a b <= a.
Proof.
  intros H. apply Z.ldiff_le; [done|]. apply Z.bits_inj'. intros n _. rewrite Z.ldiff_spec, Z.land_spec, Z.bits_0.
  by destruct (Z.testbit a n), (Z.testbit b n).
Qed.

Lemma network_for_range ip prefix : 0 <= ip -> 0 <= network_for ip prefix <= ip.
Proof. apply ipv4_land_le. Qed.

Lemma network_for_idem ip prefix : network_for (network_for ip prefix) prefix = network_for ip prefix.
Proof. unfold network_for. by rewrite <- Z.land_assoc, Z.land_diag. Qed.

Definition plain (c : Z) : Prop := 46 <= c <= 57.

Lemma plain_trim_start s : Forall plain s -> trim_start s = s.
Proof.
  intros H. destruct H as [|c s Hc _]; [done|]. unfold plain in Hc. cbn [trim_start].
  assert (is_whitespace c = false) as ->; [|done].
  apply not_true_is_false. intros H. unfold is_whitespace, between in H.
  repeat (apply orb_true_iff in H as [H|H]); reflect_bools; lia.
Qed.

Lemma plain_trim s : Forall plain s -> trim s = s.
Proof.
  intros H. unfold trim. rewrite (plain_trim_start s) by done. rewrite plain_trim_start by (by apply Forall_rev).
  apply rev_involutive.
Qed.

Lemma split_once_at sep s t : sep ∉ s -> split_once sep (s ++ sep :: t) = Some (s, t).
Proof.
  intros H. induction s as [|c s IH]; cbn; [by rewrite Z.eqb_refl|].
  apply not_elem_of_cons in H as [Hc H]. rewrite (proj2 (Z.eqb_neq c sep)) by done. by rewrite IH.
Qed.

Lemma split_once_none sep s : sep ∉ s -> split_once sep s = None.
Proof.
  intros H. induction s as [|c s IH]; cbn; [done|].
  apply not_elem_of_cons in H as [Hc H]. rewrite (proj2 (Z.eqb_neq c sep)) by done. by rewrite IH.
Qed.

Lemma ip_chars_plain ip : Forall plain (ip_to_string ip).
Proof. eapply Forall_impl; [apply ip_to_string_chars|]. intros c Hc%ip_char_ascii. done. Qed.

Lemma no_slash_in_ip ip : 47 ∉ ip_to_string ip.
Proof.
  intros H. pose proof (ip_to_string_chars ip) as Hc. rewrite Forall_forall in Hc. by destruct (Hc _ H).
Qed.

Lemma parse_prefix_show p : 0 <= p <= 32 -> parse_prefix (show_u8 p) = Ok p.
Proof.
  intros H. assert ((32 <? p) || match parse_prefix (show_u8 p) with Ok q => q =? p | Err => false end = true) as Hb.
  { apply (u8_by_check (fun p => (32 <? p) || match parse_prefix (show_u8 p) with Ok q => q =? p | Err => false end));
      [by vm_compute|lia]. }
  rewrite (proj2 (Z.ltb_ge 32 p)) in Hb by lia. cbn [orb] in Hb.
  destruct (parse_prefix (show_u8 p)); [by reflect_bools; subst|done].
Qed.

(** The canonical text of a target names that target. *)
Lemma canonical_parses t : target_ok t -> Ipv4Target_parse (canonical_target t) = Ok t.
Proof.
  intros (Hp & Hn & Hnet). unfold Ipv4Target_parse, canonical_target. destruct (prefix t =? 32) eqn:H32.
  - reflect_bools. rewrite plain_trim by apply ip_chars_plain. rewrite split_once_none by apply no_slash_in_ip.
    cbn [mbind Result_bind]. rewrite parse_ip_to_string by done. cbn [mbind Result_bind].
    rewrite H32 in Hnet. rewrite <- Hnet, <- H32. by destruct t.
  - rewrite plain_trim.
    2:{ apply Forall_app. split; [apply ip_chars_plain|]. constructor; [by unfold plain|].
        eapply Forall_impl; [apply show_u8_ascii; lia|]. intros c Hc. unfold is_ascii_digit, between in Hc. reflect_bools.
        unfold plain. lia. }
    rewrite split_once_at by apply no_slash_in_ip. rewrite parse_prefix_show by done. cbn [mbind Result_bind].
    rewrite parse_ip_to_string by done. cbn [mbind Result_bind]. rewrite <- Hnet. by destruct t.
Qed.

(** ** What the parser accepts *)

Lemma read_digits_nonneg s : forall acc count n m rest,
  0 <= acc -> read_digits acc count s = Some (n, m, rest) -> 0 <= n.
Proof.
  induction s as [|c s IH]; intros acc count n m rest Ha; cbn [read_digits]; [by intros [= <- _ _]|].
  destruct (is_ascii_digit c) eqn:Hc; [|by intros [= <- _ _]]. destruct (count <? 3)%nat; [|done].
  apply IH. unfold is_ascii_digit, between in Hc. reflect_bools. lia.
Qed.

Lemma read_octet_range s n rest : read_octet s = Some (n, rest) -> 0 <= n <= 255.
Proof.
  unfold read_octet. destruct (read_digits 0 0 s) as [[[m count] r]|] eqn:Hd; cbn; [|done].
  apply read_digits_nonneg in Hd; [|done]. destruct (count =? 0)%nat; [done|]. destruct (_ && _); [done|].
  destruct (m <=? 255) eqn:Hm; [|done]. intros [= <- _]. reflect_bools. lia.
Qed.

Lemma parse_ipv4_range s ip : parse_ipv4 s = Ok ip -> 0 <= ip <= u32_MAX.
Proof.
  unfold parse_ipv4. destruct (15 <? str_len s); [done|].
  repeat match goal with
         | |- context [read_octet ?s] =>
             let H := fresh "Ho" in
             destruct (read_octet s) as [[? ?]|] eqn:H; cbn [mbind option_bind of_option]; [apply read_octet_range in H|done]
         | |- context [read_dot ?s] => destruct (read_dot s) as [?|]; cbn [mbind option_bind of_option]; [|done]
         end.
  destruct (is_empty _); cbn; [|done]. intros [= <-]. unfold from_octets, u32_MAX. lia.
Qed.

Lemma parse_target_ok value t : Ipv4Target_parse value = Ok t -> target_ok t.
Proof.
  unfold Ipv4Target_parse. set (r := match split_once 47 _ with Some _ => _ | None => _ end).
  assert (forall ip p, r = Ok (ip, p) -> 0 <= p <= 32) as Hr.
  { subst r. intros ip p. destruct (split_once 47 (trim value)) as [[i s]|]; [|intros [= _ <-]; lia].
    unfold parse_prefix, parse_u8. cbn [mbind Result_bind]. destruct (from_str_radix 10 s) as [q|] eqn:Hq; cbn [mbind Result_bind]; [|done].
    apply from_str_radix_nonneg in Hq; [|lia]. destruct (q <=? u8_MAX); [|done].
    cbn [mbind Result_bind]. destruct (32 <? q) eqn:H32; cbn [mbind Result_bind]; [done|]. intros [= _ <-]. reflect_bools. lia. }
  destruct r as [[ip_raw p]|]; cbn [mbind Result_bind]; [|done]. specialize (Hr _ _ eq_refl).
  destruct (parse_ipv4 ip_raw) as [ip|] eqn:Hip; cbn [mbind Result_bind]; [|done]. apply parse_ipv4_range in Hip.
  intros [= <-]. split; [done|]. cbn [network prefix]. pose proof (network_for_range ip p). split; [lia|].
  by rewrite network_for_idem.
Qed.

(** The canonical text of a target that was parsed: it parses to that target, a
    network without bits beyond its prefix, and no other target has that text. *)
Theorem target_roundtrip value t :
  Ipv4Target_parse value = Ok t ->
  target_ok t /\ Ipv4Target_parse (canonical_target t) = Ok t /\
  forall t', target_ok t' -> canonical_target t' = canonical_target t -> t' = t.
Proof.
  intros Ht%parse_target_ok. split; [done|]. pose proof (canonical_parses t Ht) as Hp. split; [done|].
  intros t' Ht'%canonical_parses E. rewrite E, Hp in Ht'. congruence.
Qed.
