(* ===== verification/Topology.v ===== *)
(** * Traffic topology ([src/src/topology.rs])

    Counters per IPv4 source with a rate over the last seconds, a bounded table of
    sources with an overflow entry, the local observers that batch into it, and the
    snapshot grouped by network.  Rates are binary64 numbers ([SpecFloat]); the
    order in which a hash map is walked is a parameter. *)

From Stdlib Require Import SpecFloat.
From stdpp Require Import sorting.
From S2P Require Import Prelude Model Text Ipv4.

(** ** [f64] *)

Abbreviation f64 := spec_float.

(** [x as f64] of an unsigned integer: to nearest, ties to even. *)
Definition f64_of (x : Z) : f64 := binary_normalize 53 1024 x 0 false.
Definition f64_add : f64 -> f64 -> f64 := SFadd 53 1024.
Definition f64_mul : f64 -> f64 -> f64 := SFmul 53 1024.
Definition f64_div : f64 -> f64 -> f64 := SFdiv 53 1024.

(** The classes in the order of [total_cmp]; a NaN counts as positive. *)
Definition f64_class (x : f64) : Z :=
  match x with
  | S754_infinity true => 0 | S754_finite true _ _ => 1 | S754_zero true => 2
  | S754_zero false => 3 | S754_finite false _ _ => 4 | S754_infinity false => 5 | S754_nan => 6
  end.

Definition total_cmp (x y : f64) : comparison :=
  match Z.compare (f64_class x) (f64_class y) with
  | Eq => default Eq (SFcompare x y)
  | c => c
  end.

(** ** Sources *)

Definition RATE_WINDOW_SECS : Z := 5.
Definition LOCAL_FLUSH_INTERVAL : Z := 250 * 10 ^ 6.
Definition MAX_LOCAL_SOURCES_BEFORE_FLUSH : Z := 4096.
Definition MAX_TOPOLOGY_GC_INTERVAL : Z := 30 * 10 ^ 9.
Definition MAX_SNAPSHOT_GROUPS : nat := 256.
Definition MAX_SNAPSHOT_SOURCES : nat := 2048.

Abbreviation Ip := Z (only parsing).

Record PendingCounters := { pc_packets : Z; pc_bytes : Z; pc_last_packet_ts_ns : Z }.

Definition no_counters : PendingCounters := {| pc_packets := 0; pc_bytes := 0; pc_last_packet_ts_ns := 0 |}.

Record RateBucket := { rb_second : Z; rb_packets : Z; rb_bytes : Z }.

Record SourceState := {
  packets_total : Z;
  bytes_total : Z;
  last_packet_ts_ns : Z;
  last_observed : Z;
  buckets : list RateBucket
}.

Definition SourceState_new (now : Z) : SourceState :=
  {| packets_total := 0; bytes_total := 0; last_packet_ts_ns := 0; last_observed := now; buckets := [] |}.

(** [trim_buckets]: the old ones at the front go. *)
Fixpoint trim_buckets (now_second : Z) (bs : list RateBucket) : list RateBucket :=
  match bs with
  | b :: bs' => if RATE_WINDOW_SECS <=? sat_sub now_second (rb_second b) then trim_buckets now_second bs' else bs
  | [] => []
  end.

Definition to_bucket (c : PendingCounters) (b : RateBucket) : RateBucket :=
  {| rb_second := rb_second b; rb_packets := sat_add (rb_packets b) (pc_packets c);
     rb_bytes := sat_add (rb_bytes b) (pc_bytes c) |}.

(** Into the last bucket if it is of this second, else into a new one. *)
Definition add_bucket (c : PendingCounters) (second : Z) (bs : list RateBucket) : list RateBucket :=
  match last bs with
  | Some b => if rb_second b =? second then removelast bs ++ [to_bucket c b]
              else bs ++ [{| rb_second := second; rb_packets := pc_packets c; rb_bytes := pc_bytes c |}]
  | None => [{| rb_second := second; rb_packets := pc_packets c; rb_bytes := pc_bytes c |}]
  end.

Definition merge (c : PendingCounters) (second now : Z) (s : SourceState) : SourceState :=
  {| packets_total := sat_add (packets_total s) (pc_packets c);
     bytes_total := sat_add (bytes_total s) (pc_bytes c);
     last_packet_ts_ns := Z.max (last_packet_ts_ns s) (pc_last_packet_ts_ns c);
     last_observed := now;
     buckets := trim_buckets second (add_bucket c second (buckets s)) |}.

(** [iter().sum::<u64>()]. *)
Definition sum_u64 (l : list Z) : Z := fold_left (wrapping_add 64) l 0.

(** [rates] trims the buckets and returns packets and bits per second. *)
Definition rates (now_second : Z) (s : SourceState) : (f64 * f64) * SourceState :=
  let bs := trim_buckets now_second (buckets s) in
  let packets := sum_u64 (map rb_packets bs) in
  let bytes := sum_u64 (map rb_bytes bs) in
  let seconds := match bs with
                 | b :: _ => Z.max 1 (Z.min (sat_add (sat_sub now_second (rb_second b)) 1) RATE_WINDOW_SECS)
                 | [] => 1
                 end in
  ((f64_div (f64_of packets) (f64_of seconds),
    f64_div (f64_mul (f64_of bytes) (f64_of 8)) (f64_of seconds)),
   {| packets_total := packets_total s; bytes_total := bytes_total s;
      last_packet_ts_ns := last_packet_ts_ns s; last_observed := last_observed s; buckets := bs |}).

(** ** The tracker *)

Record TopologyState := {
  sources : gmap Ip SourceState;
  overflow : option SourceState;
  last_gc : option Z
}.

Definition TopologyState_default : TopologyState := {| sources := ∅; overflow := None; last_gc := None |}.

Record TopologyTracker := {
  group_prefix_v4 : Z;
  source_ttl : Z;
  max_sources : Z;
  tt_state : TopologyState
}.

Definition TopologyTracker_new (group_prefix_v4 source_ttl max_sources : Z) : TopologyTracker :=
  {| group_prefix_v4 := group_prefix_v4; source_ttl := source_ttl; max_sources := Z.max max_sources 1;
     tt_state := TopologyState_default |}.

Definition canonical_throttle_target (t : TopologyTracker) (value : list Z) : Result (list Z) :=
  target ← Ipv4Target_parse value;
  if negb (prefix target =? group_prefix_v4 t) && negb (prefix target =? 32) then Err
  else Ok (canonical_target target).

Definition set_sources (x : gmap Ip SourceState) (s : TopologyState) : TopologyState :=
  {| sources := x; overflow := overflow s; last_gc := last_gc s |}.

(** [sources.retain] and the time of it. *)
Definition collect_garbage (ttl now : Z) (s : TopologyState) : TopologyState :=
  {| sources := filter (fun e => sat_sub now (last_observed e.2) <= ttl) (sources s);
     overflow := overflow s; last_gc := Some now |}.

Definition gc_due (ttl now : Z) (s : TopologyState) : bool :=
  match last_gc s with
  | None => true
  | Some last_gc => Z.min ttl MAX_TOPOLOGY_GC_INTERVAL <=? sat_sub now last_gc
  end.

(** One pending source: into its entry, a new one while there is room, or the
    common overflow. *)
Definition merge_source (max_sources second now : Z) (s : TopologyState) (e : Ip * PendingCounters) : TopologyState :=
  let '(ip, counters) := e in
  match sources s !! ip with
  | Some source => set_sources (<[ip := merge counters second now source]> (sources s)) s
  | None =>
      if Z.of_nat (size (sources s)) <? max_sources
      then set_sources (<[ip := merge counters second now (SourceState_new now)]> (sources s)) s
      else {| sources := sources s;
              overflow := Some (merge counters second now (default (SourceState_new now) (overflow s)));
              last_gc := last_gc s |}
  end.

(** [merge_batch]: the drained entries in the order of the map, and the readings of
    the two clocks. *)
Definition merge_batch (now second : Z) (pending : list (Ip * PendingCounters)) (t : TopologyTracker)
  : TopologyTracker :=
  if is_empty pending then t
  else
    let s := tt_state t in
    let s := if gc_due (source_ttl t) now s then collect_garbage (source_ttl t) now s else s in
    {| group_prefix_v4 := group_prefix_v4 t; source_ttl := source_ttl t; max_sources := max_sources t;
       tt_state := fold_left (merge_source (max_sources t) second now) pending s |}.

(** ** Observers *)

(** How a hash map is walked. *)
Class HashOrder := {
  walk {K} `{Countable K} {A} : gmap K A -> list (K * A);
  walk_permutation {K} `{Countable K} {A} (m : gmap K A) : walk m ≡ₚ map_to_list m
}.

Record LocalTopologyObserver := {
  pending : gmap Ip PendingCounters;
  last_flush : Z;
  ignored_source_mac : option bytes
}.

Definition local_observer (ignored_source_mac : option bytes) (now : Z) : LocalTopologyObserver :=
  {| pending := ∅; last_flush := now; ignored_source_mac := ignored_source_mac |}.

Definition ethernet_source_mac (frame : bytes) : option bytes := slice 6 12 frame.

Definition ignores_ethernet_frame (o : LocalTopologyObserver) (frame : bytes) : bool :=
  match ignored_source_mac o with
  | Some mac => bool_decide (ethernet_source_mac frame = Some mac)
  | None => false
  end.

Section Observer.
Context `{HashOrder}.

(** The clocks of one call: when it looks at the age of the last flush, the two
    readings of the merge, and the time of the flush. *)
Record Clocks := { ck_now : Z; ck_merge : Z; ck_second : Z; ck_flushed : Z }.

Definition flush (k : Clocks) (o : LocalTopologyObserver) (t : TopologyTracker)
  : LocalTopologyObserver * TopologyTracker :=
  ({| pending := ∅; last_flush := ck_flushed k; ignored_source_mac := ignored_source_mac o |},
   merge_batch (ck_merge k) (ck_second k) (walk (pending o)) t).

Definition count_packet (ts_ns wire_len : Z) (c : PendingCounters) : PendingCounters :=
  {| pc_packets := sat_add (pc_packets c) 1; pc_bytes := sat_add (pc_bytes c) wire_len;
     pc_last_packet_ts_ns := Z.max (pc_last_packet_ts_ns c) ts_ns |}.

Definition flush_due (k : Clocks) (o : LocalTopologyObserver) : bool :=
  LOCAL_FLUSH_INTERVAL <=? sat_sub (ck_now k) (last_flush o).

Definition observe_ipv4_source (k : Clocks) (ts_ns wire_len : Z) (ip : Ip) (o : LocalTopologyObserver)
    (t : TopologyTracker) : LocalTopologyObserver * TopologyTracker :=
  let entry := count_packet ts_ns wire_len (default no_counters (pending o !! ip)) in
  let o := {| pending := <[ip := entry]> (pending o); last_flush := last_flush o;
              ignored_source_mac := ignored_source_mac o |} in
  if (MAX_LOCAL_SOURCES_BEFORE_FLUSH <=? Z.of_nat (size (pending o))) || flush_due k o
  then flush k o t else (o, t).

Definition flush_if_due (k : Clocks) (o : LocalTopologyObserver) (t : TopologyTracker)
  : LocalTopologyObserver * TopologyTracker :=
  if bool_decide (pending o <> ∅) && flush_due k o then flush k o t else (o, t).

(** ** The snapshot *)

Record TopologySourceSnapshot := {
  ss_ip : list Z;
  ss_packets_total : Z;
  ss_bytes_total : Z;
  ss_packets_per_second : f64;
  ss_bits_per_second : f64;
  ss_last_packet_ts_ns : Z
}.

Record TopologyGroupSnapshot := {
  gs_cidr : list Z;
  gs_source_count : nat;
  gs_sources_truncated : bool;
  gs_packets_total : Z;
  gs_bytes_total : Z;
  gs_packets_per_second : f64;
  gs_bits_per_second : f64;
  gs_sources : list TopologySourceSnapshot
}.

Record TopologySnapshot := {
  ts_source_count : nat;
  ts_source_capacity_saturated : bool;
  ts_untracked_packets_total : Z;
  ts_untracked_bytes_total : Z;
  ts_untracked_pps : f64;
  ts_untracked_bps : f64;
  ts_group_count : nat;
  ts_returned_group_count : nat;
  ts_returned_source_count : nat;
  ts_view_truncated : bool;
  ts_packets_total : Z;
  ts_bytes_total : Z;
  ts_packets_per_second : f64;
  ts_bits_per_second : f64;
  ts_groups : list TopologyGroupSnapshot
}.

Definition source_snapshot (ip : Ip) (s : SourceState) (r : f64 * f64) : TopologySourceSnapshot :=
  {| ss_ip := ip_to_string ip; ss_packets_total := packets_total s; ss_bytes_total := bytes_total s;
     ss_packets_per_second := r.1; ss_bits_per_second := r.2; ss_last_packet_ts_ns := last_packet_ts_ns s |}.

Definition empty_group (cidr : list Z) : TopologyGroupSnapshot :=
  {| gs_cidr := cidr; gs_source_count := 0; gs_sources_truncated := false; gs_packets_total := 0;
     gs_bytes_total := 0; gs_packets_per_second := S754_zero false; gs_bits_per_second := S754_zero false;
     gs_sources := [] |}.

Definition add_to_group (r : TopologySourceSnapshot) (g : TopologyGroupSnapshot) : TopologyGroupSnapshot :=
  {| gs_cidr := gs_cidr g; gs_source_count := S (gs_source_count g); gs_sources_truncated := gs_sources_truncated g;
     gs_packets_total := sat_add (gs_packets_total g) (ss_packets_total r);
     gs_bytes_total := sat_add (gs_bytes_total g) (ss_bytes_total r);
     gs_packets_per_second := f64_add (gs_packets_per_second g) (ss_packets_per_second r);
     gs_bits_per_second := f64_add (gs_bits_per_second g) (ss_bits_per_second r);
     gs_sources := gs_sources g ++ [r] |}.

(** The groups so far and the totals. *)
Record Totals := {
  tl_groups : gmap Ip TopologyGroupSnapshot;
  tl_packets : Z;
  tl_bytes : Z;
  tl_pps : f64;
  tl_bps : f64
}.

Definition cidr_of (net prefix : Z) : list Z := ip_to_string net ++ 47 :: show_u8 prefix.

Definition add_row (prefix : Z) (a : Totals) (row : Ip * TopologySourceSnapshot) : Totals :=
  let '(ip, r) := row in
  let net := network_for ip prefix in
  {| tl_groups := <[net := add_to_group r (default (empty_group (cidr_of net prefix)) (tl_groups a !! net))]> (tl_groups a);
     tl_packets := sat_add (tl_packets a) (ss_packets_total r);
     tl_bytes := sat_add (tl_bytes a) (ss_bytes_total r);
     tl_pps := f64_add (tl_pps a) (ss_packets_per_second r);
     tl_bps := f64_add (tl_bps a) (ss_bits_per_second r) |}.

(** [str::cmp] of ASCII text. *)
Fixpoint text_le (s t : list Z) : bool :=
  match s, t with
  | [], _ => true
  | _ :: _, [] => false
  | a :: s, b :: t => if a <? b then true else if b <? a then false else text_le s t
  end.

(** By rate, the highest first, then by text. *)
Definition by_rate (bps1 bps2 : f64) (text1 text2 : list Z) : bool :=
  match total_cmp bps2 bps1 with Lt => true | Gt => false | Eq => text_le text1 text2 end.

Definition source_before (a b : TopologySourceSnapshot) : Prop :=
  by_rate (ss_bits_per_second a) (ss_bits_per_second b) (ss_ip a) (ss_ip b) = true.
Definition group_before (a b : TopologyGroupSnapshot) : Prop :=
  by_rate (gs_bits_per_second a) (gs_bits_per_second b) (gs_cidr a) (gs_cidr b) = true.

#[export] Instance source_before_dec a b : Decision (source_before a b).
Proof. unfold source_before. apply _. Defined.
#[export] Instance group_before_dec a b : Decision (group_before a b).
Proof. unfold group_before. apply _. Defined.

Definition with_sources (truncated : bool) (l : list TopologySourceSnapshot) (g : TopologyGroupSnapshot)
  : TopologyGroupSnapshot :=
  {| gs_cidr := gs_cidr g; gs_source_count := gs_source_count g; gs_sources_truncated := truncated;
     gs_packets_total := gs_packets_total g; gs_bytes_total := gs_bytes_total g;
     gs_packets_per_second := gs_packets_per_second g; gs_bits_per_second := gs_bits_per_second g;
     gs_sources := l |}.

(** The groups that fit the budget of sources. *)
Fixpoint take_groups (budget : nat) (gs : list TopologyGroupSnapshot) : list TopologyGroupSnapshot :=
  match gs with
  | [] => []
  | g :: gs =>
      if (budget =? 0)%nat then []
      else
        let g := if (budget <? length (gs_sources g))%nat then with_sources true (take budget (gs_sources g)) g else g in
        g :: take_groups (budget - length (gs_sources g)) gs
  end.

Definition returned_sources (gs : list TopologyGroupSnapshot) : nat :=
  sum_list (map (fun g => length (gs_sources g)) gs).

(** [snapshot] at [now] and [now_second]; the state it leaves is trimmed and
    collected.  The two hash maps are walked in their own orders. *)
Definition snapshot (now now_second : Z) (t : TopologyTracker) : TopologySnapshot * TopologyTracker :=
  let s := collect_garbage (source_ttl t) now (tt_state t) in
  let rows := map (fun e => (e.1, source_snapshot e.1 e.2 (rates now_second e.2).1)) (walk (sources s)) in
  let over := (fun o => rates now_second o) <$> overflow s in
  let '(opps, obps) := match over with Some (r, _) => r | None => (S754_zero false, S754_zero false) end in
  let opackets := match overflow s with Some o => packets_total o | None => 0 end in
  let obytes := match overflow s with Some o => bytes_total o | None => 0 end in
  let source_count := size (sources s) in
  let a := fold_left (add_row (group_prefix_v4 t)) rows
             {| tl_groups := ∅; tl_packets := opackets; tl_bytes := obytes; tl_pps := opps; tl_bps := obps |} in
  let groups := map (fun e => with_sources (gs_sources_truncated e.2)
                                (merge_sort source_before (gs_sources e.2)) e.2) (walk (tl_groups a)) in
  let groups := merge_sort group_before groups in
  let group_count := length groups in
  let returned := take_groups MAX_SNAPSHOT_SOURCES (take MAX_SNAPSHOT_GROUPS groups) in
  let returned_source_count := returned_sources returned in
  ({| ts_source_count := source_count;
      ts_source_capacity_saturated := max_sources t <=? Z.of_nat source_count;
      ts_untracked_packets_total := opackets; ts_untracked_bytes_total := obytes;
      ts_untracked_pps := opps; ts_untracked_bps := obps;
      ts_group_count := group_count; ts_returned_group_count := length returned;
      ts_returned_source_count := returned_source_count;
      ts_view_truncated := (length returned <? group_count)%nat || (returned_source_count <? source_count)%nat;
      ts_packets_total := tl_packets a; ts_bytes_total := tl_bytes a;
      ts_packets_per_second := tl_pps a; ts_bits_per_second := tl_bps a; ts_groups := returned |},
   {| group_prefix_v4 := group_prefix_v4 t; source_ttl := source_ttl t; max_sources := max_sources t;
      tt_state := {| sources := (fun o => (rates now_second o).2) <$> sources s;
                     overflow := snd <$> over; last_gc := last_gc s |} |}).
End Observer.
