(* ===== verification/TopologySpec.v ===== *)
(** * What the topology counts

    Sums over tables, the packets an observer and its tracker hold between them,
    and the window a rate covers. *)

From stdpp Require Import sorting.
From S2P Require Import Prelude Model Text Ipv4 Topology.

(** ** Sums over a table *)

Fixpoint lsum {A} (f : A -> Z) (l : list A) : Z := match l with [] => 0 | a :: l => f a + lsum f l end.

Definition msum {K A} `{Countable K} (f : A -> Z) (m : gmap K A) : Z := lsum (fun e => f e.2) (map_to_list m).

Lemma lsum_app {A} (f : A -> Z) l k : lsum f (l ++ k) = lsum f l + lsum f k.
Proof. induction l as [|a l IH]; cbn; [done|]. rewrite IH. lia. Qed.

Lemma lsum_perm {A} (f : A -> Z) l k : l ≡ₚ k -> lsum f l = lsum f k.
Proof. induction 1; cbn; lia. Qed.

Lemma lsum_map {A B} (f : B -> Z) (g : A -> B) l : lsum f (map g l) = lsum (fun a => f (g a)) l.
Proof. induction l as [|a l IH]; cbn; [done|]. by rewrite IH. Qed.

Lemma lsum_nonneg {A} (f : A -> Z) l : Forall (fun a => 0 <= f a) l -> 0 <= lsum f l.
Proof. induction 1; cbn; lia. Qed.

Section Sums.
Context {K A} `{Countable K} (f : A -> Z).
Implicit Types m : gmap K A.

Lemma msum_empty : msum f (∅ : gmap K A) = 0.
Proof. unfold msum. by rewrite map_to_list_empty. Qed.

Lemma msum_insert m k a : m !! k = None -> msum f (<[k := a]> m) = f a + msum f m.
Proof. intros Hk. unfold msum. rewrite (lsum_perm _ _ _ (map_to_list_insert m k a Hk)). done. Qed.

Lemma msum_delete m k a : m !! k = Some a -> msum f m = f a + msum f (delete k m).
Proof.
  intros Hk. rewrite <- (insert_delete_id m k a Hk) at 1. apply msum_insert. apply lookup_delete_eq.
Qed.

Lemma msum_update m k a b : m !! k = Some a -> msum f (<[k := b]> m) = msum f m - f a + f b.
Proof.
  intros Hk. rewrite (msum_delete m k a Hk), (msum_delete (<[k := b]> m) k b) by apply lookup_insert_eq.
  rewrite delete_insert_eq. lia.
Qed.

Lemma msum_nonneg_map m : (forall k a, m !! k = Some a -> 0 <= f a) -> 0 <= msum f m.
Proof.
  intros Hs. unfold msum. apply lsum_nonneg, Forall_forall. intros [k a] Hin.
  apply elem_of_map_to_list in Hin. by eapply Hs.
Qed.
End Sums.

(** ** Totals *)

(** The packets and bytes of the sources and of the overflow. *)
Definition tracked_by (f : SourceState -> Z) (s : TopologyState) : Z :=
  msum f (sources s) + match overflow s with Some o => f o | None => 0 end.

(** A counter that a merge adds to, while it does not saturate. *)
Definition adds (f : SourceState -> Z) (g : PendingCounters -> Z) : Prop :=
  (forall now, f (SourceState_new now) = 0) /\
  forall c second now s, f s + g c <= u64_MAX -> f (merge c second now s) = f s + g c.

Lemma adds_packets : adds packets_total pc_packets.
Proof. split; [done|]. intros. cbn. by apply sat_add_small. Qed.

Lemma adds_bytes : adds bytes_total pc_bytes.
Proof. split; [done|]. intros. cbn. by apply sat_add_small. Qed.

Section Totals.
Context (f : SourceState -> Z) (g : PendingCounters -> Z) (Hfg : adds f g).

(** Counters that are not negative. *)
Definition nonneg_state (s : TopologyState) : Prop :=
  (forall ip a, sources s !! ip = Some a -> 0 <= f a) /\ (forall o, overflow s = Some o -> 0 <= f o).

Lemma msum_nonneg s : nonneg_state s -> 0 <= msum f (sources s).
Proof. intros [Hs _]. by apply msum_nonneg_map. Qed.

Lemma source_le_tracked s ip a : nonneg_state s -> sources s !! ip = Some a -> f a <= tracked_by f s.
Proof.
  intros Hn Ha. pose proof Hn as [Hs Ho]. unfold tracked_by. rewrite (msum_delete f _ _ _ Ha).
  assert (0 <= msum f (delete ip (sources s))).
  { apply msum_nonneg_map. intros i b [_ Hb]%lookup_delete_Some. by eapply Hs. }
  destruct (overflow s) as [o|] eqn:Eo; [specialize (Ho o eq_refl)|]; lia.
Qed.

Lemma overflow_le_tracked s o : nonneg_state s -> overflow s = Some o -> f o <= tracked_by f s.
Proof. intros Hn Ho. pose proof (msum_nonneg s Hn). unfold tracked_by. rewrite Ho. lia. Qed.

(** One pending source adds what it counted. *)
Lemma merge_source_tracked mx second now s ip c :
  nonneg_state s -> 0 <= g c -> tracked_by f s + g c <= u64_MAX ->
  let s' := merge_source mx second now s (ip, c) in
  tracked_by f s' = tracked_by f s + g c /\ nonneg_state s'.
Proof.
  intros Hn Hc Hmax. destruct Hfg as [H0 Hadd]. pose proof Hn as [Hs Ho]. unfold merge_source.
  assert (0 <= tracked_by f s) as Hpos.
  { pose proof (msum_nonneg s Hn). unfold tracked_by. destruct (overflow s) eqn:Eo; [pose proof (Ho _ eq_refl)|]; lia. }
  destruct (sources s !! ip) as [a|] eqn:Ha; [|destruct (_ <? mx)].
  - pose proof (source_le_tracked s ip a Hn Ha). pose proof (Hs _ _ Ha).
    assert (f (merge c second now a) = f a + g c) as Hm by (apply Hadd; lia). split.
    + unfold tracked_by. cbn. rewrite (msum_update f _ _ _ _ Ha), Hm. lia.
    + split; [|done]. intros i b Hb; cbn in Hb. apply lookup_insert_Some in Hb as [[<- <-]|[_ Hb]]; [lia|by eapply Hs].
  - assert (f (merge c second now (SourceState_new now)) = g c) as Hm by (rewrite Hadd; rewrite H0; lia). split.
    + unfold tracked_by. cbn. rewrite msum_insert, Hm by done. lia.
    + split; [|done]. intros i b Hb; cbn in Hb. apply lookup_insert_Some in Hb as [[<- <-]|[_ Hb]]; [lia|by eapply Hs].
  - set (o := default (SourceState_new now) (overflow s)).
    assert (f o = match overflow s with Some o => f o | None => 0 end) as Hfo by (subst o; destruct (overflow s); cbn; auto).
    pose proof (msum_nonneg s Hn).
    assert (f (merge c second now o) = f o + g c) as Hm by (apply Hadd; unfold tracked_by in *; lia). split.
    + unfold tracked_by. cbn. rewrite Hm. lia.
    + split; [done|]. intros o' [= <-]. rewrite Hm, Hfo. destruct (overflow s) eqn:Eo; [pose proof (Ho _ eq_refl)|]; lia.
Qed.

Lemma merge_fold_tracked mx second now es : forall s,
  nonneg_state s -> Forall (fun e => 0 <= g e.2) es -> tracked_by f s + lsum (fun e => g e.2) es <= u64_MAX ->
  let s' := fold_left (merge_source mx second now) es s in
  tracked_by f s' = tracked_by f s + lsum (fun e => g e.2) es /\ nonneg_state s'.
Proof.
  induction es as [|[ip c] es IH]; intros s Hn Hg Hmax; cbn [fold_left lsum] in *; [split; [lia|done]|].
  apply Forall_cons in Hg as [Hc Hg]. cbn [snd] in *.
  pose proof (lsum_nonneg (fun e : Ip * PendingCounters => g e.2) es Hg) as Hsum.
  destruct (merge_source_tracked mx second now s ip c Hn Hc) as [Ht Hn']; [lia|].
  destruct (IH (merge_source mx second now s (ip, c)) Hn' Hg) as [Ht2 Hn2]; [rewrite Ht; lia|].
  split; [|done]. rewrite Ht2, Ht. lia.
Qed.
End Totals.

(** ** The size of the table *)

Lemma merge_source_size mx second now s e :
  Z.of_nat (size (sources s)) <= mx -> Z.of_nat (size (sources (merge_source mx second now s e))) <= mx.
Proof.
  intros H. destruct e as [ip c]. unfold merge_source. destruct (sources s !! ip) eqn:Ha.
  - cbn. by rewrite map_size_insert_Some by (by rewrite Ha; eexists).
  - destruct (_ <? mx) eqn:Hlt; reflect_bools; [|done]. cbn. rewrite map_size_insert_None by done. lia.
Qed.

Lemma merge_fold_size mx second now es s :
  Z.of_nat (size (sources s)) <= mx -> Z.of_nat (size (sources (fold_left (merge_source mx second now) es s))) <= mx.
Proof.
  revert s. induction es as [|e es IH]; intros s H; [done|]. by apply IH, merge_source_size.
Qed.

Lemma collect_garbage_size ttl now s : (size (sources (collect_garbage ttl now s)) <= size (sources s))%nat.
Proof. cbn. apply map_subseteq_size, map_filter_subseteq. Qed.

(** ** Sources seen lately stay *)

Definition seen_since (t0 : Z) (s : TopologyState) : Prop :=
  forall ip a, sources s !! ip = Some a -> t0 <= last_observed a.

Lemma collect_garbage_keeps ttl now t0 s :
  seen_since t0 s -> now <= t0 + ttl -> 0 <= ttl -> sources (collect_garbage ttl now s) = sources s.
Proof.
  intros Hs Hnow H0. cbn. apply map_filter_id. intros ip a Ha. cbn. specialize (Hs ip a Ha). unfold sat_sub. lia.
Qed.

Lemma merge_source_seen mx second now t0 s e :
  seen_since t0 s -> t0 <= now -> seen_since t0 (merge_source mx second now s e).
Proof.
  intros Hs Hnow. destruct e as [ip c]. unfold merge_source. destruct (sources s !! ip) eqn:Ha; [|destruct (_ <? mx); [|done]];
    intros i b Hb; cbn in Hb; apply lookup_insert_Some in Hb as [[<- <-]|[_ Hb]]; cbn; [done|by eapply Hs|done|by eapply Hs].
Qed.

Lemma merge_fold_seen mx second now t0 es s :
  seen_since t0 s -> t0 <= now -> seen_since t0 (fold_left (merge_source mx second now) es s).
Proof. revert s. induction es as [|e es IH]; intros s H Ht; [done|]. apply IH; [by apply merge_source_seen|done]. Qed.

(** ** An observer and its tracker *)

(** What one packet adds to a counter. *)
Definition counts (g : PendingCounters -> Z) (inc : Z -> Z) : Prop :=
  g no_counters = 0 /\ (forall len, 0 <= len -> 0 <= inc len) /\
  forall ts len c, g c + inc len <= u64_MAX -> g (count_packet ts len c) = g c + inc len.

Lemma counts_packets : counts pc_packets (fun _ => 1).
Proof. split; [done|]. split; [done|]. intros. cbn. by apply sat_add_small. Qed.

Lemma counts_bytes : counts pc_bytes (fun len => len).
Proof. split; [done|]. split; [done|]. intros. cbn. by apply sat_add_small. Qed.

Section Observed.
Context `{HashOrder} (f : SourceState -> Z) (g : PendingCounters -> Z) (inc : Z -> Z).
Context (Hfg : adds f g) (Hg : counts g inc).

(** The packets of a pair: those pending and those merged. *)
Definition held (o : LocalTopologyObserver) (t : TopologyTracker) : Z := msum g (pending o) + tracked_by f (tt_state t).

Record pair_ok (t0 : Z) (o : LocalTopologyObserver) (t : TopologyTracker) : Prop := {
  po_pending ip c : pending o !! ip = Some c -> 0 <= g c;
  po_state : nonneg_state f (tt_state t);
  po_size : Z.of_nat (size (sources (tt_state t))) <= max_sources t;
  po_seen : seen_since t0 (tt_state t);
  po_ttl : 0 <= source_ttl t
}.

Lemma pair_tracked_nonneg t0 o t : pair_ok t0 o t -> 0 <= tracked_by f (tt_state t) /\ 0 <= msum g (pending o).
Proof.
  intros [Hp Hs _ _ _]. split; [|by apply msum_nonneg_map].
  pose proof (msum_nonneg f _ Hs). destruct Hs as [_ Ho]. unfold tracked_by.
  destruct (overflow (tt_state t)) eqn:Eo; [pose proof (Ho _ eq_refl)|]; lia.
Qed.

(** No source has passed its time to live. *)
Definition in_time (t0 : Z) (t : TopologyTracker) (k : Clocks) : Prop := t0 <= ck_merge k <= t0 + source_ttl t.

Lemma merge_batch_spec t0 now second es t :
  nonneg_state f (tt_state t) -> Z.of_nat (size (sources (tt_state t))) <= max_sources t ->
  seen_since t0 (tt_state t) -> 0 <= source_ttl t -> t0 <= now <= t0 + source_ttl t ->
  Forall (fun e => 0 <= g e.2) es -> tracked_by f (tt_state t) + lsum (fun e => g e.2) es <= u64_MAX ->
  let t' := merge_batch now second es t in
  tracked_by f (tt_state t') = tracked_by f (tt_state t) + lsum (fun e => g e.2) es /\
  nonneg_state f (tt_state t') /\ Z.of_nat (size (sources (tt_state t'))) <= max_sources t' /\
  seen_since t0 (tt_state t') /\ source_ttl t' = source_ttl t /\ max_sources t' = max_sources t.
Proof.
  intros Hn Hsz Hseen Httl Hnow Hes Hmax. unfold merge_batch. destruct (is_empty es) eqn:He.
  { apply is_empty_spec in He as ->. cbn [lsum]. by rewrite Z.add_0_r. }
  set (s := if gc_due _ _ _ then _ else _).
  assert (sources s = sources (tt_state t) /\ overflow s = overflow (tt_state t)) as [Hs Ho].
  { subst s. destruct (gc_due _ _ _); [|done]. split; [|done]. by eapply (collect_garbage_keeps _ _ t0); [|lia..]. }
  assert (nonneg_state f s) as Hns by (unfold nonneg_state; by rewrite Hs, Ho).
  assert (tracked_by f s = tracked_by f (tt_state t)) as Hts by (unfold tracked_by; by rewrite Hs, Ho).
  destruct (merge_fold_tracked f g Hfg (max_sources t) second now es s Hns Hes) as [Ht Hn']; [by rewrite Hts|].
  cbn [tt_state max_sources source_ttl]. rewrite Ht, Hts. split; [done|]. split; [done|]. split.
  - apply merge_fold_size. by rewrite Hs.
  - split; [|done]. apply merge_fold_seen; [|lia]. intros ip a. rewrite Hs. apply Hseen.
Qed.

Lemma flush_spec_topology t0 k o t :
  pair_ok t0 o t -> in_time t0 t k -> held o t <= u64_MAX ->
  held (flush k o t).1 (flush k o t).2 = held o t /\ pair_ok t0 (flush k o t).1 (flush k o t).2 /\
  pending (flush k o t).1 = ∅ /\ source_ttl (flush k o t).2 = source_ttl t /\ max_sources (flush k o t).2 = max_sources t.
Proof.
  intros Hok Hk Hmax. pose proof Hok as [Hp Hn Hsz Hseen Httl].
  assert (lsum (fun e : Ip * PendingCounters => g e.2) (walk (pending o)) = msum g (pending o)) as Hsum.
  { apply lsum_perm, walk_permutation. }
  destruct (merge_batch_spec t0 (ck_merge k) (ck_second k) (walk (pending o)) t Hn Hsz Hseen Httl Hk)
    as (Ht & Hn' & Hsz' & Hseen' & Httl' & Hmx').
  { apply Forall_forall. intros [ip c] Hin. rewrite walk_permutation in Hin. apply elem_of_map_to_list in Hin. by eapply Hp. }
  { rewrite Hsum. unfold held in Hmax. lia. }
  unfold flush, held. cbn [fst snd pending]. rewrite msum_empty, Ht, Hsum. split; [lia|].
  split; [|done]. constructor; [intros ip c Hc; cbn in Hc; by rewrite lookup_empty in Hc|done|done|done|by rewrite Httl'].
Qed.

Lemma observe_spec t0 k ts len ip o t :
  pair_ok t0 o t -> in_time t0 t k -> 0 <= len -> held o t + inc len <= u64_MAX ->
  let r := observe_ipv4_source k ts len ip o t in
  held r.1 r.2 = held o t + inc len /\ pair_ok t0 r.1 r.2 /\ source_ttl r.2 = source_ttl t /\ max_sources r.2 = max_sources t.
Proof.
  intros Hok Hk Hlen Hmax. destruct Hg as (Hg0 & Hinc & Hcount). specialize (Hinc len Hlen).
  pose proof (pair_tracked_nonneg _ _ _ Hok) as [Hpos Hpend]. pose proof Hok as [Hp Hn Hsz Hseen Httl].
  unfold observe_ipv4_source. set (c := default no_counters (pending o !! ip)).
  assert (0 <= g c <= msum g (pending o)) as Hc.
  { subst c. destruct (pending o !! ip) as [c|] eqn:Hip; cbn; [|lia]. split; [by eapply Hp|].
    rewrite (msum_delete g _ _ _ Hip). enough (0 <= msum g (delete ip (pending o))) by lia.
    apply msum_nonneg_map. intros i b [_ Hb]%lookup_delete_Some. by eapply Hp. }
  assert (g (count_packet ts len c) = g c + inc len) as Hnew by (apply Hcount; unfold held in Hmax; lia).
  set (o1 := {| pending := <[ip := count_packet ts len c]> (pending o); last_flush := last_flush o;
                ignored_source_mac := ignored_source_mac o |}).
  assert (held o1 t = held o t + inc len) as Hheld.
  { unfold held, o1. cbn [pending]. subst c. destruct (pending o !! ip) as [c|] eqn:Hip.
    - change (default no_counters (Some c)) with c in *. rewrite (msum_update g _ _ _ _ Hip), Hnew. lia.
    - change (default no_counters None) with no_counters in *. rewrite msum_insert, Hnew by done. lia. }
  assert (pair_ok t0 o1 t) as Hok1.
  { constructor; try done. intros i b Hb. cbn in Hb. apply lookup_insert_Some in Hb as [[<- <-]|[_ Hb]]; [lia|by eapply Hp]. }
  destruct (_ || _); [|done]. cbn zeta.
  destruct (flush_spec_topology t0 k o1 t Hok1 Hk) as (Hf & Hok' & _ & ? & ?); [lia|]. by rewrite Hf, Hheld.
Qed.

(** A packet seen, with the clocks of its call. *)
Record Observation := { ob_clocks : Clocks; ob_ts_ns : Z; ob_wire_len : Z; ob_ip : Ip }.

Definition observe_all (obs : list Observation) (p : LocalTopologyObserver * TopologyTracker)
  : LocalTopologyObserver * TopologyTracker :=
  fold_left (fun p ob => observe_ipv4_source (ob_clocks ob) (ob_ts_ns ob) (ob_wire_len ob) (ob_ip ob) p.1 p.2) obs p.

Lemma observe_all_spec t0 obs : forall o t,
  pair_ok t0 o t -> Forall (fun ob => in_time t0 t (ob_clocks ob) /\ 0 <= ob_wire_len ob) obs ->
  held o t + lsum (fun ob => inc (ob_wire_len ob)) obs <= u64_MAX ->
  let r := observe_all obs (o, t) in
  held r.1 r.2 = held o t + lsum (fun ob => inc (ob_wire_len ob)) obs /\ pair_ok t0 r.1 r.2 /\
  source_ttl r.2 = source_ttl t /\ max_sources r.2 = max_sources t.
Proof.
  induction obs as [|ob obs IH]; intros o t Hok Hobs Hmax; cbn [observe_all fold_left lsum fst snd] in *.
  { rewrite Z.add_0_r. done. }
  apply Forall_cons in Hobs as [[Hk Hlen] Hobs]. destruct Hg as (_ & Hinc & _).
  assert (0 <= lsum (fun ob => inc (ob_wire_len ob)) obs) as Hrest.
  { apply lsum_nonneg. eapply Forall_impl; [exact Hobs|]. intros ob' [_ ?]. by apply Hinc. }
  destruct (observe_spec t0 (ob_clocks ob) (ob_ts_ns ob) (ob_wire_len ob) (ob_ip ob) o t Hok Hk Hlen) as (Hh & Hok1 & Httl & Hmx); [lia|].
  destruct (observe_ipv4_source (ob_clocks ob) (ob_ts_ns ob) (ob_wire_len ob) (ob_ip ob) o t) as [o1 t1]. cbn [fst snd] in *.
  destruct (IH o1 t1 Hok1) as (Hh2 & Hok2 & Httl2 & Hmx2).
  { unfold in_time. by rewrite Httl. }
  { lia. }
  unfold observe_all in Hh2, Hok2, Httl2, Hmx2. rewrite Hh2, Hh. split; [lia|]. split; [done|]. by rewrite Httl2, Hmx2.
Qed.

Lemma pair_ok_new t0 prefix ttl mx mac now :
  0 <= ttl -> 0 <= mx -> pair_ok t0 (local_observer mac now) (TopologyTracker_new prefix ttl mx) /\
  held (local_observer mac now) (TopologyTracker_new prefix ttl mx) = 0.
Proof.
  intros Httl Hmx. split.
  - constructor; cbn.
    + intros ip c Hc. by rewrite lookup_empty in Hc.
    + split; [|done]. intros ip a Ha. cbn in Ha. by rewrite lookup_empty in Ha.
    + rewrite map_size_empty. lia.
    + intros ip a Ha. cbn in Ha. by rewrite lookup_empty in Ha.
    + done.
  - unfold held, tracked_by. cbn. by rewrite !msum_empty.
Qed.
End Observed.
