(* ===== verification/TopologyTheorems.v ===== *)
(** * Theorems on the topology *)

From Stdlib Require Import SpecFloat.
From stdpp Require Import sorting.
From S2P Require Import Prelude Model Text Ipv4 Topology TopologySpec.

(** ** The order of rates *)

Lemma total_cmp_antisym x y : total_cmp y x = CompOpp (total_cmp x y).
Proof.
  unfold total_cmp. rewrite Z.compare_antisym.
  destruct (Z.compare (f64_class x) (f64_class y)) eqn:Hc; cbn [CompOpp]; [|done..].
  apply Z.compare_eq in Hc.
  destruct x as [[]|[]| |[] m e], y as [[]|[]| |[] m' e']; cbn in Hc |- *; try done.
  - rewrite (Z.compare_antisym e e'). destruct (Z.compare e e') eqn:He; cbn; try done.
    change (Pos.compare_cont Eq m m') with (Pos.compare m m'). change (Pos.compare_cont Eq m' m) with (Pos.compare m' m).
    rewrite (Pos.compare_antisym m m'). by destruct (Pos.compare m m').
  - rewrite (Z.compare_antisym e e'). destruct (Z.compare e e') eqn:He; cbn; try done.
    change (Pos.compare_cont Eq m m') with (Pos.compare m m'). change (Pos.compare_cont Eq m' m) with (Pos.compare m' m).
    rewrite (Pos.compare_antisym m m'). by destruct (Pos.compare m m').
Qed.

Lemma text_le_total s t : text_le s t = true \/ text_le t s = true.
Proof.
  revert t. induction s as [|a s IH]; intros [|b t]; cbn; auto.
  destruct (a <? b) eqn:H1; [by left|]. destruct (b <? a) eqn:H2; [by right|]. apply IH.
Qed.

Lemma by_rate_total b1 b2 t1 t2 : by_rate b1 b2 t1 t2 = true \/ by_rate b2 b1 t2 t1 = true.
Proof.
  unfold by_rate. rewrite (total_cmp_antisym b1 b2).
  destruct (total_cmp b1 b2); cbn [CompOpp]; [apply text_le_total|by right|by left].
Qed.

#[export] Instance source_before_total : Total source_before.
Proof. intros a b. apply by_rate_total. Qed.
#[export] Instance group_before_total : Total group_before.
Proof. intros a b. apply by_rate_total. Qed.

(** ** The window of a rate *)

(** The seconds of the window at [now]. *)
Definition in_window (now second : Z) : Prop := sat_sub now second < RATE_WINDOW_SECS.

#[export] Instance in_window_dec now second : Decision (in_window now second).
Proof. unfold in_window. apply _. Defined.

Definition window (now : Z) (bs : list RateBucket) : list RateBucket := filter (fun b => in_window now (rb_second b)) bs.

Definition rb_lt (a b : RateBucket) : Prop := rb_second a < rb_second b.

Lemma trim_window now bs : StronglySorted rb_lt bs -> trim_buckets now bs = window now bs.
Proof.
  induction 1 as [|b bs Hs IH Hb]; [done|]. cbn [trim_buckets]. unfold window.
  destruct (RATE_WINDOW_SECS <=? sat_sub now (rb_second b)) eqn:Ht; reflect_bools.
  - rewrite filter_cons_False by (unfold in_window; lia). exact IH.
  - rewrite filter_cons_True by done. f_equal. fold (window now bs). rewrite <- IH. symmetry.
    destruct bs as [|b' bs]; [done|]. cbn [trim_buckets]. apply Forall_cons in Hb as [Hb _]. unfold rb_lt in Hb.
    assert ((RATE_WINDOW_SECS <=? sat_sub now (rb_second b')) = false) as ->; [|done].
    apply Z.leb_gt. unfold sat_sub in *. lia.
Qed.

Lemma Forall_window (P : RateBucket -> Prop) now bs : Forall P bs -> Forall P (window now bs).
Proof. rewrite !Forall_forall. intros H b [_ Hb]%list_elem_of_filter. by apply H. Qed.

Lemma window_later now later bs : now <= later -> window later (window now bs) = window later bs.
Proof.
  intros H. unfold window. apply list_filter_filter_l. intros b. unfold in_window, sat_sub. lia.
Qed.

Lemma window_sorted now bs : StronglySorted rb_lt bs -> StronglySorted rb_lt (window now bs).
Proof.
  induction 1 as [|b bs Hs IH Hb]; [constructor|]. unfold window. rewrite filter_cons. fold (window now bs).
  case_decide; [|done]. constructor; [done|]. by apply Forall_window.
Qed.

(** What happened to a source: its batches with their seconds. *)
Abbreviation History := (list (Z * PendingCounters)).

Definition merge_all (h : History) (s : SourceState) : SourceState :=
  fold_left (fun s e => merge e.2 e.1 0 s) h s.

(** The batches of the window. *)
Definition recent (now : Z) (h : History) : History := filter (fun e => in_window now e.1) h.

(** Seconds that do not go back, from [lo] on. *)
Fixpoint forward (lo : Z) (h : History) : Prop :=
  match h with [] => True | e :: h => lo <= e.1 /\ forward e.1 h end.

Definition newest (lo : Z) (h : History) : Z := fold_left (fun _ e => e.1) h lo.

Lemma add_bucket_cases c second bs :
  (exists bs0 b, bs = bs0 ++ [b] /\ rb_second b = second /\ add_bucket c second bs = bs0 ++ [to_bucket c b]) \/
  ((forall b, last bs = Some b -> rb_second b <> second) /\
   add_bucket c second bs = bs ++ [{| rb_second := second; rb_packets := pc_packets c; rb_bytes := pc_bytes c |}]).
Proof.
  unfold add_bucket. destruct (last bs) as [b|] eqn:Hl.
  - apply last_Some in Hl as [bs0 ->]. rewrite removelast_last.
    destruct (rb_second b =? second) eqn:Hs; reflect_bools; [left; by exists bs0, b|right].
    split; [|done]. by intros b' [= <-].
  - right. apply last_None in Hl as ->. done.
Qed.

Lemma add_bucket_sorted at_ second c bs :
  StronglySorted rb_lt bs -> Forall (fun b => rb_second b <= at_) bs -> at_ <= second ->
  StronglySorted rb_lt (add_bucket c second bs) /\ Forall (fun b => rb_second b <= second) (add_bucket c second bs).
Proof.
  intros Hs Hn Hle.
  assert (exists bs0 b, add_bucket c second bs = bs0 ++ [b] /\ rb_second b = second /\ StronglySorted rb_lt bs0 /\
            Forall (fun b' => rb_second b' < second) bs0) as (bs0 & b & -> & Hb & Hs0 & Hlt).
  { destruct (add_bucket_cases c second bs) as [(bs0 & b & -> & Hb & ->)|[Hl ->]]; eexists _, _; (split; [reflexivity|]); cbn;
      (split; [done|]).
    - split; [by eapply StronglySorted_app_1_l|]. apply Forall_forall. intros b' Hb'. rewrite <- Hb.
      exact (StronglySorted_app_1_elem_of _ _ _ _ _ Hs Hb' (list_elem_of_here _ _)).
    - split; [done|]. destruct (last bs) as [b|] eqn:Hlast; [|by apply last_None in Hlast as ->].
      apply last_Some in Hlast as [bs0 ->]. apply Forall_app in Hn as [_ Hb]. rewrite Forall_singleton in Hb.
      specialize (Hl b eq_refl). apply Forall_app. split; [|apply Forall_singleton; lia].
      apply Forall_forall. intros b' Hb'.
      assert (rb_lt b' b) as Hlt' by (exact (StronglySorted_app_1_elem_of _ _ _ _ _ Hs Hb' (list_elem_of_here _ _))).
      unfold rb_lt in Hlt'. lia. }
  rewrite Forall_forall in Hlt. split.
  - apply StronglySorted_app. split; [|split; [done|repeat constructor]].
    intros b1 b2 H1 ->%list_elem_of_singleton. unfold rb_lt. rewrite Hb. by apply Hlt.
  - apply Forall_app. split; [|apply Forall_singleton; lia]. apply Forall_forall. intros b' Hb'. specialize (Hlt b' Hb'). lia.
Qed.

Section Window.
Context (fb : RateBucket -> Z) (fc : PendingCounters -> Z).
Context (Hto : forall c b, fb (to_bucket c b) = sat_add (fb b) (fc c)).
Context (Hnew : forall c second, fb {| rb_second := second; rb_packets := pc_packets c; rb_bytes := pc_bytes c |} = fc c).

(** Buckets that hold the batches [h], none of which is newer than [at_]. *)
Record holds (at_ : Z) (h : History) (bs : list RateBucket) : Prop := {
  hd_sorted : StronglySorted rb_lt bs;
  hd_newest : Forall (fun b => rb_second b <= at_) bs;
  hd_nonneg : Forall (fun b => 0 <= fb b) bs;
  hd_sum now : at_ <= now -> lsum fb (window now bs) = lsum (fun e => fc e.2) (recent now h)
}.

Lemma lsum_filter_le {A} (f : A -> Z) (P : A -> Prop) `{forall x, Decision (P x)} l :
  Forall (fun a => 0 <= f a) l -> 0 <= lsum f (filter P l) <= lsum f l.
Proof.
  induction 1 as [|a l Ha _ IH]; [done|]. rewrite filter_cons. case_decide; cbn; lia.
Qed.

Lemma holds_merge at_ h bs second c :
  holds at_ h bs -> at_ <= second -> 0 <= fc c -> lsum (fun e => fc e.2) h + fc c <= u64_MAX ->
  Forall (fun e => 0 <= fc e.2) h ->
  holds second (h ++ [(second, c)]) (trim_buckets second (add_bucket c second bs)).
Proof.
  intros [Hs Hn H0 Hsum] Hle Hc Hmax Hh.
  destruct (add_bucket_sorted at_ second c bs Hs Hn Hle) as [Hs' Hn'].
  assert (Forall (fun b => 0 <= fb b) (add_bucket c second bs)) as H0'.
  { destruct (add_bucket_cases c second bs) as [(bs0 & b & -> & Hb & ->)|[Hl ->]].
    - apply Forall_app in H0 as [H00 Hb0]. rewrite Forall_singleton in Hb0. apply Forall_app. split; [done|].
      apply Forall_singleton. rewrite Hto. unfold sat_add, u64_MAX. lia.
    - apply Forall_app. split; [done|]. apply Forall_singleton. by rewrite Hnew. }
  assert (forall now, second <= now -> lsum fb (window now (add_bucket c second bs)) =
            lsum (fun e => fc e.2) (recent now (h ++ [(second, c)]))) as Hadd.
  { intros now Hnow. specialize (Hsum now ltac:(lia)).
    pose proof (lsum_filter_le (fun e : Z * PendingCounters => fc e.2) (fun e => in_window now e.1) h Hh) as Hr.
    change (filter (fun e : Z * PendingCounters => in_window now e.1) h) with (recent now h) in Hr.
    assert (lsum (fun e => fc e.2) (recent now (h ++ [(second, c)])) =
            lsum (fun e => fc e.2) (recent now h) + if decide (in_window now second) then fc c else 0) as ->.
    { unfold recent. rewrite filter_app, lsum_app. f_equal. unfold filter. cbn. case_decide; cbn; lia. }
    rewrite <- Hsum. unfold window in *. destruct (add_bucket_cases c second bs) as [(bs0 & b & -> & Hb & ->)|[Hl ->]].
    - apply Forall_app in H0 as [H00 Hb0]. rewrite Forall_singleton in Hb0.
      rewrite filter_app, lsum_app in Hsum. rewrite !filter_app, !lsum_app, <- Z.add_assoc. f_equal.
      pose proof (lsum_filter_le fb (fun b => in_window now (rb_second b)) bs0 H00) as Hr0.
      rewrite !filter_cons, !filter_nil in *. cbn [rb_second to_bucket]. rewrite Hb in *.
      case_decide; cbn [lsum] in *; [|lia]. rewrite Hto. unfold sat_add. lia.
    - rewrite filter_app, lsum_app, filter_cons, filter_nil. f_equal. cbn [rb_second].
      case_decide; cbn [lsum]; [rewrite Hnew|]; lia. }
  rewrite trim_window by done. constructor; [by apply window_sorted|by apply Forall_window..|].
  intros now Hnow. rewrite window_later by done. by apply Hadd.
Qed.
End Window.

(** The seconds of the window are those of its batches. *)
Definition same_seconds (at_ : Z) (h : History) (bs : list RateBucket) : Prop :=
  forall second, in_window at_ second -> second ∈ map rb_second bs <-> second ∈ map fst h.

Lemma add_bucket_seconds c second bs x :
  x ∈ map rb_second (add_bucket c second bs) <-> x ∈ map rb_second bs \/ x = second.
Proof.
  destruct (add_bucket_cases c second bs) as [(bs0 & b & -> & Hb & ->)|[_ ->]];
    rewrite !map_app, !elem_of_app; cbn; rewrite !list_elem_of_singleton; [|done].
  rewrite Hb. tauto.
Qed.

Lemma window_seconds now bs x : in_window now x -> x ∈ map rb_second (window now bs) <-> x ∈ map rb_second bs.
Proof.
  intros Hx. rewrite !list_elem_of_fmap. split.
  - intros (b & -> & [_ Hb]%list_elem_of_filter). by exists b.
  - intros (b & -> & Hb). exists b. split; [done|]. by apply list_elem_of_filter.
Qed.

Lemma same_seconds_merge at_ h bs second c :
  same_seconds at_ h bs -> at_ <= second -> StronglySorted rb_lt (add_bucket c second bs) ->
  same_seconds second (h ++ [(second, c)]) (trim_buckets second (add_bucket c second bs)).
Proof.
  intros H Hle Hs x Hx. rewrite trim_window, window_seconds, add_bucket_seconds by done.
  rewrite map_app, elem_of_app. cbn. rewrite list_elem_of_singleton.
  assert (in_window at_ x) as Hx' by (unfold in_window, sat_sub in *; lia). specialize (H x Hx'). tauto.
Qed.

Lemma sum_u64_spec l : Forall (fun x => 0 <= x) l -> lsum id l <= u64_MAX -> sum_u64 l = lsum id l.
Proof.
  intros Hl Hmax. unfold sum_u64.
  enough (forall acc, 0 <= acc -> acc + lsum id l <= u64_MAX -> fold_left (wrapping_add 64) l acc = acc + lsum id l) as He
    by (rewrite He; lia).
  clear Hmax. induction Hl as [|x l Hx Hl IH]; intros acc Ha Hm; cbn in *; [lia|].
  assert (0 <= lsum id l) by (by apply lsum_nonneg).
  assert (wrapping_add 64 acc x = acc + x) as ->; [unfold wrapping_add; apply wrap_small; unfold u64_MAX, id in *; lia|].
  unfold id in *. rewrite IH by lia. lia.
Qed.

Definition packets_holds := holds rb_packets pc_packets.
Definition bytes_holds := holds rb_bytes pc_bytes.

(** The history of a source, as its buckets tell it. *)
Record tells (at_ : Z) (h : History) (s : SourceState) : Prop := {
  tl_packets_of : packets_holds at_ h (buckets s);
  tl_bytes_of : bytes_holds at_ h (buckets s);
  tl_seconds : same_seconds at_ h (buckets s)
}.

Definition nonneg_history (h : History) : Prop := Forall (fun e => 0 <= pc_packets e.2 /\ 0 <= pc_bytes e.2) h.

Lemma tells_merge at_ h s second c :
  tells at_ h s -> at_ <= second -> nonneg_history (h ++ [(second, c)]) ->
  lsum (fun e => pc_packets e.2) h + pc_packets c <= u64_MAX -> lsum (fun e => pc_bytes e.2) h + pc_bytes c <= u64_MAX ->
  tells second (h ++ [(second, c)]) (merge c second 0 s).
Proof.
  intros [Hp Hb Hs] Hle Hn Hmp Hmb. unfold nonneg_history in Hn. apply Forall_app in Hn as [Hn Hc].
  rewrite Forall_singleton in Hc. cbn in Hc. destruct Hc as [Hcp Hcb].
  assert (packets_holds second (h ++ [(second, c)]) (trim_buckets second (add_bucket c second (buckets s)))) as Hp'.
  { apply (holds_merge rb_packets pc_packets (fun _ _ => eq_refl) (fun _ _ => eq_refl) at_); [done..|].
    eapply Forall_impl; [exact Hn|]. by intros ? []. }
  split; [exact Hp'| |].
  - apply (holds_merge rb_bytes pc_bytes (fun _ _ => eq_refl) (fun _ _ => eq_refl) at_); [done..|].
    eapply Forall_impl; [exact Hn|]. by intros ? [].
  - apply (same_seconds_merge at_); [done|done|]. by apply (add_bucket_sorted at_); [apply Hp|apply Hp|].
Qed.

Lemma tells_all h : forall at_ h0 s,
  tells at_ h0 s -> forward at_ h -> nonneg_history (h0 ++ h) ->
  lsum (fun e => pc_packets e.2) (h0 ++ h) <= u64_MAX -> lsum (fun e => pc_bytes e.2) (h0 ++ h) <= u64_MAX ->
  tells (newest at_ h) (h0 ++ h) (merge_all h s).
Proof.
  induction h as [|[second c] h IH]; intros at_ h0 s Ht Hf Hn Hp Hb; [by rewrite app_nil_r|].
  destruct Hf as [Hle Hf]. cbn [fst] in *. replace (h0 ++ (second, c) :: h) with ((h0 ++ [(second, c)]) ++ h) in * by (by rewrite <- app_assoc).
  unfold nonneg_history in Hn. apply Forall_app in Hn as [Hn1 Hn2].
  rewrite lsum_app in Hp, Hb.
  assert (0 <= lsum (fun e => pc_packets e.2) h /\ 0 <= lsum (fun e => pc_bytes e.2) h) as [H1 H2].
  { split; apply lsum_nonneg; (eapply Forall_impl; [exact Hn2|]); by intros ? []. }
  unfold merge_all, newest. cbn [fold_left]. apply (IH second (h0 ++ [(second, c)])); try done.
  - rewrite lsum_app in Hp, Hb. cbn [lsum snd] in Hp, Hb. apply (tells_merge at_); [done|done|done| |].
    all: cbn [snd]; lia.
  - by apply Forall_app.
  - by rewrite lsum_app.
  - by rewrite lsum_app.
Qed.

Lemma tells_new at_ now : tells at_ [] (SourceState_new now).
Proof. split; [split; [constructor..|done]|split; [constructor..|done]|]. intros x _. cbn. split; intros H; by apply elem_of_nil in H. Qed.

(** At most five seconds lie in the window. *)
Lemma window_short now bs :
  StronglySorted rb_lt bs -> Forall (fun b => rb_second b <= now) bs -> (length (window now bs) <= 5)%nat.
Proof.
  intros Hs Hn. rewrite <- (length_map rb_second).
  change 5%nat with (length (map (fun i => now - i) [0; 1; 2; 3; 4])). apply submseteq_length, NoDup_submseteq.
  - apply (window_sorted now) in Hs. induction Hs as [|b l _ IH Hb]; cbn; [constructor|]. constructor; [|exact IH].
    intros (b' & Hb' & Hin)%list_elem_of_fmap. rewrite Forall_forall in Hb. specialize (Hb b' Hin). unfold rb_lt in Hb. lia.
  - intros x (b & -> & [Hw Hb]%list_elem_of_filter)%list_elem_of_fmap. rewrite Forall_forall in Hn. specialize (Hn b Hb).
    unfold in_window, sat_sub, RATE_WINDOW_SECS in Hw. apply list_elem_of_fmap. exists (now - rb_second b). split; [lia|].
    assert (0 <= now - rb_second b < 5) as Hr by lia. set (d := now - rb_second b) in *.
    assert (d = 0 \/ d = 1 \/ d = 2 \/ d = 3 \/ d = 4) as Hd by lia. set_solver.
Qed.

(** The seconds from the oldest batch on, the current one included. *)
Definition span (now : Z) (h : History) : Z := foldr Z.max 1 (map (fun e => now - e.1 + 1) h).

Lemma span_eq now h x :
  1 <= x -> (exists e, e ∈ h /\ now - e.1 + 1 = x) -> (forall e, e ∈ h -> now - e.1 + 1 <= x) -> span now h = x.
Proof.
  intros Hx (e0 & Hin & He) Hle. unfold span.
  enough (foldr Z.max 1 (map (fun e : Z * PendingCounters => now - e.1 + 1) h) <= x /\
          now - e0.1 + 1 <= foldr Z.max 1 (map (fun e : Z * PendingCounters => now - e.1 + 1) h)) by lia.
  clear He. split.
  - clear Hin. induction h as [|e h IH]; cbn [foldr map]; [done|].
    pose proof (Hle e (list_elem_of_here _ _)). specialize (IH (fun e' H' => Hle e' (list_elem_of_further _ _ _ H'))). lia.
  - clear Hle. induction Hin as [e h|e e' h _ IH]; cbn [foldr map]; lia.
Qed.

Lemma forward_newest h : forall lo, forward lo h -> lo <= newest lo h /\ Forall (fun e => e.1 <= newest lo h) h.
Proof.
  induction h as [|e h IH]; intros lo; [split; [done|constructor]|]. intros [Hle Hf]. destruct (IH e.1 Hf) as [H1 H2].
  unfold newest in *. cbn [fold_left]. split; [lia|]. by constructor.
Qed.

Lemma window_packets now h bs :
  holds rb_packets pc_packets now h bs -> Forall (fun x => 0 <= x) (map rb_packets (window now bs)) /\
  lsum id (map rb_packets (window now bs)) = lsum (fun e => pc_packets e.2) (recent now h).
Proof.
  intros Hh. split; [apply Forall_map, Forall_window, Hh|]. rewrite lsum_map. by apply Hh.
Qed.

Lemma window_bytes now h bs :
  holds rb_bytes pc_bytes now h bs -> Forall (fun x => 0 <= x) (map rb_bytes (window now bs)) /\
  lsum id (map rb_bytes (window now bs)) = lsum (fun e => pc_bytes e.2) (recent now h).
Proof.
  intros Hh. split; [apply Forall_map, Forall_window, Hh|]. rewrite lsum_map. by apply Hh.
Qed.

Lemma holds_later fb fc at_ now h bs : holds fb fc at_ h bs -> at_ <= now -> holds fb fc now h bs.
Proof.
  intros [Hs Hn H0 Hsum] Hle. split; [done| |done|].
  - eapply Forall_impl; [exact Hn|]. cbn. lia.
  - intros later Hl. apply Hsum. lia.
Qed.

Lemma tells_later at_ now h s : tells at_ h s -> at_ <= now -> tells now h s.
Proof.
  intros [Hp Hb Hs] Hle. split; [by eapply holds_later..|].
  intros x Hx. apply Hs. unfold in_window, sat_sub in *. lia.
Qed.

(** The divisor of the rates. *)
Lemma window_span at_ h s :
  tells at_ h s -> Forall (fun e => e.1 <= at_) h ->
  match window at_ (buckets s) with
  | b :: _ => Z.max 1 (Z.min (sat_add (sat_sub at_ (rb_second b)) 1) RATE_WINDOW_SECS)
  | [] => 1
  end = span at_ (recent at_ h).
Proof.
  intros [[Hs Hn _ _] _ Hsec] Hh. rewrite Forall_forall in Hh.
  assert (forall e, e ∈ recent at_ h -> exists b, b ∈ window at_ (buckets s) /\ rb_second b = e.1) as Hcover.
  { intros e [Hw Hin]%list_elem_of_filter. assert (e.1 ∈ map fst h) as H1 by (apply list_elem_of_fmap; by exists e).
    apply Hsec in H1; [|done]. apply list_elem_of_fmap in H1 as (b & Hb & Hbin). exists b. split; [|done].
    apply list_elem_of_filter. by rewrite <- Hb. }
  pose proof (window_sorted at_ _ Hs) as Hsw. destruct (window at_ (buckets s)) as [|b bs] eqn:Hw.
  - destruct (recent at_ h) as [|e r]; [done|]. destruct (Hcover e (list_elem_of_here _ _)) as (b & Hb & _).
    by apply elem_of_nil in Hb.
  - assert (b ∈ window at_ (buckets s)) as Hin by (rewrite Hw; apply list_elem_of_here).
    apply list_elem_of_filter in Hin as [Hbw Hbin]. rewrite Forall_forall in Hn. specialize (Hn b Hbin).
    assert (rb_second b ∈ map fst h) as (e & He & Hein)%list_elem_of_fmap by (apply Hsec; [done|]; apply list_elem_of_fmap; by exists b).
    unfold in_window, RATE_WINDOW_SECS in *. unfold sat_sub, sat_add, u64_MAX in *.
    assert (at_ - rb_second b < 5) as Hlt by lia. symmetry.
    match goal with |- _ = ?x => replace x with (at_ - rb_second b + 1) by lia end. apply span_eq; [lia| |].
    + exists e. split; [apply list_elem_of_filter; split; [unfold in_window, sat_sub, RATE_WINDOW_SECS; lia|done]|lia].
    + intros e' He'. destruct (Hcover e' He') as (b' & Hb' & Hbe). rewrite <- Hbe.
      inversion Hsw as [|? ? _ Hall]; subst. apply elem_of_cons in Hb' as [->|Hb']; [lia|].
      rewrite Forall_forall in Hall. specialize (Hall b' Hb'). unfold rb_lt in Hall. lia.
Qed.

(** The rates of a source are its packets, and eight times its bytes, of the last
    five seconds, divided by the seconds since the oldest of them; its buckets are
    no more than five. *)
Theorem rates_cover_window lo h now created :
  forward lo h -> newest lo h <= now -> nonneg_history h ->
  lsum (fun e => pc_packets e.2) h <= u64_MAX -> lsum (fun e => pc_bytes e.2) h <= u64_MAX ->
  let r := rates now (merge_all h (SourceState_new created)) in
  let seconds := span now (recent now h) in
  r.1 = (f64_div (f64_of (lsum (fun e => pc_packets e.2) (recent now h))) (f64_of seconds),
         f64_div (f64_mul (f64_of (lsum (fun e => pc_bytes e.2) (recent now h))) (f64_of 8)) (f64_of seconds)) /\
  1 <= seconds <= 5 /\ (length (buckets r.2) <= 5)%nat.
Proof.
  intros Hf Hnow Hn Hp Hb. cbn zeta.
  pose proof (tells_later _ now _ _ (tells_all h lo [] _ (tells_new lo created) Hf Hn Hp Hb) Hnow) as Ht.
  destruct (forward_newest h lo Hf) as [_ Hle]. cbn [app] in Ht. set (s := merge_all h (SourceState_new created)) in *.
  pose proof (window_span now h s Ht) as Hspan. destruct Ht as [Hpk Hby Hsec].
  assert (trim_buckets now (buckets s) = window now (buckets s)) as Htrim by apply trim_window, Hpk.
  unfold rates. rewrite Htrim, Hspan by (eapply Forall_impl; [exact Hle|]; cbn; lia). cbn [fst snd buckets].
  assert (forall f : PendingCounters -> Z, Forall (fun e : Z * PendingCounters => 0 <= f e.2) h -> lsum (fun e => f e.2) (recent now h) <= lsum (fun e => f e.2) h) as Hrec.
  { intros f H0. by apply lsum_filter_le. }
  destruct (window_packets _ _ _ Hpk) as [Hp0 Hps]. destruct (window_bytes _ _ _ Hby) as [Hb0 Hbs].
  rewrite !sum_u64_spec, Hps, Hbs; [|done| |done|].
  2: { rewrite Hbs. etransitivity; [apply (Hrec pc_bytes)|done]. eapply Forall_impl; [exact Hn|]. by intros ? []. }
  2: { rewrite Hps. etransitivity; [apply (Hrec pc_packets)|done]. eapply Forall_impl; [exact Hn|]. by intros ? []. }
  split; [done|]. split; [|by apply window_short; apply Hpk].
  unfold span, recent. clear. induction h as [|e h IH]; [cbn; lia|]. rewrite filter_cons. case_decide as Hw; [|done].
  cbn [map foldr]. unfold in_window, sat_sub, RATE_WINDOW_SECS in Hw. lia.
Qed.

(** ** The snapshot *)

Abbreviation Row := (Ip * TopologySourceSnapshot)%type.

(** The rows of a snapshot: the sources that are not too old. *)
Definition kept (ttl now : Z) (m : gmap Ip SourceState) : gmap Ip SourceState :=
  filter (fun e => sat_sub now (last_observed e.2) <= ttl) m.

Definition rows_of `{HashOrder} (now now_second : Z) (t : TopologyTracker) : list Row :=
  map (fun e => (e.1, source_snapshot e.1 e.2 (rates now_second e.2).1)) (walk (kept (source_ttl t) now (sources (tt_state t)))).

Lemma add_rows_totals (f : Totals -> Z) (g : TopologySourceSnapshot -> Z) prefix :
  (forall a row, f (add_row prefix a row) = sat_add (f a) (g row.2)) ->
  forall rows a, Forall (fun row => 0 <= g row.2) rows -> f a + lsum (fun row => g row.2) rows <= u64_MAX ->
  f (fold_left (add_row prefix) rows a) = f a + lsum (fun row => g row.2) rows.
Proof.
  intros Hf rows. induction rows as [|row rows IH]; intros a H0 Hmax; cbn [fold_left lsum] in *; [lia|].
  apply Forall_cons in H0 as [Hrow H0]. pose proof (lsum_nonneg (fun row : Row => g row.2) rows H0).
  rewrite IH, Hf; [|done|]; rewrite ?Hf, sat_add_small by lia; lia.
Qed.

(** The groups after some rows: every group holds the rows of its network, in order. *)
Definition net_rows (prefix : Z) (rows : list Row) (net : Ip) : list TopologySourceSnapshot :=
  map snd (filter (fun row => network_for row.1 prefix = net) rows).

Definition group_holds (prefix : Z) (rows : list Row) (groups : gmap Ip TopologyGroupSnapshot) : Prop :=
  forall net, match groups !! net with
              | Some g => net_rows prefix rows net <> [] /\ gs_sources g = net_rows prefix rows net /\
                          gs_source_count g = length (gs_sources g) /\ gs_cidr g = cidr_of net prefix /\
                          gs_sources_truncated g = false
              | None => net_rows prefix rows net = []
              end.

Lemma add_row_holds prefix rows a row :
  group_holds prefix rows (tl_groups a) -> group_holds prefix (rows ++ [row]) (tl_groups (add_row prefix a row)).
Proof.
  intros Hg net. destruct row as [ip r]. cbn [add_row tl_groups]. specialize (Hg net).
  unfold net_rows in *. rewrite filter_app, map_app, filter_cons, filter_nil. cbn [fst].
  destruct (decide (network_for ip prefix = net)) as [->|Hne].
  - rewrite lookup_insert_eq. cbn [map snd add_to_group gs_sources gs_source_count gs_cidr gs_sources_truncated]. split; [by destruct (map _ _)|].
    destruct (tl_groups a !! net) as [g|] eqn:Eg; cbn [default empty_group gs_sources gs_source_count gs_cidr gs_sources_truncated] in *.
    + unfold id. destruct Hg as (_ & <- & -> & -> & ->). rewrite length_app. cbn [length]. split; [done|]. split; [lia|done].
    + by rewrite Hg.
  - rewrite lookup_insert_ne by done. cbn [map]. by rewrite app_nil_r.
Qed.

Lemma add_rows_hold prefix rows : forall done_rows a,
  group_holds prefix done_rows (tl_groups a) ->
  group_holds prefix (done_rows ++ rows) (tl_groups (fold_left (add_row prefix) rows a)).
Proof.
  induction rows as [|row rows IH]; intros ds a Hg; [by rewrite app_nil_r|].
  cbn [fold_left]. replace (ds ++ row :: rows) with ((ds ++ [row]) ++ rows) by (by rewrite <- app_assoc).
  by apply IH, add_row_holds.
Qed.

(** The rows of all the groups, network by network. *)
Definition grouped (m : gmap Ip TopologyGroupSnapshot) : list TopologySourceSnapshot :=
  flat_map (fun e => gs_sources e.2) (map_to_list m).

Lemma flat_map_perm {A B} (f : A -> list B) l k : l ≡ₚ k -> flat_map f l ≡ₚ flat_map f k.
Proof. intros H. by apply Permutation_flat_map. Qed.

Lemma grouped_insert net g m :
  grouped (<[net := g]> m) ≡ₚ gs_sources g ++ grouped (delete net m).
Proof.
  unfold grouped. rewrite <- (insert_delete_eq m net g), (flat_map_perm _ _ _ (map_to_list_insert (delete net m) net g (lookup_delete_eq _ _))).
  done.
Qed.

Lemma grouped_delete net g m : m !! net = Some g -> grouped m ≡ₚ gs_sources g ++ grouped (delete net m).
Proof. intros H. rewrite <- (insert_id m net g H) at 1. apply grouped_insert. Qed.

Lemma add_row_grouped prefix a row : grouped (tl_groups (add_row prefix a row)) ≡ₚ grouped (tl_groups a) ++ [row.2].
Proof.
  destruct row as [ip r]. cbn [add_row tl_groups snd]. set (net := network_for ip prefix).
  rewrite grouped_insert. cbn [add_to_group gs_sources]. destruct (tl_groups a !! net) as [g|] eqn:Eg.
  - change (default (empty_group (cidr_of net prefix)) (Some g)) with g. rewrite (grouped_delete _ _ _ Eg), <- !app_assoc.
    apply Permutation_app_head, Permutation_app_comm.
  - change (default (empty_group (cidr_of net prefix)) None) with (empty_group (cidr_of net prefix)). cbn.
    rewrite delete_id by done. by rewrite Permutation_cons_append.
Qed.

Lemma add_rows_grouped prefix rows : forall a,
  grouped (tl_groups (fold_left (add_row prefix) rows a)) ≡ₚ grouped (tl_groups a) ++ map snd rows.
Proof.
  induction rows as [|row rows IH]; intros a; cbn [fold_left map]; [by rewrite app_nil_r|].
  rewrite IH, add_row_grouped, <- app_assoc. done.
Qed.

(** The budget cuts the sources of the groups, in order. *)
Lemma take_groups_sources budget gs : flat_map gs_sources (take_groups budget gs) = take budget (flat_map gs_sources gs).
Proof.
  revert budget. induction gs as [|g gs IH]; intros budget; cbn [take_groups flat_map]; [by rewrite take_nil|].
  destruct (budget =? 0)%nat eqn:H0; [by apply Nat.eqb_eq in H0 as ->|].
  cbn [flat_map]. rewrite IH, take_app. destruct (budget <? length (gs_sources g))%nat eqn:Hlt.
  - apply Nat.ltb_lt in Hlt. cbn [with_sources gs_sources]. rewrite length_take. f_equal. f_equal. lia.
  - apply Nat.ltb_ge in Hlt. by rewrite (take_ge (gs_sources g)) by lia.
Qed.

Lemma take_groups_length budget gs : (length (take_groups budget gs) <= length gs)%nat.
Proof.
  revert budget. induction gs as [|g gs IH]; intros budget; cbn [take_groups]; [done|].
  destruct (budget =? 0)%nat; cbn [length]; [lia|]. apply le_n_S, IH.
Qed.

Lemma flat_map_length_sum gs : length (flat_map gs_sources gs) = returned_sources gs.
Proof. unfold returned_sources. induction gs as [|g gs IH]; cbn; [done|]. by rewrite length_app, IH. Qed.

(** A group returned is one of the groups, cut or not. *)
Definition cut_of (g g' : TopologyGroupSnapshot) : Prop :=
  g' = g \/ exists n, (n < length (gs_sources g))%nat /\ g' = with_sources true (take n (gs_sources g)) g.

Lemma take_groups_cut budget gs : exists k, Forall2 cut_of (take k gs) (take_groups budget gs).
Proof.
  revert budget. induction gs as [|g gs IH]; intros budget; cbn [take_groups]; [by exists 0%nat|].
  destruct (budget =? 0)%nat; [by exists 0%nat|].
  cbn zeta. set (g' := if (budget <? _)%nat then _ else g).
  destruct (IH (budget - length (gs_sources g'))%nat) as [k Hk]. exists (S k). constructor; [|done].
  subst g'. destruct (budget <? length (gs_sources g))%nat eqn:Hlt; [|by left]. apply Nat.ltb_lt in Hlt. right. by exists budget.
Qed.

(** What a group of a snapshot shows of its network. *)
Record shows (prefix : Z) (rows : list Row) (g : TopologyGroupSnapshot) : Prop := {
  sh_net : exists net, gs_cidr g = cidr_of net prefix /\ gs_source_count g = length (net_rows prefix rows net) /\
             exists rest, gs_sources g ++ rest ≡ₚ net_rows prefix rows net;
  sh_truncated : gs_sources_truncated g = (length (gs_sources g) <? gs_source_count g)%nat;
  sh_sorted : Sorted source_before (gs_sources g)
}.

Lemma Sorted_take {A} (R : A -> A -> Prop) n l : Sorted R l -> Sorted R (take n l).
Proof.
  intros H. revert n. induction H as [|a l _ IH Ha]; intros [|n]; cbn; [constructor..|]. constructor; [apply IH|].
  destruct Ha; destruct n; by constructor.
Qed.

Lemma Sorted_Forall2 {A} (R C : A -> A -> Prop) l k :
  (forall a b a' b', C a a' -> C b b' -> R a b -> R a' b') -> Sorted R l -> Forall2 C l k -> Sorted R k.
Proof.
  intros HRC Hl. revert k. induction Hl as [|a l _ IH Ha]; intros k Hk; inversion Hk as [|? a' ? k' Hc Hk' E1 E2]; subst; [constructor|].
  constructor; [by apply IH|]. destruct Hk'; constructor. inversion Ha; subst. by eapply HRC.
Qed.

Lemma cut_of_before a b a' b' : cut_of a a' -> cut_of b b' -> group_before a b -> group_before a' b'.
Proof. intros [->|(? & _ & ->)] [->|(? & _ & ->)]; done. Qed.

Lemma cut_of_shows prefix rows g g' :
  shows prefix rows g -> gs_sources_truncated g = false -> cut_of g g' -> shows prefix rows g'.
Proof.
  intros [Hnet Ht Hs] Hf [->|(n & Hn & ->)]; [by split|]. rewrite Hf in Ht. symmetry in Ht. apply Nat.ltb_ge in Ht.
  destruct Hnet as (net & Hc & Hcount & rest & Hperm). split; cbn [with_sources gs_cidr gs_source_count gs_sources gs_sources_truncated].
  - exists net. split; [done|]. split; [done|]. exists (drop n (gs_sources g) ++ rest). by rewrite app_assoc, take_drop.
  - symmetry. apply Nat.ltb_lt. rewrite Hcount, <- Hperm, length_take, length_app. lia.
  - by apply Sorted_take.
Qed.

Lemma flat_map_nonempty gs : Forall (fun g => gs_sources g <> []) gs -> (length gs <= length (flat_map gs_sources gs))%nat.
Proof.
  induction 1 as [|g gs Hg _ IH]; cbn; [done|]. rewrite length_app. destruct (gs_sources g); [done|]. cbn. lia.
Qed.

(** When a budget drops a group it drops a source. *)
Lemma take_groups_all budget gs :
  Forall (fun g => gs_sources g <> []) gs ->
  (length (flat_map gs_sources gs) <= length (flat_map gs_sources (take_groups budget gs)))%nat ->
  length (take_groups budget gs) = length gs.
Proof.
  intros Hne. revert budget. induction Hne as [|g gs Hg Hgs IH]; intros budget; [done|]. cbn [take_groups].
  destruct (budget =? 0)%nat eqn:H0.
  { cbn. rewrite length_app. destruct (gs_sources g); [done|]. cbn. lia. }
  cbn [flat_map length]. rewrite !length_app.
  destruct (budget <? length (gs_sources g))%nat eqn:Hlt; intros Hle; f_equal; [|apply IH; lia].
  exfalso. apply Nat.ltb_lt in Hlt. cbn [with_sources gs_sources] in Hle. revert Hle.
  rewrite take_groups_sources, !length_take. apply Nat.eqb_neq in H0. lia.
Qed.

(** The sources listed are the first of all of them. *)
Lemma cut_prefix budget n gs :
  exists rest, flat_map gs_sources gs = flat_map gs_sources (take_groups budget (take n gs)) ++ rest.
Proof.
  exists (drop budget (flat_map gs_sources (take n gs)) ++ flat_map gs_sources (drop n gs)).
  rewrite take_groups_sources, app_assoc, take_drop, <- flat_map_app. by rewrite take_drop.
Qed.

Lemma cut_listed budget n gs l :
  flat_map gs_sources gs ≡ₚ l -> exists rest, flat_map gs_sources (take_groups budget (take n gs)) ++ rest ≡ₚ l.
Proof. intros Hl. destruct (cut_prefix budget n gs) as [rest E]. exists rest. by rewrite <- E. Qed.

Lemma cut_same_length budget n gs :
  length (flat_map gs_sources (take_groups budget (take n gs))) = length (flat_map gs_sources gs) ->
  flat_map gs_sources (take_groups budget (take n gs)) = flat_map gs_sources gs.
Proof.
  destruct (cut_prefix budget n gs) as [rest ->]. rewrite length_app. destruct rest; cbn; [by rewrite app_nil_r|lia].
Qed.

Lemma cut_complete budget n gs (l : list TopologySourceSnapshot) :
  Forall (fun g => gs_sources g <> []) gs -> length (flat_map gs_sources gs) = length l ->
  (length (take_groups budget (take n gs)) <? length gs)%nat ||
  (returned_sources (take_groups budget (take n gs)) <? length l)%nat = false <->
  flat_map gs_sources (take_groups budget (take n gs)) = flat_map gs_sources gs.
Proof.
  intros Hne Hl. rewrite <- flat_map_length_sum, <- Hl, orb_false_iff, !Nat.ltb_ge. split.
  - intros [_ Hle]. apply cut_same_length. destruct (cut_prefix budget n gs) as [rest E]. rewrite E, length_app in *. lia.
  - intros E. rewrite E. split; [|done].
    assert (take n gs = gs) as Htake.
    { pose proof (Forall_drop _ n _ Hne) as Hd. apply flat_map_nonempty in Hd. apply (f_equal length) in E.
      rewrite take_groups_sources, length_take in E. rewrite <- (take_drop n gs) in E at 2. rewrite flat_map_app, length_app in E.
      apply take_ge. rewrite length_drop in Hd. lia. }
    rewrite Htake in *. rewrite take_groups_all; [done|done|]. by rewrite E.
Qed.

Section Snapshot.
Context `{HashOrder}.

(** The groups before they are cut. *)
Definition sorted_groups (prefix : Z) (rows : list Row) (a : Totals) : list TopologyGroupSnapshot :=
  merge_sort group_before
    (map (fun e => with_sources (gs_sources_truncated e.2) (merge_sort source_before (gs_sources e.2)) e.2)
         (walk (tl_groups (fold_left (add_row prefix) rows a)))).

Lemma sorted_groups_spec prefix rows a :
  tl_groups a = ∅ ->
  Forall (fun g => shows prefix rows g /\ gs_sources_truncated g = false /\ gs_sources g <> []) (sorted_groups prefix rows a) /\
  flat_map gs_sources (sorted_groups prefix rows a) ≡ₚ map snd rows.
Proof.
  intros Ha. unfold sorted_groups. set (m := tl_groups _). split.
  - apply Forall_forall. intros g Hg. rewrite merge_sort_Permutation in Hg.
    apply list_elem_of_fmap in Hg as ([net g0] & -> & Hin). rewrite walk_permutation in Hin. apply elem_of_map_to_list in Hin.
    assert (group_holds prefix rows m) as Hh.
    { apply (add_rows_hold prefix rows [] a). intros n. by rewrite Ha, lookup_empty. }
    specialize (Hh net). rewrite Hin in Hh. destruct Hh as (Hne & Hsrc & Hcount & Hcidr & Htr).
    cbn [snd]. split; [split; cbn [with_sources gs_cidr gs_source_count gs_sources gs_sources_truncated]|split; [done|]].
    + exists net. split; [done|]. split; [by rewrite Hcount, Hsrc|]. exists []. rewrite app_nil_r, merge_sort_Permutation. by rewrite Hsrc.
    + rewrite Htr, merge_sort_Permutation, Hcount. by rewrite Nat.ltb_irrefl.
    + apply Sorted_merge_sort. apply _.
    + cbn. rewrite <- Hsrc in Hne. intros E. apply Hne. apply Permutation_nil. by rewrite <- E, merge_sort_Permutation.
  - rewrite (flat_map_perm _ _ _ (merge_sort_Permutation _ _)).
    transitivity (grouped m).
    + unfold grouped. rewrite <- walk_permutation. generalize (walk m). intros l. induction l as [|e l IH]; cbn; [done|].
      by rewrite IH, merge_sort_Permutation.
    + unfold m. rewrite add_rows_grouped, Ha. unfold grouped. by rewrite map_to_list_empty.
Qed.

(** A snapshot returns at most 256 groups and 2048 sources, the groups and the
    sources of a group in the order of their rates; every group counts all the
    sources of its network and says whether it lists them all; and the view is not
    marked as truncated exactly when it lists every source the tracker keeps. *)
Theorem snapshot_view now now_second t :
  let r := (snapshot now now_second t).1 in
  let rows := rows_of now now_second t in
  let listed := flat_map gs_sources (ts_groups r) in
  (length (ts_groups r) <= MAX_SNAPSHOT_GROUPS)%nat /\ (length listed <= MAX_SNAPSHOT_SOURCES)%nat /\
  Sorted group_before (ts_groups r) /\ Forall (shows (group_prefix_v4 t) rows) (ts_groups r) /\
  (exists rest, listed ++ rest ≡ₚ map snd rows) /\
  (ts_view_truncated r = false <-> listed ≡ₚ map snd rows).
Proof.
  unfold snapshot. cbn zeta. fold (kept (source_ttl t) now (sources (tt_state t))). cbn [collect_garbage sources overflow].
  fold (kept (source_ttl t) now (sources (tt_state t))). fold (rows_of now now_second t).
  destruct (match _ with Some (r, _) => r | None => _ end) as [opps obps]. cbn [fst ts_groups ts_view_truncated].
  set (a := {| tl_groups := ∅; tl_packets := _ |}). set (rows := rows_of now now_second t).
  change (merge_sort group_before _) with (sorted_groups (group_prefix_v4 t) rows a). set (prefix := group_prefix_v4 t).
  destruct (sorted_groups_spec prefix rows a eq_refl) as [Hall Hperm]. set (groups := sorted_groups prefix rows a) in *.
  assert (length (map snd rows) = size (kept (source_ttl t) now (sources (tt_state t)))) as Hsize.
  { unfold rows, rows_of. by rewrite !length_map, walk_permutation, length_map_to_list. }
  rewrite <- Hsize. split; [etransitivity; [apply take_groups_length|apply firstn_le_length]|].
  split; [rewrite take_groups_sources; apply firstn_le_length|].
  destruct (take_groups_cut MAX_SNAPSHOT_SOURCES (take MAX_SNAPSHOT_GROUPS groups)) as [k Hk]. split; [|split; [|split]].
  - eapply Sorted_Forall2; [exact cut_of_before| |exact Hk]. apply Sorted_take, Sorted_take, Sorted_merge_sort. apply _.
  - pose proof (Forall_take _ k _ (Forall_take _ MAX_SNAPSHOT_GROUPS _ Hall)) as Hcut. clear Hall. rename Hcut into Hall.
    clear -Hk Hall. induction Hk as [|g g' l l' Hc _ IH]; [constructor|].
    apply Forall_cons in Hall as [(Hs & Ht & _) Hall]. constructor; [by eapply cut_of_shows|by apply IH].
  - by apply cut_listed.
  - rewrite cut_complete; [|eapply Forall_impl; [exact Hall|]; by intros ? (_ & _ & ?)|].
    + rewrite <- Hperm. split; [by intros ->|]. intros E. apply cut_same_length, Permutation_length, E.
    + by rewrite Hperm.
Qed.
End Snapshot.

(** ** Accounting *)

Section Accounting.
Context `{HashOrder}.

Lemma snapshot_total (f : SourceState -> Z) (g : TopologySourceSnapshot -> Z) (h : Totals -> Z) t0 now now_second prefix t a :
  (forall a row, h (add_row prefix a row) = sat_add (h a) (g row.2)) ->
  (forall ip s r, g (source_snapshot ip s r) = f s) ->
  h a = match overflow (tt_state t) with Some o => f o | None => 0 end ->
  nonneg_state f (tt_state t) -> seen_since t0 (tt_state t) -> 0 <= source_ttl t -> now <= t0 + source_ttl t ->
  tracked_by f (tt_state t) <= u64_MAX ->
  h (fold_left (add_row prefix) (rows_of now now_second t) a) = tracked_by f (tt_state t).
Proof.
  intros Hh Hg Ha Hn Hseen Httl Hnow Hmax.
  assert (lsum (fun row => g row.2) (rows_of now now_second t) = msum f (sources (tt_state t))) as Hsum.
  { unfold rows_of. rewrite lsum_map. unfold kept.
    change (filter _ (sources (tt_state t))) with (sources (collect_garbage (source_ttl t) now (tt_state t))).
    rewrite (collect_garbage_keeps _ _ t0) by done. rewrite (lsum_perm _ _ _ (walk_permutation _)). unfold msum.
    generalize (map_to_list (sources (tt_state t))). intros l. induction l as [|[ip s] l IH]; cbn [lsum fst snd]; [done|]. f_equal; [apply Hg|exact IH]. }
  unfold tracked_by in *. rewrite (add_rows_totals h g prefix Hh), Hsum, Ha; [lia| |rewrite Hsum, Ha; lia].
  apply Forall_forall. intros row Hrow. unfold rows_of in Hrow. apply list_elem_of_fmap in Hrow as ([ip s] & -> & Hin).
  rewrite walk_permutation in Hin. apply elem_of_map_to_list in Hin. unfold kept in Hin. apply map_lookup_filter_Some in Hin as [Hin _].
  cbn [snd]. rewrite Hg. destruct Hn as [Hs _]. by eapply Hs.
Qed.

Lemma snapshot_packets t0 now now_second t :
  nonneg_state packets_total (tt_state t) -> seen_since t0 (tt_state t) -> 0 <= source_ttl t -> now <= t0 + source_ttl t ->
  tracked_by packets_total (tt_state t) <= u64_MAX ->
  ts_packets_total (snapshot now now_second t).1 = tracked_by packets_total (tt_state t).
Proof.
  intros. unfold snapshot. cbn zeta. cbn [collect_garbage sources overflow].
  fold (kept (source_ttl t) now (sources (tt_state t))). fold (rows_of now now_second t).
  destruct (match _ with Some (r, _) => r | None => _ end) as [opps obps]. cbn [fst ts_packets_total].
  eapply (snapshot_total packets_total ss_packets_total tl_packets t0); [by intros ? []|done..].
Qed.

Lemma snapshot_bytes t0 now now_second t :
  nonneg_state bytes_total (tt_state t) -> seen_since t0 (tt_state t) -> 0 <= source_ttl t -> now <= t0 + source_ttl t ->
  tracked_by bytes_total (tt_state t) <= u64_MAX ->
  ts_bytes_total (snapshot now now_second t).1 = tracked_by bytes_total (tt_state t).
Proof.
  intros. unfold snapshot. cbn zeta. cbn [collect_garbage sources overflow].
  fold (kept (source_ttl t) now (sources (tt_state t))). fold (rows_of now now_second t).
  destruct (match _ with Some (r, _) => r | None => _ end) as [opps obps]. cbn [fst ts_bytes_total].
  eapply (snapshot_total bytes_total ss_bytes_total tl_bytes t0); [by intros ? []|done..].
Qed.

Lemma flush_observed (f : SourceState -> Z) (g : PendingCounters -> Z) (inc : Z -> Z) prefix ttl mx mac t0 obs k :
  adds f g -> counts g inc -> 0 <= ttl -> 0 <= mx ->
  let t := TopologyTracker_new prefix ttl mx in
  Forall (fun ob => in_time t0 t (ob_clocks ob) /\ 0 <= ob_wire_len ob) obs -> in_time t0 t k ->
  lsum (fun ob => inc (ob_wire_len ob)) obs <= u64_MAX ->
  let p := observe_all obs (local_observer mac t0, t) in
  let t' := (flush k p.1 p.2).2 in
  tracked_by f (tt_state t') = lsum (fun ob => inc (ob_wire_len ob)) obs /\ nonneg_state f (tt_state t') /\
  seen_since t0 (tt_state t') /\ source_ttl t' = ttl /\ Z.of_nat (size (sources (tt_state t'))) <= Z.max mx 1.
Proof.
  intros Hfg Hg Httl Hmx t Hobs Hk Hmax p t'.
  destruct (pair_ok_new f g t0 prefix ttl mx mac t0 Httl Hmx) as [Hok Hheld].
  destruct (observe_all_spec f g inc Hfg Hg t0 obs _ _ Hok Hobs) as (Hh & Hok1 & Httl1 & Hmx1); [by rewrite Hheld|].
  change (observe_all obs _) with p in Hh, Hok1, Httl1, Hmx1.
  destruct (flush_spec_topology f g Hfg t0 k p.1 p.2 Hok1) as (Hf & Hok2 & Hempty & Httl2 & Hmx2).
  { unfold in_time in *. by rewrite Httl1. }
  { rewrite Hh, Hheld. lia. }
  fold t' in Hf, Hok2, Httl2, Hmx2. unfold held at 1 in Hf. rewrite Hempty, msum_empty, Hh, Hheld in Hf.
  destruct Hok2 as [_ Hn Hsz Hseen _]. rewrite Httl2, Httl1.
  split; [lia|]. split; [done|]. split; [done|]. split; [done|]. rewrite Hmx2, Hmx1 in Hsz. exact Hsz.
Qed.

Lemma lsum_const {A} (l : list A) : lsum (fun _ => 1) l = Z.of_nat (length l).
Proof. induction l as [|a l IH]; cbn [lsum length]; [done|]. lia. Qed.

End Accounting.
