(* ===== verification/Throttle.v ===== *)
(** * Traffic enforcement ([src/src/topology.rs], [src/native/throttle.c],
      [src/native/throttle.bpf.c], the handlers of [src/src/api/mod.rs])

    Rules that drop a share of the packets of a source or a network: the rule book
    of the process, the table of the kernel it controls through the calls of
    [throttle.c], and the XDP program that reads that table for every packet.  The
    table itself belongs to the kernel: its calls are a class with their
    documented behaviour. *)

From stdpp Require Import sorting.
From S2P Require Import Prelude Model Text Ipv4 Topology.

Definition MAX_AUDIT_ENTRIES : nat := 512.
Definition MAX_THROTTLE_TTL_SECS : Z := 60 * 60.
Definition ENOENT : Z := 2.
Definition EINVAL : Z := 22.
Definition NANOS : Z := 1000000000.

(** ** The table of the kernel *)

Record throttle_value := {
  tv_drop_percent : Z;
  expires_at_ns : Z;
  seen_packets : Z;
  seen_bytes : Z;
  dropped_packets : Z;
  dropped_bytes : Z
}.

Abbreviation Rules := (gmap Ipv4Target throttle_value).

(** A key lies in an entry of a trie of prefixes. *)
Definition covers (t key : Ipv4Target) : Prop :=
  prefix t <= prefix key /\ network_for (network key) (prefix t) = network t.

#[export] Instance covers_dec t key : Decision (covers t key).
Proof. unfold covers. apply _. Defined.

(** The calls on the table: an error number or 0, and the world after.
    [trie_match] is the lookup of a key: the entry with the longest prefix. *)
Class BpfMap (W : Type) := {
  table : W -> Rules;
  bpf_map_update_elem : Ipv4Target -> throttle_value -> W -> Z * W;
  bpf_map_delete_elem : Ipv4Target -> W -> Z * W;
  trie_match : Ipv4Target -> W -> option Ipv4Target;
  write_through : Ipv4Target -> throttle_value -> W -> W
}.

(** What the kernel documents for a trie of prefixes: a failed call changes
    nothing, and a lookup finds the entry with the longest prefix. *)
Class BpfMapLaws (W : Type) {B : BpfMap W} := {
  update_ok t v w w' : target_ok t -> bpf_map_update_elem t v w = (0, w') -> table w' = <[t := v]> (table w);
  update_fails t v w e w' : e <> 0 -> bpf_map_update_elem t v w = (e, w') -> table w' = table w;
  delete_ok t w w' : target_ok t -> bpf_map_delete_elem t w = (0, w') -> table w' = delete t (table w);
  delete_fails t w e w' : e <> 0 -> bpf_map_delete_elem t w = (e, w') -> table w' = table w;
  delete_absent t w w' : target_ok t -> bpf_map_delete_elem t w = (ENOENT, w') -> table w !! t = None;
  delete_errno t w : 0 <= (bpf_map_delete_elem t w).1;
  update_errno t v w : 0 <= (bpf_map_update_elem t v w).1;
  match_some key w t : trie_match key w = Some t ->
    is_Some (table w !! t) /\ covers t key /\
    (forall t', is_Some (table w !! t') -> covers t' key -> prefix t' <= prefix t);
  match_none key w t : trie_match key w = None -> is_Some (table w !! t) -> ~ covers t key;
  write_table t v w : is_Some (table w !! t) -> table (write_through t v w) = <[t := v]> (table w)
}.

(** ** The rule book *)

Record ActiveRule := {
  ar_target : Ipv4Target;
  ar_drop_percent : Z;
  created_at : Z;
  expires_at : Z;
  expires_instant : Z
}.

Inductive AuditAction := AuditSet | AuditClear | AuditExpire.

Record ThrottleAuditEntry := {
  au_at : Z;
  au_action : AuditAction;
  au_target : list Z;
  au_drop_percent : Z;
  au_ttl_seconds : option Z
}.

Record RuleBook := { rules : gmap Ipv4Target ActiveRule; audit : list ThrottleAuditEntry }.

Record ThrottleManager := {
  tm_interface : option (list Z);
  tm_backend : bool;
  book : RuleBook
}.

(** [new]: the backend is opened only when enforcement is enabled. *)
Definition ThrottleManager_new (enabled : bool) (interface : list Z) (opened : Result unit) : Result ThrottleManager :=
  let interface := trim interface in
  if enabled && is_empty interface then Err
  else
    _ ← (if enabled then opened else Ok tt);
    Ok {| tm_interface := if enabled then Some interface else None; tm_backend := enabled;
          book := {| rules := ∅; audit := [] |} |}.

Definition available (m : ThrottleManager) : bool := tm_backend m.

Definition set_rules (r : gmap Ipv4Target ActiveRule) (m : ThrottleManager) : ThrottleManager :=
  {| tm_interface := tm_interface m; tm_backend := tm_backend m; book := {| rules := r; audit := audit (book m) |} |}.

Definition push_audit (l : list ThrottleAuditEntry) (e : ThrottleAuditEntry) : list ThrottleAuditEntry :=
  (if (MAX_AUDIT_ENTRIES <=? length l)%nat then tail l else l) ++ [e].

Definition add_audit (e : ThrottleAuditEntry) (m : ThrottleManager) : ThrottleManager :=
  {| tm_interface := tm_interface m; tm_backend := tm_backend m;
     book := {| rules := rules (book m); audit := push_audit (audit (book m)) e |} |}.

(** [Instant::checked_add] of whole seconds: the seconds of an instant are an [i64]. *)
Definition instant_checked_add (now seconds : Z) : option Z :=
  let sum := now + seconds * NANOS in
  if sum / NANOS <? 2 ^ 63 then Some sum else None.

Record RuleStats := { st_seen_packets : Z; st_seen_bytes : Z; st_dropped_packets : Z; st_dropped_bytes : Z }.

Definition no_stats : RuleStats :=
  {| st_seen_packets := 0; st_seen_bytes := 0; st_dropped_packets := 0; st_dropped_bytes := 0 |}.

Record ThrottleRuleSnapshot := {
  rs_target : list Z;
  rs_drop_percent : Z;
  rs_created_at : Z;
  rs_expires_at : option Z;
  rs_stats : RuleStats
}.

Record ThrottleSnapshot := {
  th_available : bool;
  th_interface : option (list Z);
  th_rules : list ThrottleRuleSnapshot;
  th_audit : list ThrottleAuditEntry
}.

(** By the text of the target. *)
Definition rule_before (a b : ThrottleRuleSnapshot) : Prop := text_le (rs_target a) (rs_target b) = true.

#[export] Instance rule_before_dec a b : Decision (rule_before a b).
Proof. unfold rule_before. apply _. Defined.

(** The readings of the clocks in one operation: the calendar, the two instants
    taken, the calendar of the audit entries, and the monotonic clock of
    [throttle.c]. *)
Record OpClocks := { oc_utc : Z; oc_instant : Z; oc_prune : Z; oc_audit : Z; oc_mono : Z }.

(** The answers of the handlers. *)
Inductive ApiResult (A : Type) :=
  | ApiOk (a : A)
  | BadRequest | ServiceUnavailable | InternalServerError.
Arguments ApiOk {A} a.
Arguments BadRequest {A}.
Arguments ServiceUnavailable {A}.
Arguments InternalServerError {A}.

Section Throttle.
Context {W : Type} {B : BpfMap W} `{HashOrder}.

(** [DateTime::checked_add_signed] of whole seconds. *)
Context (utc_checked_add : Z -> Z -> option Z).

(** *** [throttle.c] *)

(** The time of expiry, saturating. *)
Definition expiry_ns (now ttl_seconds : Z) : Z :=
  let delta := if u64_MAX / NANOS <? ttl_seconds then u64_MAX else ttl_seconds * NANOS in
  if u64_MAX - delta <? now then u64_MAX else now + delta.

Definition pm_throttle_set_rule (mono : Z) (t : Ipv4Target) (drop_percent ttl_seconds : Z) (w : W) : Z * W :=
  if (32 <? prefix t) || (drop_percent =? 0) || (100 <? drop_percent) || (ttl_seconds =? 0) then (- EINVAL, w)
  else
    let value := {| tv_drop_percent := drop_percent; expires_at_ns := expiry_ns mono ttl_seconds;
                    seen_packets := 0; seen_bytes := 0; dropped_packets := 0; dropped_bytes := 0 |} in
    let '(errno, w) := bpf_map_update_elem t value w in
    (- errno, w).

Definition pm_throttle_delete_rule (t : Ipv4Target) (w : W) : Z * W :=
  if 32 <? prefix t then (- EINVAL, w)
  else let '(errno, w) := bpf_map_delete_elem t w in (- errno, w).

Definition pm_throttle_get_rule_stats (t : Ipv4Target) (w : W) : Result RuleStats :=
  match trie_match t w ≫= (fun t' => table w !! t') with
  | Some v => Ok {| st_seen_packets := seen_packets v; st_seen_bytes := seen_bytes v;
                    st_dropped_packets := dropped_packets v; st_dropped_bytes := dropped_bytes v |}
  | None => Err
  end.

(** *** [XdpThrottleBackend] *)

Definition backend_set_rule (mono : Z) (t : Ipv4Target) (drop_percent ttl_seconds : Z) (w : W) : Result unit * W :=
  let '(rc, w) := pm_throttle_set_rule mono t drop_percent ttl_seconds w in
  (if rc <? 0 then Err else Ok tt, w).

Definition backend_delete_rule (t : Ipv4Target) (w : W) : Result unit * W :=
  let '(rc, w) := pm_throttle_delete_rule t w in
  (if (rc <? 0) && negb (rc =? - ENOENT) then Err else Ok tt, w).

(** *** [ThrottleManager] *)

Definition expire_entry (k : OpClocks) (t : Ipv4Target) : ThrottleAuditEntry :=
  {| au_at := oc_audit k; au_action := AuditExpire; au_target := canonical_target t; au_drop_percent := 0;
     au_ttl_seconds := None |}.

(** The deletions of [prune_expired_locked]: the targets whose rule is gone. *)
Fixpoint delete_expired (expired : list Ipv4Target) (w : W) : list Ipv4Target * W :=
  match expired with
  | [] => ([], w)
  | t :: expired =>
      let '(r, w) := backend_delete_rule t w in
      let '(removable, w) := delete_expired expired w in
      (match r with Ok _ => t :: removable | Err => removable end, w)
  end.

Definition remove_expired (k : OpClocks) (m : ThrottleManager) (t : Ipv4Target) : ThrottleManager :=
  match rules (book m) !! t with
  | Some _ => add_audit (expire_entry k t) (set_rules (delete t (rules (book m))) m)
  | None => m
  end.

Definition prune_expired_locked (k : OpClocks) (m : ThrottleManager) (w : W) : ThrottleManager * W :=
  let expired := map fst (filter (fun e => expires_instant e.2 <= oc_prune k) (walk (rules (book m)))) in
  if is_empty expired then (m, w)
  else
    let '(removable, w) := if tm_backend m then delete_expired expired w else (expired, w) in
    (fold_left (remove_expired k) removable m, w).

Definition rule_snapshot (m : ThrottleManager) (w : W) (rule : ActiveRule) : ThrottleRuleSnapshot :=
  let stats := if tm_backend m
               then match pm_throttle_get_rule_stats (ar_target rule) w with Ok s => s | Err => no_stats end
               else no_stats in
  {| rs_target := canonical_target (ar_target rule); rs_drop_percent := ar_drop_percent rule;
     rs_created_at := created_at rule; rs_expires_at := Some (expires_at rule); rs_stats := stats |}.

Definition set_entry (k : OpClocks) (t : Ipv4Target) (drop_percent ttl_seconds : Z) : ThrottleAuditEntry :=
  {| au_at := oc_utc k; au_action := AuditSet; au_target := canonical_target t; au_drop_percent := drop_percent;
     au_ttl_seconds := Some ttl_seconds |}.

(** What [set_rule] checks before it touches anything. *)
Definition checked_rule (k : OpClocks) (target : list Z) (drop_percent ttl_seconds : Z) (m : ThrottleManager)
  : Result ActiveRule :=
  if negb ((1 <=? drop_percent) && (drop_percent <=? 100)) then Err
  else if negb ((1 <=? ttl_seconds) && (ttl_seconds <=? MAX_THROTTLE_TTL_SECS)) then Err
  else if negb (tm_backend m) then Err
  else
    target ← Ipv4Target_parse target;
    expires_at ← of_option (utc_checked_add (oc_utc k) ttl_seconds);
    expires_instant ← of_option (instant_checked_add (oc_instant k) ttl_seconds);
    Ok {| ar_target := target; ar_drop_percent := drop_percent; created_at := oc_utc k; expires_at := expires_at;
          expires_instant := expires_instant |}.

Definition set_rule (k : OpClocks) (target : list Z) (drop_percent ttl_seconds : Z) (m : ThrottleManager) (w : W)
  : Result ThrottleRuleSnapshot * (ThrottleManager * W) :=
  match checked_rule k target drop_percent ttl_seconds m with
  | Err => (Err, (m, w))
  | Ok rule =>
      let target := ar_target rule in
      let '(m, w) := prune_expired_locked k m w in
      let '(r, w) := backend_set_rule (oc_mono k) target drop_percent ttl_seconds w in
      match r with
      | Err => (Err, (m, w))
      | Ok _ =>
          let m := add_audit (set_entry k target drop_percent ttl_seconds) (set_rules (<[target := rule]> (rules (book m))) m) in
          (Ok (rule_snapshot m w rule), (m, w))
      end
  end.

Definition clear_rule (k : OpClocks) (target : list Z) (m : ThrottleManager) (w : W)
  : Result bool * (ThrottleManager * W) :=
  if negb (tm_backend m) then (Err, (m, w))
  else
    match Ipv4Target_parse target with
    | Err => (Err, (m, w))
    | Ok target =>
        let '(r, w) := backend_delete_rule target w in
        match r with
        | Err => (Err, (m, w))
        | Ok _ =>
            let removed := bool_decide (is_Some (rules (book m) !! target)) in
            let entry := {| au_at := oc_audit k; au_action := AuditClear; au_target := canonical_target target;
                            au_drop_percent := 0; au_ttl_seconds := None |} in
            (Ok removed, (add_audit entry (set_rules (delete target (rules (book m))) m), w))
        end
    end.

Definition throttle_snapshot (k : OpClocks) (m : ThrottleManager) (w : W) : ThrottleSnapshot * (ThrottleManager * W) :=
  let '(m, w) := prune_expired_locked k m w in
  ({| th_available := available m; th_interface := tm_interface m;
      th_rules := merge_sort rule_before (map (rule_snapshot m w) (map snd (walk (rules (book m)))));
      th_audit := take 32 (rev (audit (book m))) |}, (m, w)).

(** *** The handlers of the API *)

Definition DEFAULT_THROTTLE_TTL_SECS : Z := 300.

(** The clocks of the operation and of the snapshot that follows it. *)
Definition set_topology_throttle (k k' : OpClocks) (tt : TopologyTracker) (target : list Z) (drop_percent : Z)
    (ttl_seconds : option Z) (m : ThrottleManager) (w : W)
  : ApiResult (ThrottleRuleSnapshot * ThrottleSnapshot) * (ThrottleManager * W) :=
  if negb (available m) then (ServiceUnavailable, (m, w))
  else if negb ((1 <=? drop_percent) && (drop_percent <=? 100)) then (BadRequest, (m, w))
  else
    match canonical_throttle_target tt target with
    | Err => (BadRequest, (m, w))
    | Ok target =>
        let ttl_seconds := default DEFAULT_THROTTLE_TTL_SECS ttl_seconds in
        if (ttl_seconds =? 0) || (MAX_THROTTLE_TTL_SECS <? ttl_seconds) then (BadRequest, (m, w))
        else
          match set_rule k target drop_percent ttl_seconds m w with
          | (Err, s) => (InternalServerError, s)
          | (Ok rule, (m, w)) => let '(snapshot, s) := throttle_snapshot k' m w in (ApiOk (rule, snapshot), s)
          end
    end.

Definition clear_topology_throttle (k k' : OpClocks) (tt : TopologyTracker) (target : list Z)
    (m : ThrottleManager) (w : W) : ApiResult (bool * ThrottleSnapshot) * (ThrottleManager * W) :=
  if negb (available m) then (ServiceUnavailable, (m, w))
  else
    match canonical_throttle_target tt target with
    | Err => (BadRequest, (m, w))
    | Ok target =>
        match clear_rule k target m w with
        | (Err, s) => (InternalServerError, s)
        | (Ok removed, (m, w)) => let '(snapshot, s) := throttle_snapshot k' m w in (ApiOk (removed, snapshot), s)
        end
    end.

(** *** The XDP program *)

Inductive Verdict := XDP_PASS | XDP_DROP.

Definition xdp_is_vlan (proto : Z) : bool := (proto =? 0x8100) || (proto =? 0x88A8).

Definition read_be16 (p : bytes) (i : Z) : option Z :=
  a ← index p i; b ← index p (i + 1); Some (Z.lor (Z.shiftl (byte_val a) 8) (byte_val b)).

(** One VLAN tag, if there is one. *)
Definition skip_vlan (data : bytes) (po : Z * Z) : option (Z * Z) :=
  let '(proto, offset) := po in
  if xdp_is_vlan proto
  then (if blen data <? offset + 4 then None else proto ← read_be16 data (offset + 2); Some (proto, offset + 4))
  else Some (proto, offset).

(** The source of an IPv4 frame; [None] passes. *)
Definition ipv4_source (data : bytes) : option Z :=
  if blen data <? 14 then None
  else
    proto ← read_be16 data 12;
    po ← skip_vlan data (proto, 14);
    '(proto, offset) ← skip_vlan data po;
    if negb (proto =? 0x0800) then None
    else if blen data <? offset + 20 then None
    else
      version_ihl ← index data offset;
      if negb (Z.shiftr (byte_val version_ihl) 4 =? 4) || (Z.land (byte_val version_ihl) 15 <? 5) then None
      else
        a ← index data (offset + 12); b ← index data (offset + 13);
        c ← index data (offset + 14); d ← index data (offset + 15);
        Some (from_octets (byte_val a) (byte_val b) (byte_val c) (byte_val d)).

Definition saw (wire_len : Z) (v : throttle_value) : throttle_value :=
  {| tv_drop_percent := tv_drop_percent v; expires_at_ns := expires_at_ns v;
     seen_packets := wrapping_add 64 (seen_packets v) 1; seen_bytes := wrapping_add 64 (seen_bytes v) wire_len;
     dropped_packets := dropped_packets v; dropped_bytes := dropped_bytes v |}.

Definition dropped (wire_len : Z) (v : throttle_value) : throttle_value :=
  {| tv_drop_percent := tv_drop_percent v; expires_at_ns := expires_at_ns v;
     seen_packets := seen_packets v; seen_bytes := seen_bytes v;
     dropped_packets := wrapping_add 64 (dropped_packets v) 1; dropped_bytes := wrapping_add 64 (dropped_bytes v) wire_len |}.

(** The lot of a packet: [sample] is a random 32-bit number. *)
Definition draws_drop (percent sample : Z) : bool :=
  if 100 <=? percent then true else sample <? Z.shiftl percent 32 / 100.

(** The program: [now] is read only for a rule that expires. *)
Definition bazalt_throttle (data : bytes) (now sample : Z) (w : W) : Verdict * W :=
  match ipv4_source data with
  | None => (XDP_PASS, w)
  | Some ip =>
      match trie_match {| network := ip; prefix := 32 |} w ≫= (fun t => pair t <$> table w !! t) with
      | None => (XDP_PASS, w)
      | Some (t, rule) =>
          if tv_drop_percent rule =? 0 then (XDP_PASS, w)
          else if negb (expires_at_ns rule =? 0) && (expires_at_ns rule <=? now) then (XDP_PASS, w)
          else
            let rule := saw (blen data) rule in
            if draws_drop (tv_drop_percent rule) sample
            then (XDP_DROP, write_through t (dropped (blen data) rule) w)
            else (XDP_PASS, write_through t rule w)
      end
  end.
End Throttle.
