(* ===== verification/ThrottleTheorems.v ===== *)
(** * What enforcement promises

    The rule book and the table of the kernel hold the same rules at the end of
    every operation; a reachability relation of operations and packets; the
    verdict of the XDP program said in terms of the rule book. *)

From stdpp Require Import sorting.
From S2P Require Import Prelude Model Text Ipv4 Topology TopologySpec TopologyTheorems Throttle.

Section Spec.
Context {W : Type} {B : BpfMap W} {L : BpfMapLaws W} {HO : HashOrder}.
Context (utc_checked_add : Z -> Z -> option Z).

(** ** The invariant *)

(** A rule of the book and its value in the kernel. *)
Record rule_agrees (t : Ipv4Target) (r : ActiveRule) (v : throttle_value) : Prop := {
  ra_target : ar_target r = t;
  ra_ok : target_ok t;
  ra_percent : tv_drop_percent v = ar_drop_percent r;
  ra_range : 1 <= ar_drop_percent r <= 100;
  ra_expiry : 0 < expires_at_ns v /\ expires_instant r <= expires_at_ns v
}.

Record consistent (m : ThrottleManager) (w : W) : Prop := {
  cs_same t : is_Some (rules (book m) !! t) <-> is_Some (table w !! t);
  cs_agrees t r v : rules (book m) !! t = Some r -> table w !! t = Some v -> rule_agrees t r v;
  cs_audit : (length (audit (book m)) <= MAX_AUDIT_ENTRIES)%nat;
  cs_backend : tm_backend m = false -> rules (book m) = ∅
}.

Lemma cs_target_ok m w t r : consistent m w -> rules (book m) !! t = Some r -> target_ok t.
Proof.
  intros Hc Hr. destruct (proj1 (cs_same _ _ Hc t)) as [v Hv]; [by eexists|]. by destruct (cs_agrees _ _ Hc t r v Hr Hv).
Qed.

(** The targets [gone] left the book and the kernel, and nothing else changed. *)
Record removed (gone : list Ipv4Target) (m : ThrottleManager) (w : W) (m' : ThrottleManager) (w' : W) : Prop := {
  rm_rules t : rules (book m') !! t = if decide (t ∈ gone) then None else rules (book m) !! t;
  rm_table t : table w' !! t = if decide (t ∈ gone) then None else table w !! t;
  rm_backend : tm_backend m' = tm_backend m;
  rm_audit : (length (audit (book m')) <= MAX_AUDIT_ENTRIES)%nat
}.

Lemma removed_consistent gone m w m' w' : removed gone m w m' w' -> consistent m w -> consistent m' w'.
Proof.
  intros [Hr Ht Hb Ha] [Hs Hg _ He]. split; [| |done|].
  - intros t. rewrite Hr, Ht. case_decide; [|done]. by split; intros [? ?].
  - intros t r v. rewrite Hr, Ht. case_decide; [done|apply Hg].
  - rewrite Hb. intros H0. apply map_eq. intros t. rewrite Hr, (He H0), lookup_empty. by case_decide.
Qed.

(** ** The audit *)

Lemma push_audit_bound l e : (length l <= MAX_AUDIT_ENTRIES)%nat -> (length (push_audit l e) <= MAX_AUDIT_ENTRIES)%nat.
Proof.
  unfold push_audit. rewrite length_app. destruct (MAX_AUDIT_ENTRIES <=? length l)%nat eqn:Hl.
  - apply Nat.leb_le in Hl. assert (1 <= MAX_AUDIT_ENTRIES)%nat by (unfold MAX_AUDIT_ENTRIES; lia). destruct l; cbn [tail length] in *; lia.
  - apply Nat.leb_gt in Hl. cbn [length]. lia.
Qed.

(** ** The kernel's side *)

Lemma backend_delete_spec t w r w' :
  target_ok t -> backend_delete_rule t w = (r, w') ->
  match r with Ok _ => table w' = delete t (table w) | Err => table w' = table w end.
Proof.
  intros Ht. unfold backend_delete_rule, pm_throttle_delete_rule. pose proof Ht as ([_ Hp] & _).
  rewrite (proj2 (Z.ltb_ge _ _) Hp). pose proof (delete_errno t w) as He.
  destruct (bpf_map_delete_elem t w) as [errno w1] eqn:Hd. cbn [fst] in He. intros [= <- <-].
  destruct ((- errno <? 0) && negb (- errno =? - ENOENT)) eqn:Hf.
  - apply andb_true_iff in Hf as [Hneg _]. reflect_bools. eapply delete_fails; [|exact Hd]. lia.
  - apply andb_false_iff in Hf as [Hf|Hf]; reflect_bools.
    + assert (errno = 0) as -> by lia. by eapply delete_ok.
    + assert (errno = ENOENT) as -> by lia. rewrite delete_id by (by eapply delete_absent).
      eapply delete_fails; [|exact Hd]. done.
Qed.

Lemma delete_expired_spec expired : forall w,
  Forall target_ok expired ->
  let '(removable, w') := delete_expired expired w in
  (forall t, t ∈ removable -> t ∈ expired) /\
  (forall t, table w' !! t = if decide (t ∈ removable) then None else table w !! t).
Proof.
  induction expired as [|t0 expired IH]; intros w Hok; cbn [delete_expired]; [done|].
  apply Forall_cons in Hok as [Ht0 Hok]. destruct (backend_delete_rule t0 w) as [r w1] eqn:Hd.
  pose proof (backend_delete_spec _ _ _ _ Ht0 Hd) as Hw1. specialize (IH w1 Hok).
  destruct (delete_expired expired w1) as [removable w'] eqn:Hrest. destruct IH as [Hsub Hw'].
  destruct r as [[]|].
  - split.
    + intros t [->|H]%elem_of_cons; [apply list_elem_of_here|by apply list_elem_of_further, Hsub].
    + intros t. rewrite Hw', Hw1. destruct (decide (t = t0)) as [->|Hne].
      * rewrite lookup_delete_eq, (decide_True _ _ (list_elem_of_here _ _)). by case_decide.
      * rewrite lookup_delete_ne by done. apply decide_ext. rewrite elem_of_cons. naive_solver.
  - split; [intros t H; by apply list_elem_of_further, Hsub|]. intros t. by rewrite Hw', Hw1.
Qed.

Lemma remove_all_spec k gone : forall m,
  (length (audit (book m)) <= MAX_AUDIT_ENTRIES)%nat ->
  let m' := fold_left (remove_expired k) gone m in
  (forall t, rules (book m') !! t = if decide (t ∈ gone) then None else rules (book m) !! t) /\
  tm_backend m' = tm_backend m /\ (length (audit (book m')) <= MAX_AUDIT_ENTRIES)%nat.
Proof.
  induction gone as [|t0 gone IH]; intros m Ha; cbn [fold_left]; [done|].
  assert ((forall t, rules (book (remove_expired k m t0)) !! t = if decide (t = t0) then None else rules (book m) !! t) /\
          tm_backend (remove_expired k m t0) = tm_backend m /\
          (length (audit (book (remove_expired k m t0))) <= MAX_AUDIT_ENTRIES)%nat) as (Hr & Hb & Ha').
  { unfold remove_expired. destruct (rules (book m) !! t0) eqn:H0.
    - split; [|split; [done|by apply push_audit_bound]]. intros t. cbn. case_decide; [subst; apply lookup_delete_eq|].
      by rewrite lookup_delete_ne.
    - split; [|done]. intros t. case_decide; [by subst|done]. }
  destruct (IH _ Ha') as (Hr' & Hb' & Ha''). split; [|by rewrite Hb', Hb]. intros t. rewrite Hr', Hr.
  destruct (decide (t = t0)) as [->|Hne].
  - rewrite (decide_True _ _ (list_elem_of_here _ _)). by case_decide.
  - apply decide_ext. rewrite elem_of_cons. naive_solver.
Qed.

(** ** Pruning *)

Definition expired_in (k : OpClocks) (m : ThrottleManager) (t : Ipv4Target) : Prop :=
  exists r, rules (book m) !! t = Some r /\ expires_instant r <= oc_prune k.

Lemma prune_spec k m w :
  consistent m w ->
  let '(m', w') := prune_expired_locked k m w in
  exists gone, Forall (expired_in k m) gone /\ removed gone m w m' w'.
Proof.
  intros Hc. unfold prune_expired_locked. set (expired := map fst _).
  assert (Forall (expired_in k m) expired) as He.
  { apply Forall_forall. intros t Hin. apply list_elem_of_fmap in Hin as ([t' r] & -> & Hin).
    apply list_elem_of_filter in Hin as [Hx Hin]. rewrite walk_permutation in Hin. apply elem_of_map_to_list in Hin. by exists r. }
  assert (forall m', removed [] m w m' w -> exists gone, Forall (expired_in k m) gone /\ removed gone m w m' w) as Hnone.
  { intros m' Hm'. exists []. split; [constructor|done]. }
  destruct (is_empty expired) eqn:Hemp.
  { apply Hnone. split; [done|done|done|apply Hc]. }
  destruct (tm_backend m) eqn:Hb.
  - pose proof (delete_expired_spec expired w) as Hd. destruct (delete_expired expired w) as [gone w'].
    destruct Hd as [Hsub Hw'].
    { eapply Forall_impl; [exact He|]. intros t (r & Hr & _). by eapply cs_target_ok. }
    destruct (remove_all_spec k gone m (cs_audit _ _ Hc)) as (Hr & Hb' & Ha). exists gone. split; [|by split].
    apply Forall_forall. intros t Ht. rewrite Forall_forall in He. by apply He, Hsub.
  - exfalso. subst expired. rewrite (cs_backend _ _ Hc Hb) in Hemp, He.
    assert (walk (∅ : gmap Ipv4Target ActiveRule) = []) as Hw.
    { apply Permutation_nil. by rewrite walk_permutation, map_to_list_empty. }
    by rewrite Hw in Hemp.
Qed.

(** ** Operations *)

(** Clocks that do not run backwards within an operation, far from overflow. *)
Definition clocks_ok (k : OpClocks) : Prop :=
  0 <= oc_instant k <= oc_mono k /\ oc_mono k + MAX_THROTTLE_TTL_SECS * NANOS <= u64_MAX.

Lemma checked_rule_spec k target d ttl m r :
  checked_rule utc_checked_add k target d ttl m = Ok r ->
  1 <= d <= 100 /\ 1 <= ttl <= MAX_THROTTLE_TTL_SECS /\ tm_backend m = true /\
  Ipv4Target_parse target = Ok (ar_target r) /\ ar_drop_percent r = d /\ created_at r = oc_utc k /\
  utc_checked_add (oc_utc k) ttl = Some (expires_at r) /\ expires_instant r = oc_instant k + ttl * NANOS.
Proof.
  unfold checked_rule. destruct ((1 <=? d) && (d <=? 100)) eqn:Hd; cbn [negb]; [|done].
  destruct ((1 <=? ttl) && (ttl <=? MAX_THROTTLE_TTL_SECS)) eqn:Htl; cbn [negb]; [|done].
  destruct (tm_backend m); cbn [negb]; [|done].
  destruct (Ipv4Target_parse target) as [t|]; cbn [mbind Result_bind]; [|done].
  destruct (utc_checked_add (oc_utc k) ttl) as [ex|]; cbn [of_option mbind Result_bind]; [|done].
  unfold instant_checked_add. destruct (_ <? 2 ^ 63); cbn [of_option mbind Result_bind]; [|done].
  intros [= <-]. cbn [ar_target ar_drop_percent created_at expires_at expires_instant].
  apply andb_true_iff in Hd as [Hd1 Hd2], Htl as [Ht1 Ht2]. reflect_bools. done.
Qed.

(** The value the kernel gets for a rule. *)
Definition fresh_value (k : OpClocks) (d ttl : Z) : throttle_value :=
  {| tv_drop_percent := d; expires_at_ns := oc_mono k + ttl * NANOS;
     seen_packets := 0; seen_bytes := 0; dropped_packets := 0; dropped_bytes := 0 |}.

Lemma backend_set_spec k t d ttl w r w' :
  target_ok t -> clocks_ok k -> 1 <= d <= 100 -> 1 <= ttl <= MAX_THROTTLE_TTL_SECS ->
  backend_set_rule (oc_mono k) t d ttl w = (r, w') ->
  match r with Ok _ => table w' = <[t := fresh_value k d ttl]> (table w) | Err => table w' = table w end.
Proof.
  intros Ht [Hk1 Hk2] Hd Hl. unfold backend_set_rule, pm_throttle_set_rule. pose proof Ht as ([_ Hp] & _).
  rewrite (proj2 (Z.ltb_ge _ _) Hp), (proj2 (Z.eqb_neq d 0)), (proj2 (Z.ltb_ge 100 d)), (proj2 (Z.eqb_neq ttl 0)) by lia.
  cbn [orb].
  assert (expiry_ns (oc_mono k) ttl = oc_mono k + ttl * NANOS) as ->.
  { unfold expiry_ns, MAX_THROTTLE_TTL_SECS, NANOS, u64_MAX in *.
    rewrite (proj2 (Z.ltb_ge ((2 ^ 64 - 1) / 1000000000) ttl)).
    - rewrite (proj2 (Z.ltb_ge _ _)); [done|lia].
    - change ((2 ^ 64 - 1) / 1000000000) with 18446744073. lia. }
  fold (fresh_value k d ttl). pose proof (update_errno t (fresh_value k d ttl) w) as He.
  destruct (bpf_map_update_elem t (fresh_value k d ttl) w) as [errno w1] eqn:Hu. cbn [fst] in He. intros [= <- <-].
  destruct (- errno <? 0) eqn:Hneg; reflect_bools.
  - eapply update_fails; [|exact Hu]. lia.
  - assert (errno = 0) as -> by lia. by eapply update_ok.
Qed.

(** A rule put into both. *)
Lemma add_rule_consistent m w k rule d ttl m' w' :
  consistent m w -> clocks_ok k -> target_ok (ar_target rule) -> 1 <= d <= 100 -> 1 <= ttl ->
  ar_drop_percent rule = d -> expires_instant rule = oc_instant k + ttl * NANOS ->
  rules (book m') = <[ar_target rule := rule]> (rules (book m)) ->
  table w' = <[ar_target rule := fresh_value k d ttl]> (table w) ->
  (length (audit (book m')) <= MAX_AUDIT_ENTRIES)%nat -> tm_backend m' = true -> consistent m' w'.
Proof.
  intros [Hs Hg _ _] [Hk _] Ht Hd Hl Hrd Hre Hm Hw Ha Hb. split; [| |done|by rewrite Hb].
  - intros t. rewrite Hm, Hw. destruct (decide (t = ar_target rule)) as [->|Hne]; [rewrite !lookup_insert_eq; by split; eexists|].
    by rewrite !lookup_insert_ne.
  - intros t r v. rewrite Hm, Hw. destruct (decide (t = ar_target rule)) as [->|Hne].
    + rewrite !lookup_insert_eq. intros [= <-] [= <-]. split; [done|done|by rewrite Hrd|by rewrite Hrd|].
      cbn [fresh_value expires_at_ns]. rewrite Hre. unfold NANOS. lia.
    + rewrite !lookup_insert_ne by done. apply Hg.
Qed.

(** What [set_rule] does: nothing but pruning when it fails, and the new rule on
    both sides when it succeeds. *)
Lemma set_rule_spec k target d ttl m w :
  consistent m w -> clocks_ok k ->
  let '(r, (m', w')) := set_rule utc_checked_add k target d ttl m w in
  consistent m' w' /\
  exists gone m1 w1, Forall (expired_in k m) gone /\ removed gone m w m1 w1 /\
    match r with
    | Err => rules (book m') = rules (book m1) /\ table w' = table w1
    | Ok s => exists rule, checked_rule utc_checked_add k target d ttl m = Ok rule /\
                rules (book m') = <[ar_target rule := rule]> (rules (book m1)) /\
                table w' = <[ar_target rule := fresh_value k d ttl]> (table w1) /\
                s = rule_snapshot m' w' rule
    end.
Proof.
  intros Hc Hk. unfold set_rule.
  assert (removed [] m w m w) as Hid by (split; [done|done|done|apply Hc]).
  destruct (checked_rule utc_checked_add k target d ttl m) as [rule|] eqn:Hck.
  2:{ split; [done|]. exists [], m, w. split; [constructor|]. done. }
  apply checked_rule_spec in Hck as Hs. destruct Hs as (Hd & Hl & Hb & Hp & Hrd & _ & _ & Hre).
  apply parse_target_ok in Hp. pose proof (prune_spec k m w Hc) as Hpr.
  destruct (prune_expired_locked k m w) as [m1 w1]. destruct Hpr as (gone & Hgone & Hrm).
  pose proof (removed_consistent _ _ _ _ _ Hrm Hc) as Hc1.
  destruct (backend_set_rule (oc_mono k) (ar_target rule) d ttl w1) as [r w2] eqn:Hset.
  apply backend_set_spec in Hset; [|done..]. destruct r as [[]|].
  - split; [|exists gone, m1, w1; split; [done|]; split; [done|]; by exists rule].
    eapply (add_rule_consistent m1 w1 k rule d ttl); [done|done|done|done|lia|done|done|done|done| |].
    + apply push_audit_bound. apply Hc1.
    + cbn. by rewrite (rm_backend _ _ _ _ _ Hrm).
  - split; [|exists gone, m1, w1; by rewrite Hset]. destruct Hc1 as [H1 H2 H3 H4]. split; [by rewrite Hset|by rewrite Hset|done|done].
Qed.

Lemma clear_rule_spec k target m w :
  consistent m w ->
  let '(r, (m', w')) := clear_rule k target m w in
  consistent m' w' /\
  match r with
  | Err => rules (book m') = rules (book m) /\ table w' = table w
  | Ok was => exists t, Ipv4Target_parse target = Ok t /\ removed [t] m w m' w' /\
                was = bool_decide (is_Some (rules (book m) !! t))
  end.
Proof.
  intros Hc. unfold clear_rule. destruct (tm_backend m) eqn:Hb; cbn [negb]; [|done].
  destruct (Ipv4Target_parse target) as [t|] eqn:Hp; [|done]. apply parse_target_ok in Hp as Ht.
  destruct (backend_delete_rule t w) as [r w1] eqn:Hd. apply backend_delete_spec in Hd; [|done]. destruct r as [[]|].
  - cbn zeta. set (m1 := add_audit _ _).
    assert (removed [t] m w m1 w1) as Hrm.
    { split; [| |done|apply push_audit_bound, Hc].
      - intros t'. cbn. destruct (decide (t' = t)) as [->|Hne].
        + by rewrite lookup_delete_eq, decide_True by (by apply list_elem_of_singleton).
        + by rewrite lookup_delete_ne, decide_False by (done || by rewrite list_elem_of_singleton).
      - intros t'. rewrite Hd. destruct (decide (t' = t)) as [->|Hne].
        + by rewrite lookup_delete_eq, decide_True by (by apply list_elem_of_singleton).
        + by rewrite lookup_delete_ne, decide_False by (done || by rewrite list_elem_of_singleton). }
    split; [by eapply removed_consistent|]. by exists t.
  - split; [|by rewrite Hd]. destruct Hc as [H1 H2 H3 H4]. split; [by rewrite Hd|by rewrite Hd|done|done].
Qed.

(** ** Packets *)

(** The rule of a source: the one with the longest prefix among those that cover it. *)
Definition rule_of (rs : gmap Ipv4Target ActiveRule) (ip : Z) (t : Ipv4Target) : Prop :=
  is_Some (rs !! t) /\ covers t {| network := ip; prefix := 32 |} /\
  forall t', is_Some (rs !! t') -> covers t' {| network := ip; prefix := 32 |} -> prefix t' <= prefix t.

Definition no_rule (rs : gmap Ipv4Target ActiveRule) (ip : Z) : Prop :=
  forall t, is_Some (rs !! t) -> ~ covers t {| network := ip; prefix := 32 |}.

(** Two targets of one length that cover an address are one. *)
Lemma covers_unique t t' key : covers t key -> covers t' key -> prefix t = prefix t' -> t = t'.
Proof.
  intros [_ H] [_ H'] Hp. rewrite Hp in H. destruct t, t'; cbn in *; congruence.
Qed.

Lemma rule_of_unique rs ip t t' : rule_of rs ip t -> rule_of rs ip t' -> t = t'.
Proof.
  intros (Hs & Hc & Hm) (Hs' & Hc' & Hm'). apply (covers_unique _ _ _ Hc Hc').
  specialize (Hm _ Hs' Hc'). specialize (Hm' _ Hs Hc). lia.
Qed.

Lemma match_rule_of m w ip :
  consistent m w ->
  match trie_match {| network := ip; prefix := 32 |} w with
  | Some t => rule_of (rules (book m)) ip t /\ is_Some (table w !! t)
  | None => no_rule (rules (book m)) ip
  end.
Proof.
  intros Hc. destruct (trie_match _ w) as [t|] eqn:Hm.
  - apply match_some in Hm as (Ht & Hcov & Hmax). split; [|done]. split; [by apply (cs_same _ _ Hc)|]. split; [done|].
    intros t' Ht'%(cs_same _ _ Hc). by apply Hmax.
  - intros t Ht%(cs_same _ _ Hc). by eapply match_none.
Qed.

Lemma consistent_write m w t v v' :
  consistent m w -> table w !! t = Some v -> tv_drop_percent v' = tv_drop_percent v -> expires_at_ns v' = expires_at_ns v ->
  consistent m (write_through t v' w).
Proof.
  intros [Hs Hg Ha Hb] Hv Hd He. assert (table (write_through t v' w) = <[t := v']> (table w)) as Hw by (apply write_table; by eexists).
  split; [| |done|done].
  - intros t'. rewrite Hs, Hw. destruct (decide (t' = t)) as [->|Hne]; [rewrite lookup_insert_eq, Hv; by split; eexists|].
    by rewrite lookup_insert_ne.
  - intros t' r v1 Hr. rewrite Hw. destruct (decide (t' = t)) as [->|Hne].
    + rewrite lookup_insert_eq. intros [= <-]. destruct (Hg _ _ _ Hr Hv) as [? ? ? ? ?]. split; [done|done|by rewrite Hd|done|by rewrite He].
    + rewrite lookup_insert_ne by done. by apply Hg.
Qed.
End Spec.

(** * Theorems on enforcement

    The steps of enforcement are whole operations of the manager, which a mutex
    serialises, and packets seen by the XDP program. *)

(** ** The system *)

Section System.
Context {W : Type} {B : BpfMap W} {L : BpfMapLaws W} {HO : HashOrder}.
Context (utc_checked_add : Z -> Z -> option Z).

Abbreviation State := (ThrottleManager * W)%type.

Inductive throttle_step : State -> State -> Prop :=
  | step_set k target d ttl m w : clocks_ok k ->
      throttle_step (m, w) (set_rule utc_checked_add k target d ttl m w).2
  | step_clear k target m w : throttle_step (m, w) (clear_rule k target m w).2
  | step_snapshot k m w : throttle_step (m, w) (throttle_snapshot k m w).2
  | step_packet data now sample m w : throttle_step (m, w) (m, (bazalt_throttle data now sample w).2).

Inductive throttle_reachable : State -> Prop :=
  | start_throttle enabled interface m w :
      ThrottleManager_new enabled interface (Ok ()) = Ok m -> table w = ∅ -> throttle_reachable (m, w)
  | then_step s s' : throttle_reachable s -> throttle_step s s' -> throttle_reachable s'.

(** What the program does with a packet, in terms of the table. *)
Lemma packet_spec data now sample m w :
  consistent m w ->
  let '(verdict, w') := bazalt_throttle data now sample w in
  consistent m w' /\
  match ipv4_source data with
  | None => verdict = XDP_PASS /\ w' = w
  | Some ip =>
      (no_rule (rules (book m)) ip /\ verdict = XDP_PASS /\ w' = w) \/
      exists t r v, rule_of (rules (book m)) ip t /\ rules (book m) !! t = Some r /\ table w !! t = Some v /\
        rule_agrees t r v /\
        if expires_at_ns v <=? now then verdict = XDP_PASS /\ w' = w
        else if draws_drop (ar_drop_percent r) sample
             then verdict = XDP_DROP /\ table w' = <[t := dropped (blen data) (saw (blen data) v)]> (table w)
             else verdict = XDP_PASS /\ table w' = <[t := saw (blen data) v]> (table w)
  end.
Proof.
  intros Hc. unfold bazalt_throttle. destruct (ipv4_source data) as [ip|]; [|done].
  pose proof (match_rule_of m w ip Hc) as Hm. destruct (trie_match _ w) as [t|]; cbn [mbind option_bind]; [|by split; [|left]].
  destruct Hm as [Hrule [v Hv]]. rewrite Hv. cbn [fmap option_fmap option_map].
  destruct (proj2 (cs_same _ _ Hc t)) as [r Hr]; [by eexists|]. pose proof (cs_agrees _ _ Hc t r v Hr Hv) as Hag.
  pose proof Hag as [_ _ Hpc Hrange [Hpos _]].
  rewrite (proj2 (Z.eqb_neq (tv_drop_percent v) 0)), (proj2 (Z.eqb_neq (expires_at_ns v) 0)) by lia. cbn [negb andb].
  assert (forall v', table (write_through t v' w) = <[t := v']> (table w)) as Hw by (intros v'; apply write_table; by eexists).
  destruct (expires_at_ns v <=? now) eqn:Hx; [|cbn [saw tv_drop_percent]; rewrite Hpc; destruct (draws_drop _ _) eqn:Hdraw].
  - split; [done|]. right. exists t, r, v. by rewrite Hx.
  - split; [by eapply consistent_write|]. right. exists t, r, v. by rewrite Hx, Hdraw.
  - split; [by eapply consistent_write|]. right. exists t, r, v. by rewrite Hx, Hdraw.
Qed.

Lemma new_consistent enabled interface opened m w :
  ThrottleManager_new enabled interface opened = Ok m -> table w = ∅ -> consistent m w.
Proof.
  unfold ThrottleManager_new. intros Hm Hw. destruct (enabled && _); [done|].
  destruct (if enabled then opened else Ok tt) as [[]|]; cbn in Hm; [|done]. injection Hm as <-.
  split; cbn; [|intros t r v Hr; by rewrite lookup_empty in Hr|lia|done].
  intros t. rewrite Hw, !lookup_empty. done.
Qed.

Lemma step_consistent m w s' : consistent m w -> throttle_step (m, w) s' -> consistent s'.1 s'.2.
Proof.
  intros Hc Hs. inversion Hs as [k target d ttl m0 w0 Hk|k target m0 w0|k m0 w0|data now sample m0 w0]; subst.
  - pose proof (set_rule_spec utc_checked_add k target d ttl m w Hc Hk) as H.
    destruct (set_rule _ _ _ _ _ _ _) as [r [m' w']]. by destruct H.
  - pose proof (clear_rule_spec k target m w Hc) as H. destruct (clear_rule _ _ _ _) as [r [m' w']]. by destruct H.
  - unfold throttle_snapshot. pose proof (prune_spec k m w Hc) as H. destruct (prune_expired_locked k m w) as [m' w'].
    destruct H as (gone & _ & Hr). by eapply removed_consistent.
  - pose proof (packet_spec data now sample m w Hc) as H. destruct (bazalt_throttle _ _ _ _) as [v w']. by destruct H.
Qed.

Lemma reachable_consistent s : throttle_reachable s -> consistent s.1 s.2.
Proof.
  induction 1 as [enabled interface m w Hm Hw|[m w] s' _ IH Hs]; [by eapply new_consistent|by eapply step_consistent].
Qed.

(** ** The theorems *)

(** C36. Between operations the kernel drops packets by exactly the rules of the book:
    in every reachable state the two have the same targets with the same
    percentages, every target is a network within its prefix, the kernel gives a
    rule up no sooner than the book does, and the audit keeps within its limit. *)
Theorem kernel_holds_the_book m w :
  throttle_reachable (m, w) ->
  dom (table w) = dom (rules (book m)) /\
  (forall t r v, rules (book m) !! t = Some r -> table w !! t = Some v ->
     target_ok t /\ tv_drop_percent v = ar_drop_percent r /\ 1 <= ar_drop_percent r <= 100 /\
     expires_instant r <= expires_at_ns v) /\
  (length (audit (book m)) <= MAX_AUDIT_ENTRIES)%nat.
Proof.
  intros Hr%reachable_consistent. cbn in Hr. split; [|split; [|apply Hr]].
  - apply set_eq. intros t. rewrite !elem_of_dom. symmetry. apply (cs_same _ _ Hr).
  - intros t r v Hb Hv. by destruct (cs_agrees _ _ Hr t r v Hb Hv) as [_ ? ? ? [_ ?]].
Qed.

(** C35. The verdict on a packet follows the book.  Without an IPv4 source, or without
    a rule that covers it, it passes; else the rule with the longest prefix
    decides: before it expires the packet is counted, and dropped exactly when the
    lot of its percentage says so (always at one hundred). *)
Theorem verdict_follows_book m w data now sample :
  throttle_reachable (m, w) ->
  let '(verdict, w') := bazalt_throttle data now sample w in
  match ipv4_source data with
  | None => verdict = XDP_PASS /\ w' = w
  | Some ip =>
      (no_rule (rules (book m)) ip -> verdict = XDP_PASS /\ w' = w) /\
      (forall t r, rule_of (rules (book m)) ip t -> rules (book m) !! t = Some r ->
         now < expires_instant r ->
         verdict = (if draws_drop (ar_drop_percent r) sample then XDP_DROP else XDP_PASS) /\
         exists v, table w !! t = Some v /\
           table w' !! t = Some (if draws_drop (ar_drop_percent r) sample
                                 then dropped (blen data) (saw (blen data) v) else saw (blen data) v)) /\
      (verdict = XDP_DROP -> exists t r v, rule_of (rules (book m)) ip t /\ rules (book m) !! t = Some r /\
         table w !! t = Some v /\ now < expires_at_ns v /\ draws_drop (ar_drop_percent r) sample = true)
  end.
Proof.
  intros Hr%reachable_consistent. pose proof (packet_spec data now sample m w Hr) as Hp.
  destruct (bazalt_throttle data now sample w) as [verdict w']. destruct Hp as [_ Hp].
  destruct (ipv4_source data) as [ip|]; [|done]. destruct Hp as [(Hno & -> & ->)|(t & r & v & Hrule & Hb & Hv & Hag & Hcase)].
  - split; [done|]. split; [|done]. intros t r (Hs & Hcov & _). by destruct (Hno t Hs).
  - split; [|split].
    + intros Hno. destruct Hrule as (Hs & Hcov & _). by destruct (Hno t Hs).
    + intros t' r' Hrule' Hb' Hnow. pose proof (rule_of_unique _ _ _ _ Hrule Hrule') as <-. rewrite Hb in Hb'. injection Hb' as <-.
      destruct Hag as [_ _ _ _ [_ He]]. rewrite (proj2 (Z.leb_gt _ _)) in Hcase by lia.
      destruct (draws_drop (ar_drop_percent r) sample); destruct Hcase as [-> Hw]; (split; [done|]); exists v; by rewrite Hw, lookup_insert_eq.
    + intros ->. exists t, r, v. split; [done|]. split; [done|]. split; [done|].
      destruct (expires_at_ns v <=? now) eqn:Hx; [by destruct Hcase|]. reflect_bools. split; [lia|].
      by destruct (draws_drop (ar_drop_percent r) sample); [|destruct Hcase].
Qed.

(** ** Requests of the API *)

Lemma removed_keeps gone m w m1 w1 t r :
  removed gone m w m1 w1 -> rules (book m1) !! t = Some r -> rules (book m) !! t = Some r.
Proof. intros [Hr _ _ _]. rewrite Hr. by case_decide. Qed.

Lemma removed_expired k gone m w m1 w1 t r :
  removed gone m w m1 w1 -> Forall (expired_in k m) gone -> rules (book m) !! t = Some r ->
  rules (book m1) !! t = Some r \/ expires_instant r <= oc_prune k.
Proof.
  intros [Hr _ _ _] He Ht. rewrite Hr. case_decide as Hin; [|by left]. right. rewrite Forall_forall in He.
  destruct (He t Hin) as (r' & Hr' & Hx). congruence.
Qed.

Lemma canonical_throttle_target_spec tt value text :
  canonical_throttle_target tt value = Ok text ->
  exists t, Ipv4Target_parse value = Ok t /\ text = canonical_target t /\ (prefix t = 32 \/ prefix t = group_prefix_v4 tt) /\
    Ipv4Target_parse text = Ok t.
Proof.
  unfold canonical_throttle_target. destruct (Ipv4Target_parse value) as [t|] eqn:Hp; cbn [mbind Result_bind]; [|done].
  destruct (negb (prefix t =? group_prefix_v4 tt) && negb (prefix t =? 32)) eqn:Hb; [done|]. intros [= <-]. exists t.
  split; [done|]. split; [done|]. split; [|by eapply canonical_parses, parse_target_ok].
  apply andb_false_iff in Hb as [Hb|Hb]; apply negb_false_iff in Hb; reflect_bools; [by right|by left].
Qed.

(** A request for a rule.  A rule accepted is for the target asked for -- a single
    address or a network of the configured group size, never a wider one -- with
    the percentage asked for and the time to live, and it is in force until it
    expires.  Whatever the answer, no rule is lost but the one replaced and those
    that have expired, and a request refused adds none. *)
Theorem throttle_request k k' tracker target d ttl m w :
  throttle_reachable (m, w) -> clocks_ok k ->
  let '(r, (m', w')) := set_topology_throttle utc_checked_add k k' tracker target d ttl m w in
  match r with
  | ApiOk (s, _) => exists t rule, Ipv4Target_parse target = Ok t /\ (prefix t = 32 \/ prefix t = group_prefix_v4 tracker) /\
      ar_drop_percent rule = d /\ expires_instant rule = oc_instant k + default DEFAULT_THROTTLE_TTL_SECS ttl * NANOS /\
      rs_target s = canonical_target t /\
      (rules (book m') !! t = Some rule \/ expires_instant rule <= oc_prune k') /\
      (forall t' r', rules (book m') !! t' = Some r' -> t' = t /\ r' = rule \/ rules (book m) !! t' = Some r') /\
      (forall t' r', t' <> t -> rules (book m) !! t' = Some r' ->
         rules (book m') !! t' = Some r' \/ expires_instant r' <= oc_prune k \/ expires_instant r' <= oc_prune k')
  | _ => (forall t' r', rules (book m') !! t' = Some r' -> rules (book m) !! t' = Some r') /\
         (forall t' r', rules (book m) !! t' = Some r' ->
            rules (book m') !! t' = Some r' \/ expires_instant r' <= oc_prune k)
  end.
Proof.
  intros Hc%reachable_consistent Hk. cbn in Hc. unfold set_topology_throttle.
  destruct (available m); cbn [negb]; [|split; auto]. destruct (_ && _); cbn [negb]; [|split; auto].
  destruct (canonical_throttle_target tracker target) as [text|] eqn:Hcan; [|split; auto].
  destruct (_ || _); [split; auto|]. apply canonical_throttle_target_spec in Hcan as (t & Hparse & _ & Hscope & Htext).
  pose proof (set_rule_spec utc_checked_add k text d (default DEFAULT_THROTTLE_TTL_SECS ttl) m w Hc Hk) as Hset.
  destruct (set_rule _ _ _ _ _ _ _) as [[s|] [m1 w1]]; destruct Hset as (Hc1 & gone & m0 & w0 & Hgone & Hrm & Hres).
  - destruct Hres as (rule & Hck & Hr & _ & ->). apply checked_rule_spec in Hck as (_ & _ & _ & Hpt & Hd & _ & _ & Hx).
    rewrite Htext in Hpt. injection Hpt as ->. unfold throttle_snapshot. pose proof (prune_spec k' m1 w1 Hc1) as Hpr.
    destruct (prune_expired_locked k' m1 w1) as [m2 w2]. destruct Hpr as (gone' & Hgone' & Hrm').
    exists (ar_target rule), rule. repeat (split; [done|]). split; [|split].
    + eapply removed_expired; [done|done|]. by rewrite Hr, lookup_insert_eq.
    + intros t' r' H2. apply (removed_keeps _ _ _ _ _ _ _ Hrm') in H2. rewrite Hr in H2.
      apply lookup_insert_Some in H2 as [[<- <-]|[_ H2]]; [by left|right]. by eapply removed_keeps.
    + intros t' r' Hne H0. destruct (removed_expired _ _ _ _ _ _ _ _ Hrm Hgone H0) as [H1|H1]; [|by right; left].
      assert (rules (book m1) !! t' = Some r') as H2 by (by rewrite Hr, lookup_insert_ne).
      destruct (removed_expired _ _ _ _ _ _ _ _ Hrm' Hgone' H2) as [H3|H3]; [by left|by right; right].
  - destruct Hres as [Hr _]. split; intros t' r'; rewrite Hr.
    + by eapply removed_keeps.
    + by eapply removed_expired.
Qed.

(** ** Expiry *)

(** From this world on the kernel deletes whatever targets it is asked to. *)
Definition deletes_succeed (w : W) : Prop := forall ts, Forall target_ok ts -> (delete_expired ts w).1 = ts.

(** A rule whose time is over leaves the book and the kernel with the next
    snapshot, when the kernel deletes; a snapshot lists the other rules, each once,
    in the order of their texts. *)
Theorem expired_rules_leave k m w :
  throttle_reachable (m, w) -> deletes_succeed w -> tm_backend m = true ->
  let '(s, (m', w')) := throttle_snapshot k m w in
  (forall t, rules (book m') !! t = (r ← rules (book m) !! t; if expires_instant r <=? oc_prune k then None else Some r)) /\
  dom (table w') = dom (rules (book m')) /\
  th_rules s ≡ₚ map (rule_snapshot m' w') (map snd (map_to_list (rules (book m')))) /\ Sorted rule_before (th_rules s).
Proof.
  intros Hc%reachable_consistent Hdel Hb. cbn in Hc. unfold throttle_snapshot, prune_expired_locked. rewrite Hb.
  set (expired := map fst _).
  assert (forall t, t ∈ expired <-> exists r, rules (book m) !! t = Some r /\ expires_instant r <= oc_prune k) as He.
  { intros t. unfold expired. rewrite list_elem_of_fmap. split.
    - intros ([t' r] & -> & [Hx Hin]%list_elem_of_filter). rewrite walk_permutation in Hin. apply elem_of_map_to_list in Hin. by exists r.
    - intros (r & Hr & Hx). exists (t, r). split; [done|]. apply list_elem_of_filter. split; [done|].
      rewrite walk_permutation. by apply elem_of_map_to_list. }
  assert (Forall target_ok expired) as Hok.
  { apply Forall_forall. intros t (r & Hr & _)%He. by eapply cs_target_ok. }
  assert (exists m' w', (if is_empty expired then (m, w) else
            let '(removable, w0) := delete_expired expired w in (fold_left (remove_expired k) removable m, w0)) = (m', w') /\
            (forall t, rules (book m') !! t = if decide (t ∈ expired) then None else rules (book m) !! t) /\ consistent m' w')
    as (m' & w' & -> & Hrules & Hc').
  { destruct (is_empty expired) eqn:Hemp.
    - exists m, w. split; [done|]. split; [|done]. apply is_empty_spec in Hemp as ->. intros t. by rewrite decide_False by apply not_elem_of_nil.
    - pose proof (Hdel expired Hok) as H1. pose proof (delete_expired_spec expired w Hok) as H2.
      destruct (delete_expired expired w) as [removable w1]. cbn in H1. subst removable. destruct H2 as [_ Hw1].
      destruct (remove_all_spec k expired m (cs_audit _ _ Hc)) as (Hr & Hb' & Ha). eexists _, _. split; [done|]. split; [done|].
      eapply removed_consistent; [|exact Hc]. by split. }
  split; [|split; [|split]].
  - intros t. rewrite Hrules. case_decide as Hin.
    + apply He in Hin as (r & -> & Hx). cbn. by rewrite (proj2 (Z.leb_le _ _)).
    + destruct (rules (book m) !! t) as [r|] eqn:Hr; cbn; [|done]. destruct (expires_instant r <=? oc_prune k) eqn:Hx; [|done].
      exfalso. apply Hin, He. exists r. reflect_bools. done.
  - apply set_eq. intros t. rewrite !elem_of_dom. symmetry. apply (cs_same _ _ Hc').
  - cbn [th_rules]. rewrite merge_sort_Permutation. by rewrite walk_permutation.
  - apply Sorted_merge_sort. intros a b. unfold rule_before. apply text_le_total.
Qed.
End System.
