(* ===== verification/TopologyExamples.v ===== *)
(** * Topology and enforcement on concrete inputs

    A kernel table with calls that fail when they are told to, and the theorems of
    the two parts applied to it. *)

From Stdlib Require Import SpecFloat String.
From stdpp Require Import sorting.
From S2P Require Import Prelude Model Text Ipv4 Topology TopologySpec TopologyTheorems Throttle ThrottleTheorems.

#[local] Instance listed_order : HashOrder :=
  {| walk K _ _ A m := map_to_list m; walk_permutation K _ _ A m := Permutation_refl _ |}.

(** ** A kernel *)

(** The table and the failures to come: one entry per call. *)
Record TestKernel := { tk_table : Rules; tk_failures : list bool }.

Definition EIO : Z := 5.

Definition next_call (w : TestKernel) : bool * TestKernel :=
  match tk_failures w with
  | [] => (false, w)
  | f :: fs => (f, {| tk_table := tk_table w; tk_failures := fs |})
  end.

Definition with_table (r : Rules) (w : TestKernel) : TestKernel := {| tk_table := r; tk_failures := tk_failures w |}.

Definition best_match (key : Ipv4Target) (l : list (Ipv4Target * throttle_value)) : option Ipv4Target :=
  foldr (fun e acc =>
           if decide (covers e.1 key)
           then match acc with Some t => if prefix t <? prefix e.1 then Some e.1 else acc | None => Some e.1 end
           else acc) None l.

#[local] Instance test_kernel : BpfMap TestKernel :=
  {| table := tk_table;
     bpf_map_update_elem t v w := let '(fails, w) := next_call w in
       if fails then (EIO, w) else (0, with_table (<[t := v]> (tk_table w)) w);
     bpf_map_delete_elem t w := let '(fails, w) := next_call w in
       if fails then (EIO, w)
       else match tk_table w !! t with Some _ => (0, with_table (delete t (tk_table w)) w) | None => (ENOENT, w) end;
     trie_match key w := best_match key (map_to_list (tk_table w));
     write_through t v w := with_table (<[t := v]> (tk_table w)) w |}.

Lemma next_call_table w : tk_table (next_call w).2 = tk_table w.
Proof. unfold next_call. by destruct (tk_failures w). Qed.

Lemma best_match_spec key l :
  match best_match key l with
  | Some t => (exists v, (t, v) ∈ l) /\ covers t key /\ (forall e, e ∈ l -> covers e.1 key -> prefix e.1 <= prefix t)
  | None => forall e, e ∈ l -> ~ covers e.1 key
  end.
Proof.
  induction l as [|[t0 v0] l IH]; cbn [best_match foldr fst]; [intros e He; by apply elem_of_nil in He|].
  fold (best_match key l). case_decide as Hcov; destruct (best_match key l) as [t|].
  - destruct IH as ((v & Hv) & Hc & Hm). destruct (prefix t <? prefix t0) eqn:Hlt; reflect_bools.
    + split; [exists v0; apply list_elem_of_here|]. split; [done|].
      intros e [->|He]%elem_of_cons Hec; [done|]. specialize (Hm e He Hec). lia.
    + split; [exists v; by apply list_elem_of_further|]. split; [done|].
      intros e [->|He]%elem_of_cons Hec; [by cbn; lia|]. by apply Hm.
  - split; [exists v0; apply list_elem_of_here|]. split; [done|].
    intros e [->|He]%elem_of_cons Hec; [done|]. by destruct (IH e He).
  - destruct IH as ((v & Hv) & Hc & Hm). split; [exists v; by apply list_elem_of_further|]. split; [done|].
    intros e [->|He]%elem_of_cons Hec; [done|by apply Hm].
  - intros e [->|He]%elem_of_cons; [done|by apply IH].
Qed.

#[local] Instance test_kernel_laws : BpfMapLaws TestKernel.
Proof.
  split; cbn.
  - intros t v w w' _. pose proof (next_call_table w) as Hn. destruct (next_call w) as [[] w1]; intros [= <-]. cbn in *. by rewrite Hn.
  - intros t v w e w' He. pose proof (next_call_table w) as Hn. destruct (next_call w) as [[] w1]; intros [= <- <-]; [done|by destruct He].
  - intros t w w' _. pose proof (next_call_table w) as Hn. destruct (next_call w) as [[] w1]; cbn in *; [done|].
    destruct (tk_table w1 !! t); intros [= <-]. cbn. by rewrite Hn.
  - intros t w e w' He. pose proof (next_call_table w) as Hn. destruct (next_call w) as [[] w1]; cbn in *; [by intros [= <- <-]|].
    destruct (tk_table w1 !! t); intros [= <- <-]; [by destruct He|done].
  - intros t w w' _. pose proof (next_call_table w) as Hn. destruct (next_call w) as [[] w1]; cbn in *; [done|].
    destruct (tk_table w1 !! t) eqn:Ht; intros [= <-]. by rewrite <- Hn.
  - intros t w. destruct (next_call w) as [[] w1]; cbn; [done|]. by destruct (tk_table w1 !! t).
  - intros t v w. by destruct (next_call w) as [[] w1].
  - intros key w t Hm. pose proof (best_match_spec key (map_to_list (tk_table w))) as Hs. rewrite Hm in Hs.
    destruct Hs as ((v & Hv) & Hc & Hmax). split; [exists v; by apply elem_of_map_to_list|]. split; [done|].
    intros t' [v' Hv']. apply (Hmax (t', v')). by apply elem_of_map_to_list.
  - intros key w t Hm [v Hv]. pose proof (best_match_spec key (map_to_list (tk_table w))) as Hs. rewrite Hm in Hs.
    apply (Hs (t, v)). by apply elem_of_map_to_list.
  - done.
Qed.

(** ** Topology *)

Definition codes (s : String.string) : list Z := map byte_val (String.list_byte_of_string s).

Lemma target_roundtrip_witness :
  exists t, Ipv4Target_parse (codes " 10.1.2.3/8 ") = Ok t /\ canonical_target t = codes "10.0.0.0/8" /\
    Ipv4Target_parse (codes "10.0.0.0/8") = Ok t.
Proof.
  exists {| network := from_octets 10 0 0 0; prefix := 8 |}. split; [by vm_compute|]. split; [by vm_compute|].
  destruct (target_roundtrip (codes " 10.1.2.3/8 ") {| network := from_octets 10 0 0 0; prefix := 8 |}) as (_ & Hp & _);
    [by vm_compute|].
  assert (codes "10.0.0.0/8" = canonical_target {| network := from_octets 10 0 0 0; prefix := 8 |}) as -> by (by vm_compute).
  exact Hp.
Defined.

Definition batch (packets bytes : Z) : PendingCounters :=
  {| pc_packets := packets; pc_bytes := bytes; pc_last_packet_ts_ns := 0 |}.

(** Three batches; at second 14 the first is out of the window. *)
Definition sample_history : list (Z * PendingCounters) := [(8, batch 100 1000); (12, batch 6 600); (13, batch 3 300)].

Lemma rates_cover_window_witness :
  (rates 14 (merge_all sample_history (SourceState_new 0))).1 =
    (f64_div (f64_of 9) (f64_of 3), f64_div (f64_mul (f64_of 900) (f64_of 8)) (f64_of 3)).
Proof.
  destruct (rates_cover_window 0 sample_history 14 0) as (Hr & _ & _);
    [cbn; lia|cbn; lia|repeat constructor; cbn; lia|cbn; unfold u64_MAX; lia|cbn; unfold u64_MAX; lia|].
  rewrite Hr. by vm_compute.
Defined.

Definition clocks_at (t : Z) : Clocks := {| ck_now := t; ck_merge := t; ck_second := 1; ck_flushed := t |}.

Definition seen_at (t wire_len ip : Z) : Observation :=
  {| ob_clocks := clocks_at t; ob_ts_ns := t; ob_wire_len := wire_len; ob_ip := ip |}.

(** Two sources, a table with room for one. *)
Definition sample_packets : list Observation := [seen_at 1 60 7; seen_at 2 40 8; seen_at 300000000 100 7].


(** A clock set back: the newer second in front keeps an older one from being
    trimmed, so that packets 49 seconds old still count. *)
Example clock_set_back_keeps_old_packets :
  let s := merge_all [(100, batch 1 1); (50, batch 7 7)] (SourceState_new 0) in
  map rb_packets (buckets (rates 99 s).2) = [1; 7].
Proof. by vm_compute. Qed.

(** ** Enforcement *)

Definition add_seconds (t seconds : Z) : option Z := Some (t + seconds * NANOS).

Definition kernel_with (fails : list bool) : TestKernel := {| tk_table := ∅; tk_failures := fails |}.

Definition enabled_manager : ThrottleManager :=
  {| tm_interface := Some (codes "eth0"); tm_backend := true; book := {| rules := ∅; audit := [] |} |}.

Definition op_at (t : Z) : OpClocks := {| oc_utc := t; oc_instant := t; oc_prune := t; oc_audit := t; oc_mono := t + 10 |}.

Lemma op_at_ok t : 0 <= t <= 10 ^ 18 -> clocks_ok (op_at t).
Proof. intros H. unfold clocks_ok, MAX_THROTTLE_TTL_SECS, NANOS, u64_MAX. cbn [oc_instant oc_mono op_at]. lia. Qed.

Definition started : ThrottleManager * TestKernel := (enabled_manager, kernel_with []).

(** All of a network dropped for ten seconds, then half of one of its addresses. *)
Definition with_rule : ThrottleManager * TestKernel :=
  (set_rule add_seconds (op_at 0) (codes "10.1.2.0/24") 100 10 started.1 started.2).2.
Definition with_rules : ThrottleManager * TestKernel :=
  (set_rule add_seconds (op_at 1) (codes "10.1.2.3") 50 3600 with_rule.1 with_rule.2).2.

Lemma started_reachable : throttle_reachable add_seconds started.
Proof. by apply (start_throttle add_seconds true (codes " eth0 ")). Qed.

Lemma with_rules_reachable : throttle_reachable add_seconds with_rules.
Proof.
  apply (then_step _ with_rule); [apply (then_step _ started); [apply started_reachable|]|].
  - apply step_set, op_at_ok. lia.
  - unfold with_rules. destruct with_rule as [m w]. apply step_set, op_at_ok. lia.
Qed.

Definition net : Ipv4Target := {| network := from_octets 10 1 2 0; prefix := 24 |}.
Definition host : Ipv4Target := {| network := from_octets 10 1 2 3; prefix := 32 |}.

Lemma kernel_holds_the_book_witness :
  dom (table with_rules.2) = dom (rules (book with_rules.1)) /\ is_Some (rules (book with_rules.1) !! net).
Proof.
  pose proof with_rules_reachable as Hr. split.
  - destruct with_rules as [m w]. by apply (kernel_holds_the_book add_seconds).
  - by vm_compute; eexists.
Defined.

(** A frame of 34 bytes from [10.1.2.x], tagged or not. *)
Definition frame_from (tag : bytes) (x : Z) : bytes :=
  repeat x00 12 ++ tag ++ map byte_of [8; 0; 0x45; 0; 0; 20; 0; 0; 0; 0; 64; 6; 0; 0; 10; 1; 2; x; 10; 0; 0; 1].

Lemma verdict_follows_book_witness :
  let '(verdict, w') := bazalt_throttle (frame_from (map byte_of [0x81; 0; 0; 5]) 3) 1000 0 with_rules.2 in
  verdict = XDP_DROP /\ exists v, table w' !! host = Some v /\ dropped_packets v = 1.
Proof.
  pose proof (verdict_follows_book add_seconds with_rules.1 with_rules.2 (frame_from (map byte_of [0x81; 0; 0; 5]) 3) 1000 0) as H.
  assert (throttle_reachable add_seconds (with_rules.1, with_rules.2)) as Hr
    by (pose proof with_rules_reachable as Hr; by destruct with_rules).
  specialize (H Hr).
  destruct (bazalt_throttle (frame_from (map byte_of [0x81; 0; 0; 5]) 3) 1000 0 with_rules.2) as [verdict w'] eqn:E.
  assert (verdict = XDP_DROP) as -> by (change verdict with (verdict, w').1; rewrite <- E; by vm_compute).
  split; [done|]. exists (default {| tv_drop_percent := 0; expires_at_ns := 0; seen_packets := 0; seen_bytes := 0; dropped_packets := 0; dropped_bytes := 0 |} (table w' !! host)).
  change w' with (XDP_DROP, w').2. rewrite <- E. split; by vm_compute.
Defined.

(** The tracker groups by 24 bits; half of a host is asked for, with spaces. *)
Definition grouping : TopologyTracker := TopologyTracker_new 24 (60 * NANOS) 16.

Lemma throttle_request_witness :
  let r := set_topology_throttle add_seconds (op_at 1) (op_at 2) grouping (codes " 10.1.2.3/32") 50 None with_rule.1 with_rule.2 in
  exists rule, rules (book r.2.1) !! host = Some rule /\ ar_drop_percent rule = 50 /\
    expires_instant rule = 1 + 300 * NANOS.
Proof.
  assert (throttle_reachable add_seconds (with_rule.1, with_rule.2)) as Hr.
  { rewrite <- surjective_pairing. apply (then_step _ started); [apply started_reachable|]. apply step_set, op_at_ok. lia. }
  pose proof (throttle_request add_seconds (op_at 1) (op_at 2) grouping (codes " 10.1.2.3/32") 50 None with_rule.1 with_rule.2 Hr
                (op_at_ok 1 ltac:(lia))) as H. cbn zeta.
  destruct (set_topology_throttle _ _ _ _ _ _ _ _ _) as [r [m' w']] eqn:E.
  assert (match r with ApiOk _ => true | _ => false end = true) as Hok by (change r with (r, (m', w')).1; rewrite <- E; by vm_compute).
  destruct r as [[s sn]| | |]; try discriminate Hok. destruct H as (t & rule & Hp & _ & Hd & Hx & _ & Hin & _).
  assert (Ipv4Target_parse (codes " 10.1.2.3/32") = Ok host) as Hh by (by vm_compute). rewrite Hh in Hp. injection Hp as <-.
  exists rule. split; [|split; [exact Hd|exact Hx]]. destruct Hin as [Hin|Hlate]; [exact Hin|].
  exfalso. rewrite Hx in Hlate. clear -Hlate. vm_compute in Hlate. by apply Hlate.
Defined.

Lemma no_failures_delete ts : forall w, tk_failures w = [] -> Forall target_ok ts -> (delete_expired ts w).1 = ts.
Proof.
  induction ts as [|t ts IH]; intros w Hw Hok; [done|]. apply Forall_cons in Hok as [Ht Hok]. cbn [delete_expired].
  assert (exists w1, backend_delete_rule t w = (Ok (), w1) /\ tk_failures w1 = []) as (w1 & -> & Hw1).
  { unfold backend_delete_rule, pm_throttle_delete_rule. destruct Ht as ([_ Hp] & _). rewrite (proj2 (Z.ltb_ge _ _) Hp).
    cbn. unfold next_call. rewrite Hw. destruct (tk_table w !! t); cbn; by eexists. }
  specialize (IH w1 Hw1 Hok). destruct (delete_expired ts w1) as [removable w2]. cbn in *. by rewrite IH.
Qed.

(** Ten seconds later only the rule of the host is left. *)
Lemma expired_rules_leave_witness :
  let r := throttle_snapshot (op_at (11 * NANOS)) with_rules.1 with_rules.2 in
  rules (book r.2.1) !! net = None /\ is_Some (rules (book r.2.1) !! host) /\
  dom (table r.2.2) = dom (rules (book r.2.1)).
Proof.
  assert (throttle_reachable add_seconds (with_rules.1, with_rules.2)) as Hr
    by (rewrite <- surjective_pairing; exact with_rules_reachable).
  assert (deletes_succeed with_rules.2) as Hdel by (intros ts; apply no_failures_delete; by vm_compute).
  pose proof (expired_rules_leave add_seconds (op_at (11 * NANOS)) _ _ Hr Hdel eq_refl) as H. cbn zeta.
  destruct (throttle_snapshot _ _ _) as [s [m' w']]. destruct H as (Hrules & Hdom & _). cbn [fst snd].
  rewrite !Hrules. split; [by vm_compute|]. split; [|exact Hdom]. vm_compute. by eexists.
Defined.
