(* ===== verification/L7.v ===== *)
(** * The L7 workers ([src/src/http/mod.rs])

    What happens to the output of the flow engine: the queue to one of the workers,
    and the worker that parses HTTP, stores every piece of content, offers it to the
    matcher and sends metadata.  The segment store, the metadata sink and the
    matcher are used through what they promise a sender; the registry of services
    is the one each event finds. *)

From stdpp Require Import strings.
From S2P Require Import Prelude Model Text Services Disk Sink HttpHeader Http Matching Matcher.

(** The segment store as a producer sees it. *)
Class ContentStore (C : Type) := {
  append_content : ContentRecord -> Eff C unit;
  (** What waits for the writer of the segments. *)
  queued : C -> list ContentRecord
}.

Class ContentStoreLaws (C : Type) `{ContentStore C} := {
  append_accepted r c c' : append_content r c = (Ok tt, c') -> queued c' = queued c ++ [r];
  append_refused r c c' : append_content r c = (Err, c') -> queued c' = queued c
}.

(** ** The queues *)

Record L7Queue := { lq_items : list FlowOutput; lq_capacity : nat; lq_open : bool }.

(** The counters of [Metrics] this part changes. *)
Record L7Metrics := {
  l7_queue_depth : Z;
  l7_queue_high_watermark : Z;
  l7_queue_capacity : Z;
  http_parse_errors : Z;
  http_requests : Z;
  http_responses : Z
}.

Definition l7_enqueued (x : L7Metrics) : L7Metrics :=
  {| l7_queue_depth := wrapping_add 64 (l7_queue_depth x) 1;
     l7_queue_high_watermark := Z.max (l7_queue_high_watermark x) (sat_add (l7_queue_depth x) 1);
     l7_queue_capacity := l7_queue_capacity x; http_parse_errors := http_parse_errors x;
     http_requests := http_requests x; http_responses := http_responses x |}.

Definition l7_dequeued (x : L7Metrics) : L7Metrics :=
  {| l7_queue_depth := sat_sub (l7_queue_depth x) 1; l7_queue_high_watermark := l7_queue_high_watermark x;
     l7_queue_capacity := l7_queue_capacity x; http_parse_errors := http_parse_errors x;
     http_requests := http_requests x; http_responses := http_responses x |}.

Definition l7_count (errors requests responses : Z) (x : L7Metrics) : L7Metrics :=
  {| l7_queue_depth := l7_queue_depth x; l7_queue_high_watermark := l7_queue_high_watermark x;
     l7_queue_capacity := l7_queue_capacity x; http_parse_errors := wrapping_add 64 (http_parse_errors x) errors;
     http_requests := wrapping_add 64 (http_requests x) requests;
     http_responses := wrapping_add 64 (http_responses x) responses |}.

Record L7Ingress := { l7_txs : list L7Queue; l7_metrics : L7Metrics }.

(** The ingress of fresh workers, at least one, that share the configured capacity. *)
Definition spawn_l7 (l7_workers flow_to_l7_capacity : nat) (x : L7Metrics) : L7Ingress :=
  let worker_count := Nat.max l7_workers 1 in
  let per_worker_capacity := Nat.max (flow_to_l7_capacity / worker_count) 1 in
  {| l7_txs := replicate worker_count {| lq_items := []; lq_capacity := per_worker_capacity; lq_open := true |};
     l7_metrics := {| l7_queue_depth := l7_queue_depth x; l7_queue_high_watermark := l7_queue_high_watermark x;
                      l7_queue_capacity := Z.of_nat (per_worker_capacity * worker_count);
                      http_parse_errors := http_parse_errors x; http_requests := http_requests x;
                      http_responses := http_responses x |} |}.

Definition output_flow (event : FlowOutput) : FlowId :=
  match event with Chunk c => ch_flow_id c | Snapshot s | Closed s => sm_flow_id s end.

(** [flow_id.as_u128() as usize % shards]. *)
Definition l7_shard (id : FlowId) (shards : list L7Queue) : option nat :=
  if is_empty shards then None else Some (Z.to_nat (wrap 64 id mod blen shards)).

(** The blocking [send] of a bounded channel: it waits while the queue is full. *)
Inductive L7Send := L7Sent | L7Waits | L7Gone.

Definition l7_send (event : FlowOutput) (g : L7Ingress) : option (L7Send * L7Ingress) :=
  idx ← l7_shard (output_flow event) (l7_txs g);
  q ← l7_txs g !! idx;
  Some (if negb (lq_open q) then (L7Gone, g)
        else if (length (lq_items q) <? lq_capacity q)%nat
        then (L7Sent, {| l7_txs := <[idx := {| lq_items := lq_items q ++ [event]; lq_capacity := lq_capacity q;
                                                lq_open := lq_open q |}]> (l7_txs g);
                         l7_metrics := l7_enqueued (l7_metrics g) |})
        else (L7Waits, g)).

(** [recv] of worker [idx]. *)
Definition l7_recv (idx : nat) (g : L7Ingress) : option (FlowOutput * L7Ingress) :=
  q ← l7_txs g !! idx;
  match lq_items q with
  | [] => None
  | event :: rest =>
      Some (event, {| l7_txs := <[idx := {| lq_items := rest; lq_capacity := lq_capacity q; lq_open := lq_open q |}]> (l7_txs g);
                      l7_metrics := l7_dequeued (l7_metrics g) |})
  end.

(** ** What a worker asks of the others *)

Inductive L7Call :=
  | StoreCall (r : ContentRecord) (accepted : bool)
  | MatchCall (r : ContentRecord) (accepted : bool)
  | MetaCall (e : MetadataEvent) (accepted : bool)
  | CloseCall (id : FlowId).

(** The world of a worker, with the calls it has made so far. *)
Record L7World (C S : Type) := {
  lw_store : C;
  lw_sink : S;
  lw_matcher : MatcherIngress;
  lw_metrics : L7Metrics;
  lw_calls : list L7Call
}.
Arguments lw_store {C S} l.
Arguments lw_sink {C S} l.
Arguments lw_matcher {C S} l.
Arguments lw_metrics {C S} l.
Arguments lw_calls {C S} l.

Record L7Worker := {
  lk_parsers : gmap FlowId HttpConnection;
  lk_services : gmap FlowId bytes;
  lk_ids : nat
}.

Definition new_l7_worker : L7Worker := {| lk_parsers := ∅; lk_services := ∅; lk_ids := 0 |}.

Definition accepted_ {A} (r : Result A) : bool := match r with Ok _ => true | Err => false end.

Section Worker.
Context `{HttpParse} `{Inflate} {C S : Type} `{ContentStore C} `{MetadataSink S}.
Context (new_v4 : nat -> Z) (cfg : HttpConfig).

(** What the other threads do to the ingress of the matcher while a send to one of
    its queues waits. *)
Context (others : nat -> MatcherIngress -> MatcherIngress).

Abbreviation World := (L7World C S).

Definition after_store (r : ContentRecord) (ok : bool) (store : C) (w : World) : World :=
  {| lw_store := store; lw_sink := lw_sink w; lw_matcher := lw_matcher w; lw_metrics := lw_metrics w;
     lw_calls := lw_calls w ++ [StoreCall r ok] |}.

Definition after_match (r : ContentRecord) (ok : bool) (m : MatcherIngress) (w : World) : World :=
  {| lw_store := lw_store w; lw_sink := lw_sink w; lw_matcher := m; lw_metrics := lw_metrics w;
     lw_calls := lw_calls w ++ [MatchCall r ok] |}.

Definition after_meta (e : MetadataEvent) (ok : bool) (sink : S) (w : World) : World :=
  {| lw_store := lw_store w; lw_sink := sink; lw_matcher := lw_matcher w; lw_metrics := lw_metrics w;
     lw_calls := lw_calls w ++ [MetaCall e ok] |}.

Definition after_close (id : FlowId) (m : MatcherIngress) (w : World) : World :=
  {| lw_store := lw_store w; lw_sink := lw_sink w; lw_matcher := m; lw_metrics := lw_metrics w;
     lw_calls := lw_calls w ++ [CloseCall id] |}.

Definition set_lw_metrics (x : L7Metrics) (w : World) : World :=
  {| lw_store := lw_store w; lw_sink := lw_sink w; lw_matcher := lw_matcher w; lw_metrics := x; lw_calls := lw_calls w |}.

(** The lossless [send_content]: when its queue is full it waits for the others. *)
Definition send_lossless (r : ContentRecord) (g : MatcherIngress) : option (bool * MatcherIngress) :=
  '(a, g) ← send_content r g;
  match a with
  | Done accepted => Some (accepted, g)
  | Blocked i work =>
      '(a, g) ← resume_send i work (others i g);
      match a with Done accepted => Some (accepted, g) | Blocked _ _ => None end
  end.

(** Storage first; the matcher gets only what was stored. *)
Definition fanout_content (r : ContentRecord) (w : World) : option World :=
  let match_copy := if is_interested_view (lw_matcher w) (cr_view r) then Some r else None in
  let '(result, store) := append_content r (lw_store w) in
  let w := after_store r (accepted_ result) store w in
  match result with
  | Err => Some w
  | Ok _ =>
      match match_copy with
      | None => Some w
      | Some r => '(accepted, m) ← send_lossless r (lw_matcher w); Some (after_match r accepted m w)
      end
  end.

Definition with_service (service : option bytes) (r : ContentRecord) : ContentRecord :=
  {| cr_id := cr_id r; cr_flow_id := cr_flow_id r; cr_ts_ns := cr_ts_ns r; cr_service := service;
     cr_direction := cr_direction r; cr_view := cr_view r; cr_stream_offset := cr_stream_offset r;
     cr_data := cr_data r |}.

Fixpoint fanout_all (service : option bytes) (rs : list ContentRecord) (w : World) : option World :=
  match rs with
  | [] => Some w
  | r :: rs => w ← fanout_content (with_service service r) w; fanout_all service rs w
  end.

Definition send_meta (e : MetadataEvent) (w : World) : bool * World :=
  let '(result, sink) := Sink.send e (lw_sink w) in
  (accepted_ result, after_meta e (accepted_ result) sink w).

Definition emit_http_event (evt : HttpEmission) (service : option bytes) (w : World) : option World :=
  w ← fanout_all service (he_content evt) w;
  match he_meta evt with
  | None => Some w
  | Some meta =>
      let w := set_lw_metrics (if hr_request meta then l7_count 0 1 0 (lw_metrics w) else l7_count 0 0 1 (lw_metrics w)) w in
      Some (send_meta (MetaHttp meta) w).2
  end.

(** The events of a chunk: a request names the service of its flow. *)
Fixpoint emit_events (services : ServiceRegistry) (key : FlowKey) (flow_id : FlowId) (events : list HttpEmission)
    (detected : gmap FlowId bytes) (w : World) : option (gmap FlowId bytes * World) :=
  match events with
  | [] => Some (detected, w)
  | evt :: events =>
      '(detected, service) ← Some (match he_request_direction evt with
                                   | Some req_dir => let service := service_for_http services key req_dir in
                                                     (<[flow_id := service]> detected, Some service)
                                   | None => (detected, detected !! flow_id)
                                   end);
      w ← emit_http_event evt service w;
      emit_events services key flow_id events detected w
  end.

(** The events of the end of a flow. *)
Fixpoint emit_last (service : option bytes) (events : list HttpEmission) (w : World) : option World :=
  match events with
  | [] => Some w
  | evt :: events => w ← emit_http_event evt service w; emit_last service events w
  end.

Definition raw_record (services : ServiceRegistry) (id : Z) (c : StreamChunk) : ContentRecord :=
  {| cr_id := id; cr_flow_id := ch_flow_id c; cr_ts_ns := ch_ts_ns c; cr_service := service_for_flow services (ch_key c);
     cr_direction := ch_direction c; cr_view := TcpRaw; cr_stream_offset := ch_offset c; cr_data := ch_data c |}.

Definition on_chunk (services : ServiceRegistry) (c : StreamChunk) (k : L7Worker) (w : World)
  : option (L7Worker * World) :=
  '(events, parsers, ids, errors) ←
    (if bool_decide (fk_protocol (ch_key c) = Tcp) && should_parse_http services (ch_key c) then
       let parser := default HttpConnection_new (lk_parsers k !! ch_flow_id c) in
       '(events, errors, parser, ids) ← connection_feed new_v4 cfg parser c (lk_ids k);
       Some (Some events, <[ch_flow_id c := parser]> (lk_parsers k), ids, errors)
     else Some (None, lk_parsers k, lk_ids k, 0));
  let w := if errors =? 0 then w else set_lw_metrics (l7_count errors 0 0 (lw_metrics w)) w in
  w ← fanout_content (raw_record services (new_v4 ids) c) w;
  '(detected, w) ← (match events with
                    | Some events => emit_events services (ch_key c) (ch_flow_id c) events (lk_services k) w
                    | None => Some (lk_services k, w)
                    end);
  Some ({| lk_parsers := parsers; lk_services := detected; lk_ids := Datatypes.S ids |}, w).

(** The service of a flow by its ports, when nothing better is known. *)
Definition service_by_ports (services : ServiceRegistry) (s : FlowSummary) : option bytes :=
  sc_name <$> (match by_port services (sm_src_port s) with
               | Some x => Some x
               | None => by_port services (sm_dst_port s)
               end).

Definition summary_with (service : option bytes) (s : FlowSummary) : FlowSummary :=
  {| sm_flow_id := sm_flow_id s; sm_started_at := sm_started_at s; sm_ended_at := sm_ended_at s;
     sm_src_ip := sm_src_ip s; sm_dst_ip := sm_dst_ip s; sm_src_port := sm_src_port s; sm_dst_port := sm_dst_port s;
     sm_protocol := sm_protocol s; sm_service := service; sm_packets_c2s := sm_packets_c2s s;
     sm_packets_s2c := sm_packets_s2c s; sm_bytes_c2s := sm_bytes_c2s s; sm_bytes_s2c := sm_bytes_s2c s;
     sm_truncated := sm_truncated s |}.

Definition or_else {A} (a b : option A) : option A := match a with Some _ => a | None => b end.

(** [false] leaves the loop. *)
Definition on_snapshot (services : ServiceRegistry) (s : FlowSummary) (w : World) : bool * World :=
  send_meta (MetaFlow (summary_with (or_else (sm_service s) (service_by_ports services s)) s)) w.

Definition on_closed (services : ServiceRegistry) (s : FlowSummary) (k : L7Worker) (w : World)
  : option (bool * L7Worker * World) :=
  let id := sm_flow_id s in
  '(ids, w) ← (match lk_parsers k !! id with
               | None => Some (lk_ids k, w)
               | Some parser =>
                   '(events, _, ids) ← connection_finish new_v4 cfg parser (lk_ids k);
                   w ← emit_last (lk_services k !! id) events w;
                   Some (ids, w)
               end);
  let service := or_else (lk_services k !! id) (service_by_ports services s) in
  let k := {| lk_parsers := delete id (lk_parsers k); lk_services := delete id (lk_services k); lk_ids := ids |} in
  let '(ok, w) := send_meta (MetaFlow (summary_with service s)) w in
  if ok then '(_, m) ← try_flow_closed id (lw_matcher w); Some (true, k, after_close id m w)
  else Some (false, k, w).

Definition l7_turn (services : ServiceRegistry) (event : FlowOutput) (k : L7Worker) (w : World)
  : option (bool * L7Worker * World) :=
  let w := set_lw_metrics (l7_dequeued (lw_metrics w)) w in
  match event with
  | Chunk c => '(k, w) ← on_chunk services c k w; Some (true, k, w)
  | Snapshot s => let '(ok, w) := on_snapshot services s w in Some (ok, k, w)
  | Closed s => on_closed services s k w
  end.

(** The loop over what the worker receives, each event with the registry it finds;
    [false]: it broke off. *)
Fixpoint l7_worker_loop (events : list (ServiceRegistry * FlowOutput)) (k : L7Worker) (w : World)
  : option (bool * L7Worker * World) :=
  match events with
  | [] => Some (true, k, w)
  | (services, event) :: events =>
      '(ok, k, w) ← l7_turn services event k w;
      if ok : bool then l7_worker_loop events k w else Some (false, k, w)
  end.
End Worker.
