(* ===== verification/L7Theorems.v ===== *)
(** * The segment store as the L7 workers use it

    [SegmentStore::append] of [SegmentOps] keeps what a producer relies on: a record
    accepted waits behind those accepted before it. *)

From stdpp Require Import strings.
From S2P Require Import Prelude Model Services Text HttpHeader Http HttpTheorems HttpExamples Disk Sink Segment.
From S2P Require Import SegmentStore SegmentOps Matching Matcher MatcherExamples L7.

Section Store.
Context `{SegmentNames} {S : Type}.

Definition queued_record (c : SegmentCommand) : option ContentRecord :=
  match c with Record_ r => Some r | _ => None end.

#[export] Instance segment_content_store : ContentStore (SegmentOps.SegmentStore S) := {
  append_content := SegmentOps.append;
  queued s := omap queued_record (ss_queue s)
}.

#[export] Instance segment_content_store_laws : ContentStoreLaws (SegmentOps.SegmentStore S).
Proof.
  split; intros r c c'; cbn; unfold append, push_command; destruct (writer_running c); intros [= <-]; cbn; [|done].
  by rewrite omap_app.
Qed.
End Store.

(** * What an L7 worker promises

    The calls a worker makes, in order: the shape of their log, the records in
    them, the raw content among them, and the connections the worker keeps. *)

(** ** The log of calls *)

(** Storage first: a record goes to the matcher right after the store has accepted it. *)
Inductive storage_first : list L7Call -> Prop :=
  | sf_nil : storage_first []
  | sf_store r ok l : storage_first l -> storage_first (StoreCall r ok :: l)
  | sf_match r ok l : storage_first l -> storage_first (StoreCall r true :: MatchCall r ok :: l)
  | sf_meta e ok l : storage_first l -> storage_first (MetaCall e ok :: l)
  | sf_close id l : storage_first l -> storage_first (CloseCall id :: l).

Lemma storage_first_app l k : storage_first l -> storage_first k -> storage_first (l ++ k).
Proof.
  intros Hl Hk. induction Hl; cbn; [done|by apply sf_store|by apply sf_match|by apply sf_meta|by apply sf_close].
Qed.

(** A record without its identifier. *)
Definition without_id (r : ContentRecord) : ContentRecord :=
  {| cr_id := 0; cr_flow_id := cr_flow_id r; cr_ts_ns := cr_ts_ns r; cr_service := cr_service r;
     cr_direction := cr_direction r; cr_view := cr_view r; cr_stream_offset := cr_stream_offset r; cr_data := cr_data r |}.

(** The raw content offered to the store. *)
Definition raw_call (c : L7Call) : option ContentRecord :=
  match c with
  | StoreCall r _ => if bool_decide (cr_view r = TcpRaw) then Some (without_id r) else None
  | _ => None
  end.

Definition raw_calls (l : list L7Call) : list ContentRecord := omap raw_call l.

Lemma raw_calls_app l k : raw_calls (l ++ k) = raw_calls l ++ raw_calls k.
Proof. apply omap_app. Qed.

(** The records the store has accepted. *)
Definition stored_call (c : L7Call) : option ContentRecord :=
  match c with StoreCall r true => Some r | _ => None end.

Definition stored_calls (l : list L7Call) : list ContentRecord := omap stored_call l.

Lemma stored_calls_app l k : stored_calls (l ++ k) = stored_calls l ++ stored_calls k.
Proof. apply omap_app. Qed.

Definition matcher_open (g : MatcherIngress) : Prop := shard_txs g <> [].

(** The others make room, or close the queue, while a send waits. *)
Definition makes_room (others : nat -> MatcherIngress -> MatcherIngress) : Prop :=
  forall i work g, (i < length (shard_txs g))%nat ->
    exists accepted g', resume_send i work (others i g) = Some (Done accepted, g') /\ matcher_open g'.

Lemma shard_index_in id (shards : list WorkQueue) :
  shards <> [] -> exists i q, shard_index id shards = Some i /\ shards !! i = Some q.
Proof.
  intros Hne. unfold shard_index. destruct (is_empty shards) eqn:He; [by apply is_empty_spec in He|].
  assert (0 < blen shards) as Hpos by (destruct shards; [done|rewrite blen_cons; pose proof (blen_nonneg shards); lia]).
  pose proof (Z.mod_pos_bound (wrap 64 id) (blen shards) Hpos).
  destruct (shards !! Z.to_nat (wrap 64 id mod blen shards)) as [q|] eqn:Hq; [by eexists _, q|].
  apply lookup_ge_None in Hq. unfold blen in *. lia.
Qed.

Lemma with_queue_open i q x g : matcher_open g -> matcher_open (with_queue i q x g).
Proof. unfold matcher_open. cbn. intros Hg E. apply (f_equal length) in E. rewrite length_insert in E. by destruct (shard_txs g). Qed.

(** The flows open after some events: a chunk opens one, its end closes it. *)
Fixpoint open_after (events : list FlowOutput) (known : FlowId -> Prop) : FlowId -> Prop :=
  match events with
  | [] => known
  | Chunk c :: events => open_after events (fun id => id = ch_flow_id c \/ known id)
  | Snapshot _ :: events => open_after events known
  | Closed s :: events => open_after events (fun id => id <> sm_flow_id s /\ known id)
  end.

Lemma open_after_mono events : forall (P Q : FlowId -> Prop) id,
  (forall id, P id -> Q id) -> open_after events P id -> open_after events Q id.
Proof.
  induction events as [|[c|s|s] events IH]; intros P Q id HPQ; cbn; [apply HPQ|apply IH|by apply IH|apply IH]; naive_solver.
Qed.

Section Spec.
Context `{HttpParse} `{Inflate} {C S : Type} {HC : ContentStore C} {HL : ContentStoreLaws C} `{MetadataSink S}.
Context (new_v4 : nat -> Z) (cfg : HttpConfig) (others : nat -> MatcherIngress -> MatcherIngress).
Context (Hcfg : config_ok cfg) (Hroom : makes_room others).

(** The streams of the flows. *)
Context (T : FlowId -> Direction -> Z -> byte).

Abbreviation World := (L7World C S).

Lemma send_lossless_total r g : matcher_open g -> exists ok g', send_lossless others r g = Some (ok, g') /\ matcher_open g'.
Proof.
  intros Hg. unfold send_lossless, send_content. destruct (prepare_content g r) as [[id work]|]; [|by eexists _, g].
  destruct (shard_index_in id _ Hg) as (i & q & -> & Hq). cbn [mbind option_bind]. rewrite Hq. cbn [mbind option_bind].
  destruct (try_send work q) as [q'| |]; cbn [mbind option_bind].
  - eexists _, _. split; [done|]. by apply with_queue_open.
  - edestruct (Hroom i work) as (ok & g' & -> & Hg'); [|by eexists _, _].
    cbn [with_queue shard_txs]. rewrite length_insert. by eapply lookup_lt_Some.
  - eexists _, _. split; [done|]. by apply with_queue_open.
Qed.

Lemma try_flow_closed_total id g : matcher_open g -> exists ok g', try_flow_closed id g = Some (ok, g') /\ matcher_open g'.
Proof.
  intros Hg. unfold try_flow_closed. destruct (shard_index_in id _ Hg) as (i & q & -> & Hq). cbn [mbind option_bind].
  rewrite Hq. cbn [mbind option_bind]. destruct (try_send _ q); (eexists _, _; split; [done|by apply with_queue_open]).
Qed.

(** ** What a step adds *)

Definition genuine_call (c : L7Call) : Prop :=
  match c with StoreCall r _ | MatchCall r _ => content_of (T (cr_flow_id r)) r | _ => True end.

(** The step from one world to another made these calls, with this raw content. *)
Definition adds (raws : list ContentRecord) (w w' : World) : Prop :=
  exists new, lw_calls w' = lw_calls w ++ new /\ storage_first new /\ Forall genuine_call new /\
    raw_calls new = raws /\ queued (lw_store w') = queued (lw_store w) ++ stored_calls new /\ matcher_open (lw_matcher w').

Lemma adds_trans a b w w1 w2 : adds a w w1 -> adds b w1 w2 -> adds (a ++ b) w w2.
Proof.
  intros (n1 & E1 & S1 & G1 & R1 & Q1 & _) (n2 & E2 & S2 & G2 & R2 & Q2 & M2). exists (n1 ++ n2).
  split; [by rewrite E2, E1, app_assoc|]. split; [by apply storage_first_app|]. split; [by apply Forall_app|].
  split; [by rewrite raw_calls_app, R1, R2|]. split; [by rewrite stored_calls_app, Q2, Q1, app_assoc|done].
Qed.

Lemma adds_none w w' :
  matcher_open (lw_matcher w') -> lw_calls w' = lw_calls w -> lw_store w' = lw_store w -> adds [] w w'.
Proof.
  intros Hm E Q. exists []. split; [by rewrite app_nil_r|]. split; [constructor|]. split; [constructor|].
  split; [done|]. split; [by rewrite Q, app_nil_r|done].
Qed.

Lemma adds_open a w w' : adds a w w' -> matcher_open (lw_matcher w').
Proof. by intros (? & _ & _ & _ & _ & _ & ?). Qed.

Lemma adds_from a w1 w w' : lw_calls w1 = lw_calls w -> lw_store w1 = lw_store w -> adds a w1 w' -> adds a w w'.
Proof. intros E Q (n & E1 & ?). exists n. by rewrite <- E, <- Q. Qed.

Lemma fanout_adds r w :
  matcher_open (lw_matcher w) -> content_of (T (cr_flow_id r)) r ->
  exists w', fanout_content others r w = Some w' /\ adds (if bool_decide (cr_view r = TcpRaw) then [without_id r] else []) w w'.
Proof.
  intros Hm Hr. unfold fanout_content. destruct (append_content r (lw_store w)) as [result store] eqn:Happ.
  assert (queued store = queued (lw_store w) ++ if accepted_ result then [r] else []) as Hq.
  { destruct result as [[]|]; [by apply append_accepted|]. rewrite (append_refused _ _ _ Happ). by rewrite app_nil_r. }
  assert (forall l, raw_calls (StoreCall r (accepted_ result) :: l) =
            (if bool_decide (cr_view r = TcpRaw) then [without_id r] else []) ++ raw_calls l) as Hraw.
  { intros l. unfold raw_calls. cbn. by case_bool_decide. }
  assert (exists w', Some (after_store r (accepted_ result) store w) = Some w' /\
            adds (if bool_decide (cr_view r = TcpRaw) then [without_id r] else []) w w') as Honly.
  { eexists. split; [done|]. exists [StoreCall r (accepted_ result)]. split; [done|]. split; [repeat constructor|].
    split; [by apply Forall_singleton|]. split; [by rewrite Hraw, app_nil_r|].
    split; [|done]. cbn. rewrite Hq. by destruct (accepted_ result). }
  destruct result as [[]|]; [|done].
  destruct (is_interested_view _ _); [|done]. cbn [after_store lw_matcher].
  destruct (send_lossless_total r (lw_matcher w) Hm) as (ok & g & -> & Hg). cbn [mbind option_bind].
  eexists. split; [done|]. exists [StoreCall r true; MatchCall r ok]. cbn [after_match after_store lw_calls lw_matcher].
  split; [by rewrite <- app_assoc|]. split; [apply sf_match, sf_nil|]. split; [apply Forall_cons_2; [done|by apply Forall_singleton]|].
  split; [|split; [exact Hq|done]]. change true with (accepted_ (Ok ())). rewrite Hraw. cbn. by rewrite app_nil_r.
Qed.

(** The stream of a flow, as the specification of the parser wants it. *)
Definition stream_of (id : FlowId) (d : Direction) (o : Z) (b : byte) : Prop := T id d o = b.

Definition event_of (id : FlowId) (e : HttpEmission) : Prop := event_ok (stream_of id) (eq id) e.

Lemma event_records id e r service :
  event_of id e -> r ∈ he_content e -> content_of (T (cr_flow_id (with_service service r))) (with_service service r) /\
  cr_view (with_service service r) <> TcpRaw.
Proof.
  intros [d Hd] Hr. unfold event_genuine in Hd. rewrite Forall_forall in Hd. destruct (Hd r Hr) as (Hdir & Hid & Hv & Hg).
  split; [|done]. unfold content_of. cbn. rewrite <- Hid. destruct Hg as [Hg|Hg]; [by left|]. right. rewrite Hdir. exact Hg.
Qed.

Lemma fanout_all_adds service rs : forall w,
  matcher_open (lw_matcher w) ->
  (forall r, r ∈ rs -> content_of (T (cr_flow_id (with_service service r))) (with_service service r) /\
     cr_view (with_service service r) <> TcpRaw) ->
  exists w', fanout_all others service rs w = Some w' /\ adds [] w w'.
Proof.
  induction rs as [|r rs IH]; intros w Hm Hrs; cbn [fanout_all]; [exists w; split; [done|by apply adds_none]|].
  destruct (Hrs r (list_elem_of_here _ _)) as [Hg Hv].
  destruct (fanout_adds (with_service service r) w Hm Hg) as (w1 & -> & Ha). rewrite bool_decide_eq_false_2 in Ha by done.
  cbn [mbind option_bind]. destruct (IH w1 (adds_open _ _ _ Ha)) as (w2 & -> & Ha2).
  { intros r' Hr'. by apply Hrs, list_elem_of_further. }
  exists w2. split; [done|]. exact (adds_trans _ _ _ _ _ Ha Ha2).
Qed.

Lemma send_meta_adds e w : matcher_open (lw_matcher w) -> adds [] w (send_meta e w).2.
Proof.
  intros Hm. unfold send_meta. destruct (Sink.send e (lw_sink w)) as [result sink]. cbn [snd].
  exists [MetaCall e (accepted_ result)]. split; [done|]. split; [repeat constructor|].
  split; [by apply Forall_singleton|]. split; [done|]. split; [by rewrite app_nil_r|done].
Qed.

Lemma emit_adds id evt service w :
  matcher_open (lw_matcher w) -> event_of id evt ->
  exists w', emit_http_event others evt service w = Some w' /\ adds [] w w'.
Proof.
  intros Hm He. unfold emit_http_event.
  destruct (fanout_all_adds service (he_content evt) w Hm) as (w1 & -> & Ha).
  { intros r Hr. by eapply event_records. }
  cbn [mbind option_bind]. destruct (he_meta evt) as [meta|]; [|by exists w1].
  eexists. split; [done|]. change (@nil ContentRecord) with ([] ++ [] : list ContentRecord). eapply adds_trans; [exact Ha|].
  eapply adds_from; [| |apply send_meta_adds; by eapply adds_open]; done.
Qed.

Lemma emit_events_adds services key id events : forall detected w,
  matcher_open (lw_matcher w) -> Forall (event_of id) events ->
  exists detected' w', emit_events others services key id events detected w = Some (detected', w') /\ adds [] w w' /\
    (forall x, x <> id -> detected' !! x = detected !! x).
Proof.
  induction events as [|evt events IH]; intros detected w Hm He; cbn [emit_events].
  { eexists _, w. split; [done|]. split; [by apply adds_none|done]. }
  apply Forall_cons in He as [He Hes]. cbn [mbind option_bind].
  set (p := match he_request_direction evt with Some _ => _ | None => _ end).
  assert (forall x, x <> id -> p.1 !! x = detected !! x) as Hp.
  { intros x Hx. subst p. destruct (he_request_direction evt); cbn; [by rewrite lookup_insert_ne|done]. }
  destruct p as [d1 service]. destruct (emit_adds id evt service w Hm He) as (w1 & -> & Ha). cbn [mbind option_bind].
  destruct (IH d1 w1 (adds_open _ _ _ Ha) Hes) as (d2 & w2 & -> & Ha2 & Hd2).
  eexists _, _. split; [done|]. split; [exact (adds_trans _ _ _ _ _ Ha Ha2)|]. intros x Hx. rewrite Hd2 by done. by apply Hp.
Qed.

Lemma emit_last_adds id service events : forall w,
  matcher_open (lw_matcher w) -> Forall (event_of id) events ->
  exists w', emit_last others service events w = Some w' /\ adds [] w w'.
Proof.
  induction events as [|evt events IH]; intros w Hm He; cbn [emit_last]; [exists w; split; [done|by apply adds_none]|].
  apply Forall_cons in He as [He Hes]. destruct (emit_adds id evt service w Hm He) as (w1 & -> & Ha). cbn [mbind option_bind].
  destruct (IH w1 (adds_open _ _ _ Ha) Hes) as (w2 & -> & Ha2). exists w2. split; [done|]. exact (adds_trans _ _ _ _ _ Ha Ha2).
Qed.

(** ** Turns *)

(** The connections of the flows are as the parser leaves them. *)
Definition worker_ok (k : L7Worker) : Prop :=
  forall id h, lk_parsers k !! id = Some h -> connection_ok cfg (stream_of id) (eq id) h /\ bounded cfg h.

Definition output_ok (event : FlowOutput) : Prop :=
  match event with
  | Chunk c => chunk_ok (stream_of (ch_flow_id c) (ch_direction c)) (ch_direction c) (eq (ch_flow_id c)) c
  | _ => True
  end.

Lemma chunk_content c services id : output_ok (Chunk c) -> content_of (T (ch_flow_id c)) (raw_record services id c).
Proof. intros [_ _ _ Hd]. right. exact Hd. Qed.

(** The raw content of an event. *)
Definition raw_of (e : ServiceRegistry * FlowOutput) : list ContentRecord :=
  match e.2 with Chunk c => [raw_record e.1 0 c] | _ => [] end.

(** The flows a worker knows of. *)
Definition knows (k : L7Worker) (id : FlowId) : Prop := is_Some (lk_parsers k !! id) \/ is_Some (lk_services k !! id).

Lemma on_chunk_adds services c k w :
  matcher_open (lw_matcher w) -> worker_ok k -> output_ok (Chunk c) ->
  exists k' w', on_chunk new_v4 cfg others services c k w = Some (k', w') /\
    adds (raw_of (services, Chunk c)) w w' /\ worker_ok k' /\ (forall id, knows k' id -> id = ch_flow_id c \/ knows k id).
Proof.
  intros Hm Hk Hc. unfold on_chunk. set (id := ch_flow_id c). set (feed_it := bool_decide _ && _).
  assert (exists events parsers ids errors,
    (if feed_it then
       '(events, errors, parser, ids) ← connection_feed new_v4 cfg (default HttpConnection_new (lk_parsers k !! id)) c (lk_ids k);
       Some (Some events, <[id := parser]> (lk_parsers k), ids, errors)
     else Some (None, lk_parsers k, lk_ids k, 0)) = Some (events, parsers, ids, errors) /\
    (forall x h, parsers !! x = Some h -> connection_ok cfg (stream_of x) (eq x) h /\ bounded cfg h) /\
    (forall x, is_Some (parsers !! x) -> x = id \/ is_Some (lk_parsers k !! x)) /\
    match events with Some events => Forall (event_of id) events | None => True end)
    as (events & parsers & ids & errors & -> & Hps & Hdom & He).
  { destruct feed_it; [|eexists _, _, _, _; split; [done|]; split; [done|]; split; [by right|done]].
    assert (connection_ok cfg (stream_of id) (eq id) (default HttpConnection_new (lk_parsers k !! id)) /\
            bounded cfg (default HttpConnection_new (lk_parsers k !! id))) as [Hco Hbo].
    { destruct (lk_parsers k !! id) as [h|] eqn:Hh; [by apply Hk|]. apply new_connection_ok. }
    destruct (connection_feed_ok new_v4 cfg (stream_of id) (eq id) Hcfg _ c (lk_ids k) Hco Hbo Hc)
      as (ev & er & h' & ids & -> & Hco' & Hbo' & Hev). cbn [mbind option_bind].
    eexists _, _, _, _. split; [done|]. split; [|split; [|done]].
    - intros x h Hx. apply lookup_insert_Some in Hx as [[<- <-]|[_ Hx]]; [done|by apply Hk].
    - intros x [h Hx]. apply lookup_insert_Some in Hx as [[<- _]|[_ Hx]]; [by left|right; by eexists]. }
  cbn [mbind option_bind]. set (w0 := if errors =? 0 then w else _).
  assert (matcher_open (lw_matcher w0) /\ lw_calls w0 = lw_calls w /\ lw_store w0 = lw_store w) as (Hm0 & Hw0 & Hs0)
    by (subst w0; by destruct (errors =? 0)).
  destruct (fanout_adds (raw_record services (new_v4 ids) c) w0 Hm0) as (w1 & -> & Ha); [by apply chunk_content|].
  cbn [mbind option_bind]. rewrite bool_decide_eq_true_2 in Ha by done.
  assert (exists d w2, match events with
      | Some events => emit_events others services (ch_key c) id events (lk_services k) w1
      | None => Some (lk_services k, w1)
      end = Some (d, w2) /\ adds [] w1 w2 /\ (forall x, x <> id -> d !! x = lk_services k !! x)) as (d & w2 & -> & Ha2 & Hd).
  { destruct events as [events|]; [apply emit_events_adds; [by eapply adds_open|done]|].
    eexists _, w1. split; [done|]. split; [apply adds_none; [by eapply adds_open|done|done]|done]. }
  cbn [mbind option_bind]. eexists _, _. split; [done|]. split; [|split; [exact Hps|]].
  - eapply adds_from; [exact Hw0|exact Hs0|]. change (raw_of (services, Chunk c)) with ([raw_record services 0 c] ++ []).
    eapply adds_trans; [exact Ha|exact Ha2].
  - intros x [Hx|Hx]; cbn in Hx.
    + destruct (Hdom x Hx) as [->|Hx']; [by left|right; by left].
    + destruct (decide (x = id)) as [->|Hne]; [by left|]. right. right. by rewrite <- Hd.
Qed.

Lemma on_closed_adds services s k w :
  matcher_open (lw_matcher w) -> worker_ok k ->
  exists ok k' w', on_closed new_v4 cfg others services s k w = Some (ok, k', w') /\ adds [] w w' /\ worker_ok k' /\
    (forall id, knows k' id -> id <> sm_flow_id s /\ knows k id).
Proof.
  intros Hm Hk. unfold on_closed. set (id := sm_flow_id s).
  assert (exists ids w1, match lk_parsers k !! id with
      | None => Some (lk_ids k, w)
      | Some parser => '(events, _, ids) ← connection_finish new_v4 cfg parser (lk_ids k);
                       w ← emit_last others (lk_services k !! id) events w; Some (ids, w)
      end = Some (ids, w1) /\ adds [] w w1) as (ids & w1 & -> & Ha).
  { destruct (lk_parsers k !! id) as [h|] eqn:Hh; [|eexists _, w; split; [done|by apply adds_none]].
    destruct (Hk id h Hh) as [Hco _].
    destruct (connection_finish_ok new_v4 cfg (stream_of id) (eq id) Hcfg h (lk_ids k) Hco) as (ev & h' & ids & -> & Hev).
    cbn [mbind option_bind]. destruct (emit_last_adds id (lk_services k !! id) ev w Hm Hev) as (w1 & -> & Ha).
    cbn [mbind option_bind]. by eexists _, w1. }
  cbn [mbind option_bind]. set (k' := {| lk_parsers := delete id _ |}).
  assert (worker_ok k' /\ forall x, knows k' x -> x <> id /\ knows k x) as [Hk' Hf].
  { split.
    - intros x h Hx. cbn in Hx. apply lookup_delete_Some in Hx as [_ Hx]. by apply Hk.
    - intros x [[h Hx]|[h Hx]]; cbn in Hx; apply lookup_delete_Some in Hx as [Hne Hx];
        (split; [done|]); [left|right]; by eexists. }
  set (e := MetaFlow _). pose proof (send_meta_adds e w1 (adds_open _ _ _ Ha)) as Hs.
  destruct (send_meta e w1) as [ok w2]. cbn [snd] in Hs. pose proof (adds_trans _ _ _ _ _ Ha Hs) as Ha2.
  destruct ok; [|by eexists _, _, _].
  destruct (try_flow_closed_total id (lw_matcher w2) (adds_open _ _ _ Ha2)) as (b & m & -> & Hm'). cbn [mbind option_bind].
  eexists _, _, _. split; [done|]. split; [|done]. change (@nil ContentRecord) with ([] ++ [] : list ContentRecord).
  eapply adds_trans; [exact Ha2|]. exists [CloseCall id]. split; [done|]. split; [repeat constructor|].
  split; [by apply Forall_singleton|]. split; [done|]. split; [by rewrite app_nil_r|done].
Qed.

Lemma turn_adds services event k w :
  matcher_open (lw_matcher w) -> worker_ok k -> output_ok event ->
  exists ok k' w', l7_turn new_v4 cfg others services event k w = Some (ok, k', w') /\
    adds (raw_of (services, event)) w w' /\ worker_ok k' /\ (forall id, knows k' id -> open_after [event] (knows k) id).
Proof.
  intros Hm Hk He. unfold l7_turn. set (w0 := set_lw_metrics _ w).
  assert (matcher_open (lw_matcher w0) /\ lw_calls w0 = lw_calls w) as [Hm0 Hw0] by done.
  destruct event as [c|s|s].
  - destruct (on_chunk_adds services c k w0 Hm0 Hk He) as (k' & w' & -> & Ha & Hk' & Hkn). cbn [mbind option_bind].
    eexists _, _, _. split; [done|]. split; [by eapply adds_from|done].
  - unfold on_snapshot. set (e := MetaFlow _). pose proof (send_meta_adds e w0 Hm0) as Ha.
    destruct (send_meta e w0) as [ok w']. eexists _, _, _. split; [done|]. split; [by eapply adds_from|done].
  - destruct (on_closed_adds services s k w0 Hm0 Hk) as (ok & k' & w' & -> & Ha & Hk' & Hkn).
    eexists _, _, _. split; [done|]. split; [by eapply adds_from|done].
Qed.

(** The loop: all its calls, and how far it came. *)
Lemma loop_adds events : forall k w,
  matcher_open (lw_matcher w) -> worker_ok k -> Forall (fun e => output_ok e.2) events ->
  exists ok k' w' handled, l7_worker_loop new_v4 cfg others events k w = Some (ok, k', w') /\
    handled `prefix_of` events /\ (ok = true -> handled = events) /\
    adds (flat_map raw_of handled) w w' /\ worker_ok k' /\
    (forall id, knows k' id -> open_after (map snd handled) (knows k) id).
Proof.
  induction events as [|[services event] events IH]; intros k w Hm Hk He; cbn [l7_worker_loop].
  { exists true, k, w, []. split; [done|]. split; [done|]. split; [done|]. split; [by apply adds_none|done]. }
  apply Forall_cons in He as [He Hes].
  destruct (turn_adds services event k w Hm Hk He) as (ok & k1 & w1 & -> & Ha & Hk1 & Hkn). cbn [mbind option_bind].
  destruct ok.
  - destruct (IH k1 w1 (adds_open _ _ _ Ha) Hk1 Hes) as (ok & k2 & w2 & handled & -> & Hp & Hall & Ha2 & Hk2 & Hkn2).
    exists ok, k2, w2, ((services, event) :: handled). split; [done|]. split; [by apply prefix_cons|].
    split; [intros Hok; by rewrite (Hall Hok)|]. split; [exact (adds_trans _ _ _ _ _ Ha Ha2)|]. split; [done|].
    intros id Hid. apply Hkn2 in Hid. cbn [map snd].
    destruct event; cbn [open_after] in *; (eapply open_after_mono; [|exact Hid]); exact Hkn.
  - exists false, k1, w1, [(services, event)]. split; [done|]. split; [by apply prefix_cons, prefix_nil|]. split; [done|].
    split; [|split; [done|exact Hkn]]. cbn [flat_map]. by rewrite app_nil_r.
Qed.
End Spec.

(** * Theorems on the L7 workers *)

Section Theorems.
Context `{HttpParse} `{Inflate} {C S : Type} {HC : ContentStore C} {HL : ContentStoreLaws C} `{MetadataSink S}.
Context (new_v4 : nat -> Z) (cfg : HttpConfig) (others : nat -> MatcherIngress -> MatcherIngress).


(** A worker remembers open flows only.  After any events that it has handled it
    has a connection or a service name only of flows that had a chunk and have not
    ended since, and each connection is within the bounds of the parser: what a
    worker holds is bounded by the flows that the flow engine keeps open. *)
Theorem l7_remembers_open_flows T events w :
  config_ok cfg -> makes_room others -> matcher_open (lw_matcher w) ->
  Forall (fun e => output_ok T e.2) events ->
  exists ok k w' handled,
    l7_worker_loop new_v4 cfg others events new_l7_worker w = Some (ok, k, w') /\ handled `prefix_of` events /\
    (ok = true -> handled = events) /\
    (forall id, knows k id -> open_after (map snd handled) (fun _ => False) id) /\
    (forall id h, lk_parsers k !! id = Some h ->
       blen (hc_pending h) <= HTTP_PENDING_REQUEST_LIMIT /\
       (hc_mode h = Http.Http -> blen (buffer (hc_a_to_b h)) <= bound cfg /\ blen (buffer (hc_b_to_a h)) <= bound cfg)).
Proof.
  intros Hcfg Hroom Hm He.
  destruct (loop_adds new_v4 cfg others Hcfg Hroom T events new_l7_worker w Hm) as
    (ok & k & w' & handled & E & Hp & Hall & _ & Hk & Hkn); [|done|].
  { intros id h Hh. cbn in Hh. by rewrite lookup_empty in Hh. }
  exists ok, k, w', handled. split; [done|]. split; [done|]. split; [done|]. split.
  - intros id Hid. apply (open_after_mono _ (knows new_l7_worker)); [|by apply Hkn]. intros x [[? Hx]|[? Hx]]; cbn in Hx; by rewrite lookup_empty in Hx.
  - intros id h Hh. destruct (Hk id h Hh) as [[_ Hl] Hb]. by split.
Qed.
End Theorems.

(** ** Routing *)

(** The sends and receives of a run, and what was sent and received. *)
Record L7Run := { rn_ingress : L7Ingress; rn_sent : list FlowOutput; rn_received : list (nat * FlowOutput) }.

Inductive l7_step : L7Run -> L7Run -> Prop :=
  | step_send r event g :
      l7_send event (rn_ingress r) = Some (L7Sent, g) ->
      l7_step r {| rn_ingress := g; rn_sent := rn_sent r ++ [event]; rn_received := rn_received r |}
  | step_recv r idx event g :
      l7_recv idx (rn_ingress r) = Some (event, g) ->
      l7_step r {| rn_ingress := g; rn_sent := rn_sent r; rn_received := rn_received r ++ [(idx, event)] |}.

Definition of_flow (id : FlowId) (l : list FlowOutput) : list FlowOutput := filter (fun e => output_flow e = id) l.

(** The shard of a flow, by the number of workers. *)
Definition shard_of (n : nat) (id : FlowId) : nat := Z.to_nat (wrap 64 id mod Z.of_nat n).

Record run_ok (n : nat) (r : L7Run) : Prop := {
  ro_length : length (l7_txs (rn_ingress r)) = n;
  ro_capacity q : q ∈ l7_txs (rn_ingress r) -> (length (lq_items q) <= lq_capacity q)%nat;
  ro_route i e : (i, e) ∈ rn_received r -> i = shard_of n (output_flow e);
  ro_queue i q e : l7_txs (rn_ingress r) !! i = Some q -> e ∈ lq_items q -> i = shard_of n (output_flow e);
  ro_order id : of_flow id (rn_sent r) = of_flow id (map snd (rn_received r)) ++
                  match l7_txs (rn_ingress r) !! shard_of n id with Some q => of_flow id (lq_items q) | None => [] end
}.

Lemma l7_shard_of id shards i : l7_shard id shards = Some i -> i = shard_of (length shards) id.
Proof. unfold l7_shard. destruct (is_empty shards); [done|]. by intros [= <-]. Qed.

Lemma of_flow_app id l k : of_flow id (l ++ k) = of_flow id l ++ of_flow id k.
Proof. apply filter_app. Qed.

Lemma of_flow_one id e : of_flow id [e] = if decide (output_flow e = id) then [e] else [].
Proof. unfold of_flow. rewrite filter_cons, filter_nil. by case_decide. Qed.

Lemma send_run_ok n r event g :
  run_ok n r -> l7_send event (rn_ingress r) = Some (L7Sent, g) ->
  run_ok n {| rn_ingress := g; rn_sent := rn_sent r ++ [event]; rn_received := rn_received r |}.
Proof.
  intros [Hlen Hcap Hroute Hqueue Horder]. unfold l7_send.
  destruct (l7_shard (output_flow event) (l7_txs (rn_ingress r))) as [i|] eqn:Hi; cbn [mbind option_bind]; [|done].
  apply l7_shard_of in Hi. rewrite Hlen in Hi.
  destruct (l7_txs (rn_ingress r) !! i) as [q|] eqn:Hq; cbn [mbind option_bind]; [|done].
  destruct (negb (lq_open q)); [done|]. destruct (_ <? lq_capacity q)%nat eqn:Hlt; [|done]. intros [= <-].
  apply Nat.ltb_lt in Hlt. assert (i < n)%nat as Hin by (rewrite <- Hlen; by eapply lookup_lt_Some).
  split; cbn [rn_ingress rn_sent rn_received l7_txs].
  - by rewrite length_insert.
  - intros q' [j Hj]%list_elem_of_lookup. destruct (decide (i = j)) as [<-|Hne].
    + rewrite list_lookup_insert_eq in Hj by lia. injection Hj as <-. cbn. rewrite length_app. cbn. lia.
    + rewrite list_lookup_insert_ne in Hj by done. apply Hcap, list_elem_of_lookup. by exists j.
  - exact Hroute.
  - intros j q' e Hj He. destruct (decide (i = j)) as [<-|Hne].
    + rewrite list_lookup_insert_eq in Hj by lia. injection Hj as <-. cbn in He.
      apply elem_of_app in He as [He|He%list_elem_of_singleton]; [by eapply Hqueue|by subst e].
    + rewrite list_lookup_insert_ne in Hj by done. by eapply Hqueue.
  - intros id. rewrite of_flow_app, Horder, <- app_assoc. f_equal. rewrite of_flow_one.
    destruct (decide (i = shard_of n id)) as [<-|Hne].
    + rewrite list_lookup_insert_eq by lia. rewrite Hq. cbn [lq_items]. by rewrite of_flow_app, of_flow_one.
    + rewrite list_lookup_insert_ne by done. rewrite decide_False; [by rewrite app_nil_r|]. intros E. apply Hne. by rewrite <- E.
Qed.

Lemma recv_run_ok n r idx event g :
  run_ok n r -> l7_recv idx (rn_ingress r) = Some (event, g) ->
  run_ok n {| rn_ingress := g; rn_sent := rn_sent r; rn_received := rn_received r ++ [(idx, event)] |}.
Proof.
  intros [Hlen Hcap Hroute Hqueue Horder]. unfold l7_recv.
  destruct (l7_txs (rn_ingress r) !! idx) as [q|] eqn:Hq; cbn [mbind option_bind]; [|done].
  destruct (lq_items q) as [|e rest] eqn:Hitems; [done|]. intros [= <- <-].
  assert (idx < n)%nat as Hin by (rewrite <- Hlen; by eapply lookup_lt_Some).
  assert (idx = shard_of n (output_flow e)) as Hroute_e by (eapply Hqueue; [exact Hq|rewrite Hitems; apply list_elem_of_here]).
  split; cbn [rn_ingress rn_sent rn_received l7_txs].
  - by rewrite length_insert.
  - intros q' [j Hj]%list_elem_of_lookup. destruct (decide (idx = j)) as [<-|Hne].
    + rewrite list_lookup_insert_eq in Hj by lia. injection Hj as <-. cbn.
      assert (length (lq_items q) <= lq_capacity q)%nat as Hc by (apply Hcap, list_elem_of_lookup; by exists idx).
      rewrite Hitems in Hc. cbn in Hc. lia.
    + rewrite list_lookup_insert_ne in Hj by done. apply Hcap, list_elem_of_lookup. by exists j.
  - intros i x [Hx|Hx%list_elem_of_singleton]%elem_of_app; [by apply Hroute|]. by injection Hx as -> ->.
  - intros j q' x Hj Hx. destruct (decide (idx = j)) as [<-|Hne].
    + rewrite list_lookup_insert_eq in Hj by lia. injection Hj as <-. cbn in Hx.
      eapply Hqueue; [exact Hq|]. rewrite Hitems. by apply list_elem_of_further.
    + rewrite list_lookup_insert_ne in Hj by done. by eapply Hqueue.
  - intros id. rewrite map_app, of_flow_app, Horder, <- app_assoc. f_equal. cbn [map snd]. rewrite of_flow_one.
    destruct (decide (idx = shard_of n id)) as [<-|Hne].
    + rewrite list_lookup_insert_eq by lia. rewrite Hq, Hitems. cbn [lq_items].
      change (e :: rest) with ([e] ++ rest). by rewrite of_flow_app, of_flow_one.
    + rewrite list_lookup_insert_ne by done. rewrite decide_False; [done|]. intros E. apply Hne. by rewrite <- E.
Qed.

(** The outputs of a flow reach one worker, all of them, in the order in which they
    were sent, whatever the other flows do: what its worker has received of it,
    followed by what waits in the queue of that worker, is what was sent; no other
    worker gets any of it; and no queue exceeds its share of the capacity. *)
Theorem flows_keep_their_order l7_workers capacity metrics r id :
  rtc l7_step {| rn_ingress := spawn_l7 l7_workers capacity metrics; rn_sent := []; rn_received := [] |} r ->
  let n := Nat.max l7_workers 1 in
  of_flow id (rn_sent r) = of_flow id (map snd (rn_received r)) ++
    match l7_txs (rn_ingress r) !! shard_of n id with Some q => of_flow id (lq_items q) | None => [] end /\
  (forall i e, (i, e) ∈ rn_received r -> i = shard_of n (output_flow e)) /\
  (forall q, q ∈ l7_txs (rn_ingress r) -> (length (lq_items q) <= lq_capacity q)%nat).
Proof.
  intros Hrun n. enough (run_ok n r) as [Hlen Hcap Hroute _ Horder] by (split; [apply Horder|done]).
  assert (run_ok n {| rn_ingress := spawn_l7 l7_workers capacity metrics; rn_sent := []; rn_received := [] |}) as H0.
  { split; cbn [rn_ingress rn_sent rn_received spawn_l7 l7_txs].
    - apply length_replicate.
    - intros q [-> _]%elem_of_replicate. cbn. lia.
    - intros i e He. by apply elem_of_nil in He.
    - intros i q e [-> _]%lookup_replicate He. by apply elem_of_nil in He.
    - intros x. destruct (_ !! shard_of n x) as [q|] eqn:Hq; [|done]. by apply lookup_replicate in Hq as [-> _]. }
  induction Hrun as [r|r r1 r2 Hs _ IH]; [done|]. apply IH. inversion Hs; subst; [by eapply send_run_ok|by eapply recv_run_ok].
Qed.

(** * The L7 workers on a concrete connection

    The request of [HttpExamples] in pieces through a worker whose matcher has a
    rule for raw content and a queue that is full. *)

#[local] Existing Instances Naive.engines HttpExamples.ex_parse HttpExamples.ex_inflate.

(** A store that accepts everything. *)
#[local] Instance list_store : ContentStore (list ContentRecord) :=
  {| append_content r l := (Ok tt, l ++ [r]); queued l := l |}.

#[local] Instance list_store_laws : ContentStoreLaws (list ContentRecord).
Proof. split; [by intros r c c' [= <-]|by intros r c c']. Qed.

(** A sink that accepts everything and says nothing about rows. *)
#[local] Instance list_sink : MetadataSink (list MetadataEvent) :=
  {| send e l := (Ok tt, l ++ [e]); durable_barrier l := (Ok tt, l); sink_ok _ := True; rows_sent _ := []; rows_durable _ := [] |}.

(** The worker of the matcher takes everything out of the queue. *)
Definition drain (i : nat) (g : MatcherIngress) : MatcherIngress :=
  with_queue i {| wq_items := []; wq_capacity := 1; wq_open := true |} (in_metrics g) g.

Lemma drain_makes_room : makes_room drain.
Proof.
  intros i work g Hi. unfold resume_send, drain. cbn [with_queue shard_txs]. rewrite list_lookup_insert_eq by done.
  cbn. eexists _, _. split; [done|]. unfold matcher_open. cbn. intros E. apply (f_equal length) in E.
  rewrite !length_insert in E. cbn in E. lia.
Qed.

Definition quiet : MatchMetrics :=
  {| match_queue_depth := 0; match_queue_high_watermark := 0; matcher_queue_backpressure := 0; matcher_queue_drops := 0;
     matcher_housekeeping_drops := 0; matcher_bytes := 0; matcher_matches := 0; matcher_match_limit_events := 0 |}.

Definition no_l7 : L7Metrics :=
  {| l7_queue_depth := 0; l7_queue_high_watermark := 0; l7_queue_capacity := 0; http_parse_errors := 0; http_requests := 0;
     http_responses := 0 |}.

Definition ex_world : L7World (list ContentRecord) (list MetadataEvent) :=
  {| lw_store := []; lw_sink := [];
     lw_matcher := {| shard_txs := [{| wq_items := [FlowClosed 9]; wq_capacity := 1; wq_open := true |}];
                      in_interest_mask := interest_mask MatcherExamples.ex_set; in_active := MatcherExamples.ex_set;
                      in_generation := 1; in_metrics := quiet |};
     lw_metrics := no_l7; lw_calls := [] |}.

Definition web : ServiceConfig :=
  {| sc_port := 80; sc_name := bytes_of "web"; sc_http := true; sc_urldecode_http_requests := false;
     sc_merge_adjacent_packets := false; sc_parse_websockets := false |}.

Definition ex_summary : FlowSummary :=
  {| sm_flow_id := 1; sm_started_at := 0; sm_ended_at := 9; sm_src_ip := V4 []; sm_dst_ip := V4 []; sm_src_port := 5000;
     sm_dst_port := 80; sm_protocol := Tcp; sm_service := None; sm_packets_c2s := 3; sm_packets_s2c := 0; sm_bytes_c2s := 22;
     sm_bytes_s2c := 0; sm_truncated := false |}.

Definition ex_outputs : list (ServiceRegistry * FlowOutput) :=
  map (fun e => (ServiceRegistry_new [web], e)) (map Chunk HttpExamples.ex_pieces ++ [Closed ex_summary]).

Definition ex_streams (id : FlowId) : Direction -> Z -> byte := HttpExamples.ex_stream.

Lemma ex_outputs_ok : Forall (fun e => output_ok ex_streams e.2) ex_outputs.
Proof.
  unfold ex_outputs, HttpExamples.ex_pieces. cbn [map app].
  repeat apply Forall_cons_2; [by apply ex_piece_ok; vm_compute..|done|apply Forall_nil_2].
Qed.

(** The request in three pieces: three raw records and three of HTTP are stored,
    the flow's summary and the request go to the metadata writer, and the worker has
    forgotten the flow. *)
Example request_through_worker :
  match l7_worker_loop Z.of_nat HttpExamples.ex_http drain ex_outputs new_l7_worker ex_world with
  | Some (ok, k, w) =>
      ok = true /\ map cr_view (lw_store w) = [TcpRaw; TcpRaw; HttpRequestHeaders; HttpRequestBody; TcpRaw; HttpRequestBody] /\
      map cr_service (lw_store w) = replicate 6 (Some (bytes_of "web")) /\
      length (lw_sink w) = 2%nat /\ lk_parsers k !! 1 = None /\ http_requests (lw_metrics w) = 1
  | None => False
  end.
Proof. by vm_compute. Qed.


Lemma l7_remembers_open_flows_witness :
  exists ok k w' handled,
    l7_worker_loop Z.of_nat HttpExamples.ex_http drain ex_outputs new_l7_worker ex_world = Some (ok, k, w') /\
    handled `prefix_of` ex_outputs /\ (ok = true -> handled = ex_outputs) /\
    (forall id, knows k id -> open_after (map snd handled) (fun _ => False) id) /\
    (forall id h, lk_parsers k !! id = Some h ->
       blen (hc_pending h) <= HTTP_PENDING_REQUEST_LIMIT /\
       (hc_mode h = Http.Http ->
          blen (buffer (hc_a_to_b h)) <= bound HttpExamples.ex_http /\ blen (buffer (hc_b_to_a h)) <= bound HttpExamples.ex_http)).
Proof.
  apply (l7_remembers_open_flows Z.of_nat HttpExamples.ex_http drain ex_streams ex_outputs ex_world);
    [split; by vm_compute|apply drain_makes_room|done|apply ex_outputs_ok].
Defined.

(** Two flows of two workers: 6 goes to the first, 7 to the second. *)
Definition two_workers : L7Ingress := spawn_l7 2 8 no_l7.

Definition snapshot_of (id : FlowId) : FlowOutput :=
  Snapshot {| sm_flow_id := id; sm_started_at := 0; sm_ended_at := 9; sm_src_ip := V4 []; sm_dst_ip := V4 []; sm_src_port := 1;
     sm_dst_port := 2; sm_protocol := Udp; sm_service := None; sm_packets_c2s := 0; sm_packets_s2c := 0; sm_bytes_c2s := 0;
     sm_bytes_s2c := 0; sm_truncated := false |}.

Definition after_send (e : FlowOutput) (g : L7Ingress) : L7Ingress := match l7_send e g with Some (_, g) => g | None => g end.
Definition after_recv (i : nat) (g : L7Ingress) : L7Ingress := match l7_recv i g with Some (_, g) => g | None => g end.

Definition g1 : L7Ingress := after_send (snapshot_of 6) two_workers.
Definition g2 : L7Ingress := after_send (snapshot_of 7) g1.
Definition g3 : L7Ingress := after_recv 1 g2.

Lemma flows_keep_their_order_witness :
  let r := {| rn_ingress := g3; rn_sent := [snapshot_of 6; snapshot_of 7]; rn_received := [(1%nat, snapshot_of 7)] |} in
  rtc l7_step {| rn_ingress := two_workers; rn_sent := []; rn_received := [] |} r /\
  of_flow 6 (rn_sent r) = of_flow 6 (map snd (rn_received r)) ++
    match l7_txs (rn_ingress r) !! shard_of 2 6 with Some q => of_flow 6 (lq_items q) | None => [] end.
Proof.
  cbn zeta. match goal with |- ?P /\ _ => assert P as Hrun end.
  { eapply rtc_l; [by apply (step_send _ (snapshot_of 6) g1); vm_compute|].
    eapply rtc_l; [by apply (step_send _ (snapshot_of 7) g2); vm_compute|].
    eapply rtc_l; [by apply (step_recv _ 1 (snapshot_of 7) g3); vm_compute|]. apply rtc_refl. }
  split; [exact Hrun|]. exact (proj1 (flows_keep_their_order 2 8 no_l7 _ 6 Hrun)).
Defined.
