(* ===== verification/Replay.v ===== *)
(** * Replay jobs ([src/src/replay/mod.rs])

    Jobs over frozen sets of segments in the database, their recovery at start-up,
    and the threads of one run: a main thread that sends the records of the
    segments to workers and commits segment by segment, the workers with a scanner
    each, and the collector that sends the matches to the metadata writer.  The
    database is a class; the run is a system of steps. *)

From stdpp Require Import strings sorting.
From S2P Require Import Prelude Model Services Text Disk Sink Segment SegmentStore SegmentOps Matching Matcher.

(** ** Jobs *)

Inductive JobStatus := JobQueued | JobRunning | JobCompleted | JobFailed.

(** A job; its paths are kept as paths, their text is [path_string]. *)
Record ReplayJob := {
  rj_id : Z;
  rj_pattern_ids : list Z;
  rj_pattern_revisions : list (Z * Z);
  rj_segment_cutoff : option string;
  rj_segment_paths : list Path;
  rj_status : JobStatus;
  rj_created_at : Z;
  rj_segments_total : Z;
  rj_segments_done : Z;
  rj_bytes_processed : Z;
  rj_matches_found : Z
}.

(** [i64::saturating_add]. *)
Definition saturating_add_i64 (x y : Z) : Z := Z.max (- 2 ^ 63) (Z.min (x + y) (2 ^ 63 - 1)).

Record ReplayProgress := { segments_done : Z; bytes_processed : Z; matches_found : Z }.

(** A new job: its patterns and paths are frozen. *)
Definition frozen_job (id now : Z) (patterns : list PatternRevision) (paths : list Path) : ReplayJob :=
  {| rj_id := id; rj_pattern_ids := map pr_id patterns;
     rj_pattern_revisions := map (fun p => (pr_id p, pr_revision p)) patterns;
     rj_segment_cutoff := path_string <$> list.last paths; rj_segment_paths := paths; rj_status := JobQueued;
     rj_created_at := now; rj_segments_total := blen paths; rj_segments_done := 0; rj_bytes_processed := 0;
     rj_matches_found := 0 |}.

(** The statements on the tables of jobs and patterns. *)
Class JobDb (D : Type) := {
  list_replay_jobs : Z -> Eff D (list ReplayJob);
  create_replay_job : list PatternRevision -> list Path -> Eff D ReplayJob;
  update_replay_progress : Z -> JobStatus -> ReplayProgress -> Eff D unit;
  pattern_revision : Z -> Z -> Eff D (option PatternRevision);
  latest_pattern : Z -> Eff D (option PatternRevision)
}.

Definition job_progress (job : ReplayJob) : ReplayProgress :=
  {| segments_done := rj_segments_done job; bytes_processed := rj_bytes_processed job;
     matches_found := rj_matches_found job |}.

Section Jobs.
Context `{Crc32} `{SegmentNames} `{Canonicalize} {S : Type} `{MetadataSink S} {D : Type} `{JobDb D}.

Fixpoint revisions_of (refs : list (Z * Z)) (out : list PatternRevision) : Eff D (list PatternRevision) :=
  match refs with
  | [] => mret out
  | (id, revision) :: refs =>
      found ← pattern_revision id revision;
      match found with Some p => revisions_of refs (out ++ [p]) | None => bail end
  end.

Fixpoint latest_of (ids : list Z) (out : list PatternRevision) : Eff D (list PatternRevision) :=
  match ids with
  | [] => mret out
  | id :: ids => found ← latest_pattern id; latest_of ids (out ++ option_list found)
  end.

Definition recover_job_patterns (job : ReplayJob) : Eff D (list PatternRevision) :=
  if negb (is_empty (rj_pattern_revisions job)) then revisions_of (rj_pattern_revisions job) []
  else latest_of (rj_pattern_ids job) [].

(** The paths of a job from before paths were frozen. *)
Definition legacy_paths (job : ReplayJob) (paths : list Path) : list Path :=
  match rj_segment_cutoff job with
  | Some cutoff => filter (fun p => name_le (path_string p) cutoff) paths
  | None => if 0 <=? rj_segments_total job then take (Z.to_nat (rj_segments_total job)) paths else paths
  end.

Definition path_exists (d : Disk) (p : Path) : bool := bool_decide (is_Some (files d !! p)).

Definition replay_paths_for_job (job : ReplayJob) : Eff (SegmentStore S) (list Path) :=
  paths ← (if negb (is_empty (rj_segment_paths job)) then mret (rj_segment_paths job)
           else legacy ← segment_paths; mret (legacy_paths job legacy));
  d ← reads store_disk;
  let missing := blen (filter (fun p => path_exists d p = false) paths) in
  if negb (missing =? 0) || (blen paths <? wrap 64 (rj_segments_total job)) then bail
  else mret (drop (Z.to_nat (Z.max (rj_segments_done job) 0)) (take (Z.to_nat (Z.max (rj_segments_total job) 0)) paths)).

(** What the run of a job shows its task: the progress received while it ran and
    that found afterwards, its result, and whether a shutdown was asked for. *)
Record RunReport := {
  rr_received : list ReplayProgress;
  rr_drained : list ReplayProgress;
  rr_result : Result unit;
  rr_shutdown : bool
}.

Fixpoint note_progress (id : Z) (ps : list ReplayProgress) : Eff D unit :=
  match ps with
  | [] => mret tt
  | p :: ps => _ ← ignore (update_replay_progress id JobRunning p); note_progress id ps
  end.

Definition last_progress (job : ReplayJob) (r : RunReport) : ReplayProgress :=
  List.last (rr_received r ++ rr_drained r) (job_progress job).

Definition execute_job (job : ReplayJob) (run : RunReport) : Eff D unit :=
  _ ← update_replay_progress (rj_id job) JobRunning (job_progress job);
  _ ← note_progress (rj_id job) (rr_received run);
  let last := last_progress job run in
  if rr_shutdown run then update_replay_progress (rj_id job) JobQueued last
  else match rr_result run with
       | Ok _ => update_replay_progress (rj_id job) JobCompleted last
       | Err => _ ← update_replay_progress (rj_id job) JobFailed last; bail
       end.

(** ** The scheduler *)

Abbreviation World := (D * SegmentStore S)%type.

Definition db {A} (m : Eff D A) : Eff World A := focus fst (fun d w => (d, w.2)) m.
Definition store_io {A} (m : Eff (SegmentStore S) A) : Eff World A := focus snd (fun s w => (w.1, s)) m.

(** The run of a job is given by what it reports. *)
Context (run : ReplayJob -> list PatternRevision -> list Path -> RunReport).

Definition fail_job (job : ReplayJob) : Eff World unit :=
  ignore (db (update_replay_progress (rj_id job) JobFailed (job_progress job))).

Definition recover_job (job : ReplayJob) : Eff World unit :=
  patterns ← attempt (db (recover_job_patterns job));
  match patterns with
  | Ok (p :: ps) =>
      paths ← attempt (store_io (replay_paths_for_job job));
      match paths with
      | Ok paths => ignore (db (execute_job job (run job (p :: ps) paths)))
      | Err => fail_job job
      end
  | Ok [] | Err => fail_job job
  end.

Definition older (a b : ReplayJob) : Prop := rj_created_at a <= rj_created_at b.

#[export] Instance older_dec a b : Decision (older a b).
Proof. unfold older. apply _. Defined.

Definition unfinished (job : ReplayJob) : bool :=
  match rj_status job with JobQueued | JobRunning => true | JobCompleted | JobFailed => false end.

(** The jobs in order, until a shutdown is seen. *)
Fixpoint recover_jobs (jobs : list (ReplayJob * bool)) : Eff World unit :=
  match jobs with
  | [] => mret tt
  | (job, shutdown) :: jobs => if shutdown : bool then mret tt else _ ← recover_job job; recover_jobs jobs
  end.

(** [shutdown n]: what the flag is before the [n]th of them. *)
Definition recover_all (shutdown : nat -> bool) : Eff World unit :=
  found ← attempt (db (list_replay_jobs 1000));
  match found with
  | Ok jobs =>
      let jobs := filter (fun j => unfinished j = true) (merge_sort older jobs) in
      recover_jobs (zip jobs (map shutdown (seq 0 (length jobs))))
  | Err => mret tt
  end.

(** One batch of patterns that were created together. *)
Definition schedule_batch (patterns : list PatternRevision) : Eff World unit :=
  let patterns := filter (fun p => pr_enabled p = true) patterns in
  if is_empty patterns then mret tt
  else
    paths ← attempt (store_io snapshot_for_replay);
    match paths with
    | Err => mret tt
    | Ok paths =>
        job ← attempt (db (create_replay_job patterns paths));
        match job with
        | Err => mret tt
        | Ok job => ignore (db (execute_job job (run job patterns paths)))
        end
    end.
End Jobs.

(** ** A run *)

(** What a scan of a segment delivers, and whether it ended well. *)
Record RunSegment := { sg_bytes : Z; sg_records : list ContentRecord; sg_ok : bool }.

Definition keep_record (r : ContentRecord) : Eff (list ContentRecord) unit := modify (fun l => l ++ [r]).

Definition segment_of `{Crc32} (max_record_bytes : Z) (data : bytes) : RunSegment :=
  let '(r, l) := scan_file (fun _ => keep_record) max_record_bytes data [] in
  {| sg_bytes := blen data; sg_records := l; sg_ok := match r with Ok _ => true | Err => false end |}.

(** A segment as a run finds it; a missing file has no length and cannot be read. *)
Definition segment_at `{Crc32} (max_record_bytes : Z) (d : Disk) (p : Path) : RunSegment :=
  match files d !! p with
  | Some f => segment_of max_record_bytes (content f)
  | None => {| sg_bytes := 0; sg_records := []; sg_ok := false |}
  end.

Inductive ReplayWork := WorkRecord (r : ContentRecord) | WorkBarrier.
Inductive ReplayHit := HitMatch (h : MatchRecord) | HitBarrier.

Definition WORK_CAPACITY : Z := 4096.
Definition HIT_CAPACITY : Z := 16384.

Inductive WorkerEnd := StillRunning | Returned (ok : bool) | Panicked.

(** A worker: its channel, its scanner, the matches it still has to send, and, for
    the proofs, whether it has answered the barrier of the segment in hand, the
    records it has scanned and the matches it has sent. *)
Record RunWorker := {
  rw_queue : list ReplayWork;
  rw_scanner : ReplayScanner;
  rw_outbox : list MatchRecord;
  rw_end : WorkerEnd;
  rw_acked : bool;
  rw_seen : list ContentRecord;
  rw_sent : list MatchRecord
}.

(** Where the main thread is; the segment in hand goes along. *)
Inductive MainAt :=
  | AtPath
  | Scanning (rest : list ContentRecord) (seg : RunSegment)
  | Sending (r : ContentRecord) (rest : list ContentRecord) (seg : RunSegment)
  | SendBarriers (next : nat) (seg : RunSegment)
  | AwaitAcks (left : nat) (seg : RunSegment)
  | SendHitBarrier (seg : RunSegment)
  | AwaitHits (seg : RunSegment)
  | Commit (matches : Z) (seg : RunSegment)
  | Joining (next : nat)
  | JoinCollector
  | FinalBarrier
  | Finished (r : Result unit).

(** The main thread: what is left to scan, its counts, the progress it has sent
    and, for the proofs, the segments committed and the records sent. *)
Record MainThread := {
  mt_at : MainAt;
  mt_todo : list RunSegment;
  mt_bytes : Z;
  mt_done : Z;
  mt_progress : list ReplayProgress;
  mt_committed : list RunSegment;
  mt_records : list ContentRecord
}.

(** The collector: its count and, for the proofs, the matches it has sent on. *)
Record Collector := { co_running : bool; co_matches : Z; co_ack : option Z; co_sent : list MatchRecord }.

Record RunState (S : Type) := {
  rs_main : MainThread;
  rs_workers : list RunWorker;
  rs_acks : nat;
  rs_hits : list ReplayHit;
  rs_collector : Collector;
  rs_sink : S;
  rs_shutdown : bool
}.
Arguments rs_main {S} r.
Arguments rs_workers {S} r.
Arguments rs_acks {S} r.
Arguments rs_hits {S} r.
Arguments rs_collector {S} r.
Arguments rs_sink {S} r.
Arguments rs_shutdown {S} r.

Definition set_at (a : MainAt) (m : MainThread) : MainThread :=
  {| mt_at := a; mt_todo := mt_todo m; mt_bytes := mt_bytes m; mt_done := mt_done m; mt_progress := mt_progress m;
     mt_committed := mt_committed m; mt_records := mt_records m |}.

Definition take_segment (seg : RunSegment) (todo : list RunSegment) (m : MainThread) : MainThread :=
  {| mt_at := Scanning (sg_records seg) seg; mt_todo := todo; mt_bytes := mt_bytes m; mt_done := mt_done m;
     mt_progress := mt_progress m; mt_committed := mt_committed m; mt_records := mt_records m |}.

Definition record_sent (r : ContentRecord) (rest : list ContentRecord) (seg : RunSegment) (m : MainThread) : MainThread :=
  {| mt_at := Scanning rest seg; mt_todo := mt_todo m; mt_bytes := mt_bytes m; mt_done := mt_done m;
     mt_progress := mt_progress m; mt_committed := mt_committed m; mt_records := mt_records m ++ [r] |}.

Definition set_queue (q : list ReplayWork) (w : RunWorker) : RunWorker :=
  {| rw_queue := q; rw_scanner := rw_scanner w; rw_outbox := rw_outbox w; rw_end := rw_end w; rw_acked := rw_acked w;
     rw_seen := rw_seen w; rw_sent := rw_sent w |}.

Definition set_acked (b : bool) (w : RunWorker) : RunWorker :=
  {| rw_queue := rw_queue w; rw_scanner := rw_scanner w; rw_outbox := rw_outbox w; rw_end := rw_end w; rw_acked := b;
     rw_seen := rw_seen w; rw_sent := rw_sent w |}.

Definition set_end (e : WorkerEnd) (w : RunWorker) : RunWorker :=
  {| rw_queue := rw_queue w; rw_scanner := rw_scanner w; rw_outbox := rw_outbox w; rw_end := e; rw_acked := rw_acked w;
     rw_seen := rw_seen w; rw_sent := rw_sent w |}.

Definition scanned (r : ContentRecord) (q : list ReplayWork) (o : ScanOutcome) (s : ReplayScanner) (w : RunWorker) : RunWorker :=
  {| rw_queue := q; rw_scanner := s; rw_outbox := hits o; rw_end := rw_end w; rw_acked := rw_acked w;
     rw_seen := rw_seen w ++ [r]; rw_sent := rw_sent w |}.

Definition sent_hit (h : MatchRecord) (rest : list MatchRecord) (w : RunWorker) : RunWorker :=
  {| rw_queue := rw_queue w; rw_scanner := rw_scanner w; rw_outbox := rest; rw_end := rw_end w; rw_acked := rw_acked w;
     rw_seen := rw_seen w; rw_sent := rw_sent w ++ [h] |}.

Section Run.
Context `{Engines} {S : Type} `{MetadataSink S}.

Abbreviation State := (RunState S).

Definition set_main (m : MainThread) (s : State) : State :=
  {| rs_main := m; rs_workers := rs_workers s; rs_acks := rs_acks s; rs_hits := rs_hits s; rs_collector := rs_collector s;
     rs_sink := rs_sink s; rs_shutdown := rs_shutdown s |}.
Definition goto (a : MainAt) (s : State) : State := set_main (set_at a (rs_main s)) s.
Definition set_worker (i : nat) (w : RunWorker) (s : State) : State :=
  {| rs_main := rs_main s; rs_workers := <[i := w]> (rs_workers s); rs_acks := rs_acks s; rs_hits := rs_hits s;
     rs_collector := rs_collector s; rs_sink := rs_sink s; rs_shutdown := rs_shutdown s |}.
Definition set_acks (n : nat) (s : State) : State :=
  {| rs_main := rs_main s; rs_workers := rs_workers s; rs_acks := n; rs_hits := rs_hits s; rs_collector := rs_collector s;
     rs_sink := rs_sink s; rs_shutdown := rs_shutdown s |}.
Definition set_hits (l : list ReplayHit) (s : State) : State :=
  {| rs_main := rs_main s; rs_workers := rs_workers s; rs_acks := rs_acks s; rs_hits := l; rs_collector := rs_collector s;
     rs_sink := rs_sink s; rs_shutdown := rs_shutdown s |}.
Definition set_collector (c : Collector) (s : State) : State :=
  {| rs_main := rs_main s; rs_workers := rs_workers s; rs_acks := rs_acks s; rs_hits := rs_hits s; rs_collector := c;
     rs_sink := rs_sink s; rs_shutdown := rs_shutdown s |}.
Definition set_rs_sink (k : S) (s : State) : State :=
  {| rs_main := rs_main s; rs_workers := rs_workers s; rs_acks := rs_acks s; rs_hits := rs_hits s;
     rs_collector := rs_collector s; rs_sink := k; rs_shutdown := rs_shutdown s |}.
Definition ask_shutdown (s : State) : State :=
  {| rs_main := rs_main s; rs_workers := rs_workers s; rs_acks := rs_acks s; rs_hits := rs_hits s;
     rs_collector := rs_collector s; rs_sink := rs_sink s; rs_shutdown := true |}.

Definition running (w : RunWorker) : bool := match rw_end w with StillRunning => true | _ => false end.

(** [flow_id as usize % txs.len()]. *)
Definition work_shard (n : nat) (r : ContentRecord) : nat := Z.to_nat (wrap 64 (cr_flow_id r) mod Z.of_nat n).

(** The senders the main thread holds: of the workers until they are joined, of
    the collector until it is. *)
Definition txs_open (a : MainAt) : bool :=
  match a with Joining _ | JoinCollector | FinalBarrier | Finished _ => false | _ => true end.
Definition hit_tx_open (a : MainAt) : bool :=
  match a with JoinCollector | FinalBarrier | Finished _ => false | _ => true end.

Definition push_work (x : ReplayWork) (w : RunWorker) : RunWorker := set_queue (rw_queue w ++ [x]) w.

(** A commit: the counts, and the progress of it. *)
Definition commit (initial_matches matches : Z) (seg : RunSegment) (m : MainThread) : MainThread :=
  let bytes := mt_bytes m + sg_bytes seg in
  let done := mt_done m + 1 in
  {| mt_at := AtPath; mt_todo := mt_todo m; mt_bytes := bytes; mt_done := done;
     mt_progress := mt_progress m ++ [{| segments_done := done; bytes_processed := bytes; matches_found := saturating_add_i64 initial_matches matches |}];
     mt_committed := mt_committed m ++ [seg]; mt_records := mt_records m |}.

Definition finish_run (initial_matches matches : Z) (m : MainThread) : MainThread :=
  {| mt_at := Finished (Ok tt); mt_todo := mt_todo m; mt_bytes := mt_bytes m; mt_done := mt_done m;
     mt_progress := mt_progress m ++ [{| segments_done := mt_done m; bytes_processed := mt_bytes m;
                                         matches_found := saturating_add_i64 initial_matches matches |}];
     mt_committed := mt_committed m; mt_records := mt_records m |}.

Definition start_worker (scanner : ReplayScanner) : RunWorker :=
  {| rw_queue := []; rw_scanner := scanner; rw_outbox := []; rw_end := StillRunning; rw_acked := false; rw_seen := [];
     rw_sent := [] |}.

(** A run of [n] workers over segments, from the progress of its job on. *)
Definition start_run (n : nat) (scanner : ReplayScanner) (initial : ReplayProgress) (segs : list RunSegment) (sink : S) : State :=
  {| rs_main := {| mt_at := AtPath; mt_todo := segs; mt_bytes := bytes_processed initial; mt_done := segments_done initial;
                   mt_progress := []; mt_committed := []; mt_records := [] |};
     rs_workers := replicate (Nat.max n 1) (start_worker scanner); rs_acks := 0; rs_hits := [];
     rs_collector := {| co_running := true; co_matches := 0; co_ack := None; co_sent := [] |};
     rs_sink := sink; rs_shutdown := false |}.

(** What others may do to the metadata sink meanwhile. *)
Context (others : S -> S -> Prop) (initial_matches : Z).

Inductive main_step (s : State) : State -> Prop :=
  | m_shutdown : mt_at (rs_main s) = AtPath -> rs_shutdown s = true -> main_step s (goto (Joining 0) s)
  | m_no_more : mt_at (rs_main s) = AtPath -> mt_todo (rs_main s) = [] -> main_step s (goto (Joining 0) s)
  | m_next seg todo : mt_at (rs_main s) = AtPath -> rs_shutdown s = false -> mt_todo (rs_main s) = seg :: todo ->
      main_step s (set_main (take_segment seg todo (rs_main s)) s)
  | m_deliver r rest seg : mt_at (rs_main s) = Scanning (r :: rest) seg -> rs_shutdown s = false ->
      main_step s (goto (Sending r rest seg) s)
  | m_send r rest seg w : mt_at (rs_main s) = Sending r rest seg ->
      let i := work_shard (length (rs_workers s)) r in
      rs_workers s !! i = Some w -> running w = true -> blen (rw_queue w) < WORK_CAPACITY ->
      main_step s (set_main (record_sent r rest seg (rs_main s)) (set_worker i (push_work (WorkRecord r) w) s))
  | m_send_fails r rest seg w : mt_at (rs_main s) = Sending r rest seg ->
      rs_workers s !! work_shard (length (rs_workers s)) r = Some w -> running w = false ->
      main_step s (goto (if rs_shutdown s then Joining 0 else Finished Err) s)
  | m_scan_shutdown rest seg : mt_at (rs_main s) = Scanning rest seg -> rs_shutdown s = true ->
      main_step s (goto (Joining 0) s)
  | m_scanned seg : mt_at (rs_main s) = Scanning [] seg -> rs_shutdown s = false ->
      main_step s (goto (if sg_ok seg then SendBarriers 0 seg else Finished Err) s)
  | m_barrier i seg w : mt_at (rs_main s) = SendBarriers i seg -> rs_workers s !! i = Some w ->
      running w = true -> blen (rw_queue w) < WORK_CAPACITY ->
      main_step s (goto (SendBarriers (Datatypes.S i) seg) (set_worker i (set_acked false (push_work WorkBarrier w)) s))
  | m_barrier_fails i seg w : mt_at (rs_main s) = SendBarriers i seg -> rs_workers s !! i = Some w -> running w = false ->
      main_step s (goto (Finished Err) s)
  | m_barriers_sent seg : mt_at (rs_main s) = SendBarriers (length (rs_workers s)) seg ->
      main_step s (goto (AwaitAcks (length (rs_workers s)) seg) s)
  | m_ack left acks seg : mt_at (rs_main s) = AwaitAcks (Datatypes.S left) seg -> rs_acks s = Datatypes.S acks ->
      main_step s (goto (AwaitAcks left seg) (set_acks acks s))
  | m_ack_fails left seg : mt_at (rs_main s) = AwaitAcks (Datatypes.S left) seg -> rs_acks s = 0%nat ->
      (forall w, w ∈ rs_workers s -> running w = true -> WorkBarrier ∉ rw_queue w) ->
      main_step s (goto (Finished Err) s)
  | m_acked seg : mt_at (rs_main s) = AwaitAcks 0 seg -> main_step s (goto (SendHitBarrier seg) s)
  | m_hit_barrier seg : mt_at (rs_main s) = SendHitBarrier seg -> co_running (rs_collector s) = true ->
      blen (rs_hits s) < HIT_CAPACITY -> main_step s (goto (AwaitHits seg) (set_hits (rs_hits s ++ [HitBarrier]) s))
  | m_hit_barrier_fails seg : mt_at (rs_main s) = SendHitBarrier seg -> co_running (rs_collector s) = false ->
      main_step s (goto (Finished Err) s)
  | m_hit_ack seg n : mt_at (rs_main s) = AwaitHits seg -> co_ack (rs_collector s) = Some n ->
      main_step s (goto (Commit n seg)
        (set_collector {| co_running := co_running (rs_collector s); co_matches := co_matches (rs_collector s); co_ack := None;
                          co_sent := co_sent (rs_collector s) |} s))
  | m_hit_ack_fails seg : mt_at (rs_main s) = AwaitHits seg -> co_ack (rs_collector s) = None ->
      co_running (rs_collector s) = false -> main_step s (goto (Finished Err) s)
  | m_commit n seg k : mt_at (rs_main s) = Commit n seg -> durable_barrier (rs_sink s) = (Ok tt, k) ->
      main_step s (set_main (commit initial_matches n seg (rs_main s)) (set_rs_sink k s))
  | m_commit_fails n seg k : mt_at (rs_main s) = Commit n seg -> durable_barrier (rs_sink s) = (Err, k) ->
      main_step s (goto (Finished Err) (set_rs_sink k s))
  | m_join i w ok : mt_at (rs_main s) = Joining i -> rs_workers s !! i = Some w -> rw_end w = Returned ok ->
      main_step s (goto (if ok : bool then Joining (Datatypes.S i) else Finished Err) s)
  | m_join_panicked i w : mt_at (rs_main s) = Joining i -> rs_workers s !! i = Some w -> rw_end w = Panicked ->
      main_step s (goto (Finished Err) s)
  | m_joined : mt_at (rs_main s) = Joining (length (rs_workers s)) -> main_step s (goto JoinCollector s)
  | m_collected : mt_at (rs_main s) = JoinCollector -> co_running (rs_collector s) = false ->
      main_step s (if rs_shutdown s then set_main (finish_run initial_matches (co_matches (rs_collector s)) (rs_main s)) s
                   else goto FinalBarrier s)
  | m_final k : mt_at (rs_main s) = FinalBarrier -> durable_barrier (rs_sink s) = (Ok tt, k) ->
      main_step s (set_main (finish_run initial_matches (co_matches (rs_collector s)) (rs_main s)) (set_rs_sink k s))
  | m_final_fails k : mt_at (rs_main s) = FinalBarrier -> durable_barrier (rs_sink s) = (Err, k) ->
      main_step s (goto (Finished Err) (set_rs_sink k s)).

Inductive worker_step (i : nat) (w : RunWorker) (s : State) : State -> Prop :=
  | w_record r q o scanner : rw_outbox w = [] -> rw_queue w = WorkRecord r :: q -> scan_record r (rw_scanner w) = Some (o, scanner) ->
      worker_step i w s (set_worker i (scanned r q o scanner w) s)
  | w_panic r q : rw_outbox w = [] -> rw_queue w = WorkRecord r :: q -> scan_record r (rw_scanner w) = None ->
      worker_step i w s (set_worker i (set_end Panicked w) s)
  | w_barrier q : rw_outbox w = [] -> rw_queue w = WorkBarrier :: q ->
      worker_step i w s (set_acks (Datatypes.S (rs_acks s)) (set_worker i (set_acked true (set_queue q w)) s))
  | w_hit h rest : rw_outbox w = h :: rest -> co_running (rs_collector s) = true -> blen (rs_hits s) < HIT_CAPACITY ->
      worker_step i w s (set_hits (rs_hits s ++ [HitMatch h]) (set_worker i (sent_hit h rest w) s))
  | w_hit_fails h rest : rw_outbox w = h :: rest -> co_running (rs_collector s) = false ->
      worker_step i w s (set_worker i (set_end (Returned true) w) s)
  | w_done : rw_outbox w = [] -> rw_queue w = [] -> txs_open (mt_at (rs_main s)) = false ->
      worker_step i w s (set_worker i (set_end (Returned true) w) s).

Inductive collector_step (s : State) : State -> Prop :=
  | c_match h hits k : rs_hits s = HitMatch h :: hits -> Sink.send (MetaMatch h) (rs_sink s) = (Ok tt, k) ->
      collector_step s (set_collector {| co_running := true; co_matches := co_matches (rs_collector s) + 1;
                                         co_ack := co_ack (rs_collector s); co_sent := co_sent (rs_collector s) ++ [h] |}
                          (set_hits hits (set_rs_sink k s)))
  | c_refused h hits k : rs_hits s = HitMatch h :: hits -> Sink.send (MetaMatch h) (rs_sink s) = (Err, k) ->
      collector_step s (set_collector {| co_running := false; co_matches := co_matches (rs_collector s) + 1;
                                         co_ack := co_ack (rs_collector s); co_sent := co_sent (rs_collector s) |}
                          (set_hits hits (set_rs_sink k s)))
  | c_barrier hits : rs_hits s = HitBarrier :: hits ->
      collector_step s (set_collector {| co_running := true; co_matches := co_matches (rs_collector s);
                                         co_ack := Some (co_matches (rs_collector s)); co_sent := co_sent (rs_collector s) |}
                          (set_hits hits s))
  | c_done : rs_hits s = [] -> hit_tx_open (mt_at (rs_main s)) = false ->
      (forall w, w ∈ rs_workers s -> running w = false) ->
      collector_step s (set_collector {| co_running := false; co_matches := co_matches (rs_collector s);
                                         co_ack := co_ack (rs_collector s); co_sent := co_sent (rs_collector s) |} s).

Inductive run_step (s : State) : State -> Prop :=
  | step_main s' : main_step s s' -> run_step s s'
  | step_worker i w s' : rs_workers s !! i = Some w -> running w = true -> worker_step i w s s' -> run_step s s'
  | step_collector s' : co_running (rs_collector s) = true -> collector_step s s' -> run_step s s'
  | step_shutdown : run_step s (ask_shutdown s)
  | step_others k : others (rs_sink s) k -> run_step s (set_rs_sink k s).
End Run.

(** * Replay runs, executable

    The turns of a run's threads as functions, each a step of the system, and a
    scheduler that follows a list of threads. *)

Section Exec.
Context `{HE : Engines} {K : Type} {HS : MetadataSink K} (others : K -> K -> Prop) (initial_matches : Z).

Abbreviation State := (RunState K).
Implicit Types s : State.

Definition is_running s (i : nat) : option (RunWorker * bool) :=
  w ← rs_workers s !! i; Some (w, running w).

Definition room {A} (l : list A) (capacity : Z) : bool := blen l <? capacity.

Definition at_end s (e : WorkerEnd) (i : nat) : option State :=
  match e with
  | StillRunning => None
  | Returned true => Some (goto (Joining (S i)) s)
  | Returned false | Panicked => Some (goto (Finished Err) s)
  end.

(** A turn of the main thread; [None] while it waits. *)
Definition main_turn s : option State :=
  let m := rs_main s in
  match mt_at m with
  | AtPath =>
      if rs_shutdown s then Some (goto (Joining 0) s)
      else match mt_todo m with
           | [] => Some (goto (Joining 0) s)
           | seg :: todo => Some (set_main (take_segment seg todo m) s)
           end
  | Scanning rest seg =>
      if rs_shutdown s then Some (goto (Joining 0) s)
      else match rest with
           | [] => Some (goto (if sg_ok seg then SendBarriers 0 seg else Finished Err) s)
           | r :: rest => Some (goto (Sending r rest seg) s)
           end
  | Sending r rest seg =>
      let i := work_shard (length (rs_workers s)) r in
      '(w, up) ← is_running s i;
      if up : bool then
        if room (rw_queue w) WORK_CAPACITY
        then Some (set_main (record_sent r rest seg m) (set_worker i (push_work (WorkRecord r) w) s)) else None
      else Some (goto (if rs_shutdown s then Joining 0 else Finished Err) s)
  | SendBarriers i seg =>
      if decide (i = length (rs_workers s)) then Some (goto (AwaitAcks i seg) s)
      else
        '(w, up) ← is_running s i;
        if up : bool then
          if room (rw_queue w) WORK_CAPACITY
          then Some (goto (SendBarriers (S i) seg) (set_worker i (set_acked false (push_work WorkBarrier w)) s)) else None
        else Some (goto (Finished Err) s)
  | AwaitAcks 0 seg => Some (goto (SendHitBarrier seg) s)
  | AwaitAcks (S missing) seg =>
      match rs_acks s with S acks => Some (goto (AwaitAcks missing seg) (set_acks acks s)) | O => None end
  | SendHitBarrier seg =>
      if co_running (rs_collector s) then
        if room (rs_hits s) HIT_CAPACITY then Some (goto (AwaitHits seg) (set_hits (rs_hits s ++ [HitBarrier]) s)) else None
      else Some (goto (Finished Err) s)
  | AwaitHits seg =>
      let c := rs_collector s in
      match co_ack c with
      | Some k => Some (goto (Commit k seg)
          (set_collector {| co_running := co_running c; co_matches := co_matches c; co_ack := None; co_sent := co_sent c |} s))
      | None => if co_running c then None else Some (goto (Finished Err) s)
      end
  | Commit k seg =>
      match durable_barrier (rs_sink s) with
      | (Ok _, x) => Some (set_main (commit initial_matches k seg m) (set_rs_sink x s))
      | (Err, x) => Some (goto (Finished Err) (set_rs_sink x s))
      end
  | Joining i =>
      match rs_workers s !! i with
      | Some w => at_end s (rw_end w) i
      | None => if decide (i = length (rs_workers s)) then Some (goto JoinCollector s) else None
      end
  | JoinCollector =>
      if co_running (rs_collector s) then None
      else Some (if rs_shutdown s then set_main (finish_run initial_matches (co_matches (rs_collector s)) m) s
                 else goto FinalBarrier s)
  | FinalBarrier =>
      match durable_barrier (rs_sink s) with
      | (Ok _, x) => Some (set_main (finish_run initial_matches (co_matches (rs_collector s)) m) (set_rs_sink x s))
      | (Err, x) => Some (goto (Finished Err) (set_rs_sink x s))
      end
  | Finished _ => None
  end.

(** A turn of worker [i]. *)
Definition replay_worker_turn (i : nat) s : option State :=
  '(w, up) ← is_running s i;
  if negb up then None else
  match rw_outbox w, rw_queue w with
  | h :: rest, _ =>
      if co_running (rs_collector s) then
        if room (rs_hits s) HIT_CAPACITY
        then Some (set_hits (rs_hits s ++ [HitMatch h]) (set_worker i (sent_hit h rest w) s)) else None
      else Some (set_worker i (set_end (Returned true) w) s)
  | [], WorkRecord r :: q =>
      match scan_record r (rw_scanner w) with
      | Some (o, scanner) => Some (set_worker i (scanned r q o scanner w) s)
      | None => Some (set_worker i (set_end Panicked w) s)
      end
  | [], WorkBarrier :: q => Some (set_acks (S (rs_acks s)) (set_worker i (set_acked true (set_queue q w)) s))
  | [], [] => if txs_open (mt_at (rs_main s)) then None else Some (set_worker i (set_end (Returned true) w) s)
  end.

(** A turn of the collector. *)
Definition collector_turn s : option State :=
  let c := rs_collector s in
  if negb (co_running c) then None else
  match rs_hits s with
  | HitMatch h :: hits =>
      let '(r, x) := Sink.send (MetaMatch h) (rs_sink s) in
      let ok := match r with Ok _ => true | Err => false end in
      Some (set_collector {| co_running := ok; co_matches := co_matches c + 1; co_ack := co_ack c;
                             co_sent := if ok then co_sent c ++ [h] else co_sent c |} (set_hits hits (set_rs_sink x s)))
  | HitBarrier :: hits =>
      Some (set_collector {| co_running := true; co_matches := co_matches c; co_ack := Some (co_matches c); co_sent := co_sent c |}
              (set_hits hits s))
  | [] =>
      if negb (hit_tx_open (mt_at (rs_main s))) && forallb (fun w => negb (running w)) (rs_workers s)
      then Some (set_collector {| co_running := false; co_matches := co_matches c; co_ack := co_ack c; co_sent := co_sent c |} s)
      else None
  end.

Inductive RunThread := MainThreadTurn | WorkerTurn (i : nat) | CollectorTurn | ShutdownTurn.

Definition run_turn (t : RunThread) s : option State :=
  match t with
  | MainThreadTurn => main_turn s
  | WorkerTurn i => replay_worker_turn i s
  | CollectorTurn => collector_turn s
  | ShutdownTurn => Some (ask_shutdown s)
  end.

(** The turns of a list of threads; a thread that waits is passed over. *)
Fixpoint run_schedule (ts : list RunThread) s : State :=
  match ts with [] => s | t :: ts => run_schedule ts (default s (run_turn t s)) end.

Lemma is_running_spec s i w up : is_running s i = Some (w, up) -> rs_workers s !! i = Some w /\ running w = up.
Proof. unfold is_running. intros (x & Hx & E)%bind_Some. by simplify_eq. Qed.

Lemma room_spec {A} (l : list A) c : room l c = true -> blen l < c.
Proof. apply Z.ltb_lt. Qed.

Lemma main_turn_step s s' : main_turn s = Some s' -> main_step initial_matches s s'.
Proof.
  unfold main_turn. destruct (mt_at (rs_main s)) as [|rest seg|r rest seg|i seg|[|missing] seg|seg|seg|k seg|i| | |] eqn:Hat.
  - destruct (rs_shutdown s) eqn:Hd; [intros [= <-]; by apply m_shutdown|].
    destruct (mt_todo (rs_main s)) eqn:Ht; intros [= <-]; [by apply m_no_more|by apply m_next].
  - destruct (rs_shutdown s) eqn:Hd; [intros [= <-]; by eapply m_scan_shutdown|].
    destruct rest; intros [= <-]; [by eapply m_scanned|by eapply m_deliver].
  - intros ([w up] & [Hw Hr]%is_running_spec & E)%bind_Some. destruct up; [|injection E as <-; by eapply m_send_fails].
    destruct (room _ _) eqn:Hq; [|done]. injection E as <-. by apply m_send, room_spec.
  - destruct (decide _) as [->|Hne]; [intros [= <-]; by apply m_barriers_sent|].
    intros ([w up] & [Hw Hr]%is_running_spec & E)%bind_Some. destruct up; [|injection E as <-; by eapply m_barrier_fails].
    destruct (room _ _) eqn:Hq; [|done]. injection E as <-. by apply m_barrier, room_spec.
  - intros [= <-]. by apply m_acked.
  - destruct (rs_acks s) eqn:Ha; intros [= <-]. by apply m_ack.
  - destruct (co_running _) eqn:Hc; [|intros [= <-]; by eapply m_hit_barrier_fails].
    destruct (room _ _) eqn:Hq; [|done]. intros [= <-]. by apply m_hit_barrier, room_spec.
  - destruct (co_ack _) eqn:Ha; [intros [= <-]; by apply m_hit_ack|].
    destruct (co_running _) eqn:Hc; intros [= <-]. by eapply m_hit_ack_fails.
  - destruct (durable_barrier _) as [[[]|] x] eqn:Hb; intros [= <-]; [by apply m_commit|by eapply m_commit_fails].
  - destruct (rs_workers s !! i) as [w|] eqn:Hw.
    + unfold at_end. destruct (rw_end w) as [|[]|] eqn:He; intros [= <-];
        [by apply (m_join _ _ i w true)|by apply (m_join _ _ i w false)|by eapply m_join_panicked].
    + destruct (decide _) as [->|]; intros [= <-]. by apply m_joined.
  - destruct (co_running _) eqn:Hc; intros [= <-]. by apply m_collected.
  - destruct (durable_barrier _) as [[[]|] x] eqn:Hb; intros [= <-]; [by apply m_final|by apply m_final_fails].
  - done.
Qed.

Lemma worker_turn_step i s s' :
  replay_worker_turn i s = Some s' ->
  exists w, rs_workers s !! i = Some w /\ running w = true /\ worker_step i w s s'.
Proof.
  unfold replay_worker_turn. intros ([w up] & [Hw Hr]%is_running_spec & E)%bind_Some. exists w.
  destruct up; [|done]. split; [done|]. split; [done|]. cbn [negb] in E.
  destruct (rw_outbox w) as [|h rest] eqn:Ho.
  - destruct (rw_queue w) as [|[r|] q] eqn:Hq.
    + destruct (txs_open _) eqn:Ht; [done|]. injection E as <-. by apply w_done.
    + destruct (scan_record _ _) as [[o sc]|] eqn:Es; injection E as <-; [by eapply w_record|by eapply w_panic].
    + injection E as <-. by eapply w_barrier.
  - destruct (co_running _) eqn:Hc; [|injection E as <-; by eapply w_hit_fails].
    destruct (room _ _) eqn:Hq; [|done]. injection E as <-. eapply w_hit; [done..|by apply room_spec].
Qed.

Lemma collector_turn_step s s' : collector_turn s = Some s' -> co_running (rs_collector s) = true /\ collector_step s s'.
Proof.
  unfold collector_turn. destruct (co_running (rs_collector s)) eqn:Hc; [|done]. cbn [negb]. intros E. split; [done|].
  destruct (rs_hits s) as [|[h|] hits] eqn:Hh.
  - destruct (_ && _) eqn:He; [|done]. apply andb_prop in He as [Ht Hw]. injection E as <-. apply c_done; [done|by destruct (hit_tx_open _)|].
    intros w Hin. apply forallb_forall with (x := w) in Hw; [by destruct (running w)|by apply list_elem_of_In].
  - destruct (Sink.send _ _) as [[[]|] x] eqn:Es; injection E as <-; [by eapply c_match|by eapply c_refused].
  - injection E as <-. by apply c_barrier.
Qed.

Lemma run_turn_step t s s' : run_turn t s = Some s' -> run_step others initial_matches s s'.
Proof.
  destruct t as [|i| |]; cbn.
  - intros H. by apply step_main, main_turn_step.
  - intros (w & Hw & Hr & H)%worker_turn_step. by eapply step_worker.
  - intros [Hr H]%collector_turn_step. by apply step_collector.
  - intros [= <-]. apply step_shutdown.
Qed.

Lemma run_schedule_steps ts : forall s, rtc (run_step others initial_matches) s (run_schedule ts s).
Proof.
  induction ts as [|t ts IH]; intros s; [done|]. cbn. destruct (run_turn t s) as [s'|] eqn:Ht; [|apply IH].
  eapply rtc_l; [by eapply run_turn_step|apply IH].
Qed.
End Exec.
