(* ===== verification/ReplayRunSpec.v ===== *)
(** * The threads of a replay run

    The invariant of the main thread, the workers and the collector over every
    interleaving of their steps: what each worker has scanned and sent, what the
    collector has passed on, and what the barriers of a segment establish before
    the segment is committed. *)

From stdpp Require Import strings sorting.
From S2P Require Import Prelude Model Services Text Disk DiskSpec Sink Segment SegmentStore SegmentOps Spool Metadata.
From S2P Require Import MetadataTheorems MetadataSink Matching Matcher MatcherSpec Replay.

(** The matches in durable storage, and how the sink's operations keep them. *)
Class DurableLog (S : Type) `{MatchLog S} := {
  matches_durable : S -> list MatchRecord;
  log_ok e s r s' : sink_ok s -> Sink.send e s = (r, s') -> sink_ok s';
  log_grows h s r s' :
    sink_ok s -> Sink.send (MetaMatch h) s = (r, s') -> matches_durable s `prefix_of` matches_durable s';
  log_barrier_ok s r s' : sink_ok s -> durable_barrier s = (r, s') -> sink_ok s';
  log_barrier_sent s r s' : sink_ok s -> durable_barrier s = (r, s') -> matches_sent s' = matches_sent s;
  log_barrier_grows s r s' :
    sink_ok s -> durable_barrier s = (r, s') -> matches_durable s `prefix_of` matches_durable s';
  log_barrier_durable s s' :
    sink_ok s -> durable_barrier s = (Ok tt, s') -> matches_durable s' = matches_sent s'
}.

(** What the other clients of the sink do leaves what was sent. *)
Definition others_grow {S} `{DurableLog S} (others : S -> S -> Prop) : Prop :=
  forall k k', others k k' -> sink_ok k ->
    sink_ok k' /\ matches_sent k `prefix_of` matches_sent k' /\ matches_durable k `prefix_of` matches_durable k'.

(** ** Parts of the state *)

Definition queued (q : list ReplayWork) : list ContentRecord :=
  omap (fun x => match x with WorkRecord r => Some r | WorkBarrier => None end) q.

Definition in_flight (l : list ReplayHit) : list MatchRecord :=
  omap (fun x => match x with HitMatch h => Some h | HitBarrier => None end) l.

Definition segment_records (segs : list RunSegment) : list ContentRecord := flat_map sg_records segs.

Definition total_bytes (segs : list RunSegment) : Z := fold_right (fun g n => sg_bytes g + n) 0 segs.

Definition idle (w : RunWorker) : Prop := rw_queue w = [] /\ rw_outbox w = [].
Definition unasked (w : RunWorker) : Prop := WorkBarrier ∉ rw_queue w.
Definition pending (w : RunWorker) : Prop :=
  rw_acked w = false /\ exists l, rw_queue w = map WorkRecord l ++ [WorkBarrier].
Definition answered (w : RunWorker) : Prop := rw_acked w = true /\ idle w.

Definition acked (i : nat) (ws : list RunWorker) : nat := length (filter (fun w => rw_acked w = true) (take i ws)).
Arguments acked : simpl never.

Lemma queued_app a b : queued (a ++ b) = queued a ++ queued b.
Proof. unfold queued. by rewrite omap_app. Qed.

Lemma in_flight_app a b : in_flight (a ++ b) = in_flight a ++ in_flight b.
Proof. unfold in_flight. by rewrite omap_app. Qed.

Lemma segment_records_snoc segs g : segment_records (segs ++ [g]) = segment_records segs ++ sg_records g.
Proof. unfold segment_records. rewrite flat_map_app. cbn. by rewrite app_nil_r. Qed.

Lemma total_bytes_snoc segs g : total_bytes (segs ++ [g]) = total_bytes segs + sg_bytes g.
Proof. unfold total_bytes. induction segs as [|x segs IH]; cbn in *; lia. Qed.

Lemma acked_le i ws : (acked i ws <= i)%nat.
Proof. unfold acked. pose proof (length_filter (fun w => rw_acked w = true) (take i ws)). rewrite length_take in *. lia. Qed.

(** Replacing a worker outside the first [i], or one that had answered as much. *)
Lemma acked_insert_ge i j w ws : (i <= j)%nat -> acked i (<[j := w]> ws) = acked i ws.
Proof. intros Hij. unfold acked. by rewrite take_insert_ge. Qed.

Lemma acked_insert_lt i j w0 w ws :
  (j < i)%nat -> ws !! j = Some w0 ->
  (acked i (<[j := w]> ws) + (if rw_acked w0 then 1 else 0) = acked i ws + (if rw_acked w then 1 else 0))%nat.
Proof.
  intros Hij Hw. unfold acked. rewrite take_insert_lt by done.
  assert (take i ws !! j = Some w0) as Hl by (by rewrite lookup_take_lt).
  rewrite insert_take_drop by (by eapply lookup_lt_Some). rewrite <- (take_drop_middle _ _ _ Hl) at 3.
  rewrite !filter_app, !filter_cons, !length_app.
  destruct (decide (rw_acked w0 = true)), (decide (rw_acked w = true)), (rw_acked w0), (rw_acked w); try done; cbn [length]; lia.
Qed.

Lemma acked_succ i w ws : ws !! i = Some w -> rw_acked w = false -> acked (S i) ws = acked i ws.
Proof.
  intros Hw Ha. unfold acked. rewrite (take_S_r _ _ _ Hw), filter_app, filter_cons, Ha. cbn. by rewrite app_nil_r.
Qed.

(** Everybody has answered once all acknowledgements are there. *)
Lemma acked_all ws w : acked (length ws) ws = length ws -> w ∈ ws -> rw_acked w = true.
Proof.
  unfold acked. rewrite take_ge by done. induction ws as [|x ws IH]; intros Ha Hin; [by apply not_elem_of_nil in Hin|].
  rewrite filter_cons in Ha. pose proof (length_filter (fun w => rw_acked w = true) ws).
  destruct (decide (rw_acked x = true)) as [Hx|Hx]; cbn in Ha; [|lia].
  apply elem_of_cons in Hin as [->|Hin]; [done|]. apply IH; [lia|done].
Qed.

Lemma pending_record w r q : pending w -> rw_queue w = WorkRecord r :: q -> exists l, q = map WorkRecord l ++ [WorkBarrier].
Proof. intros [_ [[|r' l] Hl]] Hq; rewrite Hq in Hl; cbn in Hl; [done|]. injection Hl as <- ->. by exists l. Qed.

Lemma pending_barrier w q : pending w -> rw_queue w = WorkBarrier :: q -> q = [].
Proof. intros [_ [[|r' l] Hl]] Hq; rewrite Hq in Hl; cbn in Hl; [|done]. by injection Hl as ->. Qed.

Lemma flat_map_insert {A B} (f : A -> list B) (l : list A) i x y :
  l !! i = Some x -> exists p q, flat_map f l = p ++ f x ++ q /\ flat_map f (<[i := y]> l) = p ++ f y ++ q.
Proof.
  intros Hi. exists (flat_map f (take i l)), (flat_map f (drop (S i) l)). split.
  - rewrite <- (take_drop_middle _ _ _ Hi) at 1. by rewrite flat_map_app.
  - rewrite insert_take_drop by (by eapply lookup_lt_Some). by rewrite flat_map_app.
Qed.

Lemma flat_map_same {A B} (f : A -> list B) (l : list A) i x y :
  l !! i = Some x -> f x = f y -> flat_map f (<[i := y]> l) = flat_map f l.
Proof. intros Hi E. destruct (flat_map_insert f l i x y Hi) as (p & q & -> & ->). by rewrite E. Qed.

(** ** The invariant *)

Section RunSpec.
Context `{HE : Engines} {K : Type} {HS : MetadataSink K} {HM : MatchLog K} {HL : DurableLog K}.
Context (n : nat) (scanner : ReplayScanner) (initial : ReplayProgress) (segs : list RunSegment) (base : list MatchRecord).

Abbreviation State := (RunState K).
Implicit Types (s : State) (recs : list ContentRecord).

(** What worker [i] gets of some records, and what a scan of it alone finds. *)
Definition shard (i : nat) recs : list ContentRecord := filter (fun r => work_shard n r = i) recs.

Definition worker_hits recs (i : nat) : list MatchRecord :=
  match scan_records (shard i recs) scanner with Some (os, _) => flat_map hits os | None => [] end.

Definition reference_hits recs : list MatchRecord := flat_map (worker_hits recs) (seq 0 n).

Definition scans recs : Prop := Forall (fun i => is_Some (scan_records (shard i recs) scanner)) (seq 0 n).

(** The matches in the log since the run has started. *)
Definition log_since (l : list MatchRecord) : list MatchRecord := drop (length base) l.

Record worker_ok recs (i : nat) (w : RunWorker) : Prop := {
  wo_scan : exists os, scan_records (rw_seen w) scanner = Some (os, rw_scanner w) /\ flat_map hits os = rw_sent w ++ rw_outbox w;
  wo_work : rw_seen w ++ queued (rw_queue w) = shard i recs
}.

Record run_core s : Prop := {
  rc_workers : length (rs_workers s) = n;
  rc_worker : forall i w, rs_workers s !! i = Some w -> worker_ok (mt_records (rs_main s)) i w;
  rc_kept : co_matches (rs_collector s) = blen (co_sent (rs_collector s)) ->
    co_sent (rs_collector s) ++ in_flight (rs_hits s) ≡ₚ flat_map rw_sent (rs_workers s);
  rc_count : blen (co_sent (rs_collector s)) <= co_matches (rs_collector s);
  rc_running : co_running (rs_collector s) = true -> co_matches (rs_collector s) = blen (co_sent (rs_collector s));
  rc_sink : sink_ok (rs_sink s);
  rc_base : base `prefix_of` matches_sent (rs_sink s);
  rc_sent : co_sent (rs_collector s) ⊆+ log_since (matches_sent (rs_sink s));
  rc_durable : reference_hits (segment_records (mt_committed (rs_main s))) ⊆+ log_since (matches_durable (rs_sink s));
  rc_scans : scans (segment_records (mt_committed (rs_main s)));
  rc_matches : blen (reference_hits (segment_records (mt_committed (rs_main s)))) <= co_matches (rs_collector s);
  rc_done : mt_done (rs_main s) = segments_done initial + blen (mt_committed (rs_main s));
  rc_bytes : mt_bytes (rs_main s) = bytes_processed initial + total_bytes (mt_committed (rs_main s));
  rc_segments : mt_committed (rs_main s) `prefix_of` segs
}.

(** All that was sent to the workers has reached the sink. *)
Record settled recs s : Prop := {
  st_idle : Forall idle (rs_workers s);
  st_hits : rs_hits s = [];
  st_count : co_matches (rs_collector s) = blen (co_sent (rs_collector s));
  st_records : mt_records (rs_main s) = recs
}.

(** No barrier is under way. *)
Record calm s : Prop := {
  ca_acks : rs_acks s = 0%nat;
  ca_workers : Forall unasked (rs_workers s);
  ca_hits : HitBarrier ∉ rs_hits s;
  ca_ack : co_ack (rs_collector s) = None
}.

(** The barriers of a segment up to worker [i], [got] of their answers received. *)
Record asked (i got : nat) s : Prop := {
  as_workers : forall j w, rs_workers s !! j = Some w -> if decide (j < i)%nat then answered w \/ pending w else unasked w;
  as_acks : (rs_acks s + got = acked i (rs_workers s))%nat;
  as_hits : HitBarrier ∉ rs_hits s;
  as_ack : co_ack (rs_collector s) = None
}.

(** The workers are done with a segment; the collector is asked or has answered. *)
Definition hits_asked s : Prop :=
  (exists l, rs_hits s = map HitMatch l ++ [HitBarrier] /\ co_ack (rs_collector s) = None) \/
  (rs_hits s = [] /\ co_ack (rs_collector s) = Some (co_matches (rs_collector s)) /\
   co_matches (rs_collector s) = blen (co_sent (rs_collector s))).

(** The run has stopped sending: after all segments, or for a shutdown. *)
Definition stopped s : Prop :=
  rs_shutdown s = true \/ (settled (segment_records segs) s /\ mt_committed (rs_main s) = segs).

Definition at_inv s : Prop :=
  let m := rs_main s in
  let before := segment_records (mt_committed m) in
  match mt_at m with
  | AtPath => segs = mt_committed m ++ mt_todo m /\ settled before s /\ calm s
  | Scanning rest seg =>
      segs = mt_committed m ++ seg :: mt_todo m /\ mt_records m ++ rest = before ++ sg_records seg /\ calm s
  | Sending r rest seg =>
      segs = mt_committed m ++ seg :: mt_todo m /\ mt_records m ++ r :: rest = before ++ sg_records seg /\ calm s
  | SendBarriers i seg =>
      segs = mt_committed m ++ seg :: mt_todo m /\ mt_records m = before ++ sg_records seg /\ asked i 0 s /\ (i <= n)%nat
  | AwaitAcks missing seg =>
      segs = mt_committed m ++ seg :: mt_todo m /\ mt_records m = before ++ sg_records seg /\ (missing <= n)%nat /\
      asked n (n - missing) s
  | SendHitBarrier seg =>
      segs = mt_committed m ++ seg :: mt_todo m /\ mt_records m = before ++ sg_records seg /\ Forall idle (rs_workers s) /\ calm s
  | AwaitHits seg =>
      segs = mt_committed m ++ seg :: mt_todo m /\ mt_records m = before ++ sg_records seg /\ Forall idle (rs_workers s) /\
      rs_acks s = 0%nat /\ hits_asked s
  | Commit k seg =>
      segs = mt_committed m ++ seg :: mt_todo m /\ settled (before ++ sg_records seg) s /\ calm s /\ k = co_matches (rs_collector s)
  | Joining _ | JoinCollector => stopped s
  | FinalBarrier => settled (segment_records segs) s /\ mt_committed m = segs
  | Finished _ => True
  end.

(** What a progress message says. *)
Record reached (durable : list MatchRecord) (k : nat) (p : ReplayProgress) : Prop := {
  re_bound : (k <= length segs)%nat;
  re_done : segments_done p = segments_done initial + Z.of_nat k;
  re_bytes : bytes_processed p = bytes_processed initial + total_bytes (take k segs);
  re_scans : scans (segment_records (take k segs));
  re_durable : reference_hits (segment_records (take k segs)) ⊆+ log_since durable
}.

Definition counts (k : nat) (p : ReplayProgress) : Prop :=
  matches_found p = saturating_add_i64 (matches_found initial) (blen (reference_hits (segment_records (take k segs)))).

Definition checkpoint (durable : list MatchRecord) (p : ReplayProgress) : Prop :=
  exists k, reached durable k p /\ counts k p.

(** The last message of a run that a shutdown has cut short may count matches of
    the segment in hand as well. *)
Definition cut_short (durable : list MatchRecord) (p : ReplayProgress) : Prop :=
  exists k m, reached durable k p /\ matches_found p = saturating_add_i64 (matches_found initial) m /\
    blen (reference_hits (segment_records (take k segs))) <= m.

Definition progress_ok s : Prop :=
  let durable := matches_durable (rs_sink s) in
  match mt_at (rs_main s) with
  | Finished (Ok _) => exists ps p, mt_progress (rs_main s) = ps ++ [p] /\ Forall (checkpoint durable) ps /\
      (if rs_shutdown s then cut_short durable p
       else reached durable (length segs) p /\ counts (length segs) p)
  | _ => Forall (checkpoint durable) (mt_progress (rs_main s))
  end.

Definition run_inv s : Prop := run_core s /\ at_inv s /\ progress_ok s.

(** ** The pieces of a step *)

Lemma log_since_prefix l l' : l `prefix_of` l' -> log_since l ⊆+ log_since l'.
Proof.
  intros [x ->]. unfold log_since. rewrite drop_app. apply submseteq_inserts_r. reflexivity.
Qed.

Lemma reached_grows d d' k p : d `prefix_of` d' -> reached d k p -> reached d' k p.
Proof. intros Hd []. split; try done. etrans; [done|by apply log_since_prefix]. Qed.

Lemma checkpoint_grows d d' p : d `prefix_of` d' -> checkpoint d p -> checkpoint d' p.
Proof. intros Hd (k & Hr & Hc). exists k. split; [by eapply reached_grows|done]. Qed.

Lemma cut_short_grows d d' p : d `prefix_of` d' -> cut_short d p -> cut_short d' p.
Proof. intros Hd (k & m & Hr & Hc). exists k, m. split; [by eapply reached_grows|done]. Qed.

Lemma checkpoint_cut_short d p k : reached d k p -> counts k p -> cut_short d p.
Proof. intros Hr Hc. eexists k, _. split; [done|]. split; [exact Hc|]. done. Qed.

Lemma hits_of_nil : reference_hits [] = [].
Proof. unfold reference_hits. induction (seq 0 n) as [|i l IH]; [done|]. cbn. by rewrite IH. Qed.

Lemma scans_nil : scans [].
Proof. apply Forall_forall. intros i _. by eexists. Qed.

(** Idle workers have scanned all there was, and sent what a scan finds. *)
Lemma idle_sent recs (ws : list RunWorker) :
  length ws = n -> (forall i w, ws !! i = Some w -> worker_ok recs i w) -> Forall idle ws ->
  scans recs /\ flat_map rw_sent ws = reference_hits recs.
Proof.
  intros Hl Hw Hi.
  assert (forall i w, ws !! i = Some w -> is_Some (scan_records (shard i recs) scanner) /\ rw_sent w = worker_hits recs i) as H.
  { intros i w Hiw. destruct (Hw i w Hiw) as [(os & Hs & Ho) Hq].
    destruct (Forall_lookup_1 _ _ _ _ Hi Hiw) as [Eq Eo]. rewrite Eq, app_nil_r in Hq. rewrite Eo, app_nil_r in Ho.
    unfold worker_hits. rewrite <- Hq, Hs. by split; [eexists|]. }
  split.
  - apply Forall_forall. intros i [_ Hlt]%elem_of_seq. rewrite Nat.add_0_l, <- Hl in Hlt.
    destruct (lookup_lt_is_Some_2 ws i Hlt) as [w Hiw]. by apply (H i w).
  - unfold reference_hits. rewrite !flat_map_concat_map. f_equal. change (map rw_sent ws) with (rw_sent <$> ws).
    change (map (worker_hits recs) ?l) with (worker_hits recs <$> l). apply list_eq. intros i. rewrite !list_lookup_fmap.
    destruct (ws !! i) as [w|] eqn:Hiw; cbn.
    + rewrite lookup_seq_lt by (rewrite <- Hl; by eapply lookup_lt_Some). cbn. by rewrite (proj2 (H i w Hiw)).
    + apply lookup_ge_None in Hiw. rewrite lookup_seq_ge by lia. done.
Qed.

(** Once settled, the sink has what a scan of the records sent finds. *)
Lemma settled_hits recs s :
  run_core s -> settled recs s -> scans recs /\ co_sent (rs_collector s) ≡ₚ reference_hits recs /\ co_matches (rs_collector s) = blen (reference_hits recs).
Proof.
  intros C [Hi Hh Hc Hr]. destruct C as [Hl Hw Hk _ _ _ _ _ _ _ _ _ _ _]. rewrite Hr in Hw.
  destruct (idle_sent recs _ Hl Hw Hi) as [Hs E]. specialize (Hk Hc). rewrite Hh, E in Hk. cbn in Hk. rewrite app_nil_r in Hk.
  split; [done|]. split; [done|]. rewrite Hc. unfold blen. by rewrite Hk.
Qed.

Lemma scan_records_snoc (rs : list ContentRecord) r : forall (c0 : ReplayScanner) os (c1 : ReplayScanner) o (c2 : ReplayScanner),
  scan_records rs c0 = Some (os, c1) -> scan_record r c1 = Some (o, c2) -> scan_records (rs ++ [r]) c0 = Some (os ++ [o], c2).
Proof.
  induction rs as [|x rs IH]; intros c0 os c1 o c2 H Hr; cbn in *; [simplify_eq; by rewrite Hr|].
  destruct (scan_record x c0) as [[o' c']|]; [|done]. cbn in *.
  destruct (scan_records rs c') as [[os' c'']|] eqn:E; [|done]. cbn in H. simplify_eq. by rewrite (IH _ _ _ _ _ E Hr).
Qed.

(** *** Workers *)

Lemma worker_ok_scanned recs i r q o sc w :
  worker_ok recs i w -> rw_outbox w = [] -> rw_queue w = WorkRecord r :: q -> scan_record r (rw_scanner w) = Some (o, sc) ->
  worker_ok recs i (scanned r q o sc w).
Proof.
  intros [(os & Hs & Ho) Hq] Hout Hqu Hr. rewrite Hout, app_nil_r in Ho. split; cbn.
  - eexists. split; [by eapply scan_records_snoc|]. rewrite flat_map_app, Ho. cbn. by rewrite app_nil_r.
  - rewrite <- app_assoc. rewrite Hqu in Hq. done.
Qed.

Lemma worker_ok_queue recs i q b w :
  worker_ok recs i w -> queued q = queued (rw_queue w) -> worker_ok recs i (set_acked b (set_queue q w)).
Proof. intros [Hs Hq] E. split; [done|]. cbn [set_acked set_queue rw_seen rw_queue]. by rewrite E. Qed.

Lemma worker_ok_end recs i e w : worker_ok recs i w -> worker_ok recs i (set_end e w).
Proof. by intros [Hs Hq]. Qed.

Lemma worker_ok_sent recs i h rest w :
  worker_ok recs i w -> rw_outbox w = h :: rest -> worker_ok recs i (sent_hit h rest w).
Proof.
  intros [(os & Hs & Ho) Hq] Hout. split; [|done]. exists os. cbn. rewrite <- app_assoc. cbn. by rewrite <- Hout.
Qed.

Lemma core_worker i w w' s :
  run_core s -> rs_workers s !! i = Some w -> worker_ok (mt_records (rs_main s)) i w' -> rw_sent w' = rw_sent w ->
  run_core (set_worker i w' s).
Proof.
  intros [] Hw Hok Hs. split; try done; cbn.
  - by rewrite length_insert.
  - intros j x Hx. apply list_lookup_insert_Some in Hx as [(<- & <- & _)|[_ Hx]]; auto.
  - by rewrite (flat_map_same _ _ _ w w').
Qed.

Lemma core_hit i w h rest s :
  run_core s -> rs_workers s !! i = Some w -> rw_outbox w = h :: rest ->
  run_core (set_hits (rs_hits s ++ [HitMatch h]) (set_worker i (sent_hit h rest w) s)).
Proof.
  intros C Hw Ho. pose proof (worker_ok_sent _ _ h rest w (rc_worker _ C i w Hw) Ho) as Hok.
  destruct C. split; try done; cbn.
  - by rewrite length_insert.
  - intros j x Hx. apply list_lookup_insert_Some in Hx as [(<- & <- & _)|[_ Hx]]; auto.
  - intros Hc. specialize (rc_kept0 Hc). destruct (flat_map_insert rw_sent (rs_workers s) i w (sent_hit h rest w) Hw) as (p & q & E1 & ->).
    rewrite E1 in rc_kept0. rewrite in_flight_app, app_assoc, rc_kept0. cbn. solve_Permutation.
Qed.

Lemma core_worker_step i w s s' :
  run_core s -> rs_workers s !! i = Some w -> worker_step i w s s' -> run_core s'.
Proof.
  intros C Hw Hs. pose proof (rc_worker _ C i w Hw) as Hok. destruct Hs as [r q o sc Ho Hq Hr|r q Ho Hq Hr|q Ho Hq|h rest Ho Hc Hl|h rest Ho Hc|Ho Hq Ht].
  - eapply core_worker; [done..| |done]. by eapply worker_ok_scanned.
  - by eapply core_worker; [..|apply worker_ok_end|].
  - apply (core_worker i w (set_acked true (set_queue q w))) in C; [|done| |done].
    + by destruct C.
    + apply worker_ok_queue; [done|]. by rewrite Hq.
  - by eapply core_hit.
  - by eapply core_worker; [..|apply worker_ok_end|].
  - by eapply core_worker; [..|apply worker_ok_end|].
Qed.

(** An idle worker can only end, and only when its channel is closed. *)
Lemma idle_step i w s s' :
  idle w -> worker_step i w s s' -> txs_open (mt_at (rs_main s)) = false /\ s' = set_worker i (set_end (Returned true) w) s.
Proof. intros [Hq Ho] Hs. destruct Hs; try congruence. done. Qed.

Lemma settled_worker recs i w s s' :
  settled recs s -> rs_workers s !! i = Some w -> worker_step i w s s' -> settled recs s'.
Proof.
  intros [Hi Hh Hc Hr] Hw Hs. pose proof (Forall_lookup_1 _ _ _ _ Hi Hw) as Hidle.
  apply (idle_step i w s s' Hidle) in Hs as [_ ->]. split; try done. by apply Forall_insert.
Qed.

Lemma unasked_pop w x q : unasked w -> rw_queue w = x :: q -> WorkBarrier ∉ q.
Proof. unfold unasked. intros Hn Hq Hin. apply Hn. rewrite Hq. by apply list_elem_of_further. Qed.

Lemma calm_worker i w s s' : calm s -> rs_workers s !! i = Some w -> worker_step i w s s' -> calm s'.
Proof.
  intros [Ha Hu Hh Hc] Hw Hs. pose proof (Forall_lookup_1 _ _ _ _ Hu Hw) as Hun.
  destruct Hs as [r q o sc Ho Hq Hr|r q Ho Hq Hr|q Ho Hq|h rest Ho Hco Hl|h rest Ho Hco|Ho Hq Ht].
  3: { exfalso. apply Hun. rewrite Hq. apply list_elem_of_here. }
  all: split; try done; try (by apply Forall_insert).
  - apply Forall_insert; [done|]. by eapply unasked_pop.
  - cbn. rewrite not_elem_of_app, list_elem_of_singleton. by split.
Qed.

(** A worker that was asked answers once it has scanned what was before. *)
Lemma asked_worker i got j w s s' :
  asked i got s -> rs_workers s !! j = Some w -> worker_step j w s s' -> asked i got s'.
Proof.
  intros [Hws Ha Hh Hc] Hw Hs. pose proof (Hws j w Hw) as Hjw.
  assert (forall w', (if decide (j < i)%nat then answered w' \/ pending w' else unasked w') ->
    forall k x, <[j := w']> (rs_workers s) !! k = Some x -> if decide (k < i)%nat then answered x \/ pending x else unasked x) as Hins.
  { intros w' Hw' k x Hx. apply list_lookup_insert_Some in Hx as [(<- & <- & _)|[_ Hx]]; [done|by apply Hws]. }
  assert (forall w', rw_acked w' = rw_acked w -> acked i (<[j := w']> (rs_workers s)) = acked i (rs_workers s)) as Hsame.
  { intros w' E. destruct (decide (j < i)%nat) as [Hlt|Hge]; [|by rewrite acked_insert_ge by lia].
    pose proof (acked_insert_lt i j w w' _ Hlt Hw) as Hk. rewrite E in Hk. lia. }
  destruct Hs as [r q o sc Ho Hq Hr|r q Ho Hq Hr|q Ho Hq|h rest Ho Hco Hl|h rest Ho Hco|Ho Hq Ht].
  - split; [apply Hins|cbn; by rewrite Hsame|done..]. destruct (decide _); [|by eapply unasked_pop].
    destruct Hjw as [[_ [Hi _]]|Hp]; [by rewrite Hi in Hq|]. right. split; [apply Hp|]. by eapply pending_record.
  - split; [apply Hins; by destruct (decide _)|cbn; by rewrite Hsame|done..].
  - destruct (decide (j < i)%nat) as [Hlt|Hge].
    + destruct Hjw as [[_ [Hi _]]|Hp]; [by rewrite Hi in Hq|]. pose proof (pending_barrier _ _ Hp Hq) as ->.
      split; [apply Hins; left; by repeat split| |done..]. cbn.
      pose proof (acked_insert_lt i j w (set_acked true (set_queue [] w)) _ Hlt Hw) as Hk. cbn in Hk.
      rewrite (proj1 Hp) in Hk. lia.
    + exfalso. apply Hjw. rewrite Hq. apply list_elem_of_here.
  - split; [apply Hins|cbn; by rewrite Hsame| |done].
    + destruct (decide _); [|done]. destruct Hjw as [[_ [_ Hi]]|Hp]; [by rewrite Hi in Ho|]. by right.
    + cbn. rewrite not_elem_of_app, list_elem_of_singleton. by split.
  - split; [apply Hins; by destruct (decide _)|cbn; by rewrite Hsame|done..].
  - split; [apply Hins; by destruct (decide _)|cbn; by rewrite Hsame|done..].
Qed.

(** A step of a worker leaves the main thread and the shared state. *)
Lemma worker_step_frame i w s s' :
  worker_step i w s s' ->
  rs_main s' = rs_main s /\ rs_shutdown s' = rs_shutdown s /\ rs_sink s' = rs_sink s /\ rs_collector s' = rs_collector s.
Proof. by intros []. Qed.

Lemma at_inv_worker i w s s' :
  at_inv s -> rs_workers s !! i = Some w -> worker_step i w s s' -> at_inv s'.
Proof.
  intros A Hw Hs. destruct (worker_step_frame i w s s' Hs) as (Em & Esh & _ & Eco). unfold at_inv in *. rewrite Em.
  assert (Forall idle (rs_workers s) -> txs_open (mt_at (rs_main s)) = true -> False) as Hidle.
  { intros Hi Ht. pose proof (Forall_lookup_1 _ _ _ _ Hi Hw) as Hx. apply (idle_step i w s s' Hx) in Hs as [Hs _]. congruence. }
  assert (stopped s -> stopped s') as Hstop.
  { intros [Hd|[Hse Hc]]; [left; congruence|right]. rewrite Em. split; [by eapply settled_worker|done]. }
  destruct (mt_at (rs_main s)) eqn:Ea; try (by apply Hstop); try done.
  - destruct A as (_ & [Hi _ _ _] & _). by destruct (Hidle Hi).
  - naive_solver eauto using calm_worker.
  - naive_solver eauto using calm_worker.
  - destruct A as (A1 & A2 & A3 & A4). split_and!; try done. by eapply asked_worker.
  - destruct A as (A1 & A2 & A3 & A4). split_and!; try done. by eapply asked_worker.
  - destruct A as (_ & _ & Hi & _). by destruct (Hidle Hi).
  - destruct A as (_ & _ & Hi & _). by destruct (Hidle Hi).
  - destruct A as (_ & [Hi _ _ _] & _). by destruct (Hidle Hi).
  - destruct A as [A1 A2]. split; [|done]. by eapply settled_worker.
Qed.

(** *** The sink and the collector *)

Definition sink_grows (k k' : K) : Prop :=
  sink_ok k' /\ matches_sent k `prefix_of` matches_sent k' /\ matches_durable k `prefix_of` matches_durable k'.

Lemma core_sink k s : run_core s -> sink_grows (rs_sink s) k -> run_core (set_rs_sink k s).
Proof.
  intros [] (Hok & Hs & Hd). split; try done; cbn.
  - by etrans.
  - etrans; [done|by apply log_since_prefix].
  - etrans; [done|by apply log_since_prefix].
Qed.

Lemma progress_grows m d d' sh (s s' : State) :
  progress_ok s -> rs_main s = m -> rs_main s' = m -> rs_shutdown s = sh -> rs_shutdown s' = sh ->
  matches_durable (rs_sink s) = d -> matches_durable (rs_sink s') = d' -> d `prefix_of` d' -> progress_ok s'.
Proof.
  unfold progress_ok. intros P Em Em' Es Es' Ed Ed' Hd. rewrite Em, Es, Ed in P. rewrite Em', Es', Ed'.
  assert (forall ps, Forall (checkpoint d) ps -> Forall (checkpoint d') ps) as Hall.
  { intros ps Hps. eapply Forall_impl; [exact Hps|]. intros p. by apply checkpoint_grows. }
  destruct (mt_at m) as [| | | | | | | | | | |[x|]]; try (by apply Hall).
  destruct P as (ps & p & E & Hps & Hp). exists ps, p. split; [done|]. split; [by apply Hall|].
  destruct sh; [by eapply cut_short_grows|]. destruct Hp as [Hp Hc]. split; [by eapply reached_grows|done].
Qed.

Lemma send_grows h k r k' : sink_ok k -> Sink.send (MetaMatch h) k = (r, k') -> sink_grows k k'.
Proof.
  intros Hok Hs. split; [by eapply log_ok|]. split; [|by eapply log_grows]. destruct r as [[]|].
  - rewrite (match_accepted _ _ _ Hs). by eexists.
  - by rewrite (match_refused _ _ _ Hs).
Qed.

Lemma barrier_grows_log k r k' : sink_ok k -> durable_barrier k = (r, k') -> sink_grows k k'.
Proof.
  intros Hok Hs. split; [by eapply log_barrier_ok|]. split; [|by eapply log_barrier_grows].
  by rewrite (log_barrier_sent _ _ _ Hok Hs).
Qed.

Lemma core_collector s s' : run_core s -> co_running (rs_collector s) = true -> collector_step s s' -> run_core s'.
Proof.
  intros C Hrun Hs. pose proof (rc_running _ C Hrun) as Heq. destruct Hs as [h hits k Hh Hk|h hits k Hh Hk|hits Hh|Hh Ht Hw].
  - pose proof (send_grows _ _ _ _ (rc_sink _ C) Hk) as G. pose proof (core_sink k s C G) as []. cbn in *.
    pose proof (match_accepted _ _ _ Hk) as Es. split; try done; cbn; unfold blen; rewrite ?length_app; cbn; unfold blen in *; try lia.
    + intros _. specialize (rc_kept0 Heq). rewrite Hh in rc_kept0. cbn in rc_kept0. by rewrite <- app_assoc.
    + rewrite Es. unfold log_since. destruct (rc_base _ C) as [x Ex]. rewrite Ex, <- app_assoc, !drop_app_length.
      pose proof (rc_sent _ C) as Hsent. unfold log_since in Hsent. rewrite Ex, drop_app_length in Hsent.
      by apply submseteq_app.
  - pose proof (send_grows _ _ _ _ (rc_sink _ C) Hk) as G. pose proof (core_sink k s C G) as []. cbn in *.
    split; try done; cbn; lia.
  - destruct C. split; try done; cbn. rewrite Hh in rc_kept0. done.
  - destruct C. split; try done.
Qed.

Lemma collector_frame s s' :
  collector_step s s' ->
  rs_main s' = rs_main s /\ rs_shutdown s' = rs_shutdown s /\ rs_workers s' = rs_workers s /\ rs_acks s' = rs_acks s.
Proof. by intros []. Qed.

Lemma settled_collector recs s s' : settled recs s -> collector_step s s' -> settled recs s'.
Proof. intros [Hi Hh Hc Hr] Hs. destruct Hs; try congruence. by split. Qed.

Lemma no_barrier_collector s s' :
  HitBarrier ∉ rs_hits s -> collector_step s s' ->
  (HitBarrier ∉ rs_hits s') /\ co_ack (rs_collector s') = co_ack (rs_collector s).
Proof.
  intros Hn Hs. destruct Hs as [h hits k Hh Hk|h hits k Hh Hk|hits Hh|Hh Ht Hw]; try done; cbn; rewrite Hh in Hn.
  - split; [|done]. intros Hin. by apply Hn, list_elem_of_further.
  - split; [|done]. intros Hin. by apply Hn, list_elem_of_further.
  - destruct Hn. apply list_elem_of_here.
Qed.

Lemma calm_collector s s' : calm s -> collector_step s s' -> calm s'.
Proof.
  intros [] Hs. destruct (collector_frame _ _ Hs) as (_ & _ & Ew & Ea). destruct (no_barrier_collector _ _ ca_hits0 Hs) as [Hh Hc].
  split; congruence.
Qed.

Lemma asked_collector i got s s' : asked i got s -> collector_step s s' -> asked i got s'.
Proof.
  intros [] Hs. destruct (collector_frame _ _ Hs) as (_ & _ & Ew & Ea). destruct (no_barrier_collector _ _ as_hits0 Hs) as [Hh Hc].
  split; rewrite ?Ew, ?Ea, ?Hc; done.
Qed.

Lemma hits_asked_collector s s' :
  run_core s -> hits_asked s -> co_running (rs_collector s) = true -> collector_step s s' -> hits_asked s'.
Proof.
  intros C A Hrun Hs. pose proof (rc_running _ C Hrun) as Heq.
  destruct A as [([|x l] & El & Ea)|(Eh & Ea & Ec)]; cbn in *.
  - destruct Hs as [h hits k Hh Hk|h hits k Hh Hk|hits Hh|Hh Ht Hw]; rewrite El in Hh; try done.
    injection Hh as <-. right. by split_and!.
  - destruct Hs as [h hits k Hh Hk|h hits k Hh Hk|hits Hh|Hh Ht Hw]; rewrite El in Hh; try done; injection Hh as -> <-; left; by exists l.
  - destruct Hs as [h hits k Hh Hk|h hits k Hh Hk|hits Hh|Hh Ht Hw]; try congruence. right. by split_and!.
Qed.

Lemma at_inv_collector s s' :
  run_core s -> at_inv s -> co_running (rs_collector s) = true -> collector_step s s' -> at_inv s'.
Proof.
  intros C A Hrun Hs. destruct (collector_frame _ _ Hs) as (Em & Esh & Ew & Ea). unfold at_inv in *. rewrite Em.
  assert (stopped s -> stopped s') as Hstop.
  { intros [Hd|[Hse Hc]]; [left; congruence|right]. rewrite Em. split; [by eapply settled_collector|done]. }
  destruct (mt_at (rs_main s)) eqn:Eat; try (by apply Hstop); try done; destruct_and? A; rewrite ?Ew; split_and!; try done;
    eauto using calm_collector, asked_collector, settled_collector, hits_asked_collector; try congruence.
  match goal with H : settled _ s |- _ => destruct H as [_ Hh _ _] end. destruct Hs; try congruence. done.
Qed.

(** *** The main thread *)

Lemma core_goto a s : run_core s -> run_core (goto a s).
Proof. by intros []. Qed.

Lemma unasked_records q : WorkBarrier ∉ q -> q = map WorkRecord (queued q).
Proof.
  induction q as [|[r|] q IH]; intros Hn; [done| |].
  - cbn. f_equal. apply IH. intros Hin. by apply Hn, list_elem_of_further.
  - destruct Hn. apply list_elem_of_here.
Qed.

Lemma barrierless_hits l : HitBarrier ∉ l -> l = map HitMatch (in_flight l).
Proof.
  induction l as [|[h|] l IH]; intros Hn; [done| |].
  - cbn. f_equal. apply IH. intros Hin. by apply Hn, list_elem_of_further.
  - destruct Hn. apply list_elem_of_here.
Qed.

Lemma shard_snoc i recs r : shard i (recs ++ [r]) = shard i recs ++ (if decide (work_shard n r = i) then [r] else []).
Proof. unfold shard. rewrite filter_app, filter_cons. by destruct (decide _). Qed.

(** A record sent to its worker. *)
Lemma core_record_sent r rest seg w s :
  let i := work_shard (length (rs_workers s)) r in
  run_core s -> rs_workers s !! i = Some w ->
  run_core (set_main (record_sent r rest seg (rs_main s)) (set_worker i (push_work (WorkRecord r) w) s)).
Proof.
  intros i [] Hw. subst i. rewrite rc_workers0 in *. split; try done; cbn.
  - by rewrite length_insert.
  - intros j x Hx. apply list_lookup_insert_Some in Hx as [(<- & <- & _)|[Hne Hx]].
    + destruct (rc_worker0 _ _ Hw) as [Hs Hq]. split; [done|].
      rewrite shard_snoc, decide_True by done. cbn [push_work set_queue rw_queue rw_seen].
      by rewrite queued_app, app_assoc, Hq.
    + destruct (rc_worker0 _ _ Hx) as [Hs Hq]. split; [done|]. rewrite shard_snoc, decide_False by done. by rewrite app_nil_r.
  - by rewrite (flat_map_same _ _ _ w).
Qed.

Lemma calm_record_sent i r w m s :
  calm s -> rs_workers s !! i = Some w -> calm (set_main m (set_worker i (push_work (WorkRecord r) w) s)).
Proof.
  intros [] Hw. split; try done. apply Forall_insert; [done|]. pose proof (Forall_lookup_1 _ _ _ _ ca_workers0 Hw) as Hu.
  unfold unasked in *. cbn. rewrite not_elem_of_app, list_elem_of_singleton. by split.
Qed.

(** The barrier of a segment, sent to the next worker. *)
Lemma asked_next i w a s :
  asked i 0 s -> rs_workers s !! i = Some w ->
  asked (S i) 0 (goto a (set_worker i (set_acked false (push_work WorkBarrier w)) s)).
Proof.
  intros [] Hw. pose proof (as_workers0 i w Hw) as Hu. rewrite decide_False in Hu by lia. split; try done; cbn.
  - intros j x Hx. apply list_lookup_insert_Some in Hx as [(<- & <- & _)|[Hne Hx]].
    + rewrite decide_True by lia. right. split; [done|]. exists (queued (rw_queue w)). cbn. by rewrite <- unasked_records.
    + specialize (as_workers0 j x Hx). destruct (decide (j < i)%nat).
      * by rewrite decide_True by lia.
      * by rewrite decide_False by lia.
  - erewrite acked_succ; [by rewrite acked_insert_ge|apply list_lookup_insert_eq; by eapply lookup_lt_Some|done].
Qed.

(** With the answers of all workers, all of them are idle. *)
Lemma all_answered s : run_core s -> asked n n s -> Forall idle (rs_workers s) /\ calm s.
Proof.
  intros C []. pose proof (rc_workers _ C) as Hl. pose proof (acked_le n (rs_workers s)) as Hle.
  assert (acked n (rs_workers s) = n) as Hn by lia. rewrite <- Hl in Hn at 1. rewrite <- Hl in Hn.
  assert (Forall idle (rs_workers s)) as Hi.
  { apply Forall_forall. intros w Hin. pose proof (acked_all _ _ Hn Hin) as Ha. apply list_elem_of_lookup_1 in Hin as [j Hj].
    specialize (as_workers0 j w Hj). rewrite decide_True in as_workers0 by (rewrite <- Hl; by eapply lookup_lt_Some).
    destruct as_workers0 as [[_ Hi]|[Hp _]]; [done|congruence]. }
  split; [done|]. split; [lia| |done..]. eapply Forall_impl; [exact Hi|]. intros w [Hq _]. unfold unasked. rewrite Hq. apply not_elem_of_nil.
Qed.

Lemma take_committed m seg todo :
  segs = mt_committed m ++ seg :: todo -> take (S (length (mt_committed m))) segs = mt_committed m ++ [seg].
Proof.
  intros ->. change (seg :: todo) with ([seg] ++ todo). rewrite app_assoc, take_app_length'; [done|]. rewrite length_app. cbn. lia.
Qed.

(** Everything sent is durable after a barrier. *)
Lemma barrier_makes_durable recs k s :
  run_core s -> settled recs s -> durable_barrier (rs_sink s) = (Ok tt, k) ->
  scans recs /\ reference_hits recs ⊆+ log_since (matches_durable k) /\ co_matches (rs_collector s) = blen (reference_hits recs).
Proof.
  intros C St Hb. destruct (settled_hits _ _ C St) as (Hs & Hp & Hc). split; [done|]. split; [|done].
  rewrite (log_barrier_durable _ _ (rc_sink _ C) Hb), (log_barrier_sent _ _ _ (rc_sink _ C) Hb), <- Hp. apply (rc_sent _ C).
Qed.

Lemma commit_step c seg k s :
  run_core s -> segs = mt_committed (rs_main s) ++ seg :: mt_todo (rs_main s) ->
  settled (segment_records (mt_committed (rs_main s)) ++ sg_records seg) s -> calm s -> c = co_matches (rs_collector s) ->
  Forall (checkpoint (matches_durable (rs_sink s))) (mt_progress (rs_main s)) ->
  durable_barrier (rs_sink s) = (Ok tt, k) ->
  run_inv (set_main (commit (matches_found initial) c seg (rs_main s)) (set_rs_sink k s)).
Proof.
  intros C Hsegs St Ca -> Hps Hb. rewrite <- segment_records_snoc in St.
  destruct (barrier_makes_durable _ _ _ C St Hb) as (Hsc & Hd & Hc). pose proof (take_committed _ _ _ Hsegs) as Htake.
  destruct (barrier_grows_log _ _ _ (rc_sink _ C) Hb) as (Hok & _ & Hgrow).
  assert (blen (mt_committed (rs_main s) ++ [seg]) = blen (mt_committed (rs_main s)) + 1) as Hlen by (unfold blen; rewrite length_app; cbn; lia).
  assert ((length (mt_committed (rs_main s)) < length segs)%nat) as Hlt by (rewrite Hsegs, length_app; cbn; lia).
  split; [|split].
  - pose proof (core_sink k s C (barrier_grows_log _ _ _ (rc_sink _ C) Hb)) as []. cbn in *. split; try done; cbn.
    + rewrite Hc. done.
    + rewrite Hlen, rc_done0. lia.
    + rewrite total_bytes_snoc, rc_bytes0. lia.
    + exists (mt_todo (rs_main s)). by rewrite <- app_assoc.
  - split_and!; [cbn; by rewrite <- app_assoc|by destruct St|by destruct Ca].
  - unfold progress_ok. cbn [mt_at commit mt_progress rs_main set_main rs_sink set_rs_sink]. apply Forall_app. split.
    + eapply Forall_impl; [exact Hps|]. intros p. by apply checkpoint_grows.
    + apply Forall_singleton. exists (S (length (mt_committed (rs_main s)))). unfold counts. rewrite Htake. split; [|by rewrite Hc].
      split; cbn [segments_done bytes_processed]; rewrite ?Htake; try done.
      * rewrite (rc_done _ C). unfold blen. lia.
      * rewrite (rc_bytes _ C), total_bytes_snoc. lia.
Qed.

Lemma stopped_goto a s : stopped s -> stopped (goto a s).
Proof. intros [Hd|[[] Hc]]; [by left|right; by split]. Qed.

(** A step to a place that asks for nothing more. *)
Lemma goto_stopped a s :
  run_core s -> progress_ok s -> (match mt_at (rs_main s) with Finished _ => False | _ => True end) -> stopped s ->
  match a with Joining _ | JoinCollector => True | _ => False end -> run_inv (goto a s).
Proof.
  intros C P Hf Hs Ha. apply (stopped_goto a) in Hs. split; [by apply core_goto|].
  unfold at_inv, progress_ok in *. cbn [rs_main goto set_main mt_at set_at mt_progress rs_sink]. by destruct a, (mt_at (rs_main s)).
Qed.

Lemma finish_err s :
  run_core s -> progress_ok s -> (match mt_at (rs_main s) with Finished _ => False | _ => True end) ->
  run_inv (goto (Finished Err) s).
Proof.
  intros C P Hf. split; [by apply core_goto|]. split; [done|].
  unfold progress_ok in *. cbn. by destruct (mt_at (rs_main s)).
Qed.

Lemma finish_cut_short s :
  run_core s -> Forall (checkpoint (matches_durable (rs_sink s))) (mt_progress (rs_main s)) -> rs_shutdown s = true ->
  run_inv (set_main (finish_run (matches_found initial) (co_matches (rs_collector s)) (rs_main s)) s).
Proof.
  intros C P Hd. split; [by destruct C|]. split; [done|]. unfold progress_ok. cbn. eexists _, _. split; [done|]. split; [done|].
  rewrite Hd. eexists (length (mt_committed (rs_main s))), _. pose proof (rc_segments _ C) as [x Ex].
  assert (take (length (mt_committed (rs_main s))) segs = mt_committed (rs_main s)) as Ht.
  { rewrite Ex. by rewrite take_app_length. }
  rewrite Ht. split; [|split; [done|apply C]]. split; cbn; rewrite ?Ht; try apply C. rewrite Ex, length_app. lia.
Qed.

Lemma finish_complete k s :
  run_core s -> settled (segment_records segs) s -> mt_committed (rs_main s) = segs ->
  Forall (checkpoint (matches_durable (rs_sink s))) (mt_progress (rs_main s)) -> durable_barrier (rs_sink s) = (Ok tt, k) ->
  run_inv (set_main (finish_run (matches_found initial) (co_matches (rs_collector s)) (rs_main s)) (set_rs_sink k s)).
Proof.
  intros C St Hcom P Hb. destruct (barrier_makes_durable _ _ _ C St Hb) as (Hsc & Hd & Hc).
  pose proof (barrier_grows_log _ _ _ (rc_sink _ C) Hb) as G. pose proof (core_sink k s C G) as C'.
  destruct G as (_ & _ & Hgrow). split; [by destruct C'|]. split; [done|]. unfold progress_ok. cbn. eexists _, _. split; [done|]. split.
  { eapply Forall_impl; [exact P|]. intros p. by apply checkpoint_grows. }
  set (p := {| segments_done := _ |}).
  assert (reached (matches_durable k) (length segs) p /\ counts (length segs) p) as [Hr Hn].
  { unfold counts. rewrite firstn_all. split; [|by rewrite <- Hc]. split; cbn; rewrite ?firstn_all; try done.
    - rewrite (rc_done _ C), Hcom. done.
    - by rewrite (rc_bytes _ C), Hcom. }
  destruct (rs_shutdown s); [by eapply checkpoint_cut_short|done].
Qed.

(** Between the places of a segment only the place changes. *)
Lemma goto_inv a s :
  run_core s -> progress_ok s -> (match mt_at (rs_main s) with Finished _ => False | _ => True end) ->
  (match a with Finished _ => False | _ => True end) -> at_inv (goto a s) -> run_inv (goto a s).
Proof.
  intros C P Hf Ha A. split; [by apply core_goto|]. split; [done|].
  unfold progress_ok in *. cbn. by destruct a, (mt_at (rs_main s)).
Qed.

Lemma progress_running s :
  progress_ok s -> (match mt_at (rs_main s) with Finished _ => False | _ => True end) ->
  Forall (checkpoint (matches_durable (rs_sink s))) (mt_progress (rs_main s)).
Proof. unfold progress_ok. by destruct (mt_at (rs_main s)). Qed.

(** The same places over another state of the threads. *)
Lemma moved_inv m s s' :
  run_core s' -> rs_main s' = m -> progress_ok s -> (match mt_at (rs_main s) with Finished _ => False | _ => True end) ->
  (match mt_at m with Finished _ => False | _ => True end) -> mt_progress m = mt_progress (rs_main s) ->
  matches_durable (rs_sink s') = matches_durable (rs_sink s) -> at_inv s' -> run_inv s'.
Proof.
  intros C <- P Hf Hf' Hp Hd A. split; [done|]. split; [done|]. apply progress_running in P; [|done].
  unfold progress_ok. rewrite Hp, Hd. by destruct (mt_at (rs_main s')).
Qed.

(** The steps on a segment up to the barriers of the workers. *)
Lemma segment_steps s s' :
  run_inv s -> main_step (matches_found initial) s s' ->
  match mt_at (rs_main s) with AtPath | Scanning _ _ | Sending _ _ _ | SendBarriers _ _ => run_inv s' | _ => True end.
Proof.
  intros (C & A & P) Hs.
  destruct Hs as [Hat Hd|Hat Htodo|seg todo Hat Hd Htodo|r rest seg Hat Hd|r rest seg w Hat i Hw Hr Hl|r rest seg w Hat Hw Hr
    |rest seg Hat Hd|seg Hat Hd|i seg w Hat Hw Hr Hl|i seg w Hat Hw Hr|seg Hat| | | | | | | | | | | | | | | ];
    try (by match goal with H : mt_at _ = _ |- _ => rewrite H end);
    rewrite Hat; unfold at_inv in A; rewrite Hat in A;
    (assert (match mt_at (rs_main s) with Finished _ => False | _ => True end) as Hrun by by rewrite Hat).
  - apply goto_stopped; try done. by left.
  - apply goto_stopped; try done. right. destruct A as (Hsegs & St & _). rewrite Htodo, app_nil_r in Hsegs. by rewrite Hsegs.
  - destruct A as (Hsegs & St & Ca). rewrite Htodo in Hsegs. eapply (moved_inv _ s); try done; [by destruct C|].
    split; [done|]. split; [|by destruct Ca]. cbn. by rewrite (st_records _ _ St).
  - apply goto_inv; try done. by destruct A as (Hsegs & Hrec & []).
  - destruct A as (Hsegs & Hrec & Ca). eapply (moved_inv _ s); try done.
    + by apply core_record_sent.
    + split; [done|]. split; [cbn; by rewrite <- app_assoc|]. by apply calm_record_sent.
  - destruct (rs_shutdown s) eqn:Hd; [|by apply finish_err]. apply goto_stopped; try done. by left.
  - apply goto_stopped; try done. by left.
  - destruct (sg_ok seg); [|by apply finish_err]. destruct A as (Hsegs & Hrec & Ca). rewrite app_nil_r in Hrec.
    apply goto_inv; try done. split_and!; [done..| |lia]. destruct Ca. split; try done.
    + intros j w Hj. rewrite decide_False by lia. by eapply Forall_lookup_1.
    + cbn. by rewrite ca_acks0.
  - destruct A as (Hsegs & Hrec & Ha & Hi). eapply (moved_inv _ s); try done.
    + apply core_goto. apply (core_worker i w); try done. apply (worker_ok_queue _ _ _ false); [by apply (rc_worker _ C)|].
      by rewrite queued_app, app_nil_r.
    + split_and!; [done..| |]; [by apply asked_next|]. apply lookup_lt_Some in Hw. rewrite (rc_workers _ C) in Hw. lia.
  - by apply finish_err.
  - rewrite (rc_workers _ C) in *. destruct A as (Hsegs & Hrec & Ha & Hi). apply goto_inv; try done.
    split_and!; [done..|]. rewrite Nat.sub_diag. by destruct Ha.
Qed.

(** The steps from the answers of the workers to the commit. *)
Lemma barrier_steps s s' :
  run_inv s -> main_step (matches_found initial) s s' ->
  match mt_at (rs_main s) with AwaitAcks _ _ | SendHitBarrier _ | AwaitHits _ | Commit _ _ => run_inv s' | _ => True end.
Proof.
  intros (C & A & P) Hs.
  destruct Hs as [| | | | | | | | | | |todo acks seg Hat Hacks|todo seg Hat Hacks Hnone|seg Hat|seg Hat Hc Hl|seg Hat Hc|seg c Hat Hc
    |seg Hat Hc Hr|c seg k Hat Hb|c seg k Hat Hb| | | | | | ];
    try (by match goal with H : mt_at _ = _ |- _ => rewrite H end);
    rewrite Hat; unfold at_inv in A; rewrite Hat in A;
    (assert (match mt_at (rs_main s) with Finished _ => False | _ => True end) as Hrun by by rewrite Hat).
  - destruct A as (Hsegs & Hrec & Hm & []). eapply (moved_inv _ s); try done; [by destruct C|].
    split_and!; [done..|cbn; lia|]. split; try done. cbn. lia.
  - by apply finish_err.
  - destruct A as (Hsegs & Hrec & _ & Ha). rewrite Nat.sub_0_r in Ha. apply (all_answered s C) in Ha as [Hi Ca].
    apply goto_inv; try done. split_and!; try done. by destruct Ca.
  - destruct A as (Hsegs & Hrec & Hi & []). eapply (moved_inv _ s); try done.
    + destruct C. split; try done. cbn. by rewrite in_flight_app, app_nil_r.
    + split_and!; try done. left. exists (in_flight (rs_hits s)). cbn. by rewrite <- barrierless_hits.
  - by apply finish_err.
  - destruct A as (Hsegs & Hrec & Hi & Ha & [(l & _ & Hn)|(Hh & Hk & Hcount)]); [congruence|]. rewrite Hc in Hk. injection Hk as ->.
    eapply (moved_inv _ s); try done; [by destruct C|]. split_and!; try done. split; try done.
    + eapply Forall_impl; [exact Hi|]. intros w [Hq _]. unfold unasked. rewrite Hq. apply not_elem_of_nil.
    + cbn. rewrite Hh. apply not_elem_of_nil.
  - by apply finish_err.
  - destruct A as (Hsegs & St & Ca & Hc). apply progress_running in P; [|done]. by apply commit_step.
  - apply (finish_err (set_rs_sink k s)); try done.
    + apply core_sink; [done|]. eapply barrier_grows_log; [apply (rc_sink _ C)|done].
    + eapply (progress_grows _ _ _ _ s); [done..|]. eapply log_barrier_grows; [apply (rc_sink _ C)|done].
Qed.

(** The steps of a run that ends. *)
Lemma ending_steps s s' :
  run_inv s -> main_step (matches_found initial) s s' ->
  match mt_at (rs_main s) with Joining _ | JoinCollector | FinalBarrier => run_inv s' | _ => True end.
Proof.
  intros (C & A & P) Hs.
  destruct Hs as [| | | | | | | | | | | | | | | | | | | |i w ok Hat Hw He|i w Hat Hw He|Hat|Hat Hc|k Hat Hb|k Hat Hb];
    try (by match goal with H : mt_at _ = _ |- _ => rewrite H end);
    rewrite Hat; unfold at_inv in A; rewrite Hat in A;
    (assert (match mt_at (rs_main s) with Finished _ => False | _ => True end) as Hrun by by rewrite Hat).
  - destruct ok; [|by apply finish_err]. by apply goto_stopped.
  - by apply finish_err.
  - by apply goto_stopped.
  - destruct (rs_shutdown s) eqn:Hd; [apply finish_cut_short; try done; by apply progress_running|].
    destruct A as [A|[[] Hcom]]; [congruence|]. by apply goto_inv.
  - destruct A as [St Hcom]. apply progress_running in P; [|done]. by apply finish_complete.
  - apply (finish_err (set_rs_sink k s)); try done.
    + apply core_sink; [done|]. eapply barrier_grows_log; [apply (rc_sink _ C)|done].
    + eapply (progress_grows _ _ _ _ s); [done..|]. eapply log_barrier_grows; [apply (rc_sink _ C)|done].
Qed.

Lemma main_step_inv s s' : run_inv s -> main_step (matches_found initial) s s' -> run_inv s'.
Proof.
  intros I Hs. pose proof (segment_steps s s' I Hs) as H1. pose proof (barrier_steps s s' I Hs) as H2.
  pose proof (ending_steps s s' I Hs) as H3.
  destruct (mt_at (rs_main s)) eqn:Hat; try done. destruct Hs; congruence.
Qed.

(** *** All steps *)

Context (others : K -> K -> Prop) (Hothers : others_grow others).

Ltac same_threads := match goal with H : ?Q ?s |- ?Q _ => by destruct H end.

Lemma shutdown_inv s : run_inv s -> run_inv (ask_shutdown s).
Proof.
  intros (C & A & P). split; [by destruct C|]. split.
  - unfold at_inv in *. cbn. destruct (mt_at (rs_main s)); try done.
    all: destruct_and? A; split_and?; try done; try (by left); same_threads.
  - unfold progress_ok in *. cbn. destruct (mt_at (rs_main s)) as [| | | | | | | | | | |[x|]]; try done.
    destruct P as (ps & p & E & Hps & Hp). exists ps, p. split; [done|]. split; [done|].
    destruct (rs_shutdown s); [done|]. destruct Hp. by eapply checkpoint_cut_short.
Qed.

Lemma others_inv k s : run_inv s -> others (rs_sink s) k -> run_inv (set_rs_sink k s).
Proof.
  intros (C & A & P) Ho. destruct (Hothers _ _ Ho (rc_sink _ C)) as (Hok & Hs & Hd). split; [by apply core_sink|]. split.
  - unfold at_inv in *. cbn. destruct (mt_at (rs_main s)); try done.
    all: destruct_and? A; split_and?; try done; try (by destruct A as [A|[[] A]]; [left|right]); same_threads.
  - by eapply (progress_grows _ _ _ _ s).
Qed.

Lemma run_step_inv s s' : run_inv s -> run_step others (matches_found initial) s s' -> run_inv s'.
Proof.
  intros I [x Hs|i w x Hw _ Hs|x Hr Hs| |k Ho].
  - by eapply main_step_inv.
  - destruct I as (C & A & P). destruct (worker_step_frame i w s x Hs) as (Em & Esh & Ek & Eco). split; [by eapply core_worker_step|].
    split; [by eapply at_inv_worker|]. by eapply (progress_grows _ _ _ _ s); try done; rewrite ?Ek.
  - destruct I as (C & A & P). destruct (collector_frame _ _ Hs) as (Em & Esh & _ & _). split; [by eapply core_collector|].
    split; [by eapply at_inv_collector|]. eapply (progress_grows _ _ _ _ s); try done.
    destruct Hs as [h hits k Hh Hk|h hits k Hh Hk|hits Hh|Hh Ht Hw]; try done; by destruct (send_grows _ _ _ _ (rc_sink _ C) Hk) as (_ & _ & ?).
  - by apply shutdown_inv.
  - by apply others_inv.
Qed.

Lemma run_start_inv n0 sink :
  n = Nat.max n0 1 -> sink_ok sink -> base = matches_sent sink -> run_inv (start_run n0 scanner initial segs sink).
Proof.
  intros En Hok Hb. split; [|split].
  - split; try done; cbn.
    + by rewrite length_replicate.
    + intros i w [-> _]%lookup_replicate. split; [by exists []|done].
    + intros _. assert (forall k, flat_map rw_sent (replicate k (start_worker scanner)) = []) as -> by (intros k; by induction k). done.
    + by rewrite Hb.
    + unfold log_since. apply submseteq_nil_l.
    + rewrite hits_of_nil. apply submseteq_nil_l.
    + apply scans_nil.
    + by rewrite hits_of_nil.
    + rewrite Z.add_0_r. done.
    + rewrite Z.add_0_r. done.
    + by eexists.
  - assert (forall Q : RunWorker -> Prop, Q (start_worker scanner) -> Forall Q (replicate (Nat.max n0 1) (start_worker scanner))) as Hrep.
    { intros Q HQ. by apply Forall_replicate. }
    split; [done|]. split; split; try done; try (by apply Hrep); [apply Hrep|]; apply not_elem_of_nil.
  - apply Forall_nil_2.
Qed.
End RunSpec.

(** * The metadata pipeline under a replay run

    The pipeline keeps the contract of [ReplayRunSpec.DurableLog], and whatever
    the writer, the projector and the other senders do to it meanwhile leaves the
    matches sent and those made durable in place. *)

Section ReplaySink.
Context `{CODEC : SpoolCodec}.

#[export] Instance meta_durable_log : DurableLog Meta.
Proof.
  refine {| matches_durable (s : Meta) := omap match_row (me_spooled s) |}.
  - intros e s r s'. apply (send_keeps (S := Meta)).
  - intros h s r s' _ E. cbn in E. unfold meta_send in E. destruct (me_writing s); injection E as _ <-; done.
  - intros s r s'. apply (barrier_keeps (S := Meta)).
  - intros s r s' I E. destruct (barrier_spec _ _ _ I E) as [(_ & Es & _) _]. cbn. by rewrite Es.
  - intros s r s' I E. destruct (barrier_spec _ _ _ I E) as [(_ & _ & P) _]. by apply omap_prefix.
  - intros s s' I E. destruct (barrier_spec _ _ _ I E) as [_ Es]. cbn. by rewrite Es.
Defined.

(** What a step of the pipeline keeps. *)
Definition pipeline_grows (s s' : Meta) : Prop :=
  sink_inv s' /\ me_sent s `prefix_of` me_sent s' /\ me_spooled s `prefix_of` me_spooled s'.

Lemma turned_grows s s' : turned s s' -> pipeline_grows s s'.
Proof. intros (I & E & P). split; [done|]. by rewrite E. Qed.

Lemma writer_grows cut s : sink_inv s -> pipeline_grows s (writer_turn cut s).
Proof.
  intros I. destruct (me_writing s) eqn:Hw.
  - destruct (me_channel s) eqn:Hc.
    + assert (writer_turn cut s = s) as -> by (unfold writer_turn; by rewrite Hw, Hc). by apply turned_grows, turned_refl.
    + apply turned_grows. apply writer_turn_spec; [done|done|by rewrite Hc].
  - assert (writer_turn cut s = s) as -> by (unfold writer_turn; by rewrite Hw). by apply turned_grows, turned_refl.
Qed.

(** The projector and the barriers that wait leave the senders' side alone. *)
Lemma projector_frame shutdown accepted s :
  let s' := projector_turn shutdown accepted s in
  me_writing s' = me_writing s /\ me_sent s' = me_sent s /\ me_spooled s' = me_spooled s /\ me_channel s' = me_channel s.
Proof.
  cbn. unfold projector_turn. repeat (case_match; try done).
Qed.

Lemma waiter_frame i s :
  let s' := waiter_turn i s in
  me_writing s' = me_writing s /\ me_sent s' = me_sent s /\ me_spooled s' = me_spooled s /\ me_channel s' = me_channel s.
Proof. cbn. unfold waiter_turn. repeat (case_match; try done). Qed.

Lemma frame_grows s s' :
  sink_inv s -> me_writing s' = me_writing s /\ me_sent s' = me_sent s /\ me_spooled s' = me_spooled s /\ me_channel s' = me_channel s ->
  pipeline_grows s s'.
Proof. unfold pipeline_grows, sink_inv. intros I (-> & -> & -> & ->). done. Qed.

Lemma meta_step_grows s s' : meta_step s s' -> sink_inv s -> pipeline_grows s s'.
Proof.
  intros Hs I. destruct Hs as [e s r s' E|p s r s' E|cut s|shutdown accepted s|i s].
  - unfold meta_send in E. destruct (me_writing s) eqn:Hw; injection E as _ <-; [|by apply turned_grows, turned_refl].
    unfold pipeline_grows, sink_inv in *. cbn. rewrite Hw in *. rewrite I, events_app, app_assoc. split; [done|]. split; [|done].
    rewrite <- app_assoc. apply prefix_app. by eexists.
  - unfold push_barrier in E. destruct (me_writing s) eqn:Hw; injection E as _ <-; [|by apply turned_grows, turned_refl].
    unfold pipeline_grows, sink_inv in *. cbn. rewrite Hw in *. rewrite I, events_app. cbn. by rewrite app_nil_r.
  - by apply writer_grows.
  - apply frame_grows; [done|]. apply projector_frame.
  - apply frame_grows; [done|]. apply waiter_frame.
Qed.

Lemma meta_steps_grow : others_grow (rtc meta_step).
Proof.
  intros k k' Hs I. cut (pipeline_grows k k').
  { intros (J & P1 & P2). split; [done|]. by split; apply omap_prefix. }
  revert I. induction Hs as [k|k1 k2 k3 H1 _ IH]; intros I; [by apply turned_grows, turned_refl|].
  destruct (meta_step_grows _ _ H1 I) as (J & P1 & P2). destruct (IH J) as (J' & P1' & P2'). split; [done|]. by split; etrans.
Qed.
End ReplaySink.
