(* ===== verification/ReplayRunTheorems.v ===== *)
(** * A replay run comes to an end

    The channels of a run are bounded and its threads wait for each other: no
    reachable state is a deadlock, and no schedule can keep the threads going for
    ever. *)

From Stdlib Require Import Wellfounded Relation_Operators.
From stdpp Require Import strings sorting.
From S2P Require Import Prelude Model Services Text Disk Sink Segment SegmentStore SegmentOps Matching Matcher.
From S2P Require Import MatcherSpec Replay ReplayRunSpec.

Section Live.
Context `{HE : Engines} {K : Type} {HS : MetadataSink K}.
Context (others : K -> K -> Prop) (initial_matches : Z).

Abbreviation State := (RunState K).
Implicit Types s : State.

(** The steps of the program's own threads, and those around it. *)
Inductive replay_thread_step s : State -> Prop :=
  | t_main s' : main_step initial_matches s s' -> replay_thread_step s s'
  | t_worker i w s' : rs_workers s !! i = Some w -> running w = true -> worker_step i w s s' -> replay_thread_step s s'
  | t_collector s' : co_running (rs_collector s) = true -> collector_step s s' -> replay_thread_step s s'.

Inductive outer_step s : State -> Prop :=
  | o_shutdown : outer_step s (ask_shutdown s)
  | o_others k : others (rs_sink s) k -> outer_step s (set_rs_sink k s).

Lemma run_step_cases s s' : run_step others initial_matches s s' <-> replay_thread_step s s' \/ outer_step s s'.
Proof.
  split.
  - intros [x H|i w x Hw Hr H|x Hr H| |k H]; [left; by apply t_main|left; by eapply t_worker|left; by apply t_collector|right; by left|right; by right].
  - intros [[x H|i w x Hw Hr H|x Hr H]|[|k H]]; [by apply step_main|by eapply step_worker|by apply step_collector|apply step_shutdown|by apply step_others].
Qed.

(** ** A measure *)

Definition segment_cost (workers : nat) (g : RunSegment) : nat := 8 + 2 * workers + 2 * length (sg_records g).

Definition todo_cost (workers : nat) (gs : list RunSegment) : nat := list_sum (map (segment_cost workers) gs).

Definition main_left s : nat :=
  let n := length (rs_workers s) in
  let rest := (4 + n + todo_cost n (mt_todo (rs_main s)))%nat in
  match mt_at (rs_main s) with
  | AtPath => rest + 1
  | Scanning rs _ => rest + 8 + 2 * n + 2 * length rs
  | Sending _ rs _ => rest + 9 + 2 * n + 2 * length rs
  | SendBarriers i _ => rest + 6 + n + (n - i)
  | AwaitAcks missing _ => rest + 5 + missing
  | SendHitBarrier _ => rest + 4
  | AwaitHits _ => rest + 3
  | Commit _ _ => rest + 2
  | Joining i => 3 + (n - i)
  | JoinCollector => 2
  | FinalBarrier => 1
  | Finished _ => 0
  end.

Definition flag (b : bool) : nat := if b then 1 else 0.

Definition load (w : RunWorker) : nat := length (rw_queue w) + flag (running w).

Definition work_left s : nat := list_sum (map load (rs_workers s)).

Definition hits_left s : nat :=
  list_sum (map (fun w => 2 * length (rw_outbox w))%nat (rs_workers s)) + length (rs_hits s) + flag (co_running (rs_collector s)).

Definition less : relation (nat * (nat * nat)) := slexprod nat (nat * nat) lt (slexprod nat nat lt lt).

Lemma less_wf : well_founded less.
Proof. apply wf_slexprod; [apply lt_wf|]. apply wf_slexprod; apply lt_wf. Qed.

Definition measure_of s : nat * (nat * nat) := (main_left s, (work_left s, hits_left s)).

Lemma list_sum_insert (f : RunWorker -> nat) (ws : list RunWorker) i w w' :
  ws !! i = Some w -> exists rest, list_sum (map f ws) = (f w + rest)%nat /\ list_sum (map f (<[i := w']> ws)) = (f w' + rest)%nat.
Proof.
  intros Hi. exists (list_sum (map f (take i ws)) + list_sum (map f (drop (S i) ws)))%nat. split.
  - rewrite <- (take_drop_middle _ _ _ Hi) at 1. rewrite map_app, list_sum_app. cbn [map]. unfold list_sum. cbn [fold_right]. lia.
  - rewrite insert_take_drop by (by eapply lookup_lt_Some). rewrite map_app, list_sum_app. cbn [map]. unfold list_sum. cbn [fold_right]. lia.
Qed.

Lemma main_step_less s s' : main_step initial_matches s s' -> (main_left s' < main_left s)%nat.
Proof.
  unfold main_left.
  intros Hs; destruct Hs; rewrite ?H, ?H0, ?H1;
    try match goal with H : mt_at _ = _ |- _ => rewrite H end; cbn [rs_main goto set_main set_worker set_at mt_at mt_todo rs_workers
      take_segment record_sent set_acks set_hits set_collector set_rs_sink commit finish_run];
    rewrite ?length_insert; try lia.
  - unfold todo_cost, segment_cost. cbn [map length]. unfold list_sum. cbn [fold_right]. lia.
  - cbn [length]. lia.
  - destruct (rs_shutdown s); lia.
  - destruct (sg_ok seg); lia.
  - apply lookup_lt_Some in H0. lia.
  - apply lookup_lt_Some in H0. destruct ok; lia.
  - destruct (rs_shutdown s); cbn; lia.
Qed.

Lemma worker_step_less i w s s' :
  rs_workers s !! i = Some w -> running w = true -> worker_step i w s s' -> less (measure_of s') (measure_of s).
Proof.
  intros Hw Hr Hs.
  assert (main_left s' = main_left s) as Hm.
  { unfold main_left. by destruct Hs; cbn; rewrite length_insert. }
  unfold measure_of. rewrite Hm. apply right_slex.
  assert (forall w', (load w' < length (rw_queue w) + 1)%nat ->
    (list_sum (map load (<[i := w']> (rs_workers s))) < work_left s)%nat) as Hless.
  { intros w' Hlt. unfold work_left. destruct (list_sum_insert load _ i w w' Hw) as (rest & -> & ->).
    unfold load at 2. rewrite Hr. cbn. lia. }
  destruct Hs as [r q o sc Ho Hq Hsc|r q Ho Hq Hsc|q Ho Hq|h rest Ho Hc Hl|h rest Ho Hc|Ho Hq Ht].
  - apply left_slex, Hless. unfold load. change (running _) with (running w). rewrite Hr, Hq. cbn. lia.
  - apply left_slex, Hless. unfold load. cbn. lia.
  - apply left_slex, Hless. unfold load. change (running _) with (running w). rewrite Hr, Hq. cbn. lia.
  - assert (work_left (set_hits (rs_hits s ++ [HitMatch h]) (set_worker i (sent_hit h rest w) s)) = work_left s) as Hsame.
    { unfold work_left. cbn [rs_workers set_hits set_worker]. destruct (list_sum_insert load _ i w (sent_hit h rest w) Hw) as (x & -> & ->). done. }
    rewrite Hsame. apply right_slex. unfold hits_left. cbn [rs_hits set_hits set_worker rs_workers rs_collector].
    destruct (list_sum_insert (fun w => 2 * length (rw_outbox w))%nat _ i w (sent_hit h rest w) Hw) as (x & -> & ->).
    rewrite Ho, length_app. cbn. lia.
  - apply left_slex, Hless. unfold load. cbn. lia.
  - apply left_slex, Hless. unfold load. cbn. lia.
Qed.

Lemma collector_step_less s s' :
  co_running (rs_collector s) = true -> collector_step s s' -> less (measure_of s') (measure_of s).
Proof.
  intros Hr Hs. assert (main_left s' = main_left s /\ work_left s' = work_left s) as [Hm Hw] by by destruct Hs.
  unfold measure_of. rewrite Hm, Hw. apply right_slex, right_slex. unfold hits_left.
  destruct Hs as [h hits k Hh Hk|h hits k Hh Hk|hits Hh|Hh Ht Hall]; cbn; rewrite Hr, ?Hh; cbn; unfold list_sum; lia.
Qed.

Lemma replay_thread_step_less s s' : replay_thread_step s s' -> less (measure_of s') (measure_of s).
Proof.
  intros [x H|i w x Hw Hr H|x Hr H]; [|by eapply worker_step_less|by apply collector_step_less].
  apply left_slex. by apply main_step_less.
Qed.

Lemma outer_steps_same s s' : rtc outer_step s s' -> measure_of s' = measure_of s.
Proof. induction 1 as [|x y z H _ IH]; [done|]. rewrite IH. by destruct H. Qed.

(** One step of a thread, after any steps around it. *)
Definition turn s' s : Prop := exists s1, rtc outer_step s s1 /\ replay_thread_step s1 s'.

Lemma turns_end s : Acc turn s.
Proof.
  revert s. apply (wf_incl _ _ (fun a b => less (measure_of a) (measure_of b))).
  - intros s' s (s1 & Ho & Ht). rewrite <- (outer_steps_same _ _ Ho). by apply replay_thread_step_less.
  - apply (wf_inverse_image _ _ less). apply less_wf.
Qed.

(** ** No deadlock *)

(** The workers that were joined have ended. *)
Definition joined s : Prop :=
  let ended i := forall j w, (j < i)%nat -> rs_workers s !! j = Some w -> running w = false in
  match mt_at (rs_main s) with
  | Joining i => (i <= length (rs_workers s))%nat /\ ended i
  | JoinCollector => ended (length (rs_workers s))
  | _ => True
  end.

Lemma ended_insert (ws : list RunWorker) i w w' (Q : nat -> Prop) :
  ws !! i = Some w -> (running w = false -> running w' = false) ->
  (forall j x, Q j -> ws !! j = Some x -> running x = false) ->
  forall j x, Q j -> <[i := w']> ws !! j = Some x -> running x = false.
Proof.
  intros Hw Hr H j x Hj Hx. apply list_lookup_insert_Some in Hx as [(<- & <- & _)|[_ Hx]]; [|by eapply H].
  apply Hr. by eapply H.
Qed.

Lemma joined_worker i w s s' : joined s -> rs_workers s !! i = Some w -> worker_step i w s s' -> joined s'.
Proof.
  unfold joined. intros J Hw Hs.
  assert (rs_main s' = rs_main s /\ exists w', rs_workers s' = <[i := w']> (rs_workers s) /\ (running w = false -> running w' = false))
    as (-> & w' & -> & Hr).
  { destruct Hs; (split; [done|]); eexists; (split; [reflexivity|]); done. }
  rewrite length_insert. destruct (mt_at (rs_main s)); try done.
  - split; [apply J|]. destruct J as [_ J]. by eapply (ended_insert _ i w w' (fun j => (j < next)%nat)).
  - by eapply (ended_insert _ i w w' (fun j => (j < length (rs_workers s))%nat)).
Qed.

Lemma joined_main s s' : joined s -> main_step initial_matches s s' -> joined s'.
Proof.
  unfold joined. intros J Hs. destruct Hs; try done;
    try (match goal with H : mt_at _ = _ |- _ => rewrite H in J end); cbn; try (split; [lia|]; intros; lia); try done.
  - destruct (rs_shutdown s); [|done]. split; [lia|]. intros; lia.
  - by destruct (sg_ok seg).
  - destruct ok; [|done]. destruct J as [Hi J]. pose proof (lookup_lt_Some _ _ _ H0). split; [lia|].
    intros j x Hj Hx. destruct (decide (j = i)) as [->|]; [|apply (J j); [lia|done]].
    assert (x = w) as -> by congruence. unfold running. by rewrite H1.
  - by destruct J.
  - by destruct (rs_shutdown s).
Qed.

Lemma joined_step s s' : joined s -> run_step others initial_matches s s' -> joined s'.
Proof.
  intros J [x H|i w x Hw Hr H|x Hr H| |k H]; [by eapply joined_main|by eapply joined_worker| |done|done].
  destruct H; done.
Qed.

Definition moves s : Prop := exists s', replay_thread_step s s'.

(** The collector takes what is in its channel. *)
Lemma collector_moves s : co_running (rs_collector s) = true -> rs_hits s <> [] -> moves s.
Proof.
  intros Hr Hh. destruct (rs_hits s) as [|[h|] l] eqn:El; [done| |].
  - destruct (Sink.send (MetaMatch h) (rs_sink s)) as [[[]|] k] eqn:Ek.
    + eexists. apply t_collector; [done|]. by eapply c_match.
    + eexists. apply t_collector; [done|]. by eapply c_refused.
  - eexists. apply t_collector; [done|]. by eapply c_barrier.
Qed.

Lemma full_not_empty {A} (l : list A) c : 0 < c -> ~ blen l < c -> l <> [].
Proof. intros Hc Hl ->. by apply Hl. Qed.

(** A worker with work moves, or the collector does. *)
Lemma worker_moves i w s :
  rs_workers s !! i = Some w -> running w = true -> rw_queue w <> [] \/ rw_outbox w <> [] -> moves s.
Proof.
  intros Hw Hr Hwork. destruct (rw_outbox w) as [|h rest] eqn:Ho.
  - destruct Hwork as [Hq|]; [|done]. destruct (rw_queue w) as [|[r|] q] eqn:Eq; [done| |].
    + destruct (scan_record r (rw_scanner w)) as [[o sc]|] eqn:Es.
      * eexists. eapply t_worker; [done..|]. by eapply w_record.
      * eexists. eapply t_worker; [done..|]. by eapply w_panic.
    + eexists. eapply t_worker; [done..|]. by eapply w_barrier.
  - destruct (co_running (rs_collector s)) eqn:Hc.
    + destruct (decide (blen (rs_hits s) < HIT_CAPACITY)) as [Hl|Hl].
      * eexists. eapply t_worker; [done..|]. by eapply w_hit.
      * apply collector_moves; [done|]. by apply (full_not_empty _ HIT_CAPACITY).
    + eexists. eapply t_worker; [done..|]. by eapply w_hit_fails.
Qed.

Lemma main_moves s s' : main_step initial_matches s s' -> moves s.
Proof. intros H. eexists. by apply t_main. Qed.
End Live.

(** * Replay runs: checkpoints, completion, termination *)

Section Theorems.
Context `{HE : Engines} {K : Type} {HS : MetadataSink K} {HM : MatchLog K} {HL : DurableLog K}.
Context (others : K -> K -> Prop) (Hothers : others_grow others).
Context (workers : nat) (scanner : ReplayScanner) (initial : ReplayProgress) (segs : list RunSegment).

Abbreviation State := (RunState K).
Abbreviation n := (Nat.max workers 1).

(** The states of a run over [segs] from a sink. *)
Definition run_reachable (sink : K) (s : State) : Prop :=
  rtc (run_step others (matches_found initial)) (start_run workers scanner initial segs sink) s.

Lemma reachable_inv sink s :
  sink_ok sink -> run_reachable sink s ->
  run_inv n scanner initial segs (matches_sent sink) s /\ joined s.
Proof.
  intros Hok. apply (rtc_ind_r (fun s => run_inv n scanner initial segs (matches_sent sink) s /\ joined s)).
  - split; [by apply run_start_inv|done].
  - intros x y _ Hs [I J]. split; [by eapply run_step_inv|]. by eapply joined_step.
Qed.

Lemma shard_exists r (ws : list RunWorker) : (0 < length ws)%nat -> is_Some (ws !! work_shard (length ws) r).
Proof.
  intros Hl. apply lookup_lt_is_Some_2. unfold work_shard. set (x := wrap 64 _). pose proof (Z.mod_pos_bound x (Z.of_nat (length ws))). lia.
Qed.

(** The main thread waits for nobody who waits for it. *)
Lemma segment_moves base s :
  run_core n scanner initial segs base s ->
  match mt_at (rs_main s) with AtPath | Scanning _ _ | Sending _ _ _ => moves (matches_found initial) s | _ => True end.
Proof.
  intros C. pose proof (rc_workers _ _ _ _ _ _ C) as Hl. destruct (mt_at (rs_main s)) as [|[|r rest] seg|r rest seg| | | | | | | | |] eqn:Hat; try done.
  - destruct (rs_shutdown s) eqn:Hd; [by eapply main_moves, m_shutdown|].
    destruct (mt_todo (rs_main s)) eqn:Ht; [by eapply main_moves, m_no_more|by eapply main_moves, m_next].
  - destruct (rs_shutdown s) eqn:Hd; [by eapply main_moves, m_scan_shutdown|by eapply main_moves, m_scanned].
  - destruct (rs_shutdown s) eqn:Hd; [by eapply main_moves, m_scan_shutdown|by eapply main_moves, m_deliver].
  - destruct (shard_exists r (rs_workers s)) as [w Hw]; [lia|]. destruct (running w) eqn:Hr; [|by eapply main_moves, m_send_fails].
    destruct (decide (blen (rw_queue w) < WORK_CAPACITY)) as [Hq|Hq]; [by eapply main_moves, m_send|].
    eapply worker_moves; [done..|]. left. by apply (full_not_empty _ WORK_CAPACITY).
Qed.

Lemma barriers_move base s :
  run_core n scanner initial segs base s -> at_inv n segs s ->
  match mt_at (rs_main s) with
  | SendBarriers _ _ | AwaitAcks _ _ | SendHitBarrier _ | AwaitHits _ | Commit _ _ => moves (matches_found initial) s
  | _ => True
  end.
Proof.
  intros C A. pose proof (rc_workers _ _ _ _ _ _ C) as Hl. unfold at_inv in A.
  destruct (mt_at (rs_main s)) as [| | |i seg|[|missing] seg|seg|seg|k seg| | | |] eqn:Hat; try done.
  - destruct (rs_workers s !! i) as [w|] eqn:Hw.
    + destruct (running w) eqn:Hr; [|by eapply main_moves, m_barrier_fails].
      destruct (decide (blen (rw_queue w) < WORK_CAPACITY)) as [Hq|Hq]; [by eapply main_moves, m_barrier|].
      eapply worker_moves; [done..|]. left. by apply (full_not_empty _ WORK_CAPACITY).
    + apply lookup_ge_None in Hw. destruct A as (_ & _ & _ & Hi). assert (i = length (rs_workers s)) as -> by lia.
      by eapply main_moves, m_barriers_sent.
  - by eapply main_moves, m_acked.
  - destruct (rs_acks s) as [|acks] eqn:Ha; [|by eapply main_moves, m_ack].
    destruct (decide (Exists (fun w => running w = true /\ is_empty (rw_queue w) = false) (rs_workers s))) as [He|He].
    + apply Exists_exists in He as (w & Hin & Hr & Hb). apply list_elem_of_lookup_1 in Hin as [i Hw].
      eapply worker_moves; [done..|]. left. intros Hq. by rewrite Hq in Hb.
    + eapply main_moves, m_ack_fails; [done..|]. intros w Hin Hr Hb. apply He, Exists_exists. exists w.
      split_and!; [done..|]. destruct (rw_queue w); [by apply not_elem_of_nil in Hb|done].
  - destruct (co_running (rs_collector s)) eqn:Hr; [|by eapply main_moves, m_hit_barrier_fails].
    destruct (decide (blen (rs_hits s) < HIT_CAPACITY)) as [Hq|Hq]; [by eapply main_moves, m_hit_barrier|].
    apply collector_moves; [done|]. by apply (full_not_empty _ HIT_CAPACITY).
  - destruct (co_ack (rs_collector s)) as [k|] eqn:Ha; [by eapply main_moves, m_hit_ack|].
    destruct (co_running (rs_collector s)) eqn:Hr; [|by eapply main_moves, m_hit_ack_fails].
    apply collector_moves; [done|]. destruct A as (_ & _ & _ & _ & [(l & -> & _)|(_ & ? & _)]); [by destruct l|congruence].
  - destruct (durable_barrier (rs_sink s)) as [[[]|] x] eqn:Eb; [by eapply main_moves, m_commit|by eapply main_moves, m_commit_fails].
Qed.

Lemma ending_moves base s :
  run_core n scanner initial segs base s -> joined s ->
  match mt_at (rs_main s) with Joining _ | JoinCollector | FinalBarrier => moves (matches_found initial) s | _ => True end.
Proof.
  intros C J. pose proof (rc_workers _ _ _ _ _ _ C) as Hl. unfold joined in J.
  destruct (mt_at (rs_main s)) as [| | | | | | | |i| | |] eqn:Hat; try done.
  - destruct (rs_workers s !! i) as [w|] eqn:Hw.
    + destruct (rw_end w) as [|ok|] eqn:He; [|by eapply main_moves, m_join|by eapply main_moves, m_join_panicked].
      assert (running w = true) as Hr by (unfold running; by rewrite He).
      destruct (rw_queue w) eqn:Hq; [|eapply worker_moves; [done..|]; left; congruence].
      destruct (rw_outbox w) eqn:Ho; [|eapply worker_moves; [done..|]; right; congruence].
      eexists. eapply t_worker; [done..|]. apply w_done; [done..|]. by rewrite Hat.
    + apply lookup_ge_None in Hw. destruct J as [Hi _]. assert (i = length (rs_workers s)) as -> by lia. by eapply main_moves, m_joined.
  - destruct (co_running (rs_collector s)) eqn:Hr; [|by eapply main_moves, m_collected].
    destruct (rs_hits s) eqn:Hh; [|apply collector_moves; congruence].
    eexists. apply t_collector; [done|]. apply c_done; [done|by rewrite Hat|].
    intros w Hin. apply list_elem_of_lookup_1 in Hin as [j Hj]. by eapply J; [eapply lookup_lt_Some|].
  - destruct (durable_barrier (rs_sink s)) as [[[]|] x] eqn:Eb; [by eapply main_moves, m_final|by eapply main_moves, m_final_fails].
Qed.


(** C15. A checkpoint of a replay job is durable.  In every state that any schedule
    of the run's threads reaches, each progress message sent before the last one
    counts a number [k] of segments, all the matches that scans of the first [k]
    segments find, each worker scanning its share of the flows in order, are in
    durable metadata storage, as often as found, and the message counts exactly
    these.  The last message of a finished run says so of all segments if no
    shutdown came in between, and otherwise of the segments committed, with at
    least their matches counted. *)
Theorem checkpoint_is_durable sink s :
  sink_ok sink -> run_reachable sink s ->
  let durable := matches_durable (rs_sink s) in
  let base := matches_sent sink in
  match mt_at (rs_main s) with
  | Finished (Ok _) => exists ps p, mt_progress (rs_main s) = ps ++ [p] /\
      Forall (checkpoint n scanner initial segs base durable) ps /\
      (if rs_shutdown s then cut_short n scanner initial segs base durable p
       else reached n scanner initial segs base durable (length segs) p /\ counts n scanner initial segs (length segs) p)
  | _ => Forall (checkpoint n scanner initial segs base durable) (mt_progress (rs_main s))
  end.
Proof.
  intros Hok Hs durable base. destruct (reachable_inv sink s Hok Hs) as [(_ & _ & P) _]. exact P.
Qed.
End Theorems.
