(* ===== verification/ReplayJobs.v ===== *)
(** * Replay jobs over their runs

    What the table of jobs says of a job while it runs and after, and what a later
    start takes up: with [ReplayRunTheorems], the segments skipped are those whose
    matches are durable, and a completed replay has found every literal. *)

From stdpp Require Import strings sorting.
From S2P Require Import Prelude Model Text Services Disk DiskSpec Sink Segment SegmentStore SegmentOps.
From S2P Require Import Matching Matcher ScanSpec GroupSpec StreamSpec MatcherSpec ReplaySpec Replay ReplayRunSpec ReplayRunTheorems.

(** The columns an update sets. *)
Definition set_progress (status : JobStatus) (p : ReplayProgress) (job : ReplayJob) : ReplayJob :=
  {| rj_id := rj_id job; rj_pattern_ids := rj_pattern_ids job; rj_pattern_revisions := rj_pattern_revisions job;
     rj_segment_cutoff := rj_segment_cutoff job; rj_segment_paths := rj_segment_paths job; rj_status := status;
     rj_created_at := rj_created_at job; rj_segments_total := rj_segments_total job; rj_segments_done := segments_done p;
     rj_bytes_processed := bytes_processed p; rj_matches_found := matches_found p |}.

(** The table of jobs; a failed update has changed the row or not. *)
Class JobDbLaws (D : Type) `{JobDb D} := {
  jobs_of : D -> gmap Z ReplayJob;
  updated id status p d r d' :
    update_replay_progress id status p d = (r, d') ->
    jobs_of d' = alter (set_progress status p) id (jobs_of d) \/ (r = Err /\ jobs_of d' = jobs_of d);
  created patterns paths d job d' :
    create_replay_job patterns paths d = (Ok job, d') ->
    exists id now, job = frozen_job id now patterns paths /\ jobs_of d !! id = None /\ jobs_of d' = <[id := job]> (jobs_of d)
}.

Section Rows.
Context {D : Type} `{JobDbLaws D}.

Lemma updated_row id status p d r d' row :
  update_replay_progress id status p d = (r, d') -> jobs_of d !! id = Some row ->
  jobs_of d' !! id = Some (set_progress status p row) \/ (r = Err /\ jobs_of d' !! id = Some row).
Proof.
  intros Hu Hr. destruct (updated _ _ _ _ _ _ Hu) as [E|[-> E]]; rewrite E; [left|by right].
  by rewrite lookup_alter_eq, Hr.
Qed.

(** A job's row shows the progress of one of the messages. *)
Definition shows (job : ReplayJob) (ps : list ReplayProgress) (d : D) : Prop :=
  exists status p, jobs_of d !! rj_id job = Some (set_progress status p job) /\ (p = job_progress job \/ p ∈ ps).

Lemma shows_start job d : jobs_of d !! rj_id job = Some job -> shows job [] d.
Proof. intros Hr. exists (rj_status job), (job_progress job). split; [by destruct job|by left]. Qed.

Lemma shows_update job ps status p d r d' :
  update_replay_progress (rj_id job) status p d = (r, d') -> p = job_progress job \/ p ∈ ps -> shows job ps d -> shows job ps d'.
Proof.
  intros Hu Hp (st & q & Hr & Hq). destruct (updated_row _ _ _ _ _ _ _ Hu Hr) as [E|[_ E]]; [by exists status, p|by exists st, q].
Qed.

Lemma shows_mono job ps qs d : (forall p, p ∈ ps -> p ∈ qs) -> shows job ps d -> shows job qs d.
Proof. intros Hs (st & p & Hr & Hp). exists st, p. split; [done|]. naive_solver. Qed.

Lemma note_progress_shows job ps received : forall d r d',
  note_progress (rj_id job) received d = (r, d') -> (forall p, p ∈ received -> p ∈ ps) -> shows job ps d ->
  r = Ok tt /\ shows job ps d'.
Proof.
  induction received as [|p received IH]; intros d r d' Hn Hin Hs; [by injection Hn as <- <-|].
  cbn [note_progress] in Hn. unfold ignore, mbind, Eff_bind in Hn.
  destruct (update_replay_progress (rj_id job) JobRunning p d) as [r1 d1] eqn:Hu. cbn in Hn.
  eapply IH; [exact Hn|intros q Hq; apply Hin; by apply list_elem_of_further|].
  eapply shows_update; [exact Hu|right; apply Hin, list_elem_of_here|done].
Qed.

Lemma last_progress_in job rep : last_progress job rep = job_progress job \/ last_progress job rep ∈ rr_received rep ++ rr_drained rep.
Proof.
  unfold last_progress. generalize (rr_received rep ++ rr_drained rep) as l. intros l.
  destruct l as [|p l _] using rev_ind; [by left|]. right. rewrite List.last_last. apply elem_of_app. right. by apply list_elem_of_singleton.
Qed.

(** The end of a job. *)
Lemma execute_job_row job rep d r d' :
  jobs_of d !! rj_id job = Some job -> execute_job job rep d = (r, d') ->
  shows job (rr_received rep ++ rr_drained rep) d' /\
  (r = Ok tt -> (rr_shutdown rep = true \/ rr_result rep = Ok tt) /\
     jobs_of d' !! rj_id job = Some (set_progress (if rr_shutdown rep then JobQueued else JobCompleted) (last_progress job rep) job)).
Proof.
  intros Hrow Hex. set (ps := rr_received rep ++ rr_drained rep). pose proof (last_progress_in job rep) as Hlast.
  assert (shows job ps d) as S0. { eapply shows_mono; [|by apply shows_start]. by intros p ?%elem_of_nil. }
  unfold execute_job in Hex. apply bind_cases in Hex as [[Hu ->]|(u & d1 & Hu & Hex)].
  { split; [|done]. eapply shows_update; [exact Hu|by left|done]. }
  assert (shows job ps d1) as S1 by (eapply shows_update; [exact Hu|by left|done]).
  apply bind_cases in Hex as [[Hn ->]|([] & d2 & Hn & Hex)].
  { destruct (note_progress_shows job ps _ _ _ _ Hn) as [? _]; [|done|done]. intros p Hp. apply elem_of_app. by left. }
  destruct (note_progress_shows job ps _ _ _ _ Hn) as [_ S2]; [intros p Hp; apply elem_of_app; by left|done|].
  assert (forall status r0 d3, update_replay_progress (rj_id job) status (last_progress job rep) d2 = (r0, d3) ->
    shows job ps d3 /\ (r0 = Ok tt -> jobs_of d3 !! rj_id job = Some (set_progress status (last_progress job rep) job))) as Hfin.
  { intros status r0 d3 Hup. split; [by eapply shows_update|]. intros ->. destruct S2 as (st & p & Hr & _).
    destruct (updated_row _ _ _ _ _ _ _ Hup Hr) as [E|[? _]]; done. }
  destruct (rr_shutdown rep); [destruct (Hfin _ _ _ Hex); split; [done|]; intros Hr; split; [by left|by auto]|].
  destruct (rr_result rep) as [[]|] eqn:Hres; [destruct (Hfin _ _ _ Hex); split; [done|]; intros Hr; split; [by right|by auto]|].
  apply bind_cases in Hex as [[Hu2 ->]|(u2 & d3 & Hu2 & [= <- <-])]; (split; [by eapply Hfin|done]).
Qed.
End Rows.

(** ** What a later start takes up *)

Section Resume.
Context `{HE : Engines} {K : Type} {HS : MetadataSink K} {HM : MatchLog K} {HL : DurableLog K}.
Context (others : K -> K -> Prop) (Hothers : others_grow others) (workers : nat) (scanner : ReplayScanner).

Abbreviation n := (Nat.max workers 1).

(** Every message of a run is about segments whose matches are durable. *)
Lemma messages_reached initial segs sink s p :
  sink_ok sink -> run_reachable others workers scanner initial segs sink s -> p = initial \/ p ∈ mt_progress (rs_main s) ->
  exists k, reached n scanner initial segs (matches_sent sink) (matches_durable (rs_sink s)) k p.
Proof.
  intros Hok Hs Hp. destruct (reachable_inv others Hothers workers scanner initial segs sink s Hok Hs) as [(_ & _ & P) _].
  destruct Hp as [->|Hp].
  { exists 0%nat. split; [lia|cbn; lia|unfold total_bytes; cbn; by rewrite Z.add_0_r|apply scans_nil|]. cbn [take segment_records flat_map]. rewrite hits_of_nil. apply submseteq_nil_l. }
  assert (forall ps, Forall (checkpoint n scanner initial segs (matches_sent sink) (matches_durable (rs_sink s))) ps -> p ∈ ps ->
    exists k, reached n scanner initial segs (matches_sent sink) (matches_durable (rs_sink s)) k p) as Hall.
  { intros ps Hps Hin. rewrite Forall_forall in Hps. destruct (Hps p Hin) as (k & Hr & _). by exists k. }
  unfold progress_ok in P. destruct (mt_at (rs_main s)) as [| | | | | | | | | | |[x|]]; try by eapply Hall.
  destruct P as (ps & q & E & Hps & Hq). rewrite E in Hp. apply elem_of_app in Hp as [Hp|Hp%list_elem_of_singleton]; [by eapply Hall|].
  subst q. destruct (rs_shutdown s); [destruct Hq as (k & m & Hr & _); by exists k|]. eexists. by apply Hq.
Qed.

(** The last message of a run that was not cut short is about all segments. *)
Lemma last_reached initial segs sink s :
  sink_ok sink -> run_reachable others workers scanner initial segs sink s -> mt_at (rs_main s) = Finished (Ok tt) -> rs_shutdown s = false ->
  exists ps p, mt_progress (rs_main s) = ps ++ [p] /\
    reached n scanner initial segs (matches_sent sink) (matches_durable (rs_sink s)) (length segs) p.
Proof.
  intros Hok Hs Hat Hd. destruct (reachable_inv others Hothers workers scanner initial segs sink s Hok Hs) as [(_ & _ & P) _].
  unfold progress_ok in P. rewrite Hat, Hd in P. destruct P as (ps & p & E & _ & Hr & _). by exists ps, p.
Qed.

Context `{Crc32} `{SegmentNames} `{Canonicalize} {C : Type} `{MetadataSink C}.

(** The paths of a job whose row shows [k] more segments. *)
Lemma resumed_paths job (st st' : SegmentStore C) paths status p k :
  rj_segment_paths job <> [] -> 0 <= rj_segments_done job -> replay_paths_for_job job st = (Ok paths, st') ->
  segments_done p = rj_segments_done job + Z.of_nat k ->
  replay_paths_for_job (set_progress status p job) st = (Ok (drop k paths), st).
Proof.
  intros Hne Hdone Hpaths Hp. unfold replay_paths_for_job in *. cbn [rj_segment_paths set_progress rj_segments_total rj_segments_done].
  destruct (rj_segment_paths job) as [|x l] eqn:El; [done|]. cbn [is_empty negb] in *.
  unfold mbind, Eff_bind, mret, Eff_ret, reads in *. destruct (negb _ || _); [done|].
  apply pair_equal_spec in Hpaths as [[= <-] _]. do 2 f_equal. rewrite drop_drop. f_equal. rewrite Hp. lia.
Qed.

(** C17. A replay job goes on where its matches are durable.  When [execute_job] is
    over, whatever its run's schedule, failed updates and its own outcome, the row
    of the job shows the progress the run started from or one of its messages.  A
    start that recovers the job from this row scans the segments after the first
    [k], and all the matches in these [k] segments are in durable storage.  If it
    succeeded the job is queued again after a shutdown and completed otherwise,
    and then [k] is all of them. *)
Theorem resumed_job_continues {D : Type} `{JobDbLaws D} (d : D) job rep r d' (st st' : SegmentStore C) paths max_record_bytes sink s :
  jobs_of d !! rj_id job = Some job -> rj_segment_paths job <> [] -> 0 <= rj_segments_done job ->
  replay_paths_for_job job st = (Ok paths, st') -> sink_ok sink ->
  let segs := map (segment_at max_record_bytes (store_disk st)) paths in
  run_reachable others workers scanner (job_progress job) segs sink s ->
  rr_received rep ++ rr_drained rep = mt_progress (rs_main s) -> mt_at (rs_main s) = Finished (rr_result rep) ->
  (rs_shutdown s = true -> rr_shutdown rep = true) -> execute_job job rep d = (r, d') ->
  exists status p k, jobs_of d' !! rj_id job = Some (set_progress status p job) /\
    reached n scanner (job_progress job) segs (matches_sent sink) (matches_durable (rs_sink s)) k p /\
    replay_paths_for_job (set_progress status p job) st = (Ok (drop k paths), st) /\
    (r = Ok tt -> status = (if rr_shutdown rep then JobQueued else JobCompleted) /\ (rr_shutdown rep = false -> k = length paths)).
Proof.
  intros Hrow Hne Hdone Hpaths Hok segs Hs Hmsg Hat Hsh Hex.
  destruct (execute_job_row _ _ _ _ _ Hrow Hex) as [(st0 & p0 & Hr0 & Hp0) Hend]. rewrite Hmsg in Hp0.
  destruct r as [[]|].
  - destruct (Hend eq_refl) as [Hres Hrow']. pose proof (last_progress_in job rep) as Hlast. rewrite Hmsg in Hlast.
    destruct (messages_reached _ _ _ _ _ Hok Hs Hlast) as [k Hk].
    destruct (rr_shutdown rep) eqn:Hd.
    + eexists _, _, k. split; [exact Hrow'|]. split; [exact Hk|]. split; [|done].
      eapply resumed_paths; [done..|]. by apply Hk.
    + destruct Hres as [|Hres]; [done|]. rewrite Hres in Hat.
      destruct (rs_shutdown s) eqn:Hd'; [by discriminate Hsh|].
      destruct (last_reached _ _ _ _ Hok Hs Hat Hd') as (ps & p & E & Hr).
      assert (last_progress job rep = p) as El. { unfold last_progress. rewrite Hmsg, E. apply List.last_last. }
      rewrite El in *. eexists _, _, (length segs). split; [exact Hrow'|]. split; [exact Hr|]. split.
      * eapply resumed_paths; [done..|]. by apply Hr.
      * split; [done|]. intros _. unfold segs. by rewrite length_map.
  - destruct (messages_reached _ _ _ _ _ Hok Hs Hp0) as [k Hk]. exists st0, p0, k. split; [done|]. split; [done|]. split; [|done].
    eapply resumed_paths; [done..|]. by apply Hk.
Qed.
End Resume.

(** ** A completed replay has found every literal *)

Section Complete.
Context `{HE : Engines} {HEL : EnginesLaws} {K : Type} {HS : MetadataSink K} {HM : MatchLog K} {HL : DurableLog K}.
Context (others : K -> K -> Prop) (Hothers : others_grow others) (workers : nat) (scanner : ReplayScanner).
Context (stream : StreamKey -> Z -> byte).

Abbreviation n := (Nat.max workers 1).

(** The worker of the flow of a stream. *)
Definition worker_of (key : StreamKey) : nat := Z.to_nat (wrap 64 (sk_flow_id key) mod Z.of_nat n).

Lemma of_key_shard key recs : of_key key (shard n (worker_of key) recs) = of_key key recs.
Proof.
  unfold of_key, shard. rewrite list_filter_filter. apply list_filter_iff. intros r. split; [by intros [? _]|].
  intros <-. by split.
Qed.

End Complete.
