(* ===== verification/ReplayExamples.v ===== *)
(** * Replay runs on concrete inputs

    Two workers over sealed segments of a store, the matches going to the metadata
    pipeline: a run to its end, one that a shutdown cuts short, and its job taken up
    again; then two behaviours of the code worth knowing. *)

From stdpp Require Import strings sorting.
From S2P Require Import Prelude Model Text Services Disk Sink Spool Metadata MetadataSink.
From S2P Require Import Segment SegmentStore SegmentOps SegmentExamples.
From S2P Require Import Matching Matcher ScanSpec GroupSpec StreamSpec MatcherSpec ReplaySpec MatcherExamples.
From S2P Require Import Replay ReplayRunSpec ReplayRunTheorems ReplayJobs.

#[local] Existing Instances Naive.engines Naive.engines_laws sum_crc unary_names same_path.

(** A serialisation that keeps the number of events. *)
Definition count_codec : SpoolCodec := {|
  to_vec evs := Ok (map (fun _ => x00) evs);
  from_slice b := Err;
  temp_suffix _ := ""%string
|}.
#[local] Existing Instance count_codec.

(** ** Sealed segments *)

Definition flag_seal : Reply * Thread Meta :=
  thread_step (Command Seal)
    (thread_run (map (fun r => Command (Record_ r)) MatcherExamples.ex_records) (ex_thread [])).

Definition flag_store : SegmentStore Meta :=
  {| ss_root := seg_root; ss_max_record_bytes := 100; ss_queue := []; ss_writer := Started flag_seal.2 |}.

Definition flag_paths : list Path := reply_paths flag_seal.1.

Definition flag_segments : list RunSegment := map (segment_at 100 (store_disk flag_store)) flag_paths.

Example flag_segments_hold : map (fun g => (length (sg_records g), sg_ok g)) flag_segments = [(2%nat, true); (1%nat, true)].
Proof. vm_compute. reflexivity. Qed.

(** ** A run to its end *)

Definition zero_progress : ReplayProgress := {| segments_done := 0; bytes_processed := 0; matches_found := 0 |}.

(** Each thread in turn, [k] times. *)
Fixpoint rounds (k : nat) : list RunThread :=
  match k with O => [] | S k => [MainThreadTurn; WorkerTurn 1; CollectorTurn; WorkerTurn 0; CollectorTurn] ++ rounds k end.

Definition run_of (initial : ReplayProgress) (segs : list RunSegment) (ts : list RunThread) : RunState Meta :=
  run_schedule (matches_found initial) ts (start_run 2 ex_scanner initial segs ex_meta).

Lemma run_of_reachable initial segs ts :
  run_reachable (rtc meta_step) 2 ex_scanner initial segs ex_meta (run_of initial segs ts).
Proof. apply run_schedule_steps. Qed.

Definition full_run : RunState Meta := run_of zero_progress flag_segments (rounds 60).

Definition summary (s : RunState Meta) :=
  (match mt_at (rs_main s) with Finished r => Some (is_ok r) | _ => None end,
   map (fun p => (segments_done p, matches_found p)) (mt_progress (rs_main s))).

Example full_run_progress : summary full_run = (Some true, [(1, 0); (2, 4); (2, 4)]).
Proof. vm_compute. reflexivity. Qed.

Definition spans (l : list MatchRecord) : list (Z * Z * Z) :=
  map (fun h => (mr_pattern_id h, mr_offset_start h, mr_offset_end h)) l.

Example full_run_matches :
  spans (matches_durable (rs_sink full_run)) = [(1, 8, 12); (3, 12, 16); (2, 10, 13); (4, 25, 29)].
Proof. vm_compute. reflexivity. Qed.

Lemma ex_meta_ok : sink_ok ex_meta.
Proof. by vm_compute. Qed.

Lemma full_run_finished : mt_at (rs_main full_run) = Finished (Ok tt) /\ rs_shutdown full_run = false.
Proof. split; by vm_compute. Qed.


Lemma checkpoint_is_durable_witness :
  sink_ok ex_meta /\ exists ps p, mt_progress (rs_main full_run) = ps ++ [p] /\
    Forall (checkpoint 2 ex_scanner zero_progress flag_segments [] (matches_durable (rs_sink full_run))) ps /\
    reached 2 ex_scanner zero_progress flag_segments [] (matches_durable (rs_sink full_run)) 2 p.
Proof.
  split; [exact ex_meta_ok|].
  pose proof (checkpoint_is_durable (rtc meta_step) meta_steps_grow 2 ex_scanner zero_progress flag_segments ex_meta full_run
                ex_meta_ok (run_of_reachable _ _ _)) as Hc.
  destruct full_run_finished as [Hat Hd]. cbn zeta in Hc. rewrite Hat, Hd in Hc.
  destruct Hc as (ps & p & E & Hps & Hr & _). exists ps, p. split; [exact E|]. split; [exact Hps|exact Hr].
Defined.

Lemma flag_records : segment_records flag_segments = MatcherExamples.ex_records.
Proof. vm_compute. reflexivity. Qed.


(** ** A run that a shutdown cuts short, and its job *)

(** A table of jobs, and patterns that are not asked for. *)
Definition jobs_table : JobDb (gmap Z ReplayJob) := {|
  list_replay_jobs _ := reads (fun d => map snd (map_to_list d));
  create_replay_job patterns paths := fun d =>
    let job := frozen_job (fresh (dom d)) 0 patterns paths in (Ok job, <[rj_id job := job]> d);
  update_replay_progress id status p := modify (alter (set_progress status p) id);
  pattern_revision _ _ := mret None;
  latest_pattern _ := mret None
|}.
#[local] Existing Instance jobs_table.

#[local] Instance jobs_table_laws : JobDbLaws (gmap Z ReplayJob).
Proof.
  refine {| jobs_of d := d |}.
  - intros id status p d r d' [= <- <-]. by left.
  - intros patterns paths d job d' [= <- <-]. eexists _, _. split; [reflexivity|]. split; [|reflexivity].
    apply not_elem_of_dom, is_fresh.
Defined.

Definition ex_job : ReplayJob := frozen_job 3 50 ex_rules flag_paths.
Definition ex_jobs : gmap Z ReplayJob := <[3 := ex_job]> ∅.

(** The shutdown comes after the first commit. *)
Definition cut_run : RunState Meta := run_of (job_progress ex_job) flag_segments (rounds 8 ++ [ShutdownTurn] ++ rounds 20).

Definition cut_report : RunReport :=
  {| rr_received := take 1 (mt_progress (rs_main cut_run)); rr_drained := drop 1 (mt_progress (rs_main cut_run));
     rr_result := Ok tt; rr_shutdown := true |}.

Example cut_run_progress : summary cut_run = (Some true, [(1, 0); (1, 0)]).
Proof. vm_compute. reflexivity. Qed.

Lemma ex_job_paths : replay_paths_for_job ex_job flag_store = (Ok flag_paths, flag_store).
Proof.
  unfold replay_paths_for_job, mbind, Eff_bind.
  assert (is_empty (rj_segment_paths ex_job) = false) as -> by by vm_compute.
  cbn [negb mret Eff_ret reads]. set (b := negb _ || _). assert (b = false) as -> by by vm_compute.
  assert (drop (Z.to_nat (Z.max (rj_segments_done ex_job) 0)) (take (Z.to_nat (Z.max (rj_segments_total ex_job) 0)) (rj_segment_paths ex_job))
          = flag_paths) as -> by (vm_compute; reflexivity).
  done.
Qed.

Lemma resumed_job_continues_witness :
  jobs_of ex_jobs !! 3 = Some ex_job /\
  exists status p k, jobs_of (execute_job ex_job cut_report ex_jobs).2 !! 3 = Some (set_progress status p ex_job) /\
    reached 2 ex_scanner (job_progress ex_job) flag_segments [] (matches_durable (rs_sink cut_run)) k p /\
    replay_paths_for_job (set_progress status p ex_job) flag_store = (Ok (drop k flag_paths), flag_store).
Proof.
  split; [reflexivity|].
  destruct (execute_job ex_job cut_report ex_jobs) as [r d'] eqn:Hex.
  destruct (resumed_job_continues (rtc meta_step) meta_steps_grow 2 ex_scanner ex_jobs ex_job cut_report r d' flag_store flag_store
              flag_paths 100 ex_meta cut_run) as (status & p & k & Hrow & Hk & Hpaths & _).
  - reflexivity.
  - by vm_compute.
  - by vm_compute.
  - exact ex_job_paths.
  - exact ex_meta_ok.
  - apply run_of_reachable.
  - unfold cut_report. cbn [rr_received rr_drained]. exact (take_drop 1 (mt_progress (rs_main cut_run))).
  - by vm_compute.
  - done.
  - exact Hex.
  - exists status, p, k. split; [exact Hrow|]. split; [exact Hk|exact Hpaths].
Defined.

(** The scanners of the resumed run are new: the literal that ends in the second
    segment but begins in the first is missed, and the other rule with it. *)
Lemma resumed_run_misses :
  spans (matches_durable (rs_sink (run_of (job_progress ex_job) flag_segments (rounds 60))))
    = [(1, 8, 12); (3, 12, 16); (2, 10, 13); (4, 25, 29)] /\
  summary cut_run = (Some true, [(1, 0); (1, 0)]) /\
  spans (matches_durable (rs_sink (run_of (List.last (mt_progress (rs_main cut_run)) zero_progress) (drop 1 flag_segments) (rounds 60))))
    = [(3, 12, 16); (2, 10, 13); (4, 25, 29)].
Proof. vm_compute. done. Qed.

(** A shutdown while a segment is scanned counts its matches; the resumed run scans
    the segment again and counts them once more. *)
Lemma interrupted_matches_count_twice :
  let cut := run_of zero_progress flag_segments (rounds 18 ++ [ShutdownTurn] ++ rounds 20) in
  let again := run_of (List.last (mt_progress (rs_main cut)) zero_progress) (drop 1 flag_segments) (rounds 60) in
  (summary full_run).2 = [(1, 0); (2, 4); (2, 4)] /\ (summary cut).2 = [(1, 0); (1, 4)] /\
  (summary again).2 = [(2, 7); (2, 7)].
Proof. vm_compute. done. Qed.
