(* ===== verification/Capture.v ===== *)
(** * Capture workers ([src/src/capture/mod.rs], the ingress of [src/src/flow/mod.rs])

    From frames to packets of the flow engine: the early test of a frame against
    the service ports, the turn of a worker, its counters, and the choice of the
    sources at start-up.  A backend is a class; a turn runs at one version of the
    service registry. *)

From stdpp Require Import strings.
From S2P Require Import Prelude Model Text Services Fragment Decode Flow Topology.

(** ** Modes ([CaptureMode] in [src/src/config.rs]) *)

Inductive CaptureMode := AfXdp | PcapLive | PcapFile | Disabled.

#[export] Instance capture_mode_eq_dec : EqDecision CaptureMode.
Proof. solve_decision. Defined.

Definition text (s : string) : list Z := vals (bytes_of s).

Definition one_of (s : list Z) (words : list string) : bool := existsb (fun w => bool_decide (s = text w)) words.

Definition CaptureMode_parse (v : list Z) : Result CaptureMode :=
  let v := map to_ascii_lowercase v in
  if one_of v ["afxdp"]%string then Ok AfXdp
  else if one_of v ["pcap"; "pcap-live"]%string then Ok PcapLive
  else if one_of v ["file"; "pcap-file"]%string then Ok PcapFile
  else if one_of v ["disabled"; "view"]%string then Ok Disabled
  else Err.

Definition effective_capture_mode (requested : CaptureMode) (throttle_enabled : bool) : CaptureMode :=
  if bool_decide (requested = AfXdp) && throttle_enabled then PcapLive else requested.

(** ** The interface *)

(** [u8::from_str_radix(_, 16)]. *)
Definition u8_from_hex (s : list Z) : option byte :=
  match from_str_radix 16 s with Ok n => if n <=? u8_MAX then Some (byte_of n) else None | Err => None end.

(** The text of the [address] file, if it can be read. *)
Definition interface_mac (raw : option (list Z)) : option bytes :=
  raw ← raw;
  let parts := split_on 58 (trim raw) in
  if (length parts =? 6)%nat then mapM u8_from_hex parts else None.

(** ** Which frames are worth decoding *)

Definition service_flow_visible (scope : ServicePacketScope) (mode : CaptureMode) (local_egress : bool) : bool :=
  match mode with
  | PcapLive => if local_egress then flow scope else destination scope
  | AfXdp => destination scope
  | PcapFile => flow scope
  | Disabled => false
  end.

(** [u16::from_be_bytes(\[b\[i\], b\[i + 1\]\])], with the bounds checks. *)
Definition word16 (b : bytes) (i : Z) : option Z :=
  x ← index b i; y ← index b (i + 1); Some (from_be_bytes [x; y]).

Definition octet (b : bytes) (i : Z) : option Z := byte_val <$> index b i.

(** The VLAN loop: the type and the offset behind the tags, nothing if the frame
    ends in one. *)
Fixpoint skip_tags (n : nat) (frame : bytes) (ether_type offset : Z) : option (option (Z * Z)) :=
  match n with
  | O => Some (Some (ether_type, offset))
  | S n =>
      if is_vlan ether_type then
        if blen frame <? offset + 4 then Some None
        else ether_type ← word16 frame (offset + 2); skip_tags n frame ether_type (offset + 4)
      else Some (Some (ether_type, offset))
  end.

Definition ports_match (services : ServiceRegistry) (local_egress : option bool) (src_port dst_port : Z) : bool :=
  match local_egress with
  | Some true => accepts_port services src_port
  | Some false => accepts_port services dst_port
  | None => accepts_port services src_port || accepts_port services dst_port
  end.

(** [None] is an access out of bounds. *)
Definition frame_may_belong_to_service (frame : bytes) (services : ServiceRegistry) (tunnel_decapsulation : bool)
    (local_egress : option bool) : option bool :=
  if registry_is_empty services then Some false
  else if blen frame <? 14 then Some true
  else
    ether_type ← word16 frame 12;
    behind ← skip_tags 4 frame ether_type 14;
    match behind with
    | None => Some true
    | Some (ether_type, offset) =>
        if negb (ether_type =? 0x0800) then Some true
        else if blen frame <? offset + 20 then Some true
        else
          b0 ← octet frame offset;
          if negb (Z.shiftr b0 4 =? 4) then Some true
          else
            let ihl := Z.land b0 0x0f * 4 in
            if (ihl <? 20) || (blen frame <? offset + ihl) then Some true
            else
              frag ← word16 frame (offset + 6);
              if negb (Z.land frag 0x3fff =? 0) then Some true
              else
                protocol ← octet frame (offset + 9);
                let l4 := offset + ihl in
                if (protocol =? 6) || (protocol =? 17) then
                  if blen frame <? l4 + 4 then Some true
                  else
                    src_port ← word16 frame l4;
                    dst_port ← word16 frame (l4 + 2);
                    if ports_match services local_egress src_port dst_port then Some true
                    else Some (tunnel_decapsulation && (protocol =? 17) && ((dst_port =? 4789) || (dst_port =? 8472)))
                else if (protocol =? 47) || (protocol =? 4) || (protocol =? 41) then Some tunnel_decapsulation
                else Some false
    end.

(** ** The ingress of the flow engine ([FlowIngress] in [src/src/flow/mod.rs]) *)

(** The queue of a shard; [sq_open] while the shard runs. *)
Record ShardQueue := { sq_packets : list ParsedPacket; sq_open : bool }.

Record FlowIngress := { fi_shards : list ShardQueue; fi_capacity : Z; fi_seed : Z }.

(** [FlowRuntime::spawn], as far as the queues go. *)
Definition spawn_ingress (capture_to_flow_capacity flow_shards seed : Z) : FlowIngress :=
  {| fi_shards := replicate (Z.to_nat flow_shards) {| sq_packets := []; sq_open := true |};
     fi_capacity := Z.max (capture_to_flow_capacity / Z.max flow_shards 1) 1; fi_seed := seed |}.

Inductive SendOutcome := Sent | Timeout | Disconnected.

Definition push_packet (p : ParsedPacket) (q : ShardQueue) : ShardQueue :=
  {| sq_packets := sq_packets q ++ [p]; sq_open := sq_open q |}.

Definition set_shard (i : nat) (q : ShardQueue) (g : FlowIngress) : FlowIngress :=
  {| fi_shards := <[i := q]> (fi_shards g); fi_capacity := fi_capacity g; fi_seed := fi_seed g |}.

(** [send_timeout]: [while_waiting] is what the shards do before the send goes
    through or the time is over. *)
Definition flow_send (while_waiting : FlowIngress -> FlowIngress) (p : ParsedPacket) (g : FlowIngress)
  : option (SendOutcome * FlowIngress) :=
  let i := Z.to_nat (shard_index p (fi_seed g) (blen (fi_shards g))) in
  let g := while_waiting g in
  q ← fi_shards g !! i;
  if negb (sq_open q) then Some (Disconnected, g)
  else if blen (sq_packets q) <? fi_capacity g then Some (Sent, set_shard i (push_packet p q) g)
  else Some (Timeout, g).

(** ** Sources *)

Record SourceStats := { ss_dropped : Z; ss_invalid_descs : Z }.
Definition no_stats : SourceStats := {| ss_dropped := 0; ss_invalid_descs := 0 |}.

Inductive PortFilterMode := Optimized | FailOpen.

(** [receive_batch] fills an empty batch, whatever it returns. *)
Class FrameSource (Src : Type) := {
  receive_batch : Z -> Src -> Result Z * list CapturedFrame * Src;
  source_stats : Src -> Result (option SourceStats) * Src;
  configure_port_filter : list Z -> option (list Z) -> Src -> Result PortFilterMode * Src
}.

(** A source with a filter: [passes src port] says that packets of a service on
    [port] still reach the worker. *)
Class FilteredSource (Src : Type) `{FrameSource Src} := {
  passes : Src -> Z -> Prop;
  configure_passes ports extra src mode port :
    (configure_port_filter ports extra src).1 = Ok mode -> port ∈ ports ->
    passes (configure_port_filter ports extra src).2 port;
  receive_passes max src port : passes src port -> passes (receive_batch max src).2 port;
  stats_passes src port : passes src port -> passes (source_stats src).2 port
}.

Record CaptureConfig := {
  cc_mode : CaptureMode;
  cc_effective : CaptureMode;
  cc_tunnels : bool;
  cc_early_port_filter : bool;
  cc_bpf_filter : option (list Z);
  cc_batch : Z
}.

(** ** Counters ([Metrics]) *)

Inductive Counter :=
  | capture_frames | capture_frame_bytes | raw_capture_drops | packets_filtered | packets_ignored
  | packet_parse_errors | capture_drops | capture_backend_drops | capture_backend_invalid_descs.

#[export] Instance counter_eq_dec : EqDecision Counter.
Proof. solve_decision. Defined.

Definition CaptureMetrics : Type := Counter -> Z.

(** [fetch_add] of an [AtomicU64]. *)
Definition fetch_add (c : Counter) (n : Z) (m : CaptureMetrics) : CaptureMetrics :=
  fun c' => if decide (c' = c) then wrapping_add 64 (m c') n else m c'.

(** ** The raw copy *)

Record RawQueue := { rq_frames : list CapturedFrame; rq_open : bool }.

Definition RAW_QUEUE : Z := 8192.

Definition raw_try_send (frame : CapturedFrame) (q : RawQueue) : bool * RawQueue :=
  if negb (rq_open q) || (RAW_QUEUE <=? blen (rq_frames q)) then (false, q)
  else (true, {| rq_frames := rq_frames q ++ [frame]; rq_open := true |}).

(** ** One frame *)

Section Worker.
Context {Store : Type} {HS : FragmentStore Store} {HO : HashOrder}.
Context (clock : nat -> Z).

Abbreviation decoder := (Decoder (Store := Store)).

(** What a worker works on; the tracker, the ingress and the counters are shared. *)
Record CaptureState := {
  cs_decoder : decoder;
  cs_observer : LocalTopologyObserver;
  cs_tracker : TopologyTracker;
  cs_ingress : FlowIngress;
  cs_raw : option RawQueue;
  cs_metrics : CaptureMetrics
}.

Definition set_decoder (d : decoder) (s : CaptureState) : CaptureState :=
  {| cs_decoder := d; cs_observer := cs_observer s; cs_tracker := cs_tracker s;
     cs_ingress := cs_ingress s; cs_raw := cs_raw s; cs_metrics := cs_metrics s |}.

Definition set_topology (ot : LocalTopologyObserver * TopologyTracker) (s : CaptureState) : CaptureState :=
  {| cs_decoder := cs_decoder s; cs_observer := ot.1; cs_tracker := ot.2;
     cs_ingress := cs_ingress s; cs_raw := cs_raw s; cs_metrics := cs_metrics s |}.

Definition set_ingress (g : FlowIngress) (s : CaptureState) : CaptureState :=
  {| cs_decoder := cs_decoder s; cs_observer := cs_observer s; cs_tracker := cs_tracker s;
     cs_ingress := g; cs_raw := cs_raw s; cs_metrics := cs_metrics s |}.

Definition set_raw (q : option RawQueue) (s : CaptureState) : CaptureState :=
  {| cs_decoder := cs_decoder s; cs_observer := cs_observer s; cs_tracker := cs_tracker s;
     cs_ingress := cs_ingress s; cs_raw := q; cs_metrics := cs_metrics s |}.

Definition metric (c : Counter) (n : Z) (s : CaptureState) : CaptureState :=
  {| cs_decoder := cs_decoder s; cs_observer := cs_observer s; cs_tracker := cs_tracker s;
     cs_ingress := cs_ingress s; cs_raw := cs_raw s; cs_metrics := fetch_add c n (cs_metrics s) |}.

(** What the rest of the program does around one frame: the services published at
    the two places that look at them, the clocks of the observer, and what the raw
    writer and the shards take from their queues. *)
Record Moment := {
  mo_early : ServiceRegistry;
  mo_late : ServiceRegistry;
  mo_clocks : Clocks;
  mo_raw : RawQueue -> RawQueue;
  mo_shards : FlowIngress -> FlowIngress
}.

Definition publish_raw (m : Moment) (frame : CapturedFrame) (s : CaptureState) : CaptureState :=
  match cs_raw s with
  | None => s
  | Some q =>
      let '(sent, q) := raw_try_send frame (mo_raw m q) in
      let s := set_raw (Some q) s in
      if sent then s else metric raw_capture_drops 1 s
  end.

(** Whether the frame left this host, where the mode can tell. *)
Definition egress_hint (effective_mode : CaptureMode) (topology_ignore_l2 : bool) : option bool :=
  match effective_mode with
  | PcapLive => Some topology_ignore_l2
  | AfXdp => Some false
  | PcapFile | Disabled => None
  end.

(** A remote IPv4 sender of a packet to a service. *)
Definition observe_sender (m : Moment) (topology_ignore_l2 : bool) (scope : ServicePacketScope)
    (packet : ParsedPacket) (s : CaptureState) : CaptureState :=
  if negb topology_ignore_l2 && destination scope then
    match ep_ip (source_endpoint packet) with
    | V4 source_ip =>
        set_topology (observe_ipv4_source (mo_clocks m) (p_ts_ns packet) (p_wire_len packet)
                        (from_be_bytes source_ip) (cs_observer s) (cs_tracker s)) s
    | V6 _ => s
    end
  else s.

(** A decoded packet; [true] when the worker returns. *)
Definition admit_packet (c : CaptureConfig) (m : Moment) (topology_ignore_l2 : bool) (packet : ParsedPacket)
    (s : CaptureState) : option (bool * CaptureState) :=
  let service_scope := packet_scope (mo_late m) packet in
  let s := observe_sender m topology_ignore_l2 service_scope packet s in
  if negb (service_flow_visible service_scope (cc_effective c) topology_ignore_l2)
  then Some (false, metric packets_filtered 1 s)
  else
    '(outcome, g) ← flow_send (mo_shards m) packet (cs_ingress s);
    let s := set_ingress g s in
    match outcome with
    | Sent => Some (false, s)
    | Timeout => Some (false, metric capture_drops 1 s)
    | Disconnected => Some (true, s)
    end.

(** The body of the loop over a batch. *)
Definition capture_frame (c : CaptureConfig) (m : Moment) (frame : CapturedFrame) (s : CaptureState)
  : option (bool * CaptureState) :=
  let s := metric capture_frames 1 s in
  let s := metric capture_frame_bytes (cf_wire_len frame) s in
  let topology_ignore_l2 := ignores_ethernet_frame (cs_observer s) (cf_data frame) in
  let s := publish_raw m frame s in
  candidate ← frame_may_belong_to_service (cf_data frame) (mo_early m) (cc_tunnels c)
                (egress_hint (cc_effective c) topology_ignore_l2);
  if negb candidate then Some (false, metric packets_filtered 1 s)
  else
    '(d, r) ← decode clock frame (cs_decoder s);
    let s := set_decoder d s in
    match r with
    | inl (DPacket packet) => admit_packet c m topology_ignore_l2 packet s
    | inl DPendingFragment => Some (false, s)
    | inl DIgnored => Some (false, metric packets_ignored 1 s)
    | inr _ => Some (false, metric packet_parse_errors 1 s)
    end.

(** [batch.drain(..)]; a return leaves the rest of the batch. *)
Fixpoint capture_batch (c : CaptureConfig) (frames : list (Moment * CapturedFrame)) (s : CaptureState)
  : option (bool * CaptureState) :=
  match frames with
  | [] => Some (false, s)
  | (m, frame) :: rest =>
      '(stop, s) ← capture_frame c m frame s;
      if (stop : bool) then Some (true, s) else capture_batch c rest s
  end.

(** ** One turn of the loop *)

Context {Src : Type} {HF : FrameSource Src}.

Record WorkerState := {
  w_source : Src;
  w_generation : Z;
  w_last_stats : SourceStats;
  w_last_poll : Z;
  w_state : CaptureState
}.

(** The environment of one turn: the services as [generation], [ports] and
    [is_empty] find them, the clocks, and what surrounds each frame. *)
Record Turn := {
  tu_shutdown : bool;
  tu_services : ServiceRegistry;
  tu_ports : ServiceRegistry;
  tu_offline_services : ServiceRegistry;
  tu_poll_now : Z;
  tu_polled : Z;
  tu_moments : nat -> Moment;
  tu_flush : Clocks
}.

Inductive WorkerEnd := ShutDown | FilterFailed | FileExhausted | FlowStopped.
Inductive TurnResult := Continue (w : WorkerState) | Ended (e : WorkerEnd) (w : WorkerState).

(** New ports for the source when the registry has changed; [false] ends the worker. *)
Definition update_filter (c : CaptureConfig) (services at_ports : ServiceRegistry) (w : WorkerState)
  : bool * WorkerState :=
  if generation services =? w_generation w then (true, w)
  else if cc_early_port_filter c then
    let '(r, src) := configure_port_filter (ports at_ports) (cc_bpf_filter c) (w_source w) in
    let keep g := {| w_source := src; w_generation := g; w_last_stats := w_last_stats w;
                     w_last_poll := w_last_poll w; w_state := w_state w |} in
    match r with
    | Ok _ => (true, keep (generation services))
    | Err => (false, keep (w_generation w))
    end
  else (true, {| w_source := w_source w; w_generation := generation services;
                 w_last_stats := w_last_stats w; w_last_poll := w_last_poll w; w_state := w_state w |}).

(** Once a second, what the backend has lost since the last time. *)
Definition poll_stats (t : Turn) (w : WorkerState) : WorkerState :=
  if 10 ^ 9 <=? sat_sub (tu_poll_now t) (w_last_poll w) then
    let '(r, src) := source_stats (w_source w) in
    let '(last, s) :=
      match r with
      | Ok (Some now) =>
          (now, metric capture_backend_invalid_descs
                  (sat_sub (ss_invalid_descs now) (ss_invalid_descs (w_last_stats w)))
                  (metric capture_backend_drops (sat_sub (ss_dropped now) (ss_dropped (w_last_stats w)))
                     (w_state w)))
      | _ => (w_last_stats w, w_state w)
      end in
    {| w_source := src; w_generation := w_generation w; w_last_stats := last; w_last_poll := tu_polled t;
       w_state := s |}
  else w.

Definition with_state (src : Src) (s : CaptureState) (w : WorkerState) : WorkerState :=
  {| w_source := src; w_generation := w_generation w; w_last_stats := w_last_stats w;
     w_last_poll := w_last_poll w; w_state := s |}.

Definition flush_observer (t : Turn) (s : CaptureState) : CaptureState :=
  set_topology (flush_if_due (tu_flush t) (cs_observer s) (cs_tracker s)) s.

Definition capture_turn (c : CaptureConfig) (t : Turn) (w : WorkerState) : option TurnResult :=
  if tu_shutdown t then Some (Ended ShutDown w)
  else
    let '(ok, w) := update_filter c (tu_services t) (tu_ports t) w in
    if negb ok then Some (Ended FilterFailed w)
    else if bool_decide (cc_mode c = PcapFile) && registry_is_empty (tu_offline_services t)
    then Some (Continue w)
    else
      let w := poll_stats t w in
      let '(r, frames, src) := receive_batch (cc_batch c) (w_source w) in
      match r with
      | Ok n =>
          if n =? 0 then
            let w := with_state src (w_state w) w in
            if bool_decide (cc_mode c = PcapFile) then Some (Ended FileExhausted w) else Some (Continue w)
          else
            '(stop, s) ← capture_batch c (imap (fun i f => (tu_moments t i, f)) frames) (w_state w);
            if (stop : bool) then Some (Ended FlowStopped (with_state src s w))
            else Some (Continue (with_state src (flush_observer t s) w))
      | Err => Some (Continue (with_state src (flush_observer t (w_state w)) w))
      end.

(** The loop, over the turns the environment grants. *)
Fixpoint capture_loop (c : CaptureConfig) (turns : list Turn) (w : WorkerState) : option TurnResult :=
  match turns with
  | [] => Some (Continue w)
  | t :: rest =>
      r ← capture_turn c t w;
      match r with Continue w => capture_loop c rest w | Ended e w => Some (Ended e w) end
  end.

(** The state a worker starts in. *)
Definition start_worker (source : Src) (now : Z) (s : CaptureState) : WorkerState :=
  {| w_source := source; w_generation := 0; w_last_stats := no_stats; w_last_poll := now; w_state := s |}.

Definition PacketDecoder_new (c : CaptureConfig) (counters : Counters) (fragments : Store) : decoder :=
  {| Decode.fragments := fragments; Decode.metrics := Some counters; Decode.tunnel_decapsulation := cc_tunnels c; Decode.clock_reads := 0 |}.
End Worker.

(** ** Start-up ([spawn_capture_workers]) *)

Inductive Backend := XdpQueue (queue_id : Z) | LiveCapture | OfflineFile.

#[export] Instance backend_eq_dec : EqDecision Backend.
Proof. solve_decision. Defined.

(** What is opened and closed, in order. *)
Inductive SourceEvent := Opened (b : Backend) | OpenFailed (b : Backend) | Dropped (b : Backend).

Record SpawnConfig := {
  sp_mode : CaptureMode;
  sp_throttle_enabled : bool;
  sp_fallback_pcap : bool;
  sp_queue_id : Z;
  sp_queue_ids : list Z;
  sp_capture_cpus : list Z
}.

Record Prepared (Src : Type) := {
  pr_sources : list (Z * Src);
  pr_effective : CaptureMode;
  pr_adjusted : bool
}.
Arguments pr_sources {Src}. Arguments pr_effective {Src}. Arguments pr_adjusted {Src}.

Section Spawn.
Context {Src : Type}.
Context (open_backend : Backend -> Result Src).

(** [open] of a backend. *)
Definition try_open (b : Backend) : list SourceEvent * Result Src :=
  match open_backend b with Ok s => ([Opened b], Ok s) | Err => ([OpenFailed b], Err) end.

Definition create_source (mode : CaptureMode) (queue_id : Z) : list SourceEvent * Result Src :=
  match mode with
  | PcapLive => try_open LiveCapture
  | PcapFile => try_open OfflineFile
  | AfXdp => try_open (XdpQueue queue_id)
  | Disabled => ([], Err)
  end.

(** The loop over the queues: it stops at the first that fails. *)
Fixpoint open_queues (ids : list Z) : list SourceEvent * list (Z * Src) * bool :=
  match ids with
  | [] => ([], [], true)
  | q :: ids =>
      match create_source AfXdp q with
      | (ev, Ok src) => let '(evs, rest, ok) := open_queues ids in (ev ++ evs, (q, src) :: rest, ok)
      | (ev, Err) => (ev, [], false)
      end
  end.

(** One source for everything. *)
Definition single_source (queue_id : Z) (effective : CaptureMode) (adjusted : bool)
    (r : list SourceEvent * Result Src) : list SourceEvent * Result (Prepared Src) :=
  match r with
  | (ev, Ok src) => (ev, Ok {| pr_sources := [(queue_id, src)]; pr_effective := effective; pr_adjusted := adjusted |})
  | (ev, Err) => (ev, Err)
  end.

Definition prepare_sources (c : SpawnConfig) : list SourceEvent * Result (Prepared Src) :=
  let planned_mode := effective_capture_mode (sp_mode c) (sp_throttle_enabled c) in
  let same_interface_throttle :=
    bool_decide (sp_mode c = AfXdp) && sp_throttle_enabled c && bool_decide (planned_mode = PcapLive) in
  match sp_mode c with
  | AfXdp =>
      if same_interface_throttle then single_source (sp_queue_id c) PcapLive true (try_open LiveCapture)
      else
        let '(evs, prepared, ok) := open_queues (sp_queue_ids c) in
        if ok then
          if is_empty prepared then (evs, Err)
          else (evs, Ok {| pr_sources := prepared; pr_effective := AfXdp; pr_adjusted := false |})
        else
          let evs := evs ++ map (fun e => Dropped (XdpQueue e.1)) prepared in
          if negb (sp_fallback_pcap c) then (evs, Err)
          else
            let '(ev, r) := single_source (sp_queue_id c) PcapLive true (try_open LiveCapture) in
            (evs ++ ev, r)
  | mode => single_source (sp_queue_id c) mode false (create_source mode (sp_queue_id c))
  end.

Record SpawnedWorker := { sw_queue : Z; sw_source : Src; sw_cpu : option Z; sw_ignored_mac : option bytes }.

Record CaptureRuntime := {
  rt_workers : list SpawnedWorker;
  requested_mode : CaptureMode;
  rt_effective_mode : CaptureMode;
  mode_adjusted : bool
}.

(** The CPU of a worker: the list, over and over. *)
Definition capture_cpu (cpus : list Z) (worker_idx : nat) : option Z :=
  if is_empty cpus then None else cpus !! (worker_idx `mod` length cpus)%nat.

(** [address] is the text of the interface's [address] file. *)
Definition spawn_capture_workers (c : SpawnConfig) (address : option (list Z))
  : list SourceEvent * Result CaptureRuntime :=
  if bool_decide (sp_mode c = Disabled) then
    ([], Ok {| rt_workers := []; requested_mode := Disabled; rt_effective_mode := Disabled; mode_adjusted := false |})
  else
    match prepare_sources c with
    | (evs, Err) => (evs, Err)
    | (evs, Ok p) =>
        let mac := if bool_decide (pr_effective p = PcapLive) then interface_mac address else None in
        (evs, Ok {| rt_workers := imap (fun i e => {| sw_queue := e.1; sw_source := e.2;
                                     sw_cpu := capture_cpu (sp_capture_cpus c) i; sw_ignored_mac := mac |}) (pr_sources p);
                    requested_mode := sp_mode c; rt_effective_mode := pr_effective p; mode_adjusted := pr_adjusted p |})
    end.
End Spawn.
