(* ===== verification/CaptureSpec.v ===== *)
(** * The early test of a frame ([src/src/capture/mod.rs])

    [frame_may_belong_to_service] against the decoder: what it lets pass unread it
    never misjudges, and a frame it rejects could not have been admitted.  The
    rules below say what a computation of the decoder returns when it succeeds, in
    terms of the same reads of the frame. *)

From stdpp Require Import strings.
From S2P Require Import Prelude Model Text Services Fragment Decode Flow Topology Capture.

(** ** Reads through slices *)

Lemma index_spec {A} (l : list A) i x : index l i = Some x <-> 0 <= i /\ l !! Z.to_nat i = Some x.
Proof. unfold index. destruct (Z.leb_spec 0 i); split; [by split|by intros [_ ?]|done|intros []; lia]. Qed.

Lemma index_some {A} (l : list A) i : 0 <= i < blen l -> exists x, index l i = Some x.
Proof.
  intros Hi. unfold blen in Hi. destruct (lookup_lt_is_Some_2 l (Z.to_nat i)) as [x Hx]; [lia|].
  exists x. apply index_spec. split; [lia|done].
Qed.

Lemma slice_index {A} lo hi (l s : list A) i x :
  slice lo hi l = Some s -> index s i = Some x -> index l (lo + i) = Some x.
Proof.
  intros Hs [Hi Hx]%index_spec. unfold slice in Hs.
  destruct ((0 <=? lo) && (lo <=? hi) && (hi <=? blen l)) eqn:E; [|done]. injection Hs as <-.
  apply lookup_take_Some in Hx as [Hx _]. rewrite lookup_drop in Hx.
  apply index_spec. split; [lia|]. by replace (Z.to_nat (lo + i)) with (Z.to_nat lo + Z.to_nat i)%nat by lia.
Qed.

Lemma slice_octet lo hi l s i x : slice lo hi l = Some s -> octet s i = Some x -> octet l (lo + i) = Some x.
Proof.
  unfold octet. intros Hs. destruct (index s i) as [b|] eqn:E; [|done]. simpl. intros [= <-].
  by rewrite (slice_index _ _ _ _ _ _ Hs E).
Qed.

Lemma slice_word16 lo hi l s i x : slice lo hi l = Some s -> word16 s i = Some x -> word16 l (lo + i) = Some x.
Proof.
  unfold word16. intros Hs. destruct (index s i) as [a|] eqn:E1; [|done]. simpl.
  destruct (index s (i + 1)) as [b|] eqn:E2; [|done]. simpl. intros [= <-].
  rewrite (slice_index _ _ _ _ _ _ Hs E1). simpl. replace (lo + i + 1) with (lo + (i + 1)) by lia.
  by rewrite (slice_index _ _ _ _ _ _ Hs E2).
Qed.

Lemma octet_some (l : bytes) i : 0 <= i < blen l -> exists x, octet l i = Some x.
Proof. intros Hi. unfold octet. destruct (index_some l i Hi) as [x ->]. by eexists. Qed.

Lemma word16_some (l : bytes) i : 0 <= i < blen l - 1 -> exists x, word16 l i = Some x.
Proof.
  intros Hi. unfold word16. destruct (index_some l i) as [x ->]; [lia|]. simpl.
  destruct (index_some l (i + 1)) as [y ->]; [lia|]. by eexists.
Qed.

Lemma slice_length {A} lo hi (l s : list A) :
  slice lo hi l = Some s -> 0 <= lo /\ blen s = hi - lo.
Proof.
  unfold slice. destruct ((0 <=? lo) && (lo <=? hi) && (hi <=? blen l)) eqn:E; [|done].
  reflect_bools. intros [= <-]. split; [done|]. unfold blen in *. rewrite length_take, length_drop. lia.
Qed.

Lemma octet_of_slice lo hi l s i : slice lo hi l = Some s -> 0 <= i < hi - lo -> octet s i = octet l (lo + i).
Proof.
  intros Hs Hi. destruct (slice_length _ _ _ _ Hs) as [_ Hl]. destruct (octet_some s i) as [x Hx]; [lia|].
  by rewrite Hx, (slice_octet _ _ _ _ _ _ Hs Hx).
Qed.

Lemma word16_of_slice lo hi l s i :
  slice lo hi l = Some s -> 0 <= i < hi - lo - 1 -> word16 s i = word16 l (lo + i).
Proof.
  intros Hs Hi. destruct (slice_length _ _ _ _ Hs) as [_ Hl]. destruct (word16_some s i) as [x Hx]; [lia|].
  by rewrite Hx, (slice_word16 _ _ _ _ _ _ Hs Hx).
Qed.

(** ** The rules *)

Section Reads.
Context {Store : Type} {HS : FragmentStore Store}.
Context (clock : nat -> Z) (tunnels : bool).

(** If [m] ends it has left the fragments alone, and a result satisfies [Q]. *)
Definition reads {A} (m : dec (Store := Store) A) (Q : A -> Prop) : Prop :=
  forall d d' r, tunnel_decapsulation d = tunnels -> m d = Some (d', r) ->
    fragments d' = fragments d /\ tunnel_decapsulation d' = tunnels /\
    match r with inl a => Q a | inr _ => True end.

Lemma reads_ret {A} (a : A) (Q : A -> Prop) : Q a -> reads (mret a) Q.
Proof. intros HQ d d' r Hd [= <- <-]. done. Qed.

Lemma reads_bind {A B} (m : dec A) (f : A -> dec B) (Q : B -> Prop) :
  reads m (fun a => reads (f a) Q) -> reads (m ≫= f) Q.
Proof.
  intros Hm d d' r Hd. unfold mbind, dec_bind. destruct (m d) as [[d1 [a|e]]|] eqn:E; [| |done].
  - destruct (Hm _ _ _ Hd E) as (F1 & T1 & HQ). intros H.
    destruct (HQ _ _ _ T1 H) as (F2 & T2 & HQ2). by rewrite F2.
  - destruct (Hm _ _ _ Hd E) as (F1 & T1 & _). by intros [= <- <-].
Qed.

Lemma reads_mono {A} (m : dec A) (Q Q' : A -> Prop) : reads m Q -> (forall a, Q a -> Q' a) -> reads m Q'.
Proof.
  intros Hm HQ d d' r Hd E. destruct (Hm _ _ _ Hd E) as (F & T & H). split_and!; [done..|].
  destruct r; [by apply HQ|done].
Qed.

Lemma reads_truncated {A} msg (Q : A -> Prop) : reads (truncated msg) Q.
Proof. by intros d d' r Hd [= <- <-]. Qed.

Lemma reads_bail {A} msg (Q : A -> Prop) : reads (bail msg) Q.
Proof. by intros d d' r Hd [= <- <-]. Qed.

Lemma reads_lift {A} (o : option A) (Q : A -> Prop) : (forall a, o = Some a -> Q a) -> reads (lift o) Q.
Proof. intros HQ d d' r Hd. unfold lift. destruct o as [a|]; [|done]. intros [= <- <-]. auto. Qed.

Lemma reads_tunnels (Q : bool -> Prop) : Q tunnels -> reads tunnels_enabled Q.
Proof. intros HQ d d' r Hd [= <- <-]. by rewrite Hd. Qed.

Lemma reads_read8 b i (Q : Z -> Prop) : (forall x, octet b i = Some x -> Q x) -> reads (read8 b i) Q.
Proof.
  intros HQ. unfold read8. apply reads_bind, reads_lift. intros x Hx. apply reads_ret, HQ.
  unfold octet. by rewrite Hx.
Qed.

Lemma reads_read16 b i (Q : Z -> Prop) : (forall x, word16 b i = Some x -> Q x) -> reads (read16 b i) Q.
Proof.
  intros HQ. unfold read16. apply reads_bind, reads_lift. intros x Hx.
  apply reads_bind, reads_lift. intros y Hy. apply reads_ret, HQ. unfold word16. by rewrite Hx; simpl; rewrite Hy.
Qed.

Lemma reads_read32 b i (Q : Z -> Prop) : (forall x, Q x) -> reads (read32 b i) Q.
Proof.
  intros HQ. unfold read32. do 4 (apply reads_bind, reads_lift; intros ? ?). by apply reads_ret.
Qed.
End Reads.

#[local] Arguments truncated : simpl never.
#[local] Arguments read8 : simpl never.
#[local] Arguments read16 : simpl never.
#[local] Arguments read32 : simpl never.

Ltac reads_step :=
  lazymatch goal with
  | |- reads _ (truncated _) _ => apply reads_truncated
  | |- reads _ (bail _) _ => apply reads_bail
  | |- reads _ (mret _) _ => apply reads_ret
  | |- reads _ (_ ≫= _) _ => apply reads_bind
  | |- reads _ tunnels_enabled _ => apply reads_tunnels
  | |- reads _ (read8 _ _) _ => apply reads_read8; intros ? ?
  | |- reads _ (read16 _ _) _ => apply reads_read16; intros ? ?
  | |- reads _ (read32 _ _) _ => apply reads_read32; intros ?
  | |- reads _ (lift _) _ => apply reads_lift; intros ? ?
  | |- reads _ (if ?b then _ else _) _ => destruct b eqn:?
  | |- reads _ (let _ := _ in _) _ => cbv zeta
  end; cbv beta.

(** ** The decoder below a rejected frame *)

Lemma parsed_endpoints src sp dst dp proto dom ts seq ack flags payload wire :
  let '(key, direction) := canonical_with_domain src sp dst dp proto dom in
  let p := {| p_ts_ns := ts; p_key := key; p_direction := direction; p_seq := seq; p_ack := ack;
              p_flags := flags; p_payload := payload; p_wire_len := wire |} in
  source_endpoint p = {| ep_ip := src; ep_port := sp |} /\
  destination_endpoint p = {| ep_ip := dst; ep_port := dp |}.
Proof. unfold canonical_with_domain. by destruct (endpoint_le _ _). Qed.

Section Rejected.
Context {Store : Type} {HS : FragmentStore Store}.
Context (clock : nat -> Z) (tunnels : bool).
Context (services : ServiceRegistry) (egress : option bool).
Context (inner : Layer -> Z -> Z -> bytes -> Z -> Z -> dec (Store := Store) InnerOutcome).

(** No packet of a service, and no fragment that could become one. *)
Definition off_service (o : InnerOutcome) : Prop :=
  match o with
  | IPacket p => ports_match services egress (ep_port (source_endpoint p)) (ep_port (destination_endpoint p)) = false
  | IPendingFragment => False
  | IIgnored => True
  end.

Lemma parse_tcp_ports ts wire src dst tcp dom :
  reads tunnels (parse_tcp (Store := Store) ts wire src dst tcp dom) (fun p =>
    word16 tcp 0 = Some (ep_port (source_endpoint p)) /\ word16 tcp 2 = Some (ep_port (destination_endpoint p))).
Proof.
  unfold parse_tcp. repeat reads_step.
  pose proof (parsed_endpoints src x dst x0 Tcp dom) as Hc.
  destruct (canonical_with_domain src x dst x0 Tcp dom) as [k dir].
  repeat reads_step. destruct (Hc ts (Some x1) (Some x2)
    {| fin := bit x4 0x01; syn := bit x4 0x02; rst := bit x4 0x04; psh := bit x4 0x08; ack_flag := bit x4 0x10 |}
    a wire) as [-> ->]. done.
Qed.

(** The ports in the first bytes of a transport payload are none of the services',
    nor the ones a VXLAN packet is sent to. *)
Definition ports_off (protocol : Z) (payload : bytes) : Prop :=
  forall sp dp, word16 payload 0 = Some sp -> word16 payload 2 = Some dp ->
    ports_match services egress sp dp = false /\
    tunnels && (protocol =? 17) && ((dp =? 4789) || (dp =? 8472)) = false.

Definition transport_off (protocol : Z) (payload : bytes) : Prop :=
  if (protocol =? 6) || (protocol =? 17) then ports_off protocol payload
  else (protocol =? 47) || (protocol =? 4) || (protocol =? 41) = true -> tunnels = false.

Lemma decode_udp_off ts wire src dst udp dom depth :
  ports_off 17 udp -> reads tunnels (decode_udp inner ts wire src dst udp dom depth) off_service.
Proof.
  intros Hoff. unfold decode_udp.
  reads_step; [apply reads_truncated|]. do 2 reads_step. do 2 reads_step.
  edestruct Hoff as [Hm Ht]; [done..|]. simpl in Ht. rewrite andb_true_r in Ht.
  assert (forall c, tunnels && c && ((x0 =? 4789) || (x0 =? 8472)) = false) as Hc.
  { intros c. rewrite <-andb_assoc, (andb_comm c), andb_assoc, Ht. done. }
  pose proof (parsed_endpoints src x dst x0 Udp dom) as He.
  destruct (canonical_with_domain src x dst x0 Udp dom) as [k dir].
  repeat reads_step;
    try (match goal with H : _ = true |- _ => by rewrite Hc in H end);
    simpl; edestruct He as [E1 E2]; erewrite E1, E2; done.
Qed.

Lemma decode_ip_payload_off ts wire src dst protocol payload dom depth :
  transport_off protocol payload ->
  reads tunnels (decode_ip_payload inner ts wire src dst protocol payload dom depth) off_service.
Proof.
  intros H. unfold decode_ip_payload. do 2 reads_step. cbv zeta. unfold transport_off in H.
  destruct (Z.eqb_spec protocol 6) as [->|?]; simpl in H.
  { apply reads_bind. eapply reads_mono; [apply parse_tcp_ports|]. intros p [H1 H2]. apply reads_ret.
    simpl. by edestruct H as [-> _]. }
  destruct (Z.eqb_spec protocol 17) as [->|?]; [by apply decode_udp_off|].
  destruct ((protocol =? 47) || (protocol =? 4) || (protocol =? 41)) eqn:E; simpl in H.
  - rewrite H by done. simpl. rewrite !andb_false_r. by apply reads_ret.
  - apply orb_false_iff in E as [[-> ->]%orb_false_iff ->]. simpl. by apply reads_ret.
Qed.

(** [b] continues the frame after its link layer; the tests the filter makes on it. *)
Definition ipv4_off (b : bytes) : Prop :=
  exists b0 frag protocol, octet b 0 = Some b0 /\ word16 b 6 = Some frag /\ Z.land frag 0x3fff = 0 /\
    octet b 9 = Some protocol /\
    forall hi payload, slice (Z.land b0 0x0f * 4) hi b = Some payload -> transport_off protocol payload.

Lemma no_fragment frag : Z.land frag 0x3fff = 0 -> Z.land frag 0x1fff = 0 /\ bit frag 0x2000 = false.
Proof.
  intros H. assert (Z.land frag 0x1fff = Z.land (Z.land frag 0x3fff) 0x1fff) as E1 by (by rewrite <-Z.land_assoc).
  assert (Z.land frag 0x2000 = Z.land (Z.land frag 0x3fff) 0x2000) as E2 by (by rewrite <-Z.land_assoc).
  unfold bit. by rewrite E1, E2, H.
Qed.

Lemma decode_ipv4_off ts wire b dom depth :
  ipv4_off b -> reads tunnels (decode_ipv4 clock inner ts wire b dom depth) off_service.
Proof.
  intros (b0 & frag & protocol & E0 & E6 & Hf & E9 & Hoff). apply no_fragment in Hf as [Hf1 Hf2].
  unfold decode_ipv4. repeat reads_step; simplify_eq;
    try (exfalso; match goal with H : _ || _ = true |- _ => by rewrite Hf1, Hf2 in H end).
  eapply decode_ip_payload_off, Hoff. done.
Qed.

Lemma vlan_tags_read n frame offset ether_type dom :
  reads (Store := Store) tunnels (vlan_tags n frame offset ether_type dom) (fun '(o, e, _) =>
    skip_tags n frame ether_type offset = Some (Some (e, o))).
Proof.
  revert offset ether_type dom. induction n as [|n IH]; intros offset ether_type dom; simpl; [by apply reads_ret|].
  destruct (is_vlan ether_type); [|by apply reads_ret].
  repeat reads_step. eapply reads_mono; [apply IH|]. intros [[o e] dom'].
  match goal with H : word16 frame (offset + 2) = _ |- _ => rewrite H end. done.
Qed.

Lemma decode_ethernet_off ts wire frame dom depth :
  (exists ether_type o e, word16 frame 12 = Some ether_type /\
     skip_tags 4 frame ether_type 14 = Some (Some (e, o)) /\ e = ETHERTYPE_IPV4 /\
     forall b, slice o (blen frame) frame = Some b -> ipv4_off b) ->
  reads tunnels (decode_ethernet_bytes clock inner ts wire frame dom depth) off_service.
Proof.
  intros (ether_type & o & e & Et & Es & -> & Hoff). unfold decode_ethernet_bytes.
  reads_step; [by apply reads_ret|]. reads_step; [apply reads_truncated|]. do 2 reads_step. apply reads_bind.
  eapply reads_mono; [apply vlan_tags_read|]. intros [[o' e'] dom'] Es'. simplify_eq.
  do 2 reads_step. rewrite Z.eqb_refl. apply decode_ipv4_off. auto.
Qed.
End Rejected.

(** ** What a rejected frame says *)

Section Filter.
Context (services : ServiceRegistry) (tunnels : bool) (egress : option bool).

(** [ports_match] is false for all ports. *)
Lemma empty_accepts_none port : registry_is_empty services = true -> accepts_port services port = false.
Proof.
  unfold registry_is_empty, accepts_port. intros H%bool_decide_eq_true. rewrite H. apply bool_decide_false.
  rewrite lookup_empty. by intros [? ?].
Qed.

Lemma empty_ports_off sp dp : registry_is_empty services = true -> ports_match services egress sp dp = false.
Proof. intros H. unfold ports_match. rewrite !(empty_accepts_none _ H). by destruct egress as [[]|]. Qed.

Lemma skip_tags_total n frame ether_type offset :
  0 <= offset -> exists r, skip_tags n frame ether_type offset = Some r /\
    match r with Some (_, o) => offset <= o | None => True end.
Proof.
  revert ether_type offset. induction n as [|n IH]; intros ether_type offset Ho; simpl.
  { eexists; split; [done|]. simpl. lia. }
  destruct (is_vlan ether_type); [|eexists; split; [done|simpl; lia]].
  destruct (Z.ltb_spec (blen frame) (offset + 4)); [by eexists|].
  destruct (word16_some frame (offset + 2)) as [x ->]; [lia|]. simpl.
  destruct (IH x (offset + 4)) as (r & E & Hr); [lia|]. exists r. split; [done|]. destruct r as [[? ?]|]; [lia|done].
Qed.

#[local] Arguments skip_tags : simpl never.

(** The test reads inside the frame only. *)
Lemma filter_total frame : exists b, frame_may_belong_to_service frame services tunnels egress = Some b.
Proof.
  unfold frame_may_belong_to_service. destruct (registry_is_empty services); [by eexists|].
  destruct (Z.ltb_spec (blen frame) 14); [by eexists|].
  destruct (word16_some frame 12) as [e ->]; [lia|]. simpl.
  destruct (skip_tags_total 4 frame e 14) as (r & -> & Hr); [lia|]. simpl. destruct r as [[e' o]|]; [|by eexists].
  destruct (negb (e' =? 0x0800)); [by eexists|]. destruct (Z.ltb_spec (blen frame) (o + 20)); [by eexists|].
  destruct (octet_some frame o) as [b0 ->]; [lia|]. simpl.
  destruct (negb (Z.shiftr b0 4 =? 4)); [by eexists|].
  destruct ((_ <? 20) || _) eqn:Eh; [by eexists|]. reflect_bools.
  destruct (word16_some frame (o + 6)) as [frag ->]; [lia|]. simpl.
  destruct (negb (Z.land frag 0x3fff =? 0)); [by eexists|].
  destruct (octet_some frame (o + 9)) as [protocol ->]; [lia|]. simpl.
  destruct ((protocol =? 6) || (protocol =? 17)); [|by destruct (_ || _); eexists].
  destruct (Z.ltb_spec (blen frame) (o + Z.land b0 15 * 4 + 4)); [by eexists|].
  destruct (word16_some frame (o + Z.land b0 15 * 4)) as [sp ->]; [lia|]. simpl.
  destruct (word16_some frame (o + Z.land b0 15 * 4 + 2)) as [dp ->]; [lia|]. simpl.
  by destruct (ports_match services egress sp dp); eexists.
Qed.

(** A rejected frame, when there are services. *)
Lemma rejected_is_off frame :
  registry_is_empty services = false ->
  frame_may_belong_to_service frame services tunnels egress = Some false ->
  exists ether_type o e, word16 frame 12 = Some ether_type /\
    skip_tags 4 frame ether_type 14 = Some (Some (e, o)) /\ e = ETHERTYPE_IPV4 /\
    forall b, slice o (blen frame) frame = Some b -> ipv4_off tunnels services egress b.
Proof.
  unfold frame_may_belong_to_service. intros ->.
  destruct (blen frame <? 14); [done|].
  destruct (word16 frame 12) as [et|] eqn:Et; [|done]. simpl.
  destruct (skip_tags 4 frame et 14) as [[[e o]|]|] eqn:Es; try done. simpl.
  destruct (Z.eqb_spec e 0x0800) as [->|]; [|done]. simpl.
  destruct (Z.ltb_spec (blen frame) (o + 20)); [done|].
  destruct (octet frame o) as [b0|] eqn:E0; [|done]. simpl.
  destruct (negb (Z.shiftr b0 4 =? 4)); [done|].
  destruct ((_ <? 20) || _) eqn:Eh; [done|]. reflect_bools.
  destruct (word16 frame (o + 6)) as [frag|] eqn:E6; [|done]. simpl.
  destruct (Z.eqb_spec (Z.land frag 0x3fff) 0); [|done]. simpl.
  destruct (octet frame (o + 9)) as [protocol|] eqn:E9; [|done]. simpl.
  intros Hrest. exists et, o, 0x0800. split_and!; [done..|]. intros b Hb.
  destruct (slice_length _ _ _ _ Hb) as [Ho Hlen].
  exists b0, frag, protocol. split_and!; [|by rewrite (word16_of_slice _ _ _ _ _ Hb) by lia|done| |].
  - rewrite (octet_of_slice _ _ _ _ _ Hb) by lia. by rewrite Z.add_0_r.
  - by rewrite (octet_of_slice _ _ _ _ _ Hb) by lia.
  - intros hi payload Hp. unfold transport_off. revert Hrest.
    destruct ((protocol =? 6) || (protocol =? 17)).
    + intros Hrest sp dp Hsp Hdp.
      pose proof (slice_word16 _ _ _ _ _ _ Hb (slice_word16 _ _ _ _ _ _ Hp Hsp)) as Hs.
      pose proof (slice_word16 _ _ _ _ _ _ Hb (slice_word16 _ _ _ _ _ _ Hp Hdp)) as Hd.
      rewrite Z.add_0_r in Hs. rewrite Z.add_assoc in Hd.
      revert Hrest. destruct (blen frame <? _); [done|]. rewrite Hs. simpl. rewrite Hd. simpl.
      destruct (ports_match services egress sp dp); [done|]. intros [= E]. done.
    + destruct (_ || _); [by intros [= ->]|done].
Qed.
End Filter.

(** * Contracts around a worker *)

(** What a frame comes to. *)
Inductive Fate :=
  | Rejected
  | OutOfScope (p : ParsedPacket)
  | Queued (p : ParsedPacket)
  | QueueFull (p : ParsedPacket)
  | FlowGone (p : ParsedPacket)
  | Incomplete
  | NotForUs
  | Malformed.

Definition fate_counter (f : Fate) : option Counter :=
  match f with
  | Rejected | OutOfScope _ => Some packets_filtered
  | QueueFull _ => Some capture_drops
  | NotForUs => Some packets_ignored
  | Malformed => Some packet_parse_errors
  | Queued _ | FlowGone _ | Incomplete => None
  end.

Definition queued_packet (f : Fate) : option ParsedPacket := match f with Queued p => Some p | _ => None end.

(** What one frame adds to a counter. *)
Definition tally (k : Counter) (frame : CapturedFrame) (raw_lost : bool) (f : Fate) : Z :=
  (if decide (k = capture_frames) then 1 else 0) +
  (if decide (k = capture_frame_bytes) then cf_wire_len frame else 0) +
  (if decide (k = raw_capture_drops) then b2z raw_lost else 0) +
  (if decide (fate_counter f = Some k) then 1 else 0).

(** ** The queues of the shards over time *)

(** The shards take packets from the front of their queues; one that has ended
    does not come back. *)
Definition shard_run (q q' : ShardQueue) : Prop :=
  (exists taken, sq_packets q = taken ++ sq_packets q') /\ (sq_open q' = true -> sq_open q = true).

Definition shards_run (g g' : FlowIngress) : Prop :=
  Forall2 shard_run (fi_shards g) (fi_shards g') /\ fi_capacity g' = fi_capacity g /\ fi_seed g' = fi_seed g.

(** The packets [ps] enter the queues in this order, each the queue of its flow. *)
Inductive feeds : FlowIngress -> list ParsedPacket -> FlowIngress -> Prop :=
  | feeds_nil g : feeds g [] g
  | feeds_shards g g1 ps g2 : shards_run g g1 -> feeds g1 ps g2 -> feeds g ps g2
  | feeds_push g p ps g2 i q :
      i = Z.to_nat (shard_index p (fi_seed g) (blen (fi_shards g))) ->
      fi_shards g !! i = Some q -> sq_open q = true -> blen (sq_packets q) < fi_capacity g ->
      feeds (set_shard i (push_packet p q) g) ps g2 -> feeds g (p :: ps) g2.

Lemma feeds_app g1 ps1 g2 ps2 g3 : feeds g1 ps1 g2 -> feeds g2 ps2 g3 -> feeds g1 (ps1 ++ ps2) g3.
Proof. induction 1; intros Hrest; simpl; [done|eapply feeds_shards; eauto|eapply feeds_push; eauto]. Qed.

Definition ingress_ok (g : FlowIngress) : Prop :=
  fi_shards g <> [] /\ Forall (fun q => blen (sq_packets q) <= fi_capacity g) (fi_shards g).

Lemma shards_run_ok g g' : shards_run g g' -> ingress_ok g -> ingress_ok g'.
Proof.
  intros (HF & Hc & _) [Hne Hall]. split.
  - intros E. rewrite E in HF. by apply Forall2_nil_inv_r in HF.
  - rewrite Hc. clear Hne. induction HF as [|q q' l l' [[t Ht] _] HF IH]; [done|].
    apply Forall_cons in Hall as [Hq Hall]. constructor; [|by apply IH].
    rewrite Ht, blen_app in Hq. pose proof (blen_nonneg t). lia.
Qed.

Lemma feeds_ok g ps g' : feeds g ps g' -> ingress_ok g -> ingress_ok g'.
Proof.
  induction 1 as [|g g1 ps g2 Hr _ IH|g p ps g2 i q Hi Hq Ho Hroom _ IH]; [done|eauto using shards_run_ok|].
  intros [Hne Hall]. apply IH. split; simpl.
  - intros E. apply (f_equal length) in E. rewrite length_insert in E. by destruct (fi_shards g).
  - apply Forall_insert; [done|]. simpl. rewrite blen_app, blen_cons, blen_nil. lia.
Qed.

(** ** Sending *)

Lemma ingress_shard_exists p seed (qs : list ShardQueue) :
  qs <> [] -> exists q, qs !! Z.to_nat (shard_index p seed (blen qs)) = Some q.
Proof.
  intros Hne. pose proof (blen_pos qs Hne). apply lookup_lt_is_Some_2. unfold shard_index.
  pose proof (Z.mod_pos_bound (shard_hash64 (p_key p) seed) (blen qs) ltac:(done)). unfold blen in *. lia.
Qed.

Lemma shards_run_length g g' : shards_run g g' -> blen (fi_shards g') = blen (fi_shards g).
Proof. intros (HF & _). apply Forall2_length in HF. unfold blen. lia. Qed.

(** [send_timeout] never fails otherwise: the packet is in its queue, or the queue
    was full, or its shard has ended. *)
Lemma flow_send_cases wait p g :
  ingress_ok g -> shards_run g (wait g) ->
  exists o g', flow_send wait p g = Some (o, g') /\
    feeds g (match o with Sent => [p] | _ => [] end) g' /\
    match o with
    | Sent => True
    | Timeout => exists q, g' = wait g /\ fi_shards g' !! Z.to_nat (shard_index p (fi_seed g) (blen (fi_shards g))) = Some q /\
        fi_capacity g <= blen (sq_packets q)
    | Disconnected => exists q, g' = wait g /\
        fi_shards g' !! Z.to_nat (shard_index p (fi_seed g) (blen (fi_shards g))) = Some q /\ sq_open q = false
    end.
Proof.
  intros Hok Hrun. pose proof (shards_run_ok _ _ Hrun Hok) as [Hne _].
  destruct (ingress_shard_exists p (fi_seed g) (fi_shards (wait g)) Hne) as [q Hq].
  pose proof (shards_run_length _ _ Hrun) as Hl. destruct Hrun as (HF & Hc & Hs) eqn:Er. clear Er.
  rewrite Hl in Hq. unfold flow_send. rewrite Hq. simpl.
  assert (feeds g [] (wait g)) as Hf by (eapply feeds_shards; [by split_and!|constructor]).
  destruct (sq_open q) eqn:Eo; simpl; [|eexists _, _; split; [done|]; split; [done|by exists q]].
  destruct (Z.ltb_spec (blen (sq_packets q)) (fi_capacity (wait g))).
  - eexists _, _. split; [done|]. split; [|done]. eapply feeds_shards; [by split_and!|].
    eapply feeds_push; [by rewrite Hs, Hl|done..|constructor].
  - eexists _, _. split; [done|]. split; [done|]. exists q. split_and!; [done..|lia].
Qed.
