(* ===== verification/CaptureTheorems.v ===== *)
(** * What a capture worker guarantees ([src/src/capture/mod.rs])

    The early test of a frame is definitive; every frame a backend delivers is
    accounted for once; no service is hidden by a stale filter; the choice of the
    sources never mixes backends. *)

From stdpp Require Import strings sorting.
From S2P Require Import Prelude Model Text Services Fragment Decode DecodeSpec Flow Topology Capture CaptureSpec.

(** ** The early test *)

Lemma scope_of_ports services p :
  destination (packet_scope services p) = accepts_port services (ep_port (destination_endpoint p)) /\
  flow (packet_scope services p) = accepts_port services (ep_port (destination_endpoint p)) ||
    accepts_port services (ep_port (source_endpoint p)).
Proof. done. Qed.


(** ** One frame *)

Lemma wrap_wrap_add w x n : wrap w (wrap w x + n) = wrap w (x + n).
Proof. unfold wrap. by rewrite Zplus_mod_idemp_l. Qed.

Lemma fetch_add_eq k c n m :
  is_u64 (m k) -> fetch_add c n m k = wrap 64 (m k + (if decide (k = c) then n else 0)).
Proof.
  intros Hm. unfold fetch_add. destruct (decide (k = c)); [done|].
  by rewrite Z.add_0_r, wrap_small.
Qed.

Definition metrics_ok (m : CaptureMetrics) : Prop := forall k, is_u64 (m k).

Lemma fetch_add_ok c n m : metrics_ok m -> metrics_ok (fetch_add c n m).
Proof. intros Hm k. rewrite fetch_add_eq by done. apply wrap_u64. Qed.

Section Accounting.
Context {Store : Type} {HS : FragmentStore Store} {HL : FragmentStoreLaws Store} {HO : HashOrder}.
Context (clock : nat -> Z) (c : CaptureConfig).

Abbreviation state := (CaptureState (Store := Store)).

Record state_ok (s : state) : Prop := {
  so_fragments : store_ok (fragments (cs_decoder s));
  so_ingress : ingress_ok (cs_ingress s);
  so_metrics : metrics_ok (cs_metrics s)
}.

(** What surrounds a frame is sound: the shards only take packets. *)
Definition moment_ok (m : Moment) : Prop := forall g, shards_run g (mo_shards m g).

(** What a fate says of its frame, for a decoder [d]. *)
Definition visible_at (m : Moment) (ignored : bool) (p : ParsedPacket) : bool :=
  service_flow_visible (packet_scope (mo_late m) p) (cc_effective c) ignored.

Definition came_to (m : Moment) (ignored : bool) (frame : CapturedFrame) (d : Decoder) (f : Fate) : Prop :=
  let early := frame_may_belong_to_service (cf_data frame) (mo_early m) (cc_tunnels c)
                 (egress_hint (cc_effective c) ignored) in
  let decoded r := early = Some true /\ exists d', decode clock frame d = Some (d', r) in
  match f with
  | Rejected => early = Some false
  | OutOfScope p => decoded (inl (DPacket p)) /\ visible_at m ignored p = false
  | Queued p | QueueFull p | FlowGone p => decoded (inl (DPacket p)) /\ visible_at m ignored p = true
  | Incomplete => decoded (inl DPendingFragment)
  | NotForUs => decoded (inl DIgnored)
  | Malformed => exists e, decoded (inr e)
  end.

(** [s'] is [s] after one frame with the fate [f]. *)
Record accounted (m : Moment) (frame : CapturedFrame) (s : state) (f : Fate) (lost : bool) (s' : state) : Prop := {
  ac_fate : came_to m (ignores_ethernet_frame (cs_observer s) (cf_data frame)) frame (cs_decoder s) f;
  ac_fed : feeds (cs_ingress s) (option_list (queued_packet f)) (cs_ingress s');
  ac_tally k : cs_metrics s' k = wrap 64 (cs_metrics s k + tally k frame lost f);
  ac_mac : ignored_source_mac (cs_observer s') = ignored_source_mac (cs_observer s);
  ac_raw : lost = true -> exists q, cs_raw s = Some q /\
    (rq_open (mo_raw m q) = false \/ RAW_QUEUE <= blen (rq_frames (mo_raw m q)))
}.

Lemma observe_keeps_mac k ts w ip o t :
  ignored_source_mac (observe_ipv4_source k ts w ip o t).1 = ignored_source_mac o.
Proof. unfold observe_ipv4_source, Topology.flush. by destruct (_ || _). Qed.

(** [observe_sender] touches the observer and the tracker. *)
Lemma observe_sender_frame m ignored scope p (s : state) :
  let s' := observe_sender m ignored scope p s in
  cs_decoder s' = cs_decoder s /\ cs_ingress s' = cs_ingress s /\ cs_metrics s' = cs_metrics s /\
  ignored_source_mac (cs_observer s') = ignored_source_mac (cs_observer s).
Proof.
  unfold observe_sender. destruct (negb ignored && destination scope); [|done].
  destruct (ep_ip (source_endpoint p)); [|done]. simpl. by rewrite observe_keeps_mac.
Qed.

(** The raw copy: a counter and its own queue. *)
Lemma publish_raw_frame m frame (s : state) : metrics_ok (cs_metrics s) ->
  exists lost, let s' := publish_raw m frame s in
    cs_decoder s' = cs_decoder s /\ cs_ingress s' = cs_ingress s /\ cs_observer s' = cs_observer s /\
    (forall k, cs_metrics s' k =
       wrap 64 (cs_metrics s k + (if decide (k = raw_capture_drops) then b2z lost else 0))) /\
    (lost = true -> exists q, cs_raw s = Some q /\
       (rq_open (mo_raw m q) = false \/ RAW_QUEUE <= blen (rq_frames (mo_raw m q)))).
Proof.
  intros Hm. unfold publish_raw, raw_try_send.
  assert (forall k, cs_metrics s k = wrap 64 (cs_metrics s k + (if decide (k = raw_capture_drops) then b2z false else 0))) as Hz.
  { intros k. destruct (decide _); simpl; rewrite Z.add_0_r, wrap_small; (done || apply Hm). }
  destruct (cs_raw s) as [q|] eqn:Eq; [|exists false; by split_and!].
  destruct (negb (rq_open (mo_raw m q)) || _) eqn:E; [exists true|exists false]; split_and!; try done.
  - intros k. simpl. rewrite fetch_add_eq by apply Hm. done.
  - intros _. exists q. split; [done|]. apply orb_true_iff in E as [E|E]; [left|right]; [by apply negb_true_iff in E|lia].
Qed.

(** The counters before the fate is known, and with it. *)
Lemma tally_none k frame lost f : fate_counter f = None -> tally k frame lost f = tally k frame lost Incomplete.
Proof. unfold tally. by intros ->. Qed.

Lemma tally_some k frame lost f d : fate_counter f = Some d ->
  tally k frame lost f = tally k frame lost Incomplete + (if decide (k = d) then 1 else 0).
Proof.
  unfold tally. intros ->. repeat case_decide; simplify_eq/=; lia.
Qed.

Lemma metric_tally m0 frame lost (s : state) f d :
  (forall k, cs_metrics s k = wrap 64 (m0 k + tally k frame lost Incomplete)) -> fate_counter f = Some d ->
  forall k, cs_metrics (metric d 1 s) k = wrap 64 (m0 k + tally k frame lost f).
Proof.
  intros Hs Hf k. simpl. rewrite fetch_add_eq by (rewrite Hs; apply wrap_u64).
  by rewrite Hs, wrap_wrap_add, (tally_some k _ _ _ _ Hf), Z.add_assoc.
Qed.

(** The first lines of the body. *)
Lemma frame_entry m frame (s : state) : metrics_ok (cs_metrics s) ->
  exists lost, let s' := publish_raw m frame (metric capture_frame_bytes (cf_wire_len frame) (metric capture_frames 1 s)) in
    cs_decoder s' = cs_decoder s /\ cs_ingress s' = cs_ingress s /\ cs_observer s' = cs_observer s /\
    (forall k, cs_metrics s' k = wrap 64 (cs_metrics s k + tally k frame lost Incomplete)) /\
    (lost = true -> exists q, cs_raw s = Some q /\
       (rq_open (mo_raw m q) = false \/ RAW_QUEUE <= blen (rq_frames (mo_raw m q)))).
Proof.
  intros Hm. set (s1 := metric _ _ (metric _ _ s)).
  assert (metrics_ok (cs_metrics s1)) as Hm1 by (by apply fetch_add_ok, fetch_add_ok).
  destruct (publish_raw_frame m frame s1 Hm1) as (lost & Hd & Hi & Ho & Hk & Hl).
  exists lost. split_and!; try done. intros k. rewrite Hk. subst s1. simpl.
  rewrite !fetch_add_eq by (try apply Hm; apply fetch_add_ok, Hm).
  rewrite !wrap_wrap_add, <-!Z.add_assoc, wrap_wrap_add. f_equal. unfold tally. cbn [fate_counter].
  rewrite (decide_False (P := @None Counter = Some k)) by done. lia.
Qed.

Lemma admit_packet_spec m ignored packet frame lost m0 (s : state) :
  ingress_ok (cs_ingress s) -> moment_ok m ->
  (forall k, cs_metrics s k = wrap 64 (m0 k + tally k frame lost Incomplete)) ->
  exists stop s' f, admit_packet c m ignored packet s = Some (stop, s') /\
    cs_decoder s' = cs_decoder s /\ feeds (cs_ingress s) (option_list (queued_packet f)) (cs_ingress s') /\
    (forall k, cs_metrics s' k = wrap 64 (m0 k + tally k frame lost f)) /\
    ignored_source_mac (cs_observer s') = ignored_source_mac (cs_observer s) /\
    (stop = true <-> f = FlowGone packet) /\
    (f = OutOfScope packet /\ visible_at m ignored packet = false \/
     (f = Queued packet \/ f = QueueFull packet \/ f = FlowGone packet) /\ visible_at m ignored packet = true).
Proof.
  intros Hi Hmo Hk. unfold admit_packet, visible_at.
  destruct (observe_sender_frame m ignored (packet_scope (mo_late m) packet) packet s) as (E1 & E2 & E3 & E4).
  set (s1 := observe_sender _ _ _ _ s) in *.
  destruct (service_flow_visible _ _ _); simpl.
  - destruct (flow_send_cases (mo_shards m) packet (cs_ingress s1)) as (o & g & -> & Hf & _);
      [by rewrite E2|apply Hmo|]. simpl. rewrite E2 in Hf.
    destruct o.
    + eexists _, _, (Queued packet). split; [done|]. split; [done|]. split; [exact Hf|].
      split; [intros k; simpl; by rewrite E3, Hk, (tally_none k _ _ (Queued packet))|].
      split; [done|]. split; [done|right; split; [by auto|done]].
    + eexists _, _, (QueueFull packet). split; [done|]. split; [done|]. split; [exact Hf|].
      split; [eapply metric_tally; [intros k; simpl; by rewrite E3|done]|].
      split; [done|]. split; [done|right; split; [by auto|done]].
    + eexists _, _, (FlowGone packet). split; [done|]. split; [done|]. split; [exact Hf|].
      split; [intros k; simpl; by rewrite E3, Hk, (tally_none k _ _ (FlowGone packet))|].
      split; [done|]. split; [done|right; split; [by auto|done]].
  - eexists _, _, (OutOfScope packet). split; [done|]. split; [done|]. split; [simpl; rewrite E2; constructor|].
    split; [eapply metric_tally; [intros k; by rewrite E3|done]|]. split; [done|]. split; [done|by left].
Qed.

Lemma capture_frame_spec m frame (s : state) :
  state_ok s -> moment_ok m ->
  exists stop s' f lost, capture_frame clock c m frame s = Some (stop, s') /\ state_ok s' /\
    accounted m frame s f lost s' /\ (stop = true <-> exists p, f = FlowGone p).
Proof.
  intros [Hfr Hi Hm] Hmo. unfold capture_frame.
  destruct (frame_entry m frame s Hm) as (lost & E1 & E2 & E3 & Hk & Hl). simpl in E3.
  set (s1 := publish_raw _ _ _) in *. cbn [cs_observer metric].
  set (ignored := ignores_ethernet_frame _ _).
  destruct (filter_total (mo_early m) (cc_tunnels c) (egress_hint (cc_effective c) ignored) (cf_data frame))
    as [early He]. rewrite He. cbn [mbind option_bind].
  (** every end that sends nothing *)
  assert (forall d s2 f, cs_decoder s2 = d -> store_ok (fragments d) -> cs_ingress s2 = cs_ingress s ->
      cs_observer s2 = cs_observer s -> queued_packet f = None -> (forall p, f <> FlowGone p) ->
      (forall k, cs_metrics s2 k = wrap 64 (cs_metrics s k + tally k frame lost f)) ->
      came_to m ignored frame (cs_decoder s) f ->
      exists stop s' f lost, Some (false, s2) = Some (stop, s') /\ state_ok s' /\
        accounted m frame s f lost s' /\ (stop = true <-> exists p, f = FlowGone p)) as Hend.
  { intros d s2 f Ed Hd Ei Eo Hq Hg Ht Hc. exists false, s2, f, lost. split; [done|]. split; [split|].
    - by rewrite Ed.
    - by rewrite Ei.
    - intros k. rewrite Ht. apply wrap_u64.
    - split; [|split; [done|intros [p ->]; by destruct (Hg p)]]. split; [done| |done|by rewrite Eo|done].
      rewrite Hq, Ei. constructor. }
  destruct early; simpl.
  2:{ by apply (Hend (cs_decoder s) _ Rejected); try done; eapply metric_tally. }
  destruct (decode_total clock (cs_decoder s1) frame) as (d & r & Hd & Hfr2 & _); [by rewrite E1|].
  rewrite Hd. rewrite E1 in Hd. simpl.
  destruct r as [[p| |]|e].
  - destruct (admit_packet_spec m ignored p frame lost (cs_metrics s) (set_decoder d s1))
      as (stop & s' & f & -> & Ed & Hfeed & Ht & Hmac & Hstop & Hf); [by simpl; rewrite E2|done|done|].
    simpl in Hfeed, Hmac. rewrite E2 in Hfeed. rewrite E3 in Hmac.
    exists stop, s', f, lost. split; [done|]. split; [split|].
    + by rewrite Ed.
    + by eapply feeds_ok.
    + intros k. rewrite Ht. apply wrap_u64.
    + split; [split; try done|].
      * assert (frame_may_belong_to_service (cf_data frame) (mo_early m) (cc_tunnels c)
                  (egress_hint (cc_effective c) ignored) = Some true /\
                exists d', decode clock frame (cs_decoder s) = Some (d', inl (DPacket p))) as Hdec by eauto.
        by destruct Hf as [[-> Hv]|[ [-> | [-> | ->] ] Hv] ].
      * rewrite Hstop. split; [by eexists|]. intros [p' ->].
        by destruct Hf as [[? _]|[ [?|[?|?] ] _] ]; simplify_eq.
  - apply (Hend d _ Incomplete); eauto. split; eauto.
  - apply (Hend d _ NotForUs); eauto; [by eapply metric_tally|split; eauto].
  - apply (Hend d _ Malformed); eauto; [by eapply metric_tally|exists e; split; eauto].
Qed.

(** ** A batch *)

(** What the frames that were handled add to a counter. *)
Fixpoint tallies (k : Counter) (frames : list (Moment * CapturedFrame)) (fates : list (Fate * bool)) : Z :=
  match frames, fates with
  | (_, frame) :: frames, (f, lost) :: fates => tally k frame lost f + tallies k frames fates
  | _, _ => 0
  end.

Definition queued_packets (fates : list (Fate * bool)) : list ParsedPacket :=
  omap (fun e => queued_packet e.1) fates.

(** The fates of the frames of a batch, one each, up to the one at which the flow
    engine was gone. *)
Inductive fates_of (s : state) : list (Moment * CapturedFrame) -> list (Fate * bool) -> bool -> Prop :=
  | fates_nil : fates_of s [] [] false
  | fates_stop m frame rest d p lost :
      came_to m (ignores_ethernet_frame (cs_observer s) (cf_data frame)) frame d (FlowGone p) ->
      fates_of s ((m, frame) :: rest) [(FlowGone p, lost)] true
  | fates_cons m frame rest d f lost fates stop :
      came_to m (ignores_ethernet_frame (cs_observer s) (cf_data frame)) frame d f ->
      (forall p, f <> FlowGone p) -> fates_of s rest fates stop ->
      fates_of s ((m, frame) :: rest) ((f, lost) :: fates) stop.

Lemma fates_of_mac s s' frames fates stop :
  ignored_source_mac (cs_observer s') = ignored_source_mac (cs_observer s) ->
  fates_of s' frames fates stop -> fates_of s frames fates stop.
Proof.
  intros Hmac. assert (forall b, ignores_ethernet_frame (cs_observer s') b = ignores_ethernet_frame (cs_observer s) b) as He.
  { intros b. unfold ignores_ethernet_frame. by rewrite Hmac. }
  induction 1 as [| |m frame rest d f lost fates stop Hc Hf Hrest IH]; [constructor| |];
    rewrite He in *; [by econstructor|]. by eapply fates_cons.
Qed.

End Accounting.

(** ** The source's filter follows the services *)

Lemma ports_accept r p : p ∈ ports r <-> accepts_port r p = true.
Proof.
  unfold ports, accepts_port. rewrite merge_sort_Permutation, bool_decide_eq_true.
  rewrite list_elem_of_fmap. split.
  - intros ([q s] & -> & H%elem_of_map_to_list). by eexists.
  - intros [s Hs]. exists (p, s). split; [done|]. by apply elem_of_map_to_list.
Qed.

Section Filter.
Context {Store : Type} {HS : FragmentStore Store} {HO : HashOrder}.
Context {Src : Type} {HF : FrameSource Src} {HFl : FilteredSource Src}.
Context (clock : nat -> Z) (c : CaptureConfig).
Hypothesis early : cc_early_port_filter c = true.

(** The versions of the registry, numbered by their generation. *)
Context (hist : list ServiceRegistry).
Hypothesis versions : forall i r, hist !! i = Some r -> generation r = Z.of_nat i + 1.

(** The turns of one thread read ever newer versions, and the ports not before the
    generation. *)
Inductive served : nat -> list Turn -> Prop :=
  | served_nil lo : served lo []
  | served_cons lo a b t rest :
      (lo <= a <= b)%nat -> hist !! a = Some (tu_services t) -> hist !! b = Some (tu_ports t) ->
      served a rest -> served lo (t :: rest).

(** A worker's filter passes all ports of some version no older than the one it has
    noted. *)
Definition filter_ok (lo : nat) (w : WorkerState (Store := Store) (Src := Src)) : Prop :=
  w_generation w = 0 \/
  exists a v r, (a <= lo)%nat /\ (a <= v)%nat /\ w_generation w = Z.of_nat a + 1 /\ hist !! v = Some r /\
    forall p, accepts_port r p = true -> passes (w_source w) p.

Lemma update_filter_ok lo a b t w ok w' :
  filter_ok lo w -> (lo <= a <= b)%nat -> hist !! a = Some (tu_services t) -> hist !! b = Some (tu_ports t) ->
  update_filter c (tu_services t) (tu_ports t) w = (ok, w') -> ok = true ->
  w_generation w' = Z.of_nat a + 1 /\
  exists v r, (a <= v)%nat /\ hist !! v = Some r /\ forall p, accepts_port r p = true -> passes (w_source w') p.
Proof.
  intros Hw Hab Ha Hb. unfold update_filter. rewrite early, (versions _ _ Ha).
  destruct (Z.eqb_spec (Z.of_nat a + 1) (w_generation w)) as [E|E].
  - intros [= <- <-] _. split; [done|]. destruct Hw as [?|(a' & v & r & ? & Hv & Hg & Hr & Hp)]; [lia|].
    exists v, r. split_and!; [lia|done..].
  - destruct (configure_port_filter (ports (tu_ports t)) (cc_bpf_filter c) (w_source w)) as [[mode|] src] eqn:Ec;
      intros [= <- <-]; [|done]. intros _. split; [done|]. exists b, (tu_ports t). split_and!; [lia|done|].
    intros p Hp%ports_accept. simpl.
    pose proof (configure_passes (ports (tu_ports t)) (cc_bpf_filter c) (w_source w) mode p) as Hcp.
    rewrite Ec in Hcp. by apply Hcp.
Qed.

Lemma poll_stats_keeps t (w : WorkerState (Store := Store) (Src := Src)) p :
  w_generation (poll_stats t w) = w_generation w /\ (passes (w_source w) p -> passes (w_source (poll_stats t w)) p).
Proof.
  unfold poll_stats. destruct (_ <=? _); [|done].
  pose proof (stats_passes (w_source w) p) as Hs. destruct (source_stats (w_source w)) as [r src].
  destruct r as [[now|]|]; simpl; auto.
Qed.

(** A turn that goes on keeps the filter. *)
Lemma turn_filter_ok lo a b t w w' :
  filter_ok lo w -> (lo <= a <= b)%nat -> hist !! a = Some (tu_services t) -> hist !! b = Some (tu_ports t) ->
  capture_turn clock c t w = Some (Continue w') -> filter_ok a w'.
Proof.
  intros Hw Hab Ha Hb. unfold capture_turn. destruct (tu_shutdown t); [done|].
  destruct (update_filter c (tu_services t) (tu_ports t) w) as [ok w1] eqn:Eu. destruct ok; [|done]. simpl.
  destruct (update_filter_ok _ _ _ _ _ _ _ Hw Hab Ha Hb Eu eq_refl) as (Hg & v & r & Hv & Hr & Hp).
  assert (forall w2, w_generation w2 = w_generation w1 ->
    (forall p, passes (w_source w1) p -> passes (w_source w2) p) -> filter_ok a w2) as Hkeep.
  { intros w2 Hg2 Hp2. right. exists a, v, r. split_and!; [done|done|by rewrite Hg2|done|auto]. }
  destruct (bool_decide (cc_mode c = PcapFile) && _); [intros [= <-]; by apply Hkeep|].
  assert (forall src s, (receive_batch (cc_batch c) (w_source (poll_stats t w1))).2 = src ->
    filter_ok a (with_state src s (poll_stats t w1))) as Hrec.
  { intros src s <-. apply Hkeep; [by apply (poll_stats_keeps t w1 0)|].
    intros p Hp1. simpl. by apply receive_passes, poll_stats_keeps. }
  destruct (receive_batch _ _) as [[[n|] frames] src]; [|intros [= <-]; by apply Hrec].
  destruct (n =? 0).
  - destruct (bool_decide (cc_mode c = PcapFile)); intros [= <-]. by apply Hrec.
  - destruct (capture_batch _ _ _ _) as [[[] s]|]; simpl; try done. intros [= <-]. by apply Hrec.
Qed.

Lemma loop_filter_ok turns rest lo w w' :
  filter_ok lo w -> served lo (turns ++ rest) -> capture_loop clock c turns w = Some (Continue w') ->
  exists lo', filter_ok lo' w' /\ served lo' rest.
Proof.
  revert lo w. induction turns as [|t turns IH]; intros lo w Hw Hs; simpl.
  { intros [= ->]. by exists lo. }
  inversion Hs as [|? a b ? ? Hab Ha Hb Hrest]; subst.
  destruct (capture_turn clock c t w) as [[w1|e w1]|] eqn:Et; simpl; [|done|done].
  intros Hl. eapply IH; [eapply turn_filter_ok|..]; eauto.
Qed.

End Filter.

(** ** The choice of the sources *)

Definition xdp_event (e : SourceEvent) : Z :=
  match e with Opened (XdpQueue _) => 1 | Dropped (XdpQueue _) => -1 | _ => 0 end.

Definition live_event (e : SourceEvent) : Z :=
  match e with Opened LiveCapture => 1 | Dropped LiveCapture => -1 | _ => 0 end.

Fixpoint balance (f : SourceEvent -> Z) (evs : list SourceEvent) : Z :=
  match evs with [] => 0 | e :: evs => f e + balance f evs end.

Lemma balance_app f l1 l2 : balance f (l1 ++ l2) = balance f l1 + balance f l2.
Proof. induction l1; simpl; lia. Qed.

Section Sources.
Context {Src : Type} (open_backend : Backend -> Result Src).

Lemma open_queues_spec ids evs (l : list (Z * Src)) ok :
  open_queues open_backend ids = (evs, l, ok) ->
  balance live_event evs = 0 /\ balance xdp_event evs = Z.of_nat (length l) /\
  (forall pre, pre `prefix_of` evs -> balance live_event pre = 0) /\
  (if ok then Forall2 (fun q e => e.1 = q /\ open_backend (XdpQueue q) = Ok e.2) ids l
   else exists q, q ∈ ids /\ open_backend (XdpQueue q) = Err).
Proof.
  revert evs l ok. induction ids as [|q ids IH]; intros evs l ok; simpl.
  { intros [= <- <- <-]. split_and!; [done|done| |done]. by intros pre ->%prefix_nil_inv. }
  unfold try_open. destruct (open_backend (XdpQueue q)) as [src|] eqn:Eq; simpl.
  - destruct (open_queues open_backend ids) as [[evs' l'] ok'] eqn:E. intros [= <- <- <-].
    destruct (IH _ _ _ eq_refl) as (H1 & H2 & H3 & H4). split_and!; simpl; [lia|lia| |].
    + intros pre Hp. destruct pre as [|e pre]; [done|]. apply prefix_cons_inv_1 in Hp as He.
      apply prefix_cons_inv_2 in Hp. subst e. simpl. by apply H3.
    + destruct ok'; [by constructor|]. destruct H4 as (q' & Hq' & He). exists q'. split; [by right|done].
  - intros [= <- <- <-]. split_and!; [done|done| |exists q; split; [by left|done]].
    intros pre Hp. destruct pre as [|e pre]; [done|]. apply prefix_cons_inv_1 in Hp as He.
    apply prefix_cons_inv_2 in Hp. subst e. by apply prefix_nil_inv in Hp as ->.
Qed.

Lemma dropped_balance (l : list (Z * Src)) :
  let evs := map (fun e => Dropped (XdpQueue e.1)) l in
  balance xdp_event evs = - Z.of_nat (length l) /\
  forall pre, pre `prefix_of` evs -> balance live_event pre = 0.
Proof.
  induction l as [|e l [IH1 IH2]]; simpl; [split; [done|by intros pre ->%prefix_nil_inv]|].
  split; [lia|]. intros [|x pre] Hp; [done|]. apply prefix_cons_inv_1 in Hp as He.
  apply prefix_cons_inv_2 in Hp. subst x. simpl. by apply IH2.
Qed.

(** A prefix of two lists ends in the first or in the second. *)
Lemma prefix_app_cases {A} (pre l1 l2 : list A) :
  pre `prefix_of` l1 ++ l2 -> pre `prefix_of` l1 \/ exists p2, pre = l1 ++ p2 /\ p2 `prefix_of` l2.
Proof.
  intros [k Hk]. apply app_eq_inv in Hk as [(k' & -> & ->)|(k' & -> & ->)].
  - left. by exists k'.
  - right. exists k'. split; [done|by exists k].
Qed.

(** What [prepare_sources] may come to. *)
Definition source_choice (c : SpawnConfig) (evs : list SourceEvent) (p : Prepared Src) : Prop :=
  if pr_adjusted p then
    sp_mode c = AfXdp /\ pr_effective p = PcapLive /\ balance xdp_event evs = 0 /\
    (exists src, open_backend LiveCapture = Ok src /\ pr_sources p = [(sp_queue_id c, src)]) /\
    (sp_throttle_enabled c = true \/
     sp_fallback_pcap c = true /\ exists q, q ∈ sp_queue_ids c /\ open_backend (XdpQueue q) = Err)
  else
    pr_effective p = sp_mode c /\ pr_sources p <> [] /\
    match sp_mode c with
    | AfXdp => sp_throttle_enabled c = false /\
        Forall2 (fun q e => e.1 = q /\ open_backend (XdpQueue q) = Ok e.2) (sp_queue_ids c) (pr_sources p)
    | PcapLive => exists src, open_backend LiveCapture = Ok src /\ pr_sources p = [(sp_queue_id c, src)]
    | PcapFile => exists src, open_backend OfflineFile = Ok src /\ pr_sources p = [(sp_queue_id c, src)]
    | Disabled => False
    end.

(** Events of one open. *)
Lemma try_open_spec b evs r : try_open open_backend b = (evs, r) ->
  r = open_backend b /\ evs = [match r with Ok _ => Opened b | Err => OpenFailed b end].
Proof. unfold try_open. destruct (open_backend b); by intros [= <- <-]. Qed.

Lemma prefix_single {A} (x : A) pre : pre `prefix_of` [x] -> pre = [] \/ pre = [x].
Proof.
  destruct pre as [|y pre]; [by left|]. intros Hp. pose proof (prefix_cons_inv_1 _ _ _ _ Hp) as ->.
  apply prefix_cons_inv_2, prefix_nil_inv in Hp as ->. by right.
Qed.

Lemma single_source_spec c mode adjusted evs r b :
  single_source (sp_queue_id c) mode adjusted (try_open open_backend b) = (evs, r) ->
  evs = [match open_backend b with Ok _ => Opened b | Err => OpenFailed b end] /\
  forall p, r = Ok p -> exists src, open_backend b = Ok src /\
    p = {| pr_sources := [(sp_queue_id c, src)]; pr_effective := mode; pr_adjusted := adjusted |}.
Proof.
  unfold single_source. destruct (try_open open_backend b) as [ev o] eqn:E. apply try_open_spec in E as [-> ->].
  destruct (open_backend b) as [src|]; intros [= <- <-]; (split; [done|]); [|done].
  intros p [= <-]. by exists src.
Qed.

Lemma single_source_safe c mode adjusted b evs r :
  (b = LiveCapture \/ b = OfflineFile) ->
  single_source (sp_queue_id c) mode adjusted (try_open open_backend b) = (evs, r) ->
  (forall pre, pre `prefix_of` evs -> balance xdp_event pre = 0) /\ balance xdp_event evs = 0 /\
  forall p, r = Ok p -> exists src, open_backend b = Ok src /\
    p = {| pr_sources := [(sp_queue_id c, src)]; pr_effective := mode; pr_adjusted := adjusted |}.
Proof.
  intros Hb Hs. apply single_source_spec in Hs as [-> Hp].
  split; [|split; [by destruct Hb as [-> | ->], (open_backend _)|done]].
  intros pre [-> | ->]%prefix_single; [done|]. by destruct Hb as [-> | ->], (open_backend _).
Qed.

(** The queues that were opened are closed, then libpcap is opened. *)
Lemma fallback_safe ids ev (l : list (Z * Src)) last :
  open_queues open_backend ids = (ev, l, false) -> last ∈ [Opened LiveCapture; OpenFailed LiveCapture] ->
  let evs := (ev ++ map (fun e => Dropped (XdpQueue e.1)) l) ++ [last] in
  balance xdp_event evs = 0 /\
  forall pre, pre `prefix_of` evs -> balance xdp_event pre = 0 \/ balance live_event pre = 0.
Proof.
  intros Eq Hlast. destruct (open_queues_spec _ _ _ _ Eq) as (Hl & Hx & Hpre & _).
  destruct (dropped_balance l) as [Hd1 Hd2]. simpl.
  assert (balance xdp_event [last] = 0) as E0 by (by set_unfold in Hlast; destruct Hlast as [->|[->|?]]).
  split; [rewrite !balance_app, Hx, Hd1, E0; lia|].
  intros pre Hp. apply prefix_app_cases in Hp as [Hp|(p2 & -> & Hp)].
  - right. apply prefix_app_cases in Hp as [Hp|(p2 & -> & Hp)]; [by apply Hpre|].
    rewrite balance_app, Hl. by rewrite Hd2.
  - left. rewrite !balance_app, Hx, Hd1. apply prefix_single in Hp as [-> | ->]; [simpl|rewrite E0]; lia.
Qed.

(** The backends never compete for the interface.  Whichever opens fail, at no
    moment of the start-up are an AF_XDP queue and the libpcap capture open at
    once, and with the throttle enabled no AF_XDP queue is opened at all; if the
    start-up succeeds, the sources are all AF_XDP queues of the configuration (each
    queue has one), or the one source of the mode asked for, or - for AF_XDP with
    the throttle, or with the fallback allowed and a queue that failed - one libpcap
    source, all AF_XDP queues being closed again. *)
Theorem backends_never_mix c evs r :
  prepare_sources open_backend c = (evs, r) ->
  (forall pre, pre `prefix_of` evs -> balance xdp_event pre = 0 \/ balance live_event pre = 0) /\
  (sp_throttle_enabled c = true -> forall pre, pre `prefix_of` evs -> balance xdp_event pre = 0) /\
  forall p, r = Ok p -> source_choice c evs p.
Proof.
  unfold prepare_sources, source_choice, effective_capture_mode.
  destruct (sp_mode c) eqn:Em; simpl.
  - destruct (sp_throttle_enabled c) eqn:Et; simpl.
    { intros Hs. destruct (single_source_safe _ _ _ _ _ _ (or_introl eq_refl) Hs) as (H1 & H2 & H3).
      split_and!; [by left; apply H1|by intros _|]. intros p Hp. destruct (H3 p Hp) as (src & Ho & ->). simpl.
      split_and!; [done..|by exists src|by left]. }
    destruct (open_queues open_backend (sp_queue_ids c)) as [[ev l] ok] eqn:Eq.
    destruct (open_queues_spec _ _ _ _ Eq) as (Hl & Hx & Hpre & Hok). destruct ok.
    + destruct (is_empty l) eqn:El; intros [= <- <-]; (split_and!; [intros pre Hp; right; by apply Hpre|done|]); [done|].
      intros p [= <-]. simpl. split_and!; [done| |done|done]. intros ->. done.
    + destruct (dropped_balance l) as [Hd1 Hd2]. destruct (negb (sp_fallback_pcap c)) eqn:Ef.
      * intros [= <- <-]. split_and!; [|done|done]. intros pre Hp. right.
        apply prefix_app_cases in Hp as [Hp|(p2 & -> & Hp)]; [by apply Hpre|].
        rewrite balance_app, Hl. by rewrite Hd2.
      * destruct (single_source _ _ _ _) as [ev2 r2] eqn:Es. intros [= <- <-].
        apply single_source_spec in Es as [-> Hp2].
        destruct (fallback_safe _ _ _ (match open_backend LiveCapture with Ok _ => Opened LiveCapture | Err => OpenFailed LiveCapture end) Eq)
          as [Hb Hmix]; [destruct (open_backend LiveCapture); set_solver|].
        split_and!; [exact Hmix|done|]. intros p Hp. destruct (Hp2 p Hp) as (src & Ho & ->). simpl.
        split_and!; [done|done|exact Hb|by exists src|]. right. split; [by apply negb_false_iff in Ef|done].
  - intros Hs. destruct (single_source_safe _ _ _ _ _ _ (or_introl eq_refl) Hs) as (H1 & H2 & H3).
    split_and!; [by left; apply H1|by intros _|]. intros p Hp. destruct (H3 p Hp) as (src & Ho & ->). simpl.
    split_and!; [done..|by exists src].
  - intros Hs. destruct (single_source_safe _ _ _ _ _ _ (or_intror eq_refl) Hs) as (H1 & H2 & H3).
    split_and!; [by left; apply H1|by intros _|]. intros p Hp. destruct (H3 p Hp) as (src & Ho & ->). simpl.
    split_and!; [done..|by exists src].
  - intros [= <- <-]. split_and!; [by intros pre ->%prefix_nil_inv; left|by intros _ pre ->%prefix_nil_inv|done].
Qed.
End Sources.
