(* ===== verification/CaptureSources.v ===== *)
(** * Capture back ends ([src/src/capture/pcap_source.rs], [afxdp.rs] and [raw.rs])

    The three sources a worker reads from and the writer of raw copies.  libpcap
    and the AF_XDP rings are parameters (classes); what the sources make of them -
    frames, filter expressions, stitched packets - and the files of the raw writer
    are the model. *)

From stdpp Require Import strings pretty.
From S2P Require Import Prelude Model Text Segment SegmentSpec Decode Services Capture.

(** ** libpcap sources *)

(** A packet as libpcap hands it over: the header's time and length. *)
Record PcapPacket := { pp_sec : Z; pp_usec : Z; pp_len : Z; pp_data : bytes }.

Inductive NextPacket := NextOk (p : PcapPacket) | NoMorePackets | NextError.

(** An open [pcap::Capture]; [dispatch] hands packets to the closure and then
    returns, [filter] says whether the program was installed. *)
Class PcapCapture (Cap : Type) := {
  cap_dispatch : Z -> Cap -> list PcapPacket * Result Z * Cap;
  cap_next_packet : Cap -> NextPacket * Cap;
  cap_filter : list Z -> Cap -> bool * Cap;
  cap_stats : Cap -> Result (Z * Z) * Cap
}.

(** [tv_sec as u64] and the saturating sum. *)
Definition pcap_ts_ns (p : PcapPacket) : Z :=
  sat_add (sat_mul (wrap 64 (pp_sec p)) (10 ^ 9)) (sat_mul (wrap 64 (pp_usec p)) 1000).

Definition pcap_frame (p : PcapPacket) : CapturedFrame :=
  {| cf_ts_ns := pcap_ts_ns p; cf_wire_len := pp_len p; cf_data := pp_data p |}.

(** ** Filter expressions *)

Definition show_port (p : Z) : list Z := text (pretty (Z.to_N p)).

(** [join] of the clauses of the ports. *)
Fixpoint join (sep : list Z) (l : list (list Z)) : list Z :=
  match l with [] => [] | [x] => x | x :: l => x ++ sep ++ join sep l end.

Definition or_ports (prefix : string) (ports : list Z) : list Z :=
  join (text " or ") (map (fun p => text prefix ++ show_port p) ports).

Definition extra_clause (extra : option (list Z)) : option (list Z) :=
  e ← extra; if is_empty (trim e) then None else Some (trim e).

Definition fragments_expr : string := "(ip and (ip[6:2] & 0x3fff != 0)) or (ip6 protochain 44)".
Definition tunnels_expr : string := "(udp port 4789 or udp port 8472) or (ip proto 47) or (ip6 protochain 47) or (ip proto 4) or (ip6 protochain 4) or (ip proto 41) or (ip6 protochain 41)".
Definition tagged_expr : string := "(ether proto 0x8100) or (ether proto 0x88a8) or (ether proto 0x9100) or (ether proto 0x9200)".

Definition port_filter_expression (ports : list Z) (extra : option (list Z)) : list Z :=
  if is_empty ports then text "ip and not ip"
  else
    let ports_expr := or_ports "port " ports in
    let bypass := text " or " ++ text fragments_expr ++ text " or " ++ text tunnels_expr ++ text " or " ++ text tagged_expr in
    match extra_clause extra with
    | Some extra => text "((" ++ ports_expr ++ text ") and (" ++ extra ++ text "))" ++ bypass
    | None => text "(" ++ ports_expr ++ text ")" ++ bypass
    end.

Definition hex_digit (n : Z) : Z := if n <? 10 then 48 + n else 87 + n.
Definition hex2 (b : byte) : list Z := [hex_digit (byte_val b / 16); hex_digit (byte_val b mod 16)].
Definition format_mac (mac : bytes) : list Z := join [58] (map hex2 mac).

Definition live_fragments : string := "(ip and (ip[6:2] & 0x3fff != 0))".
Definition live_tunnels : string := "(udp dst port 4789 or udp dst port 8472) or (ip proto 47) or (ip proto 4) or (ip proto 41)".

Definition live_port_filter_expression (ports : list Z) (extra : option (list Z)) (local_mac : option bytes) : list Z :=
  if is_empty ports then text "ip and not ip"
  else
    let dst_ports := or_ports "dst port " ports in
    let src_ports := or_ports "src port " ports in
    let service :=
      match local_mac with
      | Some mac => text "(" ++ dst_ports ++ text ") or ((ether src " ++ format_mac mac ++ text ") and (" ++ src_ports ++ text "))"
      | None => text "(" ++ dst_ports ++ text ") or (" ++ src_ports ++ text ")"
      end in
    let normal :=
      match extra_clause extra with
      | Some extra => text "((" ++ service ++ text ") and (" ++ extra ++ text "))"
      | None => text "(" ++ service ++ text ")"
      end in
    normal ++ text " or " ++ text live_fragments ++ text " or " ++ text live_tunnels ++ text " or " ++
      text tagged_expr ++ text " or ip6".

Definition live_fail_open_expression : list Z :=
  text "ip or ip6 or (ether proto 0x8100) or (ether proto 0x88a8) or (ether proto 0x9100) or (ether proto 0x9200)".

Section Pcap.
Context {Cap : Type} {HC : PcapCapture Cap}.

Record PcapLiveSource := { lv_cap : Cap; lv_local_mac : option bytes }.

Definition live_configure (ports : list Z) (extra : option (list Z)) (s : PcapLiveSource)
  : Result PortFilterMode * PcapLiveSource :=
  let keep c := {| lv_cap := c; lv_local_mac := lv_local_mac s |} in
  let '(ok, c) := cap_filter (live_port_filter_expression ports extra (lv_local_mac s)) (lv_cap s) in
  if (ok : bool) then (Ok Optimized, keep c)
  else
    let '(ok, c) := cap_filter live_fail_open_expression c in
    if (ok : bool) then (Ok FailOpen, keep c) else (Err, keep c).

Definition live_receive (max : Z) (s : PcapLiveSource) : Result Z * list CapturedFrame * PcapLiveSource :=
  let '(packets, r, c) := cap_dispatch max (lv_cap s) in
  (r, map pcap_frame packets, {| lv_cap := c; lv_local_mac := lv_local_mac s |}).

Definition live_stats (s : PcapLiveSource) : Result (option SourceStats) * PcapLiveSource :=
  let '(r, c) := cap_stats (lv_cap s) in
  (match r with
   | Ok (dropped, if_dropped) => Ok (Some {| ss_dropped := sat_add dropped if_dropped; ss_invalid_descs := 0 |})
   | Err => Err
   end, {| lv_cap := c; lv_local_mac := lv_local_mac s |}).

#[export] Instance live_source : FrameSource PcapLiveSource :=
  {| receive_batch := live_receive; source_stats := live_stats; configure_port_filter := live_configure |}.

Record PcapFileSource := { fl_cap : Cap; fl_exhausted : bool }.

Definition file_configure (ports : list Z) (extra : option (list Z)) (s : PcapFileSource)
  : Result PortFilterMode * PcapFileSource :=
  let '(ok, c) := cap_filter (port_filter_expression ports extra) (fl_cap s) in
  (if (ok : bool) then Ok Optimized else Err, {| fl_cap := c; fl_exhausted := fl_exhausted s |}).

(** The loop over [next_packet]; the frames read stay in the batch in any case. *)
Fixpoint file_read (n : nat) (c : Cap) : bool * list CapturedFrame * bool * Cap :=
  match n with
  | O => (true, [], false, c)
  | S n =>
      match cap_next_packet c with
      | (NextOk p, c) => let '(ok, out, exhausted, c) := file_read n c in (ok, pcap_frame p :: out, exhausted, c)
      | (NoMorePackets, c) => (true, [], true, c)
      | (NextError, c) => (false, [], false, c)
      end
  end.

Definition file_receive (max : Z) (s : PcapFileSource) : Result Z * list CapturedFrame * PcapFileSource :=
  if fl_exhausted s then (Ok 0, [], s)
  else
    let '(ok, out, exhausted, c) := file_read (Z.to_nat max) (fl_cap s) in
    (if (ok : bool) then Ok (blen out) else Err, out, {| fl_cap := c; fl_exhausted := exhausted |}).

#[export] Instance file_source : FrameSource PcapFileSource :=
  {| receive_batch := file_receive; source_stats := fun s => (Ok None, s); configure_port_filter := file_configure |}.
End Pcap.
Arguments PcapLiveSource : clear implicits.
Arguments PcapFileSource : clear implicits.

(** ** AF_XDP *)

(** A descriptor of the RX ring: its memory, if there is any, and whether the
    packet goes on in the next one. *)
Record XdpFrame := { xf_data : option bytes; xf_continued : bool }.

(** The native library: [peek] and [release] may fail, [poll] fails, times out
    ([Ok false]) or finds something. *)
Class XdpRing (Ring : Type) := {
  xdp_peek : Z -> Ring -> Result (list XdpFrame) * Ring;
  xdp_poll : Ring -> Result bool * Ring;
  xdp_release : list XdpFrame -> Ring -> bool * Ring;
  xdp_stats : Ring -> Result (Z * Z) * Ring;
  xdp_now : Ring -> Z
}.

Definition MAX_BATCH : Z := 256.

Definition desc_bytes (d : XdpFrame) : bytes := default [] (xf_data d).

(** The copy of the descriptors into one allocation, with the range of each. *)
Fixpoint gather (batch : bytes) (descs : list XdpFrame) : bytes * list (Z * Z) :=
  match descs with
  | [] => (batch, [])
  | d :: descs =>
      let data := desc_bytes d in
      let '(whole, ranges) := gather (batch ++ data) descs in
      (whole, (if is_empty data then (0, 0) else (blen batch, blen data)) :: ranges)
  end.

Definition range_of (batch : bytes) (r : Z * Z) : bytes := take (Z.to_nat r.2) (drop (Z.to_nat r.1) batch).

Record Pending := { pm_bytes : bytes; pm_wire_len : Z }.
Definition no_pending : Pending := {| pm_bytes := []; pm_wire_len := 0 |}.

(** One descriptor of the second pass: the frame it completes, if any. *)
Definition stitch_one (ts_ns : Z) (batch : bytes) (r : Z * Z) (continued : bool) (p : Pending)
  : option CapturedFrame * Pending :=
  if r.2 =? 0 then (None, p)
  else if is_empty (pm_bytes p) && negb continued then
    (Some {| cf_ts_ns := ts_ns; cf_wire_len := r.2; cf_data := range_of batch r |}, p)
  else
    let p := {| pm_bytes := pm_bytes p ++ range_of batch r; pm_wire_len := sat_add (pm_wire_len p) r.2 |} in
    if continued then (None, p)
    else (Some {| cf_ts_ns := ts_ns; cf_wire_len := pm_wire_len p; cf_data := pm_bytes p |}, no_pending).

Fixpoint stitch (ts_ns : Z) (batch : bytes) (l : list ((Z * Z) * XdpFrame)) (p : Pending)
  : list CapturedFrame * Pending :=
  match l with
  | [] => ([], p)
  | (r, d) :: l =>
      let '(f, p) := stitch_one ts_ns batch r (xf_continued d) p in
      let '(fs, p) := stitch ts_ns batch l p in
      (option_list f ++ fs, p)
  end.

Definition stitch_batch (ts_ns : Z) (descs : list XdpFrame) (p : Pending) : list CapturedFrame * Pending :=
  let '(batch, ranges) := gather [] descs in stitch ts_ns batch (zip ranges descs) p.

Section Xdp.
Context {Ring : Type} {HR : XdpRing Ring}.

Record AfXdpSource := { xs_ring : Ring; xs_pending : Pending }.

Definition xdp_fail (ring : Ring) (s : AfXdpSource) : Result Z * list CapturedFrame * AfXdpSource :=
  (Err, [], {| xs_ring := ring; xs_pending := xs_pending s |}).

(** A batch that is not empty. *)
Definition take_descs (descs : list XdpFrame) (ring : Ring) (s : AfXdpSource)
  : Result Z * list CapturedFrame * AfXdpSource :=
  let '(out, p) := stitch_batch (xdp_now ring) descs (xs_pending s) in
  let '(ok, ring) := xdp_release descs ring in
  (if (ok : bool) then Ok (blen out) else Err, out, {| xs_ring := ring; xs_pending := p |}).

Definition xdp_receive (max : Z) (s : AfXdpSource) : Result Z * list CapturedFrame * AfXdpSource :=
  let max := Z.min max MAX_BATCH in
  match xdp_peek max (xs_ring s) with
  | (Err, ring) => xdp_fail ring s
  | (Ok [], ring) =>
      match xdp_poll ring with
      | (Err, ring) => xdp_fail ring s
      | (Ok false, ring) => (Ok 0, [], {| xs_ring := ring; xs_pending := xs_pending s |})
      | (Ok true, ring) =>
          match xdp_peek max ring with
          | (Err, ring) => xdp_fail ring s
          | (Ok [], ring) => (Ok 0, [], {| xs_ring := ring; xs_pending := xs_pending s |})
          | (Ok descs, ring) => take_descs descs ring s
          end
      end
  | (Ok descs, ring) => take_descs descs ring s
  end.

Definition xdp_source_stats (s : AfXdpSource) : Result (option SourceStats) * AfXdpSource :=
  let '(r, ring) := xdp_stats (xs_ring s) in
  (match r with Ok (d, i) => Ok (Some {| ss_dropped := d; ss_invalid_descs := i |}) | Err => Err end,
   {| xs_ring := ring; xs_pending := xs_pending s |}).

(** The default [configure_port_filter]: nothing is filtered. *)
#[export] Instance xdp_source : FrameSource AfXdpSource :=
  {| receive_batch := xdp_receive; source_stats := xdp_source_stats;
     configure_port_filter := fun _ _ s => (Ok Optimized, s) |}.
End Xdp.
Arguments AfXdpSource : clear implicits.

(** ** Raw copies ([PcapWriter] in [raw.rs]) *)

Definition PCAP_GLOBAL_HEADER : bytes :=
  map byte_of [0xd4; 0xc3; 0xb2; 0xa1; 0x02; 0x00; 0x04; 0x00; 0; 0; 0; 0; 0; 0; 0; 0; 0xff; 0xff; 0; 0; 1; 0; 0; 0].

(** The files on disk: the current one and those before it; [pw_bytes] is the
    writer's own count. *)
Record PcapWriter := {
  pw_max_bytes : Z;
  pw_done : list bytes;
  pw_file : bytes;
  pw_bytes : Z;
  pw_calls : nat
}.

Section Raw.
(** The operating system: call number [n] succeeds, or fails after some bytes. *)
Context (io : nat -> option nat).

(** Steps that may fail; a failure ends the method. *)
Definition io_step : Type := PcapWriter -> bool * PcapWriter.

Definition then_io (f g : io_step) : io_step := fun w => let '(ok, w) := f w in if (ok : bool) then g w else (false, w).

Definition set_file (w : PcapWriter) (done : list bytes) (file : bytes) : PcapWriter :=
  {| pw_max_bytes := pw_max_bytes w; pw_done := done; pw_file := file; pw_bytes := pw_bytes w;
     pw_calls := S (pw_calls w) |}.

Definition write_all (data : bytes) : io_step := fun w =>
  match io (pw_calls w) with
  | None => (true, set_file w (pw_done w) (pw_file w ++ data))
  | Some k => (false, set_file w (pw_done w) (pw_file w ++ take k data))
  end.

(** [flush] and [sync_data]. *)
Definition sync_step : io_step := fun w =>
  (match io (pw_calls w) with None => true | Some _ => false end, set_file w (pw_done w) (pw_file w)).

Definition flush_sync : io_step := then_io sync_step sync_step.

(** [open_file] and the header: a file whose header fails stays on disk, and the
    writer keeps the old one. *)
Definition open_next : io_step := fun w =>
  match io (pw_calls w) with
  | Some _ => (false, set_file w (pw_done w) (pw_file w))
  | None =>
      let w := set_file w (pw_done w) (pw_file w) in
      match io (pw_calls w) with
      | Some k => (false, set_file w (pw_done w ++ [take k PCAP_GLOBAL_HEADER]) (pw_file w))
      | None => (true, {| pw_max_bytes := pw_max_bytes w; pw_done := pw_done w ++ [pw_file w];
                          pw_file := PCAP_GLOBAL_HEADER; pw_bytes := blen PCAP_GLOBAL_HEADER;
                          pw_calls := S (pw_calls w) |})
      end
  end.

Definition rotate : io_step := then_io flush_sync open_next.

Definition add_bytes (n : Z) : io_step := fun w =>
  (true, {| pw_max_bytes := pw_max_bytes w; pw_done := pw_done w; pw_file := pw_file w;
            pw_bytes := pw_bytes w + n; pw_calls := pw_calls w |}).

Definition raw_write (frame : CapturedFrame) : io_step := fun w =>
  let incl := Z.min (blen (cf_data frame)) u32_MAX in
  let record_len := 16 + incl in
  let rotated :=
    if (blen PCAP_GLOBAL_HEADER <? pw_bytes w) && (pw_max_bytes w <? sat_add (pw_bytes w) record_len)
    then rotate w else (true, w) in
  let sec := cf_ts_ns frame / 10 ^ 9 in
  let usec := (cf_ts_ns frame mod 10 ^ 9) / 1000 in
  then_io (fun _ => rotated)
    (then_io (write_all (to_le_bytes 4 (Z.min sec u32_MAX)))
      (then_io (write_all (to_le_bytes 4 usec))
        (then_io (write_all (to_le_bytes 4 incl))
          (then_io (write_all (to_le_bytes 4 (Z.min (cf_wire_len frame) u32_MAX)))
            (then_io (write_all (take (Z.to_nat incl) (cf_data frame))) (add_bytes record_len)))))) w.

(** [PcapWriter::new]: nothing is left of a writer whose header fails. *)
Definition PcapWriter_new (max_bytes : Z) (calls : nat) : option PcapWriter :=
  match io calls, io (S calls) with
  | None, None => Some {| pw_max_bytes := Z.max max_bytes (1024 * 1024); pw_done := []; pw_file := PCAP_GLOBAL_HEADER;
                          pw_bytes := blen PCAP_GLOBAL_HEADER; pw_calls := S (S calls) |}
  | _, _ => None
  end.

(** The thread: every frame of the queue, errors logged, and a last sync. *)
Definition raw_writer (max_bytes : Z) (frames : list CapturedFrame) : option PcapWriter :=
  w ← PcapWriter_new max_bytes 0;
  Some (flush_sync (fold_left (fun w f => (raw_write f w).2) frames w)).2.

Definition raw_files (w : PcapWriter) : list bytes := pw_done w ++ [pw_file w].
End Raw.
