(* ===== verification/CaptureSourceTheorems.v ===== *)
(** * What the back ends guarantee

    AF_XDP packets are put together the same however the ring is cut into batches;
    the filters the libpcap sources install never hide a configured port; an
    offline file is delivered whole; the files of raw copies read back. *)

From stdpp Require Import strings list fin_maps.
From S2P Require Import Prelude Model Fragment Decode DecodeSpec DecodeRoundtrip DecodeExamples Services Flow Text.
From S2P Require Import Segment SegmentSpec Topology Capture CaptureSpec CaptureTheorems CaptureSources.

(** ** AF_XDP: packets from descriptors *)

(** The packets of a stream of descriptors, and the open one at its end. *)
Fixpoint packets_of (open : bytes) (descs : list XdpFrame) : list bytes * bytes :=
  match descs with
  | [] => ([], open)
  | d :: descs =>
      if is_empty (desc_bytes d) then packets_of open descs
      else if xf_continued d then packets_of (open ++ desc_bytes d) descs
      else let '(ps, rest) := packets_of [] descs in ((open ++ desc_bytes d) :: ps, rest)
  end.

(** The batches of a source over time, each with its clock. *)
Fixpoint stitch_batches (batches : list (Z * list XdpFrame)) (p : Pending) : list CapturedFrame * Pending :=
  match batches with
  | [] => ([], p)
  | (ts, descs) :: batches =>
      let '(out, p) := stitch_batch ts descs p in
      let '(out2, p) := stitch_batches batches p in (out ++ out2, p)
  end.

Definition desc_total (descs : list XdpFrame) : Z := blen (concat (map desc_bytes descs)).

(** Every range of the copy is the memory of its descriptor. *)
Lemma gather_ranges descs before :
  let '(batch, ranges) := gather before descs in
  (exists after, batch = before ++ after) /\
  Forall2 (fun d r => r.2 = blen (desc_bytes d) /\ range_of batch r = desc_bytes d) descs ranges.
Proof.
  revert before. induction descs as [|d descs IH]; intros before; simpl; [split; [by exists []; rewrite app_nil_r|done]|].
  specialize (IH (before ++ desc_bytes d)). destruct (gather _ descs) as [batch ranges].
  destruct IH as [[after ->] Hr]. split; [exists (desc_bytes d ++ after); by rewrite app_assoc|].
  constructor; [|done]. destruct (desc_bytes d) as [|x l] eqn:E; simpl; [done|].
  split; [done|]. unfold range_of, blen. cbn [fst snd]. rewrite <-!app_assoc, !Nat2Z.id, drop_app_length.
  by rewrite take_app_length.
Qed.

Definition pending_ok (p : Pending) : Prop := pm_wire_len p = blen (pm_bytes p).

Lemma stitch_spec ts batch descs ranges p :
  Forall2 (fun d r => r.2 = blen (desc_bytes d) /\ range_of batch r = desc_bytes d) descs ranges ->
  pending_ok p -> blen (pm_bytes p) + desc_total descs <= u64_MAX ->
  let '(out, p') := stitch ts batch (zip ranges descs) p in
  packets_of (pm_bytes p) descs = (map cf_data out, pm_bytes p') /\ pending_ok p' /\
  blen (pm_bytes p') <= blen (pm_bytes p) + desc_total descs /\
  Forall (fun f => cf_wire_len f = blen (cf_data f) /\ cf_ts_ns f = ts) out.
Proof.
  intros HF. revert p. induction HF as [|d r descs ranges [Hlen Hr] HF IH]; intros p Hp Hmax; cbn [zip zip_with stitch].
  { split_and!; [done|done|unfold desc_total; simpl; rewrite blen_nil; lia|constructor]. }
  unfold desc_total in *. simpl in Hmax |- *. rewrite blen_app in Hmax |- *. unfold stitch_one. rewrite Hlen, Hr.
  pose proof (blen_nonneg (concat (map desc_bytes descs))) as Hc. pose proof (blen_nonneg (pm_bytes p)) as Hpb.
  destruct (is_empty (desc_bytes d)) eqn:Ee.
  { apply is_empty_spec in Ee. rewrite Ee, blen_nil in *. simpl. specialize (IH p Hp ltac:(lia)).
    destruct (stitch ts batch (zip ranges descs) p) as [fs p']. exact IH. }
  rewrite (proj2 (Z.eqb_neq (blen (desc_bytes d)) 0)).
  2:{ intros E%blen_zero. by rewrite E in Ee. }
  destruct (is_empty (pm_bytes p) && negb (xf_continued d)) eqn:Eb.
  - apply andb_true_iff in Eb as [Ep%is_empty_spec Ec%negb_true_iff]. rewrite Ec, Ep in *.
    specialize (IH p Hp). rewrite Ep in IH. pose proof (blen_nonneg (desc_bytes d)).
    pose proof (@blen_nil byte). specialize (IH ltac:(lia)).
    destruct (stitch ts batch (zip ranges descs) p) as [fs p']. destruct IH as (H1 & H2 & H3 & H4).
    rewrite H1. simpl. split_and!; [done|done|lia|by constructor].
  - rewrite (sat_add_small (pm_wire_len p)) by (rewrite Hp; lia).
    destruct (xf_continued d).
    + match goal with |- context [stitch _ _ _ ?q] => specialize (IH q) end.
      simpl in IH. rewrite blen_app in IH.
      specialize (IH ltac:(unfold pending_ok in *; simpl; rewrite blen_app; lia) ltac:(lia)).
      destruct (stitch ts batch (zip ranges descs) _) as [fs p']. destruct IH as (H1 & H2 & H3 & H4).
      simpl. rewrite H1. split_and!; [done|done|lia|done].
    + specialize (IH no_pending eq_refl). simpl in IH. pose proof (@blen_nil byte).
      pose proof (blen_nonneg (desc_bytes d)). specialize (IH ltac:(lia)).
      destruct (stitch ts batch (zip ranges descs) no_pending) as [fs p']. destruct IH as (H1 & H2 & H3 & H4).
      simpl. rewrite H1. split_and!; [done|done|lia|]. constructor; [|done]. simpl. rewrite blen_app. split; [|done].
      unfold pending_ok in Hp. lia.
Qed.

Lemma packets_of_app open l1 l2 :
  packets_of open (l1 ++ l2) =
  let '(ps1, open) := packets_of open l1 in let '(ps2, open) := packets_of open l2 in (ps1 ++ ps2, open).
Proof.
  revert open. induction l1 as [|d l1 IH]; intros open; simpl; [by destruct (packets_of open l2)|].
  destruct (is_empty (desc_bytes d)); [apply IH|]. destruct (xf_continued d); [apply IH|].
  rewrite IH. destruct (packets_of [] l1) as [ps1 o1]. by destruct (packets_of o1 l2).
Qed.

(** C39. AF_XDP packets do not depend on how the ring is cut into batches: over any
    batches, the frames delivered are the packets of the whole stream of
    descriptors in order, each the concatenation of its buffers with its length;
    what is pending at the end is the packet still open. *)
Theorem xdp_reassembles batches :
  desc_total (concat (map snd batches)) <= u64_MAX ->
  let '(out, p) := stitch_batches batches no_pending in
  packets_of [] (concat (map snd batches)) = (map cf_data out, pm_bytes p) /\
  Forall (fun f => cf_wire_len f = blen (cf_data f)) out.
Proof.
  assert (forall p, pending_ok p -> blen (pm_bytes p) + desc_total (concat (map snd batches)) <= u64_MAX ->
    let '(out, p') := stitch_batches batches p in
    packets_of (pm_bytes p) (concat (map snd batches)) = (map cf_data out, pm_bytes p') /\
    Forall (fun f => cf_wire_len f = blen (cf_data f)) out) as Hgen.
  { induction batches as [|[ts descs] batches IH]; intros p Hp Hmax; simpl; [done|].
    unfold desc_total in Hmax. simpl in Hmax. rewrite map_app, concat_app, blen_app in Hmax.
    pose proof (blen_nonneg (concat (map desc_bytes (concat (map snd batches))))).
    unfold stitch_batch. pose proof (gather_ranges descs []) as Hg. destruct (gather [] descs) as [batch ranges].
    destruct Hg as [_ Hg].
    pose proof (stitch_spec ts batch descs ranges p Hg Hp ltac:(unfold desc_total; lia)) as Hs.
    destruct (stitch ts batch (zip ranges descs) p) as [out p1]. destruct Hs as (H1 & H2 & H3 & H4).
    specialize (IH p1 H2 ltac:(unfold desc_total in *; lia)).
    destruct (stitch_batches batches p1) as [out2 p2]. destruct IH as [H5 H6].
    rewrite packets_of_app, H1, H5, map_app. split; [done|]. apply Forall_app. split; [|done].
    eapply Forall_impl; [exact H4|]. by intros f [? _]. }
  intros Hmax. apply (Hgen no_pending); [done|]. simpl. rewrite blen_nil. lia.
Qed.

(** ** libpcap: filters and offline files *)

(** What the sources rely on: the program last installed stays in force; a failed
    installation changes nothing; reading changes no filter. *)
Class PcapFilterLaws (Cap : Type) `{PcapCapture Cap} := {
  in_force : Cap -> list Z;
  filter_installs e c : in_force (cap_filter e c).2 = if (cap_filter e c).1 then e else in_force c;
  dispatch_keeps n c : in_force (cap_dispatch n c).2 = in_force c;
  next_keeps c : in_force (cap_next_packet c).2 = in_force c;
  cap_stats_keeps c : in_force (cap_stats c).2 = in_force c
}.

Section PcapFilters.
Context {Cap : Type} {HC : PcapCapture Cap} {HL : PcapFilterLaws Cap}.

(** The filter in force was built with the port, or is the open one. *)
Definition live_passes (s : PcapLiveSource Cap) (port : Z) : Prop :=
  in_force (lv_cap s) = live_fail_open_expression \/
  exists ports extra, port ∈ ports /\ in_force (lv_cap s) = live_port_filter_expression ports extra (lv_local_mac s).

Lemma live_configure_passes ports extra s mode port :
  (live_configure ports extra s).1 = Ok mode -> port ∈ ports -> live_passes (live_configure ports extra s).2 port.
Proof.
  unfold live_configure, live_passes. pose proof (filter_installs (live_port_filter_expression ports extra (lv_local_mac s)) (lv_cap s)) as H1.
  destruct (cap_filter _ (lv_cap s)) as [[] c]; simpl in H1.
  - simpl. intros _ Hp. right. by exists ports, extra.
  - pose proof (filter_installs live_fail_open_expression c) as H2.
    destruct (cap_filter _ c) as [[] c2]; simpl in *; [by left|done].
Qed.

Lemma live_receive_passes max s port : live_passes s port -> live_passes (live_receive max s).2 port.
Proof.
  unfold live_receive, live_passes. pose proof (dispatch_keeps max (lv_cap s)) as Hk.
  destruct (cap_dispatch max (lv_cap s)) as [[packets r] c]. simpl in *. by rewrite Hk.
Qed.

Lemma live_stats_passes s port : live_passes s port -> live_passes (live_stats s).2 port.
Proof.
  unfold live_stats, live_passes. pose proof (cap_stats_keeps (lv_cap s)) as Hk.
  destruct (cap_stats (lv_cap s)) as [r c]. simpl in *. by rewrite Hk.
Qed.

#[export] Instance live_filtered : FilteredSource (PcapLiveSource Cap) :=
  {| passes := live_passes; configure_passes := live_configure_passes;
     receive_passes := live_receive_passes; stats_passes := live_stats_passes |}.

Definition file_passes (s : PcapFileSource Cap) (port : Z) : Prop :=
  exists ports extra, port ∈ ports /\ in_force (fl_cap s) = port_filter_expression ports extra.

Lemma file_configure_passes ports extra s mode port :
  (file_configure ports extra s).1 = Ok mode -> port ∈ ports -> file_passes (file_configure ports extra s).2 port.
Proof.
  unfold file_configure, file_passes. pose proof (filter_installs (port_filter_expression ports extra) (fl_cap s)) as Hk.
  destruct (cap_filter _ (fl_cap s)) as [[] c]; simpl in *; [|done]. intros _ Hp. by exists ports, extra.
Qed.

Lemma file_read_keeps n c : in_force (file_read n c).2 = in_force c.
Proof.
  revert c. induction n as [|n IH]; intros c; simpl; [done|]. pose proof (next_keeps c) as Hk.
  destruct (cap_next_packet c) as [[p| |] c']; simpl in *; [|done|done].
  specialize (IH c'). destruct (file_read n c') as [[[ok out] ex] c2]. simpl in *. congruence.
Qed.

Lemma file_receive_passes max s port : file_passes s port -> file_passes (file_receive max s).2 port.
Proof.
  unfold file_receive, file_passes. destruct (fl_exhausted s); [done|].
  pose proof (file_read_keeps (Z.to_nat max) (fl_cap s)) as Hk.
  destruct (file_read _ _) as [[[ok out] ex] c]. simpl in *. by rewrite Hk.
Qed.

#[export] Instance file_filtered : FilteredSource (PcapFileSource Cap) :=
  {| passes := file_passes; configure_passes := file_configure_passes;
     receive_passes := file_receive_passes; stats_passes := fun s port H => H |}.
End PcapFilters.

(** AF_XDP filters nothing. *)
#[export] Instance xdp_filtered {Ring} `{XdpRing Ring} : FilteredSource (AfXdpSource Ring) :=
  {| passes := fun _ _ => True; configure_passes := fun _ _ _ _ _ _ _ => I;
     receive_passes := fun _ _ _ _ => I; stats_passes := fun _ _ _ => I |}.

(** ** Raw copies *)

Definition word (b : bytes) : Z := from_le_bytes b.

(** One record of a PCAP file. *)
Record RawRecord := { rr_sec : Z; rr_usec : Z; rr_len : Z; rr_data : bytes }.

Definition read_pcap_record (b : bytes) : option (RawRecord * bytes) :=
  if blen b <? 16 then None
  else
    let incl := word (take 4 (drop 8 b)) in
    let rest := drop 16 b in
    if blen rest <? incl then None
    else Some ({| rr_sec := word (take 4 b); rr_usec := word (take 4 (drop 4 b)); rr_len := word (take 4 (drop 12 b));
                  rr_data := take (Z.to_nat incl) rest |}, drop (Z.to_nat incl) rest).

Fixpoint read_pcap_records (fuel : nat) (b : bytes) : option (list RawRecord) :=
  match b, fuel with
  | [], _ => Some []
  | _, O => None
  | _, S fuel => '(r, rest) ← read_pcap_record b; rs ← read_pcap_records fuel rest; Some (r :: rs)
  end.

(** A file in the format libpcap reads: the header, then records to the end. *)
Definition read_pcap (b : bytes) : option (list RawRecord) :=
  if bool_decide (take 24 b = PCAP_GLOBAL_HEADER) then read_pcap_records (length b) (drop 24 b) else None.

(** What the format keeps of a frame: microseconds and 32-bit lengths. *)
Definition raw_view (f : CapturedFrame) : RawRecord :=
  {| rr_sec := Z.min (cf_ts_ns f / 10 ^ 9) u32_MAX; rr_usec := (cf_ts_ns f mod 10 ^ 9) / 1000;
     rr_len := Z.min (cf_wire_len f) u32_MAX;
     rr_data := take (Z.to_nat (Z.min (blen (cf_data f)) u32_MAX)) (cf_data f) |}.

Definition encode_record (f : CapturedFrame) : bytes :=
  let r := raw_view f in
  to_le_bytes 4 (rr_sec r) ++ to_le_bytes 4 (rr_usec r) ++ to_le_bytes 4 (blen (rr_data r)) ++
    to_le_bytes 4 (rr_len r) ++ rr_data r.

#[local] Arguments encode_record : simpl never.

Definition frame_sound (f : CapturedFrame) : Prop := 0 <= cf_ts_ns f /\ 0 <= cf_wire_len f.

Lemma raw_view_bounds f : frame_sound f ->
  0 <= rr_sec (raw_view f) < 2 ^ 32 /\ 0 <= rr_usec (raw_view f) < 2 ^ 32 /\
  0 <= rr_len (raw_view f) < 2 ^ 32 /\ 0 <= blen (rr_data (raw_view f)) < 2 ^ 32 /\
  blen (rr_data (raw_view f)) = Z.min (blen (cf_data f)) u32_MAX.
Proof.
  intros [Ht Hw]. unfold raw_view, u32_MAX. simpl.
  assert (0 <= cf_ts_ns f / 10 ^ 9) by (apply Z.div_pos; lia).
  pose proof (Z.mod_pos_bound (cf_ts_ns f) (10 ^ 9) ltac:(lia)).
  assert (0 <= cf_ts_ns f mod 10 ^ 9 / 1000 < 10 ^ 6).
  { split; [apply Z.div_pos; lia|]. apply Z.div_lt_upper_bound; lia. }
  pose proof (blen_nonneg (cf_data f)).
  assert (blen (take (Z.to_nat (Z.min (blen (cf_data f)) (2 ^ 32 - 1))) (cf_data f)) =
    Z.min (blen (cf_data f)) (2 ^ 32 - 1)) as ->.
  { unfold blen in *. rewrite length_take. lia. }
  lia.
Qed.

Lemma read_encoded f rest : frame_sound f -> read_pcap_record (encode_record f ++ rest) = Some (raw_view f, rest).
Proof.
  intros Hf. destruct (raw_view_bounds f Hf) as (B1 & B2 & B3 & B4 & _).
  assert (forall x b, take 4 (to_le_bytes 4 x ++ b) = to_le_bytes 4 x) as Ht by (intros; by apply take_app_length').
  assert (forall x b n, drop (4 + n) (to_le_bytes 4 x ++ b) = drop n b) as Hd by done.
  unfold encode_record, read_pcap_record, word. cbv zeta. rewrite <-!app_assoc.
  set (r := raw_view f) in *. rewrite Ht.
  change 16%nat with (4 + (4 + (4 + 4)))%nat. change (take 4 (drop 4 ?b)) with (take 4 (drop (4 + 0) b)).
  rewrite !Hd. change (drop 8 ?b) with (drop (4 + (4 + 0)) b). change (drop 12 ?b) with (drop (4 + (4 + (4 + 0))) b).
  rewrite !Hd, !drop_0, !Ht.
  assert (forall x b, drop 4 (to_le_bytes 4 x ++ b) = b) as Hd0 by done.
  rewrite Hd0, !blen_app, !to_le_length, !le_roundtrip by done. pose proof (blen_nonneg rest).
  rewrite (proj2 (Z.ltb_ge _ _)) by lia. rewrite (proj2 (Z.ltb_ge _ _)) by lia.
  unfold blen. rewrite Nat2Z.id, take_app_length, drop_app_length. by destruct (raw_view f).
Qed.

Lemma encode_record_length f : frame_sound f -> blen (encode_record f) = 16 + Z.min (blen (cf_data f)) u32_MAX.
Proof.
  intros Hf. destruct (raw_view_bounds f Hf) as (_ & _ & _ & _ & Hl).
  unfold encode_record. cbv zeta. rewrite !blen_app, !to_le_length, Hl. lia.
Qed.

Lemma read_more fuel b : b <> [] ->
  read_pcap_records (S fuel) b = ('(r, rest) ← read_pcap_record b; rs ← read_pcap_records fuel rest; Some (r :: rs)).
Proof. by destruct b. Qed.

Lemma read_all_records fs : Forall frame_sound fs -> forall fuel, (length (concat (map encode_record fs)) <= fuel)%nat ->
  read_pcap_records fuel (concat (map encode_record fs)) = Some (map raw_view fs).
Proof.
  induction 1 as [|f fs Hf _ IH]; intros fuel Hfuel; [by destruct fuel|].
  pose proof (encode_record_length f Hf) as Hl. cbn [map concat] in *. rewrite length_app in Hfuel.
  pose proof (blen_nonneg (cf_data f)). unfold u32_MAX in Hl. unfold blen in Hl, H.
  destruct fuel as [|fuel]; [lia|]. rewrite read_more by
    (intros E; apply (f_equal length) in E; rewrite length_app in E; cbn [length] in E; lia).
  rewrite read_encoded by done. cbn [mbind option_bind]. by rewrite IH by lia.
Qed.

(** The file of some frames. *)
Definition pcap_file (fs : list CapturedFrame) : bytes := PCAP_GLOBAL_HEADER ++ concat (map encode_record fs).

Lemma read_pcap_file fs : Forall frame_sound fs -> read_pcap (pcap_file fs) = Some (map raw_view fs).
Proof.
  intros Hf. unfold read_pcap, pcap_file. rewrite bool_decide_true by done.
  change (drop 24 (PCAP_GLOBAL_HEADER ++ ?b)) with b. apply read_all_records; [done|]. rewrite length_app. lia.
Qed.

(** A writer whose calls all succeeded has written [files] and then [cur]. *)
Record wrote (max : Z) (files : list (list CapturedFrame)) (cur : list CapturedFrame) (w : PcapWriter) : Prop := {
  wr_max : pw_max_bytes w = max;
  wr_done : pw_done w = map pcap_file files;
  wr_file : pw_file w = pcap_file cur;
  wr_bytes : pw_bytes w = blen (pw_file w);
  wr_small : Forall (fun fs => blen (pcap_file fs) <= max \/ (length fs <= 1)%nat) (files ++ [cur])
}.

Section NoFailure.
Context (io : nat -> option nat).
Hypothesis io_succeeds : forall n, io n = None.

Lemma raw_rotate_ok w : exists w', rotate io w = (true, w') /\ pw_max_bytes w' = pw_max_bytes w /\
  pw_done w' = pw_done w ++ [pw_file w] /\ pw_file w' = PCAP_GLOBAL_HEADER /\ pw_bytes w' = 24.
Proof. unfold rotate, flush_sync, then_io, sync_step, open_next. rewrite !io_succeeds. by eexists. Qed.

Lemma frame_written f w : exists w',
  then_io (write_all io (to_le_bytes 4 (rr_sec (raw_view f))))
    (then_io (write_all io (to_le_bytes 4 (rr_usec (raw_view f))))
      (then_io (write_all io (to_le_bytes 4 (Z.min (blen (cf_data f)) u32_MAX)))
        (then_io (write_all io (to_le_bytes 4 (rr_len (raw_view f))))
          (then_io (write_all io (rr_data (raw_view f))) (add_bytes (16 + Z.min (blen (cf_data f)) u32_MAX)))))) w
    = (true, w') /\
  pw_max_bytes w' = pw_max_bytes w /\ pw_done w' = pw_done w /\
  (frame_sound f -> pw_file w' = pw_file w ++ encode_record f) /\
  pw_bytes w' = pw_bytes w + (16 + Z.min (blen (cf_data f)) u32_MAX).
Proof.
  unfold then_io, write_all, add_bytes. rewrite !io_succeeds. cbn [fst snd set_file pw_calls pw_file pw_done].
  eexists. split; [reflexivity|]. cbn [pw_max_bytes pw_done pw_file pw_bytes]. split_and!; [done|done| |done].
  intros Hf. destruct (raw_view_bounds f Hf) as (_ & _ & _ & _ & Hl). unfold encode_record. cbv zeta.
  by rewrite Hl, <-!app_assoc.
Qed.

Lemma pcap_file_snoc fs f : pcap_file (fs ++ [f]) = pcap_file fs ++ encode_record f.
Proof. unfold pcap_file. by rewrite map_app, concat_app, app_assoc; simpl; rewrite app_nil_r. Qed.

Lemma raw_write_spec max files cur w f :
  wrote max files cur w -> frame_sound f -> Forall frame_sound cur -> max < u64_MAX ->
  exists files' cur', wrote max files' cur' (raw_write io f w).2 /\ Forall frame_sound cur' /\
    concat (files' ++ [cur']) = concat (files ++ [cur]) ++ [f].
Proof.
  intros [Hm Hd Hf Hb Hs] Hsound Hcur Hmax. unfold raw_write. cbv zeta.
  change (cf_ts_ns f mod 10 ^ 9 / 1000) with (rr_usec (raw_view f)).
  change (Z.min (cf_ts_ns f / 10 ^ 9) u32_MAX) with (rr_sec (raw_view f)).
  change (Z.min (cf_wire_len f) u32_MAX) with (rr_len (raw_view f)).
  change (take (Z.to_nat (Z.min (blen (cf_data f)) u32_MAX)) (cf_data f)) with (rr_data (raw_view f)).
  pose proof (encode_record_length f Hsound) as Hl.
  destruct ((blen PCAP_GLOBAL_HEADER <? pw_bytes w) && _) eqn:Er.
  - destruct (raw_rotate_ok w) as (w1 & -> & Hm1 & Hd1 & Hf1 & Hb1).
    destruct (frame_written f w1) as (w2 & E & Hm2 & Hd2 & Hf2 & Hb2). unfold then_io at 1. rewrite E. simpl.
    exists (files ++ [cur]), [f]. split; [split|split; [by constructor|by rewrite concat_app]].
    + congruence.
    + by rewrite Hd2, Hd1, Hd, map_app, Hf.
    + rewrite Hf2, Hf1 by done. unfold pcap_file. simpl. by rewrite app_nil_r.
    + rewrite Hb2, Hf2, Hb1, Hf1, blen_app, Hl by done. change (blen PCAP_GLOBAL_HEADER) with 24. lia.
    + apply Forall_app. split; [done|]. constructor; [right; simpl; lia|constructor].
  - destruct (frame_written f w) as (w2 & E & Hm2 & Hd2 & Hf2 & Hb2). unfold then_io at 1. rewrite E. simpl.
    exists files, (cur ++ [f]). split; [split|].
    + congruence.
    + congruence.
    + by rewrite Hf2, Hf, pcap_file_snoc.
    + rewrite Hb2, Hf2, Hb, blen_app, Hl by done. lia.
    + apply Forall_app in Hs as [Hs1 Hs2]. apply Forall_app. split; [done|]. constructor; [|constructor].
      apply andb_false_iff in Er as [Er|Er].
      * right. destruct cur as [|g cur]; [simpl; lia|]. exfalso. apply Z.ltb_ge in Er.
        rewrite Hb, Hf in Er. unfold pcap_file in Er. cbn [map concat] in Er. rewrite !blen_app in Er.
        apply Forall_cons in Hcur as [Hg _]. rewrite (encode_record_length g Hg) in Er.
        pose proof (blen_nonneg (cf_data g)). pose proof (blen_nonneg (concat (map encode_record cur))).
        unfold u32_MAX in Er. lia.
      * left. apply Z.ltb_ge in Er. rewrite pcap_file_snoc, blen_app, Hl, <-Hf, <-Hb. unfold sat_add in Er. lia.
    + split; [apply Forall_app; split; [done|by constructor]|]. rewrite !concat_app. simpl.
      by rewrite !app_nil_r, app_assoc.
Qed.

Lemma raw_writes_spec max frames files cur w :
  wrote max files cur w -> Forall frame_sound cur -> Forall frame_sound frames -> max < u64_MAX ->
  exists files' cur', wrote max files' cur' (fold_left (fun w f => (raw_write io f w).2) frames w) /\
    concat (files' ++ [cur']) = concat (files ++ [cur]) ++ frames.
Proof.
  intros Hw Hcur Hf Hmax. revert files cur w Hw Hcur. induction Hf as [|f frames Hf _ IH]; intros files cur w Hw Hcur; simpl.
  { exists files, cur. by rewrite app_nil_r. }
  destruct (raw_write_spec max files cur w f Hw Hf Hcur Hmax) as (files1 & cur1 & Hw1 & Hc1 & E1).
  destruct (IH files1 cur1 _ Hw1 Hc1) as (files2 & cur2 & Hw2 & E2). exists files2, cur2. split; [done|].
  by rewrite E2, E1, <-app_assoc.
Qed.

(** Raw copies read back.  When the disk takes every write, the raw writer
    leaves PCAP files that each parse to their end, and the records of the files in
    order are exactly the frames it got, to the microsecond and with 32-bit
    lengths; no file is larger than the limit (at least 1 MiB) unless it holds a
    single frame. *)
Theorem raw_copies_read_back max_bytes frames :
  Forall frame_sound frames -> max_bytes < u64_MAX ->
  exists w parts, raw_writer io max_bytes frames = Some w /\
    mapM read_pcap (raw_files w) = Some (map (map raw_view) parts) /\ concat parts = frames /\
    Forall2 (fun file part => blen file <= Z.max max_bytes (1024 * 1024) \/ (length part <= 1)%nat) (raw_files w) parts.
Proof.
  intros Hf Hmax. unfold raw_writer, PcapWriter_new. rewrite !io_succeeds. simpl.
  set (max := Z.max max_bytes (1024 * 1024)). set (w0 := Build_PcapWriter _ _ _ _ _).
  destruct (raw_writes_spec max frames [] [] w0) as (files & cur & Hw & E).
  - split; try done. constructor; [right; simpl; lia|constructor].
  - constructor.
  - done.
  - unfold max, u64_MAX in *. lia.
  - eexists _, (files ++ [cur]). split; [reflexivity|]. simpl in E.
    unfold flush_sync, then_io, sync_step. rewrite !io_succeeds. unfold raw_files. simpl.
    rewrite (wr_done _ _ _ _ Hw), (wr_file _ _ _ _ Hw).
    replace (map pcap_file files ++ [pcap_file cur]) with (map pcap_file (files ++ [cur])) by apply map_app.
    split_and!; [|done|].
    + assert (Forall frame_sound (concat (files ++ [cur]))) as Hall by (by rewrite E).
      apply mapM_Some. rewrite Forall2_fmap_l, Forall2_fmap_r. apply Forall_Forall2_diag, Forall_forall.
      intros fs Hfs. apply read_pcap_file, Forall_forall. intros f Hin. eapply Forall_forall; [exact Hall|].
      apply list_elem_of_In, in_concat. exists fs. by rewrite <-!list_elem_of_In.
    + rewrite Forall2_fmap_l. apply Forall_Forall2_diag, (wr_small _ _ _ _ Hw).
Qed.
End NoFailure.

(** * The capture workers on concrete frames

    Witnesses of the theorems on capture: a service on port 8080, a frame to it and
    frames past it; a libpcap capture whose filter is a text; a ring cut in two
    batches; a raw copy. *)

#[local] Instance map_order : HashOrder :=
  {| walk := fun _ _ _ _ m => map_to_list m; walk_permutation := fun _ _ _ _ m => Permutation_refl _ |}.

Definition ex_service : ServiceConfig :=
  {| sc_port := 8080; sc_name := []; sc_http := true; sc_urldecode_http_requests := false;
     sc_merge_adjacent_packets := false; sc_parse_websockets := false |}.

Definition ex_registry : ServiceRegistry := ServiceRegistry_new [ex_service].

Definition tcp_frame (sport dport : Z) : CapturedFrame :=
  {| cf_ts_ns := 7; cf_wire_len := 70;
     cf_data := encode_ethernet (repeat x00 12) [] ETHERTYPE_IPV4
       (encode_ipv4 ex_ip (encode_tcp {| t_sport := sport; t_dport := dport; t_seq := 1; t_ack := 0; t_bits := 0x02;
          t_window := 512; t_checksum := 0; t_urgent := 0; t_options := [] |} [])) |}.

Definition ex_packet (sport dport : Z) : ParsedPacket :=
  match @decode _ ex_store (fun _ => 0) (tcp_frame sport dport) ex_decoder with
  | Some (_, inl (DPacket p)) => p
  | _ => {| p_ts_ns := 0; p_key := {| fk_a := {| ep_ip := V4 []; ep_port := 0 |}; fk_b := {| ep_ip := V4 []; ep_port := 0 |};
             fk_protocol := Tcp; fk_l2_domain := 0 |}; p_direction := AToB; p_seq := None; p_ack := None;
             p_flags := TcpFlags_default; p_payload := []; p_wire_len := 0 |}
  end.


Definition ex_config : CaptureConfig :=
  {| cc_mode := PcapLive; cc_effective := PcapLive; cc_tunnels := true; cc_early_port_filter := true;
     cc_bpf_filter := None; cc_batch := 64 |}.

Definition ex_moment : Moment :=
  {| mo_early := ex_registry; mo_late := ex_registry;
     mo_clocks := {| ck_now := 5; ck_merge := 5; ck_second := 5; ck_flushed := 5 |};
     mo_raw := fun q => q; mo_shards := fun g => g |}.

Definition ex_capture : @CaptureState (list FragmentCache) :=
  {| cs_decoder := ex_decoder; cs_observer := local_observer None 0;
     cs_tracker := TopologyTracker_new 24 (60 * 10 ^ 9) 1000; cs_ingress := spawn_ingress 64 2 3;
     cs_raw := Some {| rq_frames := []; rq_open := true |}; cs_metrics := fun _ => 0 |}.

Definition ex_batch : list (Moment * CapturedFrame) :=
  map (fun f => (ex_moment, f)) [tcp_frame 40000 8080; tcp_frame 40000 9999; ex_frame; tcp_frame 8080 40000].

(** What the batch comes to: queued, rejected, malformed, rejected. *)
Example ex_batch_counts :
  match @capture_batch _ ex_store map_order (fun _ => 0) ex_config ex_batch ex_capture with
  | Some (false, s) =>
      map (cs_metrics s) [capture_frames; packets_filtered; packets_ignored; capture_drops] = [4; 2; 1; 0] /\
      list_sum (map (fun q => length (sq_packets q)) (fi_shards (cs_ingress s))) = 1%nat /\
      option_map (fun q => length (rq_frames q)) (cs_raw s) = Some 4%nat
  | _ => False
  end.
Proof. vm_compute. repeat split. Qed.

Lemma shards_idle g : shards_run g g.
Proof. split_and!; [|done..]. apply Forall_Forall2_diag, Forall_true. intros q. split; [by exists []|done]. Qed.

Lemma ex_capture_ok : @state_ok _ ex_store ex_laws ex_capture.
Proof.
  split; [by apply new_shards_ok|split; [done|]|].
  - repeat constructor; vm_compute; discriminate.
  - intros k. unfold is_u64. simpl. lia.
Qed.


(** ** The filter *)

(** A capture whose only state is the program in force; it takes every program. *)
Definition ToyCap : Type := list Z.

#[local] Instance toy_capture : PcapCapture ToyCap :=
  {| cap_dispatch := fun _ c => ([], Ok 0, c); cap_next_packet := fun c => (NoMorePackets, c);
     cap_filter := fun e _ => (true, e); cap_stats := fun c => (Ok (0, 0), c) |}.

#[local] Instance toy_laws : PcapFilterLaws ToyCap :=
  {| in_force := fun c => c; filter_installs := fun e c => eq_refl; dispatch_keeps := fun n c => eq_refl;
     next_keeps := fun c => eq_refl; cap_stats_keeps := fun c => eq_refl |}.

Definition ex_live : PcapLiveSource ToyCap := {| lv_cap := []; lv_local_mac := Some [x02; x00; x00; x00; x00; x01] |}.

Definition ex_versions : list ServiceRegistry :=
  [ex_registry; upsert ex_registry {| sc_port := 9090; sc_name := []; sc_http := false; sc_urldecode_http_requests := false;
     sc_merge_adjacent_packets := false; sc_parse_websockets := false |}].

Definition ex_turn (r : ServiceRegistry) : Turn :=
  {| tu_shutdown := false; tu_services := r; tu_ports := r; tu_offline_services := r; tu_poll_now := 5;
     tu_polled := 5; tu_moments := fun _ => ex_moment; tu_flush := mo_clocks ex_moment |}.

Definition ex_started : @WorkerState (list FragmentCache) (PcapLiveSource ToyCap) := start_worker ex_live 0 ex_capture.

(** After the first turn the filter is the one of port 8080. *)
Definition ex_after : @WorkerState (list FragmentCache) (PcapLiveSource ToyCap) :=
  match @capture_loop _ ex_store map_order (fun _ => 0) _ _ ex_config [ex_turn ex_registry] ex_started with
  | Some (Continue w) => w
  | _ => ex_started
  end.

Example ex_filter_text :
  in_force (lv_cap (w_source ex_after)) =
  text "((dst port 8080) or ((ether src 02:00:00:00:00:01) and (src port 8080))) or (ip and (ip[6:2] & 0x3fff != 0)) or (udp dst port 4789 or udp dst port 8472) or (ip proto 47) or (ip proto 4) or (ip proto 41) or (ether proto 0x8100) or (ether proto 0x88a8) or (ether proto 0x9100) or (ether proto 0x9200) or ip6".
Proof. vm_compute. reflexivity. Qed.

Definition ex_second : Turn := ex_turn (upsert ex_registry {| sc_port := 9090; sc_name := []; sc_http := false;
  sc_urldecode_http_requests := false; sc_merge_adjacent_packets := false; sc_parse_websockets := false |}).


(** ** Sources, rings, raw copies *)

(** The second queue fails; the fallback is allowed. *)
Definition ex_spawn : SpawnConfig :=
  {| sp_mode := AfXdp; sp_throttle_enabled := false; sp_fallback_pcap := true; sp_queue_id := 0;
     sp_queue_ids := [0; 1]; sp_capture_cpus := [] |}.

Definition ex_open (b : Backend) : Result Backend := if decide (b = XdpQueue 1) then Err else Ok b.

Definition ex_events : list SourceEvent :=
  [Opened (XdpQueue 0); OpenFailed (XdpQueue 1); Dropped (XdpQueue 0); Opened LiveCapture].

Definition ex_prepared : Prepared Backend :=
  {| pr_sources := [(0, LiveCapture)]; pr_effective := PcapLive; pr_adjusted := true |}.

Lemma backends_never_mix_witness :
  (forall pre, pre `prefix_of` ex_events -> balance xdp_event pre = 0 \/ balance live_event pre = 0) /\
  (sp_throttle_enabled ex_spawn = true -> forall pre, pre `prefix_of` ex_events -> balance xdp_event pre = 0) /\
  forall p, Ok ex_prepared = Ok p -> source_choice ex_open ex_spawn ex_events p.
Proof. apply (backends_never_mix ex_open ex_spawn). vm_compute. reflexivity. Defined.

Definition ex_descs (n : Z) : list (Z * list XdpFrame) :=
  [(1, [{| xf_data := Some [x41]; xf_continued := false |}; {| xf_data := Some [x42]; xf_continued := true |}]);
   (2, [{| xf_data := None; xf_continued := false |}; {| xf_data := Some [x43]; xf_continued := true |};
        {| xf_data := Some [x44]; xf_continued := false |}])].

Lemma xdp_reassembles_witness :
  map cf_data (stitch_batches (ex_descs 0) no_pending).1 = [[x41]; [x42; x43; x44]] /\
  let '(out, p) := stitch_batches (ex_descs 0) no_pending in
  packets_of [] (concat (map snd (ex_descs 0))) = (map cf_data out, pm_bytes p) /\
  Forall (fun f => cf_wire_len f = blen (cf_data f)) out.
Proof. split; [reflexivity|]. apply (xdp_reassembles (ex_descs 0)). vm_compute. discriminate. Defined.

Lemma raw_copies_read_back_witness :
  exists w parts, raw_writer (fun _ => None) 0 [ex_frame; tcp_frame 1 2] = Some w /\
    mapM read_pcap (raw_files w) = Some (map (map raw_view) parts) /\ concat parts = [ex_frame; tcp_frame 1 2] /\
    Forall2 (fun file part => blen file <= Z.max 0 (1024 * 1024) \/ (length part <= 1)%nat) (raw_files w) parts.
Proof.
  apply (raw_copies_read_back (fun _ => None) (fun _ => eq_refl) 0 [ex_frame; tcp_frame 1 2]).
  - repeat constructor; simpl; lia.
  - done.
Defined.

(** A write that fails inside a record: the next record follows the torn one, and
    the file no longer parses. *)
Example torn_record_spoils_the_file :
  match raw_writer (fun n => if (n =? 4)%nat then Some 2%nat else None) 0 [ex_frame; tcp_frame 1 2] with
  | Some w => map read_pcap (raw_files w) = [None]
  | None => False
  end.
Proof. vm_compute. reflexivity. Qed.
