(* ===== verification/Auth.v ===== *)
(** * Access control ([src/src/auth.rs] and the middleware of [src/src/api/mod.rs])

    Logins, sessions, basic authentication and the gate in front of the API.  A
    header is what [HeaderMap::get] and [to_str] make of it; the base64 decoder and
    the random tokens are parameters; every reading of the clock is an argument. *)

From stdpp Require Import strings gmap list.
From S2P Require Import Prelude Model Text Services Ipv4 Topology Capture.

Definition SESSION_COOKIE : list Z := text "bazalt_session".
Definition LOGIN_WINDOW : Z := 60 * 10 ^ 9.
Definition LOGIN_MAX_FAILURES : Z := 8.
Definition MAX_SESSIONS : Z := 4096.

Record AuthConfig := {
  au_enabled : bool;
  au_username : bytes;
  au_password : bytes;
  au_session_ttl : Z;
  au_cookie_secure : bool
}.

Record LoginFailures := { window_started : Z; failures : Z }.

(** A session token and a client address. *)
Abbreviation Token := (list Z) (only parsing).

#[export] Instance ip_addr_countable : Countable IpAddr.
Proof.
  apply (inj_countable' (fun a => match a with V4 o => inl o | V6 o => inr o end)
           (fun s => match s with inl o => V4 o | inr o => V6 o end)).
  by intros [].
Defined.

Record AuthManager := {
  am_cfg : AuthConfig;
  sessions : gmap Token Z;
  login_failures : gmap IpAddr LoginFailures
}.

Definition AuthManager_new (cfg : AuthConfig) : AuthManager :=
  {| am_cfg := cfg; sessions := ∅; login_failures := ∅ |}.

Definition set_sessions (m : gmap Token Z) (a : AuthManager) : AuthManager :=
  {| am_cfg := am_cfg a; sessions := m; login_failures := login_failures a |}.

Definition set_failures (m : gmap IpAddr LoginFailures) (a : AuthManager) : AuthManager :=
  {| am_cfg := am_cfg a; sessions := sessions a; login_failures := m |}.

(** ** Comparison in constant time *)

(** [a.get(i).copied().unwrap_or(0)]. *)
Definition byte_or_zero (a : bytes) (i : nat) : Z := default 0 (byte_val <$> a !! i).

Definition constant_time_eq (a b : bytes) : bool :=
  let max := Nat.max (length a) (length b) in
  let diff := fold_left (fun diff i => Z.lor diff (Z.lxor (byte_or_zero a i) (byte_or_zero b i))) (seq 0 max)
                (Z.lxor (blen a) (blen b)) in
  diff =? 0.

(** ** Rate limit *)

Definition is_rate_limited (now : Z) (ip : IpAddr) (a : AuthManager) : bool * AuthManager :=
  let kept := filter (fun e => sat_sub now (window_started e.2) < LOGIN_WINDOW) (login_failures a) in
  (match kept !! ip with Some state => LOGIN_MAX_FAILURES <=? failures state | None => false end,
   set_failures kept a).

Definition record_failure (now : Z) (ip : IpAddr) (a : AuthManager) : AuthManager :=
  let state := default {| window_started := now; failures := 0 |} (login_failures a !! ip) in
  let state :=
    if LOGIN_WINDOW <=? sat_sub now (window_started state) then {| window_started := now; failures := 1 |}
    else {| window_started := window_started state; failures := Z.min (failures state + 1) u32_MAX |} in
  set_failures (<[ip := state]> (login_failures a)) a.

(** ** Sessions *)

(** [sessions.retain]. *)
Definition live_sessions (now : Z) (m : gmap Token Z) : gmap Token Z := filter (fun e => now < e.2) m.

(** [min_by_key]: the first of the least. *)
Fixpoint min_by_key {A} (key : A -> Z) (l : list A) : option A :=
  match l with
  | [] => None
  | x :: l =>
      match min_by_key key l with
      | Some y => if key y <? key x then Some y else Some x
      | None => Some x
      end
  end.

Section Auth.
Context {HO : HashOrder}.
Context (base64_decode : list Z -> option bytes).

Definition open_session (now : Z) (token : Token) (a : AuthManager) : AuthManager :=
  let live := live_sessions now (sessions a) in
  let live :=
    if MAX_SESSIONS <=? Z.of_nat (size live) then
      match min_by_key snd (walk live) with Some (oldest, _) => delete oldest live | None => live end
    else live in
  set_sessions (<[token := now + au_session_ttl (am_cfg a)]> live) a.

Inductive LoginError := Forbidden | RateLimited.

(** The clocks of a login: the look at the failures, the failure or the session. *)
Record LoginClocks := { lc_check : Z; lc_act : Z }.

(** [token] is the random token made on success. *)
Definition login (k : LoginClocks) (ip : IpAddr) (username password : bytes) (token : Token) (a : AuthManager)
  : (Token + LoginError) * AuthManager :=
  if negb (au_enabled (am_cfg a)) then (inl [], a)
  else
    let '(limited, a) := is_rate_limited (lc_check k) ip a in
    if limited then (inr RateLimited, a)
    else if constant_time_eq username (au_username (am_cfg a)) && constant_time_eq password (au_password (am_cfg a))
    then (inl token, open_session (lc_act k) token (set_failures (delete ip (login_failures a)) a))
    else (inr Forbidden, record_failure (lc_act k) ip a).

(** The two headers, as far as they are text. *)
Record Headers := { authorization : option (list Z); cookie : option (list Z) }.

Definition strip_prefix (p s : list Z) : option (list Z) :=
  if bool_decide (take (length p) s = p) then Some (drop (length p) s) else None.

Definition position_of (c : Z) (b : bytes) : option nat := fst <$> list_find (fun x => byte_val x = c) b.

Definition valid_basic (h : Headers) (a : AuthManager) : bool :=
  match authorization h with
  | None => false
  | Some value =>
      match (match strip_prefix (text "Basic ") value with
             | Some e => Some e
             | None => strip_prefix (text "basic ") value
             end) with
      | None => false
      | Some encoded =>
          match base64_decode (trim encoded) with
          | None => false
          | Some decoded =>
              match position_of 58 decoded with
              | None => false
              | Some split =>
                  constant_time_eq (take split decoded) (au_username (am_cfg a)) &&
                  constant_time_eq (drop (S split) decoded) (au_password (am_cfg a))
              end
          end
      end
  end.

(** [splitn(2, '=')]: the name and the value, if there is one. *)
Definition name_value (item : list Z) : list Z * option (list Z) :=
  match split_once 61 item with Some (n, v) => (n, Some v) | None => (item, None) end.

Fixpoint find_session (items : list (list Z)) : option Token :=
  match items with
  | [] => None
  | item :: items =>
      let '(name, value) := name_value (trim item) in
      if bool_decide (name = SESSION_COOKIE) then value else find_session items
  end.

Definition session_token (h : Headers) : option Token := c ← cookie h; find_session (split_on 59 c).

Definition valid_session (now : Z) (token : Token) (a : AuthManager) : bool * AuthManager :=
  let live := live_sessions now (sessions a) in
  (match live !! token with Some expiry => now <? expiry | None => false end, set_sessions live a).

Definition is_authorized (now : Z) (h : Headers) (a : AuthManager) : bool * AuthManager :=
  if negb (au_enabled (am_cfg a)) then (true, a)
  else if valid_basic h a then (true, a)
  else match session_token h with Some token => valid_session now token a | None => (false, a) end.

Definition logout (h : Headers) (a : AuthManager) : AuthManager :=
  match session_token h with Some token => set_sessions (delete token (sessions a)) a | None => a end.

(** ** The gate *)

Definition protected_path (path : list Z) : bool :=
  bool_decide (path = text "/metrics") || bool_decide (path = text "/auth/logout") ||
  bool_decide (path = text "/api") || bool_decide (take 5 path = text "/api/").

(** Whether the request goes on to its handler. *)
Definition access_control (now : Z) (path : list Z) (h : Headers) (a : AuthManager) : bool * AuthManager :=
  if negb (protected_path path) then (true, a) else is_authorized now h a.

(** The routes of the protected router. *)
Definition protected_routes : list (list Z) := map text
  ["/api/status"; "/api/health"; "/api/resources"; "/api/topology"; "/api/topology/throttle"; "/metrics"; "/api/flows";
   "/api/flows/{id}"; "/api/flows/{id}/content"; "/api/flows/{id}/favorite"; "/api/content/{id}"; "/api/patterns";
   "/api/patterns/{id}"; "/api/patterns/{id}/enabled"; "/api/patterns/{id}/lookback"; "/api/replay/jobs"; "/api/services";
   "/api/services/{port}"; "/api/management/storage"; "/api/management/cleanup"; "/api/live"; "/api"; "/api/{*rest}";
   "/auth/logout"]%string.

(** The cookies. *)
Definition show_decimal (n : Z) : list Z := text (pretty.pretty (Z.to_N n)).

Definition set_cookie_header (a : AuthManager) (token : Token) : list Z :=
  SESSION_COOKIE ++ text "=" ++ token ++ text "; Path=/; HttpOnly; SameSite=Strict; Max-Age=" ++
  show_decimal (au_session_ttl (am_cfg a) / 10 ^ 9) ++ (if au_cookie_secure (am_cfg a) then text "; Secure" else []).

Definition clear_cookie_header (a : AuthManager) : list Z :=
  SESSION_COOKIE ++ text "=; Path=/; HttpOnly; SameSite=Strict; Max-Age=0" ++
  (if au_cookie_secure (am_cfg a) then text "; Secure" else []).

(** ** Requests over time *)

Inductive Request :=
  | LoginRequest (ip : IpAddr) (username password : bytes) (token : Token) (k : LoginClocks)
  | LogoutRequest (h : Headers) (now : Z)
  | OtherRequest (path : list Z) (h : Headers) (now : Z).

Inductive Response := LoggedIn (token : Token) | Refused (e : LoginError) | Handled | Denied.

(** One request through the gate: [/auth/login] is public, [/auth/logout] is not. *)
Definition serve (r : Request) (a : AuthManager) : Response * AuthManager :=
  match r with
  | LoginRequest ip u p token k =>
      let '(res, a) := login k ip u p token a in
      (match res with inl t => LoggedIn t | inr e => Refused e end, a)
  | LogoutRequest h now =>
      let '(ok, a) := access_control now (text "/auth/logout") h a in
      if (ok : bool) then (Handled, logout h a) else (Denied, a)
  | OtherRequest path h now =>
      let '(ok, a) := access_control now path h a in
      (if (ok : bool) then Handled else Denied, a)
  end.

(** The requests of a server, one after the other, with its answers. *)
Inductive requests : AuthManager -> list (Request * Response) -> AuthManager -> Prop :=
  | no_requests a : requests a [] a
  | one_more a trace a1 r x a2 :
      requests a trace a1 -> serve r a1 = (x, a2) -> requests a (trace ++ [(r, x)]) a2.
End Auth.

(** * What the gate guarantees *)

(** ** Comparison *)

Lemma fold_lor_zero (f : nat -> Z) l x :
  fold_left (fun d i => Z.lor d (f i)) l x = 0 <-> x = 0 /\ Forall (fun i => f i = 0) l.
Proof.
  revert x. induction l as [|i l IH]; intros x; simpl; [by split; [|intros []]|].
  rewrite IH, Z.lor_eq_0_iff, Forall_cons. tauto.
Qed.

(** The comparison that looks at every byte decides equality. *)
Lemma constant_time_eq_spec a b : constant_time_eq a b = true <-> a = b.
Proof.
  unfold constant_time_eq. rewrite Z.eqb_eq, fold_lor_zero, Z.lxor_eq_0_iff. split.
  - intros [Hl Hi]. apply list_eq_same_length with (length b); [done|unfold blen in Hl; lia|].
    intros i x y Hb Hx Hy. rewrite Forall_forall in Hi. specialize (Hi i).
    rewrite Z.lxor_eq_0_iff in Hi. unfold byte_or_zero in Hi. rewrite Hx, Hy in Hi.
    apply byte_val_inj, Hi. apply elem_of_seq. lia.
  - intros ->. split; [done|]. apply Forall_true. intros i. by apply Z.lxor_eq_0_iff.
Qed.

(** ** Sessions come from logins *)

Section Trust.
Context {HO : HashOrder} (base64_decode : list Z -> option bytes).
Context (cfg : AuthConfig).

Abbreviation run := (requests base64_decode).

(** The session is the one of the last such login, and nobody has ended it. *)
Definition from_login (trace : list (Request * Response)) (token : Token) (expiry : Z) : Prop :=
  exists before ip k after,
    trace = before ++ (LoginRequest ip (au_username cfg) (au_password cfg) token k, LoggedIn token) :: after /\
    expiry = lc_act k + au_session_ttl cfg /\
    forall h t, (LogoutRequest h t, Handled) ∈ after -> session_token h <> Some token.

Lemma from_login_snoc trace token expiry r x :
  from_login trace token expiry ->
  (forall h t, (r, x) = (LogoutRequest h t, Handled) -> session_token h <> Some token) ->
  from_login (trace ++ [(r, x)]) token expiry.
Proof.
  intros (before & ip & k & after & -> & He & Hl) Hx. exists before, ip, k, (after ++ [(r, x)]).
  split; [by rewrite <-app_assoc|]. split; [done|].
  intros h t Hin. apply elem_of_app in Hin as [Hin|Hin]; [by eapply Hl|].
  apply list_elem_of_singleton in Hin. by eapply Hx.
Qed.

Record auth_ok (trace : list (Request * Response)) (a : AuthManager) : Prop := {
  ao_cfg : am_cfg a = cfg;
  ao_sessions token expiry : sessions a !! token = Some expiry -> from_login trace token expiry
}.

Lemma live_sessions_lookup now m token expiry :
  live_sessions now m !! token = Some expiry <-> m !! token = Some expiry /\ now < expiry.
Proof. unfold live_sessions. by rewrite map_lookup_filter_Some. Qed.

(** A look at the sessions drops some that are over. *)
Lemma is_authorized_drops now h a :
  let a' := (is_authorized base64_decode now h a).2 in
  am_cfg a' = am_cfg a /\ login_failures a' = login_failures a /\
  (sessions a' = sessions a \/ sessions a' = live_sessions now (sessions a)).
Proof.
  unfold is_authorized, valid_session. destruct (negb _); [by auto|]. destruct (valid_basic _ _ _); [by auto|].
  destruct (session_token h); simpl; auto.
Qed.

Lemma access_control_drops now path h a :
  let a' := (access_control base64_decode now path h a).2 in
  am_cfg a' = am_cfg a /\ login_failures a' = login_failures a /\
  (sessions a' = sessions a \/ sessions a' = live_sessions now (sessions a)).
Proof. unfold access_control. destruct (negb _); [by auto|apply is_authorized_drops]. Qed.

Lemma dropped_lookup m' m now token expiry :
  m' = m \/ m' = live_sessions now m -> m' !! token = Some expiry -> m !! token = Some expiry.
Proof. intros [-> | ->]; [done|]. by intros [? _]%live_sessions_lookup. Qed.

(** What a login comes to. *)
Lemma login_cases k ip u p token a res a' :
  login k ip u p token a = (res, a') ->
  am_cfg a' = am_cfg a /\
  ((au_enabled (am_cfg a) = false /\ res = inl [] /\ a' = a) \/
   (au_enabled (am_cfg a) = true /\ exists limited a1, is_rate_limited (lc_check k) ip a = (limited, a1) /\
     ((limited = true /\ res = inr RateLimited /\ a' = a1) \/
      (limited = false /\ ~ (u = au_username (am_cfg a) /\ p = au_password (am_cfg a)) /\
         res = inr Forbidden /\ a' = record_failure (lc_act k) ip a1) \/
      (limited = false /\ u = au_username (am_cfg a) /\ p = au_password (am_cfg a) /\ res = inl token /\
         a' = open_session (lc_act k) token (set_failures (delete ip (login_failures a1)) a1))))).
Proof.
  unfold login. destruct (au_enabled (am_cfg a)) eqn:Ee; cbn [negb]; [|intros [= <- <-]; split; [done|by left]].
  destruct (is_rate_limited (lc_check k) ip a) as [limited a1] eqn:El.
  assert (am_cfg a1 = am_cfg a) as Hc by (unfold is_rate_limited in El; by injection El as <- <-).
  destruct limited; [intros [= <- <-]; split; [done|right; split; [done|]; exists true, a1; split; [done|by left]]|].
  rewrite Hc. destruct (constant_time_eq u _ && _) eqn:Eq.
  - apply andb_true_iff in Eq as [Hu%constant_time_eq_spec Hp%constant_time_eq_spec].
    intros [= <- <-]. split; [done|]. right. split; [done|]. exists false, a1. split; [done|]. right. right. done.
  - intros [= <- <-]. split; [done|]. right. split; [done|]. exists false, a1. split; [done|]. right. left.
    split; [done|]. split; [|done]. intros [Hu Hp]. apply andb_false_iff in Eq as [Eq|Eq].
    + rewrite (proj2 (constant_time_eq_spec _ _) Hu) in Eq. done.
    + rewrite (proj2 (constant_time_eq_spec _ _) Hp) in Eq. done.
Qed.

Lemma rate_limited_keeps now ip a limited a1 :
  is_rate_limited now ip a = (limited, a1) -> sessions a1 = sessions a /\ am_cfg a1 = am_cfg a.
Proof. unfold is_rate_limited. by intros [= <- <-]. Qed.

Lemma open_session_lookup now token a t expiry :
  sessions (open_session now token a) !! t = Some expiry ->
  (t = token /\ expiry = now + au_session_ttl (am_cfg a)) \/ (t <> token /\ sessions a !! t = Some expiry).
Proof.
  unfold open_session. simpl. intros [[<- <-]|[Hne H]]%lookup_insert_Some; [by left|]. right. split; [done|].
  revert H. case_match; [|by intros [? _]%live_sessions_lookup].
  destruct (min_by_key snd _) as [[oldest ?]|]; [|by intros [? _]%live_sessions_lookup].
  by intros [_ [? _]%live_sessions_lookup]%lookup_delete_Some.
Qed.

(** A step that opens no session and, for a logout, ends its own. *)
Lemma auth_ok_shrinks trace a a' r x :
  auth_ok trace a -> am_cfg a' = am_cfg a ->
  (forall t e, sessions a' !! t = Some e -> sessions a !! t = Some e) ->
  (forall h t, (r, x) = (LogoutRequest h t, Handled) -> forall token, session_token h = Some token ->
     sessions a' !! token = None) ->
  auth_ok (trace ++ [(r, x)]) a'.
Proof.
  intros [Hc Hs] Hc' Hsub Hout. split; [congruence|]. intros token e He.
  apply from_login_snoc; [by apply Hs, Hsub|]. intros h t E Ht. specialize (Hout h t E token Ht). congruence.
Qed.

Lemma serve_ok trace a r x a' :
  auth_ok trace a -> au_enabled cfg = true -> serve base64_decode r a = (x, a') -> auth_ok (trace ++ [(r, x)]) a'.
Proof.
  intros Hok Hen. pose proof (ao_cfg _ _ Hok) as Hc. destruct r as [ip u p token k|h now|path h now]; simpl.
  - destruct (login k ip u p token a) as [res a2] eqn:El. intros [= <- <-].
    destruct (login_cases _ _ _ _ _ _ _ _ El) as [Hc2 [(? & _)|(_ & limited & a1 & Hr & H)]]; [congruence|].
    apply rate_limited_keeps in Hr as [Hs1 Hc1].
    destruct H as [(_ & -> & ->)|[(_ & _ & -> & ->)|(_ & -> & -> & -> & ->)]].
    + eapply auth_ok_shrinks; [done|congruence|by rewrite Hs1|done].
    + eapply auth_ok_shrinks; [done|simpl; congruence|simpl; by rewrite Hs1|done].
    + split; [simpl; congruence|]. intros t e [[-> ->]|[Hne H]]%open_session_lookup.
      * exists trace, ip, k, []. rewrite Hc. split; [done|]. split; [simpl; by rewrite Hc1, Hc|].
        intros h t Hin. by apply not_elem_of_nil in Hin.
      * simpl in H. rewrite Hs1 in H. apply from_login_snoc; [by apply (ao_sessions _ _ Hok)|done].
  - pose proof (access_control_drops now (text "/auth/logout") h a) as (Hc1 & _ & Hs1).
    destruct (access_control _ _ _ _ _) as [[] a1]; intros [= <- <-]; simpl in Hc1, Hs1.
    + unfold logout. destruct (session_token h) as [token|] eqn:Et.
      * eapply auth_ok_shrinks; [done|done| |].
        -- simpl. intros t e [_ H]%lookup_delete_Some. by eapply dropped_lookup.
        -- intros h' t [= <- <-] token' E. rewrite Et in E. injection E as <-. simpl. apply lookup_delete_eq.
      * eapply auth_ok_shrinks; [done|done|intros t e; by apply dropped_lookup with now|].
        intros h' t [= <- <-] token' E. congruence.
    + eapply auth_ok_shrinks; [done|done|intros t e; by apply dropped_lookup with now|done].
  - pose proof (access_control_drops now path h a) as (Hc1 & _ & Hs1).
    destruct (access_control _ _ _ _ _) as [ok a1]; intros [= <- <-]; simpl in Hc1, Hs1.
    eapply auth_ok_shrinks; [done|done|intros t e; by apply dropped_lookup with now|done].
Qed.

Lemma served_ok trace a : au_enabled cfg = true -> run (AuthManager_new cfg) trace a -> auth_ok trace a.
Proof.
  intros Hen Hr. remember (AuthManager_new cfg) as a0 eqn:E0. induction Hr as [|a0 trace a1 r x a2 Hr IH Hs]; subst.
  - split; [done|]. intros token e H. simpl in H. by rewrite lookup_empty in H.
  - eapply serve_ok; eauto.
Qed.

(** What basic authentication accepts. *)
Definition basic_credentials (h : Headers) : Prop :=
  exists prefix encoded, (prefix = text "Basic " \/ prefix = text "basic ") /\
    authorization h = Some (prefix ++ encoded) /\
    base64_decode (trim encoded) = Some (au_username cfg ++ byte_of 58 :: au_password cfg).

Lemma strip_prefix_spec p s e : strip_prefix p s = Some e -> s = p ++ e.
Proof. unfold strip_prefix. case_bool_decide as H; [|done]. intros [= <-]. rewrite <-H at 1. by rewrite take_drop. Qed.

Lemma position_split c b n : position_of c b = Some n -> b = take n b ++ byte_of c :: drop (S n) b.
Proof.
  unfold position_of. destruct (list_find _ b) as [[i x]|] eqn:E; [|done]. simpl. intros [= <-].
  apply list_find_Some in E as (Hx & Hc & _). rewrite <-Hc, byte_of_val. symmetry. by apply take_drop_middle.
Qed.

Lemma valid_basic_spec h a : am_cfg a = cfg -> valid_basic base64_decode h a = true -> basic_credentials h.
Proof.
  intros Hc. unfold valid_basic. destruct (authorization h) as [value|] eqn:Ea; [|done].
  destruct (match strip_prefix (text "Basic ") value with Some e => Some e | None => _ end) as [encoded|] eqn:Es; [|done].
  destruct (base64_decode (trim encoded)) as [decoded|] eqn:Ed; [|done].
  destruct (position_of 58 decoded) as [n|] eqn:Ep; [|done]. rewrite Hc.
  intros [Hu%constant_time_eq_spec Hp%constant_time_eq_spec]%andb_true_iff.
  exists (match strip_prefix (text "Basic ") value with Some _ => text "Basic " | None => text "basic " end), encoded. split_and!.
  - destruct (strip_prefix (text "Basic ") value); auto.
  - destruct (strip_prefix (text "Basic ") value) as [e|] eqn:E1.
    + injection Es as <-. rewrite Ea. f_equal. by apply strip_prefix_spec.
    + rewrite Ea. f_equal. by apply strip_prefix_spec.
  - rewrite Ed, <-Hu, <-Hp. f_equal. by apply position_split.
Qed.

(** C24. Nothing protected is served without the credentials.  Over any sequence of
    requests to a server with authentication, a request for a protected path reaches
    its handler only with basic authentication by the configured user name and
    password, or with the cookie of a session that a login with exactly these
    credentials opened less than the session's lifetime ago and that no served logout has
    ended since; and every route of the protected router is a protected path. *)
Theorem only_credentials_open trace a path h now a' :
  au_enabled cfg = true -> run (AuthManager_new cfg) trace a ->
  protected_path path = true -> serve base64_decode (OtherRequest path h now) a = (Handled, a') ->
  (basic_credentials h \/
   exists token expiry, session_token h = Some token /\ now < expiry /\ from_login trace token expiry) /\
  forallb protected_path protected_routes = true.
Proof.
  intros Hen Hr Hp. destruct (served_ok _ _ Hen Hr) as [Hc Hs]. split; [|by vm_compute].
  revert H. simpl. unfold access_control. rewrite Hp. cbn [negb]. unfold is_authorized. rewrite Hc, Hen. cbn [negb].
  destruct (valid_basic base64_decode h a) eqn:Eb; [intros _; left; by eapply valid_basic_spec|].
  destruct (session_token h) as [token|] eqn:Et; [|done]. unfold valid_session.
  destruct (live_sessions now (sessions a) !! token) as [expiry|] eqn:El; [|done].
  intros _. right. exists token, expiry. apply live_sessions_lookup in El as [Hl Hnow]. auto.
Qed.

(** ** The number of sessions *)

Lemma min_by_key_some {A} (key : A -> Z) l : l <> [] -> exists x, min_by_key key l = Some x /\ x ∈ l.
Proof.
  induction l as [|x l IH]; [done|]. intros _. simpl. destruct l as [|y l]; [exists x; split; [done|by left]|].
  destruct IH as (z & -> & Hz); [done|]. destruct (key z <? key x); [exists z|exists x]; (split; [done|]); [by right|by left].
Qed.

Lemma open_session_bound now token a :
  Z.of_nat (size (sessions a)) <= MAX_SESSIONS ->
  Z.of_nat (size (sessions (open_session now token a))) <= MAX_SESSIONS.
Proof.
  intros Hs. unfold open_session. cbn [sessions set_sessions].
  assert (size (live_sessions now (sessions a)) <= size (sessions a))%nat as Hl by apply map_size_filter.
  set (live := live_sessions now (sessions a)) in *.
  assert (forall m : gmap Token Z, Z.of_nat (size m) < MAX_SESSIONS -> forall v,
    Z.of_nat (size (<[token := v]> m)) <= MAX_SESSIONS) as Hins.
  { intros m Hm v. destruct (m !! token) eqn:E; [rewrite map_size_insert_Some by eauto|rewrite map_size_insert_None by done]; lia. }
  destruct (Z.leb_spec MAX_SESSIONS (Z.of_nat (size live))); [|by apply Hins].
  destruct (min_by_key_some snd (walk live)) as ([oldest e] & -> & Hin).
  { intros E. pose proof (walk_permutation live) as Hw. rewrite E in Hw. apply Permutation_nil_l in Hw.
    symmetry in Hw. apply map_to_list_empty_iff in Hw. rewrite Hw, map_size_empty in *. done. }
  apply Hins. rewrite walk_permutation in Hin. apply elem_of_map_to_list in Hin.
  rewrite map_size_delete_Some by eauto. unfold MAX_SESSIONS in *. lia.
Qed.

Lemma live_sessions_size now m : (size (live_sessions now m) <= size m)%nat.
Proof. apply map_size_filter. Qed.

Lemma login_sessions_bound k ip u p token a res a' :
  login k ip u p token a = (res, a') -> Z.of_nat (size (sessions a)) <= MAX_SESSIONS ->
  Z.of_nat (size (sessions a')) <= MAX_SESSIONS.
Proof.
  intros El Hs. destruct (login_cases _ _ _ _ _ _ _ _ El) as [_ [(_ & _ & ->)|(_ & limited & a1 & Hr & H)]]; [done|].
  apply rate_limited_keeps in Hr as [Hs1 _].
  destruct H as [(_ & _ & ->)|[(_ & _ & _ & ->)|(_ & _ & _ & _ & ->)]].
  - by rewrite Hs1.
  - simpl. by rewrite Hs1.
  - apply open_session_bound. simpl. by rewrite Hs1.
Qed.

(** The sessions never outgrow their limit. *)
Lemma sessions_bounded trace a : run (AuthManager_new cfg) trace a -> Z.of_nat (size (sessions a)) <= MAX_SESSIONS.
Proof.
  intros Hr. remember (AuthManager_new cfg) as a0 eqn:E0. induction Hr as [|a0 trace a1 r x a2 Hr IH Hs]; subst.
  { simpl. by rewrite map_size_empty. }
  specialize (IH eq_refl).
  assert (forall a', sessions a' = sessions a1 \/ (exists now, sessions a' = live_sessions now (sessions a1)) ->
    Z.of_nat (size (sessions a')) <= MAX_SESSIONS) as Hdrop.
  { intros a' [->|[now ->]]; [done|]. pose proof (live_sessions_size now (sessions a1)). lia. }
  destruct r as [ip u p token k|h now|path h now]; simpl in Hs.
  - destruct (login k ip u p token a1) as [res a'] eqn:El. injection Hs as _ <-. by eapply login_sessions_bound.
  - pose proof (access_control_drops now (text "/auth/logout") h a1) as (_ & _ & Hd).
    destruct (access_control _ _ _ _ _) as [[] a']; injection Hs as _ <-; simpl in Hd.
    + assert (Z.of_nat (size (sessions a')) <= MAX_SESSIONS) as Ha by (apply Hdrop; destruct Hd; eauto).
      unfold logout. destruct (session_token h) as [token|]; [|done]. cbn [sessions set_sessions].
      assert (size (delete token (sessions a')) <= size (sessions a'))%nat as Hdel; [|lia].
      destruct (sessions a' !! token) eqn:E; [rewrite map_size_delete_Some by eauto|rewrite map_size_delete_None by done]; lia.
    + apply Hdrop. destruct Hd; eauto.
  - pose proof (access_control_drops now path h a1) as (_ & _ & Hd).
    destruct (access_control _ _ _ _ _) as [ok a']; injection Hs as _ <-. apply Hdrop. destruct Hd; eauto.
Qed.
End Trust.

(** ** The rate limit *)

Section Guessing.
Context {HO : HashOrder} (base64_decode : list Z -> option bytes).
Context (ip : IpAddr) (lo : Z).

(** The clocks of the logins go forward from [now]. *)
Fixpoint clocks_forward (now : Z) (trace : list (Request * Response)) : Prop :=
  match trace with
  | [] => True
  | (LoginRequest _ _ _ _ k, _) :: trace => now <= lc_check k <= lc_act k /\ clocks_forward (lc_act k) trace
  | _ :: trace => clocks_forward now trace
  end.

(** A wrong guess from [ip] in the minute that starts at [lo]. *)
Definition is_guess (e : Request * Response) : bool :=
  match e with
  | (LoginRequest ip' _ _ _ k, Refused Forbidden) =>
      bool_decide (ip' = ip) && (lo <=? lc_act k) && (lc_act k <? lo + LOGIN_WINDOW)
  | _ => false
  end.

Definition guesses (trace : list (Request * Response)) : Z := blen (List.filter is_guess trace).

(** No login from [ip] succeeds. *)
Definition no_success (trace : list (Request * Response)) : Prop :=
  Forall (fun e => match e with (LoginRequest ip' _ _ _ _, LoggedIn _) => ip' <> ip | _ => True end) trace.

Definition entry_ok (now : Z) (e : option LoginFailures) : Prop :=
  match e with Some s => window_started s <= now /\ 1 <= failures s <= LOGIN_MAX_FAILURES | None => True end.

(** How many guesses the book still allows in the minute. *)
Definition allowance (now : Z) (e : option LoginFailures) : Z :=
  if lo + LOGIN_WINDOW <=? now then 0
  else match e with
       | None => if lo <=? now then 8 else 15
       | Some s =>
           if lo <=? window_started s then 8 - failures s
           else if lo <? window_started s + LOGIN_WINDOW then 16 - failures s
           else 15
       end.

(** The book's entry after a look at the rate limit. *)
Definition kept_entry (now : Z) (e : option LoginFailures) : option LoginFailures :=
  match e with
  | Some s => if decide (sat_sub now (window_started s) < LOGIN_WINDOW) then Some s else None
  | None => None
  end.

Definition counted_entry (now : Z) (e : option LoginFailures) : LoginFailures :=
  let s := default {| window_started := now; failures := 0 |} e in
  if LOGIN_WINDOW <=? sat_sub now (window_started s) then {| window_started := now; failures := 1 |}
  else {| window_started := window_started s; failures := Z.min (failures s + 1) u32_MAX |}.

Lemma rate_limited_entry now ip' a limited a1 :
  is_rate_limited now ip' a = (limited, a1) ->
  (forall i, login_failures a1 !! i = kept_entry now (login_failures a !! i)) /\
  limited = match login_failures a1 !! ip' with Some s => LOGIN_MAX_FAILURES <=? failures s | None => false end.
Proof.
  unfold is_rate_limited. intros [= <- <-]. split; [|done]. intros i. cbn [login_failures set_failures].
  apply option_eq. intros x. rewrite map_lookup_filter_Some. unfold kept_entry. simpl.
  destruct (login_failures a !! i) as [s|]; [|by split; [intros []|]].
  case_decide; (split; [intros [[= <-] ?]; done|]); [by intros [= <-]|done].
Qed.

Lemma kept_allowance now n e : entry_ok now e -> now <= n ->
  entry_ok n (kept_entry n e) /\ allowance n (kept_entry n e) <= allowance now e.
Proof.
  intros He Hn. unfold allowance, kept_entry, entry_ok, LOGIN_WINDOW, LOGIN_MAX_FAILURES in *.
  destruct e as [s|]; [|split; [done|]; repeat case_match; lia].
  unfold sat_sub. case_decide; (split; [lia || done|]); repeat case_match; lia.
Qed.

Lemma counted_allowance now n e : entry_ok now e -> now <= n ->
  (forall s, e = Some s -> failures s < LOGIN_MAX_FAILURES) ->
  entry_ok n (Some (counted_entry n e)) /\
  (if (lo <=? n) && (n <? lo + LOGIN_WINDOW) then 1 else 0) + allowance n (Some (counted_entry n e)) <= allowance now e.
Proof.
  intros He Hn Hf. unfold allowance, counted_entry, entry_ok, LOGIN_WINDOW, LOGIN_MAX_FAILURES, sat_sub, u32_MAX in *.
  destruct e as [s|].
  - specialize (Hf s eq_refl). simpl. destruct (Z.leb_spec (60 * 10 ^ 9) (Z.max 0 (n - window_started s))); simpl;
      (split; [lia|]); repeat case_match; lia.
  - simpl. destruct (Z.leb_spec (60 * 10 ^ 9) (Z.max 0 (n - n))); simpl; (split; [lia|]); repeat case_match; lia.
Qed.

Lemma later_allowance now n e : entry_ok now e -> now <= n -> entry_ok n e /\ allowance n e <= allowance now e.
Proof.
  intros He Hn. unfold allowance, entry_ok, LOGIN_WINDOW, LOGIN_MAX_FAILURES in *.
  destruct e as [s|]; (split; [lia || done|]); repeat case_match; lia.
Qed.

Lemma allowance_bounds now e : entry_ok now e -> 0 <= allowance now e <= 15.
Proof.
  intros He. unfold allowance, entry_ok, LOGIN_WINDOW, LOGIN_MAX_FAILURES in *. destruct e; repeat case_match; lia.
Qed.

Definition entry (a : AuthManager) : option LoginFailures := login_failures a !! ip.

Definition request_clock (now : Z) (e : Request * Response) : Z :=
  match e with (LoginRequest _ _ _ _ k, _) => lc_act k | _ => now end.

Definition clock_after (now : Z) (trace : list (Request * Response)) : Z := fold_left request_clock trace now.

Lemma clocks_forward_snoc now trace e :
  clocks_forward now (trace ++ [e]) <->
  clocks_forward now trace /\
  match e with (LoginRequest _ _ _ _ k, _) => clock_after now trace <= lc_check k <= lc_act k | _ => True end.
Proof.
  revert now. induction trace as [|[[ip' u p token k|h t|path h t] x] trace IH]; intros now.
  - destruct e as [[| |] ?]; simpl; tauto.
  - simpl. rewrite IH. unfold clock_after. simpl. tauto.
  - simpl. apply IH.
  - simpl. apply IH.
Qed.

(** One login and the book. *)
Lemma login_entry now k ip' u p token a res a' :
  login k ip' u p token a = (res, a') -> entry_ok now (entry a) -> now <= lc_check k <= lc_act k ->
  entry_ok (lc_act k) (entry a') /\
  ((forall t, res = inl t -> ip' <> ip) ->
   (if is_guess (LoginRequest ip' u p token k, match res with inl t => LoggedIn t | inr e => Refused e end) then 1 else 0) +
     allowance (lc_act k) (entry a') <= allowance now (entry a)).
Proof.
  intros El He Hk. unfold entry in *.
  destruct (login_cases _ _ _ _ _ _ _ _ El) as [_ [(_ & -> & ->)|(_ & limited & a1 & Hr & H)]].
  { destruct (later_allowance now (lc_act k) _ He) as [H1 H2]; [lia|]. split; [done|]. intros _. simpl. lia. }
  destruct (rate_limited_entry _ _ _ _ _ Hr) as [Hent Hlim].
  destruct (kept_allowance now (lc_check k) _ He ltac:(lia)) as [Hk1 Hk2]. rewrite <-Hent in Hk1, Hk2.
  destruct (later_allowance (lc_check k) (lc_act k) _ Hk1 ltac:(lia)) as [Hl1 Hl2].
  destruct H as [(_ & -> & ->)|[(-> & _ & -> & ->)|(_ & _ & _ & -> & ->)]].
  - split; [done|]. intros _. simpl. lia.
  - unfold record_failure. fold (counted_entry (lc_act k) (login_failures a1 !! ip')). cbn [login_failures set_failures].
    unfold is_guess. destruct (decide (ip' = ip)) as [->|Hne].
    + rewrite lookup_insert_eq, bool_decide_true by done. simpl.
      destruct (counted_allowance (lc_check k) (lc_act k) (login_failures a1 !! ip) Hk1 ltac:(lia)) as [Hc1 Hc2].
      { intros s Hs. rewrite Hs in Hlim. lia. }
      split; [done|]. intros _. lia.
    + rewrite lookup_insert_ne, bool_decide_false by done. simpl. split; [done|]. intros _. lia.
  - assert (login_failures (open_session (lc_act k) token (set_failures (delete ip' (login_failures a1)) a1)) = delete ip' (login_failures a1)) as -> by done.
    destruct (decide (ip' = ip)) as [->|Hne]; [rewrite lookup_delete_eq|rewrite lookup_delete_ne by done].
    + split; [done|]. intros Hs. by destruct (Hs token).
    + split; [done|]. intros _. simpl. lia.
Qed.

(** Any requests and the book. *)
Lemma requests_entry now a trace a' :
  requests base64_decode a trace a' -> clocks_forward now trace -> entry_ok now (entry a) ->
  entry_ok (clock_after now trace) (entry a') /\
  (no_success trace -> guesses trace + allowance (clock_after now trace) (entry a') <= allowance now (entry a)).
Proof.
  intros Hr Hc He. induction Hr as [a|a trace a1 r x a2 Hr IH Hs]; [split; [done|]; intros _; change (guesses []) with 0; cbn [clock_after fold_left]; lia|].
  apply clocks_forward_snoc in Hc as [Hc Hk]. destruct (IH Hc He) as [He1 Hg1].
  unfold clock_after, guesses, no_success in *. rewrite fold_left_app, List.filter_app, blen_app, Forall_app. cbn [fold_left].
  assert (blen (List.filter is_guess [(r, x)]) = if is_guess (r, x) then 1 else 0) as ->.
  { cbn [List.filter]. by destruct (is_guess (r, x)). }
  destruct r as [ip' u p token k|h t|path h t]; simpl in Hs; cbn [request_clock fst].
  - destruct (login k ip' u p token a1) as [res a3] eqn:El. injection Hs as <- <-.
    destruct (login_entry _ _ _ _ _ _ _ _ _ El He1 Hk) as [H1 H2]. split; [done|].
    intros [Hn1 Hn2%Forall_inv]. specialize (Hg1 Hn1).
    assert (forall t, res = inl t -> ip' <> ip) as Hd by (intros t ->; exact Hn2). specialize (H2 Hd). lia.
  - pose proof (access_control_drops base64_decode t (text "/auth/logout") h a1) as (_ & Hf & _).
    destruct (access_control _ _ _ _ _) as [[] a3]; injection Hs as <- <-; simpl in Hf; unfold entry in *.
    + assert (login_failures (logout h a3) = login_failures a1) as -> by (unfold logout; by destruct (session_token h)).
      split; [done|]. intros [Hn1 _]. specialize (Hg1 Hn1). cbn [is_guess]. lia.
    + rewrite Hf. split; [done|]. intros [Hn1 _]. specialize (Hg1 Hn1). cbn [is_guess]. lia.
  - pose proof (access_control_drops base64_decode t path h a1) as (_ & Hf & _).
    destruct (access_control _ _ _ _ _) as [ok a3]; injection Hs as <- <-; simpl in Hf; unfold entry in *.
    rewrite Hf. split; [done|]. intros [Hn1 _]. specialize (Hg1 Hn1). cbn [is_guess]. lia.
Qed.

End Guessing.

(** ** A session lives *)

Definition visible (c : Z) : Prop := 33 <= c <= 126 /\ c <> 59.

Lemma trim_visible s : Forall visible s -> trim s = s.
Proof.
  assert (forall t, Forall visible t -> trim_start t = t) as Hts.
  { intros [|c t] Ht; [done|]. apply Forall_cons in Ht as [[Hc _] _]. simpl.
    destruct (is_whitespace c) eqn:E; [|done]. unfold is_whitespace, between in E. exfalso. lia. }
  intros Hs. unfold trim. rewrite (Hts s) by done. rewrite Hts, rev_involutive; [done|].
  apply Forall_forall. intros c Hc%list_elem_of_In%in_rev%list_elem_of_In. rewrite Forall_forall in Hs. by apply Hs.
Qed.

Lemma split_on_visible s : Forall visible s -> split_on 59 s = [s].
Proof.
  induction 1 as [|c s [_ Hc] _ IH]; [done|]. simpl. rewrite IH. by rewrite (proj2 (Z.eqb_neq c 59)).
Qed.

(** The cookie a login sets is found again. *)
Lemma cookie_found token : Forall visible token ->
  session_token {| authorization := None; cookie := Some (SESSION_COOKIE ++ text "=" ++ token) |} = Some token.
Proof.
  intros Ht. assert (Forall visible (SESSION_COOKIE ++ text "=" ++ token)) as Hv.
  { apply Forall_app. split; [|apply Forall_app; split; [|done]]; repeat constructor; vm_compute; congruence. }
  unfold session_token. cbn [cookie mbind option_bind]. rewrite split_on_visible by done. cbn [find_session].
  rewrite trim_visible by done. unfold name_value. change (text "=" ++ token) with (61 :: token).
  rewrite split_once_at by (apply (bool_decide_unpack (61 ∉ SESSION_COOKIE)); vm_compute; exact I). by rewrite bool_decide_true.
Qed.

Section Lives.
Context {HO : HashOrder} (base64_decode : list Z -> option bytes).

(** What does not end a session: no login that opens another, no served logout of
    its own, no look at the clock after its end. *)
Definition spares (token : Token) (expiry : Z) (e : Request * Response) : Prop :=
  match e with
  | (LoginRequest _ _ _ _ _, x) => forall t, x <> LoggedIn t
  | (LogoutRequest h now, x) => now < expiry /\ (x = Handled -> session_token h <> Some token)
  | (OtherRequest _ _ now, _) => now < expiry
  end.

Lemma dropped_keeps m' m now token expiry :
  m' = m \/ m' = live_sessions now m -> m !! token = Some expiry -> now < expiry -> m' !! token = Some expiry.
Proof. intros [-> | ->]; [done|]. intros. by apply live_sessions_lookup. Qed.

Lemma spared_session token expiry a trace a' :
  requests base64_decode a trace a' -> Forall (spares token expiry) trace -> sessions a !! token = Some expiry ->
  sessions a' !! token = Some expiry /\ am_cfg a' = am_cfg a.
Proof.
  intros Hr Hf Hs. induction Hr as [|a trace a1 r x a2 Hr IH Hx]; [done|].
  apply Forall_app in Hf as [Hf Hlast%Forall_inv]. destruct (IH Hf Hs) as [H1 Hc1].
  destruct r as [ip u p t k|h now|path h now]; simpl in Hx, Hlast.
  - destruct (login k ip u p t a1) as [res a3] eqn:El. injection Hx as <- <-.
    destruct (login_cases _ _ _ _ _ _ _ _ El) as [Hc3 [(_ & -> & ->)|(_ & limited & a4 & Hl & H)]]; [by destruct (Hlast [])|].
    apply rate_limited_keeps in Hl as [Hs4 Hc4]. split; [|congruence].
    destruct H as [(_ & _ & ->)|[(_ & _ & _ & ->)|(_ & _ & _ & -> & _)]]; simpl; [congruence..|by destruct (Hlast t)].
  - pose proof (access_control_drops base64_decode now (text "/auth/logout") h a1) as (Hc & _ & Hd).
    destruct (access_control _ _ _ _ _) as [[] a3]; injection Hx as <- <-; simpl in Hc, Hd; destruct Hlast as [Hn Hl].
    + pose proof (dropped_keeps _ _ _ _ _ Hd H1 Hn) as H3. unfold logout. specialize (Hl eq_refl).
      destruct (session_token h) as [t|]; [|split; [done|congruence]]. simpl. rewrite lookup_delete_ne by congruence. split; [done|congruence].
    + split; [by eapply dropped_keeps|congruence].
  - pose proof (access_control_drops base64_decode now path h a1) as (Hc & _ & Hd).
    destruct (access_control _ _ _ _ _) as [ok a3]; injection Hx as <- <-; simpl in Hc, Hd.
    split; [by eapply dropped_keeps|congruence].
Qed.

(** C25. The right credentials open the API.  From any state, a login with the
    configured user name and password from an address that is not held back is
    answered with a session; with its cookie every request to any path is served
    until the session's lifetime is over, whatever other requests come between,
    unless a served logout ends it or another login succeeds. *)
Theorem login_opens_the_api ip token k a :
  au_enabled (am_cfg a) = true -> (is_rate_limited (lc_check k) ip a).1 = false -> Forall visible token ->
  exists a1, serve base64_decode (LoginRequest ip (au_username (am_cfg a)) (au_password (am_cfg a)) token k) a = (LoggedIn token, a1) /\
  forall during a2 path now,
    let expiry := lc_act k + au_session_ttl (am_cfg a) in
    requests base64_decode a1 during a2 -> Forall (spares token expiry) during -> now < expiry ->
    (serve base64_decode (OtherRequest path
      {| authorization := None; cookie := Some (SESSION_COOKIE ++ text "=" ++ token) |} now) a2).1 = Handled.
Proof.
  intros Hen Hlim Htok.
  destruct (login k ip (au_username (am_cfg a)) (au_password (am_cfg a)) token a) as [res a1] eqn:El.
  destruct (login_cases _ _ _ _ _ _ _ _ El) as [Hc1 [(? & _)|(_ & limited & a0 & Hl & H)]]; [congruence|].
  pose proof (rate_limited_keeps _ _ _ _ _ Hl) as [_ Hc0]. rewrite Hl in Hlim. simpl in Hlim. subst limited.
  destruct H as [(? & _)|[(_ & Hne & _)|(_ & _ & _ & -> & ->)]]; [done|by destruct Hne|].
  eexists. split; [simpl; by rewrite El|]. intros during a2 path now expiry Hr Hf Hnow. subst expiry.
  destruct (spared_session token (lc_act k + au_session_ttl (am_cfg a)) _ _ _ Hr Hf) as [Hs2 Hc2].
  { unfold open_session. cbn [sessions set_sessions am_cfg set_failures]. by rewrite lookup_insert_eq, Hc0. }
  cbn [serve]. unfold access_control. destruct (negb (protected_path path)); [done|].
  unfold is_authorized. rewrite Hc2, Hc1, Hen. cbn [negb]. unfold valid_basic. cbn [authorization].
  rewrite cookie_found by done. unfold valid_session.
  rewrite (proj2 (live_sessions_lookup now _ token _) (conj Hs2 Hnow)).
  by rewrite (proj2 (Z.ltb_lt now _)).
Qed.
End Lives.

(** ** A server with one user *)

#[local] Instance ex_order : HashOrder :=
  {| walk := fun _ _ _ _ m => map_to_list m; walk_permutation := fun _ _ _ _ m => Permutation_refl _ |}.

Definition ex_cfg : AuthConfig :=
  {| au_enabled := true; au_username := bytes_of "admin"; au_password := bytes_of "secret"; au_session_ttl := 3600 * 10 ^ 9;
     au_cookie_secure := false |}.

Definition ex_ip : IpAddr := V4 [x7f; x00; x00; x01].
Definition ex_token : Token := text "0123456789abcdef".
Definition at_time (t : Z) : LoginClocks := {| lc_check := t; lc_act := t |}.
Definition no_base64 (s : list Z) : option bytes := None.

Definition ex_login (t : Z) : Request := LoginRequest ex_ip (bytes_of "admin") (bytes_of "secret") ex_token (at_time t).
Definition ex_guess (t : Z) : Request := LoginRequest ex_ip (bytes_of "admin") (bytes_of "guess") ex_token (at_time t).
Definition ex_headers : Headers := {| authorization := None; cookie := Some (text "bazalt_session=0123456789abcdef") |}.

Definition after_login : AuthManager := (serve no_base64 (ex_login 5) (AuthManager_new ex_cfg)).2.
Definition after_guess : AuthManager := (serve no_base64 (ex_guess 5) (AuthManager_new ex_cfg)).2.

Lemma only_credentials_open_witness :
  (basic_credentials no_base64 ex_cfg ex_headers \/
   exists token expiry, session_token ex_headers = Some token /\ 9 < expiry /\
     from_login ex_cfg [(ex_login 5, LoggedIn ex_token)] token expiry) /\
  forallb protected_path protected_routes = true.
Proof.
  apply (only_credentials_open no_base64 ex_cfg [(ex_login 5, LoggedIn ex_token)] after_login (text "/api/flows") ex_headers 9
           (serve no_base64 (OtherRequest (text "/api/flows") ex_headers 9) after_login).2); [done| |reflexivity|].
  - eapply (one_more no_base64 _ []); [constructor|]. vm_compute. reflexivity.
  - vm_compute. reflexivity.
Defined.


Lemma login_opens_the_api_witness :
  exists a1, serve no_base64 (ex_login 5) (AuthManager_new ex_cfg) = (LoggedIn ex_token, a1) /\
  forall during a2 path now,
    let expiry := lc_act (at_time 5) + au_session_ttl ex_cfg in
    requests no_base64 a1 during a2 -> Forall (spares ex_token expiry) during -> now < expiry ->
    (serve no_base64 (OtherRequest path
      {| authorization := None; cookie := Some (SESSION_COOKIE ++ text "=" ++ ex_token) |} now) a2).1 = Handled.
Proof.
  apply (login_opens_the_api no_base64 ex_ip ex_token (at_time 5) (AuthManager_new ex_cfg)); [done|by vm_compute|].
  repeat constructor; vm_compute; congruence.
Defined.

(** Eight wrong guesses in a window, the ninth is turned away; a minute after the
    first, eight more are read: fifteen fall into one minute. *)
Example guesses_in_a_minute :
  let times := 0 :: repeat (59 * 10 ^ 9) 7 ++ [59 * 10 ^ 9] ++ repeat (60 * 10 ^ 9) 8 in
  let answers := (fix go ts a := match ts with
                                 | [] => []
                                 | t :: ts => let '(x, a) := serve no_base64 (ex_guess t) a in (ex_guess t, x) :: go ts a
                                 end) times (AuthManager_new ex_cfg) in
  guesses ex_ip 1 answers = 15 /\ map snd (drop 8 (take 9 answers)) = [Refused RateLimited].
Proof. vm_compute. split; reflexivity. Qed.
