(* ===== verification/Metrics.v ===== *)
(** * Metrics ([src/src/metrics.rs], [src/src/resources.rs])

    The counters and gauges of the process, the depth of a queue as the threads
    keep it, the pressure that pauses the replay, the text of [/metrics], and the
    files of [/proc] and the control groups the resource page reads.  Every field
    is an atomic [u64]: a state of the metrics gives each its value. *)

From stdpp Require Import strings list.
From S2P Require Import Prelude Text Spool SpoolSpec HttpHeader Ipv4 Capture Auth.

Inductive Metric :=
  | pipeline_last_progress_ns | capture_frames | capture_frame_bytes | packets_received | packet_bytes
  | packet_parse_errors | capture_truncated_packets | ip_fragments_received | ip_fragments_reassembled
  | ip_fragment_overlap_drops | ip_fragment_expired | ip_fragment_evicted | packets_ignored | packets_filtered
  | capture_drops | capture_backend_drops | capture_backend_invalid_descs | raw_capture_drops
  | flow_queue_depth | flow_queue_capacity | flow_queue_high_watermark | l7_queue_depth | l7_queue_capacity
  | l7_queue_high_watermark | match_queue_depth | match_queue_capacity | match_queue_high_watermark
  | matcher_queue_backpressure | matcher_queue_drops | matcher_housekeeping_drops | storage_queue_depth
  | storage_queue_capacity | storage_queue_high_watermark | segment_queue_depth | segment_queue_capacity
  | segment_queue_high_watermark | metadata_spool_bytes | metadata_spool_capacity | active_flows
  | flow_state_rejections | flow_prefix_rejections | flows_completed | tcp_retransmits | tcp_out_of_order
  | tcp_gap_events | tcp_gap_bytes | tcp_rejected_resets | http_requests | http_responses | http_parse_errors
  | matcher_bytes | matcher_matches | matcher_match_limit_events | segment_bytes | segment_disk_bytes
  | segment_disk_capacity | replay_bytes | replay_matches | replay_active | pattern_generation | cpu_available
  | cpu_budget | tokio_workers | flow_workers | l7_workers | matcher_workers | replay_workers.

#[export] Instance metric_eq_dec : EqDecision Metric.
Proof. solve_decision. Defined.

Definition Metrics := Metric -> Z.

Definition store (m : Metrics) (f : Metric) (v : Z) : Metrics := fun g => if decide (g = f) then v else m g.

Definition Metrics_default : Metrics := fun _ => 0.

(** [snapshot] loads one field after the other: [m f] is the state when [f] is
    loaded. *)
Definition snapshot (m : Metric -> Metrics) : Metrics := fun f => m f f.

(** ** Progress of the workers *)

Definition touch_progress (now : Z) (m : Metrics) : Metrics := store m pipeline_last_progress_ns (Z.min now u64_MAX).

Definition progress_stale (now timeout : Z) (m : Metrics) : bool :=
  let last := m pipeline_last_progress_ns in
  if last =? 0 then false else timeout <? Z.max (now - last) 0.

(** ** Depths of queues *)

Definition observe_queue (depth high : Metric) (value : Z) (m : Metrics) : Metrics :=
  let m := store m depth value in store m high (Z.max (m high) value).

Definition queue_enqueued (depth high : Metric) (m : Metrics) : Z * Metrics :=
  let value := Z.min (m depth + 1) u64_MAX in
  let m := store m depth (wrap 64 (m depth + 1)) in
  (value, store m high (Z.max (m high) value)).

Definition queue_dequeued (depth : Metric) (m : Metrics) : Metrics := store m depth (Z.max (m depth - 1) 0).

(** ** Pressure *)

Definition pressure_pairs : list (Metric * Metric) :=
  [(flow_queue_depth, flow_queue_capacity); (l7_queue_depth, l7_queue_capacity); (match_queue_depth, match_queue_capacity);
   (storage_queue_depth, storage_queue_capacity); (segment_queue_depth, segment_queue_capacity);
   (metadata_spool_bytes, metadata_spool_capacity)].

(** The last of the greatest; the fields are loaded one after the other. *)
Definition live_pressure_pct (m : Metric -> Metrics) : Z :=
  let pairs := map (fun p => (m p.1 p.1, m p.2 p.2)) pressure_pairs in
  let filled := map (fun p => Z.min (p.1 * 100) u64_MAX / p.2) (List.filter (fun p => 0 <? p.2) pairs) in
  match filled with [] => 0 | x :: l => fold_left Z.max l x end.

(** ** The text of [/metrics] *)

Inductive MetricType := TCounter | TGauge.

Definition type_name (t : MetricType) : string := match t with TCounter => "counter" | TGauge => "gauge" end.

(** The fields with the names they are published by, in order. *)
Definition exposed : list (Metric * string * MetricType) :=
  [(capture_frames, "capture_frames_total", TCounter);
   (capture_frame_bytes, "capture_frame_bytes_total", TCounter);
   (packets_received, "packets_received_total", TCounter); (packet_bytes, "packet_bytes_total", TCounter);
   (packet_parse_errors, "packet_parse_errors_total", TCounter);
   (capture_truncated_packets, "capture_truncated_packets_total", TCounter);
   (ip_fragments_received, "ip_fragments_received_total", TCounter);
   (ip_fragments_reassembled, "ip_fragments_reassembled_total", TCounter);
   (ip_fragment_overlap_drops, "ip_fragment_overlap_drops_total", TCounter);
   (ip_fragment_expired, "ip_fragment_expired_total", TCounter);
   (ip_fragment_evicted, "ip_fragment_evicted_total", TCounter);
   (packets_ignored, "packets_ignored_total", TCounter);
   (packets_filtered, "packets_filtered_total", TCounter); (capture_drops, "capture_drops_total", TCounter);
   (capture_backend_drops, "capture_backend_drops_total", TCounter);
   (capture_backend_invalid_descs, "capture_backend_invalid_descs_total", TCounter);
   (raw_capture_drops, "raw_capture_drops_total", TCounter); (flow_queue_depth, "flow_queue_depth", TGauge);
   (flow_queue_capacity, "flow_queue_capacity", TGauge);
   (flow_queue_high_watermark, "flow_queue_high_watermark", TGauge);
   (l7_queue_depth, "l7_queue_depth", TGauge); (l7_queue_capacity, "l7_queue_capacity", TGauge);
   (l7_queue_high_watermark, "l7_queue_high_watermark", TGauge);
   (match_queue_depth, "match_queue_depth", TGauge); (match_queue_capacity, "match_queue_capacity", TGauge);
   (match_queue_high_watermark, "match_queue_high_watermark", TGauge);
   (matcher_queue_backpressure, "matcher_queue_backpressure_total", TCounter);
   (matcher_queue_drops, "matcher_queue_drops_total", TCounter);
   (matcher_housekeeping_drops, "matcher_housekeeping_drops_total", TCounter);
   (storage_queue_depth, "storage_queue_depth", TGauge);
   (storage_queue_capacity, "storage_queue_capacity", TGauge);
   (storage_queue_high_watermark, "storage_queue_high_watermark", TGauge);
   (segment_queue_depth, "segment_queue_depth", TGauge);
   (segment_queue_capacity, "segment_queue_capacity", TGauge);
   (segment_queue_high_watermark, "segment_queue_high_watermark", TGauge);
   (metadata_spool_bytes, "metadata_spool_bytes", TGauge);
   (metadata_spool_capacity, "metadata_spool_capacity", TGauge); (active_flows, "active_flows", TGauge);
   (flow_state_rejections, "flow_state_rejections_total", TCounter);
   (flows_completed, "flows_completed_total", TCounter); (tcp_retransmits, "tcp_retransmits_total", TCounter);
   (tcp_out_of_order, "tcp_out_of_order_total", TCounter); (tcp_gap_events, "tcp_gap_events_total", TCounter);
   (tcp_gap_bytes, "tcp_gap_bytes_total", TCounter);
   (tcp_rejected_resets, "tcp_rejected_resets_total", TCounter);
   (http_requests, "http_requests_total", TCounter); (http_responses, "http_responses_total", TCounter);
   (http_parse_errors, "http_parse_errors_total", TCounter); (matcher_bytes, "matcher_bytes_total", TCounter);
   (matcher_matches, "matcher_matches_total", TCounter);
   (matcher_match_limit_events, "matcher_match_limit_events_total", TCounter);
   (segment_bytes, "segment_bytes_total", TCounter); (segment_disk_bytes, "segment_disk_bytes", TGauge);
   (segment_disk_capacity, "segment_disk_capacity", TGauge); (replay_bytes, "replay_bytes_total", TCounter);
   (replay_matches, "replay_matches_total", TCounter); (replay_active, "replay_active", TGauge);
   (pattern_generation, "pattern_generation", TGauge); (cpu_available, "cpu_available", TGauge);
   (cpu_budget, "cpu_budget", TGauge); (tokio_workers, "tokio_workers", TGauge);
   (flow_workers, "flow_workers", TGauge); (l7_workers, "l7_workers", TGauge);
   (matcher_workers, "matcher_workers", TGauge); (replay_workers, "replay_workers", TGauge)]%string.

(** [u64::to_string]. *)
Fixpoint decimal_width (fuel w : nat) (n : Z) : nat :=
  match fuel with O => w | S fuel => if n <? 10 ^ Z.of_nat w then w else decimal_width fuel (S w) n end.

Definition to_string (n : Z) : list Z := decimal (decimal_width 19 1 n) n.

Definition metric_lines (name : string) (value : Z) (type : MetricType) : list Z :=
  text "# TYPE bazalt_" ++ text name ++ text " " ++ text (type_name type) ++ [10] ++
  text "bazalt_" ++ text name ++ text " " ++ to_string value ++ [10].

(** [s] is what the snapshot loads, [m] what the fields of the pressure are when
    they are loaded again. *)
Definition prometheus (s : Metrics) (m : Metric -> Metrics) : list Z :=
  concat (map (fun e => metric_lines e.1.2 (s e.1.1) e.2) exposed) ++
  metric_lines "live_pressure_pct" (live_pressure_pct m) TGauge.

(** ** The files of the system (resources.rs) *)

Definition starts_ws (s : list Z) : bool := match s with c :: _ => is_whitespace c | [] => true end.

(** [split_whitespace]: the runs of other characters. *)
Fixpoint split_whitespace (s : list Z) : list (list Z) :=
  match s with
  | [] => []
  | c :: s =>
      if is_whitespace c then split_whitespace s
      else if starts_ws s then [c] :: split_whitespace s
      else match split_whitespace s with w :: ws => (c :: w) :: ws | [] => [[c]] end
  end.

(** [str::lines]: a line ends at a line feed, with a carriage return before it or
    not; nothing follows the last line feed. *)
Definition strip_cr (s : list Z) : list Z :=
  match rev s with c :: r => if c =? 13 then rev r else s | [] => s end.

Definition lines (s : list Z) : list (list Z) :=
  let pieces := split_on 10 s in
  let ended := map strip_cr (removelast pieces) in
  match List.last pieces [] with [] => ended | l => ended ++ [l] end.

Definition parse_u64 (s : list Z) : option Z := match from_str_radix 10 s with Ok n => Some n | Err => None end.

Definition parse_kib_line (line prefix : list Z) : option Z :=
  rest ← strip_prefix prefix line;
  word ← head (split_whitespace rest);
  value ← parse_u64 word;
  Some (Z.min (value * 1024) u64_MAX).

(** What follows the last [c]. *)
Fixpoint after_last (c : Z) (s : list Z) : option (list Z) :=
  match s with
  | [] => None
  | x :: s => match after_last c s with Some r => Some r | None => if x =? c then Some s else None end
  end.

Definition parse_proc_stat (stat : list Z) : option (Z * Z) :=
  rest ← after_last 41 stat;
  let fields := split_whitespace rest in
  utime ← (w ← fields !! 11%nat; parse_u64 w);
  stime ← (w ← fields !! 12%nat; parse_u64 w);
  starttime ← (w ← fields !! 19%nat; parse_u64 w);
  Some (Z.min (utime + stime) u64_MAX, starttime).

Section Cgroup.
(** [fs::read_to_string]. *)
Context (read_to_string : list Z -> option (list Z)).

(** [Path::join]. *)
Definition path_join (a b : list Z) : list Z :=
  if bool_decide (head b = Some 47) then b else if List.last a 47 =? 47 then a ++ b else a ++ 47 :: b.

Fixpoint trim_start_matches (c : Z) (s : list Z) : list Z :=
  match s with x :: s' => if x =? c then trim_start_matches c s' else s | [] => [] end.

Definition cgroup_candidates (root path : list Z) : list (list Z) :=
  [path_join root (trim_start_matches 47 path); root].

Definition read_u64 (path : list Z) : option Z := raw ← read_to_string path; parse_u64 (trim raw).

Definition read_limit (path : list Z) : option Z :=
  raw ← read_to_string path; let raw := trim raw in if bool_decide (raw = text "max") then None else parse_u64 raw.

(** [splitn(3, ':')] where there are three parts. *)
Definition hierarchy_line (line : list Z) : option (list Z * list Z * list Z) :=
  '(hierarchy, rest) ← split_once 58 line; '(controllers, path) ← split_once 58 rest; Some (hierarchy, controllers, path).

Fixpoint find_map {A B} (f : A -> option B) (l : list A) : option B :=
  match l with [] => None | x :: l => match f x with Some y => Some y | None => find_map f l end end.

Definition memory_at (current limit : string) (base : list Z) : option (Z * Z) :=
  match read_u64 (path_join base (text current)), read_limit (path_join base (text limit)) with
  | Some c, Some l => Some (c, l)
  | _, _ => None
  end.

Definition unified_path (line : list Z) : option (list Z) :=
  '(hierarchy, controllers, path) ← hierarchy_line line;
  if bool_decide (hierarchy = text "0") && is_empty controllers then Some path else None.

Definition memory_path (line : list Z) : option (list Z) :=
  '(_, controllers, path) ← hierarchy_line line;
  if existsb (fun c => bool_decide (c = text "memory")) (split_on 44 controllers) then Some path else None.

Definition cgroup_memory : option (Z * Z) :=
  cgroups ← read_to_string (text "/proc/self/cgroup");
  let v2 := path ← find_map unified_path (lines cgroups);
            find_map (memory_at "memory.current" "memory.max") (cgroup_candidates (text "/sys/fs/cgroup") path) in
  match v2 with
  | Some r => Some r
  | None =>
      path ← find_map memory_path (lines cgroups);
      find_map (fun root => find_map (memory_at "memory.usage_in_bytes" "memory.limit_in_bytes") (cgroup_candidates root path))
        [text "/sys/fs/cgroup/memory"; text "/sys/fs/cgroup"]
  end.

(** The whole numbers of a [ResourceSnapshot]. *)
Record ResourceSnapshot := {
  process_rss_bytes : Z;
  process_virtual_bytes : Z;
  process_threads : Z;
  open_fds : Z;
  logical_cpus : Z;
  host_memory_total_bytes : Z;
  host_memory_available_bytes : Z;
  memory_scope_used_bytes : Z;
  memory_scope_limit_bytes : Z;
  memory_scope : string
}.

(** The last line of each kind counts. *)
Definition status_line (s : Z * Z * Z) (line : list Z) : Z * Z * Z :=
  let '(rss, size, threads) := s in
  match parse_kib_line line (text "VmRSS:") with
  | Some v => (v, size, threads)
  | None =>
      match parse_kib_line line (text "VmSize:") with
      | Some v => (rss, v, threads)
      | None =>
          match strip_prefix (text "Threads:") line with
          | Some v => (rss, size, default 0 (parse_u64 (trim v)))
          | None => s
          end
      end
  end.

Definition meminfo_line (s : Z * Z) (line : list Z) : Z * Z :=
  match parse_kib_line line (text "MemTotal:") with
  | Some v => (v, s.2)
  | None => match parse_kib_line line (text "MemAvailable:") with Some v => (s.1, v) | None => s end
  end.

Definition read_lines {S} (f : S -> list Z -> S) (path : string) (s : S) : S :=
  match read_to_string (text path) with Some content => fold_left f (lines content) s | None => s end.

Definition resource_snapshot (fds cpus : Z) : ResourceSnapshot :=
  let '(rss, size, threads) := read_lines status_line "/proc/self/status" (0, 0, 0) in
  let '(total, available) := read_lines meminfo_line "/proc/meminfo" (0, 0) in
  let '(used, limit, scope) :=
    match cgroup_memory with
    | Some (current, limit) =>
        if (0 <? limit) && ((total =? 0) || (limit <? total)) then (current, limit, "cgroup"%string)
        else (Z.max (total - available) 0, total, "host"%string)
    | None => (Z.max (total - available) 0, total, "host"%string)
    end in
  {| process_rss_bytes := rss; process_virtual_bytes := size; process_threads := threads; open_fds := fds;
     logical_cpus := cpus; host_memory_total_bytes := total; host_memory_available_bytes := available;
     memory_scope_used_bytes := used; memory_scope_limit_bytes := limit; memory_scope := scope |}.
End Cgroup.

(** * What the numbers mean *)

(** ** The depth of a queue *)

Section Gauge.
Context (depth high : Metric) (capacity senders receivers : Z).

(** A queue with its gauge: a thread counts a message after it has sent it or
    taken it, so each may be one message behind. *)
Record Gauge := { g_queued : Z; g_sent : Z; g_taken : Z; g_metrics : Metrics }.

Inductive gauge_step : Gauge -> Gauge -> Prop :=
  | step_send g :
      g_queued g < capacity -> g_sent g < senders ->
      gauge_step g {| g_queued := g_queued g + 1; g_sent := g_sent g + 1; g_taken := g_taken g; g_metrics := g_metrics g |}
  | step_count g :
      0 < g_sent g ->
      gauge_step g {| g_queued := g_queued g; g_sent := g_sent g - 1; g_taken := g_taken g;
                      g_metrics := (queue_enqueued depth high (g_metrics g)).2 |}
  | step_receive g :
      0 < g_queued g -> g_taken g < receivers ->
      gauge_step g {| g_queued := g_queued g - 1; g_sent := g_sent g; g_taken := g_taken g + 1; g_metrics := g_metrics g |}
  | step_uncount g :
      0 < g_taken g ->
      gauge_step g {| g_queued := g_queued g; g_sent := g_sent g; g_taken := g_taken g - 1;
                      g_metrics := queue_dequeued depth (g_metrics g) |}.

Definition idle (m : Metrics) : Gauge := {| g_queued := 0; g_sent := 0; g_taken := 0; g_metrics := m |}.

Lemma store_same m f v : store m f v f = v.
Proof. unfold store. by rewrite decide_True. Qed.

Lemma store_other m f g v : g <> f -> store m f v g = m g.
Proof. intros H. unfold store. by rewrite decide_False. Qed.

Lemma enqueued_depth m : depth <> high -> (queue_enqueued depth high m).2 depth = wrap 64 (m depth + 1).
Proof. intros. unfold queue_enqueued. simpl. by rewrite store_other, store_same. Qed.

Lemma enqueued_high m : depth <> high ->
  (queue_enqueued depth high m).2 high = Z.max (m high) (Z.min (m depth + 1) u64_MAX).
Proof. intros. unfold queue_enqueued. simpl. by rewrite store_same, store_other by done. Qed.

Lemma dequeued_depth m : queue_dequeued depth m depth = Z.max (m depth - 1) 0.
Proof. apply store_same. Qed.

Lemma dequeued_high m : depth <> high -> queue_dequeued depth m high = m high.
Proof. intros. by apply store_other. Qed.

Record gauge_ok (g : Gauge) : Prop := {
  go_queue : 0 <= g_queued g <= capacity;
  go_sent : 0 <= g_sent g <= senders;
  go_taken : 0 <= g_taken g <= receivers;
  go_depth : 0 <= g_metrics g depth;
  go_behind : g_queued g + g_taken g - g_sent g <= g_metrics g depth <= g_queued g + g_taken g - g_sent g + senders;
  go_high : g_metrics g depth <= g_metrics g high
}.

Lemma gauge_step_ok g g' : depth <> high -> capacity + senders + receivers <= u64_MAX ->
  gauge_step g g' -> gauge_ok g -> gauge_ok g'.
Proof.
  intros Hne Hmax Hs []. destruct Hs; split; cbn [g_queued g_sent g_taken g_metrics];
    rewrite ?enqueued_depth, ?enqueued_high, ?dequeued_depth, ?dequeued_high by done;
    try (rewrite wrap_small by (unfold u64_MAX in *; lia)); lia.
Qed.

(** C38. The depth of a queue follows the queue.  Senders and receivers count a message
    after they have sent or taken it, in any interleaving; the depth is never below
    the messages in the queue, less those sent but not counted, plus those taken
    but not subtracted, and above that by at most the number of sending threads: a
    subtraction that comes before the addition it belongs to stops at zero.  The
    high-water mark is at least the depth. *)
Theorem depth_follows_queue m g :
  depth <> high -> 0 <= capacity -> 0 <= senders -> 0 <= receivers -> capacity + senders + receivers <= u64_MAX ->
  m depth = 0 -> 0 <= m high -> rtc gauge_step (idle m) g ->
  let actual := g_queued g + g_taken g - g_sent g in
  actual <= g_metrics g depth <= actual + senders /\ g_metrics g depth <= g_metrics g high.
Proof.
  intros Hne Hc Hs Hr Hmax Hd Hh Hrun. assert (gauge_ok g) as []; [|lia].
  assert (gauge_ok (idle m)) as H0 by (split; simpl; lia). clear Hd Hh.
  induction Hrun as [g|g1 g2 g3 Hst _ IH]; [done|]. by apply IH, gauge_step_ok with g1.
Qed.
End Gauge.

Lemma depth_follows_queue_witness :
  let g := {| g_queued := 0; g_sent := 1; g_taken := 1; g_metrics := Metrics_default |} in
  0 <= g_metrics g flow_queue_depth <= 2 /\ g_metrics g flow_queue_depth <= g_metrics g flow_queue_high_watermark.
Proof.
  apply (depth_follows_queue flow_queue_depth flow_queue_high_watermark 8 2 2 Metrics_default
           {| g_queued := 0; g_sent := 1; g_taken := 1; g_metrics := Metrics_default |}); try done.
  eapply rtc_l; [by apply step_send|]. eapply rtc_l; [by apply step_receive|]. apply rtc_refl.
Defined.

(** A receiver faster than the sender's counting leaves one too many behind: the
    queue is idle and its depth is one. *)
Example idle_depth_of_one :
  exists m, rtc (gauge_step flow_queue_depth flow_queue_high_watermark 8 2 2) (idle Metrics_default) (idle m) /\
    m flow_queue_depth = 1.
Proof.
  eexists. split; [|]. 2: shelve. eapply rtc_l; [by apply step_send|]. eapply rtc_l; [by apply step_receive|].
  eapply rtc_l; [by apply step_uncount|]. eapply rtc_l; [by apply step_count|]. apply rtc_refl.
  Unshelve. vm_compute. reflexivity.
Qed.

(** ** Pressure *)

Lemma fold_max_spec l x p : p <= fold_left Z.max l x <-> exists y, y ∈ x :: l /\ p <= y.
Proof.
  revert x. induction l as [|z l IH]; intros x; simpl.
  - split; [intros; exists x; split; [by left|done]|]. intros (y & Hy & ?). by apply list_elem_of_singleton in Hy as ->.
  - rewrite IH. split.
    + intros (y & Hy & Hp). apply elem_of_cons in Hy as [->|Hy]; [|exists y; split; [by do 2 right|done]].
      destruct (Z.max_spec x z) as [[_ E]|[_ E]]; rewrite E in Hp; [exists z|exists x]; (split; [|done]); [by right; left|by left].
    + intros (y & Hy & Hp). rewrite !elem_of_cons in Hy. destruct Hy as [->|[->|Hy]];
        [exists (Z.max x z)|exists (Z.max x z)|exists y]; (split; [|lia]); [by left|by left|by right].
Qed.

(** The replay waits for [pct] percent: exactly when one of the queues is that full. *)
Lemma live_pressure_spec m pct : 0 < pct ->
  pct <= live_pressure_pct m <->
  exists p, p ∈ pressure_pairs /\ 0 < m p.2 p.2 /\ pct <= Z.min (m p.1 p.1 * 100) u64_MAX / m p.2 p.2.
Proof.
  intros Hp. unfold live_pressure_pct.
  set (full := fun p : Z * Z => Z.min (p.1 * 100) u64_MAX / p.2).
  set (read := fun p : Metric * Metric => (m p.1 p.1, m p.2 p.2)).
  assert (forall l : list (Metric * Metric),
    pct <= match map full (List.filter (fun p => 0 <? p.2) (map read l)) with [] => 0 | x :: l => fold_left Z.max l x end <->
    exists y, y ∈ map full (List.filter (fun p => 0 <? p.2) (map read l)) /\ pct <= y) as H.
  { intros l. destruct (map full _) as [|x l']; [|apply fold_max_spec].
    split; [lia|]. intros (y & Hy & _). by apply not_elem_of_nil in Hy. }
  rewrite H. split.
  - intros (y & Hy & Hy'). apply list_elem_of_In, in_map_iff in Hy as (q & <- & Hq). apply filter_In in Hq as [Hq Hc].
    apply in_map_iff in Hq as (p & <- & Hin). exists p. split; [by apply list_elem_of_In|].
    apply Z.ltb_lt in Hc. by split.
  - intros (p & Hin & Hc & Hpct). exists (full (read p)). split; [|done]. apply list_elem_of_In, in_map_iff.
    exists (read p). split; [done|]. apply filter_In. split; [by apply in_map, list_elem_of_In|]. by apply Z.ltb_lt.
Qed.

(** ** The text of [/metrics] read back *)

(** A sample line of the exposition format: the name and the value. *)
Definition sample (line : list Z) : option (list Z * Z) :=
  if bool_decide (head line = Some 35) then None
  else '(name, value) ← split_once 32 line; v ← parse_u64 value; Some (name, v).

Definition samples (content : list Z) : list (list Z * Z) := omap sample (lines content).

Lemma split_on_line sep l t : sep ∉ l -> split_on sep (l ++ sep :: t) = l :: split_on sep t.
Proof.
  induction l as [|c l IH]; intros Hn; simpl; [by rewrite Z.eqb_refl|].
  apply not_elem_of_cons in Hn as [Hc Hl]. rewrite (proj2 (Z.eqb_neq c sep)) by done. by rewrite IH.
Qed.

Lemma lines_line l t : 10 ∉ l -> strip_cr l = l -> lines (l ++ 10 :: t) = l :: lines t.
Proof.
  intros Hn Hr. unfold lines. rewrite split_on_line by done. destruct (split_on 10 t) as [|p ps] eqn:E.
  { by apply split_on_nonempty in E. }
  change (removelast (l :: p :: ps)) with (l :: removelast (p :: ps)). cbn [map]. rewrite Hr.
  change (List.last (l :: p :: ps) []) with (List.last (p :: ps) []). by destruct (List.last (p :: ps) []).
Qed.

Lemma strip_cr_none l : 13 ∉ l -> strip_cr l = l.
Proof.
  intros Hn. unfold strip_cr. destruct (rev l) as [|c r] eqn:E; [done|].
  destruct (Z.eqb_spec c 13) as [->|]; [|done]. exfalso. apply Hn. rewrite list_elem_of_In, in_rev, E. by left.
Qed.

Lemma decimal_width_fits fuel w n : n < 10 ^ Z.of_nat (w + fuel) -> n < 10 ^ Z.of_nat (decimal_width fuel w n).
Proof.
  revert w. induction fuel as [|fuel IH]; intros w Hn; simpl; [by rewrite Nat.add_0_r in Hn|].
  destruct (Z.ltb_spec n (10 ^ Z.of_nat w)); [done|]. apply IH. by rewrite Nat.add_succ_r in Hn.
Qed.

Lemma decimal_width_from fuel w n : (w <= decimal_width fuel w n)%nat.
Proof. revert w. induction fuel as [|fuel IH]; intros w; simpl; [done|]. case_match; [done|]. specialize (IH (S w)). lia. Qed.

Lemma to_string_reads n : 0 <= n <= u64_MAX -> parse_u64 (to_string n) = Some n.
Proof.
  intros Hn. unfold to_string. set (w := decimal_width 19 1 n).
  assert (n < 10 ^ Z.of_nat w) as Hw by (apply decimal_width_fits; unfold u64_MAX in Hn; lia).
  pose proof (digits_decimal w n Hn Hw) as Hd. pose proof (decimal_codes w n) as Hc.
  assert (decimal w n <> []) as Hne.
  { pose proof (decimal_width_from 19 1 n) as H1. fold w in H1. destruct w as [|w']; [lia|].
    intros [_ E]%app_nil. done. }
  unfold parse_u64, from_str_radix. destruct (decimal w n) as [|c l]; [done|]. apply Forall_cons in Hc as [Hc _].
  rewrite (proj2 (Z.eqb_neq c 43)) by lia. by rewrite Hd.
Qed.

(** The characters of a metric's name and type. *)
Definition plain_name (s : list Z) : Prop := Forall (fun c => 35 < c) s.

Lemma plain_not_in s c : plain_name s -> c <= 35 -> c ∉ s.
Proof. intros Hs Hc Hin. unfold plain_name in Hs. rewrite Forall_forall in Hs. apply Hs in Hin. lia. Qed.

Lemma to_string_codes n : Forall (fun c => 48 <= c <= 57) (to_string n).
Proof. apply decimal_codes. Qed.

Lemma samples_cons l t : 10 ∉ l -> 13 ∉ l -> samples (l ++ 10 :: t) = match sample l with Some x => x :: samples t | None => samples t end.
Proof. intros Hn Hr. unfold samples. rewrite lines_line by (done || by apply strip_cr_none). done. Qed.

Lemma sample_value name v : plain_name name -> name <> [] -> 0 <= v <= u64_MAX ->
  sample (name ++ 32 :: to_string v) = Some (name, v).
Proof.
  intros Hp Hne Hv. unfold sample. destruct name as [|c name]; [done|]. rewrite bool_decide_eq_false_2.
  - rewrite split_once_at by (by apply plain_not_in). cbn [mbind option_bind]. by rewrite to_string_reads.
  - cbn. intros [= ->]. by apply (plain_not_in _ 35 Hp); [|left].
Qed.

Lemma metric_lines_samples name v type t : plain_name (text name) -> 0 <= v <= u64_MAX ->
  samples (metric_lines name v type ++ t) = (text "bazalt_" ++ text name, v) :: samples t.
Proof.
  intros Hp Hv. unfold metric_lines.
  set (line1 := text "# TYPE bazalt_" ++ text name ++ text " " ++ text (type_name type)).
  set (line2 := (text "bazalt_" ++ text name) ++ (32 :: to_string v)).
  replace (_ ++ t) with (line1 ++ 10 :: (line2 ++ 10 :: t)) by (unfold line1, line2; by rewrite <- !app_assoc).
  assert (forall c, c = 10 \/ c = 13 -> c ∉ text name) as Hname by (intros c Hc; apply plain_not_in; [done|lia]).
  assert (forall c, c = 10 \/ c = 13 -> c ∉ to_string v) as Hval.
  { intros c Hc Hin. pose proof (to_string_codes v) as Hf. rewrite Forall_forall in Hf. apply Hf in Hin. lia. }
  assert (forall c, (c = 10 \/ c = 13) -> (c ∉ line1) /\ (c ∉ line2)) as Hlines.
  { intros c Hc. unfold line1, line2. rewrite !not_elem_of_app, not_elem_of_cons.
    assert (forall s, forallb (fun x => negb (x =? c)) (text s) = true -> c ∉ text s) as Hlit.
    { intros s Hs Hin. rewrite forallb_forall in Hs. apply list_elem_of_In, Hs in Hin. by rewrite Z.eqb_refl in Hin. }
    split_and!; try (by apply Hname); try (by apply Hval); try (apply Hlit; destruct Hc as [-> | ->]; by destruct type);
      destruct Hc; lia. }
  rewrite samples_cons by (apply Hlines; auto). change (sample line1) with (@None (list Z * Z)). cbn iota.
  rewrite samples_cons by (apply Hlines; auto). unfold line2.
  rewrite sample_value; [done| |done|done]. unfold plain_name in *. apply Forall_app. split; [by repeat constructor|done].
Qed.

Lemma exposed_samples (l : list (Metric * string * MetricType)) (s : Metrics) t :
  (forall f, 0 <= s f <= u64_MAX) -> Forall (fun e => plain_name (text e.1.2)) l ->
  samples (concat (map (fun e => metric_lines e.1.2 (s e.1.1) e.2) l) ++ t) =
  map (fun e => (text "bazalt_" ++ text e.1.2, s e.1.1)) l ++ samples t.
Proof.
  intros Hs. induction 1 as [|e l He Hl IH]; [done|]. cbn [map concat]. rewrite <- app_assoc, metric_lines_samples by done.
  by rewrite IH.
Qed.

Lemma pressure_range m : (forall f g, 0 <= m f g <= u64_MAX) -> 0 <= live_pressure_pct m <= u64_MAX.
Proof.
  intros Hm. split.
  - unfold live_pressure_pct. destruct (map _ (List.filter _ _)) as [|x l] eqn:E; [done|]. apply fold_max_spec.
    exists x. split; [by left|]. assert (In x (x :: l)) as Hx by (by left). rewrite <- E in Hx.
    apply in_map_iff in Hx as (q & <- & Hq). apply filter_In in Hq as [Hq Hc]. apply Z.ltb_lt in Hc.
    apply in_map_iff in Hq as (p & <- & _). destruct p as [d c]. cbn [fst snd] in *. pose proof (Hm d d) as Hd. apply Z.div_pos; [apply Z.min_glb; lia|done].
  - destruct (Z.le_gt_cases (live_pressure_pct m) u64_MAX) as [|Hgt]; [done|].
    destruct (proj1 (live_pressure_spec m (u64_MAX + 1) eq_refl)) as (p & _ & Hc & Hp); [lia|].
    pose proof (Z.le_min_r (m p.1 p.1 * 100) u64_MAX) as Hmin. assert (0 < u64_MAX) by done.
    assert (u64_MAX <= m p.2 p.2 * u64_MAX) by nia.
    pose proof (Z.div_le_upper_bound _ _ u64_MAX Hc (Z.le_trans _ _ _ Hmin H0)). lia.
Qed.

(** The text of [/metrics] reads back.  A reader of the exposition format, which
    passes over comments and takes a name and a number from every other line, finds
    each field of the snapshot under its name, in order, and the pressure last; no
    name appears twice, and all fields are there but the rejections by source prefix
    and the time of the last progress. *)
Theorem exposition_reads_back s m :
  (forall f, 0 <= s f <= u64_MAX) -> (forall f g, 0 <= m f g <= u64_MAX) ->
  samples (prometheus s m) =
    map (fun e => (text "bazalt_" ++ text e.1.2, s e.1.1)) exposed ++
    [(text "bazalt_" ++ text "live_pressure_pct", live_pressure_pct m)] /\
  NoDup (map fst (samples (prometheus s m))) /\
  (forall f, f ∈ map (fun e => e.1.1) exposed <-> f <> flow_prefix_rejections /\ f <> pipeline_last_progress_ns).
Proof.
  intros Hs Hm. assert (samples (prometheus s m) =
    map (fun e => (text "bazalt_" ++ text e.1.2, s e.1.1)) exposed ++
    [(text "bazalt_" ++ text "live_pressure_pct", live_pressure_pct m)]) as E.
  { unfold prometheus. rewrite exposed_samples by (done || (apply (bool_decide_unpack _); vm_compute; exact I)).
    f_equal. rewrite <- (app_nil_r (metric_lines _ _ _)). rewrite metric_lines_samples; [done| |by apply pressure_range].
    apply (bool_decide_unpack _); vm_compute; exact I. }
  split; [done|]. split.
  - rewrite E, map_app, map_map. cbn [map fst]. apply (bool_decide_unpack _). vm_compute. exact I.
  - intros f. destruct f; split; intros H; try done; try (by destruct H as [? ?]).
    all: try (apply (bool_decide_unpack _); vm_compute; exact I).
    all: exfalso; revert H; apply (bool_decide_unpack _); vm_compute; exact I.
Qed.

Definition full_metrics : Metrics := fun _ => 7.

Lemma exposition_reads_back_witness :
  samples (prometheus full_metrics (fun _ => full_metrics)) =
    map (fun e => (text "bazalt_" ++ text e.1.2, full_metrics e.1.1)) exposed ++
    [(text "bazalt_" ++ text "live_pressure_pct", live_pressure_pct (fun _ => full_metrics))] /\
  NoDup (map fst (samples (prometheus full_metrics (fun _ => full_metrics)))) /\
  (forall f, f ∈ map (fun e => e.1.1) exposed <-> f <> flow_prefix_rejections /\ f <> pipeline_last_progress_ns).
Proof. apply exposition_reads_back; intros; unfold full_metrics, u64_MAX; lia. Defined.

(** ** The line of [/proc/self/stat] *)

(** A field: characters that are not white space, and no closing parenthesis. *)
Definition field (w : list Z) : Prop := w <> [] /\ Forall (fun c => is_whitespace c = false /\ c <> 41) w.

Lemma after_last_spec c front rest : c ∉ rest -> after_last c (front ++ c :: rest) = Some rest.
Proof.
  intros Hn. assert (after_last c rest = None) as E.
  { induction rest as [|x rest IH]; [done|]. apply not_elem_of_cons in Hn as [Hx Hr]. simpl. rewrite IH by done.
    by rewrite (proj2 (Z.eqb_neq x c)). }
  induction front as [|x front IH]; simpl; [by rewrite E, Z.eqb_refl|]. by rewrite IH.
Qed.

Lemma split_whitespace_word w rest : field w -> starts_ws rest = true ->
  split_whitespace (w ++ rest) = w :: split_whitespace rest.
Proof.
  intros [Hne Hw] Hr. induction Hw as [|c w [Hc _] Hw IH]; [done|]. cbn [app split_whitespace]. rewrite Hc.
  destruct w as [|d w]; [cbn [app]; by rewrite Hr|]. apply Forall_cons in Hw as [[Hd Hd'] Hw']. cbn [app starts_ws].
  rewrite Hd. change (d :: w ++ rest) with ((d :: w) ++ rest). by rewrite IH.
Qed.

(** The fields, each after a space. *)
Definition spaced (fields : list (list Z)) : list Z := concat (map (cons 32) fields).

Lemma split_whitespace_spaced fields : Forall field fields -> split_whitespace (spaced fields) = fields.
Proof.
  induction 1 as [|w fields Hw Hf IH]; [done|]. unfold spaced. cbn [map concat].
  change (split_whitespace ((32 :: w) ++ ?r)) with (split_whitespace (w ++ r)).
  rewrite split_whitespace_word; [by f_equal|done|]. by destruct fields.
Qed.

Lemma spaced_no_paren fields : Forall field fields -> 41 ∉ spaced fields.
Proof.
  induction 1 as [|w fields [_ Hw] Hf IH]; [apply not_elem_of_nil|]. unfold spaced. cbn [map concat app].
  rewrite not_elem_of_cons, not_elem_of_app. split; [done|]. split; [|done].
  rewrite Forall_forall in Hw. by intros [_ ?]%Hw.
Qed.

(** Whatever the name of the process, with spaces and parentheses or not, the
    times are read from their fields. *)
Lemma proc_stat_reads_back front fields utime stime start :
  Forall field fields -> 0 <= utime <= u64_MAX -> 0 <= stime <= u64_MAX -> 0 <= start <= u64_MAX ->
  fields !! 11%nat = Some (to_string utime) -> fields !! 12%nat = Some (to_string stime) ->
  fields !! 19%nat = Some (to_string start) ->
  parse_proc_stat (front ++ 41 :: spaced fields) = Some (Z.min (utime + stime) u64_MAX, start).
Proof.
  intros Hf Hu Hs Ht H11 H12 H19. unfold parse_proc_stat. rewrite after_last_spec by (by apply spaced_no_paren).
  cbn [mbind option_bind]. rewrite split_whitespace_spaced, H11, H12, H19 by done. cbn [mbind option_bind].
  by rewrite !to_string_reads.
Qed.

(** The memory shown is never scoped past the host's, where that is known. *)
Lemma memory_scope_bounded read fds cpus :
  let s := resource_snapshot read fds cpus in
  0 < host_memory_total_bytes s -> memory_scope_limit_bytes s <= host_memory_total_bytes s.
Proof.
  unfold resource_snapshot. destruct (read_lines _ status_line _ _) as [[rss size] threads].
  destruct (read_lines _ meminfo_line _ _) as [total available]. destruct (cgroup_memory read) as [[c l]|]; cbn; [|lia].
  destruct (_ && _) eqn:E; cbn; [|lia]. reflect_bools. destruct H0; lia.
Qed.

(** A container of one gibibyte on a host of sixteen. *)
Definition container_files (path : list Z) : option (list Z) :=
  option_map snd (List.find (fun e => bool_decide (e.1 = path)) (map (fun e => (text e.1, text e.2 ++ [10]))
    [("/proc/self/status", "VmRSS:	 1234 kB"); ("/proc/meminfo", "MemTotal: 16777216 kB");
     ("/proc/self/cgroup", "0::/docker/ab"); ("/sys/fs/cgroup/memory.current", "4096");
     ("/sys/fs/cgroup/memory.max", "1073741824")]%string)).

Example container_memory :
  let s := resource_snapshot container_files 9 4 in
  (process_rss_bytes s, host_memory_total_bytes s, memory_scope_used_bytes s, memory_scope_limit_bytes s, memory_scope s) =
  (1263616, 17179869184, 4096, 1073741824, "cgroup"%string).
Proof. vm_compute. reflexivity. Qed.

(** ** Progress *)

(** One live worker hides any number that stand still: the process is stale only
    when nobody has made progress. *)
Lemma progress_hides_the_others now later timeout m :
  0 < now -> later - now <= timeout -> now <= u64_MAX -> 0 <= timeout -> progress_stale later timeout (touch_progress now m) = false.
Proof.
  intros Hn Hl Hu Ht. unfold progress_stale, touch_progress. rewrite store_same, Z.min_l by done.
  destruct (now =? 0); [done|]. apply Z.ltb_ge. lia.
Qed.
