(* ===== verification/Affinity.v ===== *)
(** * The CPU plan ([src/src/affinity.rs])

    How the workers of the stages are counted and placed on the CPUs the process
    may use.  The affinity mask and [available_parallelism] are arguments. *)

From stdpp Require Import list.
From S2P Require Import Prelude Text.

Record CpuPlan := {
  allowed : list Z;
  budget : Z;
  plan_capture_cpus : list Z;
  plan_flow_cpus : list Z;
  plan_l7_cpus : list Z;
  plan_matcher_cpus : list Z;
  flow_workers : Z;
  l7_workers : Z;
  matcher_workers : Z;
  replay_workers : Z;
  tokio_workers : Z
}.

(** [0..n]. *)
Definition cpus_below (n : Z) : list Z := seqZ 0 n.

(** [(x).clamp(lo, hi)]. *)
Definition clamp (x lo hi : Z) : Z := Z.min (Z.max x lo) hi.

Definition default_cpu_budget (available : Z) : Z :=
  let available := Z.max available 1 in
  if available <=? 4 then available else clamp ((available * 3 + 3) / 4) 4 available.

(** ** Dividing a number of workers among the stages *)

(** The counts of flow, L7 and matcher. *)
Record Counts := { ct_flow : Z; ct_l7 : Z; ct_matcher : Z }.

Definition count_at (i : nat) (c : Counts) : Z :=
  match i with O => ct_flow c | S O => ct_l7 c | _ => ct_matcher c end.

Definition add_at (i : nat) (n : Z) (c : Counts) : Counts :=
  match i with
  | O => {| ct_flow := ct_flow c + n; ct_l7 := ct_l7 c; ct_matcher := ct_matcher c |}
  | S O => {| ct_flow := ct_flow c; ct_l7 := ct_l7 c + n; ct_matcher := ct_matcher c |}
  | _ => {| ct_flow := ct_flow c; ct_l7 := ct_l7 c; ct_matcher := ct_matcher c + n |}
  end.

Definition counts_sum (c : Counts) : Z := ct_flow c + ct_l7 c + ct_matcher c.

Definition weight (i : nat) : Z := match i with S O => 40 | _ => 30 end.

Definition isize_MIN : Z := - 2 ^ 63.

(** The stage with the largest deficit, the first of equals. *)
Definition most_missing (total : Z) (c : Counts) : nat :=
  fst (fold_left (fun b i =>
    let deficit := weight i * total - count_at i c * 100 in
    if snd b <? deficit then (i, deficit) else b) [0; 1; 2]%nat (0%nat, isize_MIN)).

(** The stage with the largest surplus that has more than one worker. *)
Definition most_surplus (total : Z) (c : Counts) : option nat :=
  fst (fold_left (fun b i =>
    if count_at i c <=? 1 then b
    else
      let surplus := count_at i c * 100 - weight i * total in
      if snd b <? surplus then (Some i, surplus) else b) [0; 1; 2]%nat (None, isize_MIN)).

(** The two loops; [None] when they run out of fuel. *)
Fixpoint grow (fuel : nat) (total : Z) (c : Counts) : option Counts :=
  if counts_sum c <? total then
    match fuel with O => None | S fuel => grow fuel total (add_at (most_missing total c) 1 c) end
  else Some c.

Fixpoint shrink (fuel : nat) (total : Z) (c : Counts) : option Counts :=
  if total <? counts_sum c then
    match most_surplus total c with
    | None => Some c
    | Some i => match fuel with O => None | S fuel => shrink fuel total (add_at i (-1) c) end
    end
  else Some c.

(** Two rounds of the first loop are enough: the shares are rounded down. *)
Definition distribute_stage_workers (total : Z) : option Counts :=
  let total := Z.max total 3 in
  let share i := Z.max (total * weight i / 100) 1 in
  c ← grow 2 total {| ct_flow := share 0%nat; ct_l7 := share 1%nat; ct_matcher := share 2%nat |};
  shrink 0 total c.

(** ** Placing them *)

(** [cpus\[(start + i) % len\]]. *)
Definition cpu_at (cpus : list Z) (i : Z) : Z := default 0 (cpus !! Z.to_nat (i mod blen cpus)).

Definition take_wrapping (cpus : list Z) (start count : Z) : list Z :=
  if is_empty cpus || (count =? 0) then [] else map (fun i => cpu_at cpus (start + i)) (seqZ 0 count).

Section Plan.
(** What the operating system says. *)
Context (allowed_cpus : Result (list Z)) (available_parallelism : option Z).

Definition plan_allowed : list Z :=
  let a := match allowed_cpus with Ok l => l | Err => cpus_below (Z.max (default 1 available_parallelism) 1) end in
  let a := if is_empty a then [0] else a in
  let quota_hint := default (blen a) available_parallelism in
  take (Z.to_nat (Z.min (blen a) (Z.max quota_hint 1))) a.

Definition plan_budget (requested_budget : option Z) : Z :=
  let n := blen plan_allowed in
  Z.max (match requested_budget with
         | Some v => if 0 <? v then Z.min v n else default_cpu_budget n
         | None => default_cpu_budget n
         end) 1.

Definition adaptive_plan (capture_hint : Z) (requested_budget : option Z) : option CpuPlan :=
  let a := plan_allowed in
  let budget := plan_budget requested_budget in
  let cpu_pool := take (Z.to_nat budget) a in
  let tokio_workers := if 8 <=? budget then 2 else 1 in
  let capture_cap := clamp (budget / 4) 1 4 in
  let capture_reserve := if capture_hint =? 0 then 0 else Z.min capture_hint capture_cap in
  let reserved := sat_add capture_reserve tokio_workers in
  let post_budget := sat_sub budget reserved in
  let stage_budget := Z.max post_budget 3 in
  c ← distribute_stage_workers stage_budget;
  let stage_start := Z.min capture_reserve (blen cpu_pool) in
  Some {| allowed := a; budget := budget;
          plan_capture_cpus := take_wrapping cpu_pool 0 (Z.max capture_reserve (b2z (0 <? capture_hint)));
          plan_flow_cpus := take_wrapping cpu_pool stage_start (ct_flow c);
          plan_l7_cpus := take_wrapping cpu_pool (stage_start + ct_flow c) (ct_l7 c);
          plan_matcher_cpus := take_wrapping cpu_pool (stage_start + ct_flow c + ct_l7 c) (ct_matcher c);
          flow_workers := ct_flow c; l7_workers := ct_l7 c; matcher_workers := ct_matcher c;
          replay_workers := if 24 <=? budget then 3 else if 12 <=? budget then 2 else 1;
          tokio_workers := tokio_workers |}.

(** [pin_current], as far as the choice goes. *)
Definition pin_target (requested : Z) : Result Z :=
  match allowed_cpus with
  | Err => Err
  | Ok cpus =>
      if bool_decide (requested ∈ cpus) then Ok requested
      else if is_empty cpus then Err else Ok (cpu_at cpus requested)
  end.
End Plan.

(** * What the plan guarantees *)

Definition fair (total : Z) (c : Counts) : Prop :=
  counts_sum c = total /\ 1 <= ct_flow c /\ 1 <= ct_matcher c /\
  ct_flow c <= ct_l7 c /\ ct_matcher c <= ct_l7 c /\
  100 * ct_l7 c < 40 * total + 200.

Lemma most_missing_cases total c : 3 <= total < 2 ^ 40 -> 0 <= ct_flow c <= total -> 0 <= ct_l7 c <= total ->
  0 <= ct_matcher c <= total ->
  (most_missing total c = 0%nat /\ 40 * total - ct_l7 c * 100 <= 30 * total - ct_flow c * 100 /\
     30 * total - ct_matcher c * 100 <= 30 * total - ct_flow c * 100) \/
  (most_missing total c = 1%nat /\ 30 * total - ct_flow c * 100 < 40 * total - ct_l7 c * 100 /\
     30 * total - ct_matcher c * 100 <= 40 * total - ct_l7 c * 100) \/
  (most_missing total c = 2%nat /\ 40 * total - ct_l7 c * 100 < 30 * total - ct_matcher c * 100 /\
     30 * total - ct_flow c * 100 < 30 * total - ct_matcher c * 100).
Proof.
  intros Ht Hf Hl Hm. unfold most_missing, isize_MIN. cbn [fold_left fst snd count_at weight].
  rewrite (proj2 (Z.ltb_lt (- 2 ^ 63) (30 * total - ct_flow c * 100))) by lia. cbn [fst snd].
  destruct (Z.ltb_spec (30 * total - ct_flow c * 100) (40 * total - ct_l7 c * 100)); cbn [fst snd];
    match goal with |- context [?x <? ?y] => destruct (Z.ltb_spec x y) end; cbn [fst snd]; lia.
Qed.

Lemma distribute_fair total : total < 2 ^ 40 ->
  exists c, distribute_stage_workers total = Some c /\ fair (Z.max total 3) c.
Proof.
  intros Hmax. unfold distribute_stage_workers. set (t := Z.max total 3). assert (3 <= t < 2 ^ 40) as Ht by lia. clearbody t.
  cbv zeta. cbn [weight].
  assert (forall c, fair t c -> shrink 0 t c = Some c) as Hshrink.
  { intros c (Hs & _). simpl. by rewrite (proj2 (Z.ltb_ge _ _)) by lia. }
  set (c0 := Build_Counts _ _ _).
  assert (0 <= t - counts_sum c0 <= 2 /\ 1 <= ct_flow c0 /\ ct_flow c0 = ct_matcher c0 /\ ct_flow c0 <= ct_l7 c0 /\
    40 * t - 100 < 100 * ct_l7 c0 <= Z.max (40 * t) 100 /\ 30 * t - 100 < 100 * ct_flow c0 <= Z.max (30 * t) 100) as H0.
  { unfold c0, counts_sum. cbn [ct_flow ct_l7 ct_matcher].
    pose proof (Z.div_mod (t * 30) 100 ltac:(lia)). pose proof (Z.mod_pos_bound (t * 30) 100 ltac:(lia)).
    pose proof (Z.div_mod (t * 40) 100 ltac:(lia)). pose proof (Z.mod_pos_bound (t * 40) 100 ltac:(lia)). lia. }
  clearbody c0. destruct c0 as [f l m]. unfold counts_sum in H0. simpl in H0.
  assert (exists c, grow 2 t {| ct_flow := f; ct_l7 := l; ct_matcher := m |} = Some c /\ fair t c) as (c & -> & Hc);
    [|exists c; split; [by apply Hshrink|done]].
  cbn [grow]. unfold fair.
  destruct (Z.ltb_spec (counts_sum {| ct_flow := f; ct_l7 := l; ct_matcher := m |}) t) as [E1|E1];
    unfold counts_sum in E1; simpl in E1; [|eexists; split; [done|]; unfold counts_sum; simpl; lia].
  destruct (most_missing_cases t {| ct_flow := f; ct_l7 := l; ct_matcher := m |}) as [(-> & D1 & D2)|[(-> & D1 & D2)|(-> & D1 & D2)]];
    [done|simpl; lia..| | |]; simpl in D1, D2; cbn [add_at ct_flow ct_l7 ct_matcher];
    match goal with |- context [counts_sum ?c <? t] => destruct (Z.ltb_spec (counts_sum c) t) as [E2|E2] end;
    unfold counts_sum in E2; simpl in E2; try (eexists; split; [done|]; unfold counts_sum; simpl; lia).
  all: match goal with |- context [most_missing ?u ?c] =>
         destruct (most_missing_cases u c) as [(-> & F1 & F2)|[(-> & F1 & F2)|(-> & F1 & F2)]];
           [done|simpl; lia..| | |]; simpl in F1, F2; cbn [add_at ct_flow ct_l7 ct_matcher] end.
  all: rewrite (proj2 (Z.ltb_ge _ _)) by (unfold counts_sum; simpl; lia).
  all: eexists; split; [done|]; unfold counts_sum; simpl; lia.
Qed.

(** Inside the list nothing wraps. *)
Lemma take_wrapping_in cpus start count :
  0 <= start -> 0 <= count -> start + count <= blen cpus ->
  take_wrapping cpus start count = take (Z.to_nat count) (drop (Z.to_nat start) cpus).
Proof.
  intros Hs Hc Hle. unfold take_wrapping. destruct (is_empty cpus || (count =? 0)) eqn:E.
  { apply orb_true_iff in E as [->%is_empty_spec|E]; [by rewrite drop_nil, take_nil|].
    apply Z.eqb_eq in E as ->. by rewrite take_0. }
  apply list_eq. intros i. rewrite list_lookup_fmap. destruct (decide (i < Z.to_nat count)%nat) as [Hi|Hi].
  - rewrite lookup_seqZ_lt by lia. simpl. rewrite lookup_take_lt, lookup_drop by lia. unfold cpu_at, blen in *.
    rewrite Z.mod_small by lia. replace (Z.to_nat (start + (0 + Z.of_nat i))) with (Z.to_nat start + i)%nat by lia.
    destruct (lookup_lt_is_Some_2 cpus (Z.to_nat start + i)) as [x ->]; [lia|done].
  - rewrite lookup_seqZ_ge by lia. rewrite lookup_take_ge by lia. done.
Qed.

Lemma take_wrapping_sub cpus start count : take_wrapping cpus start count ⊆ cpus.
Proof.
  unfold take_wrapping. destruct (is_empty cpus || (count =? 0)) eqn:E; [apply list_subseteq_nil|].
  apply orb_false_iff in E as [Hne _]. intros x (i & -> & _)%list_elem_of_fmap. unfold cpu_at.
  assert (cpus <> []) as Hc by (by intros ->). pose proof (blen_pos cpus Hc).
  destruct (lookup_lt_is_Some_2 cpus (Z.to_nat ((start + i) mod blen cpus))) as [y Hy].
  { pose proof (Z.mod_pos_bound (start + i) (blen cpus) ltac:(lia)). unfold blen in *. lia. }
  rewrite Hy. simpl. by eapply list_elem_of_lookup_2.
Qed.

Lemma take_wrapping_length cpus start count : cpus <> [] -> 0 <= count ->
  blen (take_wrapping cpus start count) = count.
Proof.
  intros Hne Hc. unfold take_wrapping. destruct (is_empty cpus) eqn:E; [by apply is_empty_spec in E|]. simpl.
  destruct (Z.eqb_spec count 0) as [->|]; [done|]. unfold blen. rewrite length_map, length_seqZ. lia.
Qed.

(** Consecutive slices. *)
Lemma take_wrapping_app cpus start n m : 0 <= start -> 0 <= n -> 0 <= m -> start + n + m <= blen cpus ->
  take_wrapping cpus start n ++ take_wrapping cpus (start + n) m = take_wrapping cpus start (n + m).
Proof.
  intros. rewrite !take_wrapping_in by lia. rewrite !Z2Nat.inj_add by lia.
  rewrite <-drop_drop. by rewrite take_take_drop.
Qed.

(** The counts of a plan: what is taken before the stages and what they get. *)
Lemma budget_split b hint : 1 <= b -> 0 <= hint ->
  let tokio := if 8 <=? b then 2 else 1 in
  let reserve := if hint =? 0 then 0 else Z.min hint (clamp (b / 4) 1 4) in
  let stage := Z.max (sat_sub b (sat_add reserve tokio)) 3 in
  0 <= reserve <= 4 /\ reserve <= b /\ Z.max reserve (b2z (0 <? hint)) = reserve /\ 3 <= stage /\
  stage <= Z.max b 3 /\ (5 <= b -> reserve + tokio + stage = b).
Proof.
  intros Hb Hh tokio reserve stage. pose proof (Z.div_mod b 4 ltac:(lia)). pose proof (Z.mod_pos_bound b 4 ltac:(lia)).
  assert (1 <= tokio <= 2 /\ (b < 8 -> tokio = 1)) as [Ht Ht1] by (unfold tokio; destruct (Z.leb_spec 8 b); lia).
  assert (0 <= reserve <= 4 /\ (hint = 0 -> reserve = 0) /\ (0 < hint -> 1 <= reserve) /\ (4 <= b -> reserve <= b / 4) /\ (b < 4 -> reserve <= 1)) as Hr.
  { unfold reserve, clamp. destruct (Z.eqb_spec hint 0); lia. }
  assert (stage = Z.max (b - reserve - tokio) 3) as Hst.
  { unfold stage. rewrite sat_add_small by (unfold u64_MAX; lia). unfold sat_sub. lia. }
  clearbody stage reserve tokio. destruct (Z.ltb_spec 0 hint); simpl; lia.
Qed.

Lemma nodup_take {A} n (l : list A) : NoDup l -> NoDup (take n l).
Proof. intros H. by eapply sublist_NoDup; [|apply sublist_take]. Qed.

(** ** What every plan has *)

Definition all_busy (c : Counts) : Prop := 1 <= ct_flow c /\ 1 <= ct_l7 c /\ 1 <= ct_matcher c.

Lemma grow_busy fuel total c c' : all_busy c -> grow fuel total c = Some c' -> all_busy c'.
Proof.
  revert c. induction fuel as [|n IH]; intros c Hc; simpl; case_match; try done; try (by intros [= <-]).
  apply IH. unfold all_busy, add_at in *. destruct (most_missing total c) as [|[|i]]; simpl; lia.
Qed.

Lemma distribute_busy total c : distribute_stage_workers total = Some c -> all_busy c.
Proof.
  unfold distribute_stage_workers. intros H. destruct (grow _ _ _) as [c1|] eqn:E; [|done].
  apply grow_busy in E; [|unfold all_busy; simpl; lia]. cbn [mbind option_bind] in H. unfold shrink in H.
  repeat case_match; by simplify_eq.
Qed.

(** No stage of a plan is without a worker. *)
Definition all_at_work (p : CpuPlan) : Prop :=
  1 <= flow_workers p /\ 1 <= l7_workers p /\ 1 <= matcher_workers p /\ 1 <= replay_workers p /\
  1 <= tokio_workers p <= 2.

Lemma plan_busy allowed_cpus available_parallelism capture_hint requested p :
  adaptive_plan allowed_cpus available_parallelism capture_hint requested = Some p -> all_at_work p.
Proof.
  unfold adaptive_plan. cbv zeta. intros H. destruct (distribute_stage_workers _) as [c|] eqn:E; [|done].
  apply distribute_busy in E as (? & ? & ?). injection H as <-. unfold all_at_work. simpl.
  repeat case_match; lia.
Qed.

Section Fits.
Context (allowed_cpus : Result (list Z)) (available_parallelism : option Z).

Lemma plan_allowed_nonempty : plan_allowed allowed_cpus available_parallelism <> [].
Proof.
  unfold plan_allowed. set (a := if is_empty _ then _ else _). assert (a <> []) as Ha.
  { unfold a. destruct (is_empty _) eqn:E; [done|]. intros E2. by rewrite E2 in E. }
  clearbody a. pose proof (blen_pos a Ha). intros E%(f_equal length). rewrite length_take in E. unfold blen in *. simpl in E. lia.
Qed.

Lemma plan_budget_bounds r :
  1 <= plan_budget allowed_cpus available_parallelism r <= blen (plan_allowed allowed_cpus available_parallelism).
Proof.
  pose proof (blen_pos _ plan_allowed_nonempty) as Hn. unfold plan_budget.
  set (n := blen (plan_allowed allowed_cpus available_parallelism)) in *. clearbody n.
  assert (default_cpu_budget n <= n) as Hd.
  { unfold default_cpu_budget, clamp. destruct (_ <=? 4); lia. }
  destruct r as [v|]; [destruct (0 <? v)|]; lia.
Qed.

Lemma cpus_nodup : (forall l, allowed_cpus = Ok l -> NoDup l) -> NoDup (plan_allowed allowed_cpus available_parallelism).
Proof.
  intros Hl. unfold plan_allowed. apply nodup_take. destruct (is_empty _); [apply NoDup_singleton|].
  destruct allowed_cpus; [by apply Hl|]. apply NoDup_seqZ.
Qed.

(** The plan fits the machine.  Whatever the operating system reports and
    whatever budget is asked for, there is a plan; its budget is at least one CPU and
    at most the CPUs the process may use; every stage has a worker, the L7 stage as
    many as any other; every stage has a CPU of the budget for each of its workers.
    From five CPUs on, capture, control plane and stages together use exactly
    the budget, and no two of the planned workers share a CPU. *)
Theorem plan_fits capture_hint requested :
  0 <= capture_hint -> blen (plan_allowed allowed_cpus available_parallelism) < 2 ^ 40 ->
  (forall l, allowed_cpus = Ok l -> NoDup l) ->
  exists p, adaptive_plan allowed_cpus available_parallelism capture_hint requested = Some p /\
    1 <= budget p <= blen (allowed p) /\ 1 <= tokio_workers p /\ 1 <= replay_workers p /\
    1 <= flow_workers p <= l7_workers p /\ 1 <= matcher_workers p <= l7_workers p /\
    (let pool := take (Z.to_nat (budget p)) (allowed p) in
     blen (plan_flow_cpus p) = flow_workers p /\ blen (plan_l7_cpus p) = l7_workers p /\
     blen (plan_matcher_cpus p) = matcher_workers p /\
     plan_capture_cpus p ++ plan_flow_cpus p ++ plan_l7_cpus p ++ plan_matcher_cpus p ⊆ pool) /\
    (5 <= budget p ->
     blen (plan_capture_cpus p) + flow_workers p + l7_workers p + matcher_workers p + tokio_workers p = budget p /\
     NoDup (plan_capture_cpus p ++ plan_flow_cpus p ++ plan_l7_cpus p ++ plan_matcher_cpus p)).
Proof.
  intros Hh Hmax Hnd. unfold adaptive_plan. pose proof (plan_budget_bounds requested) as Hb.
  pose proof (cpus_nodup Hnd) as Hnodup.
  set (a := plan_allowed allowed_cpus available_parallelism) in *.
  set (b := plan_budget allowed_cpus available_parallelism requested) in *.
  destruct (budget_split b capture_hint ltac:(lia) Hh) as (Hr & Hrb & Hmx & Hst & Hstb & H5). cbv zeta.
  set (tokio := if 8 <=? b then 2 else 1) in *.
  set (reserve := if capture_hint =? 0 then 0 else _) in *. set (stage := Z.max (sat_sub b _) 3) in *.
  destruct (distribute_fair stage ltac:(lia)) as (c & -> & Hsum & Hf1 & Hm1 & Hfl & Hml & _).
  rewrite (Z.max_l stage 3) in Hsum by lia. unfold counts_sum in Hsum.
  set (pool := take (Z.to_nat b) a).
  assert (blen pool = b) as Hpool by (unfold pool, blen in *; rewrite length_take; lia).
  assert (pool <> []) as Hne by (intros E; rewrite E, blen_nil in Hpool; lia).
  assert (1 <= tokio) as Ht by (unfold tokio; destruct (8 <=? b); lia).
  cbn [mbind option_bind]. rewrite Hmx, (Z.min_l reserve (blen pool)) by lia.
  eexists. split; [reflexivity|]. cbn [budget allowed tokio_workers replay_workers flow_workers l7_workers matcher_workers
    plan_capture_cpus plan_flow_cpus plan_l7_cpus plan_matcher_cpus]. fold pool.
  split; [lia|]. split; [done|]. split; [destruct (24 <=? b), (12 <=? b); lia|]. split; [lia|]. split; [lia|].
  split; [split_and!; [by apply take_wrapping_length; [|lia]..|]|].
  - rewrite !list_subseteq_app_iff_l. split_and!; apply take_wrapping_sub.
  - intros Hb5. specialize (H5 Hb5). split; [rewrite take_wrapping_length by (done || lia); lia|].
    rewrite (take_wrapping_app pool (reserve + ct_flow c)) by lia.
    rewrite (take_wrapping_app pool reserve) by lia.
    rewrite (take_wrapping_app pool 0) by lia. rewrite take_wrapping_in by lia. simpl. rewrite drop_0.
    by apply nodup_take, nodup_take.
Qed.
End Fits.

Lemma plan_fits_witness :
  exists p, adaptive_plan (Ok (seqZ 0 16)) (Some 12) 4 None = Some p /\
    1 <= budget p <= blen (allowed p) /\ 1 <= tokio_workers p /\ 1 <= replay_workers p /\
    1 <= flow_workers p <= l7_workers p /\ 1 <= matcher_workers p <= l7_workers p /\
    (let pool := take (Z.to_nat (budget p)) (allowed p) in
     blen (plan_flow_cpus p) = flow_workers p /\ blen (plan_l7_cpus p) = l7_workers p /\
     blen (plan_matcher_cpus p) = matcher_workers p /\
     plan_capture_cpus p ++ plan_flow_cpus p ++ plan_l7_cpus p ++ plan_matcher_cpus p ⊆ pool) /\
    (5 <= budget p ->
     blen (plan_capture_cpus p) + flow_workers p + l7_workers p + matcher_workers p + tokio_workers p = budget p /\
     NoDup (plan_capture_cpus p ++ plan_flow_cpus p ++ plan_l7_cpus p ++ plan_matcher_cpus p)).
Proof.
  apply (plan_fits (Ok (seqZ 0 16)) (Some 12) 4 None); [lia|by vm_compute|].
  intros l [= <-]. apply NoDup_seqZ.
Defined.

(** Nine CPUs of twelve: two for capture, two for the control plane, five for the
    stages. *)
Example plan_of_twelve :
  (fun p => (budget p, plan_capture_cpus p, plan_flow_cpus p, plan_l7_cpus p, plan_matcher_cpus p, tokio_workers p))
    <$> adaptive_plan (Ok (seqZ 0 16)) (Some 12) 4 None = Some (9, [0; 1], [2; 3], [4; 5], [6], 2).
Proof. vm_compute. reflexivity. Qed.

(** On one CPU there are five workers. *)
Example plan_of_one :
  (fun p => (budget p, blen (plan_capture_cpus p) + flow_workers p + l7_workers p + matcher_workers p + tokio_workers p))
    <$> adaptive_plan (Ok [3]) (Some 1) 1 None = Some (1, 5).
Proof. vm_compute. reflexivity. Qed.
