(* ===== verification/Runtime.v ===== *)
(** * The threads of the process and their shutdown ([src/src/runtime.rs])

    What [run] does once everything has started: the supervisor, the order in
    which the parts are stopped and joined ([shutdown_and_join] and [join] of
    capture, flow, L7, matcher and storage), and the threads and tasks meanwhile,
    connected by bounded channels.  What a thread does with a message is its
    component's; here it sends any messages to the threads it has senders of. *)

From stdpp Require Import list relations.
From S2P Require Import Prelude.

(** The threads and tasks [run] waits for. *)
Inductive Role := Capture | RawWriter | FlowShard | L7Worker | MatcherWorker | ReplayTask | ApiServer
                | SegmentWriter | MetadataWriter | Projector.

#[export] Instance role_eq_dec : EqDecision Role.
Proof. solve_decision. Defined.

Definition Thread : Type := Role * nat.

(** Whose senders a thread holds. *)
Definition feeds (a b : Role) : bool :=
  match a, b with
  | Capture, FlowShard | Capture, RawWriter => true
  | FlowShard, L7Worker => true
  | L7Worker, MatcherWorker | L7Worker, SegmentWriter | L7Worker, MetadataWriter => true
  | MatcherWorker, MetadataWriter => true
  | ReplayTask, SegmentWriter | ReplayTask, MetadataWriter => true
  | ApiServer, SegmentWriter | ApiServer, MetadataWriter => true
  | SegmentWriter, MetadataWriter => true
  | _, _ => false
  end.

(** A thread runs its loop, or has left it and sends what is left to send, or is
    over: after that, by an error of its own, or by a panic. *)
Inductive Phase := Looping | Leaving | Ended | Failed | Panicked.

#[export] Instance phase_eq_dec : EqDecision Phase.
Proof. solve_decision. Defined.

Definition finished (p : Phase) : bool := match p with Looping | Leaving => false | _ => true end.

(** Where [run] is. *)
Inductive Pc := Supervising | Joining (r : Role) | DurableBarrier | Returned (ok : bool).

(** What [run] joins after a role. *)
Definition next_pc (r : Role) : Pc :=
  match r with
  | Capture => Joining RawWriter | RawWriter => Joining FlowShard | FlowShard => Joining L7Worker
  | L7Worker => Joining MatcherWorker | MatcherWorker => Joining ReplayTask | ReplayTask => Joining ApiServer
  | ApiServer => Joining SegmentWriter | SegmentWriter => DurableBarrier | MetadataWriter => Joining Projector
  | Projector => Returned true
  end.

(** How far it is. *)
Definition order (r : Role) : nat :=
  match r with
  | Capture => 1 | RawWriter => 2 | FlowShard => 3 | L7Worker => 4 | MatcherWorker => 5 | ReplayTask => 6 | ApiServer => 7
  | SegmentWriter => 8 | MetadataWriter => 10 | Projector => 11
  end.

Definition progress (pc : Pc) : nat :=
  match pc with Supervising => 0 | Joining r => order r | DurableBarrier => 9 | Returned _ => 12 end.

(** The flags [run] sets and the senders it keeps to itself: it drops its own sender
    of a stage when it joins it, and the one of the metadata after the barrier. *)
Definition shutdown_flag (pc : Pc) : bool := (1 <=? progress pc)%nat.
Definition segment_flag (pc : Pc) : bool := (8 <=? progress pc)%nat.
Definition projector_flag (pc : Pc) : bool := (11 <=? progress pc)%nat.

Definition keeps_sender (pc : Pc) (r : Role) : bool :=
  match r with
  | FlowShard | L7Worker | MatcherWorker | MetadataWriter => (progress pc <? order r)%nat
  | _ => false
  end.

Section Runtime.
(** Messages of the matcher's housekeeping, the capacity of each thread's queue (the
    capture and projector threads have none), and the threads there are. *)
Context {Msg : Type} (housekeeping : Msg -> bool) (capacity : Thread -> nat) (threads : list Thread).
(** Whether the effective mode of capture is a live one. *)
Context (supervise_capture : bool).

Record Node := { inbox : list Msg; outbox : list (Thread * Msg); phase : Phase; accepted : list Msg; handled : list Msg }.

Record Proc := {
  main_at : Pc;
  nodes : Thread -> Node;
  lost : list Thread;
  clean : bool;
  api_joined : bool;
  storage_ok : bool
}.

Definition started : Node := {| inbox := []; outbox := []; phase := Looping; accepted := []; handled := [] |}.

Definition process_started : Proc :=
  {| main_at := Supervising; nodes := fun _ => started; lost := []; clean := true; api_joined := false;
     storage_ok := true |}.

Definition set_node (t : Thread) (n : Node) (s : Proc) : Proc :=
  {| main_at := main_at s; nodes := fun x => if decide (x = t) then n else nodes s x; lost := lost s; clean := clean s;
     api_joined := api_joined s; storage_ok := storage_ok s |}.

Definition go (pc : Pc) (s : Proc) : Proc :=
  {| main_at := pc; nodes := nodes s; lost := lost s; clean := clean s; api_joined := api_joined s;
     storage_ok := storage_ok s |}.

Definition note_lost (d : Thread) (s : Proc) : Proc :=
  {| main_at := main_at s; nodes := nodes s; lost := d :: lost s; clean := clean s; api_joined := api_joined s;
     storage_ok := storage_ok s |}.

Definition note_clean (b : bool) (s : Proc) : Proc :=
  {| main_at := main_at s; nodes := nodes s; lost := lost s; clean := clean s && b; api_joined := api_joined s;
     storage_ok := storage_ok s |}.

Definition note_api (s : Proc) : Proc :=
  {| main_at := main_at s; nodes := nodes s; lost := lost s; clean := clean s; api_joined := true; storage_ok := storage_ok s |}.

Definition note_storage (b : bool) (s : Proc) : Proc :=
  {| main_at := main_at s; nodes := nodes s; lost := lost s; clean := clean s; api_joined := api_joined s;
     storage_ok := storage_ok s && b |}.

Definition over (s : Proc) (t : Thread) : bool := finished (phase (nodes s t)).

Definition all_over (s : Proc) (r : Role) : Prop := forall t, t ∈ threads -> t.1 = r -> over s t = true.

Definition no_panic (s : Proc) (r : Role) : Prop := forall t, t ∈ threads -> t.1 = r -> phase (nodes s t) <> Panicked.

(** ** The supervisor *)

Definition critical (r : Role) : bool :=
  match r with
  | SegmentWriter | MetadataWriter | Projector | FlowShard | L7Worker | MatcherWorker => true
  | Capture | RawWriter => supervise_capture
  | ReplayTask | ApiServer => false
  end.

Definition worker_finished (s : Proc) : bool := existsb (fun t => critical t.1 && over s t) threads.

Inductive Event := ApiJoined (ok : bool) | TerminationSignal (ok : bool) | SupervisorTick (stale : bool).

(** One turn of the loop: leave it for the shutdown, with an error or not, return
    at once when signals cannot be listened to, or go on. *)
Definition supervise (e : Event) (s : Proc) : Proc :=
  match e with
  | ApiJoined ok => go (Joining Capture) (note_api (note_clean ok s))
  | TerminationSignal true => go (Joining Capture) s
  | TerminationSignal false => go (Returned false) s
  | SupervisorTick stale => if worker_finished s || stale then go (Joining Capture) (note_clean false s) else s
  end.

(** ** The shutdown *)

Definition in_storage (r : Role) : bool :=
  match r with SegmentWriter | MetadataWriter | Projector => true | _ => false end.

(** All threads of [r] are over, or one has panicked: that ends [run] with an error,
    in the storage only after the rest has been joined.  The result of the last is
    [run]'s. *)
Definition joined (r : Role) (panic : bool) (s : Proc) : Proc :=
  if panic && negb (in_storage r) then go (Returned false) s
  else
    let s := note_storage (negb panic) s in
    match r with
    | Projector => go (Returned (clean s && storage_ok s)) s
    | _ => go (next_pc r) s
    end.

Inductive main_step (s : Proc) : Proc -> Prop :=
  | main_event e :
      main_at s = Supervising ->
      (forall ok, e = ApiJoined ok -> all_over s ApiServer /\ (ok = true -> no_panic s ApiServer)) ->
      main_step s (supervise e s)
  | main_join r :
      main_at s = Joining r -> all_over s r -> no_panic s r \/ (r = ApiServer /\ api_joined s = true) ->
      main_step s (joined r false s)
  | main_join_panic r t :
      main_at s = Joining r -> t ∈ threads -> t.1 = r -> phase (nodes s t) = Panicked ->
      (in_storage r = true -> all_over s r) -> ~ (r = ApiServer /\ api_joined s = true) ->
      main_step s (joined r true s)
  | main_barrier :
      main_at s = DurableBarrier ->
      (forall t, t ∈ threads -> t.1 = MetadataWriter -> over s t = false /\ inbox (nodes s t) = [] /\ outbox (nodes s t) = []) ->
      main_step s (go (Joining MetadataWriter) s)
  | main_barrier_failed t :
      main_at s = DurableBarrier -> t ∈ threads -> t.1 = MetadataWriter -> over s t = true ->
      main_step s (go (Joining MetadataWriter) (note_storage false s)).

(** ** The threads *)

(** A message the sender may drop: a packet on a full queue, a raw copy or a
    housekeeping message of the matcher on a full queue or to a thread that is over. *)
Definition may_drop (s : Proc) (a : Role) (d : Thread) (m : Msg) : bool :=
  let full := (capacity d <=? length (inbox (nodes s d)))%nat in
  match a, d.1 with
  | Capture, FlowShard => full && negb (over s d)
  | Capture, RawWriter => full || over s d
  | L7Worker, MatcherWorker => housekeeping m && (full || over s d)
  | _, _ => false
  end.

(** Why a loop ends: capture at any time, the tasks when told, the others when
    nobody can send to them any more, the segment writer and the projector by a flag. *)
Definition may_leave (s : Proc) (t : Thread) : Prop :=
  match t.1 with
  | Capture | ApiServer => True
  | ReplayTask => shutdown_flag (main_at s) = true
  | SegmentWriter => segment_flag (main_at s) = true
  | Projector => projector_flag (main_at s) = true
  | r => keeps_sender (main_at s) r = false /\ forall a, a ∈ threads -> feeds a.1 r = true -> over s a = true
  end.

(** New messages come in from outside as long as no shutdown is asked for. *)
Definition is_source (r : Role) : bool := match r with Capture | ReplayTask | ApiServer => true | _ => false end.

Definition addressed (t : Thread) (outs : list (Thread * Msg)) : Prop :=
  Forall (fun o => o.1 ∈ threads /\ feeds t.1 o.1.1 = true) outs.

Definition with_phase (p : Phase) (n : Node) : Node :=
  {| inbox := inbox n; outbox := outbox n; phase := p; accepted := accepted n; handled := handled n |}.

Definition with_outbox (o : list (Thread * Msg)) (n : Node) : Node :=
  {| inbox := inbox n; outbox := o; phase := phase n; accepted := accepted n; handled := handled n |}.

Definition deliver (m : Msg) (n : Node) : Node :=
  {| inbox := inbox n ++ [m]; outbox := outbox n; phase := phase n; accepted := accepted n ++ [m]; handled := handled n |}.

Definition take (m : Msg) (rest : list Msg) (outs : list (Thread * Msg)) (n : Node) : Node :=
  {| inbox := rest; outbox := outs; phase := phase n; accepted := accepted n; handled := handled n ++ [m] |}.

(** The channel is closed: some loops go on, some end. *)
Definition refused (gives_up : bool) (rest : list (Thread * Msg)) (n : Node) : Node :=
  if gives_up then with_phase Failed n else with_outbox rest n.

Inductive thread_step (s : Proc) (t : Thread) : Proc -> Prop :=
  | t_source outs :
      is_source t.1 = true -> shutdown_flag (main_at s) = false -> phase (nodes s t) = Looping -> outbox (nodes s t) = [] ->
      addressed t outs -> thread_step s t (set_node t (with_outbox outs (nodes s t)) s)
  | t_receive m rest outs :
      phase (nodes s t) = Looping -> outbox (nodes s t) = [] -> inbox (nodes s t) = m :: rest -> addressed t outs ->
      thread_step s t (set_node t (take m rest outs (nodes s t)) s)
  | t_send d m rest :
      over s t = false -> outbox (nodes s t) = (d, m) :: rest -> over s d = false ->
      (length (inbox (nodes s d)) < capacity d)%nat ->
      thread_step s t (set_node d (deliver m (nodes s d)) (set_node t (with_outbox rest (nodes s t)) s))
  | t_drop d m rest :
      over s t = false -> outbox (nodes s t) = (d, m) :: rest -> may_drop s t.1 d m = true ->
      thread_step s t (set_node t (with_outbox rest (nodes s t)) s)
  | t_refused d m rest (gives_up : bool) :
      over s t = false -> outbox (nodes s t) = (d, m) :: rest -> over s d = true -> may_drop s t.1 d m = false ->
      thread_step s t (note_lost d (set_node t (refused gives_up rest (nodes s t)) s))
  | t_leave outs :
      phase (nodes s t) = Looping -> outbox (nodes s t) = [] -> inbox (nodes s t) = [] -> may_leave s t -> addressed t outs ->
      thread_step s t (set_node t (with_phase Leaving (with_outbox outs (nodes s t))) s)
  | t_end :
      phase (nodes s t) = Leaving -> outbox (nodes s t) = [] -> thread_step s t (set_node t (with_phase Ended (nodes s t)) s).

(** What the disk writers do on an error, and what any thread may do. *)
Definition may_fail (r : Role) : bool := match r with RawWriter => true | _ => in_storage r end.

Inductive fault_step (s : Proc) (t : Thread) : Proc -> Prop :=
  | t_fail : over s t = false -> may_fail t.1 = true -> fault_step s t (set_node t (with_phase Failed (nodes s t)) s)
  | t_panic : over s t = false -> fault_step s t (set_node t (with_phase Panicked (nodes s t)) s).

(** When [run] returns the process exits, whatever its threads are doing. *)
Definition exited (s : Proc) : bool := match main_at s with Returned _ => true | _ => false end.

Inductive proc_step (s s' : Proc) : Prop :=
  | proc_main : main_step s s' -> proc_step s s'
  | proc_thread t : exited s = false -> t ∈ threads -> thread_step s t s' -> proc_step s s'.

Inductive any_step (s s' : Proc) : Prop :=
  | any_proc : proc_step s s' -> any_step s s'
  | any_fault t : exited s = false -> t ∈ threads -> fault_step s t s' -> any_step s s'.

Definition reachable : Proc -> Prop := rtc any_step process_started.
End Runtime.

(** * What the shutdown guarantees *)

Section Shutdown.
Context {Msg : Type} (housekeeping : Msg -> bool) (capacity : Thread -> nat) (threads : list Thread).
Context (supervise_capture : bool).

Abbreviation Proc := (@Proc Msg).
Abbreviation Node := (@Node Msg).
Abbreviation thread_step := (thread_step housekeeping capacity threads).
Abbreviation main_step := (main_step threads supervise_capture).
Abbreviation proc_step := (proc_step housekeeping capacity threads supervise_capture).
Abbreviation any_step := (any_step housekeeping capacity threads supervise_capture).

(** ** Steps, node by node *)

Lemma node_same t n (s : Proc) : nodes (set_node t n s) t = n.
Proof. simpl. by rewrite decide_True. Qed.

Lemma node_other t n (s : Proc) x : x <> t -> nodes (set_node t n s) x = nodes s x.
Proof. intros H. simpl. by rewrite decide_False. Qed.

(** What a step leaves of a thread's phase: what is over stays as it is. *)
Definition phases_kept (s s' : Proc) : Prop := forall t, over s t = true -> phase (nodes s' t) = phase (nodes s t).

(** Only the threads change. *)
Definition main_kept (s s' : Proc) : Prop :=
  main_at s' = main_at s /\ clean s' = clean s /\ api_joined s' = api_joined s /\ storage_ok s' = storage_ok s.

Lemma set_node_phases t n s : (over s t = true -> phase n = phase (nodes s t)) -> phases_kept s (set_node t n s).
Proof.
  intros H x Hx. destruct (decide (x = t)) as [->|Hne]; [rewrite node_same; by apply H|by rewrite node_other].
Qed.

Lemma phases_trans s1 s2 s3 : phases_kept s1 s2 -> phases_kept s2 s3 -> phases_kept s1 s3.
Proof. intros H1 H2 t Ht. rewrite H2; [by apply H1|]. unfold over in *. by rewrite H1. Qed.

Lemma over_kept s s' t : phases_kept s s' -> over s t = true -> over s' t = true.
Proof. intros H Ht. unfold over in *. by rewrite H. Qed.

Lemma looping_not_over (s : Proc) t : phase (nodes s t) = Looping -> over s t = true -> False.
Proof. intros H. unfold over. by rewrite H. Qed.

Lemma leaving_not_over (s : Proc) t : phase (nodes s t) = Leaving -> over s t = true -> False.
Proof. intros H. unfold over. by rewrite H. Qed.

Lemma thread_step_kept s t s' : thread_step s t s' -> phases_kept s s' /\ main_kept s s'.
Proof.
  intros H. split; [|by destruct H].
  destruct H as [outs|m rest outs|d m rest Ht Ho Hd|d m rest|d m rest g Ht|outs Hl|Hl].
  - by apply set_node_phases.
  - by apply set_node_phases.
  - apply (phases_trans _ (set_node t (with_outbox rest (nodes s t)) s)); [by apply set_node_phases|]. apply set_node_phases. intros _. simpl. by case_decide; subst.
  - by apply set_node_phases.
  - change (phases_kept s (set_node t (refused g rest (nodes s t)) s)). apply set_node_phases. congruence.
  - apply set_node_phases. intros Hov. by apply looping_not_over in Hov.
  - apply set_node_phases. intros Hov. by apply leaving_not_over in Hov.
Qed.

Lemma fault_step_kept (s : Proc) t s' : fault_step s t s' -> phases_kept s s' /\ main_kept s s'.
Proof. intros H. split; [|by destruct H]. destruct H; apply set_node_phases; congruence. Qed.

Lemma main_nodes (s s' : Proc) : main_step s s' -> nodes s' = nodes s /\ lost s' = lost s.
Proof.
  destruct 1 as [e ? ?|r ? ? ?|r t ? ? ? ? ? ?| |]; [..|done|done].
  - destruct e as [ok|[|]|stale]; [done..|]. simpl. by destruct (_ || _).
  - unfold joined. simpl. by destruct r.
  - unfold joined. destruct (in_storage r); simpl; [by destruct r|done].
Qed.

(** How a thread's phase may change. *)
Definition next_phase (s : Proc) (x t : Thread) (p p' : Phase) : Prop :=
  p' = p \/ (x = t /\ ((p = Looping /\ p' = Leaving /\ may_leave threads s t) \/ (p = Leaving /\ p' = Ended) \/ p' = Failed \/ p' = Panicked)).

Lemma thread_step_phase s t s' x : thread_step s t s' -> next_phase s x t (phase (nodes s x)) (phase (nodes s' x)).
Proof.
  unfold next_phase. destruct 1 as [outs|m rest outs|d m rest Ht Ho Hd|d m rest|d m rest g Ht|outs Hl|Hl]; simpl.
  1-2, 4: case_decide; subst; by left.
  - left. repeat (case_decide; subst); done.
  - case_decide; subst; [|by left]. destruct g; [right; auto|by left].
  - case_decide; subst; [|by left]. right. auto.
  - case_decide; subst; [|by left]. right. auto.
Qed.

Lemma fault_step_phase (s : Proc) t s' x : fault_step s t s' -> next_phase s x t (phase (nodes s x)) (phase (nodes s' x)).
Proof. unfold next_phase. destruct 1; simpl; (case_decide; subst; [right|left]; auto). Qed.

Lemma feeds_order a b : feeds a b = true -> (order a < order b)%nat /\ (b = MetadataWriter -> (order a < 9)%nat).
Proof. destruct a, b; simpl; intros H; try done; split; intros; lia. Qed.

Record node_ok (t : Thread) (n : Node) : Prop := {
  nd_log : accepted n = handled n ++ inbox n;
  nd_addressed : addressed threads t (outbox n);
  nd_leaving : phase n = Leaving -> inbox n = [];
  nd_ended : phase n = Ended -> inbox n = [] /\ outbox n = []
}.

Record proc_ok (s : Proc) : Prop := {
  pr_nodes : forall t, node_ok t (nodes s t);
  pr_closed : forall t a, t ∈ threads -> phase (nodes s t) = Leaving \/ phase (nodes s t) = Ended ->
    a ∈ threads -> feeds a.1 t.1 = true -> over s a = true;
  pr_joined : main_at s <> Returned false -> forall r, (order r < progress (main_at s))%nat ->
    all_over threads s r /\ (no_panic threads s r \/ clean s = false \/ storage_ok s = false);
  pr_api : api_joined s = true -> all_over threads s ApiServer /\ (no_panic threads s ApiServer \/ clean s = false);
  pr_metadata : main_at s <> Returned false -> (9 < progress (main_at s))%nat -> storage_ok s = true ->
    forall t, t ∈ threads -> t.1 = MetadataWriter -> inbox (nodes s t) = [] /\ outbox (nodes s t) = [] /\ t ∉ lost s;
  pr_lost : forall d, d ∈ lost s -> d ∈ threads /\ (phase (nodes s d) = Failed \/ phase (nodes s d) = Panicked);
  pr_result : main_at s = Returned true -> clean s = true /\ storage_ok s = true
}.

Lemma started_ok : proc_ok process_started.
Proof.
  split; simpl; try done.
  - intros t. split; simpl; try done. constructor.
  - intros t a _ [? | ?]; done.
  - intros _ r Hr. destruct r; simpl in Hr; lia.
  - intros _ Hr. lia.
  - intros d Hd. by apply not_elem_of_nil in Hd.
Qed.

(** ** Nodes *)

Lemma take_ok t (n : Node) m rest outs : node_ok t n -> phase n = Looping -> inbox n = m :: rest -> addressed threads t outs ->
  node_ok t (take m rest outs n).
Proof.
  intros [Hl Ha _ _] Hp Hi Ho. split; simpl; try done; try congruence. rewrite Hl, Hi. by rewrite <- app_assoc.
Qed.

Lemma deliver_ok t (n : Node) m : node_ok t n -> phase n <> Leaving -> phase n <> Ended -> node_ok t (deliver m n).
Proof. intros [Hl Ha _ _] H1 H2. split; simpl; try done. by rewrite Hl, app_assoc. Qed.

Lemma outbox_rest t (n : Node) o rest : node_ok t n -> outbox n = o :: rest -> finished (phase n) = false -> node_ok t (with_outbox rest n).
Proof.
  intros [Hl Ha Hv _] Ho Hf. split; simpl; try done.
  - unfold addressed in *. rewrite Ho in Ha. by apply Forall_cons in Ha as [_ ?].
  - intros E. by rewrite E in Hf.
Qed.

Lemma refused_ok t (n : Node) o rest g : node_ok t n -> outbox n = o :: rest -> finished (phase n) = false -> node_ok t (refused g rest n).
Proof. intros Hn Ho Hf. destruct g; [|by eapply outbox_rest]. destruct Hn. by split; simpl. Qed.

(** A thread to which a live one can send has not left its loop. *)
Lemma receiver_open s t d : proc_ok s -> t ∈ threads -> over s t = false -> d ∈ threads -> feeds t.1 d.1 = true ->
  phase (nodes s d) <> Leaving /\ phase (nodes s d) <> Ended.
Proof.
  intros Hs Ht Hov Hd Hf. split; intros E; pose proof (pr_closed s Hs d t Hd ltac:(auto) Ht Hf); congruence.
Qed.

Lemma outbox_head s t d m rest : proc_ok s -> outbox (nodes s t) = (d, m) :: rest -> d ∈ threads /\ feeds t.1 d.1 = true.
Proof.
  intros Hs Ho. pose proof (nd_addressed _ _ (pr_nodes s Hs t)) as Ha. rewrite Ho in Ha. by apply Forall_cons in Ha as [? _].
Qed.

Lemma thread_nodes_ok s t s' : proc_ok s -> t ∈ threads -> thread_step s t s' -> forall x, node_ok x (nodes s' x).
Proof.
  intros Hs Ht Hst x. pose proof (pr_nodes s Hs) as Hn.
  destruct Hst as [outs|m rest outs|d m rest Hov Ho Hd|d m rest Hov Ho|d m rest g Hov Ho|outs Hl|Hl]; simpl.
  - case_decide as E; [subst|done]. destruct (Hn t). split; simpl; try done; congruence.
  - case_decide as E; [subst|done]. by apply take_ok.
  - destruct (outbox_head s t d m rest Hs Ho) as [Hdt Hf]. destruct (receiver_open s t d Hs Ht Hov Hdt Hf) as [? ?].
    case_decide as E; [subst; by apply deliver_ok|]. case_decide as E'; [subst|done]. by eapply outbox_rest.
  - case_decide as E; [subst|done]. by eapply outbox_rest.
  - case_decide as E; [subst|done]. by eapply refused_ok.
  - case_decide as E; [subst|done]. destruct (Hn t). split; simpl; try done; congruence.
  - case_decide as E; [subst|done]. destruct (Hn t) as [? ? Hv ?]. split; simpl; try done. by rewrite Hv.
Qed.

(** ** Steps of a thread *)

Lemma not_returned (s : Proc) b : exited s = false -> main_at s <> Returned b.
Proof. unfold exited. by destruct (main_at s). Qed.

Lemma leave_closed (s : Proc) (t a : Thread) : proc_ok s -> exited s = false -> may_leave threads s t ->
  a ∈ threads -> feeds a.1 t.1 = true -> over s a = true.
Proof.
  intros Hs Hx Hl Ha Hf. unfold may_leave in Hl. destruct (t.1) eqn:E; try (by destruct a.1); try (by apply Hl; [|rewrite Hf]).
  apply feeds_order in Hf as [Ho _]. apply (pr_joined s Hs (not_returned s false Hx) a.1); [|done|done].
  unfold segment_flag in Hl. apply Nat.leb_le in Hl. simpl in Ho. lia.
Qed.

Lemma sender_early (s : Proc) (t d : Thread) : proc_ok s -> exited s = false -> t ∈ threads -> over s t = false -> feeds t.1 d.1 = true ->
  d.1 = MetadataWriter -> (progress (main_at s) <= 9)%nat.
Proof.
  intros Hs Hx Ht Hov Hf Hd. apply feeds_order in Hf as [_ Ho]. specialize (Ho Hd).
  destruct (le_lt_dec (progress (main_at s)) 9) as [|Hgt]; [done|].
  destruct (pr_joined s Hs (not_returned s false Hx) t.1 ltac:(lia)) as [H _]. rewrite (H t Ht eq_refl) in Hov. done.
Qed.

Lemma no_panic_kept (s s' : Proc) r : phases_kept s s' -> all_over threads s r -> no_panic threads s r -> no_panic threads s' r.
Proof. intros Hk Ho Hn t Ht Hr. rewrite (Hk t (Ho t Ht Hr)). by apply Hn. Qed.

Lemma all_over_kept (s s' : Proc) r : phases_kept s s' -> all_over threads s r -> all_over threads s' r.
Proof. intros Hk Ho t Ht Hr. eapply over_kept; eauto. Qed.

(** What a step of a thread, faulty or not, leaves for the parts of [proc_ok] that
    are not about the queues. *)
Lemma local_step_ok (s : Proc) (t : Thread) (s' : Proc) :
  proc_ok s -> exited s = false -> phases_kept s s' -> main_kept s s' ->
  (forall x, next_phase s x t (phase (nodes s x)) (phase (nodes s' x))) ->
  (forall x, node_ok x (nodes s' x)) ->
  (forall x, 9 < progress (main_at s) -> x ∈ threads -> x.1 = MetadataWriter -> inbox (nodes s x) = [] -> outbox (nodes s x) = [] ->
     x ∉ lost s -> inbox (nodes s' x) = [] /\ outbox (nodes s' x) = [] /\ x ∉ lost s')%nat ->
  (forall d, d ∈ lost s' -> d ∈ lost s \/ (d ∈ threads /\ over s d = true /\ phase (nodes s d) <> Ended)) ->
  proc_ok s'.
Proof.
  intros Hs Hx Hk (Em & Ec & Ea & Es) Hp Hn Hmeta Hlost. split.
  - done.
  - intros x a Hxt Hph Ha Hf. apply (over_kept s s' a Hk). destruct (Hp x) as [E|[-> [(_ & _ & Hl)|[[E1 E2]|[E|E]]]]].
    + rewrite E in Hph. by apply (pr_closed s Hs x a).
    + by apply (leave_closed s t a).
    + apply (pr_closed s Hs t a); auto.
    + destruct Hph; congruence.
    + destruct Hph; congruence.
  - rewrite Em, Ec, Es. intros Hne r Hr. destruct (pr_joined s Hs Hne r Hr) as [Ho Hnp].
    split; [by eapply all_over_kept|]. destruct Hnp as [Hnp|Hnp]; [left; by eapply no_panic_kept|by right].
  - rewrite Ea, Ec. intros Hj. destruct (pr_api s Hs Hj) as [Ho Hnp]. split; [by eapply all_over_kept|].
    destruct Hnp as [Hnp|Hnp]; [left; by eapply no_panic_kept|by right].
  - rewrite Em, Es. intros Hne Hpr Hok x Hxt Hr. destruct (pr_metadata s Hs Hne Hpr Hok x Hxt Hr) as (? & ? & ?). auto.
  - intros d Hd. assert (d ∈ threads /\ over s d = true /\ (phase (nodes s d) = Failed \/ phase (nodes s d) = Panicked)) as (Hdt & Hov & Hph).
    { destruct (Hlost d Hd) as [Hin|(Hdt & Hov & Hne)].
      - destruct (pr_lost s Hs d Hin) as [? Hph]. split; [done|]. split; [|done]. unfold over. by destruct Hph as [-> | ->].
      - split; [done|]. split; [done|]. unfold over in Hov. destruct (phase (nodes s d)); try done; auto. }
    split; [done|]. by rewrite (Hk d Hov).
  - rewrite Em, Ec, Es. apply (pr_result s Hs).
Qed.

Lemma addressed_metadata (t : Thread) (outs : list (Thread * Msg)) : t.1 = MetadataWriter -> addressed threads t outs -> outs = [].
Proof. intros Hr Ha. destruct outs as [|o outs]; [done|]. apply Forall_cons in Ha as [[_ Hf] _]. by rewrite Hr in Hf. Qed.

Lemma process_thread_ok s t s' : proc_ok s -> exited s = false -> t ∈ threads -> thread_step s t s' -> proc_ok s'.
Proof.
  intros Hs Hx Ht Hst. destruct (thread_step_kept s t s' Hst) as [Hk Hm].
  apply (local_step_ok s t s' Hs Hx Hk Hm); [by intros; apply thread_step_phase|by eapply thread_nodes_ok| |].
  - intros x Hpr Hxt Hr Hi Ho Hl.
    assert (forall d m rest, outbox (nodes s t) = (d, m) :: rest -> over s t = false -> d <> x) as Hto.
    { intros d m rest Hob Hov ->. destruct (outbox_head s t x m rest Hs Hob) as [_ Hf].
      pose proof (sender_early s t x Hs Hx Ht Hov Hf Hr). lia. }
    destruct Hst as [outs Hsrc|m rest outs|d m rest Hov Hob Hd|d m rest Hov Hob|d m rest g Hov Hob|outs Hlo Hob Hib Hle Had|Hl'];
      simpl; repeat (case_decide; subst; simpl); try (split_and!; done); try congruence.
    + by rewrite Hr in Hsrc.
    + exfalso. by eapply Hto.
    + destruct g; simpl; split_and!; try done; try congruence; apply not_elem_of_cons; split; try done; intros ->; by eapply Hto.
    + split_and!; try done. by eapply addressed_metadata.
  - intros d Hd. destruct Hst as [| | | |d' m rest g Hov Hob Hd'| |]; try (by left). simpl in Hd.
    apply elem_of_cons in Hd as [->|Hd]; [right|by left]. destruct (outbox_head s t d' m rest Hs Hob) as [Hdt Hf].
    split; [done|]. split; [done|]. by apply (receiver_open s t d').
Qed.

Lemma fault_step_ok (s : Proc) t s' : proc_ok s -> exited s = false -> fault_step s t s' -> proc_ok s'.
Proof.
  intros Hs Hx Hst. destruct (fault_step_kept s t s' Hst) as [Hk Hm].
  apply (local_step_ok s t s' Hs Hx Hk Hm); [by intros; apply fault_step_phase| | |].
  - intros x. pose proof (pr_nodes s Hs x) as Hn. destruct Hst; simpl; (case_decide; [subst|done]); destruct Hn; by split; simpl.
  - intros x _ _ _ Hi Ho Hl. destruct Hst; simpl; (case_decide; [subst|done]); by simpl.
  - intros d Hd. left. by destruct Hst.
Qed.

(** ** Steps of [run] *)

Lemma order_before r r' : (order r' < progress (next_pc r))%nat -> next_pc r <> Returned false -> r' = r \/ (order r' < order r)%nat.
Proof. destruct r, r'; simpl; intros; auto; right; lia. Qed.

(** The parts of [proc_ok] a step of [run] may change. *)
Lemma main_local_ok (s s' : Proc) :
  proc_ok s -> nodes s' = nodes s -> lost s' = lost s ->
  (main_at s' <> Returned false -> forall r, (order r < progress (main_at s'))%nat ->
    all_over threads s r /\ (no_panic threads s r \/ clean s' = false \/ storage_ok s' = false)) ->
  (api_joined s' = true -> all_over threads s ApiServer /\ (no_panic threads s ApiServer \/ clean s' = false)) ->
  (main_at s' <> Returned false -> (9 < progress (main_at s'))%nat -> storage_ok s' = true ->
    forall t, t ∈ threads -> t.1 = MetadataWriter -> inbox (nodes s t) = [] /\ outbox (nodes s t) = [] /\ t ∉ lost s) ->
  (main_at s' = Returned true -> clean s' = true /\ storage_ok s' = true) -> proc_ok s'.
Proof.
  intros Hs En El Hj Ha Hm Hr. destruct Hs as [N C _ _ _ L _].
  split; unfold all_over, no_panic, over in *; rewrite ?En, ?El; done.
Qed.

Lemma supervise_ok s e : proc_ok s -> main_at s = Supervising ->
  (forall ok, e = ApiJoined ok -> all_over threads s ApiServer /\ (ok = true -> no_panic threads s ApiServer)) ->
  proc_ok (supervise threads supervise_capture e s).
Proof.
  intros Hs Hat Hapi. pose proof (pr_api s Hs) as Ha.
  assert (forall r, (order r < 1)%nat -> False) as H0 by (intros r; destruct r; simpl; lia).
  destruct e as [ok|[|]|stale]; simpl.
  - apply (main_local_ok s); simpl; try done; [intros _ r Hr; by apply H0 in Hr| |intros; lia].
    intros _. destruct (Hapi ok eq_refl) as [Ho Hnp]. split; [done|].
    destruct ok; [left; auto|right; apply andb_false_r].
  - apply (main_local_ok s); simpl; try done; [intros _ r Hr; by apply H0 in Hr|intros; lia].
  - by apply (main_local_ok s); simpl.
  - destruct (_ || _); [|done]. apply (main_local_ok s); simpl; try done; [intros _ r Hr; by apply H0 in Hr| |intros; lia].
    intros Hj. destruct (Ha Hj) as [? _]. split; [done|]. right. apply andb_false_r.
Qed.

Lemma joined_ok s r panic : proc_ok s -> main_at s = Joining r ->
  (panic = false -> all_over threads s r /\ (no_panic threads s r \/ clean s = false)) ->
  (panic = true -> in_storage r = true -> all_over threads s r) -> proc_ok (joined r panic s).
Proof.
  intros Hs Hat Hcalm Hpanic. unfold joined. destruct (panic && negb (in_storage r)) eqn:Ep.
  { apply (main_local_ok s); simpl; try done. apply (pr_api s Hs). }
  assert (all_over threads s r /\ (no_panic threads s r \/ clean s = false \/ storage_ok s && negb panic = false)) as [Ho Hnp].
  { destruct panic; [split; [apply Hpanic; [done|]|right; right; apply andb_false_r]|].
    - simpl in Ep. by apply negb_false_iff in Ep.
    - destruct Hcalm as [? [?|?]]; auto. }
  pose proof (pr_joined s Hs ltac:(by rewrite Hat)) as Hj. rewrite Hat in Hj. simpl in Hj.
  assert (forall r', r' = r \/ (order r' < order r)%nat -> all_over threads s r' /\
    (no_panic threads s r' \/ clean s = false \/ storage_ok s && negb panic = false)) as Hall.
  { intros r' [->|Hr']; [done|]. destruct (Hj r' Hr') as [? [?|[?|E]]]; auto. split; [done|]. right. right. by rewrite E. }
  assert (forall s' : Proc, nodes s' = nodes s -> lost s' = lost s -> clean s' = clean s -> api_joined s' = api_joined s ->
    storage_ok s' = storage_ok s && negb panic ->
    (main_at s' = next_pc r \/ (r = Projector /\ main_at s' = Returned (clean s && (storage_ok s && negb panic)))) ->
    (main_at s' = Returned true -> clean s = true /\ storage_ok s && negb panic = true) -> proc_ok s') as Hgen.
  { intros s' En El Ec Ea Es Em Hres. apply (main_local_ok s); try done; rewrite ?Ec, ?Ea, ?Es; try done; [| apply (pr_api s Hs) |].
    - intros Hne r' Hr'. apply Hall. destruct Em as [E|[-> E]]; rewrite E in Hr'.
      + apply order_before; [done|]. by rewrite <- E.
      + destruct r'; simpl; auto; right; lia.
    - intros Hne Hpr Hok. apply andb_true_iff in Hok as [Hok _]. apply (pr_metadata s Hs); [by rewrite Hat| |done].
      rewrite Hat. simpl. destruct Em as [E|[-> E]]; [|simpl; lia]. rewrite E in Hpr. destruct r; simpl in *; lia. }
  destruct r; apply Hgen; simpl; auto; try done.
  intros [= E]. by apply andb_true_iff in E.
Qed.

Lemma main_step_ok s s' : proc_ok s -> main_step s s' -> proc_ok s'.
Proof.
  intros Hs Hst. destruct Hst as [e Hat He|r Hat Ho Hnp|r t Hat Ht Hr Hp Ho Hj|Hat Hm|t Hat Ht Hr Hov].
  - by apply supervise_ok.
  - apply joined_ok; [done|done| |done]. intros _. split; [done|]. destruct Hnp as [?|[-> Hj]]; [by left|].
    by destruct (pr_api s Hs Hj) as [_ ?].
  - by apply joined_ok.
  - pose proof (pr_joined s Hs ltac:(by rewrite Hat)) as Hj. rewrite Hat in Hj. simpl in Hj.
    apply (main_local_ok s); simpl; try done; [|apply (pr_api s Hs)|].
    + intros _ r Hr. apply Hj. destruct r; simpl in *; lia.
    + intros _ _ _ t Ht Hr. destruct (Hm t Ht Hr) as (Hov & ? & ?). split; [done|]. split; [done|].
      intros Hl. destruct (pr_lost s Hs t Hl) as [_ E]. unfold over in Hov. by destruct E as [E|E]; rewrite E in Hov.
  - pose proof (pr_joined s Hs ltac:(by rewrite Hat)) as Hj. rewrite Hat in Hj. simpl in Hj.
    apply (main_local_ok s); simpl; try done; [|apply (pr_api s Hs)|by rewrite andb_false_r].
    intros _ r Hr'. destruct (Hj r) as [? ?]; [destruct r; simpl in *; lia|]. split; [done|]. right. right. apply andb_false_r.
Qed.

Abbreviation reachable := (reachable housekeeping capacity threads supervise_capture).

Lemma process_reachable_ok s : reachable s -> proc_ok s.
Proof.
  intros Hr. assert (forall a b, rtc any_step a b -> proc_ok a -> proc_ok b) as H; [|by eapply H, started_ok].
  clear. induction 1 as [|a b c Hst _ IH]; [done|]. intros Ha. apply IH. destruct Hst as [[Hm|t Hx Ht Hst]|t Hx Ht Hst].
  - by eapply main_step_ok.
  - by eapply process_thread_ok.
  - by eapply fault_step_ok.
Qed.

(** Where a failure starts: with a panic, or a writer's own error. *)
Definition blamed (s : Proc) : Prop :=
  exists d, d ∈ threads /\ (phase (nodes s d) = Panicked \/ (phase (nodes s d) = Failed /\ may_fail d.1 = true)).

Record blame_ok (s : Proc) : Prop := {
  bl_failed : forall t, phase (nodes s t) = Failed -> may_fail t.1 = true \/ lost s <> [];
  bl_lost : lost s <> [] -> blamed s
}.

Lemma blamed_kept (s s' : Proc) : phases_kept s s' -> blamed s -> blamed s'.
Proof.
  intros Hk (d & Hd & Hp). exists d. split; [done|]. rewrite Hk; [done|]. unfold over. by destruct Hp as [-> | [-> _]].
Qed.

Lemma blame_thread s t s' : proc_ok s -> t ∈ threads -> blame_ok s -> thread_step s t s' -> blame_ok s'.
Proof.
  intros Hs Ht [Hf Hl] Hst. destruct (thread_step_kept s t s' Hst) as [Hk _].
  assert (lost s' = lost s \/ blamed s /\ lost s' <> []) as Hlost.
  { destruct Hst as [| | | |d m rest g Hov Hob Hd Hdrop| |]; auto. right. split; [|done].
    destruct (outbox_head s t d m rest Hs Hob) as [Hdt Hfd]. destruct (receiver_open s t d Hs Ht Hov Hdt Hfd) as [H1 H2].
    unfold over in Hd. destruct (phase (nodes s d)) eqn:E; try done; [|by exists d; auto].
    destruct (Hf d E) as [?|?]; [exists d; auto|auto]. }
  split.
  - intros x Hx. destruct Hlost as [El|[_ ?]]; [|by right]. rewrite El.
    destruct (thread_step_phase s t s' x Hst) as [E|[-> [(_ & E & _)|[[_ E]|[E|E]]]]]; try congruence; [apply Hf; congruence|].
    destruct Hst as [| | | |d m rest g| |]; simpl in *; repeat (case_decide; subst; simpl in * ); try congruence; try (by auto).
    apply (f_equal length) in El. simpl in El. lia.
  - intros Hne. apply (blamed_kept s s' Hk). destruct Hlost as [El|[? _]]; [|done]. apply Hl. by rewrite <- El.
Qed.

Lemma blame_fault (s : Proc) t s' : blame_ok s -> fault_step s t s' -> blame_ok s'.
Proof.
  intros [Hf Hl] Hst. destruct (fault_step_kept s t s' Hst) as [Hk _].
  assert (lost s' = lost s) as El by (by destruct Hst). split; rewrite El; [|intros; by apply (blamed_kept s s' Hk), Hl].
  intros x Hx. destruct Hst as [Hov Hm|Hov]; simpl in Hx; (case_decide; [subst|by apply Hf]); [by left|done].
Qed.

Lemma reachable_blame s : reachable s -> blame_ok s.
Proof.
  intros Hr. assert (forall a b, rtc any_step a b -> proc_ok a -> blame_ok a -> blame_ok b) as H.
  { clear. induction 1 as [|a b c Hst _ IH]; [done|]. intros Ha Hb. destruct Hst as [[Hm|t Hx Ht Hst]|t Hx Ht Hst].
    - apply IH; [by eapply main_step_ok|]. destruct (main_nodes a b Hm) as [En El]. destruct Hb as [B1 B2].
      split; unfold blamed in *; rewrite ?En, ?El; done.
    - apply IH; [by eapply process_thread_ok|by eapply blame_thread].
    - apply IH; [by eapply fault_step_ok|by eapply blame_fault]. }
  eapply H; [exact Hr|apply started_ok|]. by split.
Qed.

(** C19. A clean return has lost nothing.  Threads work, fail and panic in any
    interleaving, queues fill up, a shutdown is asked for at any time.  When [run]
    returns without an error all threads are over, none has panicked, and each has
    handled all the messages it was sent and sent all of its own, unless an error of
    its own stopped it; the metadata writer has handled all of its messages in any
    case; and if none of the writers was stopped by an error, none of the threads
    was, and not one message met a closed queue: no thread is stopped
    while another one still sends to it. *)
Theorem clean_return_drains s :
  reachable s -> main_at s = Returned true ->
  (forall t, t ∈ threads ->
    (phase (nodes s t) = Ended /\ handled (nodes s t) = accepted (nodes s t) /\ outbox (nodes s t) = []) \/
    (phase (nodes s t) = Failed /\ (t.1 = MetadataWriter -> handled (nodes s t) = accepted (nodes s t)))) /\
  ((forall t, t ∈ threads -> may_fail t.1 = true -> phase (nodes s t) <> Failed) ->
   lost s = [] /\ forall t, t ∈ threads -> phase (nodes s t) = Ended).
Proof.
  intros Hr Hat. pose proof (process_reachable_ok s Hr) as Hs. destruct (pr_result s Hs Hat) as [Hc Hst].
  assert (forall t, t ∈ threads -> phase (nodes s t) = Ended \/ phase (nodes s t) = Failed) as Hall.
  { intros t Ht. destruct (pr_joined s Hs ltac:(by rewrite Hat) t.1) as [Ho [Hnp|[?|?]]]; try congruence.
    - rewrite Hat. simpl. destruct t.1; simpl; lia.
    - specialize (Ho t Ht eq_refl). specialize (Hnp t Ht eq_refl). unfold over in Ho. destruct (phase (nodes s t)); auto; done. }
  split.
  - intros t Ht. destruct (pr_nodes s Hs t) as [Hl _ _ He]. destruct (Hall t Ht) as [E|E]; [left|right]; (split; [done|]).
    + destruct (He E) as [Hi Ho]. by rewrite Hi, app_nil_r in Hl.
    + intros Hm. destruct (pr_metadata s Hs ltac:(by rewrite Hat) ltac:(rewrite Hat; simpl; lia) Hst t Ht Hm) as [Hi _].
      by rewrite Hi, app_nil_r in Hl.
  - intros Hw. destruct (reachable_blame s Hr) as [Hf Hlost]. assert (lost s = []) as El.
    { destruct (lost s) as [|d l] eqn:E; [done|]. destruct Hlost as (x & Hx & [Hp|[Hp Hm]]); [done| |].
      - destruct (Hall x Hx); congruence.
      - by destruct (Hw x Hx Hm). }
    split; [done|]. intros t Ht. destruct (Hall t Ht) as [|E]; [done|].
    destruct (Hf t E) as [Hm|?]; [by destruct (Hw t Ht Hm)|done].
Qed.

(** ** The shutdown ends *)

(** Messages go from higher to lower ranks. *)
Definition rank (r : Role) : nat :=
  match r with
  | Capture => 5 | FlowShard => 4 | L7Worker | ReplayTask | ApiServer => 3 | MatcherWorker | SegmentWriter => 2
  | MetadataWriter => 1 | RawWriter | Projector => 0
  end.

Lemma feeds_rank a b : feeds a b = true -> (rank b < rank a)%nat.
Proof. destruct a, b; simpl; intros; done || lia. Qed.

Definition phase_weight (p : Phase) : nat := match p with Looping => 2 | Leaving => 1 | _ => 0 end.

(** What is left to do at a rank: a message to be sent counts twice, once sent once. *)
Definition outbox_weight (k : nat) (o : list (Thread * Msg)) : nat :=
  2 * length (List.filter (fun e => (rank e.1.1 =? k)%nat) o).

Definition node_weight (k : nat) (t : Thread) (n : Node) : nat :=
  (if (rank t.1 =? k)%nat then phase_weight (phase n) + length (inbox n) else 0) + outbox_weight k (outbox n).

Definition total (f : Thread -> nat) (l : list Thread) : nat := sum_list (map f l).

Definition weight (k : nat) (s : Proc) : nat := total (fun t => node_weight k t (nodes s t)) threads.

(** The lexicographic order on lists of one length. *)
Fixpoint lex (a b : list nat) : Prop :=
  match a, b with
  | x :: a, y :: b => ((x < y)%nat /\ length a = length b) \/ (x = y /\ lex a b)
  | _, _ => False
  end.

Lemma lex_length a : forall b, lex a b -> length a = length b.
Proof. induction a as [|x a IH]; intros [|y b] H; try done. simpl. destruct H as [[_ ->]|[_ H]]; [done|]. by rewrite (IH b H). Qed.

Lemma lex_wf n : forall b, length b = n -> Acc lex b.
Proof.
  induction n as [|n IH]; intros [|y b] Hb; try discriminate Hb; [constructor; intros [|x a] []|].
  injection Hb as Hb. revert b Hb. induction (lt_wf y) as [y _ IHy]. intros b Hb.
  assert (Acc lex b) as Hacc by (by apply IH). induction Hacc as [b _ IHb]. constructor. intros [|x a] Hl; [destruct Hl|].
  destruct Hl as [[Hx Hlen]|[-> Ha]]; [apply IHy; [done|congruence]|]. apply IHb; [done|]. by rewrite (lex_length a b Ha).
Qed.

Lemma lex_head x y a b : (x < y)%nat -> length a = length b -> lex (x :: a) (y :: b).
Proof. by left. Qed.

Lemma lex_skip x y a b : (x <= y)%nat -> lex a b -> lex (x :: a) (y :: b).
Proof. intros Hx Hl. pose proof (lex_length a b Hl). destruct (le_lt_eq_dec x y Hx) as [? | ->]; [by left|by right]. Qed.

Definition measure (s : Proc) : list nat :=
  [weight 5 s; weight 4 s; weight 3 s; weight 2 s; weight 1 s; weight 0 s; 12 - progress (main_at s)]%nat.

Lemma measure_less s s' k : (k <= 5)%nat -> (weight k s' < weight k s)%nat ->
  (forall j, (k < j)%nat -> (weight j s' <= weight j s)%nat) -> lex (measure s') (measure s).
Proof.
  intros Hk Hlt Hle. unfold measure. destruct k as [|[|[|[|[|[|k]]]]]]; [..|lia].
  all: repeat (first [apply lex_head; [exact Hlt|done] | apply lex_skip; [apply Hle; lia|]]).
Qed.

Lemma total_update (f g : Thread -> nat) t l : NoDup l -> t ∈ l -> (forall x, x <> t -> f x = g x) ->
  (total f l + g t = total g l + f t)%nat.
Proof.
  intros Hnd Hin Hfg. unfold total. induction Hnd as [|x l Hx Hnd IH]; [by apply not_elem_of_nil in Hin|]. cbn [map sum_list_with].
  destruct (decide (x = t)) as [->|Hne].
  - simpl. assert (map f l = map g l) as ->; [|lia]. apply map_ext_in. intros y Hy. apply Hfg. intros ->.
    by apply Hx, list_elem_of_In.
  - apply elem_of_cons in Hin as [->|Hin]; [done|]. specialize (IH Hin). simpl. rewrite (Hfg x Hne). lia.
Qed.

Lemma weight_set k t n (s : Proc) : NoDup threads -> t ∈ threads ->
  (weight k (set_node t n s) + node_weight k t (nodes s t) = weight k s + node_weight k t n)%nat.
Proof.
  intros Hnd Ht. unfold weight.
  pose proof (total_update (fun x => node_weight k x (nodes (set_node t n s) x)) (fun x => node_weight k x (nodes s x)) t threads Hnd Ht) as H.
  cbn beta in H. rewrite node_same in H. apply H. intros x Hx. by rewrite node_other.
Qed.

Lemma rank_le r : (rank r <= 5)%nat.
Proof. destruct r; simpl; lia. Qed.

(** Less to do at a rank, and not more above it. *)
Definition lighter (k : nat) (t : Thread) (n' n : Node) : Prop :=
  (node_weight k t n' < node_weight k t n)%nat /\ forall j, (k < j)%nat -> (node_weight j t n' <= node_weight j t n)%nat.

Lemma set_lighter k t n (s : Proc) : NoDup threads -> t ∈ threads -> (k <= 5)%nat -> lighter k t n (nodes s t) ->
  lex (measure (set_node t n s)) (measure s).
Proof.
  intros Hnd Ht Hk [H1 H2]. apply (measure_less s _ k Hk).
  - pose proof (weight_set k t n s Hnd Ht). lia.
  - intros j Hj. pose proof (weight_set j t n s Hnd Ht). specialize (H2 j Hj). lia.
Qed.

Lemma outbox_above t (outs : list (Thread * Msg)) j : addressed threads t outs -> (rank t.1 <= j)%nat -> outbox_weight j outs = 0%nat.
Proof.
  intros Ha Hj. unfold outbox_weight. induction Ha as [|o outs [_ Hf] Ha IH]; [done|]. simpl. apply feeds_rank in Hf.
  rewrite (proj2 (Nat.eqb_neq (rank o.1.1) j)) by lia. done.
Qed.

(** A thread that goes on with new messages to send is lighter at its rank. *)
Lemma work_lighter t (n n' : Node) : outbox n = [] -> addressed threads t (outbox n') ->
  (phase_weight (phase n') + length (inbox n') < phase_weight (phase n) + length (inbox n))%nat -> lighter (rank t.1) t n' n.
Proof.
  intros Ho Ha Hlt. split; [|intros j Hj]; unfold node_weight; rewrite Ho; change (outbox_weight ?x []) with 0%nat.
  - rewrite Nat.eqb_refl, (outbox_above t _ (rank t.1) Ha) by lia. lia.
  - rewrite (proj2 (Nat.eqb_neq (rank t.1) j)), (outbox_above t _ j Ha) by lia. lia.
Qed.

Lemma phase_lighter t (n : Node) p : (phase_weight p < phase_weight (phase n))%nat -> lighter (rank t.1) t (with_phase p n) n.
Proof. intros Hlt. split; [|intros j Hj]; unfold node_weight; simpl; case_match; lia || (apply Nat.eqb_neq in H; done) || done. Qed.

Lemma outbox_cons j d m (rest : list (Thread * Msg)) :
  outbox_weight j ((d, m) :: rest) = ((if (rank d.1 =? j)%nat then 2 else 0) + outbox_weight j rest)%nat.
Proof. unfold outbox_weight. simpl. case_match; simpl; lia. Qed.

Lemma rest_lighter t (n : Node) d m rest : outbox n = (d, m) :: rest -> lighter (rank d.1) t (with_outbox rest n) n.
Proof.
  intros Ho. split; [|intros j Hj]; unfold node_weight; simpl; rewrite Ho, outbox_cons; [rewrite Nat.eqb_refl; lia|lia].
Qed.

Lemma refused_lighter t (n : Node) d m rest g : outbox n = (d, m) :: rest -> finished (phase n) = false ->
  exists k, (k <= 5)%nat /\ lighter k t (refused g rest n) n.
Proof.
  intros Ho Hf. destruct g; [exists (rank t.1); split; [apply rank_le|]|exists (rank d.1); split; [apply rank_le|by eapply rest_lighter]].
  apply phase_lighter. by destruct (phase n); simpl in *; try done; lia.
Qed.

Lemma send_lighter (s : Proc) t d m rest : NoDup threads -> t ∈ threads -> d ∈ threads -> d <> t ->
  outbox (nodes s t) = (d, m) :: rest ->
  lex (measure (set_node d (deliver m (nodes s d)) (set_node t (with_outbox rest (nodes s t)) s))) (measure s).
Proof.
  intros Hnd Ht Hd Hne Ho. set (s1 := set_node t _ s). assert (nodes s1 d = nodes s d) as E by (by apply node_other).
  destruct (rest_lighter t _ d m rest Ho) as [H1 H2].
  assert (forall j, node_weight j d (deliver m (nodes s d)) = (node_weight j d (nodes s d) + if (rank d.1 =? j)%nat then 1 else 0)%nat) as Hdel.
  { intros j. unfold node_weight. simpl. case_match; rewrite ?length_app; simpl; lia. }
  apply (measure_less s _ (rank d.1) (rank_le _)).
  - pose proof (weight_set (rank d.1) d (deliver m (nodes s d)) s1 Hnd Hd) as W1. rewrite E, Hdel, Nat.eqb_refl in W1.
    pose proof (weight_set (rank d.1) t (with_outbox rest (nodes s t)) s Hnd Ht) as W2. fold s1 in W2.
    assert (node_weight (rank d.1) t (with_outbox rest (nodes s t)) + 2 = node_weight (rank d.1) t (nodes s t))%nat as H3.
    { unfold node_weight. simpl. rewrite Ho, outbox_cons, Nat.eqb_refl. lia. }
    lia.
  - intros j Hj. pose proof (weight_set j d (deliver m (nodes s d)) s1 Hnd Hd) as W1. rewrite E, Hdel in W1.
    rewrite (proj2 (Nat.eqb_neq (rank d.1) j)) in W1 by lia. specialize (H2 j Hj).
    pose proof (weight_set j t (with_outbox rest (nodes s t)) s Hnd Ht) as W2. fold s1 in W2. lia.
Qed.

Lemma thread_step_less s t s' : proc_ok s -> NoDup threads -> t ∈ threads -> shutdown_flag (main_at s) = true ->
  thread_step s t s' -> lex (measure s') (measure s).
Proof.
  intros Hs Hnd Ht Hfl Hst. destruct Hst as [outs Hsrc Hno|m rest outs Hl Ho Hi Ha|d m rest Hov Ho Hd|d m rest Hov Ho|d m rest g Hov Ho Hd|outs Hl Ho Hi Hle Ha|Hl Ho].
  - congruence.
  - apply (set_lighter (rank t.1)); [done..|apply rank_le|]. apply work_lighter; [done|done|]. simpl. rewrite Hl, Hi. simpl. lia.
  - destruct (outbox_head s t d m rest Hs Ho) as [Hdt Hf]. apply send_lighter; try done. intros ->. apply feeds_rank in Hf. lia.
  - apply (set_lighter (rank d.1)); [done..|apply rank_le|]. by eapply rest_lighter.
  - destruct (refused_lighter t (nodes s t) d m rest g Ho Hov) as (k & Hk & Hlt).
    change (lex (measure (set_node t (refused g rest (nodes s t)) s)) (measure s)). by apply (set_lighter k).
  - apply (set_lighter (rank t.1)); [done..|apply rank_le|]. apply work_lighter; [done|done|]. simpl. rewrite Hl, Hi. simpl. lia.
  - apply (set_lighter (rank t.1)); [done..|apply rank_le|]. apply phase_lighter. rewrite Hl. simpl. lia.
Qed.

Lemma fault_step_less (s : Proc) t s' : NoDup threads -> t ∈ threads -> fault_step s t s' -> lex (measure s') (measure s).
Proof.
  intros Hnd Ht Hst. assert (over s t = false) as Hov by (by destruct Hst).
  assert (forall p, phase_weight p = 0%nat -> lex (measure (set_node t (with_phase p (nodes s t)) s)) (measure s)) as H.
  { intros p Hp. apply (set_lighter (rank t.1)); [done..|apply rank_le|]. apply phase_lighter. rewrite Hp.
    unfold over in Hov. by destruct (phase (nodes s t)); simpl in *; try done; lia. }
  destruct Hst; by apply H.
Qed.

Lemma progress_le pc : (progress pc <= 12)%nat.
Proof. destruct pc as [|r| |]; simpl; try destruct r; simpl; lia. Qed.

Lemma main_step_forward (s s' : Proc) : main_step s s' -> main_at s <> Supervising ->
  (progress (main_at s) < progress (main_at s'))%nat.
Proof.
  intros Hst Hne. destruct Hst as [e Hat _|r Hat _ _|r t Hat _ _ _ _ _|Hat _|t Hat _ _ _]; try congruence; rewrite Hat.
  - destruct r; simpl; lia.
  - unfold joined. destruct (in_storage r); destruct r; simpl; lia.
  - simpl. lia.
  - simpl. lia.
Qed.

Lemma shutdown_step_less (s s' : Proc) : main_step s s' -> main_at s <> Supervising -> lex (measure s') (measure s).
Proof.
  intros Hst Hne. pose proof (main_step_forward s s' Hst Hne) as Hp. pose proof (progress_le (main_at s')).
  destruct (main_nodes s s' Hst) as [En _]. assert (forall k, weight k s' = weight k s) as Hw by (intros k; unfold weight; by rewrite En).
  unfold measure. rewrite !Hw. repeat (apply lex_skip; [done|]). apply lex_head; [lia|done].
Qed.

Lemma shutdown_stays s s' : any_step s s' -> shutdown_flag (main_at s) = true -> shutdown_flag (main_at s') = true.
Proof.
  intros Hst Hf. destruct Hst as [[Hm|t Hx Ht Hst]|t Hx Ht Hst].
  - unfold shutdown_flag in *. apply Nat.leb_le in Hf. apply Nat.leb_le.
    pose proof (main_step_forward s s' Hm). assert (main_at s <> Supervising) as Hne by (intros E; rewrite E in Hf; simpl in Hf; lia).
    specialize (H Hne). lia.
  - destruct (thread_step_kept s t s' Hst) as [_ [-> _]]. done.
  - destruct (fault_step_kept s t s' Hst) as [_ [-> _]]. done.
Qed.

Lemma any_step_ok s s' : proc_ok s -> any_step s s' -> proc_ok s'.
Proof.
  intros Hs [[Hm|t Hx Ht Hst]|t Hx Ht Hst]; [by eapply main_step_ok|by eapply process_thread_ok|by eapply fault_step_ok].
Qed.

Lemma shutdown_terminates : NoDup threads -> forall s, proc_ok s -> shutdown_flag (main_at s) = true ->
  Acc (fun s' s => any_step s s') s.
Proof.
  intros Hnd s. assert (forall m, Acc lex m -> forall s, measure s = m -> proc_ok s -> shutdown_flag (main_at s) = true ->
    Acc (fun s' s => any_step s s') s) as H; [|intros; by eapply (H _ (lex_wf 7 (measure s) eq_refl))].
  clear s. induction 1 as [m _ IH]. intros s <- Hs Hf. constructor. intros s' Hst.
  apply (IH (measure s')); [|done|by eapply any_step_ok|by eapply shutdown_stays].
  destruct Hst as [[Hm|t Hx Ht Hst]|t Hx Ht Hst].
  - apply shutdown_step_less; [done|]. intros E. by rewrite E in Hf.
  - by eapply thread_step_less.
  - by eapply fault_step_less.
Qed.

(** ** And never stops short *)

Section Moves.
Context (room : forall t, (1 <= capacity t)%nat).

Definition busy (n : Node) : Prop := outbox n <> [] \/ inbox n <> [] \/ phase n = Leaving.

Lemma busy_moves s : proc_ok s -> exited s = false -> forall k t, (rank t.1 < k)%nat -> t ∈ threads -> over s t = false ->
  busy (nodes s t) -> exists s', proc_step s s'.
Proof.
  intros Hs Hx k. induction k as [|k IH]; intros t Hk Ht Hov Hb; [lia|].
  destruct (outbox (nodes s t)) as [|[d m] rest] eqn:Ho.
  - destruct (inbox (nodes s t)) as [|m rest] eqn:Hi.
    + destruct Hb as [?|[?|Hl]]; [congruence|congruence|]. eexists. eapply (proc_thread _ _ _ _ _ _ t); [done|done|by apply t_end].
    + assert (phase (nodes s t) = Looping) as Hl.
      { destruct (pr_nodes s Hs t) as [_ _ Hv _]. unfold over in Hov. destruct (phase (nodes s t)) eqn:E; try done.
        rewrite (Hv eq_refl) in Hi. done. }
      eexists. eapply (proc_thread _ _ _ _ _ _ t); [done|done|]. apply (t_receive _ _ _ s t m rest []); [done..|constructor].
  - destruct (outbox_head s t d m rest Hs Ho) as [Hdt Hf]. destruct (may_drop housekeeping capacity s t.1 d m) eqn:Hdr.
    { eexists. eapply (proc_thread _ _ _ _ _ _ t); [done|done|by apply (t_drop _ _ _ s t d m rest)]. }
    destruct (over s d) eqn:Hd; [eexists; eapply (proc_thread _ _ _ _ _ _ t); [done|done|by apply (t_refused _ _ _ s t d m rest false)]|].
    destruct (le_lt_dec (capacity d) (length (inbox (nodes s d)))) as [Hfull|Hroom];
      [|eexists; eapply (proc_thread _ _ _ _ _ _ t); [done|done|by apply (t_send _ _ _ s t d m rest)]].
    apply (IH d); [apply feeds_rank in Hf; lia|done|done|]. right. left. intros E. rewrite E in Hfull. simpl in Hfull.
    specialize (room d). lia.
Qed.

Lemma idle_looping (s : Proc) t : over s t = false -> ~ busy (nodes s t) ->
  phase (nodes s t) = Looping /\ outbox (nodes s t) = [] /\ inbox (nodes s t) = [].
Proof.
  intros Hov Hb. unfold busy in Hb. unfold over in Hov. split; [destruct (phase (nodes s t)) eqn:E; try done; tauto|].
  split; [destruct (outbox (nodes s t)); [done|]|destruct (inbox (nodes s t)); [done|]]; exfalso; apply Hb; [by left|right; by left].
Qed.

#[local] Instance busy_dec n : Decision (busy n).
Proof.
  unfold busy. destruct (outbox n); [|left; by left]. destruct (inbox n); [|left; right; by left].
  destruct (decide (phase n = Leaving)); [left; auto|right; naive_solver].
Defined.

(** A thread [run] waits for has been told to end. *)
Lemma awaited_may_leave (s : Proc) (t : Thread) : proc_ok s -> main_at s = Joining t.1 -> may_leave threads s t.
Proof.
  intros Hs Hat. pose proof (pr_joined s Hs ltac:(by rewrite Hat)) as Hj. unfold may_leave. rewrite Hat in *. simpl in Hj.
  assert (forall a, a ∈ threads -> feeds a.1 t.1 = true -> over s a = true) as Hfeed.
  { intros a Ha Hf. apply feeds_order in Hf as [Ho _]. by apply (Hj a.1 Ho). }
  destruct t.1 eqn:E; try done; (split; [done|]); apply Hfeed.
Qed.

Lemma unfinished (s : Proc) r : (exists t, t ∈ threads /\ t.1 = r /\ over s t = false) \/ all_over threads s r.
Proof.
  destruct (decide (Exists (fun t : Thread => t.1 = r /\ over s t = false) threads)) as [He|Hn].
  - left. apply Exists_exists in He as (t & ? & ? & ?). by exists t.
  - right. intros t Ht Hr. destruct (over s t) eqn:E; [done|]. exfalso. apply Hn, Exists_exists. by exists t.
Qed.

Lemma panicked (s : Proc) r : (exists t, t ∈ threads /\ t.1 = r /\ phase (nodes s t) = Panicked) \/ no_panic threads s r.
Proof.
  destruct (decide (Exists (fun t : Thread => t.1 = r /\ phase (nodes s t) = Panicked) threads)) as [He|Hn].
  - left. apply Exists_exists in He as (t & ? & ? & ?). by exists t.
  - right. intros t Ht Hr E. apply Hn, Exists_exists. by exists t.
Qed.

Lemma shutdown_moves s : proc_ok s -> exited s = false -> main_at s <> Supervising -> exists s', proc_step s s'.
Proof.
  intros Hs Hx Hne. destruct (main_at s) as [|r| |ok] eqn:Hat; [done| | |unfold exited in Hx; by rewrite Hat in Hx].
  - destruct (unfinished s r) as [(t & Ht & Hr & Hov)|Hall].
    + destruct (decide (busy (nodes s t))) as [Hb|Hb]; [by apply (busy_moves s Hs Hx (S (rank t.1)) t); [lia|..]|].
      destruct (idle_looping s t Hov Hb) as (Hl & Ho & Hi). eexists. eapply (proc_thread _ _ _ _ _ _ t); [done|done|].
      apply (t_leave _ _ _ s t []); try done; [apply awaited_may_leave; [done|by rewrite Hr]|constructor].
    + destruct (panicked s r) as [(t & Ht & Hr & Hp)|Hnp]; [|eexists; apply proc_main, (main_join _ _ s r); [done|done|by left]].
      destruct (decide (r = ApiServer /\ api_joined s = true)) as [Hapi|Hapi].
      * eexists. apply proc_main, (main_join _ _ s r); [done|done|by right].
      * eexists. apply proc_main. by apply (main_join_panic _ _ s r t).
  - destruct (decide (Exists (fun t : Thread => t.1 = MetadataWriter /\ over s t = true) threads)) as [He|Hn].
    { apply Exists_exists in He as (t & Ht & Hr & Hov). eexists. apply proc_main. by apply (main_barrier_failed _ _ s t). }
    destruct (decide (Exists (fun t : Thread => t.1 = MetadataWriter /\ busy (nodes s t)) threads)) as [He|Hidle].
    + apply Exists_exists in He as (t & Ht & Hr & Hb). apply (busy_moves s Hs Hx (S (rank t.1)) t); [lia|done| |done].
      destruct (over s t) eqn:E; [|done]. exfalso. apply Hn, Exists_exists. by exists t.
    + eexists. apply proc_main, main_barrier; [done|]. intros t Ht Hr.
      assert (over s t = false) as Hov by (destruct (over s t) eqn:E; [exfalso; apply Hn, Exists_exists; by exists t|done]).
      split; [done|]. destruct (idle_looping s t Hov) as (_ & ? & ?); [|done]. intros Hb. apply Hidle, Exists_exists. by exists t.
Qed.
End Moves.

End Shutdown.

(** ** A run *)

Definition two_threads : list Thread := [(Capture, 0%nat); (FlowShard, 0%nat)].

Definition three_threads : list Thread := [(FlowShard, 0%nat); (L7Worker, 0%nat); (SegmentWriter, 0%nat)].

Abbreviation ex_reachable := (reachable (Msg := Z) (fun _ => false) (fun _ => 1%nat)).

Ltac each_thread :=
  let t := fresh "t" in let Ht := fresh "Ht" in let Hr := fresh "Hr" in
  intros t Ht Hr; unfold two_threads, three_threads in Ht; rewrite !elem_of_cons, elem_of_nil in Ht;
  repeat (destruct Ht as [-> | Ht]); try destruct Ht; first [discriminate Hr | reflexivity | vm_compute; congruence].

Ltac joins r := eapply rtc_l; [apply any_proc, proc_main, (main_join _ _ _ r); [reflexivity|each_thread|left; each_thread] | ].
Ltac turn t H := eapply rtc_l; [apply any_proc, (proc_thread _ _ _ _ _ _ t); [reflexivity|unfold two_threads, three_threads; set_solver|H] | ].
Ltac leaves t := turn t ltac:(apply (t_leave _ _ _ _ _ []); [reflexivity..| |constructor]; first [exact I | split; [reflexivity|each_thread]]);
  turn t ltac:(apply t_end; reflexivity).

(** A packet goes from capture to a flow shard, then a signal stops the process. *)
Lemma packet_then_signal : exists s,
  ex_reachable two_threads true s /\ main_at s = Returned true /\ handled (nodes s (FlowShard, 0%nat)) = [7].
Proof.
  eexists. split.
  { unfold reachable.
    turn (Capture, 0%nat) ltac:(apply (t_source _ _ _ _ _ [((FlowShard, 0%nat), 7)]); [reflexivity..|repeat constructor]).
    turn (Capture, 0%nat) ltac:(eapply (t_send _ _ _ _ _ _ _ []); [reflexivity..|vm_compute; apply le_n]).
    eapply rtc_l; [apply any_proc, proc_main, (main_event _ _ _ (TerminationSignal true)); [reflexivity|done]|].
    leaves (Capture, 0%nat). joins Capture. joins RawWriter.
    turn (FlowShard, 0%nat) ltac:(eapply (t_receive _ _ _ _ _ _ _ []); [reflexivity..|constructor]).
    leaves (FlowShard, 0%nat).
    joins FlowShard. joins L7Worker. joins MatcherWorker. joins ReplayTask. joins ApiServer. joins SegmentWriter.
    eapply rtc_l; [apply any_proc, proc_main, main_barrier; [reflexivity|each_thread]|].
    joins MetadataWriter. joins Projector. apply rtc_refl. }
  split; reflexivity.
Qed.

(** The segment writer fails while the shutdown drains the queues: a record is lost
    and [run] returns without an error. *)
Example silent_writer_failure : exists s,
  ex_reachable three_threads true s /\ main_at s = Returned true /\ lost s = [(SegmentWriter, 0%nat)].
Proof.
  eexists. split.
  { unfold reachable.
    eapply rtc_l; [apply any_proc, proc_main, (main_event _ _ _ (TerminationSignal true)); [reflexivity|done]|].
    joins Capture. joins RawWriter.
    turn (FlowShard, 0%nat) ltac:(apply (t_leave _ _ _ _ _ [((L7Worker, 0%nat), 7)]); [reflexivity..| |];
      [split; [reflexivity|each_thread]|repeat constructor]).
    turn (FlowShard, 0%nat) ltac:(eapply (t_send _ _ _ _ _ _ _ []); [reflexivity..|vm_compute; apply le_n]).
    turn (FlowShard, 0%nat) ltac:(apply t_end; reflexivity). joins FlowShard.
    turn (L7Worker, 0%nat) ltac:(eapply (t_receive _ _ _ _ _ _ _ [((SegmentWriter, 0%nat), 8)]); [reflexivity..|repeat constructor]).
    eapply rtc_l; [apply (any_fault _ _ _ _ _ _ (SegmentWriter, 0%nat)); [reflexivity|unfold three_threads; set_solver|by apply t_fail]|].
    turn (L7Worker, 0%nat) ltac:(eapply (t_refused _ _ _ _ _ _ _ [] false); reflexivity).
    leaves (L7Worker, 0%nat). joins L7Worker. joins MatcherWorker. joins ReplayTask. joins ApiServer. joins SegmentWriter.
    eapply rtc_l; [apply any_proc, proc_main, main_barrier; [reflexivity|each_thread]|].
    joins MetadataWriter. joins Projector. apply rtc_refl. }
  split; reflexivity.
Qed.

Lemma clean_return_drains_witness : exists s : Proc (Msg := Z),
  main_at s = Returned true /\ handled (nodes s (FlowShard, 0%nat)) = [7] /\
  ((forall t, t ∈ two_threads ->
    (phase (nodes s t) = Ended /\ handled (nodes s t) = accepted (nodes s t) /\ outbox (nodes s t) = []) \/
    (phase (nodes s t) = Failed /\ (t.1 = MetadataWriter -> handled (nodes s t) = accepted (nodes s t)))) /\
  ((forall t, t ∈ two_threads -> may_fail t.1 = true -> phase (nodes s t) <> Failed) ->
   lost s = [] /\ forall t, t ∈ two_threads -> phase (nodes s t) = Ended)).
Proof.
  destruct packet_then_signal as (s & Hr & Hat & Hh). exists s. split; [exact Hat|]. split; [exact Hh|].
  exact (clean_return_drains (fun _ => false) (fun _ => 1%nat) two_threads true s Hr Hat).
Defined.

Definition stopping : Proc (Msg := Z) := supervise two_threads true (TerminationSignal true) process_started.

